(* ===== verification/_CoqProject ===== *)
-Q . S2P
Prelude.v
Bytes.v
GasEstimate.v
ByteBuffer.v
Serializer.v
Messages.v
Blocks.v
Proposals.v
Commits.v
Canonical.v
Rlp.v
Transactions.v
Configuration.v
RoundCalculator.v
JsMap.v
Lock.v
Ipc.v
Queue.v
Quorum.v
ValidatorSet.v
Election.v
ElectionVotes.v
ElectionRounds.v
ElectionTheorems.v
ContractService.v
BlockchainUtils.v
RoundState.v
RoundStateFacts.v
ConsensusStorage.v
Node.v
BlockProcessor.v
Ledger.v
Forger.v
Processors.v
CommitBatch.v
Peers.v
PeersTheorems.v
MessageDownloader.v
MessageExchange.v
ProposalDownloader.v
Consensus.v
BlockDownloader.v
BlockSync.v
BlockExchange.v
ConsensusHeap.v
ConsensusInvariant.v
ConsensusSafety.v
ConsensusTheorems.v
BlockRefinement.v
ConsensusProgress.v
Bootstrapper.v
Agreement.v
Scenario.v
Solo.v
SenderState.v
Mempool.v
PoolService.v
PoolFacts.v
PoolInvariant.v
PoolTheorems.v
PoolFront.v
ApiSync.v
ApiSyncTheorems.v
PoolScenario.v
Witnesses.v
P2PScenario.v
LedgerScenario.v
