(* ===== verification/Prelude.v ===== *)
(** * Mainsail: a verification development of the blockchain core

    Mainsail is a node of a proof-of-stake blockchain written in TypeScript: a
    Tendermint consensus engine, the wire formats of its messages, a block
    processor that drives an EVM, a durable store of consensus records, and the
    services around them.  This library models the parts under src/packages that
    decide what the chain is, with the contract that elects its validators
    (src/contracts), and proves what they promise.

    ** The parts and their files

    - [Prelude] (this file): errors, results, the state-and-error monad in which
      code that mutates objects is written, triples, record update, automation.
    - [GasEstimate]: api-evm/actions/eth-estimate-gas.ts: the binary search for a gas
      limit, with its quotient in doubles.
    - [Bytes], [ByteBuffer], [Serializer]: hexadecimal text, integers of fixed
      width, the signer bitmap (utils/validator-set-pack.ts), the byte buffer
      (utils/byte-buffer.ts) and the schema-driven serializer
      (serializer/serializer.ts).  A numeric property is a [Z] with the width
      check of the write; bytes are [list byte].
    - [Messages], [Blocks], [Proposals], [Commits]: crypto-messages,
      crypto-block, crypto-proposal and crypto-commit: schemas, serializers,
      deserializers, JSON-schema checks, factories, and crypto-validation's
      keywords.
    - [Canonical]: reading is the inverse of writing, for the serializer, blocks and
      commits.
    - [Rlp], [Transactions]: crypto-transaction: the RLP decoder of deserializer.ts,
      serializer.ts, hash.factory.ts, factory.ts and the schema of transactions.
    - [Configuration], [RoundCalculator]: crypto-config/configuration.ts and
      blockchain-utils/round-calculator.ts: milestones with their cached lookup,
      and the rounds they induce.
    - [JsMap]: insertion-ordered maps and growing arrays.
    - [Lock]: utils/lock.ts, the lock behind which handlers and pool calls run:
      one step per continuation between two awaits.
    - [Ipc]: kernel/ipc: the calls to a worker thread, on both sides: subprocess.ts,
      handler.ts and emit.ts with the promises and the messages between them.
    - [Queue]: kernel/services/queue/drivers/memory.ts: the queue of jobs in memory, one
      step per continuation.
    - [Election]: contracts/consensus/ConsensusV1.sol: validators register and resign,
      accounts vote, the top validators make a round.  [ElectionVotes],
      [ElectionRounds], [ElectionTheorems]: its linked list of voters and the sums over
      it, its array of active validators and the selection of a round, and what holds
      after any transactions.
    - [ContractService]: evm-consensus/services: the node's view of that contract, and
      the iterators over its votes and rounds.
    - [Quorum], [BlockchainUtils], [ValidatorSet]: the rest of blockchain-utils
      (majorities, proposers, timestamps, fees, RANDAO) and
      evm-consensus/validator-set.ts.
    - [RoundState], [RoundStateFacts]: consensus/round-state.ts,
      commit-state.ts and aggregator.ts.
    - [ConsensusStorage]: consensus-storage/service.ts over its LMDB tables.
    - [BlockProcessor]: processor/block-processor.ts, transaction-processor.ts
      and the thirteen verifiers.
    - [Ledger]: how a commit is stored and read back: evm-service's
      [#prepareCommitData], the tables of evm/core/src/db.rs, the storage entry
      points of the factories, database/database-service.ts, the handlers of a
      commit that write, and what bootstrap/bootstrapper.ts restores.
    - [Forger]: forger/block-forger.ts, transaction-forger.ts and
      transaction-iterable.ts: how a proposer fills its block, with snapshots and
      rollback, over the same interface of the EVM as the processor.
    - [SenderState], [Mempool], [PoolService]: transaction-pool-service: the
      admission checks of a sender with her wallet (state/wallets/wallet.ts), the
      per-sender queues, the pool with its storage and its queries, the
      operations of the service, and the selector of batches.
    - [PoolFacts], [PoolInvariant], [PoolTheorems]: what each operation of the
      pool does, the invariant of pool and storage, and the life of the service
      as a sequence of calls; [PoolScenario] is a concrete pool.
    - [PoolFront]: transaction-pool-service/processor.ts, through which transactions
      come in, and the handlers of transaction-pool-worker that follow the chain.
    - [ApiSync], [ApiSyncTheorems]: api-sync/service.ts with the tables of api-database/models:
      what the API's database is told of a committed unit, the SQL that writes it, and
      the queue of these jobs with their attempts.
    - [Node]: everything a node's consensus shares: the state store
      (state/store.ts), the repository of round states, the scheduler
      (consensus/scheduler.ts), the fields of consensus.ts, and [World], the
      record of all of it with the queue of jobs behind the handler lock, the
      processor calls in flight, and the trace of what was signed, recorded and
      committed.
    - [Processors], [Consensus], [Bootstrapper]: consensus/processors/*.ts,
      consensus.ts and bootstrapper.ts.
    - [CommitBatch]: the checks of a downloaded batch of commits.
    - [Peers], [PeersTheorems]: p2p/peer-repository.ts, peer-disposer.ts,
      peer-processor.ts, peer-verifier.ts and the cleansing of service.ts, one
      handler per await.
    - [MessageDownloader], [MessageExchange]: p2p/downloader/message-downloader.ts,
      and what a peer answers to it (header.ts, controllers/get-messages.ts).
    - [ProposalDownloader]: p2p/downloader/proposal-downloader.ts and
      controllers/get-proposal.ts.
    - [BlockDownloader], [BlockSync]: p2p/downloader/block-downloader.ts with
      pending-commits.ts, one handler per await, and its invariant;
      [BlockExchange]: what a peer answers (controllers/get-blocks.ts,
      database/database-service.ts and the range query of evm/core/src/db.rs);
      [BlockRefinement]: the downloader refines the environment of the consensus.
    - [ConsensusHeap], [ConsensusInvariant], [ConsensusSafety],
      [ConsensusTheorems]: the invariant of a node and what follows from it;
      [ConsensusProgress]: its handlers complete.
    - [Agreement]: the abstract protocol, and the refinement of it by a network
      of nodes.
    - [Scenario], [Solo], [Witnesses], [P2PScenario], [LedgerScenario]: concrete networks and inputs
      on which the theorems' hypotheses hold.

    ** How the code is translated

    Objects that are shared (round states, commit states) live in a heap of
    [World] under locations; the methods of one object are functions of its
    record.  A thrown error is a value, and the state reached when it is thrown
    is kept.  An [await] inside a handler is [await]: the environment runs first
    (deliveries, timers, verified signatures, background tasks), as the list of
    actions that [w_env] holds for that point; all theorems quantify over that
    list.  Downloaded commits enter by three of these actions: a batch is verified
    and becomes pending, a pending commit is taken and handed to the processor, the
    pending ones are cleared; [downloader_refines] shows that the block downloader does no more.
    In the downloaders an answer of a peer, a continuation of a call and a listener
    are handlers of their own, in any order.  Handlers behind the handler lock run one at a time, in any order; that
    the lock gives exactly this is [lock_excludes].
    Code of other packages that a component only calls is an argument or a class:
    [Viem], [TransactionCodec], [HashFactory], [BlsWorker], [ConsensusContract],
    [Deepmerge], [Evm], [ForgerEvm], [LegacySignature], [ViemRlp], [WalletCrypto],
    [Networking], [EvmCall], [ContractCrypto], [ContractCalls], and [Services], which collects what a
    node uses.  Laws of these are named classes ([BlsLaws], [DeepmergeLaws],
    [EvmAgreement], [Unforgeable], [ViemLaws]) or hypotheses.

    ** What the theorems show

    - Consensus of one node ([never_equivocates] to [bootstrap_restores]): it never equivocates, also across a
      restart from its records; its position is written before it signs; it
      precommits and commits only on quorums; it respects its lock; bootstrapping
      restores exactly the recorded position, lock and valid value, each backed by stored
      prevotes, and every stored vote of the block.  [votes_in_window] adds that
      its position only grows.
      They hold in every state reachable by any interleaving, with any fuel.
    - Progress of one node ([handlers_complete]): handlers nest at most three deep and none waits
      for the commit lock that it holds, although the next block's first round
      starts inside the exclusive section.
    - The network ([network_agreement]): Tendermint's rules imply agreement, and nodes that run the
      program follow the rules.
    - Catching up ([handed_commits_verified], [downloader_refines], [block_jobs_ordered],
      [block_handlers_end], [get_blocks_fits], [message_requests_exclusive]): commits from peers are verified before
      the consensus sees them, against the block whose number is one less, and the downloader is one of the environments that
      the consensus is proved correct in; its jobs are consecutive ranges, its
      handlers end, an answer fits the client's frame, a vote is asked of one peer at
      a time while the headers are aligned.  [replay_stalls] is a job that is left
      waiting, [stale_marks] are marks that are never taken back, and
      [honest_truncation_banned], [honest_partial_answer] and [honest_full_answer]
      say which answers of honest peers do not pass.
    - Blocks ([process_refines], [accepted_block_valid], [forged_block_accepted]): the processor accepts exactly the blocks that obey
      the rules, and an accepted
      block extends the chain by the validator whose turn it was; what the forger
      makes is accepted exactly if it fits into the maximal payload.
      [process_bounds]: never more gas or fees than claimed.
    - The ledger ([restart_restores_chain], [stored_commit_roundtrip], [database_lookups]): a restart restores the chain and the queries by hash find what was committed, and
      nothing else, if the bytes of all transactions are canonical; a stored commit is read
      back the same then and cannot be read by peers otherwise ([malleated_commit_unreadable]).
    - Formats ([commit_bytes_canonical], [transaction_shortest], [transaction_malleable],
      [transaction_roundtrip], [signing_bytes_injective], [block_roundtrip], [proposal_roundtrip],
      [commit_roundtrip], [validatorSet_roundtrip],
      [validator_index_roundtrip], [proposal_payload_agrees],
      [parseSerializedPayload_agrees]): the bytes of a commit are canonical, those of
      a transaction are not, although its serialized form is the unique shortest
      one; round trips, injectivity of signing bytes,
      agreement of the two parsers of a proposal.
    - Peers ([banned_peer_absent], [peers_verified]): no banned peer is in the repository and every peer in it sent
      a block of the node's own chain, under any interleaving; [failed_acceptance_sticks] is a peer that can
      never come back.
    - Round states and the store ([roundState_counts_exact], [aggregate_verifies],
      [storage_refines]): counts are exact, by type and value of
      each validator's first vote (and majorities
      unique, [majority_unique]), aggregated proofs verify; the store keeps, under each key,
      the last record since the save of a newer block cleared it, through failed writes and
      restarts, and [restart_loses_records] is a case in which a restart loses records.
    - The lock ([lock_excludes], [lock_serves]): exclusive callbacks run alone, and every
      call is served.
    - Worker threads ([own_answer], [calls_settle]): a call gets the answer that was made
      for it, and nothing waits for ever, under any interleaving of messages, crashes
      and shutdowns.
    - The queue in memory ([queue_fifo]) is a first-in-first-out queue, also when jobs and
      their reports fail.
    - The API's database ([api_mirrors_chain], [resync_credits_twice]): block number, supply
      and wallets follow the committed units in their order, whichever attempts are rolled
      back; a unit whose acknowledgement is lost credits its proposer twice.
    - The election ([election_sound], [round_elected], [round_served],
      [iterations_complete]): lists, sums, active validators and keys of the contract
      agree after any transactions; a round is the top of the active validators, shuffled;
      the node's validator set is that round; reading in pages is complete.
    - Gas ([estimate_succeeds], [estimate_tight]): the search ends at a limit with which
      the call succeeds, close to the smallest
      if no execution with more than the gas used ends in an error.
    - Milestones and rounds ([rounds_partition], [getMilestone_cached], [milestone_inheritance],
      [restated_validators], [spans_terminate], [proposer_rotation]): the cached
      lookup, inheritance,
      partition into rounds, termination, a disagreement between the check and
      the calculator, fair rotation of proposers; [BlockchainUtils] also has the
      exact sum and the bounds of the minimal timestamp.
    - The transaction pool ([sender_queue_ok], [priority_order], [pool_consistent],
      [selector_batches], [submissions_processed], [worker_serves]): a sender's queue has consecutive nonces
      that she can pay for, after every operation; the order offered to block
      production is complete, by nonce and greedy by gas price; pool and database
      hold the same transactions, within the limit, after any sequence of calls;
      the batches of one proposal cut the order into consecutive maximal pieces;
      what is submitted is accepted and announced exactly if the pool takes it, and
      rejected with its error otherwise; a commit clears the batches, and the re-adding
      that it starts at a new milestone, which it does not await, runs at any later moment
      before the next call under the pool's lock.
      [unpaid_replacement_lost] is a replacement that is reported as accepted and lost.

    ** Fuel

    [applyRules] calls itself through the start of a round, with a fuel argument;
    the theorems of [ConsensusTheorems] are about every fuel, so they do not
    depend on it, and [handlers_complete] shows that 3 is enough: a higher round, a commit, the
    first round of the next block.  A run that exceeded it, or waited for itself,
    would leave [EvStuck] in the trace.  [spansLoop] has the number of milestones as fuel
    and never runs out of it ([spans_terminate]).  The forward walk of [getMilestone] has the
    length of the list.  The pool's loops run on the size of the pool, and
    [priority_order] and [pool_consistent] show that it is enough.  [decodeFields] has 12, one more than
    the fields it reads ([decodeRlp_fuel]).  [processNextJob] runs on the number of jobs
    ([block_handlers_end]), [tryLoop] on the number of peers ([tryToDownload_terminates]).  The loops of the
    contract over the list of a round have its length ([insertLoop_run], [deleteLoop_run]),
    the search for gas has the logarithms of the limits ([search_ends]), an iteration one
    step more than there are values.  [OutOfFuel] is an error of its own that no handler
    catches.

    ** Not modelled

    Logging and events (they change no state), sockets, codecs and discovery
    (p2p: the environment delivers arbitrary bytes and picks
    the peers), the EVM with its accounts and receipts, the processing of the genesis
    block at the first start, the APIs
    but for the estimate of gas and the writing of their database, tokens and multi-payments
    in that database, the command line, the kernel but for its worker threads and its queue, key management, migration tools, and the JSON
    entry points of the factories.  Storage converts values between JavaScript and
    Rust without loss.  A number above 2^53 in the bytes of a transaction, which
    JavaScript would round before the schema rejects it, is rejected at once.  The consensus model takes the forged
    block as an arbitrary answer of [forgeBlock]; [Forger] is compared with the
    block processor, not run inside a node.  Calls of the pool
    service run one after the other, except for the re-adding that a commit leaves behind:
    the overlap of several additions, which the
    lock of the service allows, is not modelled.  Of the contract, ownership, upgrades and
    events are left out, and calls that a refund makes back are transactions of their own.
    Numbers are exact
    integers: JavaScript's doubles are exact below 2^53, which the width checks
    of the formats and [minimal_timestamp_bounds] keep.  Cryptography is a parameter: nothing is proved
    about it. *)
From stdpp Require Export prelude gmap strings list.
From Stdlib Require Export ZArith Lia.

#[global] Open Scope Z_scope.
Declare Scope mainsail_scope.
Delimit Scope mainsail_scope with ms.

(** ** Functional record update

    The source mutates fields of objects.  [r <| f := v |>] is the record [r]
    with field [f] replaced; a record type takes part by giving its
    eta-expansion as an [Eta] instance. *)
Class Eta (R : Type) := eta : R → R.
Class Setter {R T : Type} (f : R → T) := set_field : (T → T) → R → R.
Arguments set_field {R T} f {_} _ _ : simpl nomatch.

Ltac solve_setter f :=
  match goal with
  | |- @Setter ?R _ _ =>
      let i := constr:(_ : Eta R) in
      let i := eval red in i in
      let h := eval pattern f in i in
      match h with
      | ?k _ =>
          let s := constr:(fun g => k (fun r => g (f r))) in
          let s := eval cbv beta in s in exact s
      end
  end.
#[export] Hint Extern 1 (@Setter _ _ ?f) => solve_setter f : typeclass_instances.

Notation "r <| f := v |>" := (set_field f (λ _, v) r)
  (at level 1, left associativity, f at next level, v at level 99) : mainsail_scope.
Notation "r <| f ::= g |>" := (set_field f g r)
  (at level 1, left associativity, f at next level, g at level 99) : mainsail_scope.
#[global] Open Scope mainsail_scope.

(** ** Errors and results

    A thrown JavaScript error is a value.  [JSError] carries the constant part
    of the message, [NamedError] the class name from packages/exceptions,
    [PoolError] the [type] field of a transaction-pool error, and [FatalError]
    stands for [app.fail], which stops the node.  [OutOfFuel] is not an error of
    the program: it marks a recursion that exceeded the model's fuel, and the
    theorems about fuelled functions show that it is not returned. *)
Inductive Error :=
  | JSError (message : string)
  | NamedError (class : string)
  | PoolError (type : string)
  | FatalError (reason : string)
  | OutOfFuel.

#[export] Instance Error_eq_dec : EqDecision Error.
Proof. solve_decision. Defined.

Inductive result (A : Type) :=
  | Ok (a : A)
  | Throw (e : Error).
Arguments Ok {A} a.
Arguments Throw {A} e.

#[export] Instance result_eq_dec {A} `{EqDecision A} : EqDecision (result A).
Proof. solve_decision. Defined.

#[export] Instance result_ret : MRet result := λ A a, Ok a.
#[export] Instance result_bind : MBind result := λ A B f m,
  match m with Ok a => f a | Throw e => Throw e end.
#[export] Instance result_fmap : FMap result := λ A B f m,
  match m with Ok a => Ok (f a) | Throw e => Throw e end.

Definition is_ok {A} (r : result A) : bool :=
  match r with Ok _ => true | Throw _ => false end.

(** [assert.defined(x)] of packages/utils. *)
Definition assert_defined {A} (x : option A) : result A :=
  match x with
  | Some a => Ok a
  | None => Throw (JSError "Expected value which is non-null and non-undefined.")
  end.

(** [assertType(condition, description)], and a guard that throws. *)
Definition guardR (b : bool) (e : Error) : result unit :=
  if b then Ok tt else Throw e.

(** ** The state-and-error monad

    Code that mutates shared state and may throw: the state reached when an
    error is thrown is kept, as it is in JavaScript. *)
Definition M (S A : Type) : Type := S → result A * S.

#[export] Instance M_ret {S} : MRet (M S) := λ A a s, (Ok a, s).
#[export] Instance M_bind {S} : MBind (M S) := λ A B f m s,
  match m s with
  | (Ok a, s') => f a s'
  | (Throw e, s') => (Throw e, s')
  end.

Section monad.
Context {S : Type}.

Definition throw {A} (e : Error) : M S A := λ s, (Throw e, s).
Definition get : M S S := λ s, (Ok s, s).
Definition gets {A} (f : S → A) : M S A := λ s, (Ok (f s), s).
Definition modify (f : S → S) : M S unit := λ s, (Ok tt, f s).
Definition liftR {A} (r : result A) : M S A := λ s, (r, s).
Definition run_in {A} (m : M S A) (s : S) : S := (m s).2.

(** [try { m } catch (e) { h e }]; running out of fuel is not catchable. *)
Definition tryCatch {A} (m : M S A) (h : Error → M S A) : M S A := λ s,
  match m s with
  | (Throw OutOfFuel, s') => (Throw OutOfFuel, s')
  | (Throw e, s') => h e s'
  | r => r
  end.

(** [try { m } finally { f }]. *)
Definition tryFinally {A} (m : M S A) (f : S → S) : M S A := λ s,
  let '(r, s') := m s in (r, f s').

Definition when (b : bool) (m : M S unit) : M S unit :=
  if b then m else mret tt.

(** [for (const x of l) { f x }], left to right, stopping at a throw. *)
Fixpoint forEach {A} (l : list A) (f : A → M S unit) : M S unit :=
  match l with
  | [] => mret tt
  | x :: l' => f x ;; forEach l' f
  end.
End monad.

Arguments M_ret {S} A a s /.

(** Inverting a successful run. *)
Lemma bind_Ok {A B} (r : result A) (f : A → result B) b :
  r ≫= f = Ok b → ∃ a, r = Ok a ∧ f a = Ok b.
Proof. destruct r; [| done]. eauto. Qed.

Lemma M_bind_Ok {S A B} (m : M S A) (f : A → M S B) s b :
  ((m ≫= f) s).1 = Ok b → ∃ a s', m s = (Ok a, s') ∧ (f a s').1 = Ok b.
Proof. unfold mbind, M_bind. destruct (m s) as [[a|] s']; [eauto | done]. Qed.

Lemma M_bind_inv {S A B} (m : M S A) (f : A → M S B) s b s' :
  (m ≫= f) s = (Ok b, s') → ∃ a s1, m s = (Ok a, s1) ∧ f a s1 = (Ok b, s').
Proof. unfold mbind, M_bind. destruct (m s) as [[a|] s1]; [eauto | done]. Qed.

Lemma liftR_inv {S A} (r : result A) (s : S) a s' : liftR r s = (Ok a, s') → r = Ok a ∧ s' = s.
Proof. by intros [= -> ->]. Qed.

(** Running a successful first step. *)
Lemma M_bind_run {S A B} (m : M S A) (f : A → M S B) s a s' : m s = (Ok a, s') → (m ≫= f) s = f a s'.
Proof. intros Hm. unfold mbind, M_bind. by rewrite Hm. Qed.

(** ** Triples

    [{{ P }} m {{ Q ; E }}]: from a state satisfying [P], [m] ends in a state
    satisfying [Q a] when it returns [a], and [E e] when it throws [e]. *)
Definition triple {S A} (P : S → Prop) (m : M S A)
    (Q : A → S → Prop) (E : Error → S → Prop) : Prop :=
  ∀ s, P s → match m s with
             | (Ok a, s') => Q a s'
             | (Throw e, s') => E e s'
             end.

Section triple.
Context {S : Type}.
Implicit Types (P : S → Prop) (E : Error → S → Prop).

Lemma triple_ret {A} (a : A) (Q : A → S → Prop) E :
  triple (Q a) (mret a) Q E.
Proof. intros s H. exact H. Qed.

Lemma triple_bind {A B} P (m : M S A) (f : A → M S B) R Q E :
  triple P m R E → (∀ a, triple (R a) (f a) Q E) → triple P (m ≫= f) Q E.
Proof.
  intros Hm Hf s HP. specialize (Hm s HP). unfold mbind, M_bind.
  destruct (m s) as [[a|e] s']; [by apply Hf | done].
Qed.

Lemma triple_weaken {A} P P' (m : M S A) (Q Q' : A → S → Prop) E E' :
  triple P' m Q' E' → (∀ s, P s → P' s) → (∀ a s, Q' a s → Q a s) →
  (∀ e s, E' e s → E e s) → triple P m Q E.
Proof.
  intros Hm HP HQ HE s Hs. specialize (Hm s (HP s Hs)).
  destruct (m s) as [[a|e] s']; auto.
Qed.

Lemma triple_modify P (f : S → S) (Q : unit → S → Prop) E :
  (∀ s, P s → Q tt (f s)) → triple P (modify f) Q E.
Proof. intros H s HP. by apply H. Qed.

Lemma triple_throw {A} P e (Q : A → S → Prop) E :
  (∀ s, P s → E e s) → triple P (throw e) Q E.
Proof. intros H s HP. by apply H. Qed.

Lemma triple_forEach {A} (I : S → Prop) (l : list A) (f : A → M S unit) E :
  (∀ x, x ∈ l → triple I (f x) (λ _, I) E) →
  triple I (forEach l f) (λ _, I) E.
Proof.
  induction l as [|x l IH]; intros Hf; simpl; [by intros st Hst |].
  apply (triple_bind _ _ _ (λ _, I)); [apply Hf; left |].
  intros ?. apply IH. intros y Hy. apply Hf. by right.
Qed.
End triple.

(** ** Booleans and options *)
Definition isSome {A} (o : option A) : bool :=
  match o with Some _ => true | None => false end.

Lemma isSome_true {A} (o : option A) : isSome o = true ↔ ∃ a, o = Some a.
Proof. destruct o; simpl; split; [eauto|done|done|by intros [? ?]]. Qed.

Lemma isSome_false {A} (o : option A) : isSome o = false ↔ o = None.
Proof. destruct o; simpl; split; done. Qed.

(** Boolean guards of the source become hypotheses: [simpl_bool] splits the
    conjunctions and reflects the comparisons. *)
Ltac simpl_bool :=
  repeat match goal with
  | H : _ && _ = true |- _ => apply andb_true_iff in H as [??]
  | H : _ || _ = false |- _ => apply orb_false_iff in H as [??]
  | H : negb _ = true |- _ => apply negb_true_iff in H
  | H : negb _ = false |- _ => apply negb_false_iff in H
  | H : (_ =? _)%Z = true |- _ => apply Z.eqb_eq in H
  | H : (_ =? _)%Z = false |- _ => apply Z.eqb_neq in H
  | H : (_ <? _)%Z = true |- _ => apply Z.ltb_lt in H
  | H : (_ <? _)%Z = false |- _ => apply Z.ltb_ge in H
  | H : (_ <=? _)%Z = true |- _ => apply Z.leb_le in H
  | H : (_ <=? _)%Z = false |- _ => apply Z.leb_gt in H
  | H : bool_decide _ = true |- _ => apply bool_decide_eq_true_1 in H
  | H : bool_decide _ = false |- _ => apply bool_decide_eq_false_1 in H
  end.

(** Splits a successful run in [H] into the runs of its steps. *)
Ltac inv_run H :=
  repeat (let a := fresh "a" in let s := fresh "s" in let Hm := fresh "Hm" in
          apply M_bind_inv in H as (a & s & Hm & H)).

(** The hint database of the development. *)
Create HintDb mainsail discriminated.
#[export] Hint Resolve triple_ret triple_modify triple_forEach : mainsail.
