(* ===== verification/Bytes.v ===== *)
(** * Bytes, machine integers and hexadecimal text

    What the source uses of Node's [Buffer]: bytes, little- and big-endian
    unsigned integers, and the "hex" encoding ([Buffer.from(s, "hex")] stops at
    the first pair that is not two hexadecimal digits and drops an odd last
    digit; [toString("hex")] writes lower-case pairs).  Also
    packages/utils/source/validator-set-pack.ts, the signer bitmap. *)
From S2P Require Import Prelude.
From Stdlib Require Export Strings.Byte.
From Stdlib Require Import Ascii.
#[global] Open Scope Z_scope.

#[export] Instance byte_eq_dec : EqDecision byte := Byte.byte_eq_dec.

(** ** Bytes as integers *)
Definition Z_of_byte (b : byte) : Z := Z.of_N (Byte.to_N b).
Definition byte_of_Z (z : Z) : byte :=
  default x00 (Byte.of_N (Z.to_N (z mod 256))).

Lemma Z_of_byte_range b : 0 ≤ Z_of_byte b < 256.
Proof.
  unfold Z_of_byte. pose proof (Byte.to_N_bounded b). lia.
Qed.

Lemma byte_of_Z_of_byte b : byte_of_Z (Z_of_byte b) = b.
Proof.
  unfold byte_of_Z. rewrite Z.mod_small by apply Z_of_byte_range.
  unfold Z_of_byte. by rewrite N2Z.id, Byte.of_to_N.
Qed.

Lemma Z_of_byte_of_Z z : Z_of_byte (byte_of_Z z) = z mod 256.
Proof.
  unfold byte_of_Z, Z_of_byte.
  pose proof (Z.mod_pos_bound z 256 ltac:(lia)) as Hb.
  destruct (Byte.of_N (Z.to_N (z mod 256))) as [b|] eqn:Hof; simpl.
  - apply Byte.to_of_N in Hof. rewrite Hof. lia.
  - apply Byte.of_N_None_iff in Hof. lia.
Qed.

(** ** Little-endian integers of [n] bytes *)
Fixpoint le_encode (n : nat) (z : Z) : list byte :=
  match n with
  | O => []
  | S n' => byte_of_Z z :: le_encode n' (z / 256)
  end.

Fixpoint le_decode (bs : list byte) : Z :=
  match bs with
  | [] => 0
  | b :: bs' => Z_of_byte b + 256 * le_decode bs'
  end.

Lemma length_le_encode n z : length (le_encode n z) = n.
Proof. revert z; induction n; intros z; simpl; auto. Qed.

Lemma pow256_succ n : 256 ^ Z.of_nat (S n) = 256 * 256 ^ Z.of_nat n.
Proof. rewrite Nat2Z.inj_succ, Z.pow_succ_r; lia. Qed.

Lemma le_decode_encode n z :
  0 ≤ z < 256 ^ Z.of_nat n → le_decode (le_encode n z) = z.
Proof.
  revert z; induction n as [|n IH]; intros z Hz; simpl; [simpl in Hz; lia |].
  rewrite pow256_succ in Hz. rewrite IH, Z_of_byte_of_Z.
  - pose proof (Z.div_mod z 256). lia.
  - split; [apply Z.div_pos; lia | apply Z.div_lt_upper_bound; lia].
Qed.

Lemma le_decode_bounds bs : 0 ≤ le_decode bs < 256 ^ Z.of_nat (length bs).
Proof.
  induction bs as [|b bs IH]; [simpl; lia |].
  change (length (b :: bs)) with (S (length bs)). rewrite pow256_succ.
  pose proof (Z_of_byte_range b). simpl. lia.
Qed.

Lemma le_encode_decode bs : le_encode (length bs) (le_decode bs) = bs.
Proof.
  induction bs as [|b bs IH]; [done |]. simpl.
  pose proof (Z_of_byte_range b) as Hb.
  assert ((Z_of_byte b + 256 * le_decode bs) / 256 = le_decode bs) as ->.
  { rewrite Z.mul_comm, Z.div_add by lia. rewrite Z.div_small by lia. lia. }
  rewrite IH. f_equal. rewrite <- (byte_of_Z_of_byte b) at 2.
  unfold byte_of_Z. by rewrite Z.mul_comm, Z.mod_add by lia.
Qed.

Lemma le_encode_inj n z z' :
  0 ≤ z < 256 ^ Z.of_nat n → 0 ≤ z' < 256 ^ Z.of_nat n →
  le_encode n z = le_encode n z' → z = z'.
Proof.
  intros Hz Hz' Heq. rewrite <- (le_decode_encode n z), <- (le_decode_encode n z') by done.
  by f_equal.
Qed.

(** Big-endian: Ethereum's 256-bit quantities, most significant byte first. *)
Definition be_encode (n : nat) (z : Z) : list byte := reverse (le_encode n z).
Definition be_decode (bs : list byte) : Z := le_decode (reverse bs).

Lemma length_be_encode n z : length (be_encode n z) = n.
Proof. unfold be_encode. by rewrite length_reverse, length_le_encode. Qed.

Lemma be_decode_encode n z :
  0 ≤ z < 256 ^ Z.of_nat n → be_decode (be_encode n z) = z.
Proof.
  unfold be_decode, be_encode. rewrite reverse_involutive. apply le_decode_encode.
Qed.

Lemma be_encode_decode bs : be_encode (length bs) (be_decode bs) = bs.
Proof.
  unfold be_decode, be_encode. rewrite <- length_reverse, le_encode_decode.
  apply reverse_involutive.
Qed.

(** ** Hexadecimal text *)
Definition hex_digit (z : Z) : ascii :=
  ascii_of_N (Z.to_N (if z <? 10 then z + 48 else z + 87)).

Definition hex_value (a : ascii) : option Z :=
  let n := Z.of_N (N_of_ascii a) in
  if (48 <=? n) && (n <=? 57) then Some (n - 48)
  else if (97 <=? n) && (n <=? 102) then Some (n - 87)
  else if (65 <=? n) && (n <=? 70) then Some (n - 55)
  else None.

(** [bytes.toString("hex")]. *)
Fixpoint hexEncode (bs : list byte) : string :=
  match bs with
  | [] => EmptyString
  | b :: bs' =>
      String (hex_digit (Z_of_byte b / 16))
        (String (hex_digit (Z_of_byte b mod 16)) (hexEncode bs'))
  end.

(** [Buffer.from(s, "hex")]. *)
Fixpoint hexDecode (s : string) : list byte :=
  match s with
  | String a (String b s') =>
      match hex_value a, hex_value b with
      | Some x, Some y => byte_of_Z (16 * x + y) :: hexDecode s'
      | _, _ => []
      end
  | _ => []
  end.

Lemma hex_value_digit z : 0 ≤ z < 16 → hex_value (hex_digit z) = Some z.
Proof.
  intros Hz.
  assert (∃ n : nat, z = Z.of_nat n ∧ (n < 16)%nat) as (n & -> & Hn).
  { exists (Z.to_nat z). lia. }
  do 16 (destruct n as [|n]; [reflexivity |]). lia.
Qed.

Lemma hexDecode_Encode bs : hexDecode (hexEncode bs) = bs.
Proof.
  induction bs as [|b bs IH]; [done |]. cbn [hexEncode hexDecode].
  pose proof (Z_of_byte_range b).
  rewrite !hex_value_digit, IH.
  - f_equal. rewrite <- (byte_of_Z_of_byte b) at 3. f_equal.
    pose proof (Z.div_mod (Z_of_byte b) 16). lia.
  - apply Z.mod_pos_bound; lia.
  - split; [apply Z.div_pos; lia | apply Z.div_lt_upper_bound; lia].
Qed.

(** Canonical text: what [toString("hex")] produces. *)
Definition isHexText (s : string) : Prop := hexEncode (hexDecode s) = s.

Lemma isHexText_encode bs : isHexText (hexEncode bs).
Proof. unfold isHexText. by rewrite hexDecode_Encode. Qed.

#[export] Instance isHexText_dec s : Decision (isHexText s).
Proof. unfold isHexText. apply _. Defined.

Lemma length_hexEncode bs : String.length (hexEncode bs) = (2 * length bs)%nat.
Proof. induction bs; simpl; lia. Qed.

(** ** The signer bitmap *)
Fixpoint packFrom (index : Z) (validatorSet : list bool) : Z :=
  match validatorSet with
  | [] => 0
  | element :: rest => (if element then 2 ^ index else 0) + packFrom (index + 1) rest
  end.

Definition validatorSetPack (validatorSet : list bool) : Z := packFrom 0 validatorSet.

Fixpoint unpackFrom (packed mask : Z) (n : nat) : list bool :=
  match n with
  | O => []
  | S n' => negb (Z.land packed mask =? 0) :: unpackFrom packed (Z.shiftl mask 1) n'
  end.

Definition validatorSetUnpack (packed numberOfValidators : Z) : result (list bool) :=
  if numberOfValidators <? 0 then Throw (JSError "numberOfValidators must be a non-negative integer")
  else if packed <? 0 then Throw (JSError "packed must be non-negative")
  else if negb (Z.shiftr packed numberOfValidators =? 0) then
    Throw (JSError "packed contains set bits beyond numberOfValidators")
  else Ok (unpackFrom packed 1 (Z.to_nat numberOfValidators)).

Lemma packFrom_shift i l : 0 ≤ i → packFrom i l = 2 ^ i * packFrom 0 l.
Proof.
  revert i; induction l as [|b l IH]; intros i Hi; simpl; [lia |].
  rewrite (IH (i + 1)), (IH (0 + 1)) by lia.
  rewrite Z.pow_add_r by lia. destruct b; simpl; lia.
Qed.

Lemma pack_cons b l :
  validatorSetPack (b :: l) = Z.b2z b + 2 * validatorSetPack l.
Proof.
  unfold validatorSetPack. cbn [packFrom]. rewrite (packFrom_shift (0 + 1)) by lia.
  destruct b; simpl; lia.
Qed.

Lemma pack_bounds l : 0 ≤ validatorSetPack l < 2 ^ Z.of_nat (length l).
Proof.
  induction l as [|b l IH]; [unfold validatorSetPack; simpl; lia |].
  rewrite pack_cons. change (length (b :: l)) with (S (length l)).
  rewrite Nat2Z.inj_succ, Z.pow_succ_r by lia. destruct b; simpl; lia.
Qed.

Lemma land_pow2 packed i :
  0 ≤ i → negb (Z.land packed (2 ^ i) =? 0) = Z.testbit packed i.
Proof.
  intros Hi. destruct (Z.testbit packed i) eqn:Ht.
  - apply negb_true_iff, Z.eqb_neq. intros Hz.
    apply (f_equal (λ z, Z.testbit z i)) in Hz.
    rewrite Z.land_spec, Ht, Z.pow2_bits_true, Z.bits_0 in Hz; done.
  - apply negb_false_iff, Z.eqb_eq. apply Z.bits_inj'. intros j Hj.
    rewrite Z.land_spec, Z.bits_0, Z.pow2_bits_eqb by done.
    destruct (Z.eqb_spec i j) as [->|]; [by rewrite Ht | apply andb_false_r].
Qed.

Lemma unpackFrom_spec packed i n :
  0 ≤ i →
  unpackFrom packed (2 ^ i) n =
  map (λ k, Z.testbit packed (i + Z.of_nat k)) (seq 0 n).
Proof.
  revert i; induction n as [|n IH]; intros i Hi; [done |]. simpl.
  rewrite land_pow2 by done. f_equal; [f_equal; lia |].
  rewrite Z.shiftl_mul_pow2, Z.pow_1_r by lia.
  replace (2 ^ i * 2) with (2 ^ (i + 1)) by (rewrite Z.pow_add_r; lia).
  rewrite IH by lia. rewrite <- seq_shift, map_map.
  apply map_ext. intros k. f_equal. lia.
Qed.

Lemma testbit_pack l k :
  Z.testbit (validatorSetPack l) (Z.of_nat k) = default false (l !! k).
Proof.
  revert k; induction l as [|b l IH]; intros k.
  { unfold validatorSetPack; simpl. by rewrite Z.bits_0. }
  rewrite pack_cons, Z.add_comm. destruct k as [|k].
  - apply Z.testbit_0_r.
  - rewrite Nat2Z.inj_succ, Z.testbit_succ_r by lia. apply IH.
Qed.

Lemma map_lookup_seq {A} (d : A) (l : list A) :
  map (λ k, default d (l !! k)) (seq 0 (length l)) = l.
Proof.
  apply list_eq. intros i. rewrite list_lookup_fmap.
  destruct (decide (i < length l)%nat) as [Hi|Hi].
  - rewrite lookup_seq_lt by done. simpl.
    apply lookup_lt_is_Some_2 in Hi as [x ->]. done.
  - rewrite lookup_seq_ge by lia. by rewrite lookup_ge_None_2 by lia.
Qed.

Lemma unpack_eq packed n :
  0 ≤ packed < 2 ^ Z.of_nat n →
  validatorSetUnpack packed (Z.of_nat n) =
  Ok (map (λ k, Z.testbit packed (Z.of_nat k)) (seq 0 n)).
Proof.
  intros Hp. unfold validatorSetUnpack.
  destruct (Z.ltb_spec (Z.of_nat n) 0); [lia |].
  destruct (Z.ltb_spec packed 0); [lia |].
  rewrite Z.shiftr_div_pow2, Z.div_small by lia. simpl.
  rewrite Nat2Z.id. change 1 with (2 ^ 0). rewrite unpackFrom_spec by lia. done.
Qed.

Lemma unpack_pack l : validatorSetUnpack (validatorSetPack l) (Z.of_nat (length l)) = Ok l.
Proof.
  rewrite unpack_eq by apply pack_bounds. f_equal.
  etransitivity; [| apply (map_lookup_seq false)].
  apply map_ext. intros k. apply testbit_pack.
Qed.

Lemma unpack_Ok_inv packed n l :
  validatorSetUnpack packed n = Ok l →
  ∃ m, n = Z.of_nat m ∧ 0 ≤ packed < 2 ^ Z.of_nat m.
Proof.
  intros Hu. unfold validatorSetUnpack in Hu.
  destruct (Z.ltb_spec n 0); [done |]. destruct (Z.ltb_spec packed 0); [done |].
  destruct (Z.eqb_spec (Z.shiftr packed n) 0) as [Hs|]; [| done].
  exists (Z.to_nat n). rewrite Z2Nat.id by lia. split; [done |]. split; [done |].
  rewrite Z.shiftr_div_pow2 in Hs by lia.
  pose proof (Z.pow_pos_nonneg 2 n ltac:(lia) ltac:(lia)).
  apply Z.div_small_iff in Hs as [Hs|Hs]; lia.
Qed.

Lemma testbit_high p m k : 0 ≤ p < 2 ^ Z.of_nat m → Z.of_nat m ≤ k → Z.testbit p k = false.
Proof.
  intros Hp Hk. destruct (decide (p = 0)) as [->|]; [apply Z.bits_0 |].
  apply Z.bits_above_log2; [lia |]. apply Z.log2_lt_pow2; [lia |].
  eapply Z.lt_le_trans; [apply Hp |]. apply Z.pow_le_mono_r; lia.
Qed.

Lemma pack_unpack packed n l :
  validatorSetUnpack packed n = Ok l → validatorSetPack l = packed ∧ Z.of_nat (length l) = n.
Proof.
  intros Hu. destruct (unpack_Ok_inv _ _ _ Hu) as (m & -> & Hp).
  rewrite unpack_eq in Hu by done. injection Hu as <-.
  rewrite length_map, length_seq. split; [| done].
  apply Z.bits_inj'. intros k Hk. replace k with (Z.of_nat (Z.to_nat k)) by lia.
  rewrite testbit_pack, list_lookup_fmap.
  destruct (decide (Z.to_nat k < m)%nat).
  - by rewrite lookup_seq_lt by done.
  - rewrite lookup_seq_ge by lia. simpl. symmetry. apply (testbit_high _ m); [done | lia].
Qed.

(** Packing a signer list into the bitmap of the wire format and
    unpacking it with the same number of validators gives the list back, and
    every bitmap the unpacker accepts is the packing of the list it returns, so
    a bitmap has exactly one decoding and one encoding. *)
Theorem validatorSet_roundtrip (l : list bool) (packed n : Z) :
  validatorSetUnpack (validatorSetPack l) (Z.of_nat (length l)) = Ok l ∧
  (validatorSetUnpack packed n = Ok l → validatorSetPack l = packed ∧ Z.of_nat (length l) = n).
Proof. split; [apply unpack_pack | apply pack_unpack]. Qed.
