(* ===== verification/GasEstimate.v ===== *)
(** * packages/api-evm/source/actions/eth-estimate-gas.ts

    The search for the smallest gas limit with which a call succeeds.  The EVM is
    a parameter: [simulate] answers one context with a receipt or an error, and
    the state it simulates on does not change during the search.  Amounts are
    BigInts; the quotient that ends the search early is computed in doubles, as
    the code does, with the standard's definitions of [SpecFloat]. *)
From Stdlib Require Import Ascii SpecFloat.
From S2P Require Import Prelude Bytes.
#[local] Open Scope Z_scope.

(** ** BigInt of a hexadecimal quantity, and back *)
Fixpoint hexNumber (acc : Z) (s : string) : option Z :=
  match s with
  | EmptyString => Some acc
  | String a s' => match hex_value a with Some v => hexNumber (16 * acc + v) s' | None => None end
  end.

(** [BigInt(s)] for a string with the prefix [0x]; the schema lets nothing else
    through. *)
Definition bigintOf (s : string) : result Z :=
  match s with
  | String "0"%char (String "x"%char (String a s')) =>
      match hexNumber 0 (String a s') with Some z => Ok z | None => Throw (NamedError "SyntaxError") end
  | _ => Throw (NamedError "SyntaxError")
  end.

(** [z.toString(16)], for [z] not negative. *)
Fixpoint hexDigits (fuel : nat) (z : Z) (tail : string) : string :=
  match fuel with
  | O => tail
  | S fuel' =>
      let s := String (hex_digit (z mod 16)) tail in
      if z <? 16 then s else hexDigits fuel' (z / 16) s
  end.
Definition toString16 (z : Z) : string := hexDigits (S (Z.to_nat (Z.log2 z))) z "".
Definition quantity (z : Z) : string := ("0x" ++ toString16 z)%string.

(** ** Doubles *)
Definition prec : Z := 53.
Definition emax : Z := 1024.
Definition NumberOf (z : Z) : spec_float := binary_normalize prec emax z 0 false.
(** The literal 0.015: the double nearest to it. *)
Definition errorRatio : spec_float := S754_finite false 8646911284551352 (-59).
(** [Number(max - min) / Number(max) < errorRatio]. *)
Definition closeEnough (minGasLimit maxGasLimit : Z) : bool :=
  SFltb (SFdiv prec emax (NumberOf (maxGasLimit - minGasLimit)) (NumberOf maxGasLimit)) errorRatio.

(** ** The action *)
Record TxData := mkTxData {
  td_from : string; td_to : option string; td_data : option string;
  td_gas : option string; td_gasPrice : option string; td_value : option string;
}.

Record GasMilestone := mkGasMilestone { ms_maxGasLimit : Z; ms_evmSpec : string; ms_minimumGasPrice : Z }.

Record BlockContext := mkBlockContext {
  bc_blockNumber : Z; bc_round : Z; bc_gasLimit : Z; bc_prevrandao : list byte; bc_timestamp : Z; bc_validatorAddress : string;
}.

Record SimulateContext := mkSimulateContext {
  sc_blockContext : BlockContext; sc_data : list byte; sc_from : string; sc_gasLimit : Z; sc_gasPrice : Z;
  sc_nonce : Z; sc_specId : string; sc_to : option string; sc_value : Z;
}.
#[export] Instance eta_SimulateContext : Eta SimulateContext := λ c,
  mkSimulateContext (sc_blockContext c) (sc_data c) (sc_from c) (sc_gasLimit c) (sc_gasPrice c)
    (sc_nonce c) (sc_specId c) (sc_to c) (sc_value c).

Record SimulateReceipt := mkSimulateReceipt { rc_gasUsed : Z; rc_gasRefunded : Z; rc_status : Z }.

(** [EstimateOutcome]. *)
Record EstimateOutcome := mkEstimateOutcome {
  eo_receipt : option SimulateReceipt; eo_success : bool; eo_executionError : option string;
}.

Section estimate.
(** [evm.simulate], which throws an error with a message, [evm.getAccountInfo]'s
    nonce, [evm.codeAt], the milestone, the height and the clock. *)
Context (simulate : SimulateContext → SimulateReceipt + string).
Context (getNonce : string → result Z) (codeAt : string → result string).
Context (milestone : GasMilestone) (height now : Z).

Definition execute (context : SimulateContext) : EstimateOutcome :=
  match simulate context with
  | inl receipt => mkEstimateOutcome (Some receipt) (rc_status receipt =? 1) None
  | inr message => mkEstimateOutcome None false (Some message)
  end.

(** [if (executionError) throw]: an empty message is falsy. *)
Definition rejectError (outcome : EstimateOutcome) : result unit :=
  match eo_executionError outcome with
  | Some message => if String.eqb message "" then Ok tt else Throw (JSError ("execution reverted: " ++ message))
  | None => Ok tt
  end.

Definition executeAt (context : SimulateContext) (gasLimit : Z) : result bool :=
  let outcome := execute (context <| sc_gasLimit := gasLimit |>) in
  _ ← rejectError outcome; Ok (eo_success outcome).

(** The [while]. *)
Definition midpoint (minGasLimit maxGasLimit : Z) : Z :=
  let midGasLimit := (maxGasLimit + minGasLimit) / 2 in
  if minGasLimit * 2 <? midGasLimit then minGasLimit * 2 else midGasLimit.

Fixpoint searchLoop (fuel : nat) (context : SimulateContext) (minGasLimit maxGasLimit : Z) : result Z :=
  if minGasLimit + 1 <? maxGasLimit then
    if closeEnough minGasLimit maxGasLimit then Ok maxGasLimit
    else
      match fuel with
      | O => Throw OutOfFuel
      | S fuel' =>
          let midGasLimit := midpoint minGasLimit maxGasLimit in
          success ← executeAt context midGasLimit;
          if (success : bool) then searchLoop fuel' context minGasLimit midGasLimit
          else searchLoop fuel' context midGasLimit maxGasLimit
      end
  else Ok maxGasLimit.

Definition searchFuel (minGasLimit maxGasLimit : Z) : nat :=
  Z.to_nat (Z.log2_up (maxGasLimit - minGasLimit) + Z.log2_up maxGasLimit).

Definition search (context : SimulateContext) (minGasLimit maxGasLimit : Z) : result Z :=
  searchLoop (searchFuel minGasLimit maxGasLimit) context minGasLimit maxGasLimit.

(** From the first execution on. *)
Definition optimisticGasLimit (receipt : SimulateReceipt) : Z := (rc_gasUsed receipt + rc_gasRefunded receipt + 2300) * 64 / 63.

Definition estimate (context : SimulateContext) : result Z :=
  let maxGasLimit := sc_gasLimit context in
  let outcome := execute context in
  _ ← rejectError outcome;
  _ ← guardR (eo_success outcome) (JSError "execution reverted");
  receipt ← assert_defined (eo_receipt outcome);
  let minGasLimit := rc_gasUsed receipt - 1 in
  let optimistic := optimisticGasLimit receipt in
  if optimistic <? maxGasLimit then
    success ← executeAt context optimistic;
    if (success : bool) then search context minGasLimit optimistic else search context optimistic maxGasLimit
  else search context minGasLimit maxGasLimit.

(** [data.gas ? BigInt(data.gas) : …]: an empty string is falsy. *)
Definition truthy (s : option string) : option string :=
  match s with Some s => if String.eqb s "" then None else Some s | None => None end.
Definition amountOr (s : option string) (default : Z) : result Z :=
  match truthy s with Some s => bigintOf s | None => Ok default end.

Definition dropPrefix (s : string) : string :=
  match s with String _ (String _ s') => s' | _ => "" end.

Definition prepareContext (data : TxData) (nonce : Z) : result SimulateContext :=
  maxGasLimit ← amountOr (td_gas data) (ms_maxGasLimit milestone);
  gasPrice ← amountOr (td_gasPrice data) (ms_minimumGasPrice milestone);
  value ← amountOr (td_value data) 0;
  Ok (mkSimulateContext
    (mkBlockContext height 0 (ms_maxGasLimit milestone) (replicate 32 (byte_of_Z 0)) now "0x0000000000000000000000000000000000000001")
    (match truthy (td_data data) with Some s => hexDecode (dropPrefix s) | None => [] end)
    (td_from data) maxGasLimit gasPrice nonce (ms_evmSpec milestone) (td_to data) value).

(** A plain transfer to an account without code. *)
Definition isTransfer (data : TxData) : result bool :=
  match truthy (td_data data), truthy (td_to data) with
  | (None | Some "0x"%string), Some to => targetCode ← codeAt to; Ok (String.eqb targetCode "0x")
  | _, _ => Ok false
  end.

Definition handle (data : TxData) : result string :=
  nonce ← getNonce (td_from data);
  vanilla ← isTransfer data;
  if (vanilla : bool) then Ok (quantity 21000)
  else
    context ← prepareContext data nonce;
    maxGasLimit ← estimate context;
    Ok (quantity maxGasLimit).
End estimate.

(** ** Quantities are read back *)
Lemma hexNumber_digits fuel z tail :
  0 ≤ z → (Z.to_nat (Z.log2 z) < fuel)%nat → hexNumber 0 (hexDigits fuel z tail) = hexNumber z tail.
Proof.
  revert z tail. induction fuel as [|fuel IH]; intros z tail Hz Hf; [lia |]. cbn [hexDigits].
  assert (Hm : 0 ≤ z mod 16 < 16) by (apply Z.mod_pos_bound; lia).
  destruct (Z.ltb_spec z 16) as [Hlt|Hge].
  - cbn [hexNumber]. rewrite hex_value_digit by done. f_equal. rewrite Z.mod_small by lia. lia.
  - rewrite IH; [| apply Z.div_pos; lia |].
    + cbn [hexNumber]. rewrite hex_value_digit by done. f_equal. assert (Hd := Z.div_mod z 16). lia.
    + assert (Hl : Z.log2 (z / 16) < Z.log2 z).
      { change 16 with (2 ^ 4). rewrite <- Z.shiftr_div_pow2, Z.log2_shiftr by lia.
        assert (Z.log2 16 ≤ Z.log2 z) by (apply Z.log2_le_mono; lia). change (Z.log2 16) with 4 in *. lia. }
      assert (0 ≤ Z.log2 (z / 16)) by apply Z.log2_nonneg. lia.
Qed.

Lemma hexDigits_cons fuel z b tail : ∃ a s, hexDigits fuel z (String b tail) = String a s.
Proof.
  revert z b tail. induction fuel as [|fuel IH]; intros z b tail; cbn [hexDigits]; [by eauto |].
  destruct (z <? 16); [by eauto | apply IH].
Qed.

Lemma toString16_cons z : ∃ a s, toString16 z = String a s.
Proof. unfold toString16. cbn [hexDigits]. destruct (z <? 16); [by eauto | apply hexDigits_cons]. Qed.

Lemma bigintOf_quantity z : 0 ≤ z → bigintOf (quantity z) = Ok z.
Proof.
  intros Hz. assert (Hn : hexNumber 0 (toString16 z) = Some z) by (apply hexNumber_digits; lia).
  destruct (toString16_cons z) as (a & s & Heq). unfold quantity. rewrite Heq in *.
  change (match hexNumber 0 (String a s) with Some n => Ok n | None => Throw (NamedError "SyntaxError") end = Ok z). by rewrite Hn.
Qed.

(** ** The search *)
Section search.
Context (simulate : SimulateContext → SimulateReceipt + string) (context : SimulateContext).

Definition succeeds (gasLimit : Z) : Prop := eo_success (execute simulate (context <| sc_gasLimit := gasLimit |>)) = true.

Lemma executeAt_Ok gasLimit success :
  executeAt simulate context gasLimit = Ok success →
  eo_success (execute simulate (context <| sc_gasLimit := gasLimit |>)) = success.
Proof. unfold executeAt. by intros ([] & _ & [= <-])%bind_Ok. Qed.

Lemma executeAt_fuel gasLimit : executeAt simulate context gasLimit ≠ Throw OutOfFuel.
Proof.
  unfold executeAt, rejectError. destruct (eo_executionError _) as [message|]; [| done]. by destruct (String.eqb message "").
Qed.

Lemma midpoint_below minGasLimit maxGasLimit : minGasLimit + 1 < maxGasLimit → midpoint minGasLimit maxGasLimit < maxGasLimit.
Proof.
  intros Hlt. unfold midpoint. assert (Hd := Z.div_mod (maxGasLimit + minGasLimit) 2). assert (Hm := Z.mod_pos_bound (maxGasLimit + minGasLimit) 2).
  destruct (Z.ltb_spec (minGasLimit * 2) ((maxGasLimit + minGasLimit) / 2)); lia.
Qed.

Lemma midpoint_above minGasLimit maxGasLimit :
  1 ≤ minGasLimit → minGasLimit + 1 < maxGasLimit → minGasLimit < midpoint minGasLimit maxGasLimit.
Proof.
  intros Hmin Hlt. unfold midpoint. assert (Hd := Z.div_mod (maxGasLimit + minGasLimit) 2). assert (Hm := Z.mod_pos_bound (maxGasLimit + minGasLimit) 2).
  destruct (Z.ltb_spec (minGasLimit * 2) ((maxGasLimit + minGasLimit) / 2)); lia.
Qed.

(** What is returned succeeds; [fails] holds of a limit below it that is next to it
    or close enough. *)
Lemma searchLoop_spec (fails : Z → Prop) fuel minGasLimit maxGasLimit gasLimit :
  1 ≤ minGasLimit < maxGasLimit →
  (∀ g, minGasLimit < g < maxGasLimit → executeAt simulate context g = Ok false → fails g) →
  fails minGasLimit → succeeds maxGasLimit →
  searchLoop simulate fuel context minGasLimit maxGasLimit = Ok gasLimit →
  succeeds gasLimit ∧ minGasLimit < gasLimit ≤ maxGasLimit ∧
  ∃ low, fails low ∧ (gasLimit ≤ low + 1 ∨ closeEnough low gasLimit = true).
Proof.
  revert minGasLimit maxGasLimit. induction fuel as [|fuel IH]; intros minGasLimit maxGasLimit Hr Hfail Hmin Hmax;
    cbn [searchLoop]; destruct (Z.ltb_spec (minGasLimit + 1) maxGasLimit) as [Hlt|Hge].
  2, 4: intros [= <-]; split_and!; [done | lia | lia | exists minGasLimit; split; [done | left; lia]].
  all: destruct (closeEnough minGasLimit maxGasLimit) eqn:Hclose; [by intros [= <-]; split_and!; [done | lia | lia | eauto] |].
  1: done.
  intros (success & Hs & Hloop)%bind_Ok. assert (Hb := midpoint_below _ _ Hlt). assert (Ha := midpoint_above _ _ (proj1 Hr) Hlt). destruct success.
  - apply IH in Hloop as (? & ? & ?); [| lia | intros g ?; apply Hfail; lia | done | by apply executeAt_Ok in Hs]. split_and!; [done | lia | lia | done].
  - apply IH in Hloop as (? & ? & ?); [| lia | intros g ?; apply Hfail; lia | by apply Hfail | done]. split_and!; [done | lia | lia | done].
Qed.

(** A limit at which no execution ends in an error ends no search in one. *)
Lemma searchLoop_throws fuel minGasLimit maxGasLimit e :
  1 ≤ minGasLimit → (∀ g, minGasLimit < g < maxGasLimit → ∃ success, executeAt simulate context g = Ok success) →
  searchLoop simulate fuel context minGasLimit maxGasLimit = Throw e → e = OutOfFuel.
Proof.
  revert minGasLimit maxGasLimit. induction fuel as [|fuel IH]; intros minGasLimit maxGasLimit Hmin Hat; cbn [searchLoop];
    destruct (Z.ltb_spec (minGasLimit + 1) maxGasLimit) as [Hlt|Hge]; try done; (destruct (closeEnough _ _); [done |]); [congruence |].
  assert (Hb := midpoint_below _ _ Hlt). assert (Ha := midpoint_above _ _ Hmin Hlt).
  destruct (Hat (midpoint minGasLimit maxGasLimit)) as ([] & ->); [lia | |]; cbn; apply IH; try lia; intros g ?; apply Hat; lia.
Qed.

(** Each step halves the interval or doubles the lower limit. *)
Lemma midpoint_halves a b minGasLimit maxGasLimit :
  0 ≤ a → 0 ≤ b → 1 ≤ minGasLimit → minGasLimit + 1 < maxGasLimit →
  maxGasLimit - minGasLimit ≤ 2 ^ a → maxGasLimit ≤ 2 ^ b * minGasLimit →
  let midGasLimit := midpoint minGasLimit maxGasLimit in
  1 ≤ a ∧ 1 ≤ b ∧ minGasLimit < midGasLimit ∧ midGasLimit - minGasLimit ≤ 2 ^ (a - 1) ∧
  (maxGasLimit - midGasLimit ≤ 2 ^ (a - 1) ∨ maxGasLimit - midGasLimit ≤ 2 ^ a ∧ maxGasLimit ≤ 2 ^ (b - 1) * midGasLimit).
Proof.
  intros Ha Hb Hmin Hlt Hgap Hratio.
  assert (1 ≤ a). { destruct (Z.eq_dec a 0) as [->|]; [change (2 ^ 0) with 1 in Hgap; lia | lia]. }
  assert (1 ≤ b). { destruct (Z.eq_dec b 0) as [->|]; [change (2 ^ 0) with 1 in Hratio; lia | lia]. }
  assert (Ha2 : 2 ^ a = 2 * 2 ^ (a - 1)) by (rewrite <- Z.pow_succ_r by lia; f_equal; lia).
  assert (Hb2 : 2 ^ b = 2 * 2 ^ (b - 1)) by (rewrite <- Z.pow_succ_r by lia; f_equal; lia).
  unfold midpoint. assert (Hd := Z.div_mod (maxGasLimit + minGasLimit) 2). assert (Hm := Z.mod_pos_bound (maxGasLimit + minGasLimit) 2).
  destruct (Z.ltb_spec (minGasLimit * 2) ((maxGasLimit + minGasLimit) / 2)); split_and!; try lia.
Qed.

Lemma searchLoop_ends a b fuel minGasLimit maxGasLimit :
  0 ≤ a → 0 ≤ b → 1 ≤ minGasLimit → maxGasLimit - minGasLimit ≤ 2 ^ a → maxGasLimit ≤ 2 ^ b * minGasLimit →
  a + b ≤ Z.of_nat fuel → searchLoop simulate fuel context minGasLimit maxGasLimit ≠ Throw OutOfFuel.
Proof.
  revert a b minGasLimit maxGasLimit. induction fuel as [|fuel IH]; intros a b minGasLimit maxGasLimit Ha Hb Hmin Hgap Hratio Hf;
    cbn [searchLoop]; destruct (Z.ltb_spec (minGasLimit + 1) maxGasLimit) as [Hlt|Hge]; try done;
    destruct (midpoint_halves a b minGasLimit maxGasLimit Ha Hb Hmin Hlt Hgap Hratio) as (? & ? & Hmid & Hlow & Hhigh); [lia |].
  destruct (closeEnough _ _); [done |].
  assert (Hb' := midpoint_below _ _ Hlt). destruct (executeAt simulate context (midpoint minGasLimit maxGasLimit)) as [[]|e] eqn:He; cbn.
  - apply (IH (a - 1) b); lia.
  - destruct Hhigh as [Hhigh|[Hhigh Hr]].
    + apply (IH (a - 1) b); try lia. nia.
    + apply (IH a (b - 1)); try lia.
  - intros [= ->]. by apply executeAt_fuel in He.
Qed.

Lemma search_ends minGasLimit maxGasLimit :
  1 ≤ minGasLimit → search simulate context minGasLimit maxGasLimit ≠ Throw OutOfFuel.
Proof.
  intros Hmin. unfold search. destruct (Z.le_gt_cases maxGasLimit (minGasLimit + 1)) as [Hle|Hgt].
  - assert (Heq : (minGasLimit + 1 <? maxGasLimit) = false) by (by apply Z.ltb_ge). by destruct (searchFuel _ _); cbn; rewrite Heq.
  - assert (H1 := Z.log2_up_nonneg (maxGasLimit - minGasLimit)). assert (H2 := Z.log2_up_nonneg maxGasLimit).
    assert (H3 := Z.log2_up_spec (maxGasLimit - minGasLimit) ltac:(lia)). assert (H4 := Z.log2_up_spec maxGasLimit ltac:(lia)).
    apply (searchLoop_ends (Z.log2_up (maxGasLimit - minGasLimit)) (Z.log2_up maxGasLimit)); try lia.
    + nia.
    + unfold searchFuel. lia.
Qed.
End search.

(** ** The estimate *)
Section theorems.
Context (simulate : SimulateContext → SimulateReceipt + string).
Context (getNonce : string → result Z) (codeAt : string → result string) (milestone : GasMilestone) (height now : Z).

Lemma searchLoop_positive context fuel minGasLimit maxGasLimit gasLimit :
  1 ≤ minGasLimit → 0 ≤ maxGasLimit → searchLoop simulate fuel context minGasLimit maxGasLimit = Ok gasLimit → 0 ≤ gasLimit.
Proof.
  revert minGasLimit maxGasLimit. induction fuel as [|fuel IH]; intros minGasLimit maxGasLimit Hmin Hmax;
    cbn [searchLoop]; destruct (Z.ltb_spec (minGasLimit + 1) maxGasLimit) as [Hlt|Hge]; try (by intros [= <-]);
    (destruct (closeEnough _ _); [by intros [= <-] |]); [done |].
  assert (Hmid := midpoint_above _ _ Hmin Hlt).
  intros ([] & _ & Hloop)%bind_Ok; apply IH in Hloop; lia.
Qed.

Lemma optimistic_above receipt : 2 ≤ rc_gasUsed receipt → 0 ≤ rc_gasRefunded receipt → rc_gasUsed receipt ≤ optimisticGasLimit receipt.
Proof. intros ? ?. unfold optimisticGasLimit. apply Z.div_le_lower_bound; lia. Qed.

(** The first execution succeeded and used at least two units of gas, at most the
    limit; a transaction costs at least 21000. *)
Record firstRun (context : SimulateContext) (receipt : SimulateReceipt) : Prop := {
  fr_receipt : simulate context = inl receipt;
  fr_status : rc_status receipt = 1;
  fr_gasUsed : 2 ≤ rc_gasUsed receipt ≤ sc_gasLimit context;
  fr_gasRefunded : 0 ≤ rc_gasRefunded receipt;
}.

(** The search that the estimate ends with. *)
Inductive searches (context : SimulateContext) (receipt : SimulateReceipt) : Z → Z → Prop :=
  | searches_low : optimisticGasLimit receipt < sc_gasLimit context →
      executeAt simulate context (optimisticGasLimit receipt) = Ok true →
      searches context receipt (rc_gasUsed receipt - 1) (optimisticGasLimit receipt)
  | searches_high : optimisticGasLimit receipt < sc_gasLimit context →
      executeAt simulate context (optimisticGasLimit receipt) = Ok false →
      searches context receipt (optimisticGasLimit receipt) (sc_gasLimit context)
  | searches_all : searches context receipt (rc_gasUsed receipt - 1) (sc_gasLimit context).

Lemma first_succeeds context receipt : firstRun context receipt → succeeds simulate context (sc_gasLimit context).
Proof.
  intros Hf. unfold succeeds. assert (Heq : context <| sc_gasLimit := sc_gasLimit context |> = context) by (by destruct context).
  rewrite Heq. unfold execute. rewrite (fr_receipt _ _ Hf). cbn. by rewrite (fr_status _ _ Hf).
Qed.

Lemma estimate_first context receipt :
  firstRun context receipt →
  estimate simulate context =
    if optimisticGasLimit receipt <? sc_gasLimit context then
      success ← executeAt simulate context (optimisticGasLimit receipt);
      if (success : bool) then search simulate context (rc_gasUsed receipt - 1) (optimisticGasLimit receipt)
      else search simulate context (optimisticGasLimit receipt) (sc_gasLimit context)
    else search simulate context (rc_gasUsed receipt - 1) (sc_gasLimit context).
Proof.
  intros Hf. unfold estimate.
  assert (Heq : execute simulate context = mkEstimateOutcome (Some receipt) true None).
  { unfold execute. by rewrite (fr_receipt _ _ Hf), (fr_status _ _ Hf). }
  by rewrite Heq.
Qed.

Lemma estimate_searches context receipt :
  firstRun context receipt →
  (∃ minGasLimit maxGasLimit, searches context receipt minGasLimit maxGasLimit ∧
     estimate simulate context = search simulate context minGasLimit maxGasLimit) ∨
  (∃ e, optimisticGasLimit receipt < sc_gasLimit context ∧
     executeAt simulate context (optimisticGasLimit receipt) = Throw e ∧ estimate simulate context = Throw e).
Proof.
  intros Hf. rewrite (estimate_first context receipt Hf).
  destruct (Z.ltb_spec (optimisticGasLimit receipt) (sc_gasLimit context)) as [Hlt|Hge].
  - destruct (executeAt simulate context (optimisticGasLimit receipt)) as [[]|e] eqn:He; cbn; [left | left | right; by exists e].
    + do 2 eexists. split; [by apply searches_low | done].
    + do 2 eexists. split; [by apply searches_high | done].
  - left. do 2 eexists. split; [apply searches_all | done].
Qed.

Lemma searches_bounds context receipt minGasLimit maxGasLimit :
  firstRun context receipt → searches context receipt minGasLimit maxGasLimit →
  rc_gasUsed receipt - 1 ≤ minGasLimit ∧ minGasLimit < maxGasLimit ≤ sc_gasLimit context ∧ succeeds simulate context maxGasLimit.
Proof.
  intros Hf Hs. assert (Hmax := first_succeeds context receipt Hf). destruct Hf as [_ _ Hu Hr].
  assert (Hopt := optimistic_above receipt (proj1 Hu) Hr). destruct Hs as [Hlt He|Hlt He|]; split_and!; try lia; try done.
  by apply executeAt_Ok in He.
Qed.

Lemma handle_estimates data context nonce :
  getNonce (td_from data) = Ok nonce → isTransfer codeAt data = Ok false → prepareContext milestone height now data nonce = Ok context →
  handle simulate getNonce codeAt milestone height now data = (gasLimit ← estimate simulate context; Ok (quantity gasLimit)).
Proof. intros Hn Ht Hc. unfold handle. rewrite Hn. cbn. rewrite Ht. cbn. by rewrite Hc. Qed.

(** The action ends, and the limit it answers is one with which the call was
    seen to succeed, at most the limit that was asked for; this needs no
    assumption on how success depends on the limit. *)
Theorem estimate_succeeds data context nonce receipt :
  getNonce (td_from data) = Ok nonce → isTransfer codeAt data = Ok false →
  prepareContext milestone height now data nonce = Ok context → firstRun context receipt →
  let answer := handle simulate getNonce codeAt milestone height now data in
  answer ≠ Throw OutOfFuel ∧
  ∀ s, answer = Ok s → ∃ gasLimit, bigintOf s = Ok gasLimit ∧ gasLimit ≤ sc_gasLimit context ∧ succeeds simulate context gasLimit.
Proof.
  intros Hn Ht Hc Hf. cbv zeta. rewrite (handle_estimates data context nonce) by done.
  assert (Hu := proj1 (fr_gasUsed _ _ Hf)).
  destruct (estimate_searches context receipt Hf) as [(low & high & Hs & ->)|(e & _ & He & ->)].
  - destruct (searches_bounds context receipt low high Hf Hs) as (Hlow & Hhigh & Hsucc). split.
    + intros Hfuel. destruct (search simulate context low high) as [|e] eqn:Hr; [done |]. cbn in Hfuel.
      apply (search_ends simulate context low high); [lia | congruence].
    + intros s (gasLimit & Hr & [= <-])%bind_Ok. exists gasLimit. assert (Hspec := Hr).
      apply searchLoop_positive in Hr; [| lia..]. split; [by apply bigintOf_quantity |].
      apply (searchLoop_spec _ _ (λ _, True)) in Hspec as (? & ? & _); [| lia | done..]. split; [lia | done].
  - split; [| done]. cbn. intros [= ->]. by apply executeAt_fuel in He.
Qed.

(** No execution with a limit from what the first one used up to the limit asked
    for ends in an error, and those succeed that have at least [threshold]. *)
Definition needs (context : SimulateContext) (receipt : SimulateReceipt) (threshold : Z) : Prop :=
  ∀ gasLimit, rc_gasUsed receipt ≤ gasLimit ≤ sc_gasLimit context →
    ∃ r, simulate (context <| sc_gasLimit := gasLimit |>) = inl r ∧ (rc_status r = 1 ↔ threshold ≤ gasLimit).

Lemma needs_at context receipt threshold g : needs context receipt threshold → rc_gasUsed receipt ≤ g ≤ sc_gasLimit context →
  ∃ success, executeAt simulate context g = Ok success ∧ (success = true ↔ threshold ≤ g).
Proof.
  intros Hthr Hg. destruct (Hthr g Hg) as (r & Hr & Hiff). exists (rc_status r =? 1). unfold executeAt, execute. rewrite Hr. cbn.
  split; [done | by rewrite Z.eqb_eq].
Qed.

(** C37. Suppose that no execution with a limit from the gas used by the first one up
    to the limit asked for ends in an error, and that those succeed that have at least
    some threshold, which is not below that gas used.  Then the answer is the
    threshold, or it is above it and a limit that is too low is close to it by the
    code's measure.  Nothing is asked of the limits below the gas used, where the EVM
    answers with an error: the search never tries them. *)
Theorem estimate_tight data context nonce receipt threshold :
  getNonce (td_from data) = Ok nonce → isTransfer codeAt data = Ok false →
  prepareContext milestone height now data nonce = Ok context → firstRun context receipt →
  rc_gasUsed receipt ≤ threshold → needs context receipt threshold →
  ∃ s gasLimit, handle simulate getNonce codeAt milestone height now data = Ok s ∧ bigintOf s = Ok gasLimit ∧
    threshold ≤ gasLimit ≤ sc_gasLimit context ∧
    (gasLimit = threshold ∨ ∃ low, low < threshold ∧ closeEnough low gasLimit = true).
Proof.
  intros Hn Ht Hc Hf Hu Hthr. rewrite (handle_estimates data context nonce) by done.
  assert (Hat := λ g, needs_at context receipt threshold g Hthr). assert (Hused := fr_gasUsed _ _ Hf).
  assert (Hopt := optimistic_above receipt (proj1 Hused) (fr_gasRefunded _ _ Hf)).
  destruct (estimate_searches context receipt Hf) as [(low & high & Hs & ->)|(e & Hlt & He & _)];
    [| by destruct (Hat (optimisticGasLimit receipt)) as (? & Heq & _); [lia | rewrite Heq in He]].
  destruct (searches_bounds context receipt low high Hf Hs) as (Hlow & Hhigh & Hsucc).
  assert (Hfails : ∀ g, rc_gasUsed receipt ≤ g ≤ sc_gasLimit context → executeAt simulate context g = Ok false → g < threshold).
  { intros g Hin Hg. destruct (Hat g Hin) as (success & Heq & Hiff). rewrite Hg in Heq. injection Heq as <-.
    destruct (Z.lt_ge_cases g threshold) as [|Hge]; [done |]. apply Hiff in Hge. done. }
  assert (Hmin : low < threshold) by (destruct Hs; [lia | apply Hfails; [lia | done] | lia]).
  destruct (search simulate context low high) as [gasLimit|e] eqn:Hr; cbn.
  - exists (quantity gasLimit), gasLimit. assert (Hspec := Hr). apply searchLoop_positive in Hr; [| lia..].
    apply (searchLoop_spec _ _ (λ g, g < threshold)) in Hspec as (Hok & Hle & low' & Hlow' & Hclose); [| lia | intros g ?; apply Hfails; lia | done | done].
    assert (Hge : threshold ≤ gasLimit).
    { unfold succeeds, execute in Hok. destruct (Hthr gasLimit) as (r & Hr' & Hiff); [lia |]. rewrite Hr' in Hok. cbn in Hok. by apply Hiff, Z.eqb_eq. }
    split_and!; [done | by apply bigintOf_quantity | done | lia |].
    destruct Hclose as [Hnext|Hclose]; [left; lia | right; eauto].
  - assert (Hfuel := Hr). apply searchLoop_throws in Hfuel; [| lia | intros g ?; destruct (Hat g) as (success & ? & _); [lia | by exists success]].
    subst e. apply search_ends in Hr; [done | lia].
Qed.
End theorems.

(** ** A call that needs 150000, on an EVM that refuses a limit below the intrinsic gas *)
Definition gasSimulate (threshold : Z) (context : SimulateContext) : SimulateReceipt + string :=
  if sc_gasLimit context <? 21000 then inr "call gas cost exceeds the gas limit"%string
  else inl (mkSimulateReceipt 90000 4800 (if threshold <=? sc_gasLimit context then 1 else 0)).
Definition gasMilestone : GasMilestone := mkGasMilestone 10000000 "shanghai" 5000000000.
Definition gasData : TxData := mkTxData "0xaa" (Some "0xbb") (Some "0x1234") None None (Some "0x10").
Definition gasContext : SimulateContext :=
  match prepareContext gasMilestone 7 1700000000000 gasData 3 with Ok c => c | Throw _ => mkSimulateContext (mkBlockContext 0 0 0 [] 0 "") [] "" 0 0 0 "" None 0 end.

Lemma gasFirstRun : firstRun (gasSimulate 150000) gasContext (mkSimulateReceipt 90000 4800 1).
Proof. by split. Qed.

Example gas_answer : handle (gasSimulate 150000) (λ _, Ok 3) (λ _, Ok "0x6001"%string) gasMilestone 7 1700000000000 gasData = Ok "0x24e03"%string.
Proof. vm_compute. reflexivity. Qed.

Lemma estimate_succeeds_witness :
  ∃ gasLimit, bigintOf "0x24e03" = Ok gasLimit ∧ gasLimit ≤ 10000000 ∧ succeeds (gasSimulate 150000) gasContext gasLimit.
Proof.
  apply (estimate_succeeds (gasSimulate 150000) (λ _, Ok 3) (λ _, Ok "0x6001"%string) gasMilestone 7 1700000000000 gasData gasContext 3
    (mkSimulateReceipt 90000 4800 1)); [reflexivity | reflexivity | reflexivity | exact gasFirstRun | exact gas_answer].
Defined.

Lemma estimate_tight_witness :
  ∃ s gasLimit, handle (gasSimulate 150000) (λ _, Ok 3) (λ _, Ok "0x6001"%string) gasMilestone 7 1700000000000 gasData = Ok s ∧
    bigintOf s = Ok gasLimit ∧ 150000 ≤ gasLimit ≤ 10000000 ∧
    (gasLimit = 150000 ∨ ∃ low, low < 150000 ∧ closeEnough low gasLimit = true).
Proof.
  apply (estimate_tight (gasSimulate 150000) (λ _, Ok 3) (λ _, Ok "0x6001"%string) gasMilestone 7 1700000000000 gasData gasContext 3
    (mkSimulateReceipt 90000 4800 1)); [reflexivity | reflexivity | reflexivity | exact gasFirstRun | cbn; lia |].
  intros gasLimit [Hused _]. cbn in Hused. unfold gasSimulate. cbn [sc_gasLimit set_field]. cbn. rewrite (proj2 (Z.ltb_ge _ _)) by lia.
  eexists. split; [reflexivity |]. cbn. destruct (Z.leb_spec 150000 gasLimit); lia.
Defined.
