(* ===== verification/ByteBuffer.v ===== *)
(** * packages/utils/source/byte-buffer.ts

    [ByteBuffer]: a fixed-size [Buffer] with a cursor and a mark.  JavaScript
    values that reach the writers are tagged with their runtime type, because
    the writers test it ([Number.isSafeInteger], [typeof value !== "bigint"],
    [Buffer.isBuffer]).  Node's own [writeUInt*]/[readUInt*] throw when the
    access crosses the end of the buffer. *)
From S2P Require Import Prelude Bytes.

(** A runtime value of the code that is serialized. *)
Inductive Value :=
  | VUndefined
  | VNumber (z : Z)
  | VBigInt (z : Z)
  | VString (s : string)
  | VBuffer (bs : list byte)
  | VBooleans (l : list bool)
  | VTransactions (l : list (list byte)).

#[export] Instance Value_eq_dec : EqDecision Value.
Proof. solve_decision. Defined.

Record ByteBuffer := mkByteBuffer {
  bb_buffer : list byte;
  bb_offset : nat;
  bb_marker : nat;
}.
#[export] Instance eta_ByteBuffer : Eta ByteBuffer :=
  λ b, mkByteBuffer (bb_buffer b) (bb_offset b) (bb_marker b).

Definition fromSize (size : nat) : ByteBuffer := mkByteBuffer (replicate size x00) 0 0.
Definition fromBuffer (buffer : list byte) : ByteBuffer := mkByteBuffer buffer 0 0.

Definition getRemainder (b : ByteBuffer) : list byte := drop (bb_offset b) (bb_buffer b).
Definition getRemainderLength (b : ByteBuffer) : Z :=
  Z.of_nat (length (bb_buffer b)) - Z.of_nat (bb_offset b).
Definition getResult (b : ByteBuffer) : list byte := take (bb_offset b) (bb_buffer b).
Definition getResultLength (b : ByteBuffer) : Z := Z.of_nat (bb_offset b).
Definition toBuffer (b : ByteBuffer) : list byte := bb_buffer b.

Definition outOfRange : Error := JSError "ERR_OUT_OF_RANGE".

(** Node: [buffer.write*(…, offset)] of [length bs] bytes, returning the new
    offset, and [buffer.read*(offset)] of [n] bytes. *)
Definition nodeWrite (bs : list byte) : M ByteBuffer unit := λ b,
  let o := bb_offset b in
  if bool_decide (o + length bs ≤ length (bb_buffer b))%nat then
    (Ok tt, b <| bb_buffer := take o (bb_buffer b) ++ bs ++ drop (o + length bs) (bb_buffer b) |>
              <| bb_offset := (o + length bs)%nat |>)
  else (Throw outOfRange, b).

Definition nodeRead (n : nat) : M ByteBuffer (list byte) := λ b,
  let o := bb_offset b in
  if bool_decide (o + n ≤ length (bb_buffer b))%nat then
    (Ok (take n (drop o (bb_buffer b))), b <| bb_offset := (o + n)%nat |>)
  else (Throw outOfRange, b).

Definition isSafeInteger (z : Z) : bool := (-(2 ^ 53 - 1) <=? z) && (z <=? 2 ^ 53 - 1).

(** The writers of JavaScript numbers share their checks and differ in width. *)
Definition writeUintN (n : nat) (value : Value) : M ByteBuffer unit :=
  match value with
  | VNumber z =>
      if negb (isSafeInteger z) then throw (JSError "value must be a safe integer")
      else if (z <? 0) || (2 ^ (8 * Z.of_nat n) - 1 <? z) then
        throw (JSError "The value of value is out of range.")
      else nodeWrite (le_encode n z)
  | _ => throw (JSError "value must be a safe integer")
  end.

Definition readUintN (n : nat) : M ByteBuffer Z := bs ← nodeRead n; mret (le_decode bs).

Definition writeUint8 (value : Value) : M ByteBuffer unit := writeUintN 1 value.
Definition readUint8 : M ByteBuffer Z := readUintN 1.
Definition writeUint16 (value : Value) : M ByteBuffer unit := writeUintN 2 value.
Definition readUint16 : M ByteBuffer Z := readUintN 2.
Definition writeUint32 (value : Value) : M ByteBuffer unit := writeUintN 4 value.
Definition readUint32 : M ByteBuffer Z := readUintN 4.
Definition writeUint48 (value : Value) : M ByteBuffer unit := writeUintN 6 value.
Definition readUint48 : M ByteBuffer Z := readUintN 6.

Definition writeUint64 (value : Value) : M ByteBuffer unit :=
  match value with
  | VBigInt z =>
      if (z <? 0) || (2 ^ 64 - 1 <? z) then throw (JSError "The value of value is out of range.")
      else nodeWrite (le_encode 8 z)
  | _ => throw (JSError "value must be a bigint")
  end.
Definition readUint64 : M ByteBuffer Z := readUintN 8.

Definition writeBytes (value : Value) : M ByteBuffer unit := λ b,
  match value with
  | VBuffer bs =>
      if getRemainderLength b <? Z.of_nat (length bs) then
        (Throw (JSError "Write over buffer boundary."), b)
      else nodeWrite bs b
  | _ => (Throw (JSError "value must be a buffer"), b)
  end.

Definition readBytes (n : Z) : M ByteBuffer (list byte) := λ b,
  if getRemainderLength b <? n then (Throw (JSError "Read over buffer boundary."), b)
  else (Ok (take (Z.to_nat n) (drop (bb_offset b) (bb_buffer b))),
        b <| bb_offset := Z.to_nat (Z.of_nat (bb_offset b) + n) |>).

Definition readHex (n : Z) : M ByteBuffer (list byte) := readBytes n.

(** viem's [toBytes] of a bigint is the shortest big-endian string, so
    "at most 32 bytes" is [value < 2 ^ 256]; [padBytes] pads on the left. *)
Definition writeUint256 (value : Value) : M ByteBuffer unit :=
  match value with
  | VBigInt z =>
      if z <? 0 then throw (JSError "value must be non-negative")
      else if 2 ^ 256 - 1 <? z then throw (JSError "value must fit into uint256")
      else writeBytes (VBuffer (be_encode 32 z))
  | _ => throw (JSError "value must be a bigint")
  end.
Definition readUint256 : M ByteBuffer Z := bs ← readBytes 32; mret (be_decode bs).

Definition mark : M ByteBuffer unit := modify (λ b, b <| bb_marker := bb_offset b |>).
Definition reset : M ByteBuffer unit := modify (λ b, b <| bb_offset := bb_marker b |>).
Definition skip (n : Z) : M ByteBuffer unit := λ b,
  if (n <? - Z.of_nat (bb_offset b)) || (getRemainderLength b <? n) then
    (Throw (JSError "Jump over buffer boundary."), b)
  else (Ok tt, b <| bb_offset := Z.to_nat (Z.of_nat (bb_offset b) + n) |>).

(** ** Specifications

    [bb_ok] is the class invariant.  [writes m bs]: [m] appends [bs] to the
    result when it fits and throws otherwise, never touching the bytes already
    written.  [reads m bs a]: on a remainder that starts with [bs], [m] returns
    [a] and consumes exactly [bs]. *)
Definition bb_ok (b : ByteBuffer) : Prop := (bb_offset b ≤ length (bb_buffer b))%nat.

Definition writes (m : M ByteBuffer unit) (bs : list byte) : Prop :=
  ∀ b, bb_ok b →
    if bool_decide (Z.of_nat (length bs) ≤ getRemainderLength b)
    then ∃ b', m b = (Ok tt, b') ∧ bb_ok b' ∧ getResult b' = getResult b ++ bs ∧
               length (bb_buffer b') = length (bb_buffer b)
    else ∃ e, (m b).1 = Throw e.

Definition reads {A} (m : M ByteBuffer A) (bs : list byte) (a : A) : Prop :=
  ∀ b rest, getRemainder b = bs ++ rest → bb_ok b →
    ∃ b', m b = (Ok a, b') ∧ bb_ok b' ∧ getRemainder b' = rest.

Lemma getResult_write o (buf bs : list byte) :
  (o ≤ length buf)%nat → take (o + length bs) (take o buf ++ bs ++ drop (o + length bs) buf) = take o buf ++ bs.
Proof.
  intros Ho. rewrite app_assoc, take_app_le, take_ge; [done | |];
    rewrite length_app, length_take; lia.
Qed.

Lemma nodeWrite_writes bs : writes (nodeWrite bs) bs.
Proof.
  intros b Hok. unfold nodeWrite, getRemainderLength, bb_ok in *.
  case_bool_decide as Hz; case_bool_decide as Hn; try lia; [| by eexists].
  eexists; split; [reflexivity |]. unfold bb_ok, getResult. simpl.
  rewrite !length_app, length_take, length_drop.
  split; [lia |]. split; [by apply getResult_write | lia].
Qed.

Lemma writeBytes_writes bs : writes (writeBytes (VBuffer bs)) bs.
Proof.
  intros b Hok. pose proof (nodeWrite_writes bs b Hok) as Hw. simpl.
  destruct (Z.ltb_spec (getRemainderLength b) (Z.of_nat (length bs))).
  - case_bool_decide; [lia |]. by eexists.
  - exact Hw.
Qed.

Lemma remainder_length b : bb_ok b → getRemainderLength b = Z.of_nat (length (getRemainder b)).
Proof. unfold bb_ok, getRemainderLength, getRemainder. rewrite length_drop. lia. Qed.

Lemma nodeRead_reads bs : reads (nodeRead (length bs)) bs bs.
Proof.
  intros b rest Hr Hok. unfold nodeRead.
  pose proof (remainder_length b Hok) as Hl. rewrite Hr, length_app in Hl.
  unfold getRemainderLength, bb_ok in *. rewrite bool_decide_eq_true_2 by lia.
  unfold getRemainder in *. rewrite Hr, take_app_length.
  eexists; split; [reflexivity |]. simpl. split; [lia |].
  rewrite <- drop_drop, Hr. apply drop_app_length.
Qed.

Lemma readBytes_reads bs : reads (readBytes (Z.of_nat (length bs))) bs bs.
Proof.
  intros b rest Hr Hok. unfold readBytes.
  pose proof (remainder_length b Hok) as Hl. rewrite Hr, length_app in Hl.
  destruct (Z.ltb_spec (getRemainderLength b) (Z.of_nat (length bs))); [lia |].
  rewrite Nat2Z.id, <- Nat2Z.inj_add, Nat2Z.id. unfold getRemainder in *. rewrite Hr, take_app_length.
  eexists; split; [reflexivity |]. unfold bb_ok, getRemainderLength in *. simpl. split; [lia |].
  rewrite <- drop_drop, Hr. apply drop_app_length.
Qed.

Lemma reads_bind {A B} (m : M ByteBuffer A) (f : A → M ByteBuffer B) bs1 bs2 a c :
  reads m bs1 a → reads (f a) bs2 c → reads (m ≫= f) (bs1 ++ bs2) c.
Proof.
  intros Hm Hf b rest Hr Hok. rewrite <- app_assoc in Hr.
  destruct (Hm b _ Hr Hok) as (b1 & Hm1 & Hok1 & Hr1).
  destruct (Hf b1 _ Hr1 Hok1) as (b2 & Hf2 & Hok2 & Hr2).
  exists b2. unfold mbind, M_bind. by rewrite Hm1.
Qed.

Lemma reads_ret {A} (a : A) : reads (mret a) [] a.
Proof. intros b rest Hr Hok. by exists b. Qed.

Lemma reads_fmap {A B} (m : M ByteBuffer A) (f : A → B) bs a :
  reads m bs a → reads (x ← m; mret (f x)) bs (f a).
Proof.
  intros Hm. rewrite <- (app_nil_r bs). eapply reads_bind; [done | apply reads_ret].
Qed.

Lemma readUintN_reads n z :
  0 ≤ z < 256 ^ Z.of_nat n → reads (readUintN n) (le_encode n z) z.
Proof.
  intros Hz. unfold readUintN. rewrite <- (le_decode_encode n z Hz) at 2.
  apply (reads_fmap (nodeRead n) le_decode).
  pose proof (nodeRead_reads (le_encode n z)) as Hr. by rewrite length_le_encode in Hr.
Qed.

Lemma readUint256_reads z :
  0 ≤ z < 2 ^ 256 → reads readUint256 (be_encode 32 z) z.
Proof.
  intros Hz. unfold readUint256. rewrite <- (be_decode_encode 32 z) at 2 by (simpl; lia).
  apply (reads_fmap (readBytes 32) be_decode).
  pose proof (readBytes_reads (be_encode 32 z)) as Hr. by rewrite length_be_encode in Hr.
Qed.

(** The numeric writers accept exactly the integers of their width. *)
Lemma writeUintN_writes n z :
  (n ≤ 6)%nat → 0 ≤ z < 2 ^ (8 * Z.of_nat n) → writes (writeUintN n (VNumber z)) (le_encode n z).
Proof.
  intros Hn Hz b Hok. unfold writeUintN, isSafeInteger.
  assert (2 ^ (8 * Z.of_nat n) ≤ 2 ^ 48) by (apply Z.pow_le_mono_r; lia).
  assert (2 ^ 48 < 2 ^ 53 - 1) by reflexivity.
  destruct (Z.leb_spec (-(2 ^ 53 - 1)) z); [| lia].
  destruct (Z.leb_spec z (2 ^ 53 - 1)); [| lia]. simpl.
  destruct (Z.ltb_spec z 0); [lia |].
  destruct (Z.ltb_spec (2 ^ (8 * Z.of_nat n) - 1) z); [lia |].
  by apply nodeWrite_writes.
Qed.

Lemma writeUint64_writes z :
  0 ≤ z < 2 ^ 64 → writes (writeUint64 (VBigInt z)) (le_encode 8 z).
Proof.
  intros Hz b Hok. unfold writeUint64.
  destruct (Z.ltb_spec z 0); [lia |]. destruct (Z.ltb_spec (2 ^ 64 - 1) z); [lia |].
  by apply nodeWrite_writes.
Qed.

Lemma writeUint256_writes z :
  0 ≤ z < 2 ^ 256 → writes (writeUint256 (VBigInt z)) (be_encode 32 z).
Proof.
  intros Hz b Hok. unfold writeUint256.
  destruct (Z.ltb_spec z 0); [lia |]. destruct (Z.ltb_spec (2 ^ 256 - 1) z); [lia |].
  by apply writeBytes_writes.
Qed.

Lemma writes_nil : writes (mret tt) [].
Proof.
  intros b Hok. rewrite bool_decide_eq_true_2.
  - exists b. by rewrite app_nil_r.
  - unfold getRemainderLength, bb_ok in *. simpl. lia.
Qed.

Lemma result_length b : bb_ok b → length (getResult b) = bb_offset b.
Proof. intros Hok. unfold getResult. rewrite length_take. unfold bb_ok in Hok. lia. Qed.

Lemma writes_seq (m1 m2 : M ByteBuffer unit) bs1 bs2 :
  writes m1 bs1 → writes m2 bs2 → writes (m1 ;; m2) (bs1 ++ bs2).
Proof.
  intros H1 H2 b Hok. specialize (H1 b Hok). unfold mbind, M_bind.
  rewrite length_app. case_bool_decide as Hfit; case_bool_decide as Hfit1; try lia.
  - destruct H1 as (b1 & -> & Hok1 & Hres1 & Hlen1). specialize (H2 b1 Hok1).
    pose proof (result_length b Hok) as Ho. pose proof (result_length b1 Hok1) as Ho1.
    rewrite Hres1, length_app in Ho1. unfold getRemainderLength in *.
    rewrite bool_decide_eq_true_2 in H2 by lia.
    destruct H2 as (b2 & -> & Hok2 & Hres2 & Hlen2). exists b2.
    rewrite Hres2, Hres1, <- app_assoc. repeat split; auto; lia.
  - destruct H1 as (b1 & -> & Hok1 & Hres1 & Hlen1). specialize (H2 b1 Hok1).
    pose proof (result_length b Hok) as Ho. pose proof (result_length b1 Hok1) as Ho1.
    rewrite Hres1, length_app in Ho1. unfold getRemainderLength in *.
    by rewrite bool_decide_eq_false_2 in H2 by lia.
  - destruct H1 as [e He]. destruct (m1 b) as [[?|?] ?]; simpl in *; [done |]. by eexists.
Qed.

Create HintDb codec discriminated.
#[export] Hint Resolve nodeWrite_writes writeBytes_writes writeUint64_writes writeUint256_writes
  writes_nil writes_seq nodeRead_reads readBytes_reads readUintN_reads readUint256_reads
  reads_ret reads_fmap reads_bind : codec.
