(* ===== verification/Serializer.v ===== *)
(** * packages/serializer/source/serializer.ts

    The schema-driven serializer that every signed or stored structure of the
    chain goes through.  An object is the partial map of its properties; a
    schema is the ordered list of its entries ([Object.entries]).  [serialize]
    and [deserialize] are the source's loops, one branch per schema type.

    The address conversions call viem, which is a parameter ([Viem]); the sizes
    are the constants the service providers bind. *)
From S2P Require Import Prelude Bytes ByteBuffer.

(** viem's address functions, used by
    packages/crypto-address-keccak256/source/address.factory.ts. *)
Class Viem := {
  viem_getAddress : string → result string;
  viem_toBytes : string → result (list byte);
}.

Inductive FieldType :=
  | FUint8 | FUint16 | FUint32 | FUint48 | FUint64 | FUint256 | FBigInt
  | FHash | FBlockHash | FAddress | FPublicKey | FConsensusSignature
  | FValidatorSet | FHex | FTransactions | FUnknown (name : string).

Record FieldSchema := mkField {
  f_type : FieldType;
  f_optional : bool;
  f_size : option Z;
}.
Definition field (t : FieldType) : FieldSchema := mkField t false None.
Definition optionalField (t : FieldType) : FieldSchema := mkField t true None.
Definition sizedField (t : FieldType) (n : Z) : FieldSchema := mkField t false (Some n).

Definition Schema := list (string * FieldSchema).

(** Constants bound by the service providers. *)
Definition hashSize : Z := 32.
Definition consensusSignatureSize : Z := 96.
Definition publicKeySize : Z := 33.
Definition addressSize : Z := 20.

(** [data[property]]: a missing property reads as [undefined]. *)
Definition prop (data : gmap string Value) (property : string) : Value :=
  default VUndefined (data !! property).

(** [Buffer.from(value, "hex")], which throws on a value that is not text. *)
Definition bufferFromHex (value : Value) : result Value :=
  match value with
  | VString s => Ok (VBuffer (hexDecode s))
  | _ => Throw (JSError "ERR_INVALID_ARG_TYPE")
  end.

Section serializer.
Context `{Viem}.

(** address.factory.ts: [toBuffer] and [fromBuffer]. *)
Definition addressToBuffer (value : Value) : result Value :=
  match value with
  | VString s => VBuffer <$> viem_toBytes s
  | _ => Throw (JSError "viem: invalid address")
  end.
Definition addressFromBuffer (bs : list byte) : result string :=
  viem_getAddress ("0x" +:+ hexEncode bs).

Definition writeOptional (schema : FieldSchema) (value : Value) (write : M ByteBuffer unit)
    : M ByteBuffer unit :=
  if f_optional schema then
    match value with
    | VUndefined => writeUint8 (VNumber 0)
    | _ => writeUint8 (VNumber 1) ;; write
    end
  else write.

Definition readOptional (schema : FieldSchema) (read : M ByteBuffer Value) : M ByteBuffer Value :=
  if f_optional schema then
    isPresent ← readUint8;
    if isPresent =? 0 then mret VUndefined
    else if negb (isPresent =? 1) then throw (JSError "Invalid optional presence flag")
    else read
  else read.

Definition writeSerialized (serialized : list byte) : M ByteBuffer unit :=
  writeUint32 (VNumber (Z.of_nat (length serialized))) ;; writeBytes (VBuffer serialized).

Definition writeField (schema : FieldSchema) (value : Value) : M ByteBuffer unit :=
  match f_type schema with
  | FUint8 => writeOptional schema value (writeUint8 value)
  | FUint16 => writeOptional schema value (writeUint16 value)
  | FUint32 => writeOptional schema value (writeUint32 value)
  | FUint48 => writeOptional schema value (writeUint48 value)
  | FUint64 => writeOptional schema value (writeUint64 value)
  | FUint256 => writeOptional schema value (writeUint256 value)
  | FBigInt => writeOptional schema value (writeUint64 value)
  | FHash => buf ← liftR (bufferFromHex value); writeBytes buf
  | FBlockHash => writeOptional schema value (buf ← liftR (bufferFromHex value); writeBytes buf)
  | FAddress => buf ← liftR (addressToBuffer value); writeBytes buf
  | FPublicKey => buf ← liftR (bufferFromHex value); writeBytes buf
  | FConsensusSignature => buf ← liftR (bufferFromHex value); writeBytes buf
  | FValidatorSet =>
      match value with
      | VBooleans validatorSet =>
          writeUint8 (VNumber (Z.of_nat (length validatorSet))) ;;
          writeUint64 (VBigInt (validatorSetPack validatorSet))
      | _ => throw (JSError "Expected value which is array.")
      end
  | FHex =>
      match value with
      | VString s => writeSerialized (hexDecode s)
      | _ => throw (JSError "Expected value which is string.")
      end
  | FTransactions =>
      match value with
      | VTransactions l => forEach l writeSerialized
      | _ => throw (JSError "value is not iterable")
      end
  | FUnknown _ => throw (NamedError "NotImplemented")
  end.

Fixpoint writeFields (schema : Schema) (data : gmap string Value) : M ByteBuffer unit :=
  match schema with
  | [] => mret tt
  | (property, f) :: rest => writeField f (prop data property) ;; writeFields rest data
  end.

Definition serialize (data : gmap string Value) (length : Z) (skipBytes : Z) (schema : Schema)
    : result (list byte) :=
  (((if 0 <? skipBytes then skip skipBytes else mret tt) ;;
    writeFields schema data ;;
    gets getResult) (fromSize (Z.to_nat length))).1.

Definition readSerialized : M ByteBuffer (list byte) := n ← readUint32; readBytes n.

Fixpoint readN (n : nat) : M ByteBuffer (list (list byte)) :=
  match n with
  | O => mret []
  | S n' => bs ← readSerialized; rest ← readN n'; mret (bs :: rest)
  end.

Definition readField (schema : FieldSchema) (target : gmap string Value) : M ByteBuffer Value :=
  match f_type schema with
  | FUint8 => readOptional schema (z ← readUint8; mret (VNumber z))
  | FUint16 => readOptional schema (z ← readUint16; mret (VNumber z))
  | FUint32 => readOptional schema (z ← readUint32; mret (VNumber z))
  | FUint48 => readOptional schema (z ← readUint48; mret (VNumber z))
  | FUint64 => readOptional schema (z ← readUint64; mret (VBigInt z))
  | FUint256 => readOptional schema (z ← readUint256; mret (VBigInt z))
  | FBigInt => readOptional schema (z ← readUint64; mret (VBigInt z))
  | FHash => bs ← readBytes (default hashSize (f_size schema)); mret (VString (hexEncode bs))
  | FBlockHash => readOptional schema (bs ← readBytes hashSize; mret (VString (hexEncode bs)))
  | FAddress => bs ← readBytes addressSize; a ← liftR (addressFromBuffer bs); mret (VString a)
  | FPublicKey => bs ← readBytes publicKeySize; mret (VString (hexEncode bs))
  | FConsensusSignature => bs ← readBytes consensusSignatureSize; mret (VString (hexEncode bs))
  | FValidatorSet =>
      n ← readUint8; packed ← readUint64;
      l ← liftR (validatorSetUnpack packed n); mret (VBooleans l)
  | FHex => bs ← readSerialized; mret (VString (hexEncode bs))
  | FTransactions =>
      match prop target "transactionsCount" with
      | VNumber count => l ← readN (Z.to_nat count); mret (VTransactions l)
      | _ => throw (JSError "Expected value which is number.")
      end
  | FUnknown _ => throw (NamedError "NotImplemented")
  end.

(** [target[property] = value]; storing [undefined] reads back as [undefined]. *)
Fixpoint deserialize (schema : Schema) (target : gmap string Value)
    : M ByteBuffer (gmap string Value) :=
  match schema with
  | [] => mret target
  | (property, f) :: rest =>
      v ← readField f target;
      deserialize rest (<[property := v]> target)
  end.

(** ** The reference encoding

    [encodeField] says which bytes a well-typed property stands for: the
    canonical wire format.  [None] marks a value the format cannot carry. *)
Definition guardO (b : bool) (bs : list byte) : option (list byte) :=
  if b then Some bs else None.

Definition encodeUint (n : nat) (v : Value) : option (list byte) :=
  match v with
  | VNumber z => guardO ((0 <=? z) && (z <? 2 ^ (8 * Z.of_nat n))) (le_encode n z)
  | _ => None
  end.

Definition encodeBig (n : nat) (enc : nat → Z → list byte) (v : Value) : option (list byte) :=
  match v with
  | VBigInt z => guardO ((0 <=? z) && (z <? 2 ^ (8 * Z.of_nat n))) (enc n z)
  | _ => None
  end.

Definition encodeHexOf (size : Z) (v : Value) : option (list byte) :=
  match v with
  | VString s =>
      let bs := hexDecode s in
      guardO (bool_decide (isHexText s) && (Z.of_nat (length bs) =? size)) bs
  | _ => None
  end.

Definition encodeOptional (schema : FieldSchema) (enc : Value → option (list byte)) (v : Value)
    : option (list byte) :=
  if f_optional schema then
    match v with
    | VUndefined => Some [x00]
    | _ => cons x01 <$> enc v
    end
  else enc v.

Definition encodeSerialized (bs : list byte) : option (list byte) :=
  guardO (Z.of_nat (length bs) <? 2 ^ 32) (le_encode 4 (Z.of_nat (length bs)) ++ bs).

Fixpoint encodeAll (l : list (list byte)) : option (list byte) :=
  match l with
  | [] => Some []
  | bs :: rest =>
      match encodeSerialized bs, encodeAll rest with
      | Some a, Some b => Some (a ++ b)
      | _, _ => None
      end
  end.

Definition encodeField (schema : FieldSchema) (target : gmap string Value) (v : Value)
    : option (list byte) :=
  match f_type schema with
  | FUint8 => encodeOptional schema (encodeUint 1) v
  | FUint16 => encodeOptional schema (encodeUint 2) v
  | FUint32 => encodeOptional schema (encodeUint 4) v
  | FUint48 => encodeOptional schema (encodeUint 6) v
  | FUint64 | FBigInt => encodeOptional schema (encodeBig 8 le_encode) v
  | FUint256 => encodeOptional schema (encodeBig 32 be_encode) v
  | FHash => encodeHexOf (default hashSize (f_size schema)) v
  | FBlockHash => encodeOptional schema (encodeHexOf hashSize) v
  | FAddress =>
      match v with
      | VString s =>
          match viem_toBytes s with
          | Ok bs => guardO (bool_decide (addressFromBuffer bs = Ok s) &&
                             (Z.of_nat (length bs) =? addressSize)) bs
          | Throw _ => None
          end
      | _ => None
      end
  | FPublicKey => encodeHexOf publicKeySize v
  | FConsensusSignature => encodeHexOf consensusSignatureSize v
  | FValidatorSet =>
      match v with
      | VBooleans l =>
          guardO ((Z.of_nat (length l) <? 256) && (validatorSetPack l <? 2 ^ 64))
            (le_encode 1 (Z.of_nat (length l)) ++ le_encode 8 (validatorSetPack l))
      | _ => None
      end
  | FHex =>
      match v with
      | VString s => if bool_decide (isHexText s) then encodeSerialized (hexDecode s) else None
      | _ => None
      end
  | FTransactions =>
      match v, prop target "transactionsCount" with
      | VTransactions l, VNumber n =>
          if n =? Z.of_nat (length l) then encodeAll l else None
      | _, _ => None
      end
  | FUnknown _ => None
  end.

Fixpoint encodeFields (schema : Schema) (data target : gmap string Value) : option (list byte) :=
  match schema with
  | [] => Some []
  | (property, f) :: rest =>
      let v := prop data property in
      match encodeField f target v, encodeFields rest data (<[property := v]> target) with
      | Some a, Some b => Some (a ++ b)
      | _, _ => None
      end
  end.

(** What [deserialize] leaves in the target object. *)
Fixpoint copyFields (schema : Schema) (data target : gmap string Value) : gmap string Value :=
  match schema with
  | [] => target
  | (property, _) :: rest => copyFields rest data (<[property := prop data property]> target)
  end.
End serializer.

Section correctness.
Context `{Viem}.

Lemma guardO_Some b bs bs' : guardO b bs = Some bs' → b = true ∧ bs' = bs.
Proof. destruct b; simpl; intros [=]; auto. Qed.

Lemma encodeUint_inv n v bs :
  encodeUint n v = Some bs →
  ∃ z, v = VNumber z ∧ bs = le_encode n z ∧ 0 ≤ z < 2 ^ (8 * Z.of_nat n).
Proof.
  destruct v; try done. intros [Hz ->]%guardO_Some. simpl_bool. eauto with lia.
Qed.

Lemma encodeBig_inv n enc v bs :
  encodeBig n enc v = Some bs →
  ∃ z, v = VBigInt z ∧ bs = enc n z ∧ 0 ≤ z < 2 ^ (8 * Z.of_nat n).
Proof.
  destruct v; try done. intros [Hz ->]%guardO_Some. simpl_bool. eauto with lia.
Qed.

Lemma encodeHexOf_inv size v bs :
  encodeHexOf size v = Some bs →
  v = VString (hexEncode bs) ∧ Z.of_nat (length bs) = size.
Proof.
  destruct v; try done. intros [Hz ->]%guardO_Some. simpl_bool.
  split; [by f_equal | done].
Qed.

Lemma encodeSerialized_inv bs bs' :
  encodeSerialized bs = Some bs' →
  bs' = le_encode 4 (Z.of_nat (length bs)) ++ bs ∧ 0 ≤ Z.of_nat (length bs) < 2 ^ 32.
Proof. intros [Hz ->]%guardO_Some. simpl_bool. split; [done | lia]. Qed.

Lemma pow8_256 n : 2 ^ (8 * Z.of_nat n) = 256 ^ Z.of_nat n.
Proof. by rewrite Z.pow_mul_r by lia. Qed.

(** One lemma per presence discipline: an optional property is its flag
    followed by the mandatory encoding. *)
Lemma writeOptional_writes f enc v bs (write : M ByteBuffer unit) :
  (∀ bs, enc v = Some bs → writes write bs) →
  encodeOptional f enc v = Some bs → writes (writeOptional f v write) bs.
Proof.
  intros Hw. unfold encodeOptional, writeOptional.
  destruct (f_optional f); [| apply Hw].
  assert (writes (writeUint8 (VNumber 1)) [x01]) as H1
    by (apply (writeUintN_writes 1 1); lia).
  destruct v; [intros [= <-]; apply (writeUintN_writes 1 0); lia | ..];
    destruct (enc _) as [bsE|] eqn:Henc; simpl; intros [= <-];
    apply (writes_seq _ _ [x01] bsE); auto.
Qed.

Lemma readOptional_reads f enc v bs (read : M ByteBuffer Value) :
  (∀ bs, enc v = Some bs → v ≠ VUndefined → reads read bs v) →
  (f_optional f = false → v ≠ VUndefined) →
  encodeOptional f enc v = Some bs → reads (readOptional f read) bs v.
Proof.
  intros Hr Hopt. unfold encodeOptional, readOptional.
  destruct (f_optional f); [| intros Henc; apply Hr; auto].
  assert (reads readUint8 [x00] 0) as H0 by (apply (readUintN_reads 1 0); lia).
  assert (reads readUint8 [x01] 1) as H1 by (apply (readUintN_reads 1 1); lia).
  intros Henc.
  assert (v = VUndefined ∧ bs = [x00] ∨ (v ≠ VUndefined ∧ ∃ bsE, enc v = Some bsE ∧ bs = [x01] ++ bsE))
    as [[-> ->] | (Hv & bsE & HbsE & ->)].
  { destruct v; [left; by injection Henc | ..]; right; (split; [done |]);
      destruct (enc _) as [bsE|]; simpl in Henc; try done;
      injection Henc as <-; eauto. }
  - eapply (reads_bind _ _ [x00] []); [done | apply reads_ret].
  - eapply (reads_bind _ _ [x01] bsE); [done |]. simpl. auto.
Qed.

Lemma writeSerialized_writes bs bs' :
  encodeSerialized bs = Some bs' → writes (writeSerialized bs) bs'.
Proof.
  intros [-> Hlen]%encodeSerialized_inv.
  apply writes_seq; [apply (writeUintN_writes 4); lia | apply writeBytes_writes].
Qed.

Lemma readSerialized_reads bs bs' :
  encodeSerialized bs = Some bs' → reads readSerialized bs' bs.
Proof.
  intros [-> Hlen]%encodeSerialized_inv.
  eapply reads_bind; [apply (readUintN_reads 4); simpl; lia | apply readBytes_reads].
Qed.

Lemma writeAll_writes l bs : encodeAll l = Some bs → writes (forEach l writeSerialized) bs.
Proof.
  revert bs; induction l as [|x l IH]; simpl; intros bs Hbs.
  { injection Hbs as <-. apply writes_nil. }
  destruct (encodeSerialized x) as [a|] eqn:Hx; [| done].
  destruct (encodeAll l) as [b|]; [| done]. injection Hbs as <-.
  apply writes_seq; [by apply writeSerialized_writes | by apply IH].
Qed.

Lemma readN_reads l bs : encodeAll l = Some bs → reads (readN (length l)) bs l.
Proof.
  revert bs; induction l as [|x l IH]; simpl; intros bs Hbs.
  { injection Hbs as <-. apply reads_ret. }
  destruct (encodeSerialized x) as [a|] eqn:Hx; [| done].
  destruct (encodeAll l) as [b|]; [| done]. injection Hbs as <-.
  eapply reads_bind; [by apply readSerialized_reads |].
  apply (reads_fmap (readN (length l)) (cons x)). by apply IH.
Qed.

Lemma writeHex_writes size v bs :
  encodeHexOf size v = Some bs → writes (buf ← liftR (bufferFromHex v); writeBytes buf) bs.
Proof.
  intros [-> _]%encodeHexOf_inv b Hok. unfold mbind, M_bind, liftR. simpl.
  rewrite hexDecode_Encode. by apply writeBytes_writes.
Qed.

Lemma readHex_reads size v bs :
  encodeHexOf size v = Some bs →
  reads (bs ← readBytes size; mret (VString (hexEncode bs))) bs v.
Proof.
  intros [-> <-]%encodeHexOf_inv.
  apply (reads_fmap _ (λ bs, VString (hexEncode bs))), readBytes_reads.
Qed.

Lemma writeUint_writes n v bs :
  (n ≤ 6)%nat → encodeUint n v = Some bs → writes (writeUintN n v) bs.
Proof. intros Hn (z & -> & -> & Hz)%encodeUint_inv. by apply writeUintN_writes. Qed.

Lemma readUint_reads n v bs :
  encodeUint n v = Some bs → reads (z ← readUintN n; mret (VNumber z)) bs v.
Proof.
  intros (z & -> & -> & Hz)%encodeUint_inv.
  apply (reads_fmap _ VNumber), readUintN_reads. by rewrite <- pow8_256.
Qed.

Lemma writeBig_writes n v bs :
  encodeBig n be_encode v = Some bs → n = 32%nat → writes (writeUint256 v) bs.
Proof. intros (z & -> & -> & Hz)%encodeBig_inv ->. by apply writeUint256_writes. Qed.

Lemma writeUint64_writes' v bs :
  encodeBig 8 le_encode v = Some bs → writes (writeUint64 v) bs.
Proof. intros (z & -> & -> & Hz)%encodeBig_inv. by apply writeUint64_writes. Qed.

Lemma readUint64_reads v bs :
  encodeBig 8 le_encode v = Some bs → reads (z ← readUint64; mret (VBigInt z)) bs v.
Proof.
  intros (z & -> & -> & Hz)%encodeBig_inv. apply (reads_fmap _ VBigInt).
  apply (readUintN_reads 8). simpl in *; lia.
Qed.

Lemma readBig_reads v bs :
  encodeBig 32 be_encode v = Some bs → reads (z ← readUint256; mret (VBigInt z)) bs v.
Proof.
  intros (z & -> & -> & Hz)%encodeBig_inv. apply (reads_fmap _ VBigInt).
  by apply readUint256_reads.
Qed.

End correctness.

#[export] Hint Resolve writeHex_writes readHex_reads writeUint_writes readUint_reads
  writeBig_writes writeUint64_writes' readUint64_reads readBig_reads : codec.

Section roundtrip.
Context `{Viem}.

Lemma encodeOptional_undef f enc bs :
  enc VUndefined = None → encodeOptional f enc VUndefined = Some bs → f_optional f = true.
Proof. unfold encodeOptional. destruct (f_optional f); [done | congruence]. Qed.

(** A mandatory property of an optional-capable type is not [undefined]. *)
Lemma readOptional_reads' f enc v bs (read : M ByteBuffer Value) :
  enc VUndefined = None → (∀ bs, enc v = Some bs → reads read bs v) →
  encodeOptional f enc v = Some bs → reads (readOptional f read) bs v.
Proof.
  intros Hu Hr Henc. eapply readOptional_reads; [eauto | | done].
  intros Hf ->. pose proof (encodeOptional_undef f enc bs Hu Henc). congruence.
Qed.

Lemma writeField_writes f target v bs :
  encodeField f target v = Some bs → writes (writeField f v) bs.
Proof.
  unfold encodeField, writeField. destruct (f_type f);
    try (eapply writeOptional_writes; intros ??;
         eauto using writeUint_writes, writeUint64_writes', writeBig_writes, writeHex_writes with lia);
    try apply writeHex_writes; try done.
  - destruct v; try done. unfold addressToBuffer.
    destruct (viem_toBytes s) as [bs'|] eqn:Hs; [| done].
    intros [_ ->]%guardO_Some b Hok. unfold mbind, M_bind, liftR, fmap, result_fmap.
    by apply writeBytes_writes.
  - destruct v; try done. intros [Hl ->]%guardO_Some. simpl_bool.
    pose proof (pack_bounds l).
    apply writes_seq; [apply (writeUintN_writes 1); lia | apply writeUint64_writes; lia].
  - destruct v; try done. case_bool_decide; [| done]. apply writeSerialized_writes.
  - destruct v; try done. destruct (prop target _); try done.
    destruct (_ =? _); [| done]. apply writeAll_writes.
Qed.

Lemma readField_reads f target v bs :
  encodeField f target v = Some bs → reads (readField f target) bs v.
Proof.
  unfold encodeField, readField. destruct (f_type f);
    try (eapply readOptional_reads'; [done | intros ??;
         eauto using readUint_reads, readUint64_reads, readBig_reads, readHex_reads]);
    try apply readHex_reads; try done.
  - destruct v; try done. destruct (viem_toBytes s) as [bs'|] eqn:Hs; [| done].
    intros [Hb ->]%guardO_Some. simpl_bool.
    rewrite <- (app_nil_r bs'). eapply reads_bind.
    { pose proof (readBytes_reads bs') as Hr. by rewrite H1 in Hr. }
    intros b rest Hrest Hok. unfold mbind, M_bind, liftR. rewrite H0. by exists b.
  - destruct v; try done. intros [Hl ->]%guardO_Some. simpl_bool.
    pose proof (pack_bounds l).
    eapply reads_bind; [apply (readUintN_reads 1); simpl; lia |].
    rewrite <- (app_nil_r (le_encode 8 _)).
    eapply reads_bind; [apply (readUintN_reads 8); simpl in *; lia |].
    intros b rest Hrest Hok. unfold mbind, M_bind, liftR.
    rewrite unpack_pack. by exists b.
  - destruct v; try done. case_bool_decide as Hs; [| done]. intros Henc.
    replace (VString s) with (VString (hexEncode (hexDecode s))) by (by f_equal).
    eapply (reads_fmap _ (λ bs, VString (hexEncode bs))).
    by apply readSerialized_reads.
  - destruct v; try done. destruct (prop target _) as [|z| | | | |]; try done.
    destruct (Z.eqb_spec z (Z.of_nat (length l))) as [->|]; [| done]. intros Henc.
    rewrite Nat2Z.id. apply (reads_fmap _ VTransactions). by apply readN_reads.
Qed.

Lemma writeFields_writes schema data target bs :
  encodeFields schema data target = Some bs → writes (writeFields schema data) bs.
Proof.
  revert target bs; induction schema as [|[k f] schema IH]; simpl; intros target bs Hbs.
  { injection Hbs as <-. apply writes_nil. }
  destruct (encodeField f target (prop data k)) as [a|] eqn:Ha; [| done].
  destruct (encodeFields schema data _) as [b|] eqn:Hb; [| done]. injection Hbs as <-.
  apply writes_seq; [by eapply writeField_writes | by eapply IH].
Qed.

Lemma deserialize_reads schema data target bs :
  encodeFields schema data target = Some bs →
  reads (deserialize schema target) bs (copyFields schema data target).
Proof.
  revert target bs; induction schema as [|[k f] schema IH]; simpl; intros target bs Hbs.
  { injection Hbs as <-. apply reads_ret. }
  destruct (encodeField f target (prop data k)) as [a|] eqn:Ha; [| done].
  destruct (encodeFields schema data _) as [b|] eqn:Hb; [| done]. injection Hbs as <-.
  eapply reads_bind; [by apply readField_reads | by apply IH].
Qed.

Lemma fromSize_ok n : bb_ok (fromSize n).
Proof. unfold bb_ok. simpl. lia. Qed.

(** [serialize] into a buffer that is large enough produces the reference encoding. *)
Lemma serialize_fits schema data bs len :
  encodeFields schema data ∅ = Some bs → Z.of_nat (length bs) ≤ len →
  serialize data len 0 schema = Ok bs.
Proof.
  intros Henc Hlen. unfold serialize. simpl.
  pose proof (writeFields_writes _ _ _ _ Henc (fromSize (Z.to_nat len)) (fromSize_ok _)) as Hw.
  rewrite bool_decide_eq_true_2 in Hw
    by (unfold getRemainderLength; simpl; rewrite length_replicate; lia).
  destruct Hw as (b' & Hw & Hok & Hres & _). unfold mbind, M_bind, mret, M_ret. rewrite Hw.
  simpl. by rewrite Hres.
Qed.
Lemma serialize_encodes schema data bs len :
  encodeFields schema data ∅ = Some bs → len = Z.of_nat (length bs) →
  serialize data len 0 schema = Ok bs.
Proof. intros Henc ->. by apply serialize_fits. Qed.

Lemma deserialize_from_bytes schema data bs :
  encodeFields schema data ∅ = Some bs →
  ∃ b', deserialize schema ∅ (fromBuffer bs) = (Ok (copyFields schema data ∅), b') ∧
        getRemainderLength b' = 0.
Proof.
  intros Henc.
  destruct (deserialize_reads _ _ _ _ Henc (fromBuffer bs) []) as (b' & Hd & Hok & Hrem).
  { unfold getRemainder. simpl. by rewrite drop_0, app_nil_r. }
  { unfold bb_ok. simpl. lia. }
  exists b'. split; [done |]. rewrite remainder_length by done. by rewrite Hrem.
Qed.
End roundtrip.

(** ** Encodings of well-typed properties *)
Definition isHexOf (size : Z) (s : string) : Prop :=
  isHexText s ∧ Z.of_nat (length (hexDecode s)) = size.
#[export] Instance isHexOf_dec size s : Decision (isHexOf size s).
Proof. unfold isHexOf. apply _. Defined.

Definition uint (n : nat) (z : Z) : Prop := 0 ≤ z < 2 ^ (8 * Z.of_nat n).
#[export] Instance uint_dec n z : Decision (uint n z).
Proof. unfold uint. apply _. Defined.

Section encodings.
Lemma encodeUint_Some n z : uint n z → encodeUint n (VNumber z) = Some (le_encode n z).
Proof.
  unfold uint, encodeUint, guardO. intros Hz.
  destruct (Z.leb_spec 0 z); [| lia]. destruct (Z.ltb_spec z (2 ^ (8 * Z.of_nat n))); [done | lia].
Qed.

Lemma encodeBig_Some n enc z : uint n z → encodeBig n enc (VBigInt z) = Some (enc n z).
Proof.
  unfold uint, encodeBig, guardO. intros Hz.
  destruct (Z.leb_spec 0 z); [| lia]. destruct (Z.ltb_spec z (2 ^ (8 * Z.of_nat n))); [done | lia].
Qed.

Lemma encodeHexOf_Some size s :
  isHexOf size s → encodeHexOf size (VString s) = Some (hexDecode s).
Proof.
  intros [Ht Hl]. unfold encodeHexOf, guardO.
  by rewrite bool_decide_eq_true_2, Hl, Z.eqb_refl by done.
Qed.

Lemma encodeSerialized_Some bs :
  uint 4 (Z.of_nat (length bs)) →
  encodeSerialized bs = Some (le_encode 4 (Z.of_nat (length bs)) ++ bs).
Proof.
  unfold uint, encodeSerialized, guardO. intros Hz.
  destruct (Z.ltb_spec (Z.of_nat (length bs)) (2 ^ 32)); [done | simpl in Hz; lia].
Qed.

(** A set of at most 64 validators fits its eight bytes. *)
Lemma validatorSet_fits l : (length l ≤ 64)%nat → (Z.of_nat (length l) <? 256) && (validatorSetPack l <? 2 ^ 64) = true.
Proof.
  intros Hl. pose proof (pack_bounds l). assert (2 ^ Z.of_nat (length l) ≤ 2 ^ 64) by (apply Z.pow_le_mono_r; lia).
  rewrite !(proj2 (Z.ltb_lt _ _)) by lia. done.
Qed.

Lemma length_hexOf size s : isHexOf size s → length (hexDecode s) = Z.to_nat size.
Proof. intros [_ Hl]. lia. Qed.

Lemma isHexOf_nonempty s : isHexOf 32 s → s ≠ EmptyString.
Proof. intros [_ Hl] ->. simpl in Hl. lia. Qed.
End encodings.

(** Equal bytes come from equal objects: the encoding of a schema is injective
    on the properties the schema names. *)
Lemma encodeFields_inj `{Viem} schema data data' bs :
  encodeFields schema data ∅ = Some bs → encodeFields schema data' ∅ = Some bs →
  copyFields schema data ∅ = copyFields schema data' ∅.
Proof.
  intros H1 H2.
  destruct (deserialize_from_bytes _ _ _ H1) as (b1 & Hd1 & _).
  destruct (deserialize_from_bytes _ _ _ H2) as (b2 & Hd2 & _).
  rewrite Hd1 in Hd2. congruence.
Qed.
