(* ===== verification/Messages.v ===== *)
(** * packages/crypto-messages

    Prevotes and precommits: their data, the bytes that are signed, the bytes
    that travel, and the checks a received message passes before it becomes a
    [Message] object. *)
From S2P Require Import Prelude Bytes ByteBuffer Serializer.

(** [Enums.Crypto.MessageType]. *)
Definition MessageType_Prevote : Z := 1.
Definition MessageType_Precommit : Z := 2.

(** [Contracts.Crypto.MessageData]. *)
Record MessageData := mkMessageData {
  md_type : Z;
  md_blockNumber : Z;
  md_round : Z;
  md_blockHash : option string;
  md_validatorIndex : Z;
  md_signature : string;
}.
#[export] Instance MessageData_eq_dec : EqDecision MessageData.
Proof. solve_decision. Defined.

Record SignatureMessageData := mkSignatureMessageData {
  sm_type : Z;
  sm_blockNumber : Z;
  sm_round : Z;
  sm_blockHash : option string;
}.

Record SignatureMessageContext := mkSignatureMessageContext {
  sc_genesisBlockHash : string;
  sc_previousBlockHash : string;
}.

(** message.ts: the message object, its data and the bytes it came from. *)
Record Message := mkMessage {
  msg_data : MessageData;
  msg_serialized : list byte;
}.
#[export] Instance Message_eq_dec : EqDecision Message.
Proof. solve_decision. Defined.

Definition msg_type (m : Message) : Z := md_type (msg_data m).
Definition msg_blockNumber (m : Message) : Z := md_blockNumber (msg_data m).
Definition msg_round (m : Message) : Z := md_round (msg_data m).
Definition msg_blockHash (m : Message) : option string := md_blockHash (msg_data m).
Definition msg_validatorIndex (m : Message) : Z := md_validatorIndex (msg_data m).
Definition msg_signature (m : Message) : string := md_signature (msg_data m).

(** [toData()], and the part of it that is signed. *)
Definition toSignatureData (d : MessageData) : SignatureMessageData :=
  mkSignatureMessageData (md_type d) (md_blockNumber d) (md_round d) (md_blockHash d).

(** An optional string property. *)
Definition VOpt (o : option string) : Value := from_option VString VUndefined o.

(** ** serializer-schemas.ts *)
Definition messageFields : Schema :=
  [("type", field FUint8); ("blockNumber", field FUint32); ("round", field FUint32);
   ("blockHash", optionalField FBlockHash)].
Definition schemaForSignature : Schema :=
  [("genesisBlockHash", field FHash); ("previousBlockHash", field FHash)] ++ messageFields.
Definition messageSchema : Schema :=
  messageFields ++ [("validatorIndex", field FUint8); ("signature", field FConsensusSignature)].

Definition signatureProps (d : SignatureMessageData) (c : SignatureMessageContext)
    : gmap string Value :=
  list_to_map [("genesisBlockHash", VString (sc_genesisBlockHash c));
    ("previousBlockHash", VString (sc_previousBlockHash c));
    ("type", VNumber (sm_type d)); ("blockNumber", VNumber (sm_blockNumber d));
    ("round", VNumber (sm_round d)); ("blockHash", VOpt (sm_blockHash d))].

Definition messageProps (d : MessageData) : gmap string Value :=
  list_to_map [("type", VNumber (md_type d)); ("blockNumber", VNumber (md_blockNumber d));
    ("round", VNumber (md_round d)); ("blockHash", VOpt (md_blockHash d));
    ("validatorIndex", VNumber (md_validatorIndex d)); ("signature", VString (md_signature d))].

(** [message.blockHash ? hashSize : 0]: the empty string is falsy too. *)
Definition truthyLength (o : option string) : Z :=
  match o with
  | Some EmptyString | None => 0
  | Some _ => hashSize
  end.

Section messages.
Context `{Viem}.

(** ** serializer.ts *)
Definition serializeMessage (message : MessageData) : result (list byte) :=
  serialize (messageProps message)
    (1 + 4 + 4 + 1 + 1 + truthyLength (md_blockHash message) + consensusSignatureSize)
    0 messageSchema.

Definition serializeMessageForSignature (message : SignatureMessageData)
    (context : SignatureMessageContext) : result (list byte) :=
  serialize (signatureProps message context)
    (hashSize + hashSize + 1 + 4 + 4 + 1 + truthyLength (sm_blockHash message))
    0 schemaForSignature.

(** The object that [deserialize] filled, read with the property types the
    schema gives it. *)
Definition messageOfProps (t : gmap string Value) : result MessageData :=
  match prop t "type", prop t "blockNumber", prop t "round", prop t "blockHash",
        prop t "validatorIndex", prop t "signature" with
  | VNumber ty, VNumber n, VNumber r, VUndefined, VNumber i, VString s =>
      Ok (mkMessageData ty n r None i s)
  | VNumber ty, VNumber n, VNumber r, VString h, VNumber i, VString s =>
      Ok (mkMessageData ty n r (Some h) i s)
  | _, _, _, _, _, _ => Throw (JSError "not a message")
  end.

(** ** deserializer.ts *)
Definition deserializeMessage (serialized : list byte) : result MessageData :=
  match deserialize messageSchema ∅ (fromBuffer serialized) with
  | (Ok t, buffer) =>
      if getRemainderLength buffer =? 0 then messageOfProps t
      else Throw (NamedError "MessageDeserializationError")
  | (Throw _, _) => Throw (NamedError "MessageDeserializationError")
  end.
End messages.

(** ** schemas.ts and the keywords of packages/crypto-validation

    The JSON schemas are data for ajv; their meaning on the values that reach
    them is written out.  [roundValidatorsAt] is
    [configuration.getMilestone(blockNumber).roundValidators]. *)
Definition isLowerHexDigit (a : Ascii.ascii) : bool :=
  let c := Z.of_N (Ascii.N_of_ascii a) in
  isSome (hex_value a) && negb ((65 <=? c) && (c <=? 70)).

Fixpoint allLowerHex (s : string) : bool :=
  match s with
  | EmptyString => true
  | String a s' => isLowerHexDigit a && allLowerHex s'
  end.

(** The pattern of the "hex" schema: one or more lower-case digits. *)
Definition isHexSchema (s : string) : bool := allLowerHex s && negb (String.eqb s EmptyString).

Definition hexOfLength (n : nat) (s : string) : bool :=
  isHexSchema s && Nat.eqb (String.length s) n.

Definition isValidatorIndex (roundValidators data : Z) : bool :=
  (0 <=? data) && (data <? roundValidators).

Definition limitToRoundValidators (roundValidators : Z) (data : list bool) : bool :=
  Z.of_nat (length data) =? roundValidators.

Definition messageSchemaValid (roundValidatorsAt : Z → Z) (d : MessageData) : bool :=
  from_option (hexOfLength 64) true (md_blockHash d) &&
  (1 <=? md_blockNumber d) && (0 <=? md_round d) &&
  hexOfLength 192 (md_signature d) &&
  ((md_type d =? MessageType_Prevote) || (md_type d =? MessageType_Precommit)) &&
  isValidatorIndex (roundValidatorsAt (md_blockNumber d)) (md_validatorIndex d).

Section factory.
Context `{Viem} (roundValidatorsAt : Z → Z).
(** The BLS worker's "sign". *)
Context (blsSign : list byte → list byte → string).

(** ** factory.ts *)
Definition makeMessageFromBytes (bytes : list byte) : result Message :=
  data ← deserializeMessage bytes;
  if messageSchemaValid roundValidatorsAt data then Ok (mkMessage data bytes)
  else Throw (NamedError "MessageSchemaError").

Definition makeMessage (ty blockNumber round : Z) (blockHash : option string)
    (validatorIndex : Z) (privateKey : string) (context : SignatureMessageContext)
    : result Message :=
  bytes ← serializeMessageForSignature (mkSignatureMessageData ty blockNumber round blockHash) context;
  let signature := blsSign bytes (hexDecode privateKey) in
  serialized ← serializeMessage (mkMessageData ty blockNumber round blockHash validatorIndex signature);
  makeMessageFromBytes serialized.
End factory.

(** ** Well-formed data *)
Definition isHash (s : string) : Prop := isHexOf hashSize s.
Definition isConsensusSignature (s : string) : Prop := isHexOf consensusSignatureSize s.

Definition wfSignatureData (d : SignatureMessageData) : Prop :=
  uint 1 (sm_type d) ∧ uint 4 (sm_blockNumber d) ∧ uint 4 (sm_round d) ∧
  from_option isHash True (sm_blockHash d).

Definition wfContext (c : SignatureMessageContext) : Prop :=
  isHash (sc_genesisBlockHash c) ∧ isHash (sc_previousBlockHash c).

Definition wfMessageData (d : MessageData) : Prop :=
  wfSignatureData (toSignatureData d) ∧ uint 1 (md_validatorIndex d) ∧
  isConsensusSignature (md_signature d).

Definition blockHashBytes (o : option string) : list byte :=
  match o with None => [x00] | Some s => x01 :: hexDecode s end.

(** Text that passes the schema is the text of its bytes. *)
Lemma lowerHex_digit a :
  isLowerHexDigit a = true → ∃ x, hex_value a = Some x ∧ hex_digit x = a ∧ 0 ≤ x < 16.
Proof.
  destruct a as [[] [] [] [] [] [] [] []]; intros Hd; try (by vm_compute in Hd);
    eexists; (split; [reflexivity |]); (split; [reflexivity | by split; vm_compute]).
Qed.

Lemma hexOfLength_isHexOf n s : hexOfLength (2 * n) s = true → isHexOf (Z.of_nat n) s.
Proof.
  unfold hexOfLength, isHexSchema. intros [[Hs _]%andb_true_iff Hl%Nat.eqb_eq]%andb_true_iff.
  revert s Hs Hl; induction n as [|n IH]; intros s Hs Hl.
  { destruct s; [split; reflexivity | done]. }
  destruct s as [|a [|b s]]; [done | cbn in Hl; lia |]. cbn [allLowerHex] in Hs.
  apply andb_true_iff in Hs as [Ha [Hb Hs]%andb_true_iff].
  apply lowerHex_digit in Ha as (x & Hx & <- & Hxr). apply lowerHex_digit in Hb as (y & Hy & <- & Hyr).
  destruct (IH s Hs) as [Ht Hlen]; [cbn in Hl; lia |]. unfold isHexOf, isHexText in *.
  cbn [hexDecode]. rewrite Hx, Hy. cbn [hexEncode]. rewrite Z_of_byte_of_Z, (Z.mod_small (16 * x + y)) by lia.
  rewrite (Z.mul_comm 16 x), Z.div_add_l, (Z.div_small y), Z.add_0_r, Ht by lia.
  rewrite Z.add_comm, Z.mod_add, Z.mod_small by lia. split; [done |]. cbn [length]. lia.
Qed.

(** The wire format, written out. *)
Definition signatureBytes (d : SignatureMessageData) (c : SignatureMessageContext) : list byte :=
  hexDecode (sc_genesisBlockHash c) ++ hexDecode (sc_previousBlockHash c) ++
  le_encode 1 (sm_type d) ++ le_encode 4 (sm_blockNumber d) ++ le_encode 4 (sm_round d) ++
  blockHashBytes (sm_blockHash d).

Definition messageBytes (d : MessageData) : list byte :=
  le_encode 1 (md_type d) ++ le_encode 4 (md_blockNumber d) ++ le_encode 4 (md_round d) ++
  blockHashBytes (md_blockHash d) ++ le_encode 1 (md_validatorIndex d) ++
  hexDecode (md_signature d).

Section correctness.
Context `{Viem}.

Lemma encode_blockHash o target :
  from_option isHash True o →
  encodeField (optionalField FBlockHash) target (VOpt o) = Some (blockHashBytes o).
Proof.
  destruct o as [s|]; [| done]. intros Hs. cbn [from_option] in Hs.
  unfold encodeField, encodeOptional, VOpt. cbn [f_type f_optional optionalField from_option].
  by rewrite encodeHexOf_Some.
Qed.

Lemma truthyLength_bytes o :
  from_option isHash True o → Z.of_nat (length (blockHashBytes o)) = 1 + truthyLength o.
Proof.
  destruct o as [s|]; simpl; [| done]. intros Hs. pose proof (length_hexOf _ _ Hs) as Hl.
  destruct s; [by apply isHexOf_nonempty in Hs |]. rewrite Hl. done.
Qed.

Lemma messageProps_encode d :
  wfMessageData d → encodeFields messageSchema (messageProps d) ∅ = Some (messageBytes d).
Proof.
  intros ((Ht & Hn & Hr & Hb) & Hi & Hs). unfold messageSchema, messageFields. cbn [app encodeFields].
  change (prop (messageProps d) "type") with (VNumber (md_type d)).
  change (prop (messageProps d) "blockNumber") with (VNumber (md_blockNumber d)).
  change (prop (messageProps d) "round") with (VNumber (md_round d)).
  change (prop (messageProps d) "blockHash") with (VOpt (md_blockHash d)).
  change (prop (messageProps d) "validatorIndex") with (VNumber (md_validatorIndex d)).
  change (prop (messageProps d) "signature") with (VString (md_signature d)).
  rewrite encode_blockHash by done. unfold encodeField, encodeOptional. cbn [f_type f_optional field].
  simpl in Ht, Hn, Hr. rewrite !encodeUint_Some, encodeHexOf_Some by done.
  unfold messageBytes. by rewrite app_nil_r.
Qed.

Lemma signatureProps_encode d c :
  wfSignatureData d → wfContext c →
  encodeFields schemaForSignature (signatureProps d c) ∅ = Some (signatureBytes d c).
Proof.
  intros (Ht & Hn & Hr & Hb) [Hg Hp]. unfold schemaForSignature, messageFields. cbn [app encodeFields].
  change (prop (signatureProps d c) "genesisBlockHash") with (VString (sc_genesisBlockHash c)).
  change (prop (signatureProps d c) "previousBlockHash") with (VString (sc_previousBlockHash c)).
  change (prop (signatureProps d c) "type") with (VNumber (sm_type d)).
  change (prop (signatureProps d c) "blockNumber") with (VNumber (sm_blockNumber d)).
  change (prop (signatureProps d c) "round") with (VNumber (sm_round d)).
  change (prop (signatureProps d c) "blockHash") with (VOpt (sm_blockHash d)).
  rewrite encode_blockHash by done. unfold encodeField, encodeOptional. cbn [f_type f_optional field f_size default].
  rewrite !encodeUint_Some, !encodeHexOf_Some by done.
  unfold signatureBytes. by rewrite app_nil_r.
Qed.

Lemma serializeMessage_bytes d : wfMessageData d → serializeMessage d = Ok (messageBytes d).
Proof.
  intros Hwf. apply serialize_encodes; [by apply messageProps_encode |].
  destruct Hwf as ((_ & _ & _ & Hb) & _ & Hs). unfold messageBytes. rewrite !length_app, !length_le_encode.
  pose proof (truthyLength_bytes _ Hb) as Hl. simpl in Hl.
  rewrite (length_hexOf _ _ Hs). unfold consensusSignatureSize. lia.
Qed.

Lemma serializeForSignature_bytes d c :
  wfSignatureData d → wfContext c → serializeMessageForSignature d c = Ok (signatureBytes d c).
Proof.
  intros Hwf Hc. apply serialize_encodes; [by apply signatureProps_encode |].
  destruct Hwf as (_ & _ & _ & Hb), Hc as [Hg Hp]. unfold signatureBytes.
  rewrite !length_app, !length_le_encode, (length_hexOf _ _ Hg), (length_hexOf _ _ Hp).
  pose proof (truthyLength_bytes _ Hb). unfold hashSize in *. lia.
Qed.

Lemma serialize_Ok schema data len bs :
  serialize data len 0 schema = Ok bs →
  ∃ b, writeFields schema data (fromSize (Z.to_nat len)) = (Ok tt, b).
Proof.
  unfold serialize. cbn [Z.ltb Z.compare]. unfold mbind, M_bind, mret, M_ret.
  destruct (writeFields schema data _) as [[[]|] b]; [eauto | done].
Qed.

Lemma messageOfProps_copy d :
  messageOfProps (copyFields messageSchema (messageProps d) ∅) = Ok d.
Proof. by destruct d as [? ? ? [?|] ? ?]. Qed.

Lemma deserializeMessage_bytes d : wfMessageData d → deserializeMessage (messageBytes d) = Ok d.
Proof.
  intros Hwf. unfold deserializeMessage.
  destruct (deserialize_from_bytes _ _ _ (messageProps_encode d Hwf)) as (b & -> & ->).
  simpl. apply messageOfProps_copy.
Qed.

(** A prevote or precommit survives the wire: for every well-formed
    message the serializer succeeds within the length it announces, and
    deserializing those bytes gives the same message. *)
Theorem message_roundtrip d :
  wfMessageData d →
  ∃ bs, serializeMessage d = Ok bs ∧ deserializeMessage bs = Ok d.
Proof.
  intros Hwf. exists (messageBytes d).
  split; [by apply serializeMessage_bytes | by apply deserializeMessage_bytes].
Qed.

(** Serializing checks the ranges of the numbers. *)
Lemma writeFields_Ok k f schema data b b' :
  writeFields ((k, f) :: schema) data b = (Ok tt, b') →
  ∃ b1, writeField f (prop data k) b = (Ok tt, b1) ∧ writeFields schema data b1 = (Ok tt, b').
Proof.
  cbn [writeFields]. unfold mbind, M_bind. destruct (writeField f (prop data k) b) as [[[]|] b1]; [eauto | done].
Qed.

Lemma writeUintN_Ok n z b b' : writeUintN n (VNumber z) b = (Ok tt, b') → uint n z.
Proof.
  unfold writeUintN, uint. destruct (negb (isSafeInteger z)); [done |].
  destruct (Z.ltb_spec z 0); [done |]. destruct (Z.ltb_spec (2 ^ (8 * Z.of_nat n) - 1) z); [done |]. lia.
Qed.

Lemma serializeForSignature_wf d c bs :
  serializeMessageForSignature d c = Ok bs → from_option (hexOfLength 64) true (sm_blockHash d) = true →
  wfSignatureData d.
Proof.
  intros (b & Hb)%serialize_Ok Hh. unfold schemaForSignature, messageFields in Hb. cbn [app] in Hb.
  apply writeFields_Ok in Hb as (b1 & _ & Hb). apply writeFields_Ok in Hb as (b2 & _ & Hb).
  apply writeFields_Ok in Hb as (b3 & Ht & Hb). apply writeFields_Ok in Hb as (b4 & Hn & Hb).
  apply writeFields_Ok in Hb as (b5 & Hr & _).
  split; [by eapply writeUintN_Ok |]. split; [by eapply writeUintN_Ok |]. split; [by eapply writeUintN_Ok |].
  destruct (sm_blockHash d); [| done]. by apply (hexOfLength_isHexOf 32).
Qed.

(** Reading the signed properties back from an object. *)
Definition signedPartOf (t : gmap string Value) : list Value :=
  prop t <$> ["genesisBlockHash"; "previousBlockHash"; "type"; "blockNumber"; "round"; "blockHash"].

Lemma signedPartOf_copy d c :
  signedPartOf (copyFields schemaForSignature (signatureProps d c) ∅) =
  [VString (sc_genesisBlockHash c); VString (sc_previousBlockHash c); VNumber (sm_type d);
   VNumber (sm_blockNumber d); VNumber (sm_round d); VOpt (sm_blockHash d)].
Proof. reflexivity. Qed.

Lemma copy_signatureProps_inj d c d' c' :
  copyFields schemaForSignature (signatureProps d c) ∅ =
  copyFields schemaForSignature (signatureProps d' c') ∅ → d = d' ∧ c = c'.
Proof.
  intros Heq%(f_equal signedPartOf). rewrite !signedPartOf_copy in Heq.
  destruct d as [? ? ? [?|]], c, d' as [? ? ? [?|]], c'; simpl in Heq; naive_solver.
Qed.

Lemma signing_inj d c d' c' bs :
  wfSignatureData d → wfContext c → wfSignatureData d' → wfContext c' →
  serializeMessageForSignature d c = Ok bs →
  serializeMessageForSignature d' c' = Ok bs → d = d' ∧ c = c'.
Proof.
  intros Hd Hc Hd' Hc' H1 H2.
  rewrite serializeForSignature_bytes in H1, H2 by done.
  apply copy_signatureProps_inj. eapply encodeFields_inj; [by apply signatureProps_encode |].
  rewrite signatureProps_encode by done. congruence.
Qed.

(** C25. The bytes a validator signs determine the vote: equal signing bytes
    come from the same type, block number, round, block hash, genesis block
    and previous block.  A prevote signature can therefore not be replayed as
    a precommit, in another round, for another block, or on another chain. *)
Theorem signing_bytes_injective d c d' c' bs :
  wfSignatureData d → wfContext c → wfSignatureData d' → wfContext c' →
  serializeMessageForSignature d c = Ok bs →
  serializeMessageForSignature d' c' = Ok bs → d = d' ∧ c = c'.
Proof. apply signing_inj. Qed.
End correctness.
