(* ===== verification/Blocks.v ===== *)
(** * packages/crypto-block (and the transaction object of packages/crypto-transaction)

    Block headers and blocks: the wire format, the header hash, and the factory
    functions that build a [Block] object from bytes.  SHA-256 is a parameter,
    and so is the transaction codec, through the interface [TransactionCodec]. *)
From S2P Require Import Prelude Bytes ByteBuffer Serializer Messages.

(** crypto-transaction/source/transaction.ts. *)
Record Transaction := mkTransaction {
  tx_hash : string;
  tx_network : Z;
  tx_from : string;
  tx_senderPublicKey : string;
  tx_senderLegacyAddress : string;
  tx_to : option string;
  tx_value : Z;
  tx_gasPrice : Z;
  tx_gasLimit : Z;
  tx_nonce : Z;
  tx_data : string;
  tx_v : Z;
  tx_r : string;
  tx_s : string;
  tx_legacySecondSignature : option string;
  tx_serialized : list byte;
}.
#[export] Instance Transaction_eq_dec : EqDecision Transaction.
Proof. solve_decision. Defined.

(** block-transaction.ts: a transaction and its place in a block. *)
Record BlockTransaction := mkBlockTransaction {
  bt_transaction : Transaction;
  bt_transactionIndex : Z;
  bt_blockNumber : Z;
  bt_blockHash : string;
}.

(** [Contracts.Crypto.BlockHeaderRaw] and [BlockHeader]. *)
Record BlockHeaderRaw := mkBlockHeaderRaw {
  bh_version : Z;
  bh_timestamp : Z;
  bh_number : Z;
  bh_round : Z;
  bh_parentHash : string;
  bh_stateRoot : string;
  bh_logsBloom : string;
  bh_transactionsCount : Z;
  bh_gasUsed : Z;
  bh_fee : Z;
  bh_reward : Z;
  bh_payloadSize : Z;
  bh_transactionsRoot : string;
  bh_proposer : string;
  bh_randaoReveal : string;
}.
#[export] Instance BlockHeaderRaw_eq_dec : EqDecision BlockHeaderRaw.
Proof. solve_decision. Defined.

Record BlockHeader := mkBlockHeader {
  bh_raw : BlockHeaderRaw;
  bh_hash : string;
}.
#[export] Instance BlockHeader_eq_dec : EqDecision BlockHeader.
Proof. solve_decision. Defined.

(** block.ts. *)
Record Block := mkBlock {
  b_header : BlockHeader;
  b_serialized : string;
  b_transactions : list BlockTransaction;
}.

Definition b_raw (b : Block) : BlockHeaderRaw := bh_raw (b_header b).
Definition b_number (b : Block) : Z := bh_number (b_raw b).
Definition b_round (b : Block) : Z := bh_round (b_raw b).
Definition b_timestamp (b : Block) : Z := bh_timestamp (b_raw b).
Definition b_hash (b : Block) : string := bh_hash (b_header b).

(** The constructor of [Block]: it stamps each transaction with the block. *)
Definition newBlock (data : BlockHeader) (serialized : string) (transactions : list Transaction) : Block :=
  mkBlock data serialized
    (imap (λ index tx, mkBlockTransaction tx (Z.of_nat index) (bh_number (bh_raw data)) (bh_hash data))
       transactions).

(** ** serializer-schemas.ts *)
Definition blockHeaderSchema : Schema :=
  [("version", field FUint8); ("timestamp", field FUint48); ("number", field FUint32);
   ("round", field FUint32); ("parentHash", field FHash); ("stateRoot", field FHash);
   ("logsBloom", sizedField FHash 256); ("transactionsCount", field FUint16);
   ("gasUsed", field FUint32); ("fee", field FUint256); ("reward", field FUint256);
   ("payloadSize", field FUint32); ("transactionsRoot", field FHash);
   ("proposer", field FAddress); ("randaoReveal", field FConsensusSignature)].
Definition transactionsSchema : Schema := [("transactions", field FTransactions)].
Definition blockSchema : Schema := blockHeaderSchema ++ transactionsSchema.

(** service-provider.ts: [Identifiers.Cryptography.Block.HeaderSize]. *)
Definition headerSize : Z :=
  1 + 6 + 4 + 4 + hashSize + hashSize + 256 + 2 + 4 + 32 + 32 + 4 + hashSize + addressSize + 96.

Definition headerProps (h : BlockHeaderRaw) : gmap string Value :=
  list_to_map [("version", VNumber (bh_version h)); ("timestamp", VNumber (bh_timestamp h));
    ("number", VNumber (bh_number h)); ("round", VNumber (bh_round h));
    ("parentHash", VString (bh_parentHash h)); ("stateRoot", VString (bh_stateRoot h));
    ("logsBloom", VString (bh_logsBloom h)); ("transactionsCount", VNumber (bh_transactionsCount h));
    ("gasUsed", VNumber (bh_gasUsed h)); ("fee", VBigInt (bh_fee h)); ("reward", VBigInt (bh_reward h));
    ("payloadSize", VNumber (bh_payloadSize h)); ("transactionsRoot", VString (bh_transactionsRoot h));
    ("proposer", VString (bh_proposer h)); ("randaoReveal", VString (bh_randaoReveal h))].

Definition blockProps (h : BlockHeaderRaw) (transactions : list (list byte)) : gmap string Value :=
  <["transactions" := VTransactions transactions]> (headerProps h).

(** The header object that [deserialize] filled, read back with its types. *)
Definition headerOfProps (t : gmap string Value) : result BlockHeaderRaw :=
  match prop t "version", prop t "timestamp", prop t "number", prop t "round" with
  | VNumber version, VNumber timestamp, VNumber number, VNumber round =>
    match prop t "parentHash", prop t "stateRoot", prop t "logsBloom", prop t "transactionsRoot",
          prop t "proposer", prop t "randaoReveal" with
    | VString parentHash, VString stateRoot, VString logsBloom, VString transactionsRoot,
      VString proposer, VString randaoReveal =>
      match prop t "transactionsCount", prop t "gasUsed", prop t "fee", prop t "reward",
            prop t "payloadSize" with
      | VNumber transactionsCount, VNumber gasUsed, VBigInt fee, VBigInt reward, VNumber payloadSize =>
          Ok (mkBlockHeaderRaw version timestamp number round parentHash stateRoot logsBloom
                transactionsCount gasUsed fee reward payloadSize transactionsRoot proposer randaoReveal)
      | _, _, _, _, _ => Throw (JSError "not a block header")
      end
    | _, _, _, _, _, _ => Throw (JSError "not a block header")
    end
  | _, _, _, _ => Throw (JSError "not a block header")
  end.

(** What the block codec uses of crypto-transaction's factory. *)
Class TransactionCodec := {
  txFromBytes : list byte → result Transaction;
}.

(** SHA-256 of packages/crypto-hash-bcrypto. *)
Class HashFactory := {
  sha256 : list byte → list byte;
  keccak256 : list byte → list byte;
}.

Fixpoint traverse {A B} (f : A → result B) (l : list A) : result (list B) :=
  match l with
  | [] => Ok []
  | x :: l' => y ← f x; ys ← traverse f l'; Ok (y :: ys)
  end.

Section blocks.
Context `{Viem} `{TransactionCodec} `{HashFactory}.

(** ** serializer.ts *)
Definition totalSize (block : BlockHeaderRaw) : Z := headerSize + bh_payloadSize block.

Definition serializeHeader (header : BlockHeaderRaw) : result (list byte) :=
  serialize (headerProps header) headerSize 0 blockHeaderSchema.

Definition serializeWithTransactions (header : BlockHeaderRaw) (transactions : list Transaction)
    : result (list byte) :=
  serialize (blockProps header (tx_serialized <$> transactions)) (totalSize header) 0 blockSchema.

(** ** hash.factory.ts *)
Definition makeHash (data : BlockHeaderRaw) : result string :=
  bytes ← serializeHeader data; Ok (hexEncode (sha256 bytes)).

(** ** deserializer.ts *)
Definition deserializeBufferHeader : M ByteBuffer BlockHeaderRaw :=
  t ← deserialize blockHeaderSchema ∅;
  header ← liftR (headerOfProps t);
  remainder ← gets getRemainderLength;
  if remainder =? bh_payloadSize header then mret header
  else throw (NamedError "InvalidBlockBytesError").

Definition deserializeTransactions (header : BlockHeaderRaw) : M ByteBuffer (list Transaction) :=
  t ← deserialize transactionsSchema (headerProps header);
  match prop t "transactions" with
  | VTransactions l => liftR (traverse txFromBytes l)
  | _ => throw (JSError "block.transactions is not iterable")
  end.

Definition deserializeHeader (serialized : list byte) : result BlockHeader :=
  header ← (deserializeBufferHeader (fromBuffer serialized)).1;
  hash ← makeHash header;
  Ok (mkBlockHeader header hash).

Definition deserializeBufferWithTransactions : M ByteBuffer (BlockHeaderRaw * list Transaction) :=
  header ← deserializeBufferHeader;
  remainder ← gets getRemainderLength;
  transactions ← (if 0 <? remainder then deserializeTransactions header else mret []);
  remainder ← gets getRemainderLength;
  if remainder =? 0 then mret (header, transactions)
  else throw (NamedError "InvalidBlockBytesError").

Definition deserializeWithTransactions (serialized : list byte)
    : result (BlockHeader * list Transaction) :=
  '(header, transactions) ← (deserializeBufferWithTransactions (fromBuffer serialized)).1;
  hash ← makeHash header;
  Ok (mkBlockHeader header hash, transactions).

(** ** schemas.ts

    The constraints of the "blockHeader" and "block" schemas on typed values;
    the address format check is the address package's. *)
Context (isAddress : string → bool) (txSchemaValid : Transaction → bool).

Definition blockHeaderSchemaValid (h : BlockHeader) : bool :=
  let r := bh_raw h in
  hexOfLength 64 (bh_hash h) && (bh_version r =? 1) &&
  ((0 <=? bh_timestamp r) && (bh_timestamp r <=? 2 ^ 48 - 1)) &&
  (0 <=? bh_number r) && (0 <=? bh_round r) &&
  hexOfLength 64 (bh_parentHash r) && hexOfLength 64 (bh_stateRoot r) &&
  hexOfLength 512 (bh_logsBloom r) && (0 <=? bh_transactionsCount r) &&
  (0 <=? bh_gasUsed r) && ((0 <=? bh_fee r) && (bh_fee r <=? 2 ^ 256 - 1)) &&
  ((0 <=? bh_reward r) && (bh_reward r <=? 2 ^ 256 - 1)) && (0 <=? bh_payloadSize r) &&
  hexOfLength 64 (bh_transactionsRoot r) && isAddress (bh_proposer r) &&
  hexOfLength 192 (bh_randaoReveal r).

Definition blockSchemaValid (h : BlockHeader) (transactions : list Transaction) : bool :=
  blockHeaderSchemaValid h && forallb txSchemaValid transactions &&
  (Z.of_nat (length transactions) =? bh_transactionsCount (bh_raw h)).

(** ** factory.ts *)
Definition blockFromBytes (buff : list byte) : result Block :=
  '(header, transactions) ← deserializeWithTransactions buff;
  if blockSchemaValid header transactions
  then Ok (newBlock header (hexEncode buff) transactions)
  else Throw (NamedError "BlockSchemaError").

Definition headerFromBytes (serialized : list byte) : result BlockHeader :=
  header ← deserializeHeader serialized;
  if blockHeaderSchemaValid header then Ok header else Throw (NamedError "BlockSchemaError").

Definition makeBlock (data : BlockHeaderRaw) (transactions : list Transaction) : result Block :=
  hash ← makeHash data;
  let header := mkBlockHeader data hash in
  if blockSchemaValid header transactions then
    serialized ← serializeWithTransactions data transactions;
    Ok (newBlock header (hexEncode serialized) transactions)
  else Throw (NamedError "BlockSchemaError").
End blocks.

(** ** Reading a list *)
Lemma traverse_Forall2 {A B} (f : A → result B) l l' : traverse f l = Ok l' → Forall2 (λ x y, f x = Ok y) l l'.
Proof.
  revert l'; induction l as [|x l IH]; intros l'; cbn; [by intros [= <-] |].
  intros (y & Hy & Hk)%bind_Ok. apply bind_Ok in Hk as (ys & Hys & Hk). injection Hk as <-. constructor; [done | by apply IH].
Qed.

Lemma traverse_elem {A B} (f : A → result B) l l' y :
  traverse f l = Ok l' → y ∈ l' → ∃ x, f x = Ok y.
Proof.
  intros Hl%traverse_Forall2 (i & Hi)%list_elem_of_lookup.
  destruct (Forall2_lookup_r _ _ _ _ _ Hl Hi) as (x & _ & Hx). by exists x.
Qed.

Lemma traverse_ext {A B} (f g : A → result B) l : (∀ x, f x = g x) → traverse f l = traverse g l.
Proof. intros Hfg. induction l as [|x l IH]; cbn; [done |]. by rewrite Hfg, IH. Qed.

Lemma traverse_true {A} (f : A → result bool) l l' :
  traverse f l = Ok l' → forallb id l' = true → ∀ x, x ∈ l → f x = Ok true.
Proof.
  intros Hl%traverse_Forall2 Hall x (i & Hi)%list_elem_of_lookup.
  destruct (Forall2_lookup_l _ _ _ _ _ Hl Hi) as (b & Hb & Hx). rewrite Hx. rewrite forallb_forall in Hall.
  by rewrite <- (Hall b (proj1 (list_elem_of_In _ _) (list_elem_of_lookup_2 _ _ _ Hb))).
Qed.

(** ** Correctness of the block wire format *)
Section correctness.
Context `{Viem} `{TransactionCodec} `{HashFactory}.

Definition isWireAddress (s : string) : Prop :=
  match viem_toBytes s with
  | Ok bs => addressFromBuffer bs = Ok s ∧ Z.of_nat (length bs) = addressSize
  | Throw _ => False
  end.

Definition addressBytes (s : string) : list byte :=
  match viem_toBytes s with Ok bs => bs | Throw _ => [] end.

Definition wfHeader (h : BlockHeaderRaw) : Prop :=
  uint 1 (bh_version h) ∧ uint 6 (bh_timestamp h) ∧ uint 4 (bh_number h) ∧ uint 4 (bh_round h) ∧
  isHash (bh_parentHash h) ∧ isHash (bh_stateRoot h) ∧ isHexOf 256 (bh_logsBloom h) ∧
  uint 2 (bh_transactionsCount h) ∧ uint 4 (bh_gasUsed h) ∧ uint 32 (bh_fee h) ∧
  uint 32 (bh_reward h) ∧ uint 4 (bh_payloadSize h) ∧ isHash (bh_transactionsRoot h) ∧
  isWireAddress (bh_proposer h) ∧ isConsensusSignature (bh_randaoReveal h).

Definition headerBytes (h : BlockHeaderRaw) : list byte :=
  le_encode 1 (bh_version h) ++ le_encode 6 (bh_timestamp h) ++ le_encode 4 (bh_number h) ++
  le_encode 4 (bh_round h) ++ hexDecode (bh_parentHash h) ++ hexDecode (bh_stateRoot h) ++
  hexDecode (bh_logsBloom h) ++ le_encode 2 (bh_transactionsCount h) ++
  le_encode 4 (bh_gasUsed h) ++ be_encode 32 (bh_fee h) ++ be_encode 32 (bh_reward h) ++
  le_encode 4 (bh_payloadSize h) ++ hexDecode (bh_transactionsRoot h) ++
  addressBytes (bh_proposer h) ++ hexDecode (bh_randaoReveal h).

Lemma encode_address target s :
  isWireAddress s → encodeField (field FAddress) target (VString s) = Some (addressBytes s).
Proof.
  unfold isWireAddress, encodeField, addressBytes. cbn [f_type field].
  destruct (viem_toBytes s) as [bs|]; [| done]. intros [Ha Hl].
  unfold guardO. by rewrite bool_decide_eq_true_2, Hl by done.
Qed.

Lemma length_addressBytes s : isWireAddress s → length (addressBytes s) = 20%nat.
Proof.
  unfold isWireAddress, addressBytes. destruct (viem_toBytes s); [| done].
  intros [_ Hl]. unfold addressSize in Hl. lia.
Qed.

(** Each of the fifteen header properties reads as itself. *)
Ltac fold_headerProps props h :=
  change (prop props "version") with (VNumber (bh_version h));
  change (prop props "timestamp") with (VNumber (bh_timestamp h));
  change (prop props "number") with (VNumber (bh_number h));
  change (prop props "round") with (VNumber (bh_round h));
  change (prop props "parentHash") with (VString (bh_parentHash h));
  change (prop props "stateRoot") with (VString (bh_stateRoot h));
  change (prop props "logsBloom") with (VString (bh_logsBloom h));
  change (prop props "transactionsCount") with (VNumber (bh_transactionsCount h));
  change (prop props "gasUsed") with (VNumber (bh_gasUsed h));
  change (prop props "fee") with (VBigInt (bh_fee h));
  change (prop props "reward") with (VBigInt (bh_reward h));
  change (prop props "payloadSize") with (VNumber (bh_payloadSize h));
  change (prop props "transactionsRoot") with (VString (bh_transactionsRoot h));
  change (prop props "proposer") with (VString (bh_proposer h));
  change (prop props "randaoReveal") with (VString (bh_randaoReveal h)).

Lemma encodeFields_app s1 s2 data target bs1 bs2 :
  encodeFields s1 data target = Some bs1 →
  encodeFields s2 data (copyFields s1 data target) = Some bs2 →
  encodeFields (s1 ++ s2) data target = Some (bs1 ++ bs2).
Proof.
  revert target bs1; induction s1 as [|[k f] s1 IH]; simpl; intros target bs1 H3 H4.
  { by injection H3 as <-. }
  destruct (encodeField f target (prop data k)) as [a|]; [| done].
  destruct (encodeFields s1 data _) as [b|] eqn:Hb; [| done]. injection H3 as <-.
  by rewrite (IH _ _ Hb H4), app_assoc.
Qed.

Lemma header_encode_gen h props :
  wfHeader h → (∀ k, k ≠ "transactions" → prop props k = prop (headerProps h) k) →
  encodeFields blockHeaderSchema props ∅ = Some (headerBytes h).
Proof.
  intros (?&?&?&?&?&?&?&?&?&?&?&?&?&?&?) Hp. unfold blockHeaderSchema. cbn [encodeFields].
  rewrite !Hp by done. fold_headerProps (headerProps h) h.
  rewrite encode_address by done. unfold encodeField, encodeOptional.
  cbn [f_type f_optional field sizedField f_size default].
  rewrite !encodeUint_Some, !encodeBig_Some, !encodeHexOf_Some by done.
  unfold headerBytes. by rewrite app_nil_r.
Qed.

Lemma header_encode h :
  wfHeader h → encodeFields blockHeaderSchema (headerProps h) ∅ = Some (headerBytes h).
Proof. intros Hwf. by apply header_encode_gen. Qed.

Lemma length_headerBytes h : wfHeader h → Z.of_nat (length (headerBytes h)) = headerSize.
Proof.
  intros (?&?&?&?&Hp&Hs&Hb&?&?&?&?&?&Ht&Ha&Hr). unfold headerBytes.
  rewrite !length_app, !length_le_encode, !length_be_encode.
  rewrite (length_hexOf _ _ Hp), (length_hexOf _ _ Hs), (length_hexOf _ _ Hb),
    (length_hexOf _ _ Ht), (length_hexOf _ _ Hr), (length_addressBytes _ Ha).
  reflexivity.
Qed.

Lemma serializeHeader_bytes h : wfHeader h → serializeHeader h = Ok (headerBytes h).
Proof.
  intros Hwf. apply serialize_encodes; [by apply header_encode |].
  symmetry. by apply length_headerBytes.
Qed.

Lemma makeHash_Ok h : wfHeader h → makeHash h = Ok (hexEncode (sha256 (headerBytes h))).
Proof. intros Hwf. unfold makeHash. by rewrite serializeHeader_bytes. Qed.

Lemma headerOfProps_copy h props :
  (∀ k, k ≠ "transactions" → prop props k = prop (headerProps h) k) →
  headerOfProps (copyFields blockHeaderSchema props ∅) = Ok h.
Proof.
  intros Hp. unfold blockHeaderSchema. cbn [copyFields]. rewrite !Hp by done.
  fold_headerProps (headerProps h) h. by destruct h.
Qed.

(** Payload: what the transactions of a block occupy. *)
Fixpoint payloadBytes (transactions : list Transaction) : list byte :=
  match transactions with
  | [] => []
  | tx :: rest =>
      le_encode 4 (Z.of_nat (length (tx_serialized tx))) ++ tx_serialized tx ++ payloadBytes rest
  end.

Definition wfPayload (h : BlockHeaderRaw) (transactions : list Transaction) : Prop :=
  bh_transactionsCount h = Z.of_nat (length transactions) ∧
  bh_payloadSize h = Z.of_nat (length (payloadBytes transactions)) ∧
  Forall (λ tx, uint 4 (Z.of_nat (length (tx_serialized tx))) ∧
                txFromBytes (tx_serialized tx) = Ok tx) transactions.

Lemma payload_encodeAll transactions :
  Forall (λ tx, uint 4 (Z.of_nat (length (tx_serialized tx)))) transactions →
  encodeAll (tx_serialized <$> transactions) = Some (payloadBytes transactions).
Proof.
  induction 1 as [|tx l Hl _ IH]; [done |]. cbn [fmap list_fmap encodeAll].
  rewrite encodeSerialized_Some by done.
  change (map tx_serialized l) with (tx_serialized <$> l). rewrite IH.
  cbn [payloadBytes]. by rewrite <- app_assoc.
Qed.

Lemma wfPayload_uint h transactions :
  wfPayload h transactions → Forall (λ tx, uint 4 (Z.of_nat (length (tx_serialized tx)))) transactions.
Proof. intros (_ & _ & Htx). eapply Forall_impl; [exact Htx |]. by intros tx [? _]. Qed.

Lemma traverse_txFromBytes transactions :
  Forall (λ tx, uint 4 (Z.of_nat (length (tx_serialized tx))) ∧
                txFromBytes (tx_serialized tx) = Ok tx) transactions →
  traverse txFromBytes (tx_serialized <$> transactions) = Ok transactions.
Proof.
  induction 1 as [|tx l [_ Htx] _ IH]; [done |]. cbn [fmap list_fmap traverse]. rewrite Htx.
  unfold mbind, result_bind. cbv beta iota.
  change (map tx_serialized l) with (tx_serialized <$> l). by rewrite IH.
Qed.

Lemma blockProps_header h txs k :
  k ≠ "transactions" → prop (blockProps h txs) k = prop (headerProps h) k.
Proof. intros Hk. unfold prop, blockProps. by rewrite lookup_insert_ne. Qed.

Lemma block_encode h transactions :
  wfHeader h → bh_transactionsCount h = Z.of_nat (length transactions) →
  Forall (λ tx, uint 4 (Z.of_nat (length (tx_serialized tx)))) transactions →
  encodeFields blockSchema (blockProps h (tx_serialized <$> transactions)) ∅ =
  Some (headerBytes h ++ payloadBytes transactions).
Proof.
  intros Hh Hc Htx. apply encodeFields_app.
  { apply header_encode_gen; [done | apply blockProps_header]. }
  set (data := blockProps h (tx_serialized <$> transactions)).
  assert (Hcount : prop (copyFields blockHeaderSchema data ∅) "transactionsCount" =
                   VNumber (bh_transactionsCount h)) by reflexivity.
  cbn [transactionsSchema encodeFields].
  replace (prop data "transactions") with (VTransactions (tx_serialized <$> transactions))
    by (unfold prop, data, blockProps; by rewrite lookup_insert_eq).
  unfold encodeField. cbn [f_type field]. rewrite Hcount, Hc, length_fmap, Z.eqb_refl.
  rewrite payload_encodeAll by done. by rewrite app_nil_r.
Qed.

(** The bytes of a block, for a header that announces at least its payload. *)
Lemma write_block h transactions :
  wfHeader h → bh_transactionsCount h = Z.of_nat (length transactions) →
  Forall (λ tx, uint 4 (Z.of_nat (length (tx_serialized tx)))) transactions →
  Z.of_nat (length (payloadBytes transactions)) ≤ bh_payloadSize h →
  serializeWithTransactions h transactions = Ok (headerBytes h ++ payloadBytes transactions).
Proof.
  intros Hh Hc Htx Hp. apply serialize_fits; [by apply block_encode |].
  unfold totalSize. rewrite length_app, Nat2Z.inj_add, length_headerBytes by done. lia.
Qed.

(** Reading a header: what follows it must be as long as it announces. *)
Lemma deserializeBufferHeader_read h b rest :
  wfHeader h → getRemainder b = headerBytes h ++ rest → bb_ok b →
  ∃ b', bb_ok b' ∧ getRemainder b' = rest ∧
    deserializeBufferHeader b = (if Z.of_nat (length rest) =? bh_payloadSize h then Ok h else Throw (NamedError "InvalidBlockBytesError"), b').
Proof.
  intros Hwf Hr Hok.
  destruct (deserialize_reads _ _ _ _ (header_encode h Hwf) b rest Hr Hok)
    as (b' & Hd & Hok' & Hr').
  exists b'. split_and!; [done | done |]. unfold deserializeBufferHeader, mbind, M_bind, liftR, gets.
  rewrite Hd, (headerOfProps_copy h) by done.
  rewrite (remainder_length b' Hok'), Hr'. by destruct (_ =? _).
Qed.

Lemma deserializeBufferHeader_ok h b rest :
  wfHeader h → getRemainder b = headerBytes h ++ rest → bb_ok b →
  bh_payloadSize h = Z.of_nat (length rest) →
  ∃ b', deserializeBufferHeader b = (Ok h, b') ∧ bb_ok b' ∧ getRemainder b' = rest.
Proof.
  intros Hwf Hr Hok Hsize. destruct (deserializeBufferHeader_read h b rest Hwf Hr Hok) as (b' & Hok' & Hr' & Hd).
  exists b'. by rewrite Hd, Hsize, Z.eqb_refl.
Qed.

Lemma deserializeTransactions_ok h transactions b :
  wfPayload h transactions → getRemainder b = payloadBytes transactions → bb_ok b →
  ∃ b', deserializeTransactions h b = (Ok transactions, b') ∧ getRemainderLength b' = 0.
Proof.
  intros (Hc & Hp & Htx) Hr Hok.
  set (data := blockProps h (tx_serialized <$> transactions)).
  assert (Hv : prop data "transactions" = VTransactions (tx_serialized <$> transactions))
    by (unfold prop, data, blockProps; by rewrite lookup_insert_eq).
  assert (Henc : encodeFields transactionsSchema data (headerProps h) = Some (payloadBytes transactions)).
  { cbn [transactionsSchema encodeFields]. rewrite Hv. unfold encodeField. cbn [f_type field].
    change (prop (headerProps h) "transactionsCount") with (VNumber (bh_transactionsCount h)).
    rewrite Hc, length_fmap, Z.eqb_refl, payload_encodeAll by (by eapply wfPayload_uint). by rewrite app_nil_r. }
  destruct (deserialize_reads _ _ _ _ Henc b []) as (b' & Hd & Hok' & Hr');
    [by rewrite app_nil_r | done |].
  exists b'. unfold deserializeTransactions, mbind, M_bind, liftR. rewrite Hd.
  cbn [transactionsSchema copyFields]. rewrite Hv. 
  replace (prop (<["transactions" := _]> _) "transactions")
    with (VTransactions (tx_serialized <$> transactions)) by (unfold prop; by rewrite lookup_insert_eq).
  cbv beta iota. rewrite traverse_txFromBytes by done. split; [done |].
  rewrite remainder_length by done. by rewrite Hr'.
Qed.

Lemma payloadBytes_nil transactions :
  length (payloadBytes transactions) = 0%nat → transactions = [].
Proof. destruct transactions; [done |]. simpl. lia. Qed.

Lemma deserializeBufferWithTransactions_ok h transactions :
  wfHeader h → wfPayload h transactions →
  (deserializeBufferWithTransactions (fromBuffer (headerBytes h ++ payloadBytes transactions))).1 =
  Ok (h, transactions).
Proof.
  intros Hwf Hpay. pose proof Hpay as (Hc & Hp & Htx).
  destruct (deserializeBufferHeader_ok h (fromBuffer (headerBytes h ++ payloadBytes transactions))
              (payloadBytes transactions)) as (b1 & Hd1 & Hok1 & Hr1); try done.
  { unfold bb_ok. simpl. lia. }
  unfold deserializeBufferWithTransactions, mbind, M_bind, gets. rewrite Hd1.
  rewrite (remainder_length b1 Hok1), Hr1.
  destruct (Z.ltb_spec 0 (Z.of_nat (length (payloadBytes transactions)))) as [Hpos|Hzero].
  - destruct (deserializeTransactions_ok h transactions b1 Hpay Hr1 Hok1) as (b2 & Hd2 & Hz).
    by rewrite Hd2, Hz.
  - assert (transactions = []) as -> by (apply payloadBytes_nil; lia).
    unfold mret, M_ret. rewrite (remainder_length b1 Hok1), Hr1. done.
Qed.

(** A block survives the wire: for every well-formed header and payload
    the serializer succeeds within the size computed from the header, and
    deserializing the bytes gives back the header, its SHA-256 hash and the
    transactions. *)
Theorem block_roundtrip h transactions :
  wfHeader h → wfPayload h transactions →
  ∃ bs, serializeWithTransactions h transactions = Ok bs ∧
        deserializeWithTransactions bs =
        Ok (mkBlockHeader h (hexEncode (sha256 (headerBytes h))), transactions).
Proof.
  intros Hwf Hpay. exists (headerBytes h ++ payloadBytes transactions). split.
  - destruct Hpay as (Hc & Hp & Htx). apply write_block; [done | done | by eapply (wfPayload_uint h) | lia].
  - unfold deserializeWithTransactions.
    rewrite deserializeBufferWithTransactions_ok by done. unfold mbind, result_bind. cbv beta iota.
    by rewrite makeHash_Ok.
Qed.

(** The header read from the head of a block's bytes is the header of the
    block: both deserializers start with the same routine. *)
Lemma bufferHeader_of_block bs h txs :
  (deserializeBufferWithTransactions (fromBuffer bs)).1 = Ok (h, txs) →
  (deserializeBufferHeader (fromBuffer bs)).1 = Ok h.
Proof.
  intros (h' & b1 & Hd & Hr)%M_bind_Ok. rewrite Hd. cbn [fst].
  apply M_bind_Ok in Hr as (z & b2 & _ & Hr). apply M_bind_Ok in Hr as (txs' & b3 & _ & Hr).
  apply M_bind_Ok in Hr as (z' & b4 & _ & Hr).
  destruct (_ =? _); [| done]. by injection Hr as -> ->.
Qed.

Lemma header_of_block isAddress txOk bs hd b :
  headerFromBytes isAddress bs = Ok hd → blockFromBytes isAddress txOk bs = Ok b → b_header b = hd.
Proof.
  intros (hd1 & Hh & Hc)%bind_Ok (p & Hb & Hv)%bind_Ok.
  destruct (blockHeaderSchemaValid isAddress hd1); [| done]. injection Hc as ->.
  destruct p as [hd2 txs]. destruct (blockSchemaValid _ _ _ _); [| done].
  injection Hv as <-. cbn [b_header newBlock].
  apply bind_Ok in Hh as (h1 & Hh1 & Hhash1). apply bind_Ok in Hb as ([h2 txs2] & Hb1 & Hhash2).
  apply bufferHeader_of_block in Hb1. rewrite Hh1 in Hb1. injection Hb1 as ->.
  apply bind_Ok in Hhash1 as (s1 & Hs1 & Hr1). apply bind_Ok in Hhash2 as (s2 & Hs2 & Hr2).
  congruence.
Qed.
End correctness.
