(* ===== verification/Proposals.v ===== *)
(** * packages/crypto-proposal and packages/crypto-validation/source/parse-block-number.ts

    Proposals carry a block, and for a re-proposal the proof (+2/3 prevotes) of
    the round its value was found valid in.  The file models the wire format,
    the factory with its pairing checks, and the shortcut that reads the block
    number out of a still-serialized payload. *)
From Stdlib Require Import Ascii.
From S2P Require Import Prelude Bytes ByteBuffer Serializer Messages Blocks.

(** [Contracts.Crypto.AggregatedSignature]. *)
Record AggregatedSignature := mkAggregatedSignature {
  as_signature : string;
  as_validators : list bool;
}.
#[export] Instance AggregatedSignature_eq_dec : EqDecision AggregatedSignature.
Proof. solve_decision. Defined.

(** [ProposalDataSerializable]; [pd_signature] is absent before signing. *)
Record ProposalData := mkProposalData {
  pd_round : Z;
  pd_validRound : option Z;
  pd_payloadSerialized : string;
  pd_validatorIndex : Z;
  pd_signature : string;
}.
#[export] Instance ProposalData_eq_dec : EqDecision ProposalData.
Proof. solve_decision. Defined.

Record ProposedPayload := mkProposedPayload {
  pp_block : Block;
  pp_lockProof : option AggregatedSignature;
  pp_serialized : string;
}.

(** proposal.ts: the proposal object.  [p_payload] is the only field that
    changes after construction, in [deserializePayload]. *)
Record Proposal := mkProposal {
  p_data : ProposalData;
  p_blockHeader : BlockHeader;
  p_lockProof : option AggregatedSignature;
  p_serialized : list byte;
  p_payload : option ProposedPayload;
}.
#[export] Instance eta_Proposal : Eta Proposal :=
  λ p, mkProposal (p_data p) (p_blockHeader p) (p_lockProof p) (p_serialized p) (p_payload p).

Definition p_round (p : Proposal) : Z := pd_round (p_data p).
Definition p_validRound (p : Proposal) : option Z := pd_validRound (p_data p).
Definition p_validatorIndex (p : Proposal) : Z := pd_validatorIndex (p_data p).
Definition p_signature (p : Proposal) : string := pd_signature (p_data p).
Definition p_hash (p : Proposal) : string := bh_hash (p_blockHeader p).
Definition p_blockNumber (p : Proposal) : Z := bh_number (bh_raw (p_blockHeader p)).
Definition isDataDeserialized (p : Proposal) : bool := isSome (p_payload p).

Definition getPayload (p : Proposal) : result ProposedPayload :=
  match p_payload p with
  | Some payload => Ok payload
  | None => Throw (JSError "Proposed payload is not deserialized.")
  end.

(** ** serializer-schemas.ts *)
Definition proposalSchemaUnsigned : Schema :=
  [("round", field FUint32); ("validRound", optionalField FUint32);
   ("validatorIndex", field FUint8); ("payloadSerialized", field FHex)].
Definition proposalSchema : Schema :=
  proposalSchemaUnsigned ++ [("signature", field FConsensusSignature)].
Definition lockProofSchema : Schema :=
  [("signature", field FConsensusSignature); ("validators", field FValidatorSet)].

(** service-provider.ts: [LockProofSize]. *)
Definition lockProofSize : Z := consensusSignatureSize + 1 + 8.

Definition VOptNumber (o : option Z) : Value := from_option VNumber VUndefined o.

Definition proposalPropsUnsigned (d : ProposalData) : gmap string Value :=
  list_to_map [("round", VNumber (pd_round d)); ("validRound", VOptNumber (pd_validRound d));
    ("validatorIndex", VNumber (pd_validatorIndex d));
    ("payloadSerialized", VString (pd_payloadSerialized d))].
Definition proposalProps (d : ProposalData) : gmap string Value :=
  list_to_map [("round", VNumber (pd_round d)); ("validRound", VOptNumber (pd_validRound d));
    ("validatorIndex", VNumber (pd_validatorIndex d));
    ("payloadSerialized", VString (pd_payloadSerialized d)); ("signature", VString (pd_signature d))].
Definition lockProofProps (l : AggregatedSignature) : gmap string Value :=
  list_to_map [("signature", VString (as_signature l)); ("validators", VBooleans (as_validators l))].

Definition proposalOfProps (t : gmap string Value) : result ProposalData :=
  match prop t "round", prop t "validRound", prop t "validatorIndex",
        prop t "payloadSerialized", prop t "signature" with
  | VNumber r, VUndefined, VNumber i, VString p, VString s => Ok (mkProposalData r None p i s)
  | VNumber r, VNumber v, VNumber i, VString p, VString s => Ok (mkProposalData r (Some v) p i s)
  | _, _, _, _, _ => Throw (JSError "not a proposal")
  end.
Definition lockProofOfProps (t : gmap string Value) : result AggregatedSignature :=
  match prop t "signature", prop t "validators" with
  | VString s, VBooleans l => Ok (mkAggregatedSignature s l)
  | _, _ => Throw (JSError "not a lock proof")
  end.

(** ** parse-block-number.ts *)
(** [Number.parseInt(s, 16)] of a string of at most two characters, [None] for
    [NaN]: leading white space, a sign and the prefix [0x] are JavaScript's. *)
Definition isWhiteSpace (c : Ascii.ascii) : bool :=
  let n := Ascii.nat_of_ascii c in
  (Nat.leb 9 n && Nat.leb n 13) || Nat.eqb n 32 || Nat.eqb n 160.

Definition parseInt2 (s : string) : option Z :=
  match s with
  | String a (String b _) =>
      match hex_value a, hex_value b with
      | Some x, Some y => Some (16 * x + y)
      | Some x, None =>
          if (x =? 0) && (Ascii.eqb b "x"%char || Ascii.eqb b "X"%char) then None else Some x
      | None, Some y =>
          if isWhiteSpace a || Ascii.eqb a "+"%char then Some y
          else if Ascii.eqb a "-"%char then Some (- y) else None
      | None, None => None
      end
  | String a EmptyString => hex_value a
  | EmptyString => None
  end.

Definition slice (s : string) (start stop : nat) : string := String.substring start (stop - start) s.

Definition parseSerializedPayload (serialized : string) : option Z :=
  if Nat.ltb (String.length serialized) 30 then None
  else
    match parseInt2 (slice serialized 0 2) with
    | None => None
    | Some lockProofBytes =>
        let offset := Z.to_nat (2 + lockProofBytes * 2 + 2 + 12) in
        if Nat.ltb (String.length serialized) (offset + 8) then None
        else
          let bytes := hexDecode (slice serialized offset (offset + 8)) in
          if Nat.ltb (length bytes) 4 then None else Some (le_decode (take 4 bytes))
    end.

Section proposals.
Context `{Viem} `{TransactionCodec} `{HashFactory}.
(** [getMilestone(blockNumber).roundValidators], at the current height when
    the block number is [undefined]; the address and transaction schemas. *)
Context (roundValidatorsAt : option Z → Z).
Context (isAddress : string → bool) (txSchemaValid : Transaction → bool).

(** ** serializer.ts *)
Definition unsignedProposalSize (d : ProposalData) : Z :=
  4 + (if isSome (pd_validRound d) then 5 else 1) + 4 +
  Z.of_nat (String.length (pd_payloadSerialized d)) / 2 + 1.

Definition serializeProposalUnsigned (d : ProposalData) : result (list byte) :=
  serialize (proposalPropsUnsigned d) (unsignedProposalSize d) 0 proposalSchemaUnsigned.

Definition serializeProposal (d : ProposalData) : result (list byte) :=
  serialize (proposalProps d) (unsignedProposalSize d + consensusSignatureSize) 0 proposalSchema.

Definition serializeLockProof (lockProof : AggregatedSignature) : result (list byte) :=
  serialize (lockProofProps lockProof) lockProofSize 0 lockProofSchema.

(** [Buffer.of(n)] keeps the low byte of [n]. *)
Definition serializePayload (block : Block) (lockProof : option AggregatedSignature)
    : result (list byte) :=
  let serializedBlock := hexDecode (b_serialized block) in
  match lockProof with
  | Some proof =>
      serializedLockProof ← serializeLockProof proof;
      Ok (byte_of_Z (Z.of_nat (length serializedLockProof)) :: serializedLockProof ++ serializedBlock)
  | None => Ok (byte_of_Z 0 :: serializedBlock)
  end.

(** ** deserializer.ts *)
Definition deserializeProposal (serialized : list byte) : result ProposalData :=
  match deserialize proposalSchema ∅ (fromBuffer serialized) with
  | (Ok t, buffer) =>
      if getRemainderLength buffer =? 0 then proposalOfProps t
      else Throw (NamedError "InvalidProposalBytesError")
  | (Throw e, _) => Throw e
  end.

Definition deserializeLockProof (serialized : list byte) : result AggregatedSignature :=
  t ← (deserialize lockProofSchema ∅ (fromBuffer serialized)).1;
  lockProofOfProps t.

(** ** schemas.ts *)
Definition proposalUnsignedSchemaValid (d : ProposalData) : bool :=
  isHexSchema (pd_payloadSerialized d) && (0 <=? pd_round d) &&
  isValidatorIndex (roundValidatorsAt (parseSerializedPayload (pd_payloadSerialized d)))
    (pd_validatorIndex d) &&
  from_option (λ v, 0 <=? v) true (pd_validRound d).

Definition proposalSchemaValid (d : ProposalData) : bool :=
  proposalUnsignedSchemaValid d && hexOfLength 192 (pd_signature d).

Definition lockProofSchemaValid (number : Z) (l : AggregatedSignature) : bool :=
  (0 <=? number) && hexOfLength 192 (as_signature l) &&
  limitToRoundValidators (roundValidatorsAt (Some number)) (as_validators l).

(** ** factory.ts *)
Definition getLockProof : M ByteBuffer (option AggregatedSignature) :=
  lockProofLength ← readUint8;
  if 0 <? lockProofLength then
    lockProofBuffer ← readBytes lockProofLength;
    lockProof ← liftR (deserializeLockProof lockProofBuffer);
    mret (Some lockProof)
  else mret None.

Definition getLockProofAndBlockHeader (bytes : list byte)
    : result (BlockHeader * option AggregatedSignature) :=
  ((lockProof ← getLockProof;
    rest ← gets getRemainder;
    blockHeader ← liftR (headerFromBytes isAddress rest);
    match lockProof with
    | Some l =>
        if lockProofSchemaValid (bh_number (bh_raw blockHeader)) l
        then mret (blockHeader, lockProof)
        else throw (NamedError "MessageSchemaError")
    | None => mret (blockHeader, lockProof)
    end) (fromBuffer bytes)).1.

Definition makePayloadFromBytes (bytes : list byte) : result ProposedPayload :=
  ((lockProof ← getLockProof;
    rest ← gets getRemainder;
    block ← liftR (blockFromBytes isAddress txSchemaValid rest);
    match lockProof with
    | Some l =>
        if lockProofSchemaValid (b_number block) l
        then mret (mkProposedPayload block lockProof (hexEncode bytes))
        else throw (NamedError "MessageSchemaError")
    | None => mret (mkProposedPayload block lockProof (hexEncode bytes))
    end) (fromBuffer bytes)).1.

Definition makeProposalFromBytes (serialized : list byte) : result Proposal :=
  proposalData ← deserializeProposal serialized;
  if negb (proposalSchemaValid proposalData) then Throw (NamedError "MessageSchemaError")
  else
    '(blockHeader, lockProof) ← getLockProofAndBlockHeader (hexDecode (pd_payloadSerialized proposalData));
    if negb (Bool.eqb (isSome (pd_validRound proposalData)) (isSome lockProof)) then
      Throw (NamedError "MessageSchemaError")
    else if from_option (λ v, pd_round proposalData <=? v) false (pd_validRound proposalData) then
      Throw (NamedError "MessageSchemaError")
    else Ok (mkProposal proposalData blockHeader lockProof serialized None).

(** The BLS worker's "sign". *)
Context (blsSign : list byte → list byte → string).

Definition makeProposal (round : Z) (validRound : option Z) (payloadSerialized : string)
    (validatorIndex : Z) (privateKey : string) : result Proposal :=
  let data := mkProposalData round validRound payloadSerialized validatorIndex EmptyString in
  if negb (proposalUnsignedSchemaValid data) then Throw (NamedError "MessageSchemaError")
  else
    bytes ← serializeProposalUnsigned data;
    let signature := blsSign bytes (hexDecode privateKey) in
    makeProposalFromBytes (bytes ++ hexDecode signature).

(** ** proposal.ts: [deserializePayload] *)
Definition deserializePayload (p : Proposal) : result Proposal :=
  match p_payload p with
  | Some _ => Ok p
  | None =>
      payload ← makePayloadFromBytes (hexDecode (pd_payloadSerialized (p_data p)));
      Ok (p <| p_payload := Some payload |>)
  end.
End proposals.

Section correctness.
Context `{Viem} `{TransactionCodec} `{HashFactory}.
Context (roundValidatorsAt : option Z → Z).
Context (isAddress : string → bool) (txSchemaValid : Transaction → bool).

Definition wfProposalData (d : ProposalData) : Prop :=
  uint 4 (pd_round d) ∧ from_option (uint 4) True (pd_validRound d) ∧
  uint 1 (pd_validatorIndex d) ∧ isHexText (pd_payloadSerialized d) ∧
  uint 4 (Z.of_nat (length (hexDecode (pd_payloadSerialized d)))) ∧
  isConsensusSignature (pd_signature d).

Definition validRoundBytes (o : option Z) : list byte :=
  match o with None => [x00] | Some v => x01 :: le_encode 4 v end.

Definition unsignedBytes (d : ProposalData) : list byte :=
  let payload := hexDecode (pd_payloadSerialized d) in
  le_encode 4 (pd_round d) ++ validRoundBytes (pd_validRound d) ++
  le_encode 1 (pd_validatorIndex d) ++ (le_encode 4 (Z.of_nat (length payload)) ++ payload).

Lemma encode_validRound target o :
  from_option (uint 4) True o →
  encodeField (optionalField FUint32) target (VOptNumber o) = Some (validRoundBytes o).
Proof.
  destruct o as [v|]; [| done]. cbn [from_option]. intros Hv.
  unfold encodeField, encodeOptional, VOptNumber. cbn [f_type f_optional optionalField from_option].
  by rewrite encodeUint_Some.
Qed.

Lemma unsigned_encode d props :
  wfProposalData d →
  (∀ k, k ≠ "signature" → prop props k = prop (proposalPropsUnsigned d) k) →
  encodeFields proposalSchemaUnsigned props ∅ = Some (unsignedBytes d).
Proof.
  intros (Hr & Hv & Hi & Hh & Hl & Hs) Hp. unfold proposalSchemaUnsigned. cbn [encodeFields].
  rewrite !Hp by done.
  change (prop (proposalPropsUnsigned d) "round") with (VNumber (pd_round d)).
  change (prop (proposalPropsUnsigned d) "validRound") with (VOptNumber (pd_validRound d)).
  change (prop (proposalPropsUnsigned d) "validatorIndex") with (VNumber (pd_validatorIndex d)).
  change (prop (proposalPropsUnsigned d) "payloadSerialized") with (VString (pd_payloadSerialized d)).
  rewrite encode_validRound by done. unfold encodeField, encodeOptional.
  cbn [f_type f_optional field]. rewrite !encodeUint_Some by done.
  rewrite bool_decide_eq_true_2, encodeSerialized_Some by done.
  unfold unsignedBytes. by rewrite app_nil_r.
Qed.

Lemma hexText_length s : isHexText s → Z.of_nat (String.length s) / 2 = Z.of_nat (length (hexDecode s)).
Proof.
  intros Hs. unfold isHexText in Hs. rewrite <- Hs at 1. rewrite length_hexEncode, Nat2Z.inj_mul, Z.mul_comm.
  apply Z.div_mul. lia.
Qed.

Lemma length_unsignedBytes d :
  wfProposalData d → unsignedProposalSize d = Z.of_nat (length (unsignedBytes d)).
Proof.
  intros (Hr & Hv & Hi & Hh & Hl & Hs). unfold unsignedProposalSize, unsignedBytes.
  rewrite hexText_length by done. rewrite !length_app, !length_le_encode.
  destruct (pd_validRound d); cbn [isSome validRoundBytes length]; rewrite ?length_le_encode; lia.
Qed.

Lemma serializeUnsigned_bytes d :
  wfProposalData d → serializeProposalUnsigned d = Ok (unsignedBytes d).
Proof.
  intros Hwf. apply serialize_encodes; [by apply unsigned_encode | by apply length_unsignedBytes].
Qed.

Lemma proposal_encode d :
  wfProposalData d →
  encodeFields proposalSchema (proposalProps d) ∅ = Some (unsignedBytes d ++ hexDecode (pd_signature d)).
Proof.
  intros Hwf. apply encodeFields_app.
  - apply unsigned_encode; [done |]. intros k Hk. unfold prop, proposalProps, proposalPropsUnsigned.
    cbn [list_to_map foldr uncurry]. rewrite !lookup_insert. repeat (case_decide; [done |]).
    by rewrite lookup_empty.
  - cbn [encodeFields]. change (prop (proposalProps d) "signature") with (VString (pd_signature d)).
    destruct Hwf as (_ & _ & _ & _ & _ & Hs). unfold encodeField. cbn [f_type field].
    rewrite encodeHexOf_Some by done. by rewrite app_nil_r.
Qed.

(** A proposal survives the wire, and the bytes that travel are exactly
    the bytes that are signed followed by the signature, which is how
    [makeProposal] assembles them. *)
Theorem proposal_roundtrip d :
  wfProposalData d →
  ∃ unsigned, serializeProposalUnsigned d = Ok unsigned ∧
    serializeProposal d = Ok (unsigned ++ hexDecode (pd_signature d)) ∧
    deserializeProposal (unsigned ++ hexDecode (pd_signature d)) = Ok d.
Proof.
  intros Hwf. exists (unsignedBytes d). split; [by apply serializeUnsigned_bytes |]. split.
  - apply serialize_encodes; [by apply proposal_encode |].
    rewrite length_app, Nat2Z.inj_add, <- length_unsignedBytes by done.
    destruct Hwf as (_ & _ & _ & _ & _ & Hs). rewrite (length_hexOf _ _ Hs). done.
  - unfold deserializeProposal.
    destruct (deserialize_from_bytes _ _ _ (proposal_encode d Hwf)) as (b & -> & ->).
    cbn [Z.eqb]. by destruct d as [? [?|] ? ? ?].
Qed.

(** A proposal object built from bytes pairs its valid round with a lock
    proof: it has both or neither, and the valid round lies below the round
    proposed in. *)
Theorem proposal_pairing bs p :
  makeProposalFromBytes roundValidatorsAt isAddress bs = Ok p →
  (is_Some (p_validRound p) ↔ is_Some (p_lockProof p)) ∧
  (∀ v, p_validRound p = Some v → 0 ≤ v < p_round p) ∧
  p_payload p = None ∧ p_serialized p = bs.
Proof.
  intros (d & _ & Hk)%bind_Ok.
  destruct (proposalSchemaValid roundValidatorsAt d) eqn:Hsch; [| done]. cbn [negb] in Hk.
  apply bind_Ok in Hk as ([hd lp] & _ & Hk).
  destruct (Bool.eqb _ _) eqn:Hb; [| done]. cbn [negb] in Hk.
  apply Bool.eqb_prop in Hb.
  destruct (from_option (λ v, pd_round d <=? v) false (pd_validRound d)) eqn:Hv; [done |].
  injection Hk as <-. unfold p_validRound, p_round. cbn [p_data p_lockProof p_payload p_serialized].
  unfold proposalSchemaValid, proposalUnsignedSchemaValid in Hsch. simpl_bool.
  split; [| split; [| done]].
  - destruct (pd_validRound d), lp; try done; split; intros [? ?]; eauto; done.
  - intros v Heq. rewrite Heq in *. cbn [from_option] in *. simpl_bool. lia.
Qed.

Lemma payload_agrees rva bs hd lp payload :
  getLockProofAndBlockHeader roundValidatorsAt isAddress bs = Ok (hd, lp) →
  makePayloadFromBytes rva isAddress txSchemaValid bs = Ok payload →
  b_header (pp_block payload) = hd ∧ pp_lockProof payload = lp.
Proof.
  intros (l1 & b1 & Hl1 & H3)%M_bind_Ok (l2 & b2 & Hl2 & H4)%M_bind_Ok.
  rewrite Hl1 in Hl2. injection Hl2 as <- <-.
  apply M_bind_Ok in H3 as (r & b3 & Hr & H3). injection Hr as <- <-.
  apply M_bind_Ok in H4 as (r & b4 & Hr & H4). injection Hr as <- <-.
  apply M_bind_Ok in H3 as (hd' & b3 & Hhd & H3). apply M_bind_Ok in H4 as (bl & b4 & Hbl & H4).
  unfold liftR in Hhd, Hbl. injection Hhd as Hhd <-. injection Hbl as Hbl <-.
  pose proof (header_of_block _ _ _ _ _ Hhd Hbl) as Heq.
  destruct l1 as [l|]; [destruct (lockProofSchemaValid _ _ _) in H3; [| done];
    destruct (lockProofSchemaValid _ _ _) in H4; [| done] |];
    injection H3 as <- <-; injection H4 as <-; auto.
Qed.

Lemma deserialize_agrees rva bs p p' :
  makeProposalFromBytes roundValidatorsAt isAddress bs = Ok p →
  deserializePayload rva isAddress txSchemaValid p = Ok p' →
  ∃ payload, p' = p <| p_payload := Some payload |> ∧
    b_header (pp_block payload) = p_blockHeader p ∧ pp_lockProof payload = p_lockProof p.
Proof.
  intros (d & _ & Hk)%bind_Ok Hd.
  destruct (negb (proposalSchemaValid roundValidatorsAt d)); [done |].
  apply bind_Ok in Hk as ([hd lp] & Hlp & Hk).
  destruct (negb (Bool.eqb _ _)); [done |].
  destruct (from_option _ _ _); [done |]. injection Hk as <-.
  unfold deserializePayload in Hd. cbn [p_payload p_data] in Hd.
  apply bind_Ok in Hd as (payload & Hp & Hd). injection Hd as <-.
  destruct (payload_agrees _ _ _ _ _ Hlp Hp) as [Hh Hl]. exists payload. auto.
Qed.

(** Deserializing a proposal's payload later, when the current milestone
    may be another one ([rva]), yields the very block whose header, and the
    very lock proof which, the proposal was checked with when it was received:
    the votes on the header's hash are votes on that block. *)
Theorem proposal_payload_agrees rva bs p p' :
  makeProposalFromBytes roundValidatorsAt isAddress bs = Ok p →
  deserializePayload rva isAddress txSchemaValid p = Ok p' →
  ∃ payload, p_payload p' = Some payload ∧
    b_header (pp_block payload) = p_blockHeader p ∧
    pp_lockProof payload = p_lockProof p ∧ b_hash (pp_block payload) = p_hash p'.
Proof.
  intros Hp Hd. destruct (deserialize_agrees _ _ _ _ Hp Hd) as (payload & -> & Hh & Hl).
  exists payload. unfold b_hash, p_hash. cbn. rewrite Hh. auto.
Qed.
End correctness.

(** ** The block number of a serialized payload *)
Section parse_block_number.
Context `{Viem} `{TransactionCodec} `{HashFactory}.

Lemma substring_hexEncode k i bs :
  String.substring (2 * i) (2 * k) (hexEncode bs) = hexEncode (take k (drop i bs)).
Proof.
  revert k i; induction bs as [|b bs IH]; intros k i.
  { simpl. destruct i, k; simpl; try done. all: by destruct (_ + _)%nat. }
  destruct i as [|i].
  - destruct k as [|k]; [done |]. replace (2 * S k)%nat with (S (S (2 * k))) by lia.
    cbn [Nat.mul Nat.add hexEncode String.substring drop take].
    do 2 f_equal. exact (IH k 0%nat).
  - replace (2 * S i)%nat with (S (S (2 * i))) by lia.
    cbn [hexEncode String.substring drop]. apply IH.
Qed.

Lemma slice_hexEncode bs i j :
  slice (hexEncode bs) (2 * i) (2 * j) = hexEncode (take (j - i) (drop i bs)).
Proof.
  unfold slice. replace (2 * j - 2 * i)%nat with (2 * (j - i))%nat by lia. apply substring_hexEncode.
Qed.

Lemma readUintN_inv n b z b' :
  bb_ok b → readUintN n b = (Ok z, b') →
  z = le_decode (take n (getRemainder b)) ∧ getRemainder b' = drop n (getRemainder b) ∧
  (n ≤ length (getRemainder b))%nat ∧ bb_ok b'.
Proof.
  unfold readUintN, nodeRead, mbind, M_bind, getRemainder, bb_ok. intros Hok.
  case_bool_decide as Hn; [| done]. intros [= <- <-]. simpl.
  rewrite drop_drop, length_drop. split; [done |]. split; [done |]. lia.
Qed.

Lemma readBytes_inv n b bs b' :
  bb_ok b → 0 ≤ n → readBytes n b = (Ok bs, b') →
  getRemainder b' = drop (Z.to_nat n) (getRemainder b) ∧
  (Z.to_nat n ≤ length (getRemainder b))%nat ∧ bb_ok b'.
Proof.
  unfold readBytes, getRemainder, getRemainderLength, bb_ok. intros Hok Hn.
  destruct (Z.ltb_spec (Z.of_nat (length (bb_buffer b)) - Z.of_nat (bb_offset b)) n); [done |].
  intros [= <- <-]. simpl. rewrite drop_drop, length_drop.
  replace (Z.to_nat (Z.of_nat (bb_offset b) + n)) with (bb_offset b + Z.to_nat n)%nat by lia.
  split; [done |]. lia.
Qed.

Lemma deserialize_preserves schema t b t' b' k :
  deserialize schema t b = (Ok t', b') → k ∉ schema.*1 → t' !! k = t !! k.
Proof.
  revert t b; induction schema as [|[k' f] schema IH]; intros t b Hd Hk.
  { by injection Hd as <- <-. }
  cbn [deserialize] in Hd. unfold mbind, M_bind in Hd.
  destruct (readField f t b) as [[v|] b1]; [| done].
  rewrite fmap_cons, not_elem_of_cons in Hk. simpl in Hk.
  rewrite (IH _ _ Hd) by tauto. by rewrite lookup_insert_ne by (intros ->; tauto).
Qed.

Lemma deserialize_cons_inv k f schema t b t' b' :
  deserialize ((k, f) :: schema) t b = (Ok t', b') →
  ∃ v b1, readField f t b = (Ok v, b1) ∧ deserialize schema (<[k := v]> t) b1 = (Ok t', b').
Proof.
  cbn [deserialize]. unfold mbind, M_bind. destruct (readField f t b) as [[v|] b1]; [eauto | done].
Qed.

(** The header's block number sits in bytes 7 to 10 of its encoding. *)
Lemma header_number_offset b h b' :
  bb_ok b → deserializeBufferHeader b = (Ok h, b') →
  bh_number h = le_decode (take 4 (drop 7 (getRemainder b))) ∧
  (15 ≤ length (getRemainder b))%nat.
Proof.
  intros Hok (t & b1 & Hd & Hk)%M_bind_inv. unfold blockHeaderSchema in Hd.
  apply deserialize_cons_inv in Hd as (v1 & b2 & H3 & Hd).
  apply deserialize_cons_inv in Hd as (v2 & b3 & H4 & Hd).
  apply deserialize_cons_inv in Hd as (v3 & b4 & H5 & Hd).
  apply deserialize_cons_inv in Hd as (v4 & b5 & H6 & Hd).
  unfold readField, readOptional in H3, H4, H5, H6. cbn [f_type f_optional field] in H3, H4, H5, H6.
  apply M_bind_inv in H3 as (z1 & b2' & H3 & Hv). injection Hv as <- <-.
  apply M_bind_inv in H4 as (z2 & b3' & H4 & Hv). injection Hv as <- <-.
  apply M_bind_inv in H5 as (z3 & b4' & H5 & Hv). injection Hv as <- <-.
  apply M_bind_inv in H6 as (z4 & b5' & H6 & Hv). injection Hv as <- <-.
  apply readUintN_inv in H3 as (-> & Hr2 & Hl2 & Hok2); [| done].
  apply readUintN_inv in H4 as (-> & Hr3 & Hl3 & Hok3); [| done].
  apply readUintN_inv in H5 as (Hz3 & Hr4 & Hl4 & Hok4); [| done].
  apply readUintN_inv in H6 as (_ & _ & Hl5 & _); [| done].
  rewrite Hr4, Hr3, Hr2, !length_drop in Hl5.
  rewrite Hr3, Hr2, drop_drop in Hz3.
  apply deserialize_preserves with (k := "number") in Hd; [| by apply (bool_decide_eq_true_1 _)].
  rewrite lookup_insert_ne, lookup_insert_eq in Hd by done. split; [| lia].
  apply M_bind_inv in Hk as (h' & b7 & Hh & Hk). unfold liftR in Hh. injection Hh as Hh <-.
  apply M_bind_inv in Hk as (z & b6 & _ & Hk). destruct (_ =? _); [| done]. injection Hk as <- _.
  unfold headerOfProps in Hh. replace (prop t "number") with (VNumber z3) in Hh
    by (unfold prop; by rewrite Hd).
  destruct (prop t "version"), (prop t "timestamp"), (prop t "round"); try done.
  repeat match type of Hh with context [match ?x with _ => _ end] => destruct x; try done end.
  by injection Hh as <-.
Qed.

Lemma headerFromBytes_number isAddress bs hd :
  headerFromBytes isAddress bs = Ok hd →
  bh_number (bh_raw hd) = le_decode (take 4 (drop 7 bs)) ∧ (15 ≤ length bs)%nat.
Proof.
  intros (hd' & Hd & Hk)%bind_Ok. destruct (blockHeaderSchemaValid _ _); [| done]. injection Hk as ->.
  apply bind_Ok in Hd as (h & Hh & Hd). apply bind_Ok in Hd as (s & _ & Hd). injection Hd as <-.
  destruct (deserializeBufferHeader (fromBuffer bs)) as [r b'] eqn:Heq. simpl in Hh. subst r.
  apply header_number_offset in Heq; [exact Heq | unfold bb_ok; simpl; lia].
Qed.

Lemma getLockProof_inv b l b' :
  bb_ok b → getLockProof b = (Ok l, b') →
  let n := Z.to_nat (le_decode (take 1 (getRemainder b))) in
  getRemainder b' = drop (S n) (getRemainder b) ∧ (S n ≤ length (getRemainder b))%nat.
Proof.
  intros Hok (n & b1 & Hn & Hk)%M_bind_inv. unfold readUint8 in Hn.
  apply readUintN_inv in Hn as (-> & Hr & Hl & Hok1); [| done].
  pose proof (le_decode_bounds (take 1 (getRemainder b))) as Hrange.
  destruct (Z.ltb_spec 0 (le_decode (take 1 (getRemainder b)))) as [Hpos|].
  - apply M_bind_inv in Hk as (bs & b2 & Hb & Hk). apply readBytes_inv in Hb as (Hr2 & Hl2 & _); [| done | lia].
    apply M_bind_inv in Hk as (l' & b3 & Hl' & Hk). unfold liftR in Hl'. injection Hl' as _ <-.
    injection Hk as _ <-. rewrite Hr2, Hr, drop_drop. split; [done |].
    rewrite Hr, length_drop in Hl2. lia.
  - injection Hk as _ <-. replace (Z.to_nat (le_decode (take 1 (getRemainder b)))) with 0%nat by lia.
    rewrite Hr. split; [done | lia].
Qed.

Lemma parseInt2_hexEncode b : parseInt2 (hexEncode [b]) = Some (le_decode [b]).
Proof. by destruct b. Qed.

(** The shortcut of the validation keywords agrees with the factory: on
    every payload the factory can deserialize, [parseSerializedPayload] reads
    the block number of the header that the factory returns, with or without
    a lock proof in front of it. *)
Theorem parseSerializedPayload_agrees roundValidatorsAt isAddress bs hd lp :
  getLockProofAndBlockHeader roundValidatorsAt isAddress bs = Ok (hd, lp) →
  parseSerializedPayload (hexEncode bs) = Some (bh_number (bh_raw hd)).
Proof.
  intros (l & b1 & Hl & Hk)%M_bind_Ok.
  apply getLockProof_inv in Hl as [Hr Hlen]; [| unfold bb_ok; simpl; lia].
  apply M_bind_Ok in Hk as (rest & b2 & Hrest & Hk). unfold gets in Hrest. injection Hrest as <- <-.
  apply M_bind_Ok in Hk as (hd' & b3 & Hhd & Hk). unfold liftR in Hhd. injection Hhd as Hhd <-.
  assert (hd' = hd) as -> by (repeat (case_match; try done); by injection Hk as <- _).
  apply headerFromBytes_number in Hhd as [-> Hl11].
  change (getRemainder (fromBuffer bs)) with bs in Hr, Hlen. rewrite Hr in Hl11 |- *.
  rewrite length_drop in Hl11. rewrite drop_drop.
  destruct bs as [|b0 bs]; [simpl in Hlen; lia |]. change (take 1 (b0 :: bs)) with [b0] in *.
  set (n := Z.to_nat (le_decode [b0])) in *.
  unfold parseSerializedPayload. rewrite length_hexEncode.
  rewrite (proj2 (Nat.ltb_ge _ _)) by lia.
  change (slice (hexEncode (b0 :: bs)) 0 2) with (slice (hexEncode (b0 :: bs)) (2 * 0) (2 * 1)).
  rewrite slice_hexEncode. change (take (1 - 0) (drop 0 (b0 :: bs))) with [b0]. rewrite parseInt2_hexEncode.
  pose proof (le_decode_bounds [b0]) as Hrange.
  replace (Z.to_nat (2 + le_decode [b0] * 2 + 2 + 12)) with (2 * (S n + 7))%nat by (subst n; lia).
  rewrite (proj2 (Nat.ltb_ge _ _)) by lia.
  replace (2 * (S n + 7) + 8)%nat with (2 * (S n + 7 + 4))%nat by lia.
  rewrite slice_hexEncode, hexDecode_Encode.
  replace (S n + 7 + 4 - (S n + 7))%nat with 4%nat by lia.
  rewrite (proj2 (Nat.ltb_ge _ _)) by (rewrite length_take, length_drop; lia).
  by rewrite take_take.
Qed.
End parse_block_number.
