(* ===== verification/Commits.v ===== *)
(** * packages/crypto-commit

    A commit is a block with the proof, an aggregated BLS signature and the set
    of the validators behind it, that +2/3 of the round's validators precommitted
    it.  The file models the proof's wire format and the factory. *)
From S2P Require Import Prelude Bytes ByteBuffer Serializer Messages Blocks Proposals.

(** [Contracts.Crypto.CommitProof]. *)
Record CommitProof := mkCommitProof {
  cp_round : Z;
  cp_signature : string;
  cp_validators : list bool;
}.
#[export] Instance CommitProof_eq_dec : EqDecision CommitProof.
Proof. solve_decision. Defined.

(** [Contracts.Crypto.Commit]. *)
Record Commit := mkCommit {
  c_block : Block;
  c_proof : CommitProof;
  c_serialized : string;
}.

(** service-provider.ts: [Identifiers.Cryptography.Commit.ProofSize]. *)
Definition proofSize : Z := 4 + consensusSignatureSize + 1 + 8.

Definition commitProofSchema : Schema :=
  [("round", field FUint32); ("signature", field FConsensusSignature);
   ("validators", field FValidatorSet)].

Definition commitProofProps (p : CommitProof) : gmap string Value :=
  list_to_map [("round", VNumber (cp_round p)); ("signature", VString (cp_signature p));
    ("validators", VBooleans (cp_validators p))].

Definition commitProofOfProps (t : gmap string Value) : result CommitProof :=
  match prop t "round", prop t "signature", prop t "validators" with
  | VNumber r, VString s, VBooleans l => Ok (mkCommitProof r s l)
  | _, _, _ => Throw (JSError "not a commit proof")
  end.

Section commits.
Context `{Viem} `{TransactionCodec} `{HashFactory}.
Context (roundValidatorsAt : option Z → Z).
Context (isAddress : string → bool) (txSchemaValid : Transaction → bool).

(** ** serializer.ts *)
Definition serializeCommitProof (proof : CommitProof) : result (list byte) :=
  serialize (commitProofProps proof) proofSize 0 commitProofSchema.

Definition serializeCommit (block : Block) (proof : CommitProof) : result (list byte) :=
  serializedProof ← serializeCommitProof proof;
  let serializedBlock := hexDecode (b_serialized block) in
  Ok (serializedProof ++ serializedBlock).

(** ** deserializer.ts *)
Definition deserializeCommitProof (serialized : list byte) : result CommitProof :=
  match deserialize commitProofSchema ∅ (fromBuffer serialized) with
  | (Ok t, buffer) =>
      if getRemainderLength buffer =? 0 then commitProofOfProps t
      else Throw (NamedError "InvalidCommitProofBytesError")
  | (Throw e, _) => Throw e
  end.

(** ** schemas.ts: the block is checked against the block schema, the proof's
    validators against the number of validators at the block's height. *)
Definition commitProofSchemaValid (blockNumber : Z) (p : CommitProof) : bool :=
  (0 <=? cp_round p) && hexOfLength 192 (cp_signature p) &&
  limitToRoundValidators (roundValidatorsAt (Some blockNumber)) (cp_validators p).

Definition commitSchemaValid (c : Commit) : bool :=
  blockSchemaValid isAddress txSchemaValid (b_header (c_block c)) (bt_transaction <$> b_transactions (c_block c)) &&
  commitProofSchemaValid (b_number (c_block c)) (c_proof c) &&
  isHexSchema (c_serialized c).

(** ** factory.ts *)
Definition commitFromBytes (buff : list byte) : result Commit :=
  ((proofBuffer ← readBytes proofSize;
    proof ← liftR (deserializeCommitProof proofBuffer);
    rest ← gets getRemainder;
    block ← liftR (blockFromBytes isAddress txSchemaValid rest);
    let commit := mkCommit block proof (hexEncode buff) in
    if commitSchemaValid commit then mret commit
    else throw (NamedError "MessageSchemaError")) (fromBuffer buff)).1.
End commits.

(** ** Correctness *)
Lemma commitFromBytes_hash `{Viem} `{TransactionCodec} `{HashFactory} rva isAddress txSchemaValid bytes c :
  commitFromBytes rva isAddress txSchemaValid bytes = Ok c → hexOfLength 64 (b_hash (c_block c)) = true.
Proof.
  intros (pb & s1 & _ & Hk)%M_bind_Ok. apply M_bind_Ok in Hk as (p & s2 & _ & Hk).
  apply M_bind_Ok in Hk as (rest & s3 & _ & Hk). apply M_bind_Ok in Hk as (block & s4 & _ & Hk).
  cbv zeta in Hk. destruct (commitSchemaValid rva isAddress txSchemaValid _) eqn:Hv; [| done]. injection Hk as <-.
  unfold commitSchemaValid, blockSchemaValid, blockHeaderSchemaValid in Hv. cbn in Hv. by simpl_bool.
Qed.

Section correctness.
Context `{Viem} `{TransactionCodec} `{HashFactory}.
Context (roundValidatorsAt : option Z → Z).
Context (isAddress : string → bool) (txSchemaValid : Transaction → bool).

Definition wfCommitProof (p : CommitProof) : Prop :=
  uint 4 (cp_round p) ∧ isConsensusSignature (cp_signature p) ∧ (length (cp_validators p) ≤ 64)%nat.

Definition commitProofBytes (p : CommitProof) : list byte :=
  le_encode 4 (cp_round p) ++ hexDecode (cp_signature p) ++
  le_encode 1 (Z.of_nat (length (cp_validators p))) ++ le_encode 8 (validatorSetPack (cp_validators p)).

Lemma commitProof_encode p :
  wfCommitProof p →
  encodeFields commitProofSchema (commitProofProps p) ∅ = Some (commitProofBytes p).
Proof.
  intros (Hr & Hs & Hv). unfold commitProofSchema. cbn [encodeFields].
  change (prop (commitProofProps p) "round") with (VNumber (cp_round p)).
  change (prop (commitProofProps p) "signature") with (VString (cp_signature p)).
  change (prop (commitProofProps p) "validators") with (VBooleans (cp_validators p)).
  unfold encodeField, encodeOptional. cbn [f_type f_optional field].
  rewrite encodeUint_Some, encodeHexOf_Some by done.
  rewrite validatorSet_fits by done. cbn [guardO]. by rewrite app_nil_r.
Qed.

Lemma length_commitProofBytes p :
  wfCommitProof p → Z.of_nat (length (commitProofBytes p)) = proofSize.
Proof.
  intros (Hr & Hs & Hv). unfold commitProofBytes. rewrite !length_app, !length_le_encode.
  rewrite (length_hexOf _ _ Hs). reflexivity.
Qed.

Lemma isHexSchema_hexEncode bs : bs ≠ [] → isHexSchema (hexEncode bs) = true.
Proof.
  intros Hne. unfold isHexSchema. replace (allLowerHex (hexEncode bs)) with true; [by destruct bs |].
  symmetry. clear Hne. induction bs as [|b bs IH]; [done |]. destruct b; exact IH.
Qed.

Lemma commitBytes_nonempty p bs : commitProofBytes p ++ bs ≠ [].
Proof.
  intros [Hl%(f_equal length) _]%app_nil. unfold commitProofBytes in Hl.
  rewrite length_app, length_le_encode in Hl. simpl in Hl. lia.
Qed.

Lemma deserializeCommitProof_bytes p :
  wfCommitProof p → deserializeCommitProof (commitProofBytes p) = Ok p.
Proof.
  intros Hwf. unfold deserializeCommitProof.
  destruct (deserialize_from_bytes _ _ _ (commitProof_encode p Hwf)) as (b & -> & ->). by destruct p.
Qed.

Lemma serializeCommitProof_bytes p :
  wfCommitProof p → serializeCommitProof p = Ok (commitProofBytes p).
Proof.
  intros Hwf. apply serialize_encodes; [by apply commitProof_encode | by rewrite length_commitProofBytes].
Qed.

Lemma imap_fmap_id {A B} (f : nat → A → B) (g : B → A) l :
  (∀ i x, g (f i x) = x) → g <$> imap f l = l.
Proof.
  intros Hfg. revert f Hfg; induction l as [|x l IH]; intros f Hfg; [done |].
  rewrite imap_cons, fmap_cons, Hfg. f_equal. apply IH. intros i y. apply Hfg.
Qed.

(** A commit survives the wire and the database: for a block that its own
    bytes deserialize to and a well-formed proof over the validators of the
    block's height, the serialized commit is read back as the same block, the
    same proof, and carries the bytes it was read from. *)
Theorem commit_roundtrip block proof :
  wfCommitProof proof →
  blockFromBytes isAddress txSchemaValid (hexDecode (b_serialized block)) = Ok block →
  commitProofSchemaValid roundValidatorsAt (b_number block) proof = true →
  ∃ bs, serializeCommit block proof = Ok bs ∧
        commitFromBytes roundValidatorsAt isAddress txSchemaValid bs =
        Ok (mkCommit block proof (hexEncode bs)).
Proof.
  intros Hwf Hblock Hschema. exists (commitProofBytes proof ++ hexDecode (b_serialized block)). split.
  { unfold serializeCommit. by rewrite serializeCommitProof_bytes. }
  unfold commitFromBytes, mbind, M_bind.
  rewrite <- (length_commitProofBytes proof Hwf).
  destruct (readBytes_reads (commitProofBytes proof)
    (fromBuffer (commitProofBytes proof ++ hexDecode (b_serialized block)))
    (hexDecode (b_serialized block))) as (b' & -> & Hok & Hr); [done | unfold bb_ok; simpl; lia |].
  unfold liftR, gets. rewrite deserializeCommitProof_bytes by done. rewrite Hr, Hblock.
  unfold commitSchemaValid. cbn [c_block c_proof c_serialized].
  rewrite Hschema, isHexSchema_hexEncode, !andb_true_r by apply commitBytes_nonempty.
  apply bind_Ok in Hblock as ([h txs] & _ & Hb). destruct (blockSchemaValid _ _ _ _) eqn:Hv; [| done].
  injection Hb as <-. cbn [b_header b_transactions newBlock].
  replace (bt_transaction <$> _) with txs; [by rewrite Hv |].
  symmetry. apply imap_fmap_id. done.
Qed.
End correctness.
