(* ===== verification/Canonical.v ===== *)
(** * Reading is the inverse of writing

    The deserializer of packages/serializer accepts no bytes but those that the
    serializer writes for what it returns, so that no two byte strings stand for the
    same header, block, lock proof or commit.  The transactions of a block are the
    exception: a block carries the bytes of each, whatever they are. *)
From S2P Require Import Prelude Bytes ByteBuffer Serializer Messages Blocks Proposals Commits.

(** [parses m P]: when [m] succeeds it consumes bytes that are related by [P] to what
    it returns. *)
Definition parses {A} (m : M ByteBuffer A) (P : A → list byte → Prop) : Prop :=
  ∀ b a b', bb_ok b → m b = (Ok a, b') → bb_ok b' ∧ ∃ bs, getRemainder b = bs ++ getRemainder b' ∧ P a bs.

Lemma fromBuffer_ok bs : bb_ok (fromBuffer bs).
Proof. unfold bb_ok. cbn. lia. Qed.

Section parses.

Lemma parses_ret {A} (a : A) (P : A → list byte → Prop) : P a [] → parses (mret a) P.
Proof. intros HP b a' b' Hok [= <- <-]. split; [done |]. by exists []. Qed.

Lemma parses_throw {A} e (P : A → list byte → Prop) : parses (throw e) P.
Proof. by intros b a b' Hok ?. Qed.

Lemma parses_bind {A B} (m : M ByteBuffer A) (f : A → M ByteBuffer B) P (Q : A → B → list byte → Prop) :
  parses m P → (∀ a bs, P a bs → parses (f a) (Q a)) → parses (m ≫= f) (λ c bs, ∃ a bs1 bs2, bs = bs1 ++ bs2 ∧ P a bs1 ∧ Q a c bs2).
Proof.
  intros Hm Hf b c b' Hok (a & b1 & Ha & Hc)%M_bind_inv. destruct (Hm _ _ _ Hok Ha) as (Hok1 & bs1 & Hr1 & HP).
  destruct (Hf a _ HP _ _ _ Hok1 Hc) as (Hok2 & bs2 & Hr2 & HQ). split; [done |]. exists (bs1 ++ bs2). rewrite Hr1, Hr2, app_assoc. eauto 10.
Qed.

Lemma parses_liftR {A} (r : result A) (P : A → list byte → Prop) : (∀ a, r = Ok a → P a []) → parses (liftR r) P.
Proof. intros HP b a b' Hok [Hr ->]%liftR_inv. split; [done |]. exists []. auto. Qed.

Lemma parses_mono {A} (m : M ByteBuffer A) (P Q : A → list byte → Prop) : parses m P → (∀ a bs, P a bs → Q a bs) → parses m Q.
Proof. intros Hm HPQ b a b' Hok Hr. destruct (Hm _ _ _ Hok Hr) as (? & bs & ? & ?). eauto 6. Qed.

Lemma parses_map {A B} (m : M ByteBuffer A) (f : A → B) P : parses m P → parses (x ← m; mret (f x)) (λ y bs, ∃ x, y = f x ∧ P x bs).
Proof.
  intros Hm. eapply parses_mono; [apply (parses_bind _ _ _ (λ x y bs, y = f x ∧ bs = []) Hm); intros x ? _; by apply parses_ret |].
  intros y bs (x & bs1 & bs2 & -> & HP & -> & ->). exists x. by rewrite app_nil_r.
Qed.

(** The bytes of a ByteBuffer. *)
Lemma parses_nodeRead n : parses (nodeRead n) (λ a bs, a = bs ∧ length bs = n).
Proof.
  intros b a b'. unfold nodeRead, bb_ok, getRemainder. intros Hok. case_bool_decide as Hn; [| done]. intros [= <- <-]. cbn. split; [done |].
  exists (take n (drop (bb_offset b) (bb_buffer b))). rewrite <- drop_drop, take_drop, length_take, length_drop. split_and!; [done | done | lia].
Qed.

Lemma parses_readBytes n : 0 ≤ n → parses (readBytes n) (λ a bs, a = bs ∧ Z.of_nat (length bs) = n).
Proof.
  intros Hn b a b'. unfold readBytes, bb_ok, getRemainder, getRemainderLength. intros Hok. destruct (Z.ltb_spec (Z.of_nat (length (bb_buffer b)) - Z.of_nat (bb_offset b)) n); [done |].
  intros [= <- <-]. cbn. split; [lia |]. exists (take (Z.to_nat n) (drop (bb_offset b) (bb_buffer b))).
  replace (Z.to_nat (Z.of_nat (bb_offset b) + n)) with (bb_offset b + Z.to_nat n)%nat by lia.
  rewrite <- drop_drop, take_drop, length_take, length_drop. split_and!; [done | done | lia].
Qed.

Lemma parses_uint n : parses (readUintN n) (λ z bs, bs = le_encode n z ∧ 0 ≤ z < 256 ^ Z.of_nat n).
Proof.
  eapply parses_mono; [apply parses_map, parses_nodeRead |]. intros z bs (bs' & -> & -> & <-). rewrite le_encode_decode.
  split; [done | apply le_decode_bounds].
Qed.

Lemma parses_uint256 : parses readUint256 (λ z bs, bs = be_encode 32 z ∧ 0 ≤ z < 2 ^ 256).
Proof.
  eapply parses_mono; [apply parses_map, parses_readBytes; lia |]. intros z bs (bs' & -> & -> & Hl).
  assert (length bs = 32%nat) as Hn by lia. rewrite <- Hn, be_encode_decode. split; [done |]. pose proof (le_decode_bounds (reverse bs)) as Hb.
  rewrite length_reverse, Hn in Hb. exact Hb.
Qed.

Lemma parses_serialized : parses readSerialized (λ a bs, encodeSerialized a = Some bs).
Proof.
  eapply parses_mono; [apply (parses_bind _ _ _ (λ n a bs, a = bs ∧ Z.of_nat (length bs) = n) (parses_uint 4)); intros n bs [_ Hn]; apply parses_readBytes; lia |].
  intros a bs (n & bs1 & bs2 & -> & [-> Hn] & -> & <-). apply encodeSerialized_Some. exact Hn.
Qed.

Lemma parses_readN n : parses (readN n) (λ l bs, length l = n ∧ encodeAll l = Some bs).
Proof.
  induction n as [|n IH]; [by apply parses_ret |]. cbn [readN]. eapply parses_mono; [apply (parses_bind _ _ _ (λ x l bs, ∃ l', l = x :: l' ∧ length l' = n ∧ encodeAll l' = Some bs) parses_serialized); intros x ? _; apply parses_map, IH |].
  intros l bs (x & bs1 & bs2 & -> & Hx & l' & -> & <- & Hl). cbn. by rewrite Hx, Hl.
Qed.
End parses.

(** ** Fields *)
Section fields.
Context `{Viem}.
(** viem: [toBytes] of an address in checksummed text is the address. *)
Context (getAddress_toBytes : ∀ b a, viem_getAddress ("0x" +:+ hexEncode b) = Ok a → viem_toBytes a = Ok b).

(** The fields whose size the schema fixes, or that carry their own length. *)
Definition selfDelimited (f : FieldSchema) : Prop :=
  match f_type f with FTransactions => False | FHash => 0 ≤ default hashSize (f_size f) | _ => True end.

Lemma parses_optional f read enc : enc VUndefined = None → parses read (λ v bs, enc v = Some bs) →
  parses (readOptional f read) (λ v bs, encodeOptional f enc v = Some bs).
Proof.
  intros Hu Hr. unfold readOptional, encodeOptional. destruct (f_optional f); [| done].
  eapply parses_mono; [eapply (parses_bind _ _ _ (λ z v bs, z = 0 ∧ v = VUndefined ∧ bs = [] ∨ z = 1 ∧ enc v = Some bs)); [apply parses_uint |] |].
  - intros z bs _. destruct (Z.eqb_spec z 0) as [->|]; [apply parses_ret; by left |]. destruct (Z.eqb_spec z 1) as [->|]; [| apply parses_throw].
    eapply parses_mono; [done |]. by right.
  - intros v bs (z & bs1 & bs2 & -> & [-> _] & [(-> & -> & ->)|[-> Hv]]); [done |]. destruct v; [by rewrite Hu in Hv | ..]; by rewrite Hv.
Qed.

Lemma parses_number n f : parses (readOptional f (z ← readUintN n; mret (VNumber z))) (λ v bs, encodeOptional f (encodeUint n) v = Some bs).
Proof.
  apply parses_optional; [done |]. eapply parses_mono; [apply parses_map, parses_uint |]. intros v bs (z & -> & -> & Hz).
  apply encodeUint_Some. unfold uint. by rewrite pow8_256.
Qed.

Lemma parses_big f : parses (readOptional f (z ← readUint64; mret (VBigInt z))) (λ v bs, encodeOptional f (encodeBig 8 le_encode) v = Some bs).
Proof.
  apply parses_optional; [done |]. eapply parses_mono; [apply parses_map, parses_uint |]. intros v bs (z & -> & -> & Hz).
  apply encodeBig_Some. unfold uint. by rewrite pow8_256.
Qed.

Lemma parses_hex n : 0 ≤ n → parses (bs ← readBytes n; mret (VString (hexEncode bs))) (λ v bs, encodeHexOf n v = Some bs).
Proof.
  intros Hn. eapply parses_mono; [by apply parses_map, parses_readBytes |]. intros v bs (b & -> & -> & Hl). unfold encodeHexOf. rewrite hexDecode_Encode.
  rewrite bool_decide_eq_true_2 by apply isHexText_encode. by rewrite Hl, Z.eqb_refl.
Qed.

Lemma parses_address : parses (bs ← readBytes addressSize; a ← liftR (addressFromBuffer bs); mret (VString a))
  (λ v bs, encodeField (field FAddress) ∅ v = Some bs).
Proof.
  eapply parses_mono.
  { eapply (parses_bind _ _ _ (λ b v bs, bs = [] ∧ ∃ a, addressFromBuffer b = Ok a ∧ v = VString a)); [apply parses_readBytes; done |]. intros b _ _.
    eapply parses_mono; [apply parses_map, (parses_liftR _ (λ a bs, bs = [] ∧ addressFromBuffer b = Ok a)); auto |]. intros v bs (a & -> & -> & Ha). eauto. }
  intros v bs (b & bs1 & bs2 & -> & [-> Hl] & -> & a & Ha & ->). rewrite app_nil_r. unfold encodeField. cbn [f_type field].
  rewrite (getAddress_toBytes _ _ Ha), Ha, bool_decide_eq_true_2, Hl by done. done.
Qed.

Lemma parses_validatorSet : parses (n ← readUint8; packed ← readUint64; l ← liftR (validatorSetUnpack packed n); mret (VBooleans l))
  (λ v bs, encodeField (field FValidatorSet) ∅ v = Some bs).
Proof.
  eapply parses_mono.
  { eapply (parses_bind _ _ _ (λ n v bs, ∃ packed l, v = VBooleans l ∧ validatorSetUnpack packed n = Ok l ∧ bs = le_encode 8 packed ∧ 0 ≤ packed < 256 ^ Z.of_nat 8)); [apply parses_uint |].
    intros n _ _. eapply parses_mono.
    - eapply (parses_bind _ _ _ (λ packed v bs, bs = [] ∧ ∃ l, v = VBooleans l ∧ validatorSetUnpack packed n = Ok l)); [apply parses_uint |]. intros packed _ _.
      eapply parses_mono; [apply parses_map, (parses_liftR _ (λ l bs, bs = [] ∧ validatorSetUnpack packed n = Ok l)); auto |]. intros v bs (l & -> & -> & Hl). eauto.
    - intros v bs (packed & bs1 & bs2 & -> & [-> Hp] & -> & l & -> & Hl). rewrite app_nil_r. eauto 6. }
  intros v bs (n & bs1 & bs2 & -> & [-> Hn] & packed & l & -> & Hl & -> & Hp). destruct (pack_unpack packed n l Hl) as [Hpack Hlen].
  unfold encodeField. cbn [f_type field]. rewrite Hpack, Hlen. change (256 ^ Z.of_nat 1) with 256 in Hn. change (256 ^ Z.of_nat 8) with (2 ^ 64) in Hp.
  by rewrite !(proj2 (Z.ltb_lt _ _)) by lia.
Qed.

Lemma parses_field f target : selfDelimited f → parses (readField f target) (λ v bs, encodeField f target v = Some bs).
Proof.
  unfold selfDelimited, readField. intros Hf.
  unfold encodeField. destruct (f_type f); try done; try (by apply parses_number); try (by apply parses_big); try (by apply parses_hex);
    try exact parses_address; try exact parses_validatorSet.
  - apply parses_optional; [done |]. eapply parses_mono; [apply parses_map, parses_uint256 |]. intros v bs (z & -> & -> & Hz). by apply encodeBig_Some.
  - apply parses_optional; [done |]. by apply parses_hex.
  - eapply parses_mono; [apply parses_map, parses_serialized |]. intros v bs (b & -> & Hb). rewrite hexDecode_Encode.
    by rewrite bool_decide_eq_true_2 by apply isHexText_encode.
Qed.

(** What [deserialize] read is what the schema writes for it. *)
Lemma parses_deserialize schema target : Forall (λ p, selfDelimited p.2) schema → NoDup schema.*1 →
  parses (deserialize schema target) (λ t bs, encodeFields schema t target = Some bs).
Proof.
  revert target. induction schema as [|[k f] schema IH]; intros target Hf Hnd; [by apply parses_ret |].
  apply Forall_cons in Hf as [Hkf Hf]. rewrite fmap_cons, NoDup_cons in Hnd. destruct Hnd as [Hk Hnd].
  intros b t b' Hok (v & b1 & Hv & Hd)%deserialize_cons_inv. destruct (parses_field f target Hkf _ _ _ Hok Hv) as (Hok1 & bs1 & Hr1 & Henc).
  destruct (IH (<[k := v]> target) Hf Hnd _ _ _ Hok1 Hd) as (Hok2 & bs2 & Hr2 & Henc2). split; [done |]. exists (bs1 ++ bs2).
  rewrite Hr1, Hr2, app_assoc. split; [done |]. cbn [encodeFields].
  assert (prop t k = v) as -> by (unfold prop; by rewrite (deserialize_preserves _ _ _ _ _ k Hd Hk), lookup_insert_eq). by rewrite Henc, Henc2.
Qed.
End fields.

Lemma encodeFields_ext `{Viem} schema data data' target :
  (∀ k, k ∈ schema.*1 → prop data k = prop data' k) → encodeFields schema data target = encodeFields schema data' target.
Proof.
  revert target. induction schema as [|[k f] schema IH]; intros target Hk; [done |]. cbn [encodeFields].
  rewrite (Hk k) by (cbn; left). rewrite IH; [done |]. intros k' Hk'. apply Hk. cbn. by right.
Qed.

Lemma encodeFields_cons `{Viem} k f schema data target bs : encodeFields ((k, f) :: schema) data target = Some bs →
  ∃ a b, encodeField f target (prop data k) = Some a ∧ encodeFields schema data (<[k := prop data k]> target) = Some b ∧ bs = a ++ b.
Proof. cbn [encodeFields]. destruct (encodeField _ _ _) as [a|]; [| done]. destruct (encodeFields _ _ _) as [b|]; [| done]. intros [= <-]. eauto. Qed.

(** The properties of an object that was read back with its types. *)
Ltac match_props H := repeat match type of H with context [match ?x with _ => _ end] => let E := fresh "E" in destruct x eqn:E; try done end.
Ltac each_key := intros k Hk; apply list_elem_of_In in Hk; cbn in Hk; repeat (destruct Hk as [<-|Hk]; [assumption |]); destruct Hk.

Lemma headerOfProps_agree t h : headerOfProps t = Ok h → ∀ k, k ∈ blockHeaderSchema.*1 → prop t k = prop (headerProps h) k.
Proof. unfold headerOfProps. intros Hh. match_props Hh. injection Hh as <-. each_key. Qed.
Lemma commitProofOfProps_agree t p : commitProofOfProps t = Ok p → ∀ k, k ∈ commitProofSchema.*1 → prop t k = prop (commitProofProps p) k.
Proof. unfold commitProofOfProps. intros Hh. match_props Hh. injection Hh as <-. each_key. Qed.

(** ** Headers and blocks *)
Section wire.
Context `{Viem} `{TransactionCodec} `{HashFactory}.
Context (getAddress_toBytes : ∀ b a, viem_getAddress ("0x" +:+ hexEncode b) = Ok a → viem_toBytes a = Ok b).

Lemma uint_of n f target z a : f_optional f = false → (encodeField f target (VNumber z) = encodeOptional f (encodeUint n) (VNumber z)) →
  encodeField f target (VNumber z) = Some a → uint n z.
Proof. intros Hf -> He. unfold encodeOptional in He. rewrite Hf in He. apply encodeUint_inv in He as (z' & [= <-] & _ & Hz). exact Hz. Qed.

Lemma big_of target z a : encodeField (field FUint256) target (VBigInt z) = Some a → uint 32 z.
Proof. intros He. destruct (encodeBig_inv 32 be_encode (VBigInt z) a He) as (z' & [= <-] & _ & Hz). exact Hz. Qed.

Lemma hex_of n f target s a : encodeField f target (VString s) = encodeHexOf n (VString s) → encodeField f target (VString s) = Some a → isHexOf n s.
Proof.
  intros -> He. unfold encodeHexOf in He. destruct (guardO_Some _ _ _ He) as [Hg _]. apply andb_true_iff in Hg as [Ht%bool_decide_eq_true_1 Hl%Z.eqb_eq].
  split; [exact Ht | exact Hl].
Qed.

Lemma address_of target s a : encodeField (field FAddress) target (VString s) = Some a → isWireAddress s.
Proof.
  unfold encodeField, isWireAddress. cbn [f_type field]. destruct (viem_toBytes s) as [bs|]; [| done]. intros [Hg _]%guardO_Some.
  by apply andb_true_iff in Hg as [Ht%bool_decide_eq_true_1 Hl%Z.eqb_eq].
Qed.

Ltac next_field H k E := let a := fresh "a" in let b := fresh "b" in let Hb := fresh "Hb" in
  apply (encodeFields_cons k) in H as (a & b & E & H & Hb); clear Hb.

Lemma header_encode_inv h bs : encodeFields blockHeaderSchema (headerProps h) ∅ = Some bs → wfHeader h.
Proof.
  intros Hs. unfold blockHeaderSchema in Hs.
  next_field Hs "version" H1'. next_field Hs "timestamp" H2'. next_field Hs "number" H3'. next_field Hs "round" H4'. next_field Hs "parentHash" H5'.
  next_field Hs "stateRoot" H6'. next_field Hs "logsBloom" H7'. next_field Hs "transactionsCount" H8'. next_field Hs "gasUsed" H9'. next_field Hs "fee" H10'.
  next_field Hs "reward" H11'. next_field Hs "payloadSize" H12'. next_field Hs "transactionsRoot" H13'. next_field Hs "proposer" H14'. next_field Hs "randaoReveal" H15'.
  clear Hs. unfold wfHeader. split_and!;
    try (eapply uint_of; [| | eassumption]; reflexivity); try (eapply big_of; eassumption); try (eapply hex_of; [| eassumption]; reflexivity); eapply address_of; eassumption.
Qed.

Lemma headerSchema_delimited : Forall (λ p, selfDelimited p.2) blockHeaderSchema.
Proof. by repeat constructor. Qed.
Lemma headerSchema_distinct : NoDup blockHeaderSchema.*1.
Proof. by apply (bool_decide_eq_true_1 (NoDup _)). Qed.

(** A header that is read is well formed, and the bytes are those it is written to;
    the rest is as long as it announces. *)
Lemma parses_header b h b' : bb_ok b → deserializeBufferHeader b = (Ok h, b') →
  wfHeader h ∧ bb_ok b' ∧ getRemainder b = headerBytes h ++ getRemainder b' ∧ bh_payloadSize h = Z.of_nat (length (getRemainder b')).
Proof.
  intros Hok (t & b1 & Hd & Hk)%M_bind_inv.
  destruct (parses_deserialize getAddress_toBytes _ ∅ headerSchema_delimited headerSchema_distinct _ _ _ Hok Hd) as (Hok1 & bs & Hr & Henc).
  apply M_bind_inv in Hk as (h' & b2 & [Hh ->]%liftR_inv & Hk). apply M_bind_inv in Hk as (n & b3 & Hn & Hk). injection Hn as <- <-.
  destruct (Z.eqb_spec (getRemainderLength b1) (bh_payloadSize h')) as [Hsize|]; [| done]. injection Hk as <- <-.
  rewrite (encodeFields_ext _ _ (headerProps h')) in Henc by by apply headerOfProps_agree. pose proof (header_encode_inv _ _ Henc) as Hwf.
  rewrite header_encode in Henc by done. injection Henc as <-. by rewrite <- Hsize, remainder_length.
Qed.

(** The factory of transactions keeps the bytes. *)
Context (codec_keeps : ∀ bytes tx, txFromBytes bytes = Ok tx → tx_serialized tx = bytes).

Lemma traverse_keeps raws txs : traverse txFromBytes raws = Ok txs → raws = tx_serialized <$> txs ∧ Forall (λ tx, txFromBytes (tx_serialized tx) = Ok tx) txs.
Proof.
  intros Ht%traverse_Forall2. induction Ht as [|raw tx raws txs Htx _ [-> IH]]; [by split |]. cbn. rewrite (codec_keeps _ _ Htx).
  split; [done |]. constructor; [by rewrite (codec_keeps _ _ Htx) | done].
Qed.

Lemma encodeAll_payload txs bs : encodeAll (tx_serialized <$> txs) = Some bs →
  bs = payloadBytes txs ∧ Forall (λ tx, uint 4 (Z.of_nat (length (tx_serialized tx)))) txs.
Proof.
  revert bs. induction txs as [|tx txs IH]; intros bs; cbn; [by intros [= <-] |]. destruct (encodeSerialized _) as [a|] eqn:Ha; [| done].
  change (map tx_serialized txs) with (tx_serialized <$> txs). destruct (encodeAll _) as [rest|] eqn:Hrest; [| done]. intros [= <-].
  destruct (encodeSerialized_inv _ _ Ha) as [-> Hl]. destruct (IH _ eq_refl) as [-> Hall]. rewrite <- app_assoc. split; [done |]. by constructor.
Qed.

Lemma wfPayload_of h txs bs : traverse txFromBytes (tx_serialized <$> txs) = Ok txs → encodeAll (tx_serialized <$> txs) = Some bs →
  Z.of_nat (length txs) = bh_transactionsCount h → bh_payloadSize h = Z.of_nat (length bs) → wfPayload h txs ∧ bs = payloadBytes txs.
Proof.
  intros [_ Ht]%traverse_keeps [-> Hu]%encodeAll_payload Hc Hp. split; [| done]. split_and!; [done | done |]. apply Forall_and. by split.
Qed.

(** The transactions that follow a header. *)
Lemma parses_transactions h txs b b' : bb_ok b → deserializeTransactions h b = (Ok txs, b') → getRemainderLength b' = 0 →
  traverse txFromBytes (tx_serialized <$> txs) = Ok txs ∧ encodeAll (tx_serialized <$> txs) = Some (getRemainder b).
Proof.
  intros Hok (t & b1 & Hd & Hk)%M_bind_inv Hend. cbn [transactionsSchema] in Hd. apply deserialize_cons_inv in Hd as (v & b2 & Hv & Hd).
  injection Hd as <- <-. unfold readField in Hv. cbn [f_type field] in Hv. change (prop (headerProps h) "transactionsCount") with (VNumber (bh_transactionsCount h)) in Hv.
  apply M_bind_inv in Hv as (raws & b3 & Hraws & Hv). injection Hv as <- <-. destruct (parses_readN _ _ _ _ Hok Hraws) as (Hok3 & bs & Hr & _ & Henc).
  unfold prop in Hk. rewrite lookup_insert_eq in Hk. cbn [default] in Hk. apply liftR_inv in Hk as [Ht ->].
  destruct (traverse_keeps _ _ Ht) as [-> _]. split; [done |]. rewrite remainder_length in Hend by done.
  assert (getRemainder b3 = []) as Hnil by (destruct (getRemainder b3); [done | cbn in Hend; lia]). by rewrite Hr, Hnil, app_nil_r.
Qed.

Lemma block_read bs hd txs : deserializeWithTransactions bs = Ok (hd, txs) → Z.of_nat (length txs) = bh_transactionsCount (bh_raw hd) →
  wfHeader (bh_raw hd) ∧ wfPayload (bh_raw hd) txs ∧ bs = headerBytes (bh_raw hd) ++ payloadBytes txs ∧ makeHash (bh_raw hd) = Ok (bh_hash hd).
Proof.
  intros ([h txs'] & Hd & Hk)%bind_Ok Hcount. apply bind_Ok in Hk as (hash & Hhash & Hk). injection Hk as <- <-. cbn [bh_raw bh_hash] in *.
  apply M_bind_Ok in Hd as (h' & b1 & Hh & Hd). destruct (parses_header _ _ _ (fromBuffer_ok bs) Hh) as (Hwf & Hok1 & Hr & Hsize).
  apply M_bind_Ok in Hd as (n & b2 & Hn & Hd). injection Hn as <- <-. rewrite remainder_length in Hd by done.
  apply M_bind_Ok in Hd as (txs2 & b3 & Htxs & Hd). apply M_bind_Ok in Hd as (n & b4 & Hn & Hd). injection Hn as <- <-.
  destruct (Z.eqb_spec (getRemainderLength b3) 0) as [Hend|]; [| done]. injection Hd as -> ->. change (getRemainder (fromBuffer bs)) with bs in Hr.
  assert (traverse txFromBytes (tx_serialized <$> txs') = Ok txs' ∧ encodeAll (tx_serialized <$> txs') = Some (getRemainder b1)) as [Ht Henc].
  { destruct (Z.ltb_spec 0 (Z.of_nat (length (getRemainder b1)))); [by eapply parses_transactions |]. injection Htxs as <- <-.
    by destruct (getRemainder b1). }
  destruct (wfPayload_of h txs' _ Ht Henc Hcount Hsize) as [Hpay Hpb]. by rewrite Hr, Hpb.
Qed.

Context (roundValidatorsAt : option Z → Z) (isAddress : string → bool) (txSchemaValid : Transaction → bool).

Lemma newBlock_transactions data se txs : bt_transaction <$> b_transactions (newBlock data se txs) = txs.
Proof. by apply imap_fmap_id. Qed.

(** What a block that was read is made of. *)
Lemma blockFromBytes_inv bs b : blockFromBytes isAddress txSchemaValid bs = Ok b →
  ∃ hd txs, b = newBlock hd (hexEncode bs) txs ∧ wfHeader (bh_raw hd) ∧ wfPayload (bh_raw hd) txs ∧
    bs = headerBytes (bh_raw hd) ++ payloadBytes txs ∧ makeHash (bh_raw hd) = Ok (bh_hash hd).
Proof.
  intros ([hd txs] & Hd & Hb)%bind_Ok. destruct (blockSchemaValid _ _ hd txs) eqn:Hv; [| done]. injection Hb as <-. exists hd, txs. split; [done |].
  apply (block_read _ _ _ Hd). unfold blockSchemaValid in Hv. by apply andb_true_iff in Hv as [_ Hc%Z.eqb_eq].
Qed.

(** A commit proof that is read is what its bytes are written from. *)
Lemma commitProof_read bs p : Z.of_nat (length bs) = proofSize → deserializeCommitProof bs = Ok p → serializeCommitProof p = Ok bs.
Proof.
  intros Hlen. unfold deserializeCommitProof. destruct (deserialize _ _ _) as [[t|] b'] eqn:Hd; [| done]. destruct (Z.eqb_spec (getRemainderLength b') 0) as [Hend|]; [| done]. intros Hp.
  assert (Forall (λ p, selfDelimited p.2) commitProofSchema) as Hdel by by repeat constructor.
  destruct (parses_deserialize getAddress_toBytes commitProofSchema ∅ Hdel ltac:(by apply (bool_decide_eq_true_1 (NoDup _))) (fromBuffer bs) _ _ (fromBuffer_ok bs) Hd) as (Hok & bs' & Hr & Henc).
  rewrite remainder_length in Hend by done. assert (getRemainder b' = []) as Hnil by (destruct (getRemainder b'); [done | cbn in Hend; lia]).
  rewrite Hnil, app_nil_r in Hr. change (getRemainder (fromBuffer bs)) with bs in Hr. subst bs'.
  rewrite (encodeFields_ext _ _ (commitProofProps p)) in Henc by by apply commitProofOfProps_agree.
  by apply serialize_encodes.
Qed.

Lemma commitFromBytes_inv bs c : commitFromBytes roundValidatorsAt isAddress txSchemaValid bs = Ok c →
  ∃ proofBytes blockBytes, bs = proofBytes ++ blockBytes ∧ Z.of_nat (length proofBytes) = proofSize ∧
    deserializeCommitProof proofBytes = Ok (c_proof c) ∧ serializeCommitProof (c_proof c) = Ok proofBytes ∧
    blockFromBytes isAddress txSchemaValid blockBytes = Ok (c_block c) ∧ c_serialized c = hexEncode bs ∧
    commitProofSchemaValid roundValidatorsAt (b_number (c_block c)) (c_proof c) = true.
Proof.
  unfold commitFromBytes. intros (proofBytes & b1 & Hp & Hk)%M_bind_Ok.
  destruct (parses_readBytes proofSize ltac:(done) _ _ _ (fromBuffer_ok bs) Hp) as (Hok1 & bs' & Hr & <- & Hlen).
  apply M_bind_Ok in Hk as (p & b2 & Hpr & Hk). apply liftR_inv in Hpr as [Hpr ->]. apply M_bind_Ok in Hk as (rest & b3 & Hrest & Hk). injection Hrest as <- <-.
  apply M_bind_Ok in Hk as (block & b4 & Hb & Hk). apply liftR_inv in Hb as [Hb ->]. cbv zeta in Hk.
  destruct (commitSchemaValid roundValidatorsAt isAddress txSchemaValid (mkCommit block p (hexEncode bs))) eqn:Hv; [| done]. injection Hk as <-. exists proofBytes, (getRemainder b1). split_and!; [exact Hr | exact Hlen | exact Hpr | by apply commitProof_read | done | done |].
  unfold commitSchemaValid in Hv. apply andb_true_iff in Hv as [Hv _]. by apply andb_true_iff in Hv as [_ Hv].
Qed.

(** C18. No two byte strings stand for the same commit: the bytes that the factory
    accepts are the bytes that the serializers write for the commit that it returns,
    the proof and the block alike, over the bytes of the transactions. *)
Theorem commit_bytes_canonical bs c : commitFromBytes roundValidatorsAt isAddress txSchemaValid bs = Ok c →
  serializeCommit (c_block c) (c_proof c) = Ok bs ∧ c_serialized c = hexEncode bs ∧
  hexEncode <$> serializeWithTransactions (b_raw (c_block c)) (bt_transaction <$> b_transactions (c_block c)) = Ok (b_serialized (c_block c)) ∧
  makeHash (b_raw (c_block c)) = Ok (b_hash (c_block c)).
Proof.
  intros (proofBytes & blockBytes & -> & _ & _ & Hp & Hb & Hs & _)%commitFromBytes_inv. destruct (blockFromBytes_inv _ _ Hb) as (hd & txs & Heq & Hwf & Hpay & Hbytes & Hhash).
  rewrite Heq, newBlock_transactions. cbn [b_serialized newBlock]. split_and!; [| done | | exact Hhash].
  - unfold serializeCommit. rewrite Hp. cbn. by rewrite hexDecode_Encode.
  - change (b_raw (newBlock hd (hexEncode blockBytes) txs)) with (bh_raw hd). destruct Hpay as (Hc & Hps & Htx). rewrite write_block; [cbn; by rewrite Hbytes | done | done | by eapply (wfPayload_uint (bh_raw hd)) | lia].
Qed.
End wire.
