(* ===== verification/Rlp.v ===== *)
(** * RLP: the byte format of transactions

    The decoder that packages/crypto-transaction/source/deserializer.ts writes out,
    with the arithmetic of JavaScript: [<<] and [|] work on 32-bit signed integers.
    Beside it the encoding of Ethereum's yellow paper ([rlpString], [rlpList]), which
    viem's [toRlp] implements, and how the two are related. *)
From S2P Require Import Prelude Bytes.

(** ** Integers *)

(** JavaScript's [ToInt32]. *)
Definition toInt32 (z : Z) : Z := (z + 2 ^ 31) mod 2 ^ 32 - 2 ^ 31.

(** The shortest big-endian form; that of zero is empty. *)
Definition byteLength (z : Z) : nat := if z <=? 0 then O else Z.to_nat (Z.log2 z / 8 + 1).
Definition beMin (z : Z) : list byte := be_encode (byteLength z) z.

(** ** deserializer.ts *)
Definition buffer_length (buffer : list byte) : Z := Z.of_nat (length buffer).
Definition subarray (buffer : list byte) (start end_ : Z) : list byte :=
  take (Z.to_nat (end_ - start)) (drop (Z.to_nat start) buffer).
Definition byteAt (buffer : list byte) (index : Z) : Z := Z_of_byte (default x00 (buffer !! Z.to_nat index)).

(** The loop over the bytes of a length: [(length << 8) | v]. *)
Definition foldLength (bytes : list byte) : Z :=
  foldl (λ length v, Z.lor (toInt32 (Z.shiftl length 8)) (Z_of_byte v)) 0 bytes.
Definition leadingZero (lengthOfLength : Z) (bytes : list byte) : bool :=
  (1 <? lengthOfLength) && match bytes with v :: _ => Z_of_byte v =? 0 | [] => false end.

Definition decodeListBounds (buffer : list byte) : result (Z * Z) :=
  if buffer_length buffer =? 0 then Throw (JSError "decode RLP empty buffer")
  else
    let prefix := byteAt buffer 0 in
    if (192 <=? prefix) && (prefix <=? 247) then
      let length := prefix - 192 in
      let end_ := 1 + length in
      if buffer_length buffer <? end_ then Throw (JSError "decode RLP truncated short list") else Ok (1, end_)
    else if (248 <=? prefix) && (prefix <=? 255) then
      let lengthOfLength := prefix - 247 in
      if buffer_length buffer <? 1 + lengthOfLength then Throw (JSError "decode RLP truncated length-of-length")
      else
        let bytes := subarray buffer 1 (1 + lengthOfLength) in
        if leadingZero lengthOfLength bytes then Throw (JSError "decode RLP leading zero in length")
        else
          let length := foldLength bytes in
          if length <? 56 then Throw (JSError "decode RLP non-minimal long list")
          else
            let start := 1 + lengthOfLength in
            let end_ := start + length in
            if buffer_length buffer <? end_ then Throw (JSError "decode RLP truncated long list") else Ok (start, end_)
    else Throw (JSError "decode RLP not a list").

Definition readLength (buffer : list byte) (offset lengthOfLength : Z) : result (Z * Z) :=
  if (lengthOfLength <? 1) || (8 <? lengthOfLength) then Throw (JSError "decode RLP invalid length-of-length")
  else if buffer_length buffer <? offset + lengthOfLength then Throw (JSError "decode RLP truncated length")
  else
    let bytes := subarray buffer offset (offset + lengthOfLength) in
    if leadingZero lengthOfLength bytes then Throw (JSError "decode RLP leading zero in length")
    else Ok (foldLength bytes, offset + lengthOfLength).

(** The bytes that the item's hexadecimal text stands for, and the next offset. *)
Definition decodeItem (buffer : list byte) (offset : Z) : result (list byte * Z) :=
  if buffer_length buffer <=? offset then Throw (JSError "decode RLP oob")
  else
    let p := byteAt buffer offset in
    if p <=? 127 then Ok (subarray buffer offset (offset + 1), offset + 1)
    else if p <=? 183 then
      let length := p - 128 in
      let start := offset + 1 in
      let end_ := start + length in
      if buffer_length buffer <? end_ then Throw (JSError "decode RLP truncated short str")
      else if (length =? 1) && (byteAt buffer start <? 128) then Throw (JSError "decode RLP non-minimal short str")
      else Ok (subarray buffer start end_, end_)
    else if p <=? 191 then
      '(len, next) ← readLength buffer (offset + 1) (p - 183);
      if len <? 56 then Throw (JSError "decode RLP non-minimal long str")
      else
        let end_ := next + len in
        if buffer_length buffer <? end_ then Throw (JSError "decode RLP truncated long str")
        else Ok (subarray buffer next end_, end_)
    else Throw (JSError "decode RLP list prefix inside item (unexpected for legacy flat fields)").

(** The loop of [deserialize]; at most eleven fields are read. *)
Fixpoint decodeFields (fuel : nat) (buffer : list byte) (end_ offset : Z) (fields : list (list byte)) : result (list (list byte) * Z) :=
  if negb (offset <? end_) then Ok (fields, offset)
  else match fuel with
       | O => Throw OutOfFuel
       | S fuel' =>
           if (10 <? length fields)%nat then Throw (JSError "decoded RLP contains too many fields")
           else
             '(field, next) ← decodeItem buffer offset;
             decodeFields fuel' buffer end_ next (fields ++ [field])
       end.

(** [deserialize] up to the fields. *)
Definition decodeRlp (serialized : list byte) : result (list (list byte)) :=
  '(start, end_) ← decodeListBounds serialized;
  guardR (end_ =? buffer_length serialized) (JSError "decoded RLP contains trailing bytes");;
  '(fields, offset) ← decodeFields 12 serialized end_ start [];
  guardR (offset =? buffer_length serialized) (JSError "decoded RLP not exhausted");;
  guardR (9 <=? length fields)%nat (JSError "decoded RLP contains too few fields");;
  Ok fields.

(** ** The yellow paper *)
Definition rlpLength (short long : Z) (n : nat) : list byte :=
  if (n <? 56)%nat then [byte_of_Z (short + Z.of_nat n)]
  else byte_of_Z (long + Z.of_nat (byteLength (Z.of_nat n))) :: beMin (Z.of_nat n).
Definition rlpString (b : list byte) : list byte :=
  match b with
  | [x] => if Z_of_byte x <? 128 then [x] else rlpLength 128 183 1 ++ b
  | _ => rlpLength 128 183 (length b) ++ b
  end.
Definition rlpPayload (items : list (list byte)) : list byte := concat (rlpString <$> items).
Definition rlpList (items : list (list byte)) : list byte :=
  rlpLength 192 247 (length (rlpPayload items)) ++ rlpPayload items.

(** ** Lengths *)
Lemma pow256 n : 256 ^ Z.of_nat n = 2 ^ (8 * Z.of_nat n).
Proof. by rewrite Z.pow_mul_r by lia. Qed.

Lemma byteLength_bounds m : 0 < m → 256 ^ (Z.of_nat (byteLength m) - 1) ≤ m < 256 ^ Z.of_nat (byteLength m).
Proof.
  intros Hm. unfold byteLength. rewrite (proj2 (Z.leb_gt _ _)) by done. pose proof (Z.log2_nonneg m) as Hl. pose proof (Z.log2_spec m Hm) as [H1 H2].
  pose proof (Z.div_pos (Z.log2 m) 8 Hl ltac:(lia)) as Hd. pose proof (Z.div_mod (Z.log2 m) 8 ltac:(lia)) as Hdm.
  pose proof (Z.mod_pos_bound (Z.log2 m) 8 ltac:(lia)) as Hb. rewrite Z2Nat.id by lia. change 256 with (2 ^ 8). rewrite <- !Z.pow_mul_r by lia. split.
  - etrans; [| exact H1]. apply Z.pow_le_mono_r; lia.
  - eapply Z.lt_le_trans; [exact H2 |]. apply Z.pow_le_mono_r; lia.
Qed.

Lemma byteLength_le m n : m < 256 ^ Z.of_nat n → (byteLength m ≤ n)%nat.
Proof.
  intros Hm. unfold byteLength. destruct (Z.leb_spec m 0); [lia |]. rewrite pow256 in Hm. apply Z.log2_lt_pow2 in Hm; [| done].
  pose proof (Z.log2_nonneg m). assert (Z.log2 m / 8 < Z.of_nat n) by (apply Z.div_lt_upper_bound; lia).
  pose proof (Z.div_pos (Z.log2 m) 8 ltac:(lia) ltac:(lia)). lia.
Qed.

Lemma byteLength_unique m n : 256 ^ (Z.of_nat n - 1) ≤ m < 256 ^ Z.of_nat n → (0 < n)%nat → byteLength m = n.
Proof.
  intros [Hlo Hhi] Hn. assert (0 < m) as Hm by (eapply Z.lt_le_trans; [| exact Hlo]; apply Z.pow_pos_nonneg; lia).
  apply Nat.le_antisymm; [by apply byteLength_le |]. pose proof (byteLength_bounds m Hm) as [_ Hb].
  destruct (Nat.le_gt_cases n (byteLength m)) as [|Hlt]; [done |]. exfalso.
  assert (256 ^ Z.of_nat (byteLength m) ≤ 256 ^ (Z.of_nat n - 1)) by (apply Z.pow_le_mono_r; lia). lia.
Qed.

Lemma be_decode_bounds bs : 0 ≤ be_decode bs < 256 ^ Z.of_nat (length bs).
Proof. unfold be_decode. rewrite <- length_reverse. apply le_decode_bounds. Qed.

Lemma be_decode_snoc bs v : be_decode (bs ++ [v]) = 256 * be_decode bs + Z_of_byte v.
Proof. unfold be_decode. rewrite reverse_app. cbn. lia. Qed.

Lemma be_decode_cons v bs : be_decode (v :: bs) = Z_of_byte v * 256 ^ Z.of_nat (length bs) + be_decode bs.
Proof.
  induction bs as [|w bs IH] using rev_ind; [cbn; lia |]. rewrite app_comm_cons, !be_decode_snoc, IH, length_app. cbn [length].
  rewrite Nat2Z.inj_add, Z.pow_add_r by lia. change (256 ^ Z.of_nat 1) with 256. lia.
Qed.

(** Without a leading zero the bytes are the shortest. *)
Lemma beMin_decode v bs : Z_of_byte v ≠ 0 → beMin (be_decode (v :: bs)) = v :: bs.
Proof.
  intros Hv. unfold beMin. rewrite (byteLength_unique _ (length (v :: bs))); [apply be_encode_decode | | cbn; lia].
  split; [| apply be_decode_bounds]. rewrite be_decode_cons. pose proof (be_decode_bounds bs). pose proof (Z_of_byte_range v).
  cbn [length]. rewrite Nat2Z.inj_succ, <- Z.pred_succ at 1. replace (Z.succ (Z.of_nat (length bs)) - 1) with (Z.of_nat (length bs)) by lia. nia.
Qed.

Lemma length_beMin m : length (beMin m) = byteLength m.
Proof. apply length_be_encode. Qed.

Lemma be_decode_beMin m : 0 ≤ m → be_decode (beMin m) = m.
Proof.
  intros Hm. destruct (decide (m = 0)) as [->|]; [done |]. apply be_decode_encode. pose proof (byteLength_bounds m ltac:(lia)). lia.
Qed.

Lemma beMin_head m : 0 < m → ∃ v bs, beMin m = v :: bs ∧ Z_of_byte v ≠ 0.
Proof.
  intros Hm. pose proof (byteLength_bounds m Hm) as [Hlo Hhi]. pose proof (be_decode_beMin m ltac:(lia)) as Hd. pose proof (length_beMin m) as Hl.
  destruct (beMin m) as [|v bs]; [cbn in Hd; lia |]. exists v, bs. split; [done |]. intros Hz. rewrite be_decode_cons, Hz in Hd.
  pose proof (be_decode_bounds bs). cbn [length] in Hl. rewrite <- Hl in Hlo. replace (Z.of_nat (S (length bs)) - 1) with (Z.of_nat (length bs)) in Hlo by lia. lia.
Qed.

(** The loop computes the value modulo 2^32. *)
Lemma lor_low k v : 0 ≤ v < 256 → Z.lor (256 * k) v = 256 * k + v.
Proof.
  intros Hv. assert (Z.land (256 * k) v = 0) as Hland.
  { apply Z.bits_inj'. intros n Hn. rewrite Z.land_spec, Z.bits_0, Z.mul_comm. change 256 with (2 ^ 8).
    destruct (Z.lt_ge_cases n 8); [by rewrite Z.mul_pow2_bits_low | rewrite (testbit_high v 8), andb_false_r; [done | done | lia]]. }
  rewrite <- Z.lxor_lor by done. by rewrite <- Z.add_nocarry_lxor.
Qed.

Lemma toInt32_mod z : toInt32 z mod 2 ^ 32 = z mod 2 ^ 32.
Proof. unfold toInt32. rewrite <- Zminus_mod_idemp_l, Z.mod_mod, Zminus_mod_idemp_l by lia. f_equal. lia. Qed.

Lemma toInt32_congr a b : a mod 2 ^ 32 = b mod 2 ^ 32 → toInt32 a = toInt32 b.
Proof. intros Hab. unfold toInt32. by rewrite <- Zplus_mod_idemp_l, Hab, Zplus_mod_idemp_l. Qed.

Lemma toInt32_shift x v : 0 ≤ v < 256 → Z.lor (toInt32 (256 * x)) v = toInt32 (256 * x + v).
Proof.
  intros Hv. pose proof (Z.div_mod (x + 2 ^ 23) (2 ^ 24) ltac:(lia)) as Hx. pose proof (Z.mod_pos_bound (x + 2 ^ 23) (2 ^ 24) ltac:(lia)) as Hr.
  assert (∀ d, 0 ≤ d < 256 → toInt32 (256 * x + d) = 256 * ((x + 2 ^ 23) mod 2 ^ 24 - 2 ^ 23) + d) as Hgen.
  { intros d Hd. unfold toInt32. rewrite <- (Z.mod_unique (256 * x + d + 2 ^ 31) (2 ^ 32) ((x + 2 ^ 23) / 2 ^ 24) (256 * ((x + 2 ^ 23) mod 2 ^ 24) + d)); lia. }
  rewrite Hgen, <- lor_low by done. f_equal. rewrite <- (Z.add_0_r (256 * x)), Hgen; lia.
Qed.

Lemma foldLength_spec bs : foldLength bs = toInt32 (be_decode bs).
Proof.
  induction bs as [|v bs IH] using rev_ind; [done |]. unfold foldLength in *. rewrite foldl_app. cbn [foldl]. rewrite IH, be_decode_snoc.
  pose proof (Z_of_byte_range v). rewrite Z.shiftl_mul_pow2, Z.mul_comm by lia. change (2 ^ 8) with 256.
  rewrite <- toInt32_shift by done. f_equal. apply toInt32_congr. rewrite <- Zmult_mod_idemp_r, toInt32_mod. apply Zmult_mod_idemp_r.
Qed.

Lemma toInt32_small z : 0 ≤ z < 2 ^ 31 → toInt32 z = z.
Proof. intros Hz. unfold toInt32. rewrite Z.mod_small; lia. Qed.

Lemma toInt32_pos z : 0 ≤ z → 0 ≤ toInt32 z → toInt32 z ≤ z ∧ toInt32 z < 2 ^ 31 ∧ (z < 2 ^ 32 → toInt32 z = z).
Proof.
  unfold toInt32. intros Hz Hp. pose proof (Z.mod_pos_bound (z + 2 ^ 31) (2 ^ 32) ltac:(lia)). pose proof (Z.div_mod (z + 2 ^ 31) (2 ^ 32) ltac:(lia)) as Hd.
  pose proof (Z.div_pos (z + 2 ^ 31) (2 ^ 32) ltac:(lia) ltac:(lia)). split_and!; [| lia | intros Hlt].
  - nia.
  - assert ((z + 2 ^ 31) / 2 ^ 32 < 2) by (apply Z.div_lt_upper_bound; lia). nia.
Qed.

(** A long length that was accepted. *)
Lemma long_length bs m :
  leadingZero (Z.of_nat (length bs)) bs = false → foldLength bs = m → 56 ≤ m →
  m < 2 ^ 31 ∧ (byteLength m ≤ length bs)%nat ∧ (length bs = byteLength m → bs = beMin m).
Proof.
  intros Hlead Hfold Hm. rewrite foldLength_spec in Hfold. pose proof (be_decode_bounds bs) as Hb.
  destruct (toInt32_pos (be_decode bs)) as (Hle & Hlt & Heq); [lia | lia |]. rewrite Hfold in Hle, Hlt, Heq.
  split; [done |]. split; [apply byteLength_le; lia |]. intros Hlen.
  assert (length bs ≤ 4)%nat as H4 by (rewrite Hlen; apply byteLength_le; change (256 ^ Z.of_nat 4) with (2 ^ 32); lia).
  assert (be_decode bs = m) as Hdec.
  { symmetry. apply Heq. eapply Z.lt_le_trans; [apply Hb |]. change (2 ^ 32) with (256 ^ 4). apply Z.pow_le_mono_r; lia. }
  rewrite <- Hdec. destruct bs as [|v bs]; [cbn in Hdec; lia |]. destruct (decide (Z_of_byte v = 0)) as [Hz|Hz]; [| by rewrite beMin_decode].
  unfold leadingZero in Hlead. rewrite Hz in Hlead. cbn in Hlead. rewrite andb_true_r in Hlead. apply Z.ltb_ge in Hlead.
  destruct bs; [cbn in *; lia | cbn in Hlead; lia].
Qed.

Lemma long_length_beMin m : 56 ≤ m < 2 ^ 31 →
  leadingZero (Z.of_nat (byteLength m)) (beMin m) = false ∧ foldLength (beMin m) = m ∧ (1 ≤ byteLength m ≤ 4)%nat.
Proof.
  intros Hm. destruct (beMin_head m) as (v & bs & Hbs & Hv); [lia |]. split_and!.
  - unfold leadingZero. rewrite Hbs, (proj2 (Z.eqb_neq _ _)) by done. apply andb_false_r.
  - rewrite foldLength_spec, be_decode_beMin by lia. apply toInt32_small. lia.
  - rewrite <- length_beMin, Hbs. cbn. lia.
  - apply byteLength_le. change (256 ^ Z.of_nat 4) with (2 ^ 32). lia.
Qed.

(** ** Slices *)
Lemma subarray_app pre mid post n m : n = Z.of_nat (length pre) → m = n + Z.of_nat (length mid) →
  subarray (pre ++ mid ++ post) n m = mid.
Proof.
  intros -> ->. unfold subarray. replace (Z.to_nat (Z.of_nat (length pre) + Z.of_nat (length mid) - Z.of_nat (length pre))) with (length mid) by lia.
  rewrite Nat2Z.id, drop_app_length. apply take_app_length.
Qed.

Lemma subarray_split buffer n m : 0 ≤ n ≤ m → m ≤ buffer_length buffer →
  ∃ pre post, buffer = pre ++ subarray buffer n m ++ post ∧ Z.of_nat (length pre) = n ∧ Z.of_nat (length (subarray buffer n m)) = m - n.
Proof.
  intros Hn Hm. unfold buffer_length in Hm. exists (take (Z.to_nat n) buffer), (drop (Z.to_nat (m - n)) (drop (Z.to_nat n) buffer)). unfold subarray.
  rewrite take_drop, take_drop, !length_take, length_drop. split_and!; [done | lia | lia].
Qed.

Lemma byteAt_app pre x post n : n = Z.of_nat (length pre) → byteAt (pre ++ x :: post) n = Z_of_byte x.
Proof. intros ->. unfold byteAt. by rewrite Nat2Z.id, list_lookup_middle. Qed.

Lemma buffer_length_app a b : buffer_length (a ++ b) = buffer_length a + buffer_length b.
Proof. unfold buffer_length. rewrite length_app. lia. Qed.

Lemma subarray_cons pre x post n m : n = Z.of_nat (length pre) → n < m → subarray (pre ++ x :: post) n m = x :: subarray (pre ++ x :: post) (n + 1) m.
Proof.
  intros -> Hm. unfold subarray. rewrite Nat2Z.id, drop_app_length.
  replace (Z.to_nat (m - Z.of_nat (length pre))) with (S (Z.to_nat (m - (Z.of_nat (length pre) + 1)))) by lia. cbn [take]. f_equal. f_equal.
  replace (Z.to_nat (Z.of_nat (length pre) + 1)) with (S (length pre)) by lia. rewrite (cons_middle x pre post : pre ++ x :: post = pre ++ [x] ++ post).
  by rewrite app_assoc, drop_app_length' by (rewrite length_app; cbn; lia).
Qed.

Lemma subarray_join buffer n k m : 0 ≤ n ≤ k → k ≤ m → subarray buffer n m = subarray buffer n k ++ subarray buffer k m.
Proof.
  intros Hn Hk. unfold subarray. replace (Z.to_nat (m - n)) with (Z.to_nat (k - n) + Z.to_nat (m - k))%nat by lia.
  rewrite <- take_take_drop. f_equal. rewrite drop_drop. f_equal. f_equal. lia.
Qed.

Lemma length_subarray buffer n m : 0 ≤ n ≤ m → m ≤ buffer_length buffer → Z.of_nat (length (subarray buffer n m)) = m - n.
Proof. intros Hn Hm. by destruct (subarray_split buffer n m Hn Hm) as (? & ? & ? & ? & ?). Qed.

Lemma subarray_one buffer n : 0 ≤ n < buffer_length buffer → ∃ x, subarray buffer n (n + 1) = [x] ∧ byteAt buffer n = Z_of_byte x.
Proof.
  intros Hn. destruct (subarray_split buffer n (n + 1)) as (pre & post & Hb & Hp & Hl); [lia | lia |].
  destruct (subarray buffer n (n + 1)) as [|x [|y l]]; cbn in Hl; [lia | | lia]. exists x. split; [done |]. rewrite Hb. by apply byteAt_app.
Qed.

(** ** Items *)
Lemma length_rlpLength short long n : length (rlpLength short long n) = (if (n <? 56)%nat then 1 else S (byteLength (Z.of_nat n)))%nat.
Proof. unfold rlpLength. destruct (n <? 56)%nat; [done |]. cbn. by rewrite length_beMin. Qed.

Lemma rlpString_long b : (56 ≤ length b)%nat → rlpString b = rlpLength 128 183 (length b) ++ b.
Proof. destruct b as [|x [|y b]]; cbn; [lia | lia | done]. Qed.

Lemma Z_of_prefix p : 0 ≤ p < 256 → Z_of_byte (byte_of_Z p) = p.
Proof. intros Hp. rewrite Z_of_byte_of_Z. by apply Z.mod_small. Qed.

(** An item is read from the bytes at its offset, wherever they stand. *)
Lemma slice_in pre x mid b post off : off = Z.of_nat (length pre) →
  let buf := pre ++ (x :: mid ++ b) ++ post in let s := off + 1 + Z.of_nat (length mid) in
  byteAt buf off = Z_of_byte x ∧ subarray buf (off + 1) s = mid ∧ subarray buf s (s + Z.of_nat (length b)) = b ∧
  buffer_length buf = s + Z.of_nat (length b) + Z.of_nat (length post).
Proof.
  intros -> buf s. assert (buf = (pre ++ [x]) ++ mid ++ b ++ post) as H1 by (unfold buf; rewrite <- !app_assoc; cbn; by rewrite <- app_assoc).
  split_and!.
  - unfold buf. cbn [app]. by apply byteAt_app.
  - rewrite H1. apply subarray_app; [rewrite length_app; cbn; lia | unfold s; lia].
  - rewrite H1, app_assoc. apply subarray_app; [rewrite !length_app; unfold s; cbn; lia | lia].
  - rewrite H1. unfold buffer_length. rewrite !length_app. unfold s. cbn. lia.
Qed.

Lemma decodeItem_one pre x post : Z_of_byte x < 128 →
  decodeItem (pre ++ [x] ++ post) (Z.of_nat (length pre)) = Ok ([x], Z.of_nat (length pre) + 1).
Proof.
  intros Hx. unfold decodeItem. rewrite (proj2 (Z.leb_gt _ _)) by (unfold buffer_length; rewrite !length_app; cbn; lia). cbn [app].
  rewrite byteAt_app, (proj2 (Z.leb_le _ _)) by (done || lia). by rewrite (subarray_app pre [x] post).
Qed.

Lemma decodeItem_short pre b post : (length b < 56)%nat → (∀ x, b = [x] → 128 ≤ Z_of_byte x) →
  decodeItem (pre ++ (rlpLength 128 183 (length b) ++ b) ++ post) (Z.of_nat (length pre)) = Ok (b, Z.of_nat (length pre) + 1 + Z.of_nat (length b)).
Proof.
  intros Hs Hx. unfold rlpLength. rewrite (proj2 (Nat.ltb_lt _ _)) by done. set (p := byte_of_Z (128 + Z.of_nat (length b))).
  destruct (slice_in pre p [] b post _ eq_refl) as (Hat & _ & Hsub & Hlen). cbn [length app] in *. rewrite Z.add_0_r in *. set (off := Z.of_nat (length pre)) in *.
  set (buf := pre ++ p :: b ++ post) in *. unfold decodeItem. rewrite Hlen, (proj2 (Z.leb_gt _ _)), Hat by lia. unfold p. rewrite Z_of_prefix by lia.
  rewrite (proj2 (Z.leb_gt _ 127)), (proj2 (Z.leb_le _ 183)) by lia. cbv zeta. replace (128 + Z.of_nat (length b) - 128) with (Z.of_nat (length b)) by lia.
  rewrite (proj2 (Z.ltb_ge _ _)), Hsub by lia.
  assert ((Z.of_nat (length b) =? 1) && (byteAt buf (off + 1) <? 128) = false) as ->; [| done]. apply andb_false_iff.
  destruct b as [|x [|y b]]; [by left | right | left; apply Z.eqb_neq; cbn; lia]. apply Z.ltb_ge. etrans; [by apply Hx |]. unfold buf.
  rewrite (app_assoc pre [p] ([x] ++ post) : pre ++ p :: [x] ++ post = _). cbn [app]. rewrite byteAt_app by (rewrite length_app; cbn; lia). lia.
Qed.

Lemma decodeItem_long pre b post : 56 ≤ Z.of_nat (length b) < 2 ^ 31 →
  decodeItem (pre ++ (rlpLength 128 183 (length b) ++ b) ++ post) (Z.of_nat (length pre)) =
    Ok (b, Z.of_nat (length pre) + 1 + Z.of_nat (byteLength (Z.of_nat (length b))) + Z.of_nat (length b)).
Proof.
  intros Hb. destruct (long_length_beMin (Z.of_nat (length b)) Hb) as (Hlead & Hfold & Hk). unfold rlpLength. rewrite (proj2 (Nat.ltb_ge _ _)) by lia.
  destruct (slice_in pre (byte_of_Z (183 + Z.of_nat (byteLength (Z.of_nat (length b))))) (beMin (Z.of_nat (length b))) b post _ eq_refl) as (Hat & Hs1 & Hs2 & Hlen).
  rewrite length_beMin in *. set (k := byteLength (Z.of_nat (length b))) in *. set (off := Z.of_nat (length pre)) in *.
  cbn [app] in *. set (buf := pre ++ _ :: _) in *. unfold decodeItem. rewrite Hlen, (proj2 (Z.leb_gt _ _)), Hat, Z_of_prefix by lia.
  rewrite (proj2 (Z.leb_gt _ 127)), (proj2 (Z.leb_gt _ 183)), (proj2 (Z.leb_le _ 191)) by lia. replace (183 + Z.of_nat k - 183) with (Z.of_nat k) by lia.
  unfold readLength. rewrite (proj2 (Z.ltb_ge _ 1)), (proj2 (Z.ltb_ge 8 _)) by lia. cbn [orb]. rewrite Hlen, (proj2 (Z.ltb_ge _ _)), Hs1, Hlead, Hfold by lia.
  cbn [mbind result_bind]. by rewrite (proj2 (Z.ltb_ge _ 56)), (proj2 (Z.ltb_ge _ _)), Hs2 by lia.
Qed.

Lemma decodeItem_encode pre b post : Z.of_nat (length b) < 2 ^ 31 →
  decodeItem (pre ++ rlpString b ++ post) (Z.of_nat (length pre)) = Ok (b, Z.of_nat (length pre) + Z.of_nat (length (rlpString b))).
Proof.
  intros Hb. assert ((∃ x, b = [x] ∧ Z_of_byte x < 128 ∧ rlpString b = [x]) ∨
    rlpString b = rlpLength 128 183 (length b) ++ b ∧ (∀ x, b = [x] → 128 ≤ Z_of_byte x)) as [(x & -> & Hx & ->)|[-> Hx]].
  { destruct b as [|x [|y b]]; [by right | | by right]. cbn. destruct (Z.ltb_spec (Z_of_byte x) 128); [left; by exists x | right].
    split; [done |]. by intros y [= <-]. }
  - by rewrite decodeItem_one.
  - rewrite length_app, length_rlpLength. destruct (Nat.ltb_spec (length b) 56).
    + rewrite decodeItem_short by done. do 2 f_equal. lia.
    + rewrite decodeItem_long by lia. do 2 f_equal. lia.
Qed.

(** What an accepted item is: at least as long as the encoding of the string it
    stands for, and that encoding if it is as long. *)
Definition encodes (item b : list byte) : Prop :=
  Z.of_nat (length b) < 2 ^ 31 ∧ (length (rlpString b) ≤ length item)%nat ∧ (length item = length (rlpString b) → item = rlpString b).

Lemma encodes_self b : Z.of_nat (length b) < 2 ^ 31 → encodes (rlpString b) b.
Proof. by intros. Qed.

Lemma encodes_long x bs b :
  Z_of_byte x = 183 + Z.of_nat (length bs) → leadingZero (Z.of_nat (length bs)) bs = false → foldLength bs = Z.of_nat (length b) →
  56 ≤ Z.of_nat (length b) → encodes (x :: bs ++ b) b.
Proof.
  intros Hx Hlead Hfold Hb. destruct (long_length bs (Z.of_nat (length b)) Hlead Hfold Hb) as (Hlt & Hle & Heq). split; [done |].
  rewrite rlpString_long by lia. cbn [length]. rewrite !length_app, length_rlpLength, (proj2 (Nat.ltb_ge _ _)) by lia.
  split; [lia |]. intros Hlen. assert (length bs = byteLength (Z.of_nat (length b))) as Hl by lia.
  unfold rlpLength. rewrite (proj2 (Nat.ltb_ge _ _)) by lia. cbn. by rewrite <- Hl, <- Hx, byte_of_Z_of_byte, <- (Heq Hl).
Qed.

Lemma decodeItem_inv buffer offset b next : 0 ≤ offset → decodeItem buffer offset = Ok (b, next) →
  offset < next ≤ buffer_length buffer ∧ encodes (subarray buffer offset next) b.
Proof.
  intros Hoff. unfold decodeItem. destruct (Z.leb_spec (buffer_length buffer) offset) as [|Hin]; [done |].
  destruct (subarray_one buffer offset) as (x & Hx & ->); [lia |]. destruct (Z.leb_spec (Z_of_byte x) 127).
  { intros [= <- <-]. split; [lia |]. rewrite Hx. split; [cbn; lia |]. cbn. rewrite (proj2 (Z.ltb_lt _ _)) by lia. done. }
  destruct (Z.leb_spec (Z_of_byte x) 183).
  - cbv zeta. set (n := Z_of_byte x - 128). destruct (Z.ltb_spec (buffer_length buffer) (offset + 1 + n)) as [|Hend]; [done |].
    destruct ((n =? 1) && (byteAt buffer (offset + 1) <? 128)) eqn:Hone; [done |]. intros [= Hb Hnext]. rewrite <- Hnext. split; [lia |].
    pose proof (length_subarray buffer (offset + 1) (offset + 1 + n)) as Hl. specialize (Hl ltac:(lia) ltac:(lia)).
    rewrite (subarray_join buffer offset (offset + 1)), Hx by lia. rewrite Hb in *. clear next Hnext.
    assert (rlpString b = rlpLength 128 183 (length b) ++ b) as Hstr.
    { destruct b as [|y [|z b]]; cbn; [done | | done]. destruct (Z.ltb_spec (Z_of_byte y) 128) as [Hlt|]; [exfalso | done].
      cbn in Hl. assert (n = 1) as Hn by lia. destruct (subarray_one buffer (offset + 1)) as (y' & Hy & Hat); [lia |].
      rewrite Hn, Z.eqb_refl, Hat in Hone. cbn in Hone. rewrite Hn, Hy in Hb. injection Hb as ->. apply Z.ltb_ge in Hone. lia. }
    pose proof (Z_of_byte_range x). split; [lia |]. assert ([x] ++ b = rlpString b) as ->; [| by split].
    rewrite Hstr. unfold rlpLength. rewrite (proj2 (Nat.ltb_lt _ _)) by lia. replace (128 + Z.of_nat (length b)) with (Z_of_byte x) by lia.
    by rewrite byte_of_Z_of_byte.
  - destruct (Z.leb_spec (Z_of_byte x) 191); [| done]. unfold readLength. set (n := Z_of_byte x - 183).
    rewrite (proj2 (Z.ltb_ge n 1)), (proj2 (Z.ltb_ge 8 n)) by lia. cbn [orb].
    destruct (Z.ltb_spec (buffer_length buffer) (offset + 1 + n)) as [|Hend]; [done |].
    pose proof (length_subarray buffer (offset + 1) (offset + 1 + n) ltac:(lia) ltac:(lia)) as Hl. set (bs := subarray buffer (offset + 1) (offset + 1 + n)) in *.
    destruct (leadingZero n bs) eqn:Hlead; [done |]. cbn [mbind result_bind]. destruct (Z.ltb_spec (foldLength bs) 56) as [|Hlong]; [done |].
    destruct (Z.ltb_spec (buffer_length buffer) (offset + 1 + n + foldLength bs)) as [|Hend2]; [done |]. intros [= <- <-]. split; [lia |].
    pose proof (length_subarray buffer (offset + 1 + n) (offset + 1 + n + foldLength bs) ltac:(lia) ltac:(lia)) as Hl2.
    rewrite (subarray_join buffer offset (offset + 1)), (subarray_join buffer (offset + 1) (offset + 1 + n)), Hx by lia. fold bs.
    apply (encodes_long x bs); [lia | by replace (Z.of_nat (length bs)) with n by lia | lia | lia].
Qed.

(** ** Lists *)
Lemma decodeFields_inv fuel buffer end_ : ∀ offset fields all next,
  0 ≤ offset → decodeFields fuel buffer end_ offset fields = Ok (all, next) → end_ ≤ buffer_length buffer →
  offset ≤ buffer_length buffer →
  ∃ more items, all = fields ++ more ∧ offset ≤ next ≤ buffer_length buffer ∧ Forall2 encodes items more ∧
    subarray buffer offset next = concat items ∧ (length all ≤ 11 ∨ more = [])%nat.
Proof.
  induction fuel as [|fuel IH]; intros offset fields all next Hoff Hrun Hend Hle; cbn [decodeFields] in Hrun; destruct (negb (offset <? end_)) eqn:Hdone.
  1, 3: injection Hrun as <- <-; exists [], []; rewrite app_nil_r; split_and!; [done | lia | lia | constructor | | by right];
    unfold subarray; by rewrite Z.sub_diag.
  - done.
  - destruct (Nat.ltb_spec 10 (length fields)) as [|Hn]; [done |]. apply bind_Ok in Hrun as ([field next'] & Hitem & Hrun).
    destruct (decodeItem_inv _ _ _ _ Hoff Hitem) as [Hb He]. destruct (IH next' (fields ++ [field]) all next ltac:(lia) Hrun Hend ltac:(lia)) as (more & items & -> & Hnext & Hall & Hsub & Hlen).
    exists (field :: more), (subarray buffer offset next' :: items). split_and!; [by rewrite <- app_assoc | lia | lia | by constructor | |].
    + rewrite (subarray_join buffer offset next' next), Hsub by lia. done.
    + left. destruct Hlen as [Hlen| ->]; [done |]. rewrite app_nil_r, length_app. cbn. lia.
Qed.

Lemma concat_encodes items fields : Forall2 encodes items fields →
  (length (rlpPayload fields) ≤ length (concat items))%nat ∧
  (length (concat items) = length (rlpPayload fields) → concat items = rlpPayload fields).
Proof.
  unfold rlpPayload. induction 1 as [|item b items fields (_ & Hle & Heq) _ [IH1 IH2]]; [done |]. rewrite fmap_cons. cbn [concat]. rewrite !length_app.
  split; [lia |]. intros Hlen. rewrite Heq, IH2 by lia. done.
Qed.

Lemma byteLength_mono m n : 0 ≤ m ≤ n → (byteLength m ≤ byteLength n)%nat.
Proof.
  intros Hmn. destruct (decide (n = 0)) as [->|]; [by replace m with 0 by lia |]. apply byteLength_le. pose proof (byteLength_bounds n ltac:(lia)). lia.
Qed.

Lemma rlpLength_mono short long m n : (m ≤ n)%nat → (length (rlpLength short long m) ≤ length (rlpLength short long n))%nat.
Proof.
  intros Hmn. rewrite !length_rlpLength. pose proof (byteLength_mono (Z.of_nat m) (Z.of_nat n) ltac:(lia)).
  destruct (Nat.ltb_spec m 56), (Nat.ltb_spec n 56); lia.
Qed.

(** The header of an accepted list, relative to the payload it announces. *)
Lemma decodeListBounds_inv buffer start end_ : decodeListBounds buffer = Ok (start, end_) → end_ = buffer_length buffer →
  let payload := subarray buffer start end_ in
  ∃ header, buffer = header ++ payload ∧ Z.of_nat (length header) = start ∧ start ≤ end_ ∧ Z.of_nat (length payload) < 2 ^ 31 ∧
    (length (rlpLength 192 247 (length payload)) ≤ length header)%nat ∧
    (length header = length (rlpLength 192 247 (length payload)) → header = rlpLength 192 247 (length payload)).
Proof.
  intros Hrun Hend payload. unfold decodeListBounds in Hrun. destruct (Z.eqb_spec (buffer_length buffer) 0) as [|Hne]; [done |].
  assert (0 ≤ 0 < buffer_length buffer) as H0 by (unfold buffer_length in *; lia). destruct (subarray_one buffer 0 H0) as (x & Hx & Hat). change (0 + 1) with 1 in Hx.
  rewrite Hat in Hrun. cbv zeta in Hrun. pose proof (Z_of_byte_range x) as Hr.
  assert (∀ s, 0 ≤ s ≤ end_ → buffer = subarray buffer 0 s ++ subarray buffer s end_) as Hsplit.
  { intros s Hs. rewrite <- subarray_join, Hend by lia. unfold subarray, buffer_length. rewrite Z.sub_0_r, Nat2Z.id. cbn. by rewrite firstn_all. }
  destruct ((192 <=? Z_of_byte x) && (Z_of_byte x <=? 247)) eqn:Hshort.
  - apply andb_true_iff in Hshort as [?%Z.leb_le ?%Z.leb_le]. destruct (Z.ltb_spec (buffer_length buffer) (1 + (Z_of_byte x - 192))) as [|Hfit]; [done |].
    injection Hrun as <- Hend'. pose proof (length_subarray buffer 1 end_ ltac:(lia) ltac:(lia)) as Hl. fold payload in Hl.
    exists [x]. split_and!; [rewrite <- Hx; apply (Hsplit 1); lia | done | lia | lia | |]; unfold rlpLength; rewrite (proj2 (Nat.ltb_lt _ _)) by lia; [done |].
    intros _. replace (192 + Z.of_nat (length payload)) with (Z_of_byte x) by lia. by rewrite byte_of_Z_of_byte.
  - destruct ((248 <=? Z_of_byte x) && (Z_of_byte x <=? 255)) eqn:Hlong; [| done]. apply andb_true_iff in Hlong as [?%Z.leb_le ?%Z.leb_le].
    set (n := Z_of_byte x - 247) in *. destruct (Z.ltb_spec (buffer_length buffer) (1 + n)) as [|Hfit]; [done |].
    pose proof (length_subarray buffer 1 (1 + n) ltac:(lia) ltac:(lia)) as Hl. set (bs := subarray buffer 1 (1 + n)) in *.
    destruct (leadingZero n bs) eqn:Hlead; [done |]. destruct (Z.ltb_spec (foldLength bs) 56) as [|H56]; [done |].
    destruct (Z.ltb_spec (buffer_length buffer) (1 + n + foldLength bs)) as [|Hfit2]; [done |]. injection Hrun as <- Hend'.
    pose proof (length_subarray buffer (1 + n) end_ ltac:(lia) ltac:(lia)) as Hlp. fold payload in Hlp.
    replace n with (Z.of_nat (length bs)) in Hlead by lia.
    destruct (long_length bs (Z.of_nat (length payload)) Hlead ltac:(lia) ltac:(lia)) as (H31 & Hmin & Heq).
    exists (x :: bs). assert (x :: bs = subarray buffer 0 (1 + n)) as Hhead by (rewrite (subarray_join buffer 0 1 (1 + n)), Hx by lia; done).
    assert (rlpLength 192 247 (length payload) = byte_of_Z (247 + Z.of_nat (byteLength (Z.of_nat (length payload)))) :: beMin (Z.of_nat (length payload))) as ->
      by (unfold rlpLength; by rewrite (proj2 (Nat.ltb_ge _ _)) by lia).
    cbn [length]. rewrite length_beMin. split_and!; [rewrite Hhead; apply Hsplit; lia | lia | lia | lia | lia |].
    intros [= Hlen]. rewrite <- (Heq Hlen), <- Hlen. f_equal. replace (247 + Z.of_nat (length bs)) with (Z_of_byte x) by lia. by rewrite byte_of_Z_of_byte.
Qed.

(** What is accepted is at least as long as the encoding of its fields, and is that
    encoding if it is as long. *)
Lemma decodeRlp_shortest buffer fields : decodeRlp buffer = Ok fields →
  (9 ≤ length fields ≤ 11)%nat ∧ (length (rlpList fields) ≤ length buffer)%nat ∧
  (length buffer = length (rlpList fields) → buffer = rlpList fields) ∧ Forall (λ b, Z.of_nat (length b) < 2 ^ 31) fields.
Proof.
  unfold decodeRlp. intros ([start end_] & Hb & Hrun)%bind_Ok. destruct (Z.eqb_spec end_ (buffer_length buffer)) as [Hend|]; [| done].
  apply bind_Ok in Hrun as (_ & _ & Hrun). apply bind_Ok in Hrun as ([all offset] & Hf & Hrun).
  destruct (Z.eqb_spec offset (buffer_length buffer)) as [Hoff|]; [| done]. apply bind_Ok in Hrun as (_ & _ & Hrun).
  destruct (Nat.leb_spec 9 (length all)) as [Hnine|]; [| done]. injection Hrun as <-.
  destruct (decodeListBounds_inv _ _ _ Hb Hend) as (header & Hbuf & Hstart & Hle & H31 & Hhmin & Hheq).
  destruct (decodeFields_inv 12 buffer end_ start [] all offset ltac:(lia) Hf ltac:(lia) ltac:(lia)) as (more & items & Hall & Hnext & Henc & Hsub & Hlen). cbn in Hall. subst more.
  rewrite Hoff, <- Hend in Hsub. rewrite Hsub in Hbuf, H31, Hhmin, Hheq. destruct (concat_encodes _ _ Henc) as [Hpmin Hpeq].
  pose proof (rlpLength_mono 192 247 _ _ Hpmin) as Hmono. split; [destruct Hlen as [Hlen|Hnil]; [lia | rewrite Hnil in Hnine; cbn in Hnine; lia] |].
  unfold rlpList. rewrite Hbuf, !length_app. split_and!; [lia | |].
  - intros Heq. assert (length (concat items) = length (rlpPayload all)) as Hp by lia. rewrite Hp in *. rewrite (Hpeq eq_refl). by rewrite Hheq by lia.
  - clear -Henc. induction Henc as [|? ? ? ? (? & _)]; by constructor.
Qed.

(** ** Reading back an encoded list *)
Lemma decodeFields_encode fuel pre items acc : (length items ≤ fuel)%nat → (length acc + length items ≤ 11)%nat →
  Forall (λ b, Z.of_nat (length b) < 2 ^ 31) items →
  let end_ := Z.of_nat (length pre) + Z.of_nat (length (rlpPayload items)) in
  decodeFields fuel (pre ++ rlpPayload items) end_ (Z.of_nat (length pre)) acc = Ok (acc ++ items, end_).
Proof.
  revert pre acc fuel. induction items as [|b items IH]; intros pre acc fuel Hfuel Hacc Hall end_.
  { unfold end_, rlpPayload. cbn [fmap list_fmap concat length]. rewrite Z.add_0_r, !app_nil_r. destruct fuel; cbn [decodeFields]; by rewrite Z.ltb_irrefl. }
  apply Forall_cons in Hall as [Hb Hall]. cbn [length] in *. destruct fuel as [|fuel]; [lia |].
  assert (rlpPayload (b :: items) = rlpString b ++ rlpPayload items) as Hp by done.
  assert (0 < length (rlpString b))%nat as Hpos.
  { unfold rlpString. destruct b as [|x [|y b]]; [cbn; lia | destruct (_ <? _); cbn; lia | rewrite length_app; cbn [length]; lia]. }
  cbn [decodeFields]. unfold end_. rewrite Hp, length_app. rewrite (proj2 (Z.ltb_lt _ _)) by lia. cbn [negb]. rewrite (proj2 (Nat.ltb_ge _ _)) by lia.
  rewrite decodeItem_encode by done. cbn [mbind result_bind].
  specialize (IH (pre ++ rlpString b) (acc ++ [b]) fuel ltac:(lia) ltac:(rewrite length_app; cbn; lia) Hall). cbv zeta in IH.
  rewrite <- !app_assoc, length_app in IH. cbn [app] in IH.
  replace (Z.of_nat (length (rlpString b) + length (rlpPayload items))) with (Z.of_nat (length (rlpString b)) + Z.of_nat (length (rlpPayload items))) by lia.
  rewrite Nat2Z.inj_add in IH. rewrite Z.add_assoc. exact IH.
Qed.

(** Any header that announces the payload will do. *)
Lemma decodeRlp_header header items :
  decodeListBounds (header ++ rlpPayload items) = Ok (Z.of_nat (length header), buffer_length (header ++ rlpPayload items)) →
  (9 ≤ length items ≤ 11)%nat → Forall (λ b, Z.of_nat (length b) < 2 ^ 31) items → decodeRlp (header ++ rlpPayload items) = Ok items.
Proof.
  intros Hb Hn Hall. unfold decodeRlp. rewrite Hb. cbn [mbind result_bind]. rewrite Z.eqb_refl. cbn [guardR mbind result_bind].
  rewrite buffer_length_app. unfold buffer_length. rewrite (decodeFields_encode 12 header items []) by (done || cbn; lia).
  cbn [mbind result_bind app]. rewrite Z.eqb_refl. cbn [guardR mbind result_bind]. by rewrite (proj2 (Nat.leb_le _ _)) by lia.
Qed.

Lemma decodeListBounds_long bs payload : (1 ≤ length bs ≤ 8)%nat → leadingZero (Z.of_nat (length bs)) bs = false →
  foldLength bs = Z.of_nat (length payload) → 56 ≤ Z.of_nat (length payload) →
  let header := byte_of_Z (247 + Z.of_nat (length bs)) :: bs in
  decodeListBounds (header ++ payload) = Ok (Z.of_nat (length header), buffer_length (header ++ payload)).
Proof.
  intros Hn Hlead Hfold Hlong header. destruct (slice_in [] (byte_of_Z (247 + Z.of_nat (length bs))) bs payload [] _ eq_refl) as (Hat & Hs & _ & Hlen).
  cbn [app length] in Hat, Hs, Hlen. rewrite app_nil_r in Hat, Hs, Hlen. change (header ++ payload) with (byte_of_Z (247 + Z.of_nat (length bs)) :: bs ++ payload).
  unfold decodeListBounds. change (Z.of_nat 0) with 0 in *. rewrite Hlen, (proj2 (Z.eqb_neq _ _)), Hat, Z_of_prefix by lia. cbv zeta.
  assert ((192 <=? 247 + Z.of_nat (length bs)) && (247 + Z.of_nat (length bs) <=? 247) = false) as -> by (apply andb_false_iff; right; apply Z.leb_gt; lia).
  rewrite (proj2 (Z.leb_le 248 _)), (proj2 (Z.leb_le _ 255)) by lia. cbn [andb]. replace (247 + Z.of_nat (length bs) - 247) with (Z.of_nat (length bs)) by lia.
  rewrite (proj2 (Z.ltb_ge _ _)) by lia. change (0 + 1 + Z.of_nat (length bs)) with (1 + Z.of_nat (length bs)) in *. change (0 + 1) with 1 in Hs. rewrite Hs, Hlead, Hfold.
  rewrite (proj2 (Z.ltb_ge _ 56)), (proj2 (Z.ltb_ge _ _)) by lia. unfold header. cbn [length]. do 2 f_equal; lia.
Qed.

Lemma decodeListBounds_short payload : (length payload < 56)%nat →
  let header := [byte_of_Z (192 + Z.of_nat (length payload))] in
  decodeListBounds (header ++ payload) = Ok (Z.of_nat (length header), buffer_length (header ++ payload)).
Proof.
  intros Hn header. set (buf := header ++ payload). assert (buffer_length buf = 1 + Z.of_nat (length payload)) as Hlen by (unfold buffer_length, buf; rewrite length_app; cbn; lia).
  unfold decodeListBounds. rewrite Hlen, (proj2 (Z.eqb_neq _ _)) by lia. cbv zeta. change (byteAt buf 0) with (Z_of_byte (byte_of_Z (192 + Z.of_nat (length payload)))).
  rewrite Z_of_prefix by lia. rewrite (proj2 (Z.leb_le 192 _)), (proj2 (Z.leb_le _ 247)) by lia. cbn [andb].
  rewrite (proj2 (Z.ltb_ge _ _)) by lia. cbn [length]. do 2 f_equal; lia.
Qed.

Lemma decodeRlp_encode items : (9 ≤ length items ≤ 11)%nat → Z.of_nat (length (rlpPayload items)) < 2 ^ 31 →
  Forall (λ b, Z.of_nat (length b) < 2 ^ 31) items → decodeRlp (rlpList items) = Ok items.
Proof.
  intros Hn Hp Hall. unfold rlpList. apply decodeRlp_header; [| done..]. unfold rlpLength. destruct (Nat.ltb_spec (length (rlpPayload items)) 56).
  - by apply decodeListBounds_short.
  - destruct (long_length_beMin (Z.of_nat (length (rlpPayload items)))) as (Hlead & Hfold & Hk); [lia |]. rewrite <- length_beMin in Hlead, Hk |- *.
    apply decodeListBounds_long; [lia | done | done | lia].
Qed.

(** The fuel is enough. *)
Definition fueled {A} (r : result A) : Prop := r ≠ Throw OutOfFuel.
Lemma fueled_bind {A B} (r : result A) (f : A → result B) : fueled r → (∀ a, fueled (f a)) → fueled (r ≫= f).
Proof. destruct r as [a|e]; [by intros _ Hf; apply Hf |]. intros He _ [= ->]. by apply He. Qed.
Lemma fueled_guard b e : e ≠ OutOfFuel → fueled (guardR b e).
Proof. intros He. destruct b; cbn; [done |]. by intros [= ->]. Qed.

Lemma fueled_Ok {A} (a : A) : fueled (Ok a).
Proof. done. Qed.
Lemma fueled_JSError {A} s : fueled (Throw (JSError s) : result A).
Proof. done. Qed.
Ltac fueled_cases := repeat (first [apply fueled_Ok | apply fueled_JSError | case_match]).

Lemma readLength_fuel buffer offset n : fueled (readLength buffer offset n).
Proof. unfold readLength. cbv zeta. fueled_cases. Qed.
Lemma decodeItem_fuel buffer offset : fueled (decodeItem buffer offset).
Proof.
  unfold decodeItem. cbv zeta. repeat (first [apply fueled_Ok | apply fueled_JSError | apply fueled_bind; [apply readLength_fuel | intros [len next]] | case_match]).
Qed.
Lemma decodeListBounds_fuel buffer : fueled (decodeListBounds buffer).
Proof. unfold decodeListBounds. cbv zeta. fueled_cases. Qed.
Lemma decodeFields_fuel fuel buffer end_ offset fields : (11 < length fields + fuel)%nat → (length fields ≤ 11)%nat → fueled (decodeFields fuel buffer end_ offset fields).
Proof.
  revert offset fields. induction fuel as [|fuel IH]; intros offset fields Hf Hl; cbn [decodeFields]; destruct (negb _); try apply fueled_Ok; [lia |].
  destruct (Nat.ltb_spec 10 (length fields)); [apply fueled_JSError |]. apply fueled_bind; [apply decodeItem_fuel |]. intros [field next].
  apply IH; rewrite length_app; cbn; lia.
Qed.
Lemma decodeRlp_fuel serialized : decodeRlp serialized ≠ Throw OutOfFuel.
Proof.
  apply fueled_bind; [apply decodeListBounds_fuel |]. intros [start end_]. apply fueled_bind; [by apply fueled_guard | intros _].
  apply fueled_bind; [apply decodeFields_fuel; cbn; lia |]. intros [fields offset]. by do 2 (apply fueled_bind; [by apply fueled_guard | intros _]).
Qed.

(** A header of six bytes that announces 2^32 more than there is. *)
Definition overlongHeader (n : nat) : list byte := byte_of_Z 252 :: x01 :: be_encode 4 (Z.of_nat n).

Lemma decodeRlp_overlong items : (9 ≤ length items ≤ 11)%nat → 56 ≤ Z.of_nat (length (rlpPayload items)) < 2 ^ 31 →
  Forall (λ b, Z.of_nat (length b) < 2 ^ 31) items → decodeRlp (overlongHeader (length (rlpPayload items)) ++ rlpPayload items) = Ok items.
Proof.
  intros Hn Hp Hall. apply decodeRlp_header; [| done..]. set (bs := x01 :: be_encode 4 (Z.of_nat (length (rlpPayload items)))).
  assert (length bs = 5%nat) as Hl by (unfold bs; cbn [length]; by rewrite length_be_encode).
  assert (overlongHeader (length (rlpPayload items)) = byte_of_Z (247 + Z.of_nat (length bs)) :: bs) as -> by (by rewrite Hl).
  apply decodeListBounds_long; [lia | | | lia].
  - unfold leadingZero. rewrite Hl. done.
  - rewrite foldLength_spec. unfold bs. rewrite be_decode_cons, length_be_encode, be_decode_encode by (change (256 ^ Z.of_nat 4) with (2 ^ 32); lia).
    unfold toInt32. change (Z_of_byte x01 * 256 ^ Z.of_nat 4) with (2 ^ 32).
    rewrite <- (Z.mod_unique (2 ^ 32 + Z.of_nat (length (rlpPayload items)) + 2 ^ 31) (2 ^ 32) 1 (Z.of_nat (length (rlpPayload items)) + 2 ^ 31)) by lia. lia.
Qed.
