(* ===== verification/Transactions.v ===== *)
(** * packages/crypto-transaction: the bytes of a transaction

    serializer.ts, deserializer.ts, hash.factory.ts, factory.ts and the schema of
    validation/.  Of viem, [toRlp], [toBytes] of a number and [getAddress] are
    parameters; so is ECDSA.  A field of the RLP list is kept as the bytes that its
    hexadecimal text stands for. *)
From S2P Require Import Prelude Bytes Serializer Messages Blocks Rlp.
From Stdlib Require Import Ascii.

(** What [serialize] and [deserialize] exchange. *)
Record TransactionSerializable := mkTransactionSerializable {
  ts_network : Z;
  ts_to : option string;
  ts_value : Z;
  ts_gasPrice : Z;
  ts_gasLimit : Z;
  ts_nonce : Z;
  ts_data : string;
  ts_v : Z;
  ts_r : string;
  ts_s : string;
  ts_legacySecondSignature : option string;
}.

(** viem: [toRlp] of a list of byte strings, and [toBytes] of a number. *)
Class ViemRlp := {
  toRlp : list (list byte) → list byte;
  numberToBytes : Z → result (list byte);
}.

(** Their documentation: RLP; the shortest big-endian form; [toBytes] of the text of
    some bytes gives the bytes, and [getAddress] only changes the case of letters. *)
Class ViemLaws `{Viem} `{ViemRlp} : Prop := {
  toRlp_spec : ∀ fields, toRlp fields = rlpList fields;
  numberToBytes_spec : ∀ z, 0 < z → numberToBytes z = Ok (beMin z);
  toBytes_text : ∀ b, viem_toBytes ("0x" +:+ hexEncode b) = Ok b;
  getAddress_bytes : ∀ b a, viem_getAddress ("0x" +:+ hexEncode b) = Ok a → a ≠ ""%string ∧ viem_toBytes a = Ok b;
}.

(** ** Numbers *)
Fixpoint hexNumberFrom (acc : Z) (s : string) : option Z :=
  match s with
  | EmptyString => Some acc
  | String a rest => match hex_value a with Some d => hexNumberFrom (16 * acc + d) rest | None => None end
  end.
(** [BigInt(`0x${s}`)]. *)
Definition BigIntHex (s : string) : result Z :=
  if String.eqb s "" then Throw (JSError "SyntaxError")
  else match hexNumberFrom 0 s with Some z => Ok z | None => Throw (JSError "SyntaxError") end.

Fixpoint zeros (n : nat) : string := match n with O => EmptyString | S n' => String "0"%char (zeros n') end.
(** [s.padStart(n, "0")]. *)
Definition padStart (n : nat) (s : string) : string := zeros (n - String.length s) +:+ s.

Definition SECP256K1_ORDER : Z := 115792089237316195423570985008687907852837564279074904382605163141518161494337.
Definition MAX_SAFE : Z := 2 ^ 53.

Section codec.
Context `{Viem} `{ViemRlp}.

(** ** serializer.ts *)
Definition toBytesCompat (value : Z) : result (list byte) := if value =? 0 then Ok [] else numberToBytes value.

(** [s || d] for a string or [undefined]. *)
Definition truthy (s : option string) : option string :=
  match s with Some t => if String.eqb t "" then None else Some t | None => None end.

Definition fieldsOf (transaction : TransactionSerializable) : result (list (list byte)) :=
  let v := ts_network transaction * 2 + 35 + ts_v transaction in
  nonce ← toBytesCompat (ts_nonce transaction);
  gasPrice ← toBytesCompat (ts_gasPrice transaction);
  gasLimit ← toBytesCompat (ts_gasLimit transaction);
  to ← viem_toBytes (default "0x"%string (truthy (ts_to transaction)));
  value ← toBytesCompat (ts_value transaction);
  data ← viem_toBytes (ts_data transaction);
  v ← toBytesCompat v;
  r ← BigIntHex (ts_r transaction) ≫= toBytesCompat;
  s ← BigIntHex (ts_s transaction) ≫= toBytesCompat;
  let fields := [nonce; gasPrice; gasLimit; to; value; data; v; r; s] in
  match truthy (ts_legacySecondSignature transaction) with
  | Some legacySecondSignature => signature ← viem_toBytes ("0x" +:+ legacySecondSignature); Ok (fields ++ [signature])
  | None => Ok fields
  end.
Definition serializeTransaction (transaction : TransactionSerializable) : result (list byte) :=
  toRlp <$> fieldsOf transaction.

Definition serializeUnsigned (transaction : TransactionSerializable) : result (list byte) :=
  nonce ← toBytesCompat (ts_nonce transaction);
  gasPrice ← toBytesCompat (ts_gasPrice transaction);
  gasLimit ← toBytesCompat (ts_gasLimit transaction);
  to ← viem_toBytes (default "0x"%string (truthy (ts_to transaction)));
  value ← toBytesCompat (ts_value transaction);
  data ← viem_toBytes (ts_data transaction);
  network ← toBytesCompat (ts_network transaction);
  Ok (toRlp [nonce; gasPrice; gasLimit; to; value; data; network; []; []]).

(** ** deserializer.ts *)
Definition assertCanonicalInteger (value : list byte) : result unit :=
  match value with
  | v :: _ => guardR (negb (Z_of_byte v =? 0)) (JSError "decoded RLP is a non-canonical integer (leading zeroes)")
  | [] => Ok tt
  end.
Definition parseBigInt (value : list byte) : result Z := assertCanonicalInteger value;; Ok (be_decode value).

(** [Number(value)] is exact below 2^53; what is larger would be rounded.  The schema
    check that follows in the factory rejects it, and here the reading ends. *)
Definition parseNumber (value : list byte) : result Z :=
  z ← parseBigInt value; guardR (z <? MAX_SAFE) (NamedError "UnsafeNumber");; Ok z.

Definition parseSignaturePart (value : list byte) : result string :=
  guardR (length value <=? 32)%nat (JSError "decoded RLP signature exceeds 32 bytes");;
  assertCanonicalInteger value;;
  let numeric := be_decode value in
  guardR (negb ((numeric =? 0) || (SECP256K1_ORDER <=? numeric))) (JSError "decoded RLP signature is out of range");;
  Ok (padStart 64 (hexEncode value)).

Definition parseTo (value : list byte) : result (option string) :=
  match value with
  | [] => Ok None
  | _ => Some <$> viem_getAddress ("0x" +:+ hexEncode value)
  end.

Definition transactionOfFields (fields : list (list byte)) : result TransactionSerializable :=
  match fields with
  | f0 :: f1 :: f2 :: f3 :: f4 :: f5 :: f6 :: f7 :: f8 :: more =>
      nonce ← parseBigInt f0;
      gasPrice ← parseNumber f1;
      gasLimit ← parseNumber f2;
      to ← parseTo f3;
      value ← parseBigInt f4;
      let data := "0x" +:+ hexEncode f5 in
      v ← parseNumber f6;
      let chainId := (v - 35) / 2 in
      let normalizedV := v - (chainId * 2 + 35) in
      r ← parseSignaturePart f7;
      s ← parseSignaturePart f8;
      let legacySecondSignature := match more with [f9] => Some (hexEncode f9) | _ => None end in
      Ok (mkTransactionSerializable chainId to value gasPrice gasLimit nonce data normalizedV r s (truthy legacySecondSignature))
  | _ => Throw (JSError "decoded RLP contains too few fields")
  end.
Definition deserializeTransaction (serialized : list byte) : result TransactionSerializable :=
  fields ← decodeRlp serialized; transactionOfFields fields.
End codec.

(** ** factory.ts and hash.factory.ts *)

(** The ECDSA instance and the address factories. *)
Class WalletCrypto := {
  isLowS : string → string → Z → bool;
  recoverPublicKey : list byte → string → string → Z → result string;
  addressFromPublicKey : string → result string;
  legacyAddressFromPublicKey : string → result string;
}.

(** The milestone's gas limits (below 2^53), the network and the genesis block. *)
Record TransactionRules := mkTransactionRules {
  tr_chainId : Z;
  tr_minimumGasPrice : Z;
  tr_maximumGasPrice : Z;
  tr_minimumGasLimit : Z;
  tr_maximumGasLimit : Z;
  tr_height : Z;
  tr_genesisHeight : Z;
  tr_genesisTransactions : list string;
}.

Section factory.
Context `{Viem} `{ViemRlp} `{HashFactory} `{WalletCrypto}.
Context (isAddress isPublicKey isAlphanumeric : string → bool) (rules : TransactionRules).

Definition withoutSecondSignature (t : TransactionSerializable) : TransactionSerializable :=
  mkTransactionSerializable (ts_network t) (ts_to t) (ts_value t) (ts_gasPrice t) (ts_gasLimit t) (ts_nonce t) (ts_data t) (ts_v t) (ts_r t) (ts_s t) None.
Definition toHash (t : TransactionSerializable) : result (list byte) := keccak256 <$> serializeTransaction (withoutSecondSignature t).
Definition toHashUnsigned (t : TransactionSerializable) : result (list byte) := keccak256 <$> serializeUnsigned t.

(** [from], [hash], [senderLegacyAddress], [senderPublicKey]. *)
Definition computeCryptoData (data : TransactionSerializable) : result (string * string * string * string) :=
  guardR (isLowS (ts_r data) (ts_s data) (ts_v data)) (JSError "non-canonical signature (high S value)");;
  unsignedHash ← toHashUnsigned data;
  hash ← toHash data;
  senderPublicKey ← recoverPublicKey unsignedHash (ts_r data) (ts_s data) (ts_v data);
  from ← addressFromPublicKey senderPublicKey;
  senderLegacyAddress ← legacyAddressFromPublicKey senderPublicKey;
  Ok (from, hexEncode hash, senderLegacyAddress, senderPublicKey).

(** validation/keywords.ts. *)
Definition transactionGasPrice (value : Z) (hash : string) : bool :=
  if value <? tr_minimumGasPrice rules then
    if negb (value =? 0) then false
    else (tr_height rules =? tr_genesisHeight rules) || (negb (String.eqb hash "") && bool_decide (hash ∈ tr_genesisTransactions rules))
  else negb (tr_maximumGasPrice rules <? value).
Definition transactionGasLimit (value : Z) : bool :=
  if value <? tr_minimumGasLimit rules then false else negb (tr_maximumGasLimit rules <? value).
Definition isHexDigit (a : ascii) : bool := isSome (hex_value a).
Definition bytecode (data : string) : bool :=
  match data with
  | String "0" (String "x" digits) =>
      let maxBytecodeLength := tr_maximumGasLimit rules / 16 in
      (tr_maximumGasLimit rules mod 16 =? 0) && forallb isHexDigit (String.list_ascii_of_string digits) &&
      (Z.of_nat (String.length digits) <=? maxBytecodeLength)
  | _ => false
  end.

(** validation/schemas.ts: [transactionSigned]; a transaction that has no hash yet. *)
Definition transactionSignedValid (t : TransactionSerializable) : bool :=
  (ts_network t =? tr_chainId rules) &&
  match ts_to t with Some to => isAddress to | None => true end &&
  (0 <=? ts_value t) && transactionGasLimit (ts_gasLimit t) && transactionGasPrice (ts_gasPrice t) "" &&
  (0 <=? ts_nonce t) && bytecode (ts_data t) &&
  (0 <=? ts_v t) && (ts_v t <=? 1) && hexOfLength 64 (ts_r t) && hexOfLength 64 (ts_s t) &&
  match ts_legacySecondSignature t with
  | Some signature => (String.length signature =? 130)%nat && isAlphanumeric signature
  | None => true
  end.

(** [transactionStrict]. *)
Definition transactionStrictValid (tx : Transaction) : bool :=
  hexOfLength 64 (tx_hash tx) && (tx_network tx =? tr_chainId rules) &&
  match tx_to tx with Some to => isAddress to | None => true end &&
  (0 <=? tx_value tx) && transactionGasLimit (tx_gasLimit tx) && transactionGasPrice (tx_gasPrice tx) (tx_hash tx) &&
  (0 <=? tx_nonce tx) && bytecode (tx_data tx) && isAddress (tx_from tx) && isPublicKey (tx_senderPublicKey tx) &&
  (0 <=? tx_v tx) && (tx_v tx <=? 1) && hexOfLength 64 (tx_r tx) && hexOfLength 64 (tx_s tx) &&
  match tx_legacySecondSignature tx with
  | Some signature => (String.length signature =? 130)%nat && isAlphanumeric signature
  | None => true
  end.

Definition newTransaction (t : TransactionSerializable) (from hash senderLegacyAddress senderPublicKey : string) (serialized : list byte) : Transaction :=
  mkTransaction hash (ts_network t) from senderPublicKey senderLegacyAddress (ts_to t) (ts_value t) (ts_gasPrice t) (ts_gasLimit t)
    (ts_nonce t) (ts_data t) (ts_v t) (ts_r t) (ts_s t) (ts_legacySecondSignature t) serialized.

(** [#fromSerialized]: every error but that of the schema is [InvalidTransactionBytesError]. *)
Definition orInvalidBytes {A} (r : result A) : result A :=
  match r with Ok a => Ok a | Throw _ => Throw (NamedError "InvalidTransactionBytesError") end.
Definition transactionFromBytes (serialized : list byte) : result Transaction :=
  transaction ← orInvalidBytes (deserializeTransaction serialized);
  '(from, hash, senderLegacyAddress, senderPublicKey) ← orInvalidBytes (computeCryptoData transaction);
  let tx := newTransaction transaction from hash senderLegacyAddress senderPublicKey serialized in
  if transactionStrictValid tx then Ok tx else Throw (NamedError "TransactionSchemaError").

(** [fromData]. *)
Definition transactionFromData (data : TransactionSerializable) : result Transaction :=
  if transactionSignedValid data then serialized ← serializeTransaction data; transactionFromBytes serialized
  else Throw (NamedError "TransactionSchemaError").

(** What of a transaction is serialized. *)
Definition serializable (tx : Transaction) : TransactionSerializable :=
  mkTransactionSerializable (tx_network tx) (tx_to tx) (tx_value tx) (tx_gasPrice tx) (tx_gasLimit tx) (tx_nonce tx) (tx_data tx)
    (tx_v tx) (tx_r tx) (tx_s tx) (tx_legacySecondSignature tx).

(** [fromPoolData]. *)
Definition fromPoolData (data : Transaction) : result Transaction :=
  serialized ← serializeTransaction (serializable data);
  Ok (newTransaction (serializable data) (tx_from data) (tx_hash data) (tx_senderLegacyAddress data) (tx_senderPublicKey data) serialized).

(** The codec that blocks are read with. *)
Definition transactionCodec : TransactionCodec := {| txFromBytes := transactionFromBytes |}.
End factory.

(** ** Hexadecimal numbers *)
Lemma hexNumber_encode b acc : hexNumberFrom acc (hexEncode b) = Some (acc * 256 ^ Z.of_nat (length b) + be_decode b).
Proof.
  revert acc. induction b as [|x b IH]; intros acc; [cbn; f_equal; lia |]. pose proof (Z_of_byte_range x) as Hx. cbn [hexEncode hexNumberFrom].
  pose proof (Z.div_mod (Z_of_byte x) 16 ltac:(lia)) as Hd. pose proof (Z.mod_pos_bound (Z_of_byte x) 16 ltac:(lia)) as Hm.
  assert (0 ≤ Z_of_byte x / 16 < 16) by (split; [apply Z.div_pos; lia | apply Z.div_lt_upper_bound; lia]).
  rewrite !hex_value_digit by done. rewrite IH, be_decode_cons. cbn [length]. rewrite pow256_succ. f_equal. nia.
Qed.

Lemma hexNumber_zeros n s : hexNumberFrom 0 (zeros n +:+ s) = hexNumberFrom 0 s.
Proof. induction n; [done |]. cbn. exact IHn. Qed.

Lemma hexEncode_zeros n b : hexEncode (replicate n x00 ++ b) = zeros (2 * n) +:+ hexEncode b.
Proof. induction n as [|n IH]; [done |]. cbn [replicate app hexEncode]. rewrite IH. replace (2 * S n)%nat with (S (S (2 * n))) by lia. done. Qed.

Lemma be_decode_zeros n b : be_decode (replicate n x00 ++ b) = be_decode b.
Proof. induction n as [|n IH]; [done |]. cbn [replicate app]. rewrite be_decode_cons, IH. done. Qed.

(** Bytes are the shortest form of their value after some zeros. *)
Lemma split_zeros b : b = replicate (length b - length (beMin (be_decode b))) x00 ++ beMin (be_decode b).
Proof.
  induction b as [|x b IH]; [done |]. destruct (decide (Z_of_byte x = 0)) as [Hz|Hz]; [| rewrite beMin_decode, Nat.sub_diag by done; done].
  rewrite be_decode_cons, Hz, Z.mul_0_l, Z.add_0_l.
  assert (length (beMin (be_decode b)) ≤ length b)%nat as Hle by (rewrite length_beMin; apply byteLength_le, be_decode_bounds).
  cbn [length]. rewrite Nat.sub_succ_l by done. cbn [replicate app]. rewrite <- IH. f_equal. rewrite <- (byte_of_Z_of_byte x), Hz. done.
Qed.

Lemma beMin_positive z : 0 < z → beMin z ≠ [].
Proof. intros Hz. destruct (beMin_head z Hz) as (v & bs & -> & _). done. Qed.

Section laws.
Context `{ViemLaws}.

(** *** Integers *)
Lemma canonical_head v bs : assertCanonicalInteger (v :: bs) = Ok tt → Z_of_byte v ≠ 0.
Proof. cbn. destruct (Z.eqb_spec (Z_of_byte v) 0); [done | by intros]. Qed.

Lemma toBytes_canonical b : assertCanonicalInteger b = Ok tt → toBytesCompat (be_decode b) = Ok b.
Proof.
  destruct b as [|v bs]; [done |]. intros Hv%canonical_head. unfold toBytesCompat. pose proof (be_decode_bounds bs). pose proof (Z_of_byte_range v).
  assert (0 < be_decode (v :: bs)) as Hpos by (rewrite be_decode_cons; nia). rewrite (proj2 (Z.eqb_neq _ _)) by lia.
  by rewrite numberToBytes_spec, beMin_decode.
Qed.

Lemma toBytes_min z : 0 ≤ z → toBytesCompat z = Ok (beMin z).
Proof. intros Hz. unfold toBytesCompat. destruct (Z.eqb_spec z 0) as [->|]; [done |]. apply numberToBytes_spec. lia. Qed.

Lemma canonical_min z : assertCanonicalInteger (beMin z) = Ok tt.
Proof.
  destruct (Z.le_gt_cases z 0) as [Hz|Hz]; [unfold beMin, byteLength; by rewrite (proj2 (Z.leb_le _ _)) |].
  destruct (beMin_head z Hz) as (v & bs & -> & Hv). cbn. by rewrite (proj2 (Z.eqb_neq _ _)).
Qed.

Lemma parseBigInt_min z : 0 ≤ z → parseBigInt (beMin z) = Ok z.
Proof. intros Hz. unfold parseBigInt. rewrite canonical_min. cbn. by rewrite be_decode_beMin. Qed.

Lemma parseBigInt_inv b z : parseBigInt b = Ok z → toBytesCompat z = Ok b.
Proof. unfold parseBigInt. intros ([] & Hc & [= <-])%bind_Ok. by apply toBytes_canonical. Qed.

Lemma parseNumber_inv b z : parseNumber b = Ok z → toBytesCompat z = Ok b.
Proof. unfold parseNumber. intros (z' & Hz & Hrun)%bind_Ok. destruct (z' <? MAX_SAFE); [| done]. injection Hrun as <-. by apply parseBigInt_inv. Qed.

Lemma parseNumber_min z : 0 ≤ z < MAX_SAFE → parseNumber (beMin z) = Ok z.
Proof. intros Hz. unfold parseNumber. rewrite parseBigInt_min by lia. cbn. by rewrite (proj2 (Z.ltb_lt _ _)) by lia. Qed.

(** *** Signatures *)
Lemma BigIntHex_spec s z : s ≠ ""%string → hexNumberFrom 0 s = Some z → BigIntHex s = Ok z.
Proof. intros Hs Hz. unfold BigIntHex. destruct (String.eqb_spec s ""); [done |]. by rewrite Hz. Qed.

Lemma parseSignaturePart_inv b r : parseSignaturePart b = Ok r → BigIntHex r ≫= toBytesCompat = Ok b.
Proof.
  unfold parseSignaturePart. destruct (length b <=? 32)%nat; [| done]. intros (_ & _ & Hrun)%bind_Ok. apply bind_Ok in Hrun as ([] & Hc & Hrun). cbv zeta in Hrun.
  destruct (negb _) eqn:Hr in Hrun; [| done]. injection Hrun as <-. apply negb_true_iff, orb_false_iff in Hr as [Hz%Z.eqb_neq _].
  destruct b as [|x b']; [cbn in Hz; done |]. set (b := x :: b') in *.
  rewrite (BigIntHex_spec _ (be_decode b)); [by apply toBytes_canonical | |].
  - unfold padStart, b. by destruct (zeros _).
  - unfold padStart. by rewrite hexNumber_zeros, hexNumber_encode.
Qed.

(** Half of a signature in memory: 32 bytes in the range of ECDSA. *)
Definition isSignaturePart (r : string) : Prop :=
  ∃ b, r = hexEncode b ∧ length b = 32%nat ∧ 0 < be_decode b < SECP256K1_ORDER.

Lemma signaturePart_roundtrip r : isSignaturePart r →
  ∃ b, BigIntHex r ≫= toBytesCompat = Ok b ∧ parseSignaturePart b = Ok r ∧ (length b ≤ 32)%nat.
Proof.
  intros (b & -> & Hl & Hr). exists (beMin (be_decode b)).
  assert (length (beMin (be_decode b)) ≤ 32)%nat as Hle by (rewrite length_beMin, <- Hl; apply byteLength_le, be_decode_bounds).
  split_and!; [| | done].
  - rewrite (BigIntHex_spec _ (be_decode b)); [apply toBytes_min; lia | by destruct b | by rewrite hexNumber_encode].
  - unfold parseSignaturePart. rewrite (proj2 (Nat.leb_le _ _)), canonical_min, be_decode_beMin by lia. cbn [mbind result_bind guardR]. cbv zeta.
    rewrite (proj2 (Z.eqb_neq _ _)), (proj2 (Z.leb_gt _ _)) by lia. cbn. f_equal. unfold padStart. rewrite length_hexEncode.
    rewrite (split_zeros b) at 3. rewrite hexEncode_zeros, Hl. f_equal. f_equal. lia.
Qed.

(** *** Recipients and data *)
Lemma toBytes_empty : viem_toBytes "0x" = Ok [].
Proof. exact (toBytes_text []). Qed.

Lemma parseTo_inv b to : parseTo b = Ok to → viem_toBytes (default "0x"%string (truthy to)) = Ok b.
Proof.
  destruct b as [|x b]; cbn [parseTo]; [intros [= <-]; apply toBytes_empty |]. destruct (viem_getAddress _) as [a|] eqn:Ha; [| done]. cbn. intros [= <-].
  destruct (getAddress_bytes _ _ Ha) as [Hne Hb]. cbn. by destruct (String.eqb_spec a "").
Qed.

(** *** Transactions *)

(** The fields that count: the first nine, and a tenth that is not empty if it is the
    last. *)
Definition countedFields (fields : list (list byte)) : list (list byte) :=
  match drop 9 fields with
  | [f9] => if bool_decide (f9 = []) then take 9 fields else fields
  | _ => take 9 fields
  end.

Lemma fieldsOf_inv fields tx : transactionOfFields fields = Ok tx → fieldsOf tx = Ok (countedFields fields).
Proof.
  destruct fields as [|f0 [|f1 [|f2 [|f3 [|f4 [|f5 [|f6 [|f7 [|f8 more]]]]]]]]]; try done. cbn [transactionOfFields].
  intros (nonce & Hp0 & Hrun)%bind_Ok. apply bind_Ok in Hrun as (gasPrice & Hp1 & Hrun). apply bind_Ok in Hrun as (gasLimit & Hp2 & Hrun).
  apply bind_Ok in Hrun as (to & Hp3 & Hrun). apply bind_Ok in Hrun as (value & Hp4 & Hrun). cbv zeta in Hrun. apply bind_Ok in Hrun as (v & Hp6 & Hrun).
  apply bind_Ok in Hrun as (r & Hp7 & Hrun). apply bind_Ok in Hrun as (s & Hp8 & Hrun). injection Hrun as <-.
  unfold fieldsOf. cbn [ts_network ts_to ts_value ts_gasPrice ts_gasLimit ts_nonce ts_data ts_v ts_r ts_s ts_legacySecondSignature]. cbv zeta.
  rewrite (parseBigInt_inv _ _ Hp0), (parseNumber_inv _ _ Hp1), (parseNumber_inv _ _ Hp2), (parseTo_inv _ _ Hp3), (parseBigInt_inv _ _ Hp4), toBytes_text. cbn [mbind result_bind].
  replace ((v - 35) / 2 * 2 + 35 + (v - ((v - 35) / 2 * 2 + 35))) with v by lia. rewrite (parseNumber_inv _ _ Hp6). cbn [mbind result_bind].
  rewrite (parseSignaturePart_inv _ _ Hp7), (parseSignaturePart_inv _ _ Hp8). cbn [mbind result_bind]. unfold countedFields. cbn [drop take].
  destruct more as [|f9 [|f10 more]]; [done | | done]. destruct f9 as [|x f9]; [done |]. cbn [drop take]. rewrite bool_decide_eq_false_2 by done.
  cbn [truthy hexEncode String.eqb]. change (String ?a (String ?b (hexEncode f9))) with (hexEncode (x :: f9)). by rewrite toBytes_text.
Qed.

Lemma rlpString_nonempty b : (0 < length (rlpString b))%nat.
Proof. unfold rlpString. destruct b as [|x [|y b]]; [cbn; lia | destruct (_ <? _); cbn; lia | rewrite length_app; cbn [length]; lia]. Qed.

Lemma rlpPayload_app l l' : rlpPayload (l ++ l') = rlpPayload l ++ rlpPayload l'.
Proof. unfold rlpPayload. by rewrite fmap_app, concat_app. Qed.

Lemma rlpPayload_more l : l ≠ [] → (0 < length (rlpPayload l))%nat.
Proof. destruct l as [|b l]; [done |]. intros _. unfold rlpPayload. cbn. rewrite length_app. pose proof (rlpString_nonempty b). lia. Qed.

(** More fields take more bytes. *)
Lemma rlpList_longer l l' : l' ≠ [] → (length (rlpList l) < length (rlpList (l ++ l')))%nat.
Proof.
  intros Hl'%rlpPayload_more. unfold rlpList. rewrite rlpPayload_app, !length_app.
  pose proof (rlpLength_mono 192 247 (length (rlpPayload l)) (length (rlpPayload l) + length (rlpPayload l')) ltac:(lia)). lia.
Qed.

Lemma counted_shorter fields : (length (rlpList (countedFields fields)) ≤ length (rlpList fields))%nat ∧
  (length (rlpList fields) = length (rlpList (countedFields fields)) → countedFields fields = fields).
Proof.
  assert ((length (rlpList (take 9 fields)) ≤ length (rlpList fields))%nat ∧
    (length (rlpList fields) = length (rlpList (take 9 fields)) → take 9 fields = fields)) as Htake.
  { pose proof (take_drop 9 fields) as Hsplit. generalize dependent (take 9 fields). intros first <-.
    destruct (drop 9 fields) as [|f more]; [by rewrite app_nil_r |]. pose proof (rlpList_longer first (f :: more) ltac:(done)). split; [lia | intros; lia]. }
  unfold countedFields. destruct (drop 9 fields) as [|f9 [|f10 more]]; [done | by case_bool_decide | done].
Qed.

Lemma transaction_shortest_bytes bs tx : deserializeTransaction bs = Ok tx →
  ∃ c, serializeTransaction tx = Ok c ∧ (length c ≤ length bs)%nat ∧ (length bs = length c → bs = c).
Proof.
  unfold deserializeTransaction. intros (fields & Hdec & Htx)%bind_Ok. destruct (decodeRlp_shortest bs fields Hdec) as (_ & Hle & Heq & _).
  destruct (counted_shorter fields) as [Hcle Hceq]. exists (rlpList (countedFields fields)). unfold serializeTransaction. rewrite (fieldsOf_inv fields tx Htx).
  split_and!; [cbn; by rewrite toRlp_spec | lia |]. intros Hlen. rewrite Hceq by lia. apply Heq. rewrite <- (Hceq ltac:(lia)). done.
Qed.

Lemma rlpPayload_le l : (length (rlpPayload l) ≤ length (rlpList l))%nat.
Proof. unfold rlpList. rewrite length_app. lia. Qed.

Lemma payload_fields fields n : Z.of_nat (length (rlpPayload fields)) < n → Forall (λ b, Z.of_nat (length b) < n) fields.
Proof.
  unfold rlpPayload. induction fields as [|b fields IH]; [by constructor |]. cbn. rewrite length_app. intros Hn. constructor; [| apply IH; lia].
  assert (length b ≤ length (rlpString b))%nat; [| lia]. unfold rlpString. destruct b as [|x [|y b]]; [cbn; lia | destruct (_ <? _); cbn; lia | rewrite length_app; lia].
Qed.

Lemma counted_read fields tx : transactionOfFields fields = Ok tx →
  transactionOfFields (countedFields fields) = Ok tx ∧ (9 ≤ length (countedFields fields) ≤ 10)%nat.
Proof.
  destruct fields as [|f0 [|f1 [|f2 [|f3 [|f4 [|f5 [|f6 [|f7 [|f8 more]]]]]]]]]; try done. unfold countedFields. cbn [drop].
  destruct more as [|f9 [|f10 more]]; intros Hf; [by split; [| cbn; lia] | | by split; [| cbn; lia]].
  change (drop 0 [f9]) with [f9]. cbv iota. case_bool_decide; subst; split; solve [exact Hf | cbn; lia].
Qed.

(** Among all bytes that are read as the same transaction, the serialized form
    is the shortest, and no other is as short: what the deserializer accepts, it
    accepts as a transaction that serializes to bytes that are not longer, that are
    the same if they are as long, and that are read as the transaction again. *)
Theorem transaction_shortest bs tx : deserializeTransaction bs = Ok tx → Z.of_nat (length bs) < 2 ^ 31 →
  ∃ c, serializeTransaction tx = Ok c ∧ (length c ≤ length bs)%nat ∧ (length bs = length c → bs = c) ∧ deserializeTransaction c = Ok tx.
Proof.
  intros Hread Hsize. destruct (transaction_shortest_bytes bs tx Hread) as (c & Hc & Hle & Heq). exists c. split_and!; [done | done | done |].
  apply bind_Ok in Hread as (fields & _ & Htx). unfold serializeTransaction in Hc. rewrite (fieldsOf_inv fields tx Htx) in Hc. cbn in Hc.
  rewrite toRlp_spec in Hc. injection Hc as <-. destruct (counted_read fields tx Htx) as [Hcount Hn]. pose proof (rlpPayload_le (countedFields fields)).
  unfold deserializeTransaction. rewrite decodeRlp_encode; [done | lia | lia | apply payload_fields; lia].
Qed.

(** A transaction in memory. *)
Record wfTransaction (tx : TransactionSerializable) : Prop := {
  wt_nonce : 0 ≤ ts_nonce tx;
  wt_value : 0 ≤ ts_value tx;
  wt_gasPrice : 0 ≤ ts_gasPrice tx < MAX_SAFE;
  wt_gasLimit : 0 ≤ ts_gasLimit tx < MAX_SAFE;
  wt_v : ts_v tx = 0 ∨ ts_v tx = 1;
  wt_network : 0 ≤ ts_network tx ∧ ts_network tx * 2 + 35 + ts_v tx < MAX_SAFE;
  wt_to : ∀ a, ts_to tx = Some a → ∃ b, b ≠ [] ∧ viem_getAddress ("0x" +:+ hexEncode b) = Ok a;
  wt_data : ∃ d, ts_data tx = "0x" +:+ hexEncode d;
  wt_r : isSignaturePart (ts_r tx);
  wt_s : isSignaturePart (ts_s tx);
  wt_second : ∀ signature, ts_legacySecondSignature tx = Some signature → ∃ b, b ≠ [] ∧ signature = hexEncode b;
}.

Lemma to_roundtrip to : (∀ a, to = Some a → ∃ b, b ≠ [] ∧ viem_getAddress ("0x" +:+ hexEncode b) = Ok a) →
  ∃ b, viem_toBytes (default "0x"%string (truthy to)) = Ok b ∧ parseTo b = Ok to.
Proof.
  intros Hto. destruct to as [a|]; [| exists []; split; [apply toBytes_empty | done]]. destruct (Hto a eq_refl) as (b & Hb & Ha). exists b.
  destruct (getAddress_bytes b a Ha) as [Hne Hbytes]. cbn. destruct (String.eqb_spec a ""); [done |]. split; [done |]. destruct b; [done |].
  cbn [parseTo]. by rewrite Ha.
Qed.

Lemma fieldsOf_wf tx : wfTransaction tx → ∃ fields, fieldsOf tx = Ok fields ∧ transactionOfFields fields = Ok tx ∧ (9 ≤ length fields ≤ 10)%nat.
Proof.
  intros []. destruct (to_roundtrip _ wt_to0) as (f3 & Hto & Hto'). destruct wt_data0 as (f5 & Hdata).
  destruct (signaturePart_roundtrip _ wt_r0) as (f7 & Hr & Hr' & _). destruct (signaturePart_roundtrip _ wt_s0) as (f8 & Hs & Hs' & _).
  destruct tx as [network to value gasPrice gasLimit nonce data v r s second]. cbn in *. subst data.
  assert (((network * 2 + 35 + v) - 35) / 2 = network) as Hchain by (replace (network * 2 + 35 + v - 35) with (v + network * 2) by lia; rewrite Z.div_add, Z.div_small by lia; lia).
  set (base := [beMin nonce; beMin gasPrice; beMin gasLimit; f3; beMin value; f5; beMin (network * 2 + 35 + v); f7; f8]).
  assert (∀ more, transactionOfFields (base ++ more) = Ok (mkTransactionSerializable network to value gasPrice gasLimit nonce ("0x" +:+ hexEncode f5) v r s
    (truthy (match more with [f9] => Some (hexEncode f9) | _ => None end)))) as Hparse.
  { intros more. unfold base. cbn [app transactionOfFields]. rewrite !parseBigInt_min, !parseNumber_min, Hto', Hr', Hs' by lia. cbn [mbind result_bind]. cbv zeta.
    rewrite Hchain. do 2 f_equal. lia. }
  unfold fieldsOf. cbn [ts_network ts_to ts_value ts_gasPrice ts_gasLimit ts_nonce ts_data ts_v ts_r ts_s ts_legacySecondSignature]. cbv zeta.
  rewrite !toBytes_min, Hto, toBytes_text, Hr, Hs by lia. cbn [mbind result_bind]. fold base.
  destruct second as [signature|]; [| exists base; rewrite <- (app_nil_r base) at 2; split_and!; [done | apply Hparse | cbn; lia | cbn; lia]].
  destruct (wt_second0 signature eq_refl) as (b & Hb & ->). exists (base ++ [b]).
  assert (truthy (Some (hexEncode b)) = Some (hexEncode b)) as Htr by (by destruct b). rewrite Htr, toBytes_text.
  split_and!; [done | rewrite Hparse, Htr; done | cbn; lia | cbn; lia].
Qed.

Lemma transaction_reads tx : wfTransaction tx →
  ∃ c, serializeTransaction tx = Ok c ∧ (Z.of_nat (length c) < 2 ^ 31 → deserializeTransaction c = Ok tx).
Proof.
  intros (fields & Hf & Htx & Hn)%fieldsOf_wf. exists (rlpList fields). unfold serializeTransaction. rewrite Hf. split; [cbn; by rewrite toRlp_spec |].
  intros Hlen. assert (Z.of_nat (length (rlpPayload fields)) < 2 ^ 31) as Hp by (pose proof (rlpPayload_le fields); lia).
  unfold deserializeTransaction. rewrite decodeRlp_encode; [done | lia | done | by apply payload_fields].
Qed.
(** A transaction survives its bytes, unless they are two gigabytes. *)
Theorem transaction_roundtrip tx : wfTransaction tx →
  ∃ c, serializeTransaction tx = Ok c ∧ (Z.of_nat (length c) < 2 ^ 31 → deserializeTransaction c = Ok tx).
Proof. apply transaction_reads. Qed.

(** The factory makes of data the transaction that has it. *)
Lemma fromData_keeps `{HashFactory} `{WalletCrypto} isAddress isPublicKey isAlphanumeric rules t tx : wfTransaction t →
  transactionFromData isAddress isPublicKey isAlphanumeric rules t = Ok tx → Z.of_nat (length (tx_serialized tx)) < 2 ^ 31 → serializable tx = t.
Proof.
  intros Hwf. unfold transactionFromData. destruct (transactionSignedValid _ _ _ _); [| done]. destruct (transaction_reads t Hwf) as (c & -> & Hread).
  cbn [mbind result_bind]. unfold transactionFromBytes. intros (t' & Ht & Hk)%bind_Ok. apply bind_Ok in Hk as ([[[from hash] legacy] key] & _ & Hk). cbv zeta in Hk.
  destruct (transactionStrictValid _ _ _ _ _); [| done]. injection Hk as <-. cbn [tx_serialized newTransaction]. intros Hsize. rewrite Hread in Ht by done.
  injection Ht as <-. by destruct t.
Qed.
End laws.

(** ** One transaction, many bytes *)
Section malleability.
Context `{Viem} `{ViemRlp} `{HashFactory} `{WalletCrypto}.
Context (isAddress isPublicKey isAlphanumeric : string → bool) (rules : TransactionRules).
#[local] Abbreviation fromBytes := (transactionFromBytes isAddress isPublicKey isAlphanumeric rules).

Definition withSerialized (serialized : list byte) (tx : Transaction) : Transaction :=
  newTransaction (serializable tx) (tx_from tx) (tx_hash tx) (tx_senderLegacyAddress tx) (tx_senderPublicKey tx) serialized.

Lemma fromBytes_same bs bs' tx : deserializeTransaction bs' = deserializeTransaction bs → fromBytes bs = Ok tx → fromBytes bs' = Ok (withSerialized bs' tx).
Proof.
  intros Hsame. unfold transactionFromBytes. rewrite Hsame. intros (t & -> & Hrun)%bind_Ok. cbn [mbind result_bind].
  apply bind_Ok in Hrun as ([[[from hash] legacy] key] & -> & Hrun). cbn [mbind result_bind]. cbv zeta in *.
  destruct (transactionStrictValid _ _ _ _ (newTransaction t from hash legacy key bs)) eqn:Hv in Hrun; [| done]. injection Hrun as <-.
  change (transactionStrictValid isAddress isPublicKey isAlphanumeric rules (newTransaction t from hash legacy key bs')) with
    (transactionStrictValid isAddress isPublicKey isAlphanumeric rules (newTransaction t from hash legacy key bs)). rewrite Hv. by destruct t.
Qed.

(** Fields that do not count. *)
Lemma fields_ignored fields more tx : length fields = 9%nat → (more = [[]] ∨ length more = 2%nat) →
  transactionOfFields fields = Ok tx → transactionOfFields (fields ++ more) = Ok tx.
Proof.
  intros Hl Hmore. destruct fields as [|f0 [|f1 [|f2 [|f3 [|f4 [|f5 [|f6 [|f7 [|f8 []]]]]]]]]]; try done. cbn [app transactionOfFields].
  destruct Hmore as [->|Hmore]; [done |]. by destruct more as [|a [|b []]].
Qed.

(** C19. Anyone can change the bytes of a signed transaction without changing the
    transaction.  Two fields of any content after the nine, an empty tenth field, or
    a header that announces 2^32 bytes too many are all accepted, with the same
    hash and sender, and are longer than the serialized form. *)
Theorem transaction_malleable c tx fields junk1 junk2 c' :
  fromBytes c = Ok tx → decodeRlp c = Ok fields → length fields = 9%nat →
  Z.of_nat (length (rlpPayload (fields ++ [junk1; junk2]))) < 2 ^ 31 →
  c' = rlpList (fields ++ [junk1; junk2]) ∨ c' = rlpList (fields ++ [[]]) ∨
  (56 ≤ length (rlpPayload fields))%nat ∧ c' = overlongHeader (length (rlpPayload fields)) ++ rlpPayload fields →
  fromBytes c' = Ok (withSerialized c' tx) ∧ (length (rlpList fields) < length c')%nat.
Proof.
  intros Hc Hdec Hnine Hsize Hc'. rewrite rlpPayload_app, length_app in Hsize.
  assert (∀ more, more = [junk1; junk2] ∨ more = [[]] → (length (rlpPayload more) ≤ length (rlpPayload [junk1; junk2]))%nat) as Hless.
  { intros more [->| ->]; [done |]. apply rlpPayload_more. done. }
  assert (deserializeTransaction c = transactionOfFields fields) as Hdes by (unfold deserializeTransaction; by rewrite Hdec).
  assert (∃ t, transactionOfFields fields = Ok t) as [t Ht].
  { unfold transactionFromBytes in Hc. rewrite Hdes in Hc. destruct (transactionOfFields fields) as [t|]; [by exists t | done]. }
  assert (∀ more, more = [junk1; junk2] ∨ more = [[]] → fromBytes (rlpList (fields ++ more)) = Ok (withSerialized (rlpList (fields ++ more)) tx)) as Hmore.
  { intros more Hm. apply (fromBytes_same c); [| done]. rewrite Hdes, Ht. specialize (Hless more Hm). unfold deserializeTransaction. rewrite decodeRlp_encode.
    - cbn. apply fields_ignored; [done | destruct Hm as [->| ->]; [by right | by left] | done].
    - rewrite length_app. destruct Hm as [->| ->]; cbn; lia.
    - rewrite rlpPayload_app, length_app. lia.
    - apply payload_fields. rewrite rlpPayload_app, length_app. lia. }
  destruct Hc' as [->|[->|[H56 ->]]]; [split; [apply Hmore; by left | by apply rlpList_longer] | split; [apply Hmore; by right | by apply rlpList_longer] |].
  split.
  - apply (fromBytes_same c); [| done]. rewrite Hdes. unfold deserializeTransaction.
    rewrite decodeRlp_overlong; [done | lia | lia | apply payload_fields; lia].
  - unfold rlpList. rewrite !length_app, length_rlpLength, (proj2 (Nat.ltb_ge _ _)) by done.
    assert (byteLength (Z.of_nat (length (rlpPayload fields))) ≤ 4)%nat by (apply byteLength_le; change (256 ^ Z.of_nat 4) with (2 ^ 32); lia).
    unfold overlongHeader. cbn [length]. rewrite length_be_encode. lia.
Qed.
End malleability.
