(* ===== verification/Configuration.v ===== *)
(** * packages/crypto-config/source/configuration.ts

    The milestones of a network: a list of partial parameter sets, each taking
    effect at a height and inheriting what it does not set.  [getMilestone] walks
    from the milestone it returned last; it is shown to be the lookup by height
    whatever that cached position is.  The numeric properties of milestones are
    modelled; the library deepmerge is a parameter. *)
From S2P Require Import Prelude.

(** A milestone: its height and its numeric properties. *)
Record Milestone := mkMilestone {
  ml_height : Z;
  ml_props : gmap string Z;
}.
#[export] Instance Milestone_eq_dec : EqDecision Milestone.
Proof. solve_decision. Defined.

Definition roundValidatorsOf (m : Milestone) : option Z := ml_props m !! "roundValidators".

(** deepmerge of the numeric properties: those of the source win. *)
Class Deepmerge := {
  deepmerge : gmap string Z → gmap string Z → gmap string Z;
}.
Class DeepmergeLaws `{Deepmerge} : Prop := {
  deepmerge_lookup a b k : deepmerge a b !! k = match b !! k with Some v => Some v | None => a !! k end;
}.

(** [NetworkConfigPartial], and the state of the service: the built
    configuration with the cached milestone, the height and the verify flag. *)
Record NetworkConfig := mkNetworkConfig {
  nc_genesisNumber : Z;
  nc_milestones : list Milestone;
}.
Record Configuration := mkConfiguration {
  cf_config : option NetworkConfig;
  cf_index : nat;
  cf_height : Z;
  cf_verify : bool;
}.
#[export] Instance eta_Configuration : Eta Configuration := λ c,
  mkConfiguration (cf_config c) (cf_index c) (cf_height c) (cf_verify c).
Definition newConfiguration : Configuration := mkConfiguration None 0 0 true.

(** [milestones.sort((a, b) => a.height - b.height)], which is stable. *)
Fixpoint insertByHeight (m : Milestone) (l : list Milestone) : list Milestone :=
  match l with
  | [] => [m]
  | m' :: l' => if ml_height m <=? ml_height m' then m :: l else m' :: insertByHeight m l'
  end.
Definition sortByHeight (l : list Milestone) : list Milestone := foldr insertByHeight [] l.

Section configuration.
Context `{Deepmerge}.
(** [validator.validate("cryptoConfig", config)] *)
Context (validConfig : NetworkConfig → bool).

Definition getConfig : M Configuration NetworkConfig :=
  c ← get; liftR (assert_defined (cf_config c)).

(** ** [#checkRoundValidators] *)
Definition InvalidNumberOfRoundValidatorsError : Error := NamedError "InvalidNumberOfRoundValidatorsError".
Definition InvalidMilestoneConfigurationError : Error := NamedError "InvalidMilestoneConfigurationError".

Fixpoint checkChanges (previous : Z * Z) (l : list (Z * Z)) : result unit :=
  match l with
  | [] => Ok tt
  | current :: rest =>
      if negb (previous.2 =? current.2) && negb (Z.rem (current.1 - previous.1) previous.2 =? 0)
      then Throw InvalidMilestoneConfigurationError
      else checkChanges current rest
  end.

(** The milestones that set [roundValidators], as (height, value), in order. *)
Definition validatorMilestones (l : list Milestone) : list (Z * Z) :=
  omap (λ m, (λ v, (ml_height m, v)) <$> roundValidatorsOf m) l.

Definition checkRoundValidators (config : NetworkConfig) : result unit :=
  let initialHeight := nc_genesisNumber config in
  let milestones := validatorMilestones (sortByHeight (nc_milestones config)) in
  if existsb (λ m, (initialHeight <? m.1) && (m.2 =? 0)) milestones
  then Throw InvalidNumberOfRoundValidatorsError
  else
    match milestones with
    | genesis :: rest =>
        if negb (genesis.1 =? initialHeight) || negb (genesis.2 =? 0)
        then Throw InvalidNumberOfRoundValidatorsError
        else
          match rest with
          | first :: rest' =>
              if negb (first.1 =? initialHeight + 1) then Throw InvalidNumberOfRoundValidatorsError
              else checkChanges first rest'
          | [] => Throw InvalidNumberOfRoundValidatorsError
          end
    | [] => Throw InvalidNumberOfRoundValidatorsError
    end.

(** ** [#buildMilestones] *)
Fixpoint mergeFrom (last : Milestone) (l : list Milestone) : list Milestone :=
  match l with
  | [] => []
  | m :: rest =>
      let merged := mkMilestone (ml_height m) (deepmerge (ml_props last) (ml_props m)) in
      merged :: mergeFrom merged rest
  end.
Definition buildMilestones (l : list Milestone) : list Milestone :=
  match sortByHeight l with
  | [] => []
  | m :: rest => m :: mergeFrom m rest
  end.

Definition buildConstants (config : NetworkConfig) : M Configuration unit :=
  _ ← liftR (checkRoundValidators config);
  let buildConfig := mkNetworkConfig (nc_genesisNumber config) (buildMilestones (nc_milestones config)) in
  c ← get;
  if cf_verify c && negb (validConfig buildConfig) then throw (NamedError "MessageSchemaError")
  else modify (λ c, c <| cf_config := Some buildConfig |> <| cf_index := 0%nat |>).

Definition setConfig (config : NetworkConfig) (verify : bool) : M Configuration unit :=
  modify (λ c, c <| cf_height := nc_genesisNumber config |> <| cf_verify := verify |>);;
  buildConstants config.

(** [set("milestones", value)]: the built milestones are replaced and built anew. *)
Definition setMilestones (milestones : list Milestone) : M Configuration unit :=
  config ← getConfig; buildConstants (mkNetworkConfig (nc_genesisNumber config) milestones).

Definition setHeight (value : Z) : M Configuration unit := modify (λ c, c <| cf_height := value |>).
Definition getHeight (c : Configuration) : Z := cf_height c.
Definition getGenesisHeight : M Configuration Z := config ← getConfig; mret (nc_genesisNumber config).

Definition heightOr (height : option Z) : M Configuration Z :=
  c ← get; mret (default (cf_height c) height).

Definition isNewMilestone (height : option Z) : M Configuration bool :=
  config ← getConfig; h ← heightOr height;
  mret (existsb (λ m, ml_height m =? h) (nc_milestones config)).

(** ** [getMilestone]: the two loops over the cached index *)
Definition heightAt (l : list Milestone) (i : nat) : option Z := ml_height <$> l !! i.

(** [while (index < length - 1 && height >= milestones[index + 1].height)] *)
Fixpoint forward (fuel : nat) (l : list Milestone) (h : Z) (i : nat) : nat :=
  match fuel with
  | O => i
  | S fuel' =>
      match heightAt l (S i) with
      | Some h' => if h' <=? h then forward fuel' l h (S i) else i
      | None => i
      end
  end.

(** [while (height < milestones[index].height)]; before the first milestone the
    read of [milestones[-1].height] throws. *)
Fixpoint backward (l : list Milestone) (h : Z) (i : nat) : result nat :=
  match heightAt l i with
  | None => Throw (JSError "Cannot read properties of undefined")
  | Some h' =>
      if h <? h' then
        match i with
        | O => Throw (JSError "Cannot read properties of undefined")
        | S i' => backward l h i'
        end
      else Ok i
  end.

Definition milestoneIndex (l : list Milestone) (i : nat) (h : Z) : result nat :=
  backward l h (forward (length l) l h i).

Definition getMilestone (height : option Z) : M Configuration Milestone :=
  config ← getConfig;
  h ← heightOr height;
  c ← get;
  i ← liftR (milestoneIndex (nc_milestones config) (cf_index c) h);
  modify (λ c, c <| cf_index := i |>);;
  liftR (assert_defined (nc_milestones config !! i)).

(** ** [getNextMilestoneWithNewKey], for numeric keys *)
Record MilestoneSearchResult := mkSearchResult {
  sr_data : option Z;
  sr_found : bool;
  sr_height : Z;
}.

Definition isNewKey (key : string) (current : option Z) (previousMilestone : Z) (m : Milestone) : bool :=
  match ml_props m !! key with
  | Some v => negb (v =? 0) && negb (bool_decide (Some v = current)) && (previousMilestone <? ml_height m)
  | None => false
  end.

Definition getNextMilestoneWithNewKey (previousMilestone : Z) (key : string) : M Configuration MilestoneSearchResult :=
  config ← getConfig;
  let milestones := nc_milestones config in
  if existsb (λ m, match ml_props m !! key with Some v => negb (v =? 0) | None => false end) milestones then
    current ← getMilestone (Some previousMilestone);
    match List.find (isNewKey key (ml_props current !! key) previousMilestone) milestones with
    | Some m => mret (mkSearchResult (ml_props m !! key) true (ml_height m))
    | None => mret (mkSearchResult None false previousMilestone)
    end
  else mret (mkSearchResult None false previousMilestone).

Definition getMilestones : M Configuration (list Milestone) :=
  config ← getConfig; mret (nc_milestones config).

(** [Math.max] of the numbers of validators; [None] stands for [NaN], when a
    milestone has none, and for [-Infinity], when there is no milestone. *)
Definition getMaxRoundValidators : M Configuration (option Z) :=
  config ← getConfig;
  mret (match mapM roundValidatorsOf (nc_milestones config) with
        | Some (v :: l) => Some (foldl Z.max v l)
        | _ => None
        end).
End configuration.

(** ** Correctness of the lookup *)

(** The reference: the last milestone at or below a height. *)
Definition milestoneAt (l : list Milestone) (h : Z) : option Milestone :=
  last (List.filter (λ m, ml_height m <=? h) l).

Definition sortedHeights (l : list Milestone) : Prop :=
  ∀ i j m m', (i ≤ j)%nat → l !! i = Some m → l !! j = Some m' → ml_height m ≤ ml_height m'.

Lemma heightAt_Some l i h : heightAt l i = Some h ↔ ∃ m, l !! i = Some m ∧ ml_height m = h.
Proof. 
  unfold heightAt. destruct (l !! i) as [m|]; cbn; split.
  - intros [= <-]. eauto.
  - by intros (? & [= <-] & <-).
  - done.
  - by intros (? & ? & ?).
Qed.

(** The last index at or below [h] of a sorted list is the one whose successor lies above. *)
Lemma milestoneAt_index l h i m :
  sortedHeights l → l !! i = Some m → ml_height m ≤ h →
  (∀ m', l !! S i = Some m' → h < ml_height m') → milestoneAt l h = Some m.
Proof.
  intros Hs Hi Hle Hnext. unfold milestoneAt. rewrite <- (take_drop (S i) l), List.filter_app.
  assert (List.filter (λ m, ml_height m <=? h) (drop (S i) l) = []) as ->.
  { apply elem_of_nil_inv. intros x [Hx Hhx]%list_elem_of_In%filter_In. apply Z.leb_le in Hhx.
    apply list_elem_of_In, list_elem_of_lookup in Hx as [k Hk]. rewrite lookup_drop in Hk.
    destruct (l !! S i) as [m'|] eqn:Hm'; [| apply lookup_ge_None in Hm'; apply lookup_lt_Some in Hk; lia].
    specialize (Hnext m' eq_refl). pose proof (Hs (S i) (S i + k)%nat m' x ltac:(lia) Hm' Hk). lia. }
  rewrite app_nil_r. assert (List.filter (λ m, ml_height m <=? h) (take (S i) l) = take (S i) l) as ->.
  { apply List.forallb_filter_id, forallb_forall. intros x Hx%list_elem_of_In.
    apply Z.leb_le. apply list_elem_of_lookup in Hx as [k Hk]. apply lookup_take_Some in Hk as [Hk Hlt].
    pose proof (Hs k i x m ltac:(lia) Hk Hi). lia. }
  rewrite (take_S_r _ _ m Hi). apply last_snoc.
Qed.

Lemma forward_spec fuel l h i j :
  (length l ≤ fuel + i)%nat → (i < length l)%nat → forward fuel l h i = j →
  (i ≤ j < length l)%nat ∧ (∀ m', l !! S j = Some m' → h < ml_height m') ∧
  (i = j ∨ ∃ m, l !! j = Some m ∧ ml_height m ≤ h).
Proof.
  revert i; induction fuel as [|fuel IH]; intros i Hf Hi; cbn; [lia |].
  destruct (heightAt l (S i)) as [h'|] eqn:Hh.
  - apply heightAt_Some in Hh as (m & Hm & <-). destruct (Z.leb_spec (ml_height m) h) as [Hle|Hgt].
    + intros Hj. apply lookup_lt_Some in Hm as Hlt. destruct (IH (S i)) as (Hr & Hn & Hc); [lia | lia | done |].
      split; [lia |]. split; [done |]. right. destruct Hc as [<-|?]; [eauto | done].
    + intros <-. split; [lia |]. split; [| by left]. intros m' Hm'. rewrite Hm in Hm'. by injection Hm' as <-.
  - intros <-. split; [lia |]. split; [| by left]. intros m' Hm'. unfold heightAt in Hh. by rewrite Hm' in Hh.
Qed.

Lemma backward_spec l h j :
  (j < length l)%nat →
  match backward l h j with
  | Ok i => (i ≤ j)%nat ∧ (∃ m, l !! i = Some m ∧ ml_height m ≤ h) ∧
            ∀ k m, (i < k ≤ j)%nat → l !! k = Some m → h < ml_height m
  | Throw _ => ∀ k m, (k ≤ j)%nat → l !! k = Some m → h < ml_height m
  end.
Proof.
  induction j as [|j IH]; intros Hj; cbn [backward]; destruct (lookup_lt_is_Some_2 l _ Hj) as [m Hm];
    rewrite (proj2 (heightAt_Some l _ (ml_height m)) (ex_intro _ m (conj Hm eq_refl)));
    destruct (Z.ltb_spec h (ml_height m)) as [Hlt|Hge].
  - intros k m' Hk Hm'. replace k with 0%nat in Hm' by lia. rewrite Hm in Hm'. by injection Hm' as <-.
  - split; [lia |]. split; [eauto |]. intros k m' Hk. lia.
  - specialize (IH ltac:(lia)).
    assert (∀ k m', k = S j → l !! k = Some m' → h < ml_height m') as Hlast.
    { intros k m' -> Hm'. rewrite Hm in Hm'. by injection Hm' as <-. }
    destruct (backward l h j) as [i|].
    + destruct IH as (Hi & Hex & Hall). split; [lia |]. split; [done |]. intros k m' Hk Hm'.
      destruct (decide (k = S j)); [by eapply Hlast | eapply Hall; [| done]; lia].
    + intros k m' Hk Hm'. destruct (decide (k = S j)); [by eapply Hlast | eapply IH; [| done]; lia].
  - split; [lia |]. split; [eauto |]. intros k m' Hk. lia.
Qed.

Lemma backward_error l h j e : backward l h j = Throw e → e ≠ OutOfFuel.
Proof.
  induction j as [|j IH]; cbn [backward]; destruct (heightAt l _); try (by intros [= <-]); destruct (h <? _);
    try done; by intros [= <-].
Qed.

(** The walk from any cached index finds the reference milestone, or throws when
    the height lies before the first one. *)
Lemma milestoneIndex_spec l i h :
  sortedHeights l → (i < length l)%nat →
  match milestoneIndex l i h with
  | Ok j => ∃ m, l !! j = Some m ∧ milestoneAt l h = Some m
  | Throw _ => milestoneAt l h = None
  end.
Proof.
  intros Hs Hi. unfold milestoneIndex. set (j := forward (length l) l h i).
  destruct (forward_spec (length l) l h i j) as (Hj & Hnext & Hcase); [lia | done | done |].
  pose proof (backward_spec l h j ltac:(lia)) as Hb. destruct (backward l h j) as [k|].
  - destruct Hb as (Hk & (m & Hm & Hle) & Hall). exists m. split; [done |].
    eapply milestoneAt_index; [done | done | done |]. intros m' Hm'.
    destruct (decide (k = j)) as [->|Hne]; [by apply Hnext | eapply Hall; [| done]; lia].
  - unfold milestoneAt. replace (List.filter _ l) with (@nil Milestone); [done |]. symmetry.
    apply elem_of_nil_inv. intros x [Hx Hhx]%list_elem_of_In%filter_In. apply Z.leb_le in Hhx.
    apply list_elem_of_In, list_elem_of_lookup in Hx as [k Hk].
    destruct (decide (k ≤ j)%nat) as [Hkj|Hkj]; [specialize (Hb k x Hkj Hk); lia |].
    destruct Hcase as [<-|(m & Hm & Hle)]; [| specialize (Hb j m ltac:(lia) Hm); lia].
    destruct (lookup_lt_is_Some_2 l i ltac:(lia)) as [m Hm]. specialize (Hb i m ltac:(lia) Hm).
    pose proof (Hs i k m x ltac:(lia) Hm Hk). lia.
Qed.

(** ** Building *)
Lemma sortedHeights_cons m l :
  sortedHeights (m :: l) ↔ (∀ m', m' ∈ l → ml_height m ≤ ml_height m') ∧ sortedHeights l.
Proof.
  split.
  - intros Hs. split; [| intros i j a b Hij Ha Hb; by apply (Hs (S i) (S j)); [lia | |]].
    intros m' [k Hk]%list_elem_of_lookup. by apply (Hs 0%nat (S k)); [lia | |].
  - intros [Hm Hs] [|i] [|j] a b Hij Ha Hb; cbn in Ha, Hb; [| | lia |].
    + injection Ha as <-. injection Hb as <-. done.
    + injection Ha as <-. apply Hm. by eapply list_elem_of_lookup_2.
    + by apply (Hs i j); [lia | |].
Qed.

Lemma insertByHeight_perm m l : insertByHeight m l ≡ₚ m :: l.
Proof.
  induction l as [|m' l IH]; [done |]. cbn. destruct (_ <=? _); [done |]. rewrite IH. apply Permutation_swap.
Qed.
Lemma sortByHeight_perm l : sortByHeight l ≡ₚ l.
Proof. induction l as [|m l IH]; [done |]. cbn. by rewrite insertByHeight_perm, IH. Qed.

Lemma insertByHeight_sorted m l : sortedHeights l → sortedHeights (insertByHeight m l).
Proof.
  induction l as [|m' l IH]; intros Hs; cbn [insertByHeight].
  { apply sortedHeights_cons. split; [by intros ? ?%elem_of_nil | done]. }
  apply sortedHeights_cons in Hs as Hs'. destruct Hs' as [Hm Hl].
  destruct (Z.leb_spec (ml_height m) (ml_height m')) as [Hle|Hgt]; apply sortedHeights_cons.
  - split; [| done]. intros x [->|Hx]%elem_of_cons; [done |]. specialize (Hm x Hx). lia.
  - split; [| by apply IH]. intros x Hx. rewrite insertByHeight_perm in Hx.
    apply elem_of_cons in Hx as [->|Hx]; [lia | by apply Hm].
Qed.
Lemma sortByHeight_sorted l : sortedHeights (sortByHeight l).
Proof.
  induction l as [|m l IH]; cbn; [intros ? ? ? ? ? Hl; by rewrite lookup_nil in Hl | by apply insertByHeight_sorted].
Qed.

Section build.
Context `{Deepmerge}.

Lemma mergeFrom_heights last l : ml_height <$> mergeFrom last l = ml_height <$> l.
Proof. revert last; induction l as [|m l IH]; intros last; [done |]. cbn. by rewrite IH. Qed.

Lemma buildMilestones_heights l : ml_height <$> buildMilestones l = ml_height <$> sortByHeight l.
Proof. unfold buildMilestones. destruct (sortByHeight l); [done |]. cbn. by rewrite mergeFrom_heights. Qed.

Lemma sortedHeights_fmap l l' : ml_height <$> l' = ml_height <$> l → sortedHeights l → sortedHeights l'.
Proof.
  intros Heq Hs i j m m' Hij Hi Hj.
  assert (∀ k x, l' !! k = Some x → ∃ y, l !! k = Some y ∧ ml_height y = ml_height x) as Hk.
  { intros k x Hx. assert ((ml_height <$> l) !! k = Some (ml_height x)) as Hl
      by (by rewrite <- Heq, list_lookup_fmap, Hx).
    rewrite list_lookup_fmap in Hl. destruct (l !! k) as [y|]; [| done]. injection Hl as Hl. eauto. }
  destruct (Hk i m Hi) as (y & Hy & <-), (Hk j m' Hj) as (y' & Hy' & <-). by apply (Hs i j).
Qed.

Lemma buildMilestones_sorted l : sortedHeights (buildMilestones l).
Proof. eapply sortedHeights_fmap; [apply buildMilestones_heights | apply sortByHeight_sorted]. Qed.

(** The specification of inheritance: the last value set at or below a height. *)
Definition setAt (k : string) (h : Z) (m : Milestone) : option Z :=
  if ml_height m <=? h then ml_props m !! k else None.
Definition valueAt (l : list Milestone) (k : string) (h : Z) : option Z :=
  last (omap (setAt k h) (sortByHeight l)).

Context `{!DeepmergeLaws}.

(** Walking the merged list carries the last value set so far. *)
Lemma mergeFrom_value k h m l acc :
  sortedHeights (m :: l) → ml_height m ≤ h → acc = ml_props m !! k →
  ∃ x, last (List.filter (λ m, ml_height m <=? h) (m :: mergeFrom m l)) = Some x ∧
       ml_props x !! k = match last (omap (setAt k h) l) with Some v => Some v | None => acc end.
Proof.
  revert m acc; induction l as [|m' l IH]; intros m acc Hs Hle ->.
  { cbn. rewrite (proj2 (Z.leb_le _ _) Hle). eauto. }
  apply sortedHeights_cons in Hs as [Hm Hs]. cbn [mergeFrom].
  set (merged := mkMilestone (ml_height m') (deepmerge (ml_props m) (ml_props m'))).
  destruct (decide (ml_height m' ≤ h)) as [Hle'|Hgt].
  - destruct (IH merged (ml_props merged !! k)) as (x & Hx & Hv); [| done | done |].
    { apply (sortedHeights_fmap (m' :: l)); done. }
    exists x. split.
    + cbn [List.filter]. rewrite (proj2 (Z.leb_le _ _) Hle). rewrite last_cons.
      change (if ml_height merged <=? h then merged :: List.filter (λ m0, ml_height m0 <=? h) (mergeFrom merged l)
              else List.filter (λ m0, ml_height m0 <=? h) (mergeFrom merged l))
        with (List.filter (λ m0, ml_height m0 <=? h) (merged :: mergeFrom merged l)). by rewrite Hx.
    + rewrite Hv. cbn [omap list_omap]. unfold setAt at 2. rewrite (proj2 (Z.leb_le _ _) Hle').
      subst merged. cbn. rewrite deepmerge_lookup.
      destruct (ml_props m' !! k) as [v|]; [| done]. rewrite last_cons. by destruct (last _).
  - assert (∀ y, y ∈ m' :: l → h < ml_height y) as Hall.
    { intros y [->|Hy]%elem_of_cons; [lia |]. apply sortedHeights_cons in Hs as [Hm' _]. specialize (Hm' y Hy). lia. }
    exists m. split.
    + cbn [List.filter]. rewrite (proj2 (Z.leb_le _ _) Hle).
      replace (if ml_height merged <=? h then _ else _) with (@nil Milestone); [done |]. symmetry.
      change (List.filter (λ m0, ml_height m0 <=? h) (merged :: mergeFrom merged l) = []).
      apply elem_of_nil_inv. intros y [Hy Hhy]%list_elem_of_In%filter_In. apply Z.leb_le in Hhy.
      assert (ml_height y ∈ ml_height <$> m' :: l) as (z & Hz & Hin)%list_elem_of_fmap.
      { change (ml_height y ∈ ml_height m' :: (ml_height <$> l)). rewrite <- (mergeFrom_heights merged l).
        change (ml_height y ∈ ml_height <$> merged :: mergeFrom merged l).
        apply list_elem_of_fmap_2, list_elem_of_In, Hy. }
      specialize (Hall z Hin). lia.
    + replace (omap (setAt k h) (m' :: l)) with (@nil Z); [done |]. symmetry.
      apply elem_of_nil_inv. intros y (z & Hz & Hv)%list_elem_of_omap. specialize (Hall z Hz).
      unfold setAt in Hv. by rewrite (proj2 (Z.leb_gt _ _) Hall) in Hv.
Qed.

Lemma milestone_value l k h m :
  milestoneAt (buildMilestones l) h = Some m → ml_props m !! k = valueAt l k h.
Proof.
  unfold milestoneAt, buildMilestones, valueAt. pose proof (sortByHeight_sorted l) as Hs.
  destruct (sortByHeight l) as [|m0 rest]; [done |]. intros Hl.
  destruct (decide (ml_height m0 ≤ h)) as [Hle|Hgt].
  - destruct (mergeFrom_value k h m0 rest _ Hs Hle eq_refl) as (x & Hx & Hv). rewrite Hx in Hl. injection Hl as ->.
    rewrite Hv. cbn [omap list_omap]. unfold setAt at 2. rewrite (proj2 (Z.leb_le _ _) Hle).
    destruct (ml_props m0 !! k) as [v|]; [| by destruct (last _)]. rewrite last_cons. by destruct (last _).
  - exfalso. apply last_Some_elem_of, list_elem_of_In, filter_In in Hl as [Hin Hh]. apply Z.leb_le in Hh.
    assert (ml_height m ∈ ml_height <$> m0 :: rest) as (z & Hz & Hin')%list_elem_of_fmap.
    { change (ml_height m ∈ ml_height m0 :: (ml_height <$> rest)). rewrite <- (mergeFrom_heights m0 rest).
      change (ml_height m ∈ ml_height <$> m0 :: mergeFrom m0 rest).
      apply list_elem_of_fmap_2, list_elem_of_In, Hin. }
    apply sortedHeights_cons in Hs as [Hm _]. apply elem_of_cons in Hin' as [->|Hin']; [lia |].
    specialize (Hm z Hin'). lia.
Qed.
End build.

(** ** The service *)
Record wfConfiguration (c : Configuration) (config : NetworkConfig) : Prop := {
  wc_config : cf_config c = Some config;
  wc_sorted : sortedHeights (nc_milestones config);
  wc_index : (cf_index c < length (nc_milestones config))%nat;
}.

Section service.
Context `{Deepmerge} (validConfig : NetworkConfig → bool).

Lemma getMilestone_ok c config h m :
  wfConfiguration c config → milestoneAt (nc_milestones config) h = Some m →
  ∃ i, getMilestone (Some h) c = (Ok m, c <| cf_index := i |>) ∧ wfConfiguration (c <| cf_index := i |>) config.
Proof.
  intros [Hc Hs Hi] Hm. unfold getMilestone, getConfig, heightOr, mbind, M_bind, get, liftR, modify. rewrite Hc.
  cbn [assert_defined default mret M_ret].
  pose proof (milestoneIndex_spec (nc_milestones config) (cf_index c) h Hs Hi) as Hx. cbn.
  destruct (milestoneIndex _ _ _) as [i|]; [| congruence].
  destruct Hx as (m' & Hl & Hm'). exists i. cbn. rewrite Hl. cbn. split; [congruence |].
  split; [done | done |]. cbn. by eapply lookup_lt_Some.
Qed.

Lemma getMilestone_fail c config h :
  wfConfiguration c config → milestoneAt (nc_milestones config) h = None →
  ∃ e, getMilestone (Some h) c = (Throw e, c) ∧ e ≠ OutOfFuel.
Proof.
  intros [Hc Hs Hi] Hm. unfold getMilestone, getConfig, heightOr, mbind, M_bind, get, liftR, modify. rewrite Hc.
  cbn [assert_defined default mret M_ret].
  pose proof (milestoneIndex_spec (nc_milestones config) (cf_index c) h Hs Hi) as Hx. cbn.
  destruct (milestoneIndex _ _ _) as [i|e] eqn:He; [destruct Hx as (? & _ & ?); congruence |].
  exists e. split; [done |]. by eapply backward_error.
Qed.

Lemma setConfig_ok config verify c c' :
  setConfig validConfig config verify c = (Ok tt, c') →
  buildMilestones (nc_milestones config) ≠ [] ∧
  wfConfiguration c' (mkNetworkConfig (nc_genesisNumber config) (buildMilestones (nc_milestones config))) ∧
  checkRoundValidators config = Ok tt.
Proof.
  unfold setConfig, buildConstants, mbind, M_bind, modify, liftR, get.
  destruct (checkRoundValidators config) as [[]|] eqn:Hcheck; [| done].
  destruct (_ && _); [done |]. intros [= <-].
  assert (buildMilestones (nc_milestones config) ≠ []) as Hne.
  { unfold checkRoundValidators in Hcheck. intros Hb%(f_equal (fmap ml_height)).
    rewrite buildMilestones_heights in Hb. destruct (sortByHeight (nc_milestones config)); [| done].
    cbn in Hcheck. done. }
  split; [done |]. split; [| done]. split; [done | apply buildMilestones_sorted |]. cbn.
  destruct (buildMilestones _); [done | cbn; lia].
Qed.
End service.

(** The cached walk is the lookup: wherever the previous call left the
    cached index, [getMilestone(height)] returns the last milestone at or below
    the height, and leaves a state in which the same holds. *)
Theorem getMilestone_cached c config h m :
  wfConfiguration c config → milestoneAt (nc_milestones config) h = Some m →
  ∃ c', getMilestone (Some h) c = (Ok m, c') ∧ wfConfiguration c' config.
Proof. intros Hwf Hm. destruct (getMilestone_ok c config h m Hwf Hm) as (i & ? & ?). eauto. Qed.

(** Milestones inherit: after [setConfig] accepted a configuration, a
    numeric property of the milestone in effect at a height is the value that
    the last milestone at or below the height that sets the property gives it,
    whatever lookups came before. *)
Theorem milestone_inheritance `{DeepmergeLaws} validConfig config verify c c' i h k m c'' :
  setConfig validConfig config verify c = (Ok tt, c') →
  (i < length (buildMilestones (nc_milestones config)))%nat →
  getMilestone (Some h) (c' <| cf_index := i |>) = (Ok m, c'') →
  ml_props m !! k = valueAt (nc_milestones config) k h.
Proof.
  intros (Hne & [Hc Hs _] & _)%setConfig_ok Hi Hg.
  assert (wfConfiguration (c' <| cf_index := i |>)
    (mkNetworkConfig (nc_genesisNumber config) (buildMilestones (nc_milestones config)))) as Hwf by (by split).
  apply milestone_value. destruct (milestoneAt (buildMilestones (nc_milestones config)) h) as [m'|] eqn:Hm.
  - destruct (getMilestone_ok _ _ h m' Hwf Hm) as (j & Hj & _). rewrite Hj in Hg. by injection Hg as ->.
  - destruct (getMilestone_fail _ _ h Hwf Hm) as (e & He & _). by rewrite He in Hg.
Qed.
