(* ===== verification/RoundCalculator.v ===== *)
(** * packages/blockchain-utils/source/round-calculator.ts

    Heights are divided into rounds of [roundValidators] blocks; a milestone may
    change that number.  The calculator derives from the milestones the spans of
    heights with a constant number of validators, and from a span the round of a
    height. *)
From S2P Require Import Prelude Configuration.

Record ValidatorSpan := mkSpan {
  sp_startHeight : Z;
  sp_endHeight : option Z;
  sp_startRound : Z;
  sp_roundValidators : Z;
}.

(** [Contracts.Shared.RoundInfo]. *)
Record RoundInfo := mkRoundInfo {
  ri_maxValidators : Z;
  ri_nextRound : Z;
  ri_round : Z;
  ri_roundHeight : Z;
}.

(** [roundValidators] of a milestone; arithmetic on [undefined] has no result. *)
Definition validatorsOf (m : Milestone) : result Z :=
  match roundValidatorsOf m with
  | Some v => Ok v
  | None => Throw (JSError "NaN")
  end.

(** The loop of [#getValidatorSpans]; each turn moves to a later milestone. *)
Fixpoint spansLoop (fuel : nat) (startHeight startRound roundValidators : Z) : M Configuration (list ValidatorSpan) :=
  nextMilestone ← getNextMilestoneWithNewKey startHeight "roundValidators";
  if negb (sr_found nextMilestone) then mret [mkSpan startHeight None startRound roundValidators]
  else
    let spanHeights := sr_height nextMilestone - startHeight in
    if negb (Z.rem spanHeights roundValidators =? 0) then throw InvalidMilestoneConfigurationError
    else
      match fuel with
      | O => throw OutOfFuel
      | S fuel' =>
          data ← liftR (assert_defined (sr_data nextMilestone));
          rest ← spansLoop fuel' (sr_height nextMilestone) (startRound + spanHeights / roundValidators) data;
          mret (mkSpan startHeight (Some (sr_height nextMilestone - 1)) startRound roundValidators :: rest)
      end.

Definition getValidatorSpans : M Configuration (list ValidatorSpan) :=
  genesisHeight ← getGenesisHeight;
  let startHeight := genesisHeight + 1 in
  milestone ← getMilestone (Some startHeight);
  roundValidators ← liftR (validatorsOf milestone);
  milestones ← getMilestones;
  spansLoop (length milestones) startHeight 1 roundValidators.

Definition covers (height : Z) (s : ValidatorSpan) : bool :=
  match sp_endHeight s with None => true | Some e => height <=? e end.

Definition getValidatorSpan (height : Z) : M Configuration ValidatorSpan :=
  genesisHeight ← getGenesisHeight;
  if height <? genesisHeight then throw (JSError "Height is below the genesis height")
  else
    spans ← getValidatorSpans;
    liftR (assert_defined (List.find (covers height) spans)).

Definition roundOfSpan (height : Z) (s : ValidatorSpan) : RoundInfo :=
  let heightsIntoSpan := height - sp_startHeight s in
  let roundsIntoSpan := heightsIntoSpan / sp_roundValidators s in
  let round := sp_startRound s + roundsIntoSpan in
  mkRoundInfo (sp_roundValidators s)
    (if Z.rem (heightsIntoSpan + 1) (sp_roundValidators s) =? 0 then round + 1 else round)
    round (sp_startHeight s + roundsIntoSpan * sp_roundValidators s).

Definition calculateRound (height : Z) : M Configuration RoundInfo :=
  genesisHeight ← getGenesisHeight;
  if height =? genesisHeight then mret (mkRoundInfo 0 1 0 genesisHeight)
  else s ← getValidatorSpan height; mret (roundOfSpan height s).

Definition isNewRound (height : Z) : M Configuration bool :=
  info ← calculateRound height; mret (ri_roundHeight info =? height).

(** ** The spans, without the cached index *)
Definition rvAt (l : list Milestone) (h : Z) : option Z := milestoneAt l h ≫= roundValidatorsOf.

Definition nextChange (l : list Milestone) (h : Z) : option (Z * Z) :=
  m ← List.find (isNewKey "roundValidators" (rvAt l h) h) l; (λ v, (ml_height m, v)) <$> roundValidatorsOf m.

Fixpoint spansOf (fuel : nat) (l : list Milestone) (start round rv : Z) : result (list ValidatorSpan) :=
  match nextChange l start with
  | None => Ok [mkSpan start None round rv]
  | Some (h, v) =>
      if negb (Z.rem (h - start) rv =? 0) then Throw InvalidMilestoneConfigurationError
      else
        match fuel with
        | O => Throw OutOfFuel
        | S fuel' =>
            rest ← spansOf fuel' l h (round + (h - start) / rv) v;
            Ok (mkSpan start (Some (h - 1)) round rv :: rest)
        end
  end.

Lemma getConfig_ok c config : wfConfiguration c config → getConfig c = (Ok config, c).
Proof. intros Hwf. unfold getConfig, mbind, M_bind, get, liftR. by rewrite (wc_config _ _ Hwf). Qed.

Section spans.
Context (config : NetworkConfig).
#[local] Abbreviation l := (nc_milestones config).

Lemma nextKey_ok c h m :
  wfConfiguration c config → milestoneAt l h = Some m →
  ∃ c' r, getNextMilestoneWithNewKey h "roundValidators" c = (Ok r, c') ∧ wfConfiguration c' config ∧
    match nextChange l h with
    | Some (h', v) => sr_found r = true ∧ sr_height r = h' ∧ sr_data r = Some v
    | None => sr_found r = false
    end.
Proof.
  intros Hwf Hm. unfold getNextMilestoneWithNewKey. rewrite (M_bind_run _ _ _ _ _ (getConfig_ok c config Hwf)).
  assert (∀ m', roundValidatorsOf m' = None ∨ roundValidatorsOf m' = Some 0 →
            isNewKey "roundValidators" (rvAt l h) h m' = false) as Hfalse.
  { intros m' Hm'. unfold isNewKey, roundValidatorsOf in *. by destruct Hm' as [-> | ->]. }
  destruct (existsb _ l) eqn:Hex.
  - destruct (getMilestone_ok c config h m Hwf Hm) as (i & Hg & Hwf'). rewrite (M_bind_run _ _ _ _ _ Hg).
    exists (c <| cf_index := i |>). unfold nextChange, rvAt. rewrite Hm. cbn [mbind option_bind].
    destruct (List.find _ l) as [m'|] eqn:Hf; cbn; [| by eexists].
    eexists. split; [done |]. split; [done |]. apply find_some in Hf as [_ Hf]. unfold isNewKey in Hf.
    unfold roundValidatorsOf in *. destruct (ml_props m' !! _) as [v|]; [| done]. cbn. done.
  - exists c. eexists. split; [done |]. split; [done |]. unfold nextChange.
    assert (List.find (isNewKey "roundValidators" (rvAt l h) h) l = None) as ->; [| done].
    destruct (List.find _ l) as [m'|] eqn:Hf; [| done]. apply find_some in Hf as [Hin Hf].
    assert (existsb (λ m0, match ml_props m0 !! "roundValidators" with Some v => negb (v =? 0) | None => false end) l
            = true) as Ht; [| congruence].
    apply existsb_exists. exists m'. split; [done |]. unfold isNewKey in Hf.
    destruct (ml_props m' !! _) as [v|]; [| done].
    by apply andb_true_iff in Hf as [[Hf _]%andb_true_iff _].
Qed.

(** The first change found lies after the start, at a milestone of the list. *)
Lemma nextChange_Some h h' v :
  nextChange l h = Some (h', v) →
  h < h' ∧ v ≠ 0 ∧ ∃ m, m ∈ l ∧ ml_height m = h' ∧ roundValidatorsOf m = Some v.
Proof.
  unfold nextChange. destruct (List.find _ l) as [m|] eqn:Hf; [| done]. cbn.
  apply find_some in Hf as [Hin Hf]. unfold isNewKey in Hf. unfold roundValidatorsOf.
  destruct (ml_props m !! _) as [v'|] eqn:Hv; [| done]. cbn. intros [= <- <-]. simpl_bool.
  split; [done |]. split; [done |]. exists m. split; [by apply list_elem_of_In | done].
Qed.

Lemma milestoneAt_member m : sortedHeights l → m ∈ l → ∃ m', milestoneAt l (ml_height m) = Some m'.
Proof.
  intros _ Hin. unfold milestoneAt. destruct (List.filter _ l) as [|x l'] eqn:Hf; [| exists (default x (last (x :: l'))); by destruct (last (x :: l')) eqn:Hl; [| apply last_None in Hl]].
  assert (m ∈ List.filter (λ m0, ml_height m0 <=? ml_height m) l) as Hm.
  { apply list_elem_of_In, filter_In. split; [by apply list_elem_of_In | apply Z.leb_refl]. }
  rewrite Hf in Hm. by apply elem_of_nil in Hm.
Qed.

(** The monadic loop computes the spans of the list. *)
Lemma spansLoop_ok fuel c start round rv m :
  wfConfiguration c config → milestoneAt l start = Some m →
  ∃ c', spansLoop fuel start round rv c = (spansOf fuel l start round rv, c') ∧ wfConfiguration c' config.
Proof.
  revert c start round rv m; induction fuel as [|fuel IH]; intros c start round rv m Hwf Hm;
    destruct (nextKey_ok c start m Hwf Hm) as (c1 & r & Hn & Hwf1 & Hr);
    cbn [spansLoop spansOf]; rewrite (M_bind_run _ _ _ _ _ Hn);
    destruct (nextChange l start) as [[h v]|] eqn:Hc.
  1,3: destruct Hr as (-> & -> & Hd); cbn [negb]; destruct (negb _); [by eexists |].
  - by eexists.
  - rewrite Hd. destruct (nextChange_Some start h v Hc) as (_ & _ & m' & Hin & <- & _).
    destruct (milestoneAt_member m' (wc_sorted _ _ Hwf) Hin) as [m2 Hm2].
    destruct (IH c1 (ml_height m') (round + (ml_height m' - start) / rv) v m2 Hwf1 Hm2) as (c2 & Hl & Hwf2).
    unfold mbind, M_bind, liftR. cbn [assert_defined]. rewrite Hl. exists c2. by destruct (spansOf _ _ _ _ _).
  - rewrite Hr. by eexists.
  - rewrite Hr. by eexists.
Qed.
End spans.

(** ** Correctness of the spans *)
Lemma list_find_first {A} (f : A → bool) l x :
  List.find f l = Some x → ∃ i, l !! i = Some x ∧ ∀ j y, (j < i)%nat → l !! j = Some y → f y = false.
Proof.
  induction l as [|a l IH]; [done |]. cbn. destruct (f a) eqn:Ha.
  - intros [= ->]. exists 0%nat. split; [done |]. intros j y. lia.
  - intros (i & Hi & Hb)%IH. exists (S i). split; [done |]. intros [|j] y Hj Hy; cbn in Hy; [by injection Hy as <- |].
    apply (Hb j); [lia | done].
Qed.

Section correctness.
Context (l : list Milestone) (Hsorted : sortedHeights l) (Hdistinct : NoDup (ml_height <$> l)).

Lemma milestoneAt_own m : m ∈ l → milestoneAt l (ml_height m) = Some m.
Proof.
  intros [i Hi]%list_elem_of_lookup. eapply milestoneAt_index; [done | exact Hi | lia |].
  intros m' Hm'. pose proof (Hsorted i (S i) m m' ltac:(lia) Hi Hm').
  destruct (decide (ml_height m = ml_height m')) as [Heq|]; [| lia].
  enough (i = S i) by lia. eapply (NoDup_lookup (ml_height <$> l)); [done | |].
  - by rewrite list_lookup_fmap, Hi.
  - by rewrite list_lookup_fmap, Hm', Heq.
Qed.

Lemma milestoneAt_Some h m : milestoneAt l h = Some m → m ∈ l ∧ ml_height m ≤ h.
Proof.
  intros Hm%last_Some_elem_of. apply list_elem_of_In, filter_In in Hm as [Hin Hle].
  split; [by apply list_elem_of_In | by apply Z.leb_le].
Qed.

(** Between two heights with no milestone after the first, nothing changes. *)
Lemma milestoneAt_between start h m :
  start ≤ h → milestoneAt l h = Some m → ml_height m ≤ start → milestoneAt l start = Some m.
Proof.
  intros Hle Hm Hs. destruct (milestoneAt_Some h m Hm) as [Hin _].
  apply list_elem_of_lookup in Hin as [i Hi]. eapply milestoneAt_index; [done | exact Hi | done |].
  intros m' Hm'. destruct (Z.lt_ge_cases start (ml_height m')) as [|Hge]; [done |]. exfalso.
  (* otherwise the successor is also at or below [h], and comes later *)
  destruct (lookup_lt_is_Some_2 l (S i)) as [m2 Hm2]; [by eapply lookup_lt_Some |]. rewrite Hm' in Hm2. injection Hm2 as <-.
  assert (milestoneAt l h ≠ Some m); [| done].
  unfold milestoneAt. rewrite <- (take_drop (S i) l), List.filter_app.
  rewrite (drop_S _ _ _ Hm'). cbn [List.filter].
  rewrite (proj2 (Z.leb_le (ml_height m') h)) by lia. rewrite last_app_cons.
  intros Hlast%last_Some_elem_of.
  assert (m ∈ drop (S i) l) as [k Hk]%list_elem_of_lookup.
  { rewrite (drop_S _ _ _ Hm'). apply elem_of_cons in Hlast as [->|Hl]; [by left | right].
    by apply list_elem_of_In, filter_In in Hl as [Hl%list_elem_of_In _]. }
  rewrite lookup_drop in Hk. enough (i = S i + k)%nat by lia.
  eapply (NoDup_lookup (ml_height <$> l)); [done | |]; rewrite list_lookup_fmap; [by rewrite Hi | by rewrite Hk].
Qed.

(** Up to the next change the number of validators is constant. *)
Lemma nextChange_const start h v :
  start ≤ h → match nextChange l start with Some (h', _) => h < h' | None => True end →
  rvAt l h = Some v → v ≠ 0 → rvAt l start = Some v.
Proof.
  unfold rvAt at 1. intros Hle Hnext Hv Hnz. destruct (milestoneAt l h) as [m|] eqn:Hm; [| done]. cbn in Hv.
  destruct (Z.le_gt_cases (ml_height m) start) as [Hs|Hs].
  { unfold rvAt. by rewrite (milestoneAt_between start h m). }
  destruct (milestoneAt_Some h m Hm) as [Hin Hmh].
  destruct (isNewKey "roundValidators" (rvAt l start) start m) eqn:Hnew.
  - exfalso. unfold nextChange in Hnext. destruct (List.find _ l) as [m'|] eqn:Hf.
    + pose proof (find_some _ _ Hf) as [_ Hf']. unfold isNewKey in Hf'. unfold roundValidatorsOf in Hnext.
      destruct (ml_props m' !! _) as [v'|] eqn:Hv'; [| done]. cbn in Hnext.
      (* [m'] is found first, so it is not after [m] *)
      apply list_find_first in Hf as (i & Hi & Hbefore).
      apply list_elem_of_lookup in Hin as [j Hj]. destruct (decide (i ≤ j)%nat) as [Hij|Hij].
      * pose proof (Hsorted i j m' m Hij Hi Hj). rewrite Hv' in Hnext. cbn in Hnext. lia.
      * specialize (Hbefore j m ltac:(lia) Hj). congruence.
    + apply list_elem_of_In in Hin. rewrite (find_none _ _ Hf m Hin) in Hnew. done.
  - unfold isNewKey, roundValidatorsOf in *. rewrite Hv in Hnew.
    destruct (Z.eqb_spec v 0); [done |]. cbn in Hnew. rewrite (proj2 (Z.ltb_lt _ _) Hs), andb_true_r in Hnew.
    apply negb_false_iff, bool_decide_eq_true_1 in Hnew. done.
Qed.

Context (first : Z) (Hpositive : ∀ h, first ≤ h → ∃ v, rvAt l h = Some v ∧ 0 < v).

Lemma nextChange_target start h v :
  first ≤ start → nextChange l start = Some (h, v) → start < h ∧ 0 < v ∧ rvAt l h = Some v.
Proof.
  intros Hs Hn. destruct (nextChange_Some (mkNetworkConfig 0 l) start h v Hn) as (Hlt & _ & m & Hin & <- & Hv).
  assert (rvAt l (ml_height m) = Some v) as Hr by (unfold rvAt; by rewrite milestoneAt_own).
  destruct (Hpositive (ml_height m)) as (v' & Hv' & Hpos); [lia |].
  rewrite Hr in Hv'. injection Hv' as <-. done.
Qed.

(** Milestones after a height: what the loop consumes. *)
Definition after (h : Z) : nat := length (List.filter (λ m, h <? ml_height m) l).

Lemma after_decreases start h v : nextChange l start = Some (h, v) → (after h < after start)%nat.
Proof.
  intros (Hlt & _ & m & Hin & <- & _)%(nextChange_Some (mkNetworkConfig 0 l)). unfold after. cbn in Hin.
  clear -Hlt Hin. induction l as [|x k IH]; [by apply elem_of_nil in Hin |]. cbn.
  assert (Nat.le (length (List.filter (λ m0, ml_height m <? ml_height m0) k))
                 (length (List.filter (λ m0, start <? ml_height m0) k))) as Hmono.
  { clear -Hlt. induction k as [|y k IH]; [done |]. cbn.
    destruct (Z.ltb_spec (ml_height m) (ml_height y)), (Z.ltb_spec start (ml_height y)); cbn; lia. }
  apply elem_of_cons in Hin as [->|Hin].
  - rewrite Z.ltb_irrefl, (proj2 (Z.ltb_lt _ _) Hlt). cbn. lia.
  - specialize (IH Hin). destruct (Z.ltb_spec (ml_height m) (ml_height x)), (Z.ltb_spec start (ml_height x)); cbn; lia.
Qed.

Lemma spansOf_total fuel start round rv : (after start ≤ fuel)%nat → spansOf fuel l start round rv ≠ Throw OutOfFuel.
Proof.
  revert start round rv; induction fuel as [|fuel IH]; intros start round rv Hf; cbn [spansOf];
    destruct (nextChange l start) as [[h v]|] eqn:Hn; try done; destruct (negb _); try done.
  - pose proof (after_decreases _ _ _ Hn). lia.
  - pose proof (after_decreases _ _ _ Hn). specialize (IH h (round + (h - start) / rv) v ltac:(lia)).
    destruct (spansOf _ _ _ _ _) as [|[]]; done.
Qed.

(** Every height from the start on lies in a span with its number of validators. *)
Lemma spansOf_find fuel start round rv ss h :
  first ≤ start → rvAt l start = Some rv → spansOf fuel l start round rv = Ok ss → start ≤ h →
  ∃ s, List.find (covers h) ss = Some s ∧ sp_startHeight s ≤ h ∧ rvAt l h = Some (sp_roundValidators s) ∧
       0 < sp_roundValidators s.
Proof.
  revert start round rv ss; induction fuel as [|fuel IH]; intros start round rv ss Hs Hrv; cbn [spansOf];
    destruct (Hpositive start Hs) as (rv' & Hrv' & Hpos); rewrite Hrv in Hrv'; injection Hrv' as <-;
    destruct (nextChange l start) as [[h' v]|] eqn:Hn.
  1,3: destruct (negb _); [done |].
  - done.
  - destruct (nextChange_target start h' v Hs Hn) as (Hlt & Hv & Hrv').
    intros (rest & Hrest & [= <-])%bind_Ok Hle. cbn [List.find covers sp_endHeight].
    destruct (Z.leb_spec h (h' - 1)) as [Hin|Hout].
    + eexists. split; [done |]. cbn. split; [done |]. split; [| done].
      destruct (Hpositive h) as (w & Hw & Hwp); [lia |]. rewrite Hw. f_equal.
      assert (rvAt l start = Some w) as Heq by (apply (nextChange_const start h w); [done | rewrite Hn; lia | done | lia]).
      congruence.
    + eapply IH; [| exact Hrv' | exact Hrest |]; lia.
  - intros [= <-] Hle. cbn. eexists. split; [done |]. cbn. split; [done |]. split; [| done].
    destruct (Hpositive h) as (w & Hw & Hwp); [lia |]. rewrite Hw. f_equal.
    assert (rvAt l start = Some w) as Heq by (apply (nextChange_const start h w); [done | by rewrite Hn | done | lia]).
    congruence.
  - intros [= <-] Hle. cbn. eexists. split; [done |]. cbn. split; [done |]. split; [| done].
    destruct (Hpositive h) as (w & Hw & Hwp); [lia |]. rewrite Hw. f_equal.
    assert (rvAt l start = Some w) as Heq by (apply (nextChange_const start h w); [done | by rewrite Hn | done | lia]).
    congruence.
Qed.

Definition infoAt (ss : list ValidatorSpan) (h : Z) : option RoundInfo := roundOfSpan h <$> List.find (covers h) ss.

(** A round of a span holds the height. *)
Lemma roundOfSpan_holds h s :
  0 < sp_roundValidators s →
  ri_roundHeight (roundOfSpan h s) ≤ h < ri_roundHeight (roundOfSpan h s) + ri_maxValidators (roundOfSpan h s).
Proof.
  intros Hp. cbn. pose proof (Z.div_mod (h - sp_startHeight s) (sp_roundValidators s) ltac:(lia)) as Hd.
  pose proof (Z.mod_pos_bound (h - sp_startHeight s) (sp_roundValidators s) Hp). lia.
Qed.

(** Within a span, the next height is in the next round exactly when the round is full. *)
Lemma roundOfSpan_next h s :
  0 < sp_roundValidators s → sp_startHeight s ≤ h →
  ri_nextRound (roundOfSpan h s) = sp_startRound s + (h + 1 - sp_startHeight s) / sp_roundValidators s.
Proof.
  intros Hp Hs. cbn. set (rv := sp_roundValidators s) in *. set (k := h - sp_startHeight s).
  replace (h + 1 - sp_startHeight s) with (k + 1) by lia. assert (0 ≤ k) as Hk by lia.
  rewrite Z.rem_mod_nonneg by lia.
  pose proof (Z.div_mod k rv ltac:(lia)). pose proof (Z.mod_pos_bound k rv Hp).
  pose proof (Z.div_mod (k + 1) rv ltac:(lia)). pose proof (Z.mod_pos_bound (k + 1) rv Hp).
  destruct (Z.eqb_spec ((k + 1) mod rv) 0); nia.
Qed.

Lemma spansOf_head fuel start round rv ss :
  first ≤ start → spansOf fuel l start round rv = Ok ss →
  ∃ s rest, ss = s :: rest ∧ covers start s = true ∧ sp_startHeight s = start ∧ sp_startRound s = round ∧ sp_roundValidators s = rv.
Proof.
  intros Hs. destruct fuel as [|fuel]; cbn [spansOf]; destruct (nextChange l start) as [[h v]|] eqn:Hn;
    try (destruct (negb _); [done |]); try done.
  - intros [= <-]. by eexists _, _.
  - intros (rest & Hrest & [= <-])%bind_Ok. eexists _, _. split; [done |]. cbn.
    destruct (nextChange_target start h v Hs Hn). split; [apply Z.leb_le; lia | done].
  - intros [= <-]. by eexists _, _.
Qed.

(** Rounds are consecutive: what [nextRound] announces is the round of the next height. *)
Lemma spansOf_consecutive fuel start round rv ss h i j :
  first ≤ start → rvAt l start = Some rv → spansOf fuel l start round rv = Ok ss → start ≤ h →
  infoAt ss h = Some i → infoAt ss (h + 1) = Some j → ri_nextRound i = ri_round j.
Proof.
  revert start round rv ss; induction fuel as [|fuel IH]; intros start round rv ss Hs Hrv; cbn [spansOf];
    destruct (Hpositive start Hs) as (rv' & Hrv' & Hpos); rewrite Hrv in Hrv'; injection Hrv' as <-;
    destruct (nextChange l start) as [[h' v]|] eqn:Hn.
  1,3: destruct (Z.eqb_spec (Z.rem (h' - start) rv) 0) as [Hrem|]; cbn [negb]; [| done].
  - done.
  - destruct (nextChange_target start h' v Hs Hn) as (Hlt & Hv & Hrv').
    intros (rest & Hrest & [= <-])%bind_Ok Hle. unfold infoAt. cbn [List.find covers sp_endHeight].
    destruct (Z.leb_spec h (h' - 1)) as [Hin|Hout].
    + intros [= <-]. rewrite roundOfSpan_next by done. cbn [sp_startRound sp_startHeight sp_roundValidators].
      destruct (Z.leb_spec (h + 1) (h' - 1)) as [Hin2|Hout2]; [by intros [= <-] |].
      replace (h + 1) with h' by lia. destruct (spansOf_head fuel h' _ v rest ltac:(lia) Hrest) as (s & r & -> & Hc & Hsh & Hsr & Hsv).
      cbn [List.find]. rewrite Hc. intros [= <-]. cbn [ri_round roundOfSpan].
      rewrite Hsr, Hsh, Z.sub_diag, Z.div_0_l by lia. lia.
    + destruct (Z.leb_spec (h + 1) (h' - 1)); [lia |]. eapply IH; [| exact Hrv' | exact Hrest |]; lia.
  - intros [= <-] Hle. cbn. intros [= <-] [= <-]. apply (roundOfSpan_next h (mkSpan start None round rv)); done.
  - intros [= <-] Hle. cbn. intros [= <-] [= <-]. apply (roundOfSpan_next h (mkSpan start None round rv)); done.
Qed.
End correctness.

(** ** The service *)
Section service.
Context (c : Configuration) (config : NetworkConfig) (Hwf : wfConfiguration c config).
#[local] Abbreviation l := (nc_milestones config).
#[local] Abbreviation first := (nc_genesisNumber config + 1).

Lemma getGenesisHeight_ok c' : wfConfiguration c' config → getGenesisHeight c' = (Ok (nc_genesisNumber config), c').
Proof. intros Hwf'. unfold getGenesisHeight. by rewrite (M_bind_run _ _ _ _ _ (getConfig_ok c' config Hwf')). Qed.

Lemma getValidatorSpans_ok rv :
  rvAt l first = Some rv →
  ∃ c', getValidatorSpans c = (spansOf (length l) l first 1 rv, c') ∧ wfConfiguration c' config.
Proof.
  intros Hrv. unfold getValidatorSpans. rewrite (M_bind_run _ _ _ _ _ (getGenesisHeight_ok c Hwf)).
  unfold rvAt in Hrv. destruct (milestoneAt l first) as [m|] eqn:Hm; [| done]. cbn in Hrv.
  destruct (getMilestone_ok c config first m Hwf Hm) as (i & Hg & Hwf1). rewrite (M_bind_run _ _ _ _ _ Hg).
  rewrite (M_bind_run (liftR (validatorsOf m)) _ _ rv (c <| cf_index := i |>)) by (unfold liftR, validatorsOf; by rewrite Hrv).
  unfold getMilestones. rewrite (M_bind_run _ _ _ l (c <| cf_index := i |>)).
  - by eapply spansLoop_ok.
  - by rewrite (M_bind_run _ _ _ _ _ (getConfig_ok _ config Hwf1)).
Qed.

Lemma calculateRound_ok rv ss h :
  rvAt l first = Some rv → spansOf (length l) l first 1 rv = Ok ss → first ≤ h →
  ∃ c', calculateRound h c = (from_option Ok (Throw (JSError "Expected value which is non-null and non-undefined."))
                                (infoAt ss h), c') ∧ wfConfiguration c' config.
Proof.
  intros Hrv Hss Hh. destruct (getValidatorSpans_ok rv Hrv) as (c1 & Hsp & Hwf1). rewrite Hss in Hsp.
  exists c1. split; [| done]. unfold calculateRound, getValidatorSpan. rewrite (M_bind_run _ _ _ _ _ (getGenesisHeight_ok c Hwf)).
  destruct (Z.eqb_spec h (nc_genesisNumber config)); [lia |].
  assert (∀ f : ValidatorSpan → M Configuration RoundInfo,
    ((genesisHeight ← getGenesisHeight;
      if h <? genesisHeight then throw (JSError "Height is below the genesis height")
      else spans ← getValidatorSpans; liftR (assert_defined (List.find (covers h) spans))) ≫= f) c =
    (liftR (assert_defined (List.find (covers h) ss)) ≫= f) c1) as Heq.
  { intros f. unfold mbind at 1, M_bind at 1. rewrite (M_bind_run _ _ _ _ _ (getGenesisHeight_ok c Hwf)).
    destruct (Z.ltb_spec h (nc_genesisNumber config)); [lia |]. by rewrite (M_bind_run _ _ _ _ _ Hsp). }
  rewrite Heq. unfold infoAt, mbind, M_bind, liftR. by destruct (List.find (covers h) ss).
Qed.
End service.

(** Rounds partition the heights: with milestones at distinct heights, a
    positive number of validators after genesis and every change at a round
    boundary, each height above genesis lies in the round computed for it, that
    round has as many blocks as the milestone in effect has validators, and the
    round announced as next is the round of the next height. *)
Theorem rounds_partition c config rv ss h :
  wfConfiguration c config → NoDup (ml_height <$> nc_milestones config) →
  (∀ h, nc_genesisNumber config + 1 ≤ h → ∃ v, rvAt (nc_milestones config) h = Some v ∧ 0 < v) →
  rvAt (nc_milestones config) (nc_genesisNumber config + 1) = Some rv →
  (getValidatorSpans c).1 = Ok ss → nc_genesisNumber config + 1 ≤ h →
  ∃ i j, (calculateRound h c).1 = Ok i ∧ (calculateRound (h + 1) c).1 = Ok j ∧
    ri_roundHeight i ≤ h < ri_roundHeight i + ri_maxValidators i ∧
    rvAt (nc_milestones config) h = Some (ri_maxValidators i) ∧
    ri_nextRound i = ri_round j.
Proof.
  intros Hwf Hnd Hpos Hrv Hss Hh. pose proof (wc_sorted _ _ Hwf) as Hs.
  destruct (getValidatorSpans_ok c config Hwf rv Hrv) as (c0 & Hsp & _). rewrite Hsp in Hss. cbn in Hss.
  destruct (calculateRound_ok c config Hwf rv ss h Hrv Hss Hh) as (c1 & Hi & _).
  destruct (calculateRound_ok c config Hwf rv ss (h + 1) Hrv Hss ltac:(lia)) as (c2 & Hj & _).
  destruct (spansOf_find _ Hs Hnd _ Hpos _ _ _ _ ss h ltac:(reflexivity) Hrv Hss Hh) as (s & Hfs & Hsh & Hsv & Hsp0).
  destruct (spansOf_find _ Hs Hnd _ Hpos _ _ _ _ ss (h + 1) ltac:(reflexivity) Hrv Hss ltac:(lia)) as (s' & Hfs' & _).
  assert (infoAt ss h = Some (roundOfSpan h s)) as Hih by (unfold infoAt; by rewrite Hfs).
  assert (infoAt ss (h + 1) = Some (roundOfSpan (h + 1) s')) as Hjh by (unfold infoAt; by rewrite Hfs').
  exists (roundOfSpan h s), (roundOfSpan (h + 1) s'). rewrite Hi, Hj, Hih, Hjh. cbn [fst from_option].
  split; [done |]. split; [done |]. split; [by apply roundOfSpan_holds |]. split; [done |].
  eapply (spansOf_consecutive _ Hs Hnd _ Hpos); [reflexivity | exact Hrv | exact Hss | exact Hh | done | done].
Qed.

(** Deriving the spans terminates: the loop moves to a later milestone each
    time, so as many turns as there are milestones are enough. *)
Theorem spans_terminate c config : wfConfiguration c config → (getValidatorSpans c).1 ≠ Throw OutOfFuel.
Proof.
  intros Hwf. destruct (rvAt (nc_milestones config) (nc_genesisNumber config + 1)) as [rv|] eqn:Hrv.
  - destruct (getValidatorSpans_ok c config Hwf rv Hrv) as (c' & -> & _). apply spansOf_total.
    unfold after. apply List.filter_length_le.
  - unfold getValidatorSpans. rewrite (M_bind_run _ _ _ _ _ (getGenesisHeight_ok config c Hwf)).
    destruct (milestoneAt (nc_milestones config) (nc_genesisNumber config + 1)) as [m|] eqn:Hm.
    + destruct (getMilestone_ok c config _ m Hwf Hm) as (i & Hg & _). rewrite (M_bind_run _ _ _ _ _ Hg).
      unfold rvAt in Hrv. rewrite Hm in Hrv. cbn in Hrv. unfold mbind, M_bind, liftR, validatorsOf. rewrite Hrv.
      discriminate.
    + destruct (getMilestone_fail c config _ Hwf Hm) as (e & He & Hne). unfold mbind, M_bind. rewrite He.
      intros [= ->]. done.
Qed.

Lemma calculateRound_throws c g h e :
  getGenesisHeight c = (Ok g, c) → h ≠ g → (getValidatorSpans c).1 = Throw e → is_ok (calculateRound h c).1 = false.
Proof.
  intros Hg Hh Hs. unfold calculateRound. rewrite (M_bind_run _ _ _ _ _ Hg).
  destruct (Z.eqb_spec h g); [done |]. unfold mbind at 1, M_bind at 1, getValidatorSpan.
  rewrite (M_bind_run _ _ _ _ _ Hg). destruct (h <? g); [done |]. unfold mbind, M_bind.
  destruct (getValidatorSpans c) as [r c1]. cbn in Hs. by subst r.
Qed.

(** Milestones that restate the number of validators within a round. *)
#[export] Instance rightUnion : Deepmerge := {| deepmerge a b := b ∪ a |}.
Definition validatorsFrom (h n : Z) : Milestone := mkMilestone h {[ "roundValidators" := n ]}.
Definition misaligned : NetworkConfig :=
  mkNetworkConfig 0 [validatorsFrom 0 0; validatorsFrom 1 53; validatorsFrom 10 53; validatorsFrom 63 57].
Definition aligned : NetworkConfig :=
  mkNetworkConfig 0 [validatorsFrom 0 0; validatorsFrom 1 53; validatorsFrom 10 53; validatorsFrom 54 57].

(** The check of the configuration and the calculator disagree: a milestone
    that restates the number of validators moves the check's reference point, so
    [setConfig] accepts a change in the middle of a round, after which every
    round computation throws, and rejects one at a round boundary. *)
Theorem restated_validators :
  (∃ c, setConfig (λ _, true) misaligned true newConfiguration = (Ok tt, c) ∧
        ∀ h, h ≠ 0 → is_ok (calculateRound h c).1 = false) ∧
  (63 - 1) mod 53 ≠ 0 ∧
  (setConfig (λ _, true) aligned true newConfiguration).1 = Throw InvalidMilestoneConfigurationError ∧
  (54 - 1) mod 53 = 0.
Proof.
  split; [| split; [vm_compute; discriminate | split; [vm_compute; reflexivity | vm_compute; reflexivity]]].
  eexists. split; [vm_compute; reflexivity |]. intros h Hh.
  eapply calculateRound_throws; [vm_compute; reflexivity | done | vm_compute; reflexivity].
Qed.
