(* ===== verification/JsMap.v ===== *)
(** * JavaScript maps and arrays

    A [Map] iterates in insertion order and [set] on a present key keeps its
    place, so it is an association list with the keys distinct.  An array
    assignment past the end extends the array. *)
From S2P Require Import Prelude.

Definition JsMap (K V : Type) : Type := list (K * V).

Section jsmap.
Context {K : Type} `{EqDecision K} {V : Type}.
Implicit Types (m : JsMap K V) (k : K) (v : V).

Fixpoint mapGet m k : option V :=
  match m with
  | [] => None
  | (k', v) :: m' => if decide (k' = k) then Some v else mapGet m' k
  end.
Definition mapHas m k : bool := isSome (mapGet m k).
Fixpoint mapSet m k v : JsMap K V :=
  match m with
  | [] => [(k, v)]
  | (k', v') :: m' => if decide (k' = k) then (k, v) :: m' else (k', v') :: mapSet m' k v
  end.
Definition mapDelete m k : JsMap K V := @filter _ (list (K * V)) _ (λ kv, kv.1 ≠ k) _ m.
Definition mapSize m : Z := Z.of_nat (length m).
Definition mapKeys m : list K := m.*1.
Definition mapValues m : list V := m.*2.

Definition wfMap m : Prop := NoDup (mapKeys m).

Lemma mapGet_set_eq m k v : mapGet (mapSet m k v) k = Some v.
Proof.
  induction m as [|[k' v'] m IH]; simpl; [by rewrite decide_True |].
  destruct (decide (k' = k)) as [->|]; simpl; [by rewrite decide_True | by rewrite decide_False].
Qed.

Lemma mapGet_set_ne m k k' v : k ≠ k' → mapGet (mapSet m k v) k' = mapGet m k'.
Proof.
  intros Hne. induction m as [|[k1 v1] m IH]; simpl; [by rewrite decide_False |].
  destruct (decide (k1 = k)) as [->|]; simpl; [by rewrite !decide_False by done |].
  by rewrite IH.
Qed.

Lemma mapGet_set m k k' v :
  mapGet (mapSet m k v) k' = if decide (k = k') then Some v else mapGet m k'.
Proof.
  destruct (decide (k = k')) as [->|]; [apply mapGet_set_eq | by apply mapGet_set_ne].
Qed.

Lemma mapSet_fresh m k v : mapGet m k = None → mapSet m k v = m ++ [(k, v)].
Proof.
  induction m as [|[k' v'] m IH]; simpl; [done |].
  destruct (decide (k' = k)); [done |]. intros Hm. by rewrite IH.
Qed.

Lemma mapGet_elem m k v : mapGet m k = Some v → (k, v) ∈ m.
Proof.
  induction m as [|[k' v'] m IH]; simpl; [done |].
  destruct (decide (k' = k)) as [->|]; [intros [= ->]; left | right; auto].
Qed.

Lemma mapGet_None m k : mapGet m k = None ↔ k ∉ mapKeys m.
Proof.
  unfold mapKeys. induction m as [|[k' v'] m IH]; simpl; [split; [intros _; apply not_elem_of_nil | done] |].
  rewrite not_elem_of_cons. destruct (decide (k' = k)) as [->|]; [split; [done | by intros []] |].
  rewrite IH. split; [intros Hm; split; [by intros -> | done] | by intros []].
Qed.

Lemma mapGet_wf m k v : wfMap m → (k, v) ∈ m → mapGet m k = Some v.
Proof.
  unfold wfMap, mapKeys. induction m as [|[k' v'] m IH]; simpl; [by intros _ ?%elem_of_nil |].
  intros [Hk Hnd]%NoDup_cons [Heq|Hin]%elem_of_cons; [injection Heq as -> ->; by rewrite decide_True |].
  destruct (decide (k' = k)) as [->|]; [| auto].
  destruct Hk. apply list_elem_of_fmap. by exists (k, v).
Qed.

Lemma wfMap_set m k v : wfMap m → wfMap (mapSet m k v).
Proof.
  unfold wfMap. intros Hwf. destruct (mapGet m k) as [v0|] eqn:Hk.
  - replace (mapKeys (mapSet m k v)) with (mapKeys m); [done |].
    clear Hwf. unfold mapKeys. induction m as [|[k' v'] m IH]; simpl in *; [done |].
    destruct (decide (k' = k)) as [->|]; [done |]. simpl. f_equal. auto.
  - rewrite mapSet_fresh by done. unfold mapKeys. rewrite fmap_app. simpl.
    apply NoDup_app. split; [done |]. split; [| apply NoDup_singleton].
    intros x Hx ->%list_elem_of_singleton. by apply mapGet_None in Hk.
Qed.

Lemma mapHas_true m k : mapHas m k = true ↔ k ∈ mapKeys m.
Proof.
  unfold mapHas. destruct (mapGet m k) eqn:Hk; simpl.
  - split; [intros _ | done]. apply mapGet_elem in Hk.
    apply list_elem_of_fmap. by exists (k, v).
  - split; [done |]. intros Hin. by apply mapGet_None in Hk.
Qed.

Lemma mapHas_false m k : mapHas m k = false ↔ k ∉ mapKeys m.
Proof. rewrite <- mapHas_true. destruct (mapHas m k); naive_solver. Qed.

Lemma mapDelete_keys m k : k ∉ mapKeys (mapDelete m k).
Proof.
  unfold mapKeys, mapDelete. intros ([k' v'] & -> & [Hne _]%list_elem_of_filter)%list_elem_of_fmap.
  by apply Hne.
Qed.

Lemma mapGet_delete m k k' : mapGet (mapDelete m k) k' = if decide (k = k') then None else mapGet m k'.
Proof.
  unfold mapDelete. induction m as [|[k1 v1] m IH]; [by destruct (decide (k = k')) |]. rewrite filter_cons. cbn [fst].
  destruct (decide (k1 ≠ k)) as [Hne|Heq]; cbn.
  - rewrite IH. destruct (decide (k1 = k')) as [<-|]; [| done]. by rewrite decide_False by congruence.
  - rewrite IH. destruct (decide (k = k')) as [<-|Hkk]; [done |]. rewrite decide_False; [done |]. intros ->. by apply Heq.
Qed.

Lemma mapDelete_fresh m k : k ∉ mapKeys m → mapDelete m k = m.
Proof.
  unfold mapKeys, mapDelete. induction m as [|[k1 v1] m IH]; [done |]. rewrite fmap_cons, not_elem_of_cons. intros [Hne Hm].
  rewrite filter_cons. cbn [fst] in *. rewrite decide_True by congruence. by rewrite IH.
Qed.
Lemma mapDelete_head m k v : k ∉ mapKeys m → mapDelete ((k, v) :: m) k = m.
Proof.
  intros Hm. unfold mapDelete. rewrite filter_cons. cbn [fst]. rewrite decide_False by (intros Hne; by apply Hne).
  by apply mapDelete_fresh.
Qed.

Lemma wfMap_delete m k : wfMap m → wfMap (mapDelete m k).
Proof.
  unfold wfMap, mapKeys, mapDelete. induction m as [|[k' v'] m IH]; [done |].
  rewrite fmap_cons, filter_cons. intros [Hk Hnd]%NoDup_cons. case_decide; [| auto].
  rewrite fmap_cons. apply NoDup_cons. split; [| auto].
  intros ([k1 v1] & Heq & [_ Hin]%list_elem_of_filter)%list_elem_of_fmap.
  apply Hk, list_elem_of_fmap. by exists (k1, v1).
Qed.
End jsmap.

(** [array[index] = value]: a negative index sets a property that is not an
    element, an index past the end extends the array (the elements between are
    holes, read as [undefined], here [hole]). *)
Definition arraySet {A} (hole : A) (l : list A) (index : Z) (value : A) : list A :=
  if index <? 0 then l
  else
    let i := Z.to_nat index in
    if bool_decide (i < length l)%nat then <[i := value]> l
    else l ++ replicate (i - length l) hole ++ [value].

Lemma arraySet_length {A} (hole : A) l i v :
  0 ≤ i < Z.of_nat (length l) → length (arraySet hole l i v) = length l.
Proof.
  intros Hi. unfold arraySet. destruct (Z.ltb_spec i 0); [lia |].
  rewrite bool_decide_eq_true_2 by lia. apply length_insert.
Qed.

Lemma arraySet_lookup {A} (hole : A) l i v j :
  0 ≤ i < Z.of_nat (length l) →
  arraySet hole l i v !! j = if decide (Z.of_nat j = i) then Some v else l !! j.
Proof.
  intros Hi. unfold arraySet. destruct (Z.ltb_spec i 0); [lia |].
  rewrite bool_decide_eq_true_2 by lia. case_decide as Hj.
  - replace j with (Z.to_nat i) by lia. apply list_lookup_insert_eq. lia.
  - apply list_lookup_insert_ne. lia.
Qed.

#[export] Hint Resolve wfMap_set wfMap_delete : mainsail.
