(* ===== verification/Lock.v ===== *)
(** * packages/utils/source/lock.ts

    The lock that serializes the handlers of the consensus engine and the calls
    of the transaction pool.  The state machine has one step per continuation:
    what a call does between two awaits.  A promise runs its reactions in the
    order in which they were registered; the owner of an exclusive promise
    registers first, right after creating it, so its [finally] runs before any
    waiter resumes, and that is all the model uses of the order.  A callback does
    not call the lock before its first await, and a callback that calls it and
    awaits the outcome is not modelled; no caller in the repository does either. *)
From S2P Require Import Prelude.

Inductive Mode := NonExclusive | Exclusive.
#[export] Instance Mode_eq_dec : EqDecision Mode.
Proof. solve_decision. Defined.

(** Where a call of [runNonExclusive] or [runExclusive] stands: it awaits the
    exclusive promise of another call; it awaits the non-exclusive promises it
    found; its callback runs; the callback's promise is settled; it returned. *)
Inductive Phase :=
  | Waiting (m : Mode) (on : nat)
  | Draining (pending : list nat)
  | Running (m : Mode)
  | Settled (m : Mode)
  | Done.
#[export] Instance Phase_eq_dec : EqDecision Phase.
Proof. solve_decision. Defined.

(** [#exclusivePromise], [#nonExclusivePromises], and the calls made so far; a
    promise is named by the call that made it. *)
Record Lock := mkLock {
  lo_exclusivePromise : option nat;
  lo_nonExclusivePromises : list nat;
  lo_calls : gmap nat Phase;
}.
#[export] Instance eta_Lock : Eta Lock := λ s,
  mkLock (lo_exclusivePromise s) (lo_nonExclusivePromises s) (lo_calls s).

Definition newLock : Lock := mkLock None [] ∅.
Definition setPhase (id : nat) (phase : Phase) (s : Lock) : Lock := s <| lo_calls ::= <[id := phase]> |>.

(** The [while] and what follows it, up to the next await. *)
Definition enter (m : Mode) (id : nat) (s : Lock) : Lock :=
  match lo_exclusivePromise s with
  | Some e => setPhase id (Waiting m e) s
  | None =>
      match m with
      | NonExclusive => setPhase id (Running NonExclusive) (s <| lo_nonExclusivePromises ::= λ l, l ++ [id] |>)
      | Exclusive => setPhase id (Draining (lo_nonExclusivePromises s)) (s <| lo_exclusivePromise := Some id |>)
      end
  end.

(** The [finally]. *)
Definition leave (m : Mode) (id : nat) (s : Lock) : Lock :=
  setPhase id Done
    match m with
    | NonExclusive => s <| lo_nonExclusivePromises ::= List.filter (λ n, negb (Nat.eqb n id)) |>
    | Exclusive => s <| lo_exclusivePromise := None |>
    end.

Definition isSettled (s : Lock) (id : nat) : bool :=
  match lo_calls s !! id with Some (Settled _) | Some Done => true | _ => false end.

(** The continuations that can run. *)
Inductive lockStep (s : Lock) : Lock → Prop :=
  | step_resume id m e :
      lo_calls s !! id = Some (Waiting m e) → lo_calls s !! e = Some Done → lockStep s (enter m id s)
  | step_drained id pending :
      lo_calls s !! id = Some (Draining pending) → forallb (isSettled s) pending = true →
      lockStep s (setPhase id (Running Exclusive) s)
  | step_settle id m : lo_calls s !! id = Some (Running m) → lockStep s (setPhase id (Settled m) s)
  | step_finally id m : lo_calls s !! id = Some (Settled m) → lockStep s (leave m id s).

(** New calls come at any time. *)
Inductive lockReachable : Lock → Prop :=
  | lock_new : lockReachable newLock
  | lock_call m id s : lockReachable s → lo_calls s !! id = None → lockReachable (enter m id s)
  | lock_step s s' : lockReachable s → lockStep s s' → lockReachable s'.

(** ** The invariant *)
Definition owns (phase : Phase) : bool :=
  match phase with Draining _ | Running Exclusive | Settled Exclusive => true | _ => false end.

Record lockOk (s : Lock) : Prop := {
  lk_owner : ∀ id phase, lo_calls s !! id = Some phase → owns phase = true → lo_exclusivePromise s = Some id;
  lk_exclusive : ∀ id, lo_exclusivePromise s = Some id → ∃ phase, lo_calls s !! id = Some phase ∧ owns phase = true;
  lk_member : ∀ id, lo_calls s !! id = Some (Running NonExclusive) → id ∈ lo_nonExclusivePromises s;
  lk_pending : ∀ id pending n, lo_calls s !! id = Some (Draining pending) → lo_calls s !! n = Some (Running NonExclusive) → n ∈ pending;
  lk_alone : ∀ id n, lo_calls s !! id = Some (Running Exclusive) → lo_calls s !! n ≠ Some (Running NonExclusive);
  lk_waiting : ∀ id m e, lo_calls s !! id = Some (Waiting m e) → lo_exclusivePromise s = Some e ∨ lo_calls s !! e = Some Done;
  lk_drains : ∀ id pending n, lo_calls s !! id = Some (Draining pending) → n ∈ pending →
    lo_calls s !! n = Some (Running NonExclusive) ∨ isSettled s n = true;
  lk_set : ∀ n, n ∈ lo_nonExclusivePromises s → lo_calls s !! n = Some (Running NonExclusive) ∨ isSettled s n = true;
}.

Lemma lookup_setPhase id phase s n :
  lo_calls (setPhase id phase s) !! n = if decide (id = n) then Some phase else lo_calls s !! n.
Proof. unfold setPhase. cbn. case_decide as Hn; [subst; by rewrite lookup_insert_eq | by rewrite lookup_insert_ne]. Qed.

Lemma isSettled_setPhase id phase s n :
  isSettled (setPhase id phase s) n = if decide (id = n) then match phase with Settled _ | Done => true | _ => false end else isSettled s n.
Proof. unfold isSettled. rewrite lookup_setPhase. by case_decide. Qed.

(** What a step changes, for the invariant: one phase and maybe one field. *)
Ltac lock_unfold :=
  repeat match goal with
  | H : lo_calls (setPhase _ _ _) !! _ = _ |- _ => rewrite lookup_setPhase in H
  | |- context [lo_calls (setPhase _ _ _) !! _] => rewrite lookup_setPhase
  | H : isSettled (setPhase _ _ _) _ = _ |- _ => rewrite isSettled_setPhase in H
  | |- context [isSettled (setPhase _ _ _) _] => rewrite isSettled_setPhase
  end;
  repeat match goal with
  | |- context [lo_exclusivePromise (setPhase ?id ?p ?s)] =>
      change (lo_exclusivePromise (setPhase id p s)) with (lo_exclusivePromise s)
  | H : context [lo_exclusivePromise (setPhase ?id ?p ?s)] |- _ =>
      change (lo_exclusivePromise (setPhase id p s)) with (lo_exclusivePromise s) in H
  | |- context [lo_nonExclusivePromises (setPhase ?id ?p ?s)] =>
      change (lo_nonExclusivePromises (setPhase id p s)) with (lo_nonExclusivePromises s)
  | H : context [lo_nonExclusivePromises (setPhase ?id ?p ?s)] |- _ =>
      change (lo_nonExclusivePromises (setPhase id p s)) with (lo_nonExclusivePromises s) in H
  | |- context [isSettled (?s <| ?f ::= ?g |>) ?n] => change (isSettled (s <| f ::= g |>) n) with (isSettled s n)
  | H : context [isSettled (?s <| ?f ::= ?g |>) ?n] |- _ => change (isSettled (s <| f ::= g |>) n) with (isSettled s n) in H
  end; cbn in *.
Ltac lock_cases :=
  lock_unfold;
  repeat match goal with
  | H : context [decide (?a = ?b)] |- _ => destruct (decide (a = b)); subst
  | |- context [decide (?a = ?b)] => destruct (decide (a = b)); subst
  end; simplify_eq/=; try done.

(** A call that does not hold anything yet. *)
Definition outside (s : Lock) (id : nat) : Prop :=
  lo_calls s !! id = None ∨ ∃ m e, lo_calls s !! id = Some (Waiting m e) ∧ lo_calls s !! e = Some Done.

Lemma outside_not s id phase :
  outside s id → match phase with Waiting _ _ => False | _ => True end → lo_calls s !! id ≠ Some phase.
Proof. intros [Hnone|(m & e & Hid & _)] Hp Heq; rewrite Heq in *; [done |]. by injection Hid as ->. Qed.

Lemma outside_unsettled s id : outside s id → isSettled s id = false.
Proof. unfold isSettled. intros [->|(m & e & -> & _)]; done. Qed.

(** Such a call is not the owner, not done, and in nobody's way. *)
Lemma outside_free s id :
  lockOk s → outside s id →
  lo_exclusivePromise s ≠ Some id ∧ lo_calls s !! id ≠ Some Done ∧ lo_calls s !! id ≠ Some (Running NonExclusive) ∧
  (id ∉ lo_nonExclusivePromises s) ∧ isSettled s id = false ∧
  (∀ a pending, lo_calls s !! a = Some (Draining pending) → id ∉ pending).
Proof.
  intros Hok Hout. pose proof (λ p, outside_not s id p Hout) as Hnot. pose proof (outside_unsettled _ _ Hout) as Hus.
  split_and!; auto.
  - intros He. destruct (lk_exclusive _ Hok id He) as (phase & Hp & Ho). by apply (Hnot phase); [destruct phase |].
  - intros Hin. destruct (lk_set _ Hok id Hin) as [Hr|Hr]; [by apply (Hnot (Running NonExclusive)) | congruence].
  - intros a pending Ha Hin. destruct (lk_drains _ Hok a pending id Ha Hin) as [Hr|Hr]; [by apply (Hnot (Running NonExclusive)) | congruence].
Qed.

Lemma wait_ok s id m e : lockOk s → outside s id → lo_exclusivePromise s = Some e → lockOk (setPhase id (Waiting m e) s).
Proof.
  intros Hok Hout He. destruct (outside_free s id Hok Hout) as (F1 & F2 & F3 & F4 & F5 & F6).
  destruct Hok as [H1 H2 H3 H4 H5 H6 H7 H8]. split; intros; lock_cases; naive_solver.
Qed.

Lemma enterNonExclusive_ok s id :
  lockOk s → outside s id → lo_exclusivePromise s = None → lockOk (enter NonExclusive id s).
Proof.
  intros Hok Hout He. destruct (outside_free s id Hok Hout) as (F1 & F2 & F3 & F4 & F5 & F6).
  assert (∀ n phase, lo_calls s !! n = Some phase → owns phase = false) as Hnone.
  { intros n phase Hn. destruct (owns phase) eqn:Ho; [| done]. by rewrite (lk_owner _ Hok n phase Hn Ho) in He. }
  destruct Hok as [H1 H2 H3 H4 H5 H6 H7 H8]. unfold enter. rewrite He. split; intros; lock_cases; eauto; try (by exfalso; eauto).
  - apply elem_of_app. right. left.
  - apply elem_of_app. left. auto.
  - by specialize (Hnone _ _ H).
  - by specialize (Hnone _ _ H).
  - destruct (H6 _ _ _ H) as [|]; [congruence | done].
  - apply elem_of_app in H as [H|H%list_elem_of_singleton]; [auto | congruence].
Qed.

Lemma enterExclusive_ok s id :
  lockOk s → outside s id → lo_exclusivePromise s = None → lockOk (enter Exclusive id s).
Proof.
  intros Hok Hout He. destruct (outside_free s id Hok Hout) as (F1 & F2 & F3 & F4 & F5 & F6).
  assert (∀ n phase, lo_calls s !! n = Some phase → owns phase = false) as Hnone.
  { intros n phase Hn. destruct (owns phase) eqn:Ho; [| done]. by rewrite (lk_owner _ Hok n phase Hn Ho) in He. }
  destruct Hok as [H1 H2 H3 H4 H5 H6 H7 H8]. unfold enter. rewrite He. split; intros; lock_cases; eauto; try (by exfalso; eauto).
  - specialize (Hnone _ _ H). congruence.
  - destruct (H6 _ _ _ H) as [|]; [congruence | by right].
  - by specialize (Hnone _ _ H).
Qed.

Lemma enter_ok s m id : lockOk s → outside s id → lockOk (enter m id s).
Proof.
  intros Hok Hout. destruct (lo_exclusivePromise s) as [e|] eqn:He.
  - unfold enter. rewrite He. by apply wait_ok.
  - destruct m; [by apply enterNonExclusive_ok | by apply enterExclusive_ok].
Qed.

(** At most one call owns the exclusive promise. *)
Lemma owner_unique s a b p q :
  lockOk s → lo_calls s !! a = Some p → owns p = true → lo_calls s !! b = Some q → owns q = true → a = b.
Proof. intros Hok Ha Hp Hb Hq. pose proof (lk_owner _ Hok a p Ha Hp). pose proof (lk_owner _ Hok b q Hb Hq). congruence. Qed.

Lemma drained_ok s id pending :
  lockOk s → lo_calls s !! id = Some (Draining pending) → forallb (isSettled s) pending = true →
  lockOk (setPhase id (Running Exclusive) s).
Proof.
  intros Hok Hid Hall. pose proof (λ b q, owner_unique s id b _ q Hok Hid eq_refl) as Huniq.
  assert (∀ n, lo_calls s !! n ≠ Some (Running NonExclusive)) as Hnone.
  { intros n Hn. pose proof (lk_pending _ Hok _ _ _ Hid Hn) as Hin. rewrite forallb_forall in Hall.
    specialize (Hall n (proj1 (list_elem_of_In _ _) Hin)). unfold isSettled in Hall. by rewrite Hn in Hall. }
  destruct Hok as [H1 H2 H3 H4 H5 H6 H7 H8]. split; intros; lock_cases; eauto; try (by exfalso; eauto).
  exfalso. assert (isSettled s n = false) as Hus by (unfold isSettled; by rewrite Hid). destruct (H8 n H); congruence.
Qed.

Lemma settle_ok s id m : lockOk s → lo_calls s !! id = Some (Running m) → lockOk (setPhase id (Settled m) s).
Proof.
  intros Hok Hid. assert (isSettled s id = false) as Hus by (unfold isSettled; by rewrite Hid).
  destruct Hok as [H1 H2 H3 H4 H5 H6 H7 H8]. destruct m; split; intros; lock_cases; eauto; try (by exfalso; eauto).
  - destruct (H2 _ H) as (phase & Hp & Ho). rewrite Hid in Hp. by injection Hp as <-.
  - destruct (H6 _ _ _ H) as [|]; [by left | congruence].
Qed.

Lemma leave_ok s id m : lockOk s → lo_calls s !! id = Some (Settled m) → lockOk (leave m id s).
Proof.
  intros Hok Hid. assert (isSettled s id = true) as Hus by (unfold isSettled; by rewrite Hid).
  pose proof (λ b q, owner_unique s id b _ q Hok Hid) as Huniq.
  destruct Hok as [H1 H2 H3 H4 H5 H6 H7 H8]. unfold leave. destruct m; split; intros; lock_cases; eauto; try (by exfalso; eauto).
  - destruct (H2 _ H) as (phase & Hp & Ho). rewrite Hid in Hp. by injection Hp as <-.
  - apply list_elem_of_In, filter_In. split; [apply list_elem_of_In; auto |]. by apply negb_true_iff, Nat.eqb_neq.
  - apply list_elem_of_In, filter_In in H as [H _]. apply list_elem_of_In in H. auto.
  - pose proof (H1 _ _ Hid eq_refl). destruct (H6 _ _ _ H) as [|]; [congruence | by right].
Qed.

Lemma step_ok s s' : lockOk s → lockStep s s' → lockOk s'.
Proof.
  intros Hok [id m e Hid He|id pending Hid Hall|id m Hid|id m Hid];
    [apply enter_ok; [done | right; eauto] | by eapply drained_ok | by apply settle_ok | by apply leave_ok].
Qed.

Lemma new_ok : lockOk newLock.
Proof. by split; unfold newLock; cbn; intros; rewrite ?lookup_empty in *; [| | | | | | | apply elem_of_nil in H]. Qed.

Lemma lockReachable_ok s : lockReachable s → lockOk s.
Proof. induction 1 as [|m id s _ IH Hid|s s' _ IH Hstep]; [apply new_ok | apply enter_ok; [done | by left] | by eapply step_ok]. Qed.

(** Mutual exclusion: while the callback of [runExclusive] runs, no other
    callback of the lock runs, exclusive or not, whatever calls come in between
    and in whatever order their continuations run. *)
Theorem lock_excludes s a b m :
  lockReachable s → lo_calls s !! a = Some (Running Exclusive) → lo_calls s !! b = Some (Running m) → a = b.
Proof.
  intros Hok%lockReachable_ok Ha Hb. destruct m; [by destruct (lk_alone _ Hok a b Ha) |].
  by eapply owner_unique; [exact Hok | exact Ha | | exact Hb |].
Qed.

(** ** Every call is served *)

(** How many continuations a call still has before it, and whether it waits for
    a call that has already returned. *)
Definition weight (phase : Phase) : nat :=
  match phase with Waiting _ _ => 4 | Draining _ => 3 | Running _ => 2 | Settled _ => 1 | Done => 0 end.
Definition stale (calls : gmap nat Phase) (phase : Phase) : nat :=
  match phase with Waiting _ e => if decide (calls !! e = Some Done) then 1 else 0 | _ => 0 end.
Definition total (f : Phase → nat) (calls : gmap nat Phase) : nat := sum_list_with (f ∘ snd) (map_to_list calls).
Definition work (s : Lock) : nat := total weight (lo_calls s).
Definition staleness (s : Lock) : nat := total (stale (lo_calls s)) (lo_calls s).

Lemma total_ext f g calls : (∀ phase, f phase = g phase) → total f calls = total g calls.
Proof. intros Hfg. unfold total. induction (map_to_list calls) as [|[n p] l IH]; [done |]. cbn. by rewrite Hfg, IH. Qed.

Lemma total_insert f calls id old new :
  calls !! id = Some old → (total f (<[id := new]> calls) + f old = total f calls + f new)%nat.
Proof.
  intros Hid. unfold total.
  assert (∀ p, sum_list_with (f ∘ snd) (map_to_list (<[id := p]> (delete id calls)))
               = (f p + sum_list_with (f ∘ snd) (map_to_list (delete id calls)))%nat) as Hcons.
  { intros p. by rewrite (map_to_list_insert _ id p (lookup_delete_eq calls id)). }
  pose proof (Hcons new) as Hnew. pose proof (Hcons old) as Hold.
  rewrite insert_delete_eq in Hnew. rewrite insert_delete_id in Hold by done. lia.
Qed.

(** A call that is not done and stays so leaves every waiter as fresh as it was. *)
Lemma stale_insert calls id old new phase :
  calls !! id = Some old → old ≠ Done → new ≠ Done → stale (<[id := new]> calls) phase = stale calls phase.
Proof.
  intros Hid Hold Hnew. destruct phase as [m e| | | |]; [| done..]. cbn. destruct (decide (id = e)) as [<-|Hne].
  - rewrite lookup_insert_eq, Hid. by rewrite !decide_False by congruence.
  - by rewrite lookup_insert_ne.
Qed.

(** A step changes the phase of one call; the work left goes down, or a waiter
    that was woken waits for the present owner. *)
Lemma step_phase s s' :
  lockOk s → lockStep s s' →
  ∃ id old new, lo_calls s !! id = Some old ∧ lo_calls s' = <[id := new]> (lo_calls s) ∧
    ((weight new < weight old)%nat ∨
     ∃ m e e', old = Waiting m e ∧ lo_calls s !! e = Some Done ∧ new = Waiting m e' ∧ lo_exclusivePromise s = Some e').
Proof.
  intros Hok [id m e Hid He|id pending Hid Hall|id m Hid|id m Hid].
  - unfold enter. destruct (lo_exclusivePromise s) as [e'|] eqn:Hx.
    + exists id, (Waiting m e), (Waiting m e'). split_and!; [done | done |]. right. by exists m, e, e'.
    + destruct m; eexists id, _, _; (split_and!; [done | done |]); left; cbn; lia.
  - exists id, (Draining pending), (Running Exclusive). split_and!; [done | done | left; cbn; lia].
  - exists id, (Running m), (Settled m). split_and!; [done | done | left; cbn; lia].
  - exists id, (Settled m), Done. split_and!; [done | by destruct m | left; cbn; lia].
Qed.

Lemma step_decreases s s' :
  lockOk s → lockStep s s' →
  (work s' < work s ∨ work s' = work s ∧ staleness s' < staleness s)%nat.
Proof.
  intros Hok Hstep. destruct (step_phase s s' Hok Hstep) as (id & old & new & Hid & Hcalls & Hcase).
  unfold work, staleness. rewrite Hcalls. pose proof (total_insert weight _ _ _ new Hid) as Hw.
  destruct Hcase as [|(m & e & e' & -> & Hdone & -> & Hx)]; [left; lia |]. right. cbn in Hw. split; [lia |].
  assert (total (stale (<[id := Waiting m e']> (lo_calls s))) (<[id := Waiting m e']> (lo_calls s))
          = total (stale (lo_calls s)) (<[id := Waiting m e']> (lo_calls s))) as ->.
  { apply total_ext. intros phase. by eapply stale_insert. }
  pose proof (total_insert (stale (lo_calls s)) _ _ _ (Waiting m e') Hid) as Hs. cbn in Hs.
  rewrite decide_True in Hs by done. destruct (lk_exclusive _ Hok e' Hx) as (phase & Hp & Ho).
  rewrite decide_False in Hs by (rewrite Hp; intros [= ->]; done). lia.
Qed.

Lemma lock_sn s : lockOk s → sn lockStep s.
Proof.
  intros Hok. remember (work s) as w eqn:Hw. revert s Hok Hw.
  induction (lt_wf w) as [w _ IHw]. intros s Hok Hw. remember (staleness s) as k eqn:Hk. revert s Hok Hw Hk.
  induction (lt_wf k) as [k _ IHk]. intros s Hok Hw Hk. constructor. intros s' Hstep.
  pose proof (step_ok s s' Hok Hstep) as Hok'.
  destruct (step_decreases s s' Hok Hstep) as [|[]]; [eapply IHw | eapply IHk]; eauto; lia.
Qed.

(** Nothing is left to run only when every call has returned. *)
Lemma nf_owner s id phase : lockOk s → nf lockStep s → lo_calls s !! id = Some phase → owns phase = true → False.
Proof.
  intros Hok Hnf Hid Ho. destruct phase as [| pending | m | m |]; try done; [| apply Hnf; eexists; by econstructor..].
  assert (Exists (λ n, lo_calls s !! n = Some (Running NonExclusive)) pending ∨ forallb (isSettled s) pending = true) as [Hr|Hall].
  { assert (∀ n, n ∈ pending → lo_calls s !! n = Some (Running NonExclusive) ∨ isSettled s n = true) as Hcases
      by (intros n; by apply (lk_drains _ Hok id)).
    clear Hid Ho. induction pending as [|n l IH]; [by right |]. destruct IH as [|IH]; [intros; apply Hcases; by right | by left; right |].
    destruct (Hcases n) as [|Hn]; [left | by left; left |]. right. cbn. by rewrite Hn. }
  - apply Exists_exists in Hr as (n & _ & Hn). apply Hnf. eexists. by eapply step_settle.
  - apply Hnf. eexists. by eapply step_drained.
Qed.

Lemma nf_done s id phase : lockOk s → nf lockStep s → lo_calls s !! id = Some phase → phase = Done.
Proof.
  intros Hok Hnf Hid. destruct phase as [m e| pending | m | m |]; [| by destruct (nf_owner s id _ Hok Hnf Hid eq_refl) | | | done].
  - exfalso. destruct (lk_waiting _ Hok id m e Hid) as [He|He]; [| apply Hnf; eexists; by eapply step_resume].
    destruct (lk_exclusive _ Hok e He) as (phase & Hp & Ho). by eapply nf_owner.
  - exfalso. apply Hnf. eexists. by eapply step_settle.
  - exfalso. apply Hnf. eexists. by eapply step_finally.
Qed.

Lemma steps_calls s s' : lockOk s → rtc lockStep s s' → lockOk s' ∧ ∀ n, is_Some (lo_calls s !! n) ↔ is_Some (lo_calls s' !! n).
Proof.
  intros Hok Hsteps. induction Hsteps as [|s s1 s' Hstep _ IH]; [done |].
  destruct (IH (step_ok _ _ Hok Hstep)) as [Hok' Hdom]. split; [done |]. intros n. rewrite <-Hdom.
  destruct (step_phase _ _ Hok Hstep) as (id & old & new & Hid & -> & _).
  destruct (decide (id = n)) as [<-|]; [rewrite lookup_insert_eq, Hid | by rewrite lookup_insert_ne]. by split; eauto.
Qed.

(** Every call is served: when no further calls come in and callbacks
    settle, no sequence of continuations goes on for ever, and where nothing is
    left to run every call made so far has returned: no waiter is forgotten and
    exclusive and non-exclusive calls do not block each other. *)
Theorem lock_serves s :
  lockReachable s →
  sn lockStep s ∧ ∀ s', rtc lockStep s s' → nf lockStep s' → lo_calls s' = (λ _, Done) <$> lo_calls s.
Proof.
  intros Hok%lockReachable_ok. split; [by apply lock_sn |]. intros s' Hsteps Hnf.
  destruct (steps_calls _ _ Hok Hsteps) as [Hok' Hdom]. apply map_eq. intros n. rewrite lookup_fmap.
  specialize (Hdom n). destruct (lo_calls s !! n) as [p|] eqn:Hs, (lo_calls s' !! n) as [q|] eqn:Hs'; cbn; [| | | done].
  - by rewrite (nf_done _ _ _ Hok' Hnf Hs').
  - destruct Hdom as [Hd _]. by destruct (Hd (mk_is_Some _ _ eq_refl)).
  - destruct Hdom as [_ Hd]. by destruct (Hd (mk_is_Some _ _ eq_refl)).
Qed.

(** A run: an exclusive call, a non-exclusive one that waits for it, and a second
    exclusive one; the first owner's callback is running. *)
Definition busyLock : Lock :=
  setPhase 0 (Running Exclusive) (enter Exclusive 2 (enter NonExclusive 1 (enter Exclusive 0 newLock))).
Lemma busyLock_reachable : lockReachable busyLock.
Proof.
  apply (lock_step (enter Exclusive 2 (enter NonExclusive 1 (enter Exclusive 0 newLock)))).
  - repeat (apply lock_call; [| reflexivity]). apply lock_new.
  - eapply (step_drained _ 0 []); reflexivity.
Qed.
Lemma lock_excludes_witness :
  lockReachable busyLock ∧ lo_calls busyLock !! 0%nat = Some (Running Exclusive) ∧
  lo_calls busyLock !! 1%nat = Some (Waiting NonExclusive 0) ∧ 0%nat = 0%nat.
Proof.
  split; [exact busyLock_reachable |]. split; [reflexivity |]. split; [reflexivity |].
  exact (lock_excludes busyLock 0 0 Exclusive busyLock_reachable eq_refl eq_refl).
Defined.
Lemma lock_serves_witness : lockReachable busyLock ∧ sn lockStep busyLock.
Proof. split; [exact busyLock_reachable | exact (proj1 (lock_serves busyLock busyLock_reachable))]. Defined.
