(* ===== verification/Ipc.v ===== *)
(** * packages/kernel/source/ipc: a worker thread and the calls made to it

    subprocess.ts, the main thread's side, and handler.ts and emit.ts, the
    worker's.  A call is answered by a promise; promises live in a heap and are
    settled at most once.  Messages travel in two queues, in order; a method of
    the worker's handler ends whenever it likes, with any outcome; the worker may
    crash, exit or send what cannot be deserialized at any time.  The streams
    that carry log lines are left out. *)
From S2P Require Import Prelude JsMap.

Section ipc.
(** Values that cross the boundary; [cloneError] is the error [postMessage]
    throws for values that cannot be cloned.  [methods] says which methods the
    worker's handler has. *)
Context {Value : Type} (cloneError : list Value → option string) (methods : string → bool).

Record Request := mkRequest { rq_args : list Value; rq_id : Z; rq_method : string }.

Inductive Outcome := Resolved (v : Value) | Rejected (message : string) | Drained.

(** What a promise was made for: a call of [sendRequest], or one of [drain]. *)
Inductive Purpose := Call (method : string) (args : list Value) | Drain.
Record PromiseState := mkPromise { pr_for : Purpose; pr_outcome : option Outcome }.
#[local] Instance eta_PromiseState : Eta PromiseState := λ p, mkPromise (pr_for p) (pr_outcome p).

(** [Contracts.Kernel.IPC.Reply] and [Event]. *)
Inductive Message :=
  | Reply (id : Z) (result : Value)
  | ErrorReply (id : Z) (error : string)
  | Event (event : string) (data : Value).

Record Subprocess := mkSubprocess {
  sp_lastId : Z;
  sp_callbacks : JsMap Z nat;
  sp_eventHandlers : JsMap string nat;
  sp_stopped : option string;
  sp_drainPromise : option nat;
  sp_drainResolve : option nat;
}.
#[local] Instance eta_Subprocess : Eta Subprocess := λ s,
  mkSubprocess (sp_lastId s) (sp_callbacks s) (sp_eventHandlers s) (sp_stopped s) (sp_drainPromise s) (sp_drainResolve s).

(** Both threads, the queues between them, and what happened: [ip_posted], the
    request and the promise of each id that was posted; [ip_runs], the outcomes of
    the worker's methods; [ip_events], the event handlers that were called. *)
Record Ipc := mkIpc {
  ip_main : Subprocess;
  ip_promises : list PromiseState;
  ip_inbox : list Request;
  ip_running : list Request;
  ip_outbox : list Message;
  ip_exited : bool;
  ip_terminate : bool;
  ip_posted : gmap Z (nat * Request);
  ip_runs : list (Request * (Value + string));
  ip_events : list (nat * Value);
}.
#[local] Instance eta_Ipc : Eta Ipc := λ s,
  mkIpc (ip_main s) (ip_promises s) (ip_inbox s) (ip_running s) (ip_outbox s) (ip_exited s) (ip_terminate s)
    (ip_posted s) (ip_runs s) (ip_events s).

Definition newIpc : Ipc := mkIpc (mkSubprocess 1 [] [] None None None) [] [] [] [] false false ∅ [] [].

(** ** Promises *)
Definition newPromise (purpose : Purpose) : M Ipc nat := λ s,
  (Ok (length (ip_promises s)), s <| ip_promises ::= λ l, l ++ [mkPromise purpose None] |>).

(** Settling a promise that is settled already does nothing. *)
Definition settlePromise (o : Outcome) (p : PromiseState) : PromiseState :=
  match pr_outcome p with None => p <| pr_outcome := Some o |> | Some _ => p end.
Definition settle (k : nat) (o : Outcome) : M Ipc unit := modify (λ s, s <| ip_promises ::= alter (settlePromise o) k |>).

Definition main {A} (f : Subprocess → A) : M Ipc A := s ← get; mret (f (ip_main s)).
Definition setMain (f : Subprocess → Subprocess) : M Ipc unit := modify (λ s, s <| ip_main ::= f |>).

(** ** subprocess.ts *)
Definition notifyDrained : M Ipc unit :=
  drainResolve ← main sp_drainResolve;
  match drainResolve with
  | Some k => settle k Drained;; setMain (λ m, m <| sp_drainResolve := None |> <| sp_drainPromise := None |>)
  | None => mret tt
  end.

Definition whenQuiet : M Ipc unit :=
  callbacks ← main sp_callbacks;
  if mapSize callbacks =? 0 then notifyDrained else mret tt.

Definition rejectPending (error : string) : M Ipc unit :=
  callbacks ← main sp_callbacks;
  forEach (mapValues callbacks) (λ k, settle k (Rejected error));;
  setMain (λ m, m <| sp_callbacks := [] |>);;
  notifyDrained.

(** [this.#stopped ??= error]. *)
Definition stoppedOr (error : string) (m : Subprocess) : Subprocess :=
  match sp_stopped m with Some _ => m | None => m <| sp_stopped := Some error |> end.

Definition stop (error : string) : M Ipc unit := setMain (stoppedOr error);; rejectPending error.

Definition terminate : M Ipc unit := modify (λ s, s <| ip_terminate := true |>).
Definition kill : M Ipc unit := setMain (stoppedOr "Worker was killed");; terminate.
Definition dispose : M Ipc unit := setMain (stoppedOr "Worker is being disposed");; terminate.

Definition getQueueSize (m : Subprocess) : Z := mapSize (sp_callbacks m).
Definition isStopped (m : Subprocess) : bool := isSome (sp_stopped m).

(** The promise that [drain] returns. *)
Definition drain : M Ipc nat :=
  m ← main (λ m, m);
  if getQueueSize m =? 0 then k ← newPromise Drain; settle k Drained;; mret k
  else
    match sp_drainPromise m with
    | Some k => mret k
    | None =>
        k ← newPromise Drain;
        setMain (λ m, m <| sp_drainPromise := Some k |> <| sp_drainResolve := Some k |>);;
        mret k
    end.

Definition postMessage (request : Request) : M Ipc (option string) :=
  match cloneError (rq_args request) with
  | Some error => mret (Some error)
  | None => modify (λ s, s <| ip_inbox ::= λ l, l ++ [request] |>);; mret None
  end.

(** The ghost record of a call whose message was built. *)
Definition recordPosted (id : Z) (k : nat) (request : Request) : M Ipc unit :=
  modify (λ s, s <| ip_posted ::= <[id := (k, request)]> |>).

Definition sendRequest (method : string) (args : list Value) : M Ipc nat :=
  stopped ← main sp_stopped;
  match stopped with
  | Some error => k ← newPromise (Call method args); settle k (Rejected error);; mret k
  | None =>
      k ← newPromise (Call method args);
      id ← main sp_lastId;
      setMain (λ m, m <| sp_lastId ::= λ i, i + 1 |> <| sp_callbacks ::= λ c, mapSet c id k |>);;
      recordPosted id k (mkRequest args id method);;
      thrown ← postMessage (mkRequest args id method);
      match thrown with
      | Some error =>
          setMain (λ m, m <| sp_callbacks ::= λ c, mapDelete c id |>);;
          whenQuiet;; settle k (Rejected error);; mret k
      | None => mret k
      end
  end.

Definition registerEventHandler (event : string) (callback : nat) : M Ipc unit :=
  setMain (λ m, m <| sp_eventHandlers ::= λ h, mapSet h event callback |>).

(** [this.callbacks.get(id)?.resolve(…)] and the [finally]. *)
Definition answer (id : Z) (o : Outcome) : M Ipc unit :=
  callbacks ← main sp_callbacks;
  match mapGet callbacks id with Some k => settle k o | None => mret tt end;;
  setMain (λ m, m <| sp_callbacks ::= λ c, mapDelete c id |>);;
  whenQuiet.

Definition onMessage (message : Message) : M Ipc unit :=
  match message with
  | Reply id result => answer id (Resolved result)
  | ErrorReply id error => answer id (Rejected error)
  | Event event data =>
      handlers ← main sp_eventHandlers;
      match mapGet handlers event with
      | Some h => modify (λ s, s <| ip_events ::= λ l, l ++ [(h, data)] |>)
      | None => mret tt
      end
  end.

(** ** handler.ts and emit.ts *)
Definition post (message : Message) : M Ipc unit := modify (λ s, s <| ip_outbox ::= λ l, l ++ [message] |>).

(** The method returned a value or threw; a value that cannot be cloned makes
    [postMessage] throw inside the [try]. *)
Definition replyTo (request : Request) (o : Value + string) : Message :=
  match o with
  | inl result =>
      match cloneError [result] with None => Reply (rq_id request) result | Some error => ErrorReply (rq_id request) error end
  | inr error => ErrorReply (rq_id request) error
  end.

(** The first half of [#onMessage], up to its await; a method that is not defined
    is answered at once. *)
Definition undefinedMethod (method : string) : string := ("Method " ++ method ++ " is not defined on the handler")%string.
Definition handlerOnMessage (request : Request) : M Ipc unit :=
  if methods (rq_method request) then modify (λ s, s <| ip_running ::= λ l, l ++ [request] |>)
  else post (ErrorReply (rq_id request) (undefinedMethod (rq_method request))).

(** The second half: the method's promise is settled. *)
Definition handlerReplies (request : Request) (o : Value + string) : M Ipc unit :=
  modify (λ s, s <| ip_runs ::= λ l, l ++ [(request, o)] |>);; post (replyTo request o).

Definition emit (event : string) (data : Value) : M Ipc unit := post (Event event data).

(** ** Runs *)
Inductive Action :=
  | Send (method : string) (args : list Value)
  | StartDrain | Kill | Dispose
  | Register (event : string) (callback : nat)
  | WorkerReceives | WorkerReplies (i : nat) (o : Value + string) | WorkerEmits (event : string) (data : Value)
  | Deliver | DeliverBroken (error : string)
  | Crash (error : string) | Exit (code : string).

Definition whenAlive (m : M Ipc unit) : M Ipc unit := s ← get; if ip_exited s then mret tt else m.

Definition act (a : Action) : M Ipc unit :=
  match a with
  | Send method args => sendRequest method args;; mret tt
  | StartDrain => drain;; mret tt
  | Kill => kill
  | Dispose => dispose
  | Register event callback => registerEventHandler event callback
  | WorkerReceives => whenAlive (
      s ← get;
      match ip_inbox s with
      | request :: rest => modify (λ s, s <| ip_inbox := rest |>);; handlerOnMessage request
      | [] => mret tt
      end)
  | WorkerReplies i o => whenAlive (
      s ← get;
      match ip_running s !! i with
      | Some request => modify (λ s, s <| ip_running ::= delete i |>);; handlerReplies request o
      | None => mret tt
      end)
  | WorkerEmits event data => whenAlive (emit event data)
  | Deliver =>
      s ← get;
      match ip_outbox s with
      | message :: rest => modify (λ s, s <| ip_outbox := rest |>);; onMessage message
      | [] => mret tt
      end
  | DeliverBroken error =>
      s ← get;
      match ip_outbox s with
      | _ :: rest => modify (λ s, s <| ip_outbox := rest |>);; rejectPending error
      | [] => mret tt
      end
  | Crash error => stop error
  | Exit code => modify (λ s, s <| ip_exited := true |>);; stop ("Worker stopped with exit code " ++ code)%string
  end.

Definition runActions (actions : list Action) (s : Ipc) : Ipc := foldl (λ s a, run_in (act a) s) s actions.

Inductive ipcReachable : Ipc → Prop :=
  | ipc_new : ipcReachable newIpc
  | ipc_act s a : ipcReachable s → ipcReachable (run_in (act a) s).

(** ** The invariant *)
Definition replyId (message : Message) : option Z :=
  match message with Reply id _ | ErrorReply id _ => Some id | Event _ _ => None end.

(** The ids whose request or reply is somewhere. *)
Definition inFlight (s : Ipc) : list Z :=
  (rq_id <$> ip_inbox s) ++ (rq_id <$> ip_running s) ++ omap replyId (ip_outbox s).

Definition callOf (request : Request) : Purpose := Call (rq_method request) (rq_args request).
Definition callbacksOf (s : Ipc) : JsMap Z nat := sp_callbacks (ip_main s).

(** The method was run for this request, and returned [v]. *)
Definition ran (s : Ipc) (k : nat) (v : Value) : Prop :=
  ∃ id request, ip_posted s !! id = Some (k, request) ∧ (request, inl v) ∈ ip_runs s.

Record ipcCore (s : Ipc) : Prop := {
  ic_wf : wfMap (callbacksOf s);
  ic_callback : ∀ id k, mapGet (callbacksOf s) id = Some k →
    ∃ request, ip_posted s !! id = Some (k, request) ∧ ip_promises s !! k = Some (mkPromise (callOf request) None);
  ic_posted : ∀ id k request, ip_posted s !! id = Some (k, request) →
    id < sp_lastId (ip_main s) ∧ rq_id request = id ∧ ∃ o, ip_promises s !! k = Some (mkPromise (callOf request) o);
  ic_once : ∀ id id' k request request',
    ip_posted s !! id = Some (k, request) → ip_posted s !! id' = Some (k, request') → id = id';
  ic_pending : ∀ k method args, ip_promises s !! k = Some (mkPromise (Call method args) None) →
    ∃ id, mapGet (callbacksOf s) id = Some k;
  ic_request : ∀ request, request ∈ ip_inbox s ++ ip_running s → ∃ k, ip_posted s !! rq_id request = Some (k, request);
  ic_reply : ∀ id v, Reply id v ∈ ip_outbox s →
    ∃ k request, ip_posted s !! id = Some (k, request) ∧ (request, inl v) ∈ ip_runs s;
  ic_resolved : ∀ k method args v,
    ip_promises s !! k = Some (mkPromise (Call method args) (Some (Resolved v))) → ran s k v;
  ic_resolve : sp_drainResolve (ip_main s) = sp_drainPromise (ip_main s);
  ic_drain : ∀ k, sp_drainPromise (ip_main s) = Some k ↔ ip_promises s !! k = Some (mkPromise Drain None);
  ic_waits : ∀ id, id ∈ mapKeys (callbacksOf s) → id ∈ inFlight s;
  ic_exited : ip_exited s = true → callbacksOf s = [] ∧ isStopped (ip_main s) = true;
}.

(** Outside of the operations a drain waits for something. *)
Definition ipcOk (s : Ipc) : Prop := ipcCore s ∧ (sp_drainPromise (ip_main s) ≠ None → callbacksOf s ≠ []).

(** *** Settling calls: some callbacks are taken out and their promises settled *)
Definition closing (s : Ipc) (messages : list Message) (ps : list PromiseState) (cb : JsMap Z nat) : Ipc :=
  s <| ip_outbox := messages |> <| ip_promises := ps |> <| ip_main ::= λ m, m <| sp_callbacks := cb |> |>.

Definition keeps (s : Ipc) (ps : list PromiseState) (cb : JsMap Z nat) (k : nat) : Prop :=
  ps !! k = ip_promises s !! k ∧ ∀ id, mapGet (callbacksOf s) id = Some k → mapGet cb id = Some k.
Definition closes (s : Ipc) (ps : list PromiseState) (cb : JsMap Z nat) (k : nat) : Prop :=
  ∃ id o, mapGet (callbacksOf s) id = Some k ∧ mapGet cb id = None ∧
    ps !! k = settlePromise o <$> ip_promises s !! k ∧ ∀ v, o = Resolved v → ran s k v.

Lemma callback_unique s id id' k :
  ipcCore s → mapGet (callbacksOf s) id = Some k → mapGet (callbacksOf s) id' = Some k → id = id'.
Proof.
  intros Hs (r & Hr & _)%(ic_callback s Hs) (r' & Hr' & _)%(ic_callback s Hs). by eapply (ic_once s Hs).
Qed.

Lemma closed_promise s ps cb k :
  ipcCore s → closes s ps cb k →
  ∃ id request o, mapGet (callbacksOf s) id = Some k ∧ mapGet cb id = None ∧ ip_posted s !! id = Some (k, request) ∧
    ip_promises s !! k = Some (mkPromise (callOf request) None) ∧
    ps !! k = Some (mkPromise (callOf request) (Some o)) ∧ ∀ v, o = Resolved v → ran s k v.
Proof.
  intros Hs (id & o & Hid & Hcb & Hps & Hv). destruct (ic_callback s Hs id k Hid) as (request & Hr & Hp).
  exists id, request, o. rewrite Hps, Hp. done.
Qed.

Lemma core_closing s messages ps cb :
  ipcCore s → wfMap cb → (∀ message, message ∈ messages → message ∈ ip_outbox s) →
  (∀ id k, mapGet cb id = Some k → mapGet (callbacksOf s) id = Some k) →
  (∀ k, keeps s ps cb k ∨ closes s ps cb k) →
  (∀ id, id ∈ mapKeys cb → id ∈ inFlight (closing s messages ps cb)) →
  ipcCore (closing s messages ps cb).
Proof.
  intros Hs Hwf Hm Hsub Hk Hwaits.
  assert (Hcases : ∀ k, keeps s ps cb k ∨ ∃ id request o, mapGet (callbacksOf s) id = Some k ∧ mapGet cb id = None ∧
    ip_posted s !! id = Some (k, request) ∧ ip_promises s !! k = Some (mkPromise (callOf request) None) ∧
    ps !! k = Some (mkPromise (callOf request) (Some o)) ∧ ∀ v, o = Resolved v → ran s k v).
  { intros k. destruct (Hk k) as [?|?]; [by left | right; by apply closed_promise]. }
  split; cbn; try (apply Hs); try done.
  - intros id k Hid. destruct (ic_callback s Hs id k (Hsub _ _ Hid)) as (r & Hr & Hp). exists r. split; [done |].
    destruct (Hcases k) as [[Heq _]|(id' & r' & o & Hid' & Hn & _)]; [by rewrite Heq |].
    rewrite (callback_unique s id id' k Hs (Hsub _ _ Hid) Hid') in Hid. change (mapGet cb id' = Some k) in Hid. by rewrite Hn in Hid.
  - intros id k r Hr. destruct (ic_posted s Hs id k r Hr) as (? & ? & o & Ho). split_and!; [done | done |].
    destruct (Hcases k) as [[Heq _]|(id' & r' & o' & _ & _ & _ & Hp & -> & _)]; [rewrite Heq; by exists o |].
    rewrite Hp in Ho. assert (Hc : callOf r' = callOf r) by congruence. rewrite <- Hc. by eexists.
  - intros k method args Hp. destruct (Hcases k) as [[Heq Hkeep]|(id' & r' & o' & _ & _ & _ & _ & Hq & _)]; [| by rewrite Hq in Hp].
    rewrite Heq in Hp. destruct (ic_pending s Hs k method args Hp) as [id Hid]. exists id. by apply Hkeep.
  - intros id v Hv%Hm. by apply (ic_reply s Hs).
  - intros k method args v Hp. destruct (Hcases k) as [[Heq Hkeep]|(id' & r' & o' & _ & _ & _ & _ & Hq & Hran)].
    + rewrite Heq in Hp. by eapply (ic_resolved s Hs).
    + rewrite Hq in Hp. injection Hp as _ _ ->. by apply Hran.
  - intros k. destruct (Hcases k) as [[-> _]|(id' & r' & o' & _ & _ & _ & Hp & Hq & _)]; [by apply (ic_drain s Hs) |].
    rewrite (ic_drain s Hs), Hp, Hq. done.
  - intros [Hcb Hstop]%(ic_exited s Hs). split; [| done]. destruct cb as [|[id k] cb]; [done |].
    exfalso. specialize (Hsub id k). rewrite Hcb in Hsub. cbn in Hsub. by rewrite decide_True in Hsub by done; specialize (Hsub eq_refl).
Qed.

(** *** Draining *)
Lemma notifyDrained_ok s : ipcCore s → ipcOk (run_in notifyDrained s).
Proof.
  intros Hs. unfold run_in, notifyDrained, main, settle, setMain, get, modify, mbind, M_bind, mret, M_ret.
  rewrite (ic_resolve s Hs). destruct (sp_drainPromise (ip_main s)) as [d|] eqn:Hd; cbn; [| split; [done | cbn; by rewrite Hd]].
  assert (Hp := proj1 (ic_drain s Hs d) Hd). split; [| done].
  assert (Hother : ∀ k p, pr_for p ≠ Drain ∨ pr_outcome p ≠ None →
    alter (settlePromise Drained) d (ip_promises s) !! k = Some p ↔ ip_promises s !! k = Some p ∨ k = d ∧ p = mkPromise Drain (Some Drained)).
  { intros k p Hne. destruct (decide (k = d)) as [->|Hk].
    - rewrite list_lookup_alter_eq, Hp. cbn. split; [intros [= <-]; by right |]. intros [[= <-]|[_ ->]]; [by destruct Hne | done].
    - rewrite list_lookup_alter_ne by done. split; [by left | intros [?|[? _]]; [done | by subst]]. }
  split; cbn; try (apply Hs); try done.
  - intros id k Hid. destruct (ic_callback s Hs id k Hid) as (r & Hr & Hpr). exists r. split; [done |]. apply Hother; [by left | by left].
  - intros id k r Hr. destruct (ic_posted s Hs id k r Hr) as (? & ? & o & Ho). split_and!; [done | done |].
    exists o. apply Hother; [by left | by left].
  - intros k method args [Hk|[_ ?]]%Hother; [| done | by left]. by eapply (ic_pending s Hs).
  - intros k method args v [Hk|[_ ?]]%Hother; [| done | by left]. by eapply (ic_resolved s Hs).
  - intros k. split; [done |]. destruct (decide (k = d)) as [->|Hk]; [rewrite list_lookup_alter_eq, Hp; done |].
    rewrite list_lookup_alter_ne by done. intros Hkd%(ic_drain s Hs). congruence.
Qed.

Lemma whenQuiet_ok s : ipcCore s → ipcOk (run_in whenQuiet s).
Proof.
  intros Hs. unfold run_in, whenQuiet, main, get, mbind, M_bind, mret, M_ret. cbn.
  destruct (mapSize _ =? 0) eqn:Hz; [by apply notifyDrained_ok |].
  split; [done |]. intros _ Hcb. unfold callbacksOf in Hcb. cbn in Hcb. unfold mapSize in Hz. by rewrite Hcb in Hz.
Qed.

(** *** Rejecting everything in flight *)
Definition settleAll (o : Outcome) (ks : list nat) (ps : list PromiseState) : list PromiseState :=
  foldl (λ ps k, alter (settlePromise o) k ps) ps ks.

Lemma settlePromise_settled o p : pr_outcome (settlePromise o p) ≠ None.
Proof. unfold settlePromise. destruct (pr_outcome p) eqn:Hp; cbn; by rewrite ?Hp. Qed.

Lemma settlePromise_idem o p : settlePromise o (settlePromise o p) = settlePromise o p.
Proof.
  unfold settlePromise at 1. destruct (pr_outcome (settlePromise o p)) eqn:Hp; [done |]. by destruct (settlePromise_settled o p).
Qed.

Lemma lookup_settleAll o ks ps k :
  settleAll o ks ps !! k = if decide (k ∈ ks) then settlePromise o <$> ps !! k else ps !! k.
Proof.
  revert ps. induction ks as [|k' ks IH]; intros ps; cbn; [done |]. fold (settleAll o ks (alter (settlePromise o) k' ps)).
  rewrite IH, list_lookup_alter. destruct (decide (k' = k)) as [->|Hne].
  - rewrite (decide_True (P := k ∈ k :: ks)) by (by left). destruct (decide (k ∈ ks)); [| done].
    destruct (ps !! k); cbn; [by rewrite settlePromise_idem | done].
  - destruct (decide (k ∈ ks)); [rewrite decide_True by (by right) | rewrite decide_False by (by intros [?|?]%elem_of_cons)]; done.
Qed.

Lemma forEach_settle o ks s : forEach ks (λ k, settle k o) s = (Ok tt, s <| ip_promises ::= settleAll o ks |>).
Proof.
  revert s. induction ks as [|k ks IH]; intros s; [by destruct s |]. cbn. unfold mbind at 1, M_bind. cbn. by rewrite IH.
Qed.

Lemma rejectPending_run error s :
  rejectPending error s =
  notifyDrained (closing s (ip_outbox s) (settleAll (Rejected error) (mapValues (callbacksOf s)) (ip_promises s)) []).
Proof.
  unfold rejectPending, main, setMain, get, modify, mbind at 1 2, M_bind, mret, M_ret. cbn.
  unfold mbind at 1, M_bind. by rewrite forEach_settle.
Qed.

Lemma core_rejected s messages error :
  ipcCore s → (∀ message, message ∈ messages → message ∈ ip_outbox s) →
  ipcCore (closing s messages (settleAll (Rejected error) (mapValues (callbacksOf s)) (ip_promises s)) []).
Proof.
  intros Hs Hm. apply core_closing; try done; [by apply NoDup_nil_2 | | by intros ? ?%elem_of_nil].
  intros k. unfold keeps, closes. rewrite lookup_settleAll. case_decide as Hk.
  - right. unfold mapValues in Hk. apply list_elem_of_fmap in Hk as ([id k'] & -> & Hk). cbn.
    exists id, (Rejected error). by apply mapGet_wf in Hk; [| apply Hs].
  - left. split; [done |]. intros id Hid%mapGet_elem. exfalso. apply Hk. apply list_elem_of_fmap. by exists (id, k).
Qed.

Lemma rejectPending_ok s messages error :
  ipcCore s → (∀ message, message ∈ messages → message ∈ ip_outbox s) →
  ipcOk (run_in (rejectPending error) (s <| ip_outbox := messages |>)).
Proof.
  intros Hs Hm. unfold run_in. rewrite rejectPending_run. exact (notifyDrained_ok _ (core_rejected s messages error Hs Hm)).
Qed.

(** *** Stopping *)
Lemma core_stopped s error : ipcCore s → ipcCore (s <| ip_main ::= stoppedOr error |>).
Proof.
  intros Hs. unfold stoppedOr. destruct (sp_stopped (ip_main s)) as [e|] eqn:He; split; unfold callbacksOf; cbn; rewrite ?He; try apply Hs.
  intros [Hcb _]%(ic_exited s Hs). done.
Qed.

Lemma ok_stopped s error : ipcOk s → ipcOk (s <| ip_main ::= stoppedOr error |>).
Proof.
  intros [Hs Hd]. split; [by apply core_stopped |]. unfold stoppedOr, callbacksOf. cbn. by destruct (sp_stopped (ip_main s)).
Qed.

Lemma same_outbox s : s <| ip_outbox := ip_outbox s |> = s.
Proof. by destruct s. Qed.

Lemma stop_ok s error : ipcCore s → ipcOk (run_in (stop error) s).
Proof.
  intros Hs. change (run_in (stop error) s) with (run_in (rejectPending error) (s <| ip_main ::= stoppedOr error |>)).
  rewrite <- (same_outbox (s <| ip_main ::= stoppedOr error |>)). apply rejectPending_ok; [by apply core_stopped | done].
Qed.

Lemma notifyDrained_frame s :
  ∃ ps, run_in notifyDrained s =
    s <| ip_promises := ps |> <| ip_main ::= λ m, m <| sp_drainResolve := sp_drainResolve (ip_main (run_in notifyDrained s)) |>
      <| sp_drainPromise := sp_drainPromise (ip_main (run_in notifyDrained s)) |> |>.
Proof.
  unfold run_in, notifyDrained, main, settle, setMain, get, modify, mbind, M_bind, mret, M_ret. cbn.
  destruct (sp_drainResolve (ip_main s)) as [d|] eqn:Hd; cbn; [by eexists |].
  exists (ip_promises s). by destruct s as [[]].
Qed.

Lemma stop_stopped s error : callbacksOf (run_in (stop error) s) = [] ∧ isStopped (ip_main (run_in (stop error) s)) = true.
Proof.
  change (run_in (stop error) s) with (run_in (rejectPending error) (s <| ip_main ::= stoppedOr error |>)).
  unfold run_in at 1 2. rewrite rejectPending_run. fold (run_in notifyDrained).
  match goal with |- context [(notifyDrained ?s').2] => destruct (notifyDrained_frame s') as [ps Heq]; unfold run_in in Heq; rewrite Heq end.
  split; [done |]. unfold isStopped, stoppedOr. cbn. by destruct (sp_stopped (ip_main s)) eqn:He; cbn; rewrite ?He.
Qed.

Lemma exit_run s code error : error = ("Worker stopped with exit code " ++ code)%string →
  run_in (act (Exit code)) s = (run_in (stop error) s) <| ip_exited := true |>.
Proof.
  intros ->. cbn [act]. unfold run_in, stop, setMain, modify, mbind, M_bind. cbn. rewrite !rejectPending_run.
  unfold notifyDrained, main, settle, setMain, get, modify, mbind, M_bind, mret, M_ret. cbn. unfold callbacksOf. cbn.
  by destruct (sp_drainResolve _).
Qed.

Lemma exit_ok s code : ipcCore s → ipcOk (run_in (act (Exit code)) s).
Proof.
  intros Hs. rewrite (exit_run s code _ eq_refl). generalize (stop_stopped s ("Worker stopped with exit code " ++ code)%string).
  generalize (stop_ok s ("Worker stopped with exit code " ++ code)%string Hs).
  generalize (run_in (stop ("Worker stopped with exit code " ++ code)%string) s). intros s' [Hc Hd] [Hcb Hst].
  split; [| done]. split; cbn; try apply Hc. done.
Qed.

(** *** Answers *)
Lemma mapGet_deleted (m : JsMap Z nat) id k k' : mapGet (mapDelete m id) k = Some k' → mapGet m k = Some k' ∧ k ≠ id.
Proof. rewrite mapGet_delete. by case_decide. Qed.

Lemma keys_deleted (m : JsMap Z nat) id k : k ∈ mapKeys (mapDelete m id) → k ∈ mapKeys m ∧ k ≠ id.
Proof.
  unfold mapKeys, mapDelete. intros ([k' v'] & -> & [Hne ?]%list_elem_of_filter)%list_elem_of_fmap.
  split; [| done]. apply list_elem_of_fmap. by exists (k', v').
Qed.

Lemma answer_ok s message messages id o :
  ipcCore s → ip_outbox s = message :: messages → replyId message = Some id →
  (∀ v k, o = Resolved v → mapGet (callbacksOf s) id = Some k → ran s k v) →
  ipcOk (run_in (answer id o) (s <| ip_outbox := messages |>)).
Proof.
  intros Hs Hm Hid Hran.
  set (ps := match mapGet (callbacksOf s) id with Some k => alter (settlePromise o) k (ip_promises s) | None => ip_promises s end).
  assert (Hrun : run_in (answer id o) (s <| ip_outbox := messages |>) =
    run_in whenQuiet (closing s messages ps (mapDelete (callbacksOf s) id))).
  { unfold run_in, answer, settle, setMain, main, get, modify, mbind, M_bind, mret, M_ret, ps. cbn.
    unfold callbacksOf. by destruct (mapGet (sp_callbacks (ip_main s)) id). }
  rewrite Hrun. apply whenQuiet_ok, core_closing; [done | by apply wfMap_delete, Hs | | | |].
  - rewrite Hm. by right.
  - by intros id' k [? _]%mapGet_deleted.
  - intros k. unfold keeps, closes, ps. destruct (mapGet (callbacksOf s) id) as [k'|] eqn:Hk.
    + destruct (decide (k' = k)) as [->|Hne].
      * right. exists id, o. rewrite mapGet_delete, decide_True, list_lookup_alter_eq by done. eauto.
      * left. rewrite list_lookup_alter_ne by done. split; [done |]. intros id' Hid'.
        rewrite mapGet_delete, decide_False by congruence. done.
    + left. split; [done |]. intros id' Hid'. rewrite mapGet_delete, decide_False by congruence. done.
  - intros id' [Hin Hne]%keys_deleted. apply (ic_waits s Hs) in Hin. unfold inFlight in *. cbn.
    rewrite Hm in Hin. cbn in Hin. rewrite Hid, !elem_of_app, elem_of_cons in Hin. rewrite !elem_of_app. tauto.
Qed.

Lemma core_delivered s message messages :
  ipcCore s → ip_outbox s = message :: messages → replyId message = None → ipcCore (s <| ip_outbox := messages |>).
Proof.
  intros Hs Hm Hid. assert (Heq : s <| ip_outbox := messages |> = closing s messages (ip_promises s) (callbacksOf s)) by (by destruct s as [[]]).
  rewrite Heq.
  apply core_closing; [done | apply Hs | rewrite Hm; by right | done | by left |].
  intros id Hin%(ic_waits s Hs). unfold inFlight in *. rewrite Hm in Hin. cbn in Hin. by rewrite Hid in Hin.
Qed.

Lemma onMessage_ok s message messages :
  ipcOk s → ip_outbox s = message :: messages → ipcOk (run_in (onMessage message) (s <| ip_outbox := messages |>)).
Proof.
  intros [Hs Hd] Hm. destruct message as [id v|id error|event data]; cbn [onMessage].
  - eapply answer_ok; [done.. |]. intros ? k [= <-] Hk.
    destruct (ic_reply s Hs id v) as (k' & request & Hp & Hr); [rewrite Hm; by left |].
    destruct (ic_callback s Hs id k Hk) as (request' & Hp' & _). assert (k' = k) as -> by congruence. by exists id, request.
  - by eapply answer_ok.
  - assert (Hs' := core_delivered s _ messages Hs Hm eq_refl).
    unfold run_in, main, get, modify, mbind, M_bind, mret, M_ret. cbn. destruct (mapGet _ event); cbn; [| done].
    split; [| done]. split; cbn; apply Hs'.
Qed.

(** *** Calls *)
Definition sent (s : Ipc) (method : string) (args : list Value) (thrown : option string) : Ipc :=
  let id := sp_lastId (ip_main s) in
  let request := mkRequest args id method in
  let k := length (ip_promises s) in
  s <| ip_main ::= λ m, m <| sp_lastId := id + 1 |>
         <| sp_callbacks := match thrown with None => mapSet (callbacksOf s) id k | Some _ => callbacksOf s end |> |>
    <| ip_promises ::= λ l, l ++ [mkPromise (Call method args) (Rejected <$> thrown)] |>
    <| ip_posted ::= <[id := (k, request)]> |>
    <| ip_inbox ::= λ l, match thrown with None => l ++ [request] | Some _ => l end |>.

Lemma fresh_id s k request : ipcCore s → ip_posted s !! sp_lastId (ip_main s) = Some (k, request) → False.
Proof. intros Hs [? _]%(ic_posted s Hs). lia. Qed.

Lemma fresh_callback s : ipcCore s → mapGet (callbacksOf s) (sp_lastId (ip_main s)) = None.
Proof.
  intros Hs. destruct (mapGet _ _) as [k|] eqn:Hk; [| done]. destruct (ic_callback s Hs _ _ Hk) as (request & Hp & _).
  by apply fresh_id in Hp.
Qed.

Lemma fresh_promise s k id request : ipcCore s → ip_posted s !! id = Some (k, request) → (k < length (ip_promises s))%nat.
Proof. intros Hs (_ & _ & o & Ho)%(ic_posted s Hs). by apply lookup_lt_Some in Ho. Qed.

Lemma posted_set s id k request request' :
  ipcCore s →
  <[sp_lastId (ip_main s) := (length (ip_promises s), request')]> (ip_posted s) !! id = Some (k, request) →
  (id = sp_lastId (ip_main s) ∧ k = length (ip_promises s) ∧ request = request') ∨
  (id ≠ sp_lastId (ip_main s) ∧ ip_posted s !! id = Some (k, request) ∧ (k < length (ip_promises s))%nat).
Proof.
  intros Hs. rewrite lookup_insert. case_decide as Hid; [intros [= <- <-]; by left |]. intros Hp. right.
  split_and!; [done | done | by eapply fresh_promise].
Qed.

Lemma posted_keeps s id k request x :
  ipcCore s → ip_posted s !! id = Some (k, request) →
  <[sp_lastId (ip_main s) := x]> (ip_posted s) !! id = Some (k, request).
Proof. intros Hs Hp. rewrite lookup_insert_ne; [done |]. intros <-. by apply fresh_id in Hp. Qed.

Lemma core_sent s method args thrown :
  ipcCore s → isStopped (ip_main s) = false → ipcCore (sent s method args thrown).
Proof.
  intros Hs Hopen. set (id0 := sp_lastId (ip_main s)). set (k0 := length (ip_promises s)).
  assert (Hget : ∀ id k, mapGet (callbacksOf (sent s method args thrown)) id = Some k →
    mapGet (callbacksOf s) id = Some k ∨ thrown = None ∧ id = id0 ∧ k = k0).
  { intros id k. unfold callbacksOf. cbn. destruct thrown; [by left |]. rewrite mapGet_set. case_decide; [intros [= <-]; by right | by left]. }
  assert (Hkeep : ∀ id k, mapGet (callbacksOf s) id = Some k → mapGet (callbacksOf (sent s method args thrown)) id = Some k).
  { intros id k Hk. unfold callbacksOf. cbn. destruct thrown; [done |]. rewrite mapGet_set_ne; [done |]. intros <-. by rewrite fresh_callback in Hk. }
  split.
  - unfold callbacksOf. cbn. destruct thrown; [apply Hs | apply wfMap_set, Hs].
  - intros id k [Hk|(-> & -> & ->)]%Hget; cbn.
    + destruct (ic_callback s Hs id k Hk) as (request & Hp & Hq). exists request. split; [by apply posted_keeps |].
      apply lookup_app_l_Some, Hq.
    + eexists. split; [apply lookup_insert_eq |]. by apply list_lookup_middle.
  - intros id k request [(-> & -> & ->)|(_ & Hp & _)]%(posted_set s); [| | done]; cbn.
    + split_and!; [unfold id0; lia | done |]. eexists. by apply list_lookup_middle.
    + destruct (ic_posted s Hs id k request Hp) as (? & ? & o & Ho). split_and!; [lia | done |]. exists o. by apply lookup_app_l_Some.
  - intros id id' k request request' Hp Hp'. apply (posted_set s) in Hp; [| done]. apply (posted_set s) in Hp'; [| done].
    destruct Hp as [(-> & -> & _)|(_ & Hp & ?)]; destruct Hp' as [(-> & Hk & _)|(_ & Hp' & ?)]; [done | lia | lia |].
    by eapply (ic_once s Hs).
  - intros k m a. cbn. intros [[_ Hk]|[-> [= <- <- Hn]]]%lookup_snoc_Some.
    + destruct (ic_pending s Hs k m a Hk) as [id Hid]. exists id. by apply Hkeep.
    + exists id0. destruct thrown; [done |]. unfold callbacksOf. cbn. by rewrite mapGet_set_eq.
  - intros request. cbn. intros Hin. assert (Hcases : request ∈ ip_inbox s ++ ip_running s ∨ thrown = None ∧ request = mkRequest args id0 method).
    { destruct thrown; [by left |]. rewrite !elem_of_app, list_elem_of_singleton in *. destruct Hin as [[?|?]|?]; auto. }
    destruct Hcases as [Hold|[_ ->]]; [| by eexists; apply lookup_insert_eq].
    destruct (ic_request s Hs request Hold) as [k Hp]. exists k. by apply posted_keeps.
  - intros id v Hv. cbn in *. destruct (ic_reply s Hs id v Hv) as (k & request & Hp & Hr). exists k, request.
    split; [by apply posted_keeps | done].
  - intros k m a v. cbn. intros [[_ Hk]|[_ [= _ _ Hn]]]%lookup_snoc_Some; [| by destruct thrown].
    destruct (ic_resolved s Hs k m a v Hk) as (id & request & Hp & Hr). exists id, request. cbn. split; [by apply posted_keeps | done].
  - apply Hs.
  - intros k. cbn. rewrite (ic_drain s Hs). split; [intros Hk; by apply lookup_app_l_Some |].
    by intros [[_ Hk]|[_ [=]]]%lookup_snoc_Some.
  - intros id Hid. assert (Hcases : id ∈ mapKeys (callbacksOf s) ∨ thrown = None ∧ id = id0).
    { apply mapHas_true in Hid. unfold mapHas in Hid. apply isSome_true in Hid as [k Hk].
      apply Hget in Hk as [Hk|(? & ? & _)]; [left; apply mapHas_true; unfold mapHas; by rewrite Hk | by right]. }
    unfold inFlight. cbn. destruct Hcases as [Hold|[-> ->]].
    + apply (ic_waits s Hs) in Hold. unfold inFlight in Hold. destruct thrown; [done |]. rewrite fmap_app, !elem_of_app in *. tauto.
    + rewrite fmap_app, !elem_of_app. left. right. by left.
  - cbn. intros [_ Hst]%(ic_exited s Hs). congruence.
Qed.

(** A promise that is settled from the start. *)
Lemma core_settledPromise s purpose o :
  ipcCore s → (∀ v, o ≠ Resolved v) → ipcCore (s <| ip_promises ::= λ l, l ++ [mkPromise purpose (Some o)] |>).
Proof.
  intros Hs Ho. split; cbn; try apply Hs.
  - intros id k (r & Hr & Hp)%(ic_callback s Hs). exists r. split; [done | by apply lookup_app_l_Some].
  - intros id k r (? & ? & o' & Hp)%(ic_posted s Hs). split_and!; [done | done |]. exists o'. by apply lookup_app_l_Some.
  - intros k m a [[_ Hk]|[_ [=]]]%lookup_snoc_Some. by eapply (ic_pending s Hs).
  - intros k m a v [[_ Hk]|[_ [= _ Hv]]]%lookup_snoc_Some; [by eapply (ic_resolved s Hs) | by destruct (Ho v)].
  - intros k. rewrite (ic_drain s Hs). split; [intros Hk; by apply lookup_app_l_Some |]. by intros [[_ Hk]|[_ [=]]]%lookup_snoc_Some.
Qed.

Lemma alter_last {A} (f : A → A) (l : list A) x : alter f (length l) (l ++ [x]) = l ++ [f x].
Proof. induction l as [|y l IH]; cbn; [done |]. f_equal. apply IH. Qed.

Lemma set_promises s ps f : (s <| ip_promises := ps |>) <| ip_promises ::= f |> = s <| ip_promises := f ps |>.
Proof. done. Qed.
Lemma set_promises_id s : s <| ip_promises := ip_promises s |> = s.
Proof. by destruct s. Qed.

Lemma delete_set_fresh (m : JsMap Z nat) id k : mapGet m id = None → mapDelete (mapSet m id k) id = m.
Proof.
  intros Hm. rewrite mapSet_fresh by done. unfold mapDelete.
  rewrite filter_app, filter_cons, decide_False, filter_nil, app_nil_r by (intros Hne; by apply Hne).
  apply mapDelete_fresh. by apply mapGet_None.
Qed.

Lemma whenQuiet_settle s k o :
  sp_drainResolve (ip_main s) ≠ Some k →
  run_in (whenQuiet;; settle k o) s = run_in whenQuiet (s <| ip_promises ::= alter (settlePromise o) k |>).
Proof.
  intros Hk. unfold run_in, whenQuiet, notifyDrained, settle, setMain, main, get, modify, mbind, M_bind, mret, M_ret. cbn.
  destruct (mapSize _ =? 0); cbn; [| done]. destruct (sp_drainResolve (ip_main s)) as [d|] eqn:Hd; cbn; [| done].
  unfold set_field. cbn. f_equal. apply list_alter_alter_ne. congruence.
Qed.

Lemma sendRequest_ok s method args : ipcOk s → ipcOk (run_in (act (Send method args)) s).
Proof.
  intros [Hs Hd]. destruct (sp_stopped (ip_main s)) as [error|] eqn:Hst.
  - assert (Hrun : run_in (act (Send method args)) s = s <| ip_promises ::= λ l, l ++ [mkPromise (Call method args) (Some (Rejected error))] |>).
    { unfold run_in, act, sendRequest, main, get, newPromise, settle, modify, mbind, M_bind, mret, M_ret. cbn. rewrite Hst. cbn.
      unfold set_field. cbn. by rewrite alter_last. }
    rewrite Hrun. split; [| done]. by apply core_settledPromise.
  - assert (Hopen : isStopped (ip_main s) = false) by (unfold isStopped; by rewrite Hst).
    set (id := sp_lastId (ip_main s)). set (k := length (ip_promises s)).
    destruct (cloneError args) as [error|] eqn:Hc.
    + assert (Hcs := core_sent s method args (Some error) Hs Hopen).
      set (unsettled := (sent s method args (Some error)) <| ip_promises := ip_promises s ++ [mkPromise (Call method args) None] |>).
      assert (Hrun : run_in (act (Send method args)) s = run_in (whenQuiet;; settle k (Rejected error)) unsettled).
      { unfold run_in, act, sendRequest, postMessage, recordPosted, main, get, newPromise, setMain, modify, mbind, M_bind, mret, M_ret. cbn.
        rewrite Hst. cbn. rewrite Hc. cbn. fold k id.
        match goal with |- context [whenQuiet ?x] => assert (Heq : x = unsettled) end.
        { unfold unsettled, sent, set_field. cbn -[mapDelete mapSet]. f_equal. f_equal. apply delete_set_fresh, fresh_callback, Hs. }
        rewrite Heq. by destruct (whenQuiet unsettled) as [[]]. }
      rewrite Hrun, whenQuiet_settle.
      2:{ change (sp_drainResolve (ip_main s) ≠ Some k). rewrite (ic_resolve s Hs), (ic_drain s Hs).
          unfold k. by intros ?%lookup_lt_Some%Nat.lt_irrefl. }
      apply whenQuiet_ok.
      assert (Heq : unsettled <| ip_promises ::= alter (settlePromise (Rejected error)) k |> = sent s method args (Some error)).
      { unfold unsettled. rewrite set_promises. unfold k. rewrite alter_last. apply (set_promises_id (sent s method args (Some error))). }
      by rewrite Heq.
    + assert (Hrun : run_in (act (Send method args)) s = sent s method args None).
      { unfold run_in, act, sendRequest, postMessage, recordPosted, main, get, newPromise, setMain, modify, mbind, M_bind, mret, M_ret. cbn.
        rewrite Hst. cbn. rewrite Hc. done. }
      rewrite Hrun. split; [by apply core_sent |]. intros _ Hcb. unfold callbacksOf in Hcb. cbn in Hcb.
      rewrite mapSet_fresh in Hcb by (by apply fresh_callback). by apply app_nil in Hcb as [_ ?].
Qed.

(** *** Draining *)
Lemma core_drained s :
  ipcCore s → sp_drainPromise (ip_main s) = None →
  ipcCore (s <| ip_promises ::= λ l, l ++ [mkPromise Drain None] |>
    <| ip_main ::= λ m, m <| sp_drainPromise := Some (length (ip_promises s)) |> <| sp_drainResolve := Some (length (ip_promises s)) |> |>).
Proof.
  intros Hs Hn. split; cbn; try apply Hs; try done.
  - intros id k (r & Hr & Hp)%(ic_callback s Hs). exists r. split; [done | by apply lookup_app_l_Some].
  - intros id k r (? & ? & o & Hp)%(ic_posted s Hs). split_and!; [done | done |]. exists o. by apply lookup_app_l_Some.
  - intros k m a [[_ Hk]|[_ [=]]]%lookup_snoc_Some. by eapply (ic_pending s Hs).
  - intros k m a v [[_ Hk]|[_ [=]]]%lookup_snoc_Some. by eapply (ic_resolved s Hs).
  - intros k. rewrite lookup_snoc_Some. split; [intros [= <-]; by right |].
    intros [[_ Hk%(ic_drain s Hs)]|[-> _]]; [congruence | done].
Qed.

Lemma startDrain_ok s : ipcOk s → ipcOk (run_in (act StartDrain) s).
Proof.
  intros [Hs Hd]. unfold run_in, act, drain, main, get, newPromise, settle, setMain, modify, mbind, M_bind, mret, M_ret. cbn.
  destruct (getQueueSize (ip_main s) =? 0) eqn:Hz; cbn.
  - assert (Heq : s <| ip_promises ::= λ l, l ++ [mkPromise Drain None] |> <| ip_promises ::= alter (settlePromise Drained) (length (ip_promises s)) |>
      = s <| ip_promises ::= λ l, l ++ [mkPromise Drain (Some Drained)] |>).
    { unfold set_field. cbn. by rewrite alter_last. }
    rewrite Heq. split; [by apply core_settledPromise | done].
  - destruct (sp_drainPromise (ip_main s)) as [d|] eqn:Hp; cbn; [split; [done | by rewrite Hp] |].
    split; [by apply core_drained |]. intros _ Hcb. unfold callbacksOf in Hcb. cbn in Hcb.
    unfold getQueueSize, mapSize in Hz. by rewrite Hcb in Hz.
Qed.

(** *** The rest of the main thread *)
Lemma register_ok s event callback : ipcOk s → ipcOk (run_in (act (Register event callback)) s).
Proof. intros [Hs Hd]. split; [| done]. split; cbn; apply Hs. Qed.

Lemma terminate_ok s error : ipcOk s → ipcOk (run_in (setMain (stoppedOr error);; terminate) s).
Proof.
  intros Hs. assert (Hc := ok_stopped s error Hs). revert Hc.
  change (run_in _ s) with ((s <| ip_main ::= stoppedOr error |>) <| ip_terminate := true |>).
  generalize (s <| ip_main ::= stoppedOr error |>). intros s' [Hs' Hd]. split; [| done]. split; cbn; apply Hs'.
Qed.

Lemma deliver_ok s : ipcOk s → ipcOk (run_in (act Deliver) s).
Proof.
  intros Hs. unfold run_in, act, get, modify, mbind, M_bind. destruct (ip_outbox s) as [|message messages] eqn:Hm; [done |].
  by apply onMessage_ok with (messages := messages) in Hm.
Qed.

Lemma deliverBroken_ok s error : ipcOk s → ipcOk (run_in (act (DeliverBroken error)) s).
Proof.
  intros [Hs Hd]. unfold run_in, act, get, modify, mbind, M_bind. destruct (ip_outbox s) as [|message messages] eqn:Hm; [done |].
  apply (rejectPending_ok s messages error Hs). rewrite Hm. by right.
Qed.

(** *** The worker *)
Definition moved (s : Ipc) (inbox running : list Request) (messages : list Message) (ran : list (Request * (Value + string))) : Ipc :=
  s <| ip_inbox := inbox |> <| ip_running := running |> <| ip_outbox ::= λ l, l ++ messages |> <| ip_runs ::= λ l, l ++ ran |>.

Lemma ok_moved s inbox running messages ran :
  ipcOk s →
  (∀ request, request ∈ inbox ++ running → request ∈ ip_inbox s ++ ip_running s) →
  (∀ id v, Reply id v ∈ messages → ∃ request, rq_id request = id ∧ request ∈ ip_inbox s ++ ip_running s ∧ (request, inl v) ∈ ran) →
  (∀ id, id ∈ inFlight s → id ∈ inFlight (moved s inbox running messages ran)) →
  ipcOk (moved s inbox running messages ran).
Proof.
  intros [Hs Hd] Hin Hreply Hfly. split; [| done]. split; cbn; try apply Hs.
  - intros request Hr%Hin. by apply (ic_request s Hs).
  - intros id v [Hv|Hv]%elem_of_app.
    + destruct (ic_reply s Hs id v Hv) as (k & request & Hp & Hr). exists k, request. split; [done |]. apply elem_of_app. by left.
    + destruct (Hreply id v Hv) as (request & <- & Hr & Hrun). destruct (ic_request s Hs request Hr) as [k Hp].
      exists k, request. split; [done |]. apply elem_of_app. by right.
  - intros k m a v Hk. destruct (ic_resolved s Hs k m a v Hk) as (id & request & Hp & Hr). exists id, request. cbn.
    split; [done |]. apply elem_of_app. by left.
  - intros id Hid%(ic_waits s Hs). by apply Hfly.
Qed.

Lemma receives_ok s : ipcOk s → ipcOk (run_in (act WorkerReceives) s).
Proof.
  intros Hs. unfold run_in, act, whenAlive, get, modify, mbind at 1, M_bind at 1. destruct (ip_exited s) eqn:He; [done |].
  unfold mbind at 1, M_bind. destruct (ip_inbox s) as [|request rest] eqn:Hi; [done |].
  assert (Hrun : run_in (handlerOnMessage request) (s <| ip_inbox := rest |>) =
    if methods (rq_method request) then moved s rest (ip_running s ++ [request]) [] []
    else moved s rest (ip_running s) [ErrorReply (rq_id request) (undefinedMethod (rq_method request))] []).
  { unfold handlerOnMessage, post, modify, run_in, moved, set_field. cbn. destruct (methods _); cbn; by rewrite ?app_nil_r. }
  change (ipcOk (run_in (handlerOnMessage request) (s <| ip_inbox := rest |>))). rewrite Hrun.
  destruct (methods (rq_method request)); apply ok_moved; try done; rewrite ?Hi.
  - intros r. rewrite !elem_of_app, !elem_of_cons, elem_of_nil. tauto.
  - by intros ? ? ?%elem_of_nil.
  - unfold inFlight. rewrite Hi. cbn. intros id. rewrite fmap_app, app_nil_r, !elem_of_app; cbn; rewrite !elem_of_cons, ?elem_of_nil, !elem_of_app. tauto.
  - intros r. rewrite !elem_of_app, elem_of_cons. tauto.
  - by intros ? ? [=]%list_elem_of_singleton.
  - unfold inFlight. rewrite Hi. cbn. intros id. rewrite omap_app, !elem_of_app; cbn; rewrite !elem_of_cons, ?elem_of_nil, !elem_of_app. tauto.
Qed.

Lemma replyId_replyTo request o : replyId (replyTo request o) = Some (rq_id request).
Proof. unfold replyTo. destruct o; [by destruct (cloneError _) | done]. Qed.

Lemma elem_of_removed {A B} (f : A → B) (l : list A) i x y :
  l !! i = Some x → y ∈ f <$> l ↔ y = f x ∨ y ∈ f <$> delete i l.
Proof. intros Hi%delete_Permutation. revert Hi. generalize (delete i l). intros l' Hl. rewrite Hl. apply elem_of_cons. Qed.

Lemma replies_ok s i o : ipcOk s → ipcOk (run_in (act (WorkerReplies i o)) s).
Proof.
  intros Hs. unfold run_in, act, whenAlive, get, modify, mbind at 1, M_bind at 1. destruct (ip_exited s) eqn:He; [done |].
  unfold mbind at 1, M_bind. destruct (ip_running s !! i) as [request|] eqn:Hi; [| done].
  change (ipcOk (moved s (ip_inbox s) (delete i (ip_running s)) [replyTo request o] [(request, o)])).
  assert (Hmem : ∀ r, r ∈ ip_running s ↔ r = request ∨ r ∈ delete i (ip_running s)).
  { intros r. assert (Hr := elem_of_removed id _ _ _ r Hi). by rewrite !list_fmap_id in Hr. }
  apply ok_moved; [done | | |].
  - intros r. rewrite !elem_of_app, Hmem. tauto.
  - intros id v Hv%list_elem_of_singleton. assert (Hid := replyId_replyTo request o). rewrite <- Hv in Hid. injection Hid as Hid.
    exists request. split_and!; [done | rewrite elem_of_app, Hmem; tauto |].
    apply list_elem_of_singleton. unfold replyTo in Hv. destruct o as [v'|]; [| done]. destruct (cloneError _); [done |]. by injection Hv as _ ->.
  - unfold inFlight. cbn. intros id. rewrite omap_app, !elem_of_app. cbn. rewrite replyId_replyTo, list_elem_of_singleton.
    assert (Hids : id ∈ rq_id <$> ip_running s ↔ id = rq_id request ∨ id ∈ rq_id <$> delete i (ip_running s)) by (by apply elem_of_removed).
    rewrite Hids. tauto.
Qed.

Lemma emits_ok s event data : ipcOk s → ipcOk (run_in (act (WorkerEmits event data)) s).
Proof.
  intros Hs. unfold run_in, act, whenAlive, get, mbind, M_bind. destruct (ip_exited s) eqn:He; [done |].
  assert (Heq : run_in (emit event data) s = moved s (ip_inbox s) (ip_running s) [Event event data] []).
  { unfold run_in, emit, post, modify, moved, set_field. cbn. by rewrite app_nil_r. }
  change (ipcOk (run_in (emit event data) s)). rewrite Heq. apply ok_moved; [done | done | by intros ? ? [=]%list_elem_of_singleton |].
  unfold inFlight. cbn. intros id. by rewrite omap_app, app_nil_r.
Qed.

Lemma act_ok a s : ipcOk s → ipcOk (run_in (act a) s).
Proof.
  intros Hs. destruct a; eauto using sendRequest_ok, startDrain_ok, register_ok, deliver_ok, deliverBroken_ok, receives_ok, replies_ok, emits_ok.
  - apply (terminate_ok s _ Hs).
  - apply (terminate_ok s _ Hs).
  - apply stop_ok, Hs.
  - apply exit_ok, Hs.
Qed.

Lemma ipcOk_reachable s : ipcReachable s → ipcOk s.
Proof.
  induction 1; [| by apply act_ok]. split; [| done]. split; cbn; try done.
  - by apply NoDup_nil_2.
  - by intros ? ?%elem_of_nil.
  - by intros ? ? ?%elem_of_nil.
Qed.

(** *** What is left when nothing is in flight *)
Lemma quiet_settled s :
  ipcOk s → inFlight s = [] → ∀ k p, ip_promises s !! k = Some p → pr_outcome p ≠ None.
Proof.
  intros [Hs Hd] Hq. assert (Hcb : callbacksOf s = []).
  { destruct (callbacksOf s) as [|[id k] m] eqn:Hc; [done |]. exfalso.
    apply (elem_of_nil (A := Z) id). rewrite <- Hq. apply (ic_waits s Hs). rewrite Hc. by left. }
  intros k [[method args|] o] Hp Ho; cbn in Ho; subst o.
  - apply (ic_pending s Hs) in Hp as [id Hid]. by rewrite Hcb in Hid.
  - apply (ic_drain s Hs) in Hp. apply Hd; [by rewrite Hp | done].
Qed.

Definition queues (s : Ipc) : list Request * list Request * list Message * bool :=
  (ip_inbox s, ip_running s, ip_outbox s, ip_exited s).

Lemma whenQuiet_queues s : queues (run_in whenQuiet s) = queues s.
Proof.
  unfold run_in, whenQuiet, notifyDrained, main, settle, setMain, get, modify, mbind, M_bind, mret, M_ret. cbn.
  destruct (mapSize _ =? 0); [cbn | done]. by destruct (sp_drainResolve (ip_main s)).
Qed.

Lemma answer_queues s id o : queues (run_in (answer id o) s) = queues s.
Proof.
  unfold run_in at 1, answer, main, settle, setMain, get, modify. unfold mbind, M_bind, mret, M_ret. cbn.
  destruct (mapGet _ id); cbn; (etransitivity; [apply whenQuiet_queues | done]).
Qed.

Lemma onMessage_queues s message : queues (run_in (onMessage message) s) = queues s.
Proof.
  destruct message as [id v|id error|event data]; [apply answer_queues.. |].
  unfold run_in, onMessage, main, get, modify, mbind, M_bind, mret, M_ret. cbn. by destruct (mapGet _ event).
Qed.

Lemma delivered_queues s inbox running message messages exited :
  queues s = (inbox, running, message :: messages, exited) →
  queues (run_in (act Deliver) s) = (inbox, running, messages, exited).
Proof.
  intros [= <- <- Hm <-]. unfold run_in, act, get, modify, mbind, M_bind. rewrite Hm. cbn.
  etransitivity; [apply onMessage_queues | done].
Qed.

Lemma runActions_cons a actions s : runActions (a :: actions) s = runActions actions (run_in (act a) s).
Proof. done. Qed.

Lemma delivers_all s inbox running exited n :
  ip_inbox s = inbox → ip_running s = running → ip_exited s = exited → (length (ip_outbox s) ≤ n)%nat →
  queues (runActions (replicate n Deliver) s) = (inbox, running, [], exited).
Proof.
  intros <- <- <-. revert s. induction n as [|n IH]; intros s Hn.
  - change (queues s = (ip_inbox s, ip_running s, [], ip_exited s)). unfold queues. destruct (ip_outbox s) eqn:Hm; [done | cbn in Hn; lia].
  - cbn [replicate]. rewrite runActions_cons. destruct (ip_outbox s) as [|message messages] eqn:Hm.
    + assert (Heq : run_in (act Deliver) s = s) by (unfold run_in, act, get, mbind, M_bind; by rewrite Hm).
      rewrite Heq. apply IH. rewrite Hm. cbn. lia.
    + assert (Hq := delivered_queues s (ip_inbox s) (ip_running s) message messages (ip_exited s)).
      unfold queues at 1 in Hq. rewrite Hm in Hq. specialize (Hq eq_refl).
      assert (Ho := f_equal (λ q, q.1.2) Hq). rewrite IH; [| unfold queues in Ho; cbn -[act] in Ho, Hn; rewrite Ho; lia].
      assert (Hi := f_equal (λ q, q.1.1.1) Hq). assert (Hr := f_equal (λ q, q.1.1.2) Hq). assert (He := f_equal snd Hq).
      unfold queues in Hi, Hr, He. cbn -[act] in Hi, Hr, He. by rewrite Hi, Hr, He.
Qed.

Definition total (s : Ipc) : nat := length (ip_inbox s) + length (ip_running s) + length (ip_outbox s).

Lemma receives_all s : ip_exited s = false →
  let s' := runActions (replicate (length (ip_inbox s)) WorkerReceives) s in
  ip_inbox s' = [] ∧ ip_exited s' = false ∧ total s' = total s.
Proof.
  remember (length (ip_inbox s)) as n eqn:Hn. revert s Hn. induction n as [|n IH]; intros s Hn He.
  - by destruct (ip_inbox s) eqn:Hi.
  - cbn [replicate]. rewrite runActions_cons. destruct (ip_inbox s) as [|request rest] eqn:Hi; [done |]. injection Hn as Hn.
    assert (Hstep : ip_inbox (run_in (act WorkerReceives) s) = rest ∧ ip_exited (run_in (act WorkerReceives) s) = false ∧
      total (run_in (act WorkerReceives) s) = total s).
    { unfold run_in, act, whenAlive, get, modify, mbind, M_bind, mret, M_ret. rewrite He, Hi. unfold handlerOnMessage, post, modify, total. cbn. rewrite Hi.
      destruct (methods (rq_method request)); cbn; rewrite length_app; cbn; split_and!; (done || lia). }
    destruct Hstep as (Hi' & He' & <-). apply IH; [by rewrite Hi' | done].
Qed.

Lemma replies_all s outcomes : ip_inbox s = [] → ip_exited s = false → (length (ip_running s) ≤ length outcomes)%nat →
  let s' := runActions (WorkerReplies 0 <$> outcomes) s in
  ip_inbox s' = [] ∧ ip_running s' = [] ∧ ip_exited s' = false ∧ total s' = total s.
Proof.
  revert s. induction outcomes as [|o outcomes IH]; intros s Hi He Hlen.
  - destruct (ip_running s) eqn:Hr; [done | cbn in Hlen; lia].
  - rewrite fmap_cons, runActions_cons.
    assert (Hstep : ip_inbox (run_in (act (WorkerReplies 0 o)) s) = [] ∧ ip_exited (run_in (act (WorkerReplies 0 o)) s) = false ∧
      (length (ip_running (run_in (act (WorkerReplies 0 o)) s)) ≤ length outcomes)%nat ∧ total (run_in (act (WorkerReplies 0 o)) s) = total s).
    { unfold run_in, act, whenAlive, get, modify, mbind, M_bind, mret, M_ret. rewrite He. unfold handlerReplies, post, modify, mbind, M_bind, total.
      destruct (ip_running s) as [|request rest] eqn:Hr; cbn; rewrite ?Hr; cbn in *; [split_and!; (done || lia) |].
      rewrite length_app. cbn. split_and!; (done || lia). }
    destruct Hstep as (Hi' & He' & Hl & <-). by apply IH.
Qed.

Lemma runActions_app l1 l2 s : runActions (l1 ++ l2) s = runActions l2 (runActions l1 s).
Proof. apply foldl_app. Qed.

Lemma runActions_reachable actions s : ipcReachable s → ipcReachable (runActions actions s).
Proof. revert s. induction actions as [|a actions IH]; intros s Hs; [done |]. by apply IH, ipc_act. Qed.

(** The worker reads its messages and ends its methods, each with some outcome,
    and the main thread gets the replies. *)
Definition quiesce (outcomes : list (Value + string)) (s : Ipc) : list Action :=
  replicate (length (ip_inbox s)) WorkerReceives ++ (WorkerReplies 0 <$> outcomes) ++ replicate (total s) Deliver.

Lemma quiesce_settles s outcomes :
  ipcReachable s → ip_exited s = false → (length (ip_inbox s) + length (ip_running s) + length (ip_outbox s) ≤ length outcomes)%nat →
  inFlight (runActions (quiesce outcomes s) s) = [].
Proof.
  intros Hs He Hlen. unfold quiesce. rewrite !runActions_app.
  destruct (receives_all s He) as (Hi1 & He1 & Ht1). revert Hi1 He1 Ht1. generalize (runActions (replicate (length (ip_inbox s)) WorkerReceives) s).
  intros s1 Hi1 He1 Ht1. destruct (replies_all s1 outcomes Hi1 He1) as (Hi2 & Hr2 & He2 & Ht2); [unfold total in Ht1; lia |].
  revert Hi2 Hr2 He2 Ht2. generalize (runActions (WorkerReplies 0 <$> outcomes) s1). intros s2 Hi2 Hr2 He2 Ht2.
  assert (Hn : (length (ip_outbox s2) ≤ total s)%nat) by (unfold total in *; lia).
  assert (Hq := delivers_all s2 [] [] false (total s) Hi2 Hr2 He2 Hn). unfold queues in Hq.
  injection Hq as Hi Hr Ho _. unfold inFlight. by rewrite Hi, Hr, Ho.
Qed.

(** ** Theorems *)

(** C35. A call that is resolved has the value that the worker's method returned
    when it was run for this very call: under the id of the call, with its method
    and arguments; no other call has that id, however requests, replies, errors and
    shutdowns interleave. *)
Theorem own_answer s k method args v :
  ipcReachable s → ip_promises s !! k = Some (mkPromise (Call method args) (Some (Resolved v))) →
  ∃ id, ip_posted s !! id = Some (k, mkRequest args id method) ∧ (mkRequest args id method, inl v) ∈ ip_runs s ∧
    ∀ id' request, ip_posted s !! id' = Some (k, request) → id' = id.
Proof.
  intros [Hs _]%ipcOk_reachable Hp. destruct (ic_resolved s Hs k method args v Hp) as (id & request & Hpost & Hrun).
  destruct (ic_posted s Hs id k request Hpost) as (_ & Hid & o & Ho).
  assert (Heq : request = mkRequest args id method).
  { rewrite Hp in Ho. destruct request as [a i m]. unfold callOf in Ho. cbn in *. congruence. }
  rewrite Heq in *. exists id. split_and!; [done | done |]. intros id' request' Hp'. by eapply (ic_once s Hs).
Qed.

(** C36. Nothing waits for ever: a pending call has its request or its reply under
    way, a pending drain waits for a pending call, after the worker's exit nothing
    is pending; and if the worker lives, reads its messages and ends its methods with
    any outcomes, every call and every drain is settled. *)
Theorem calls_settle s :
  ipcReachable s →
  (∀ k method args, ip_promises s !! k = Some (mkPromise (Call method args) None) →
     ∃ id, mapGet (sp_callbacks (ip_main s)) id = Some k ∧ id ∈ inFlight s) ∧
  (∀ k, ip_promises s !! k = Some (mkPromise Drain None) →
     ∃ k' method args, ip_promises s !! k' = Some (mkPromise (Call method args) None)) ∧
  (ip_exited s = true → ∀ k p, ip_promises s !! k = Some p → pr_outcome p ≠ None) ∧
  (ip_exited s = false → ∀ outcomes, (total s ≤ length outcomes)%nat →
     ∀ k p, ip_promises (runActions (quiesce outcomes s) s) !! k = Some p → pr_outcome p ≠ None).
Proof.
  intros Hr. assert (Hok := ipcOk_reachable s Hr). destruct (Hok) as [Hs Hd].
  assert (Hdrain : ∀ k, ip_promises s !! k = Some (mkPromise Drain None) →
    ∃ k' method args, ip_promises s !! k' = Some (mkPromise (Call method args) None)).
  { intros k Hk. apply (ic_drain s Hs) in Hk. destruct (callbacksOf s) as [|[id k'] m] eqn:Hc; [by destruct Hd; rewrite ?Hk |].
    destruct (ic_callback s Hs id k') as (request & _ & Hp); [rewrite Hc; cbn; by rewrite decide_True |]. by repeat eexists. }
  split_and!; [| done | |].
  - intros k method args (id & Hid)%(ic_pending s Hs). exists id. split; [done |]. apply (ic_waits s Hs), mapHas_true. unfold mapHas. by rewrite Hid.
  - intros He. destruct (ic_exited s Hs He) as [Hcb _].
    assert (Hcall : ∀ k method args, ip_promises s !! k ≠ Some (mkPromise (Call method args) None)).
    { intros k method args (id & Hid)%(ic_pending s Hs). by rewrite Hcb in Hid. }
    intros k [[method args|] o] Hp Ho; cbn in Ho; subst o; [by apply Hcall in Hp |].
    apply Hdrain in Hp as (k' & method & args & Hp). by apply Hcall in Hp.
  - intros He outcomes Hlen. apply quiet_settled; [by apply ipcOk_reachable, runActions_reachable | by apply quiesce_settles].
Qed.
End ipc.

(** ** A worker with one method *)
Definition exampleActions : list (Action (Value := nat)) :=
  [Send "add" [1%nat; 2%nat]; Send "sub" [3%nat]; StartDrain; WorkerReceives; WorkerReceives; Deliver; WorkerReplies 0 (inl 3%nat)].
Definition exampleWorker : string → bool := λ m, bool_decide (m = "add").
Definition exampleClone : list nat → option string := λ _, None.
Definition exampleState : Ipc (Value := nat) := runActions exampleClone exampleWorker exampleActions newIpc.

Lemma state_reachable : ipcReachable exampleClone exampleWorker exampleState.
Proof. apply runActions_reachable, ipc_new. Qed.

(** The undefined method is rejected, the other call still waits for delivery. *)
Example after_replies :
  pr_outcome <$> ip_promises exampleState = [None; Some (Rejected "Method sub is not defined on the handler"); None] ∧
  pr_outcome <$> ip_promises (runActions exampleClone exampleWorker [Deliver] exampleState) =
    [Some (Resolved 3%nat); Some (Rejected "Method sub is not defined on the handler"); Some Drained].
Proof. by vm_compute. Qed.

Lemma own_answer_witness :
  ∃ id, ip_posted (runActions exampleClone exampleWorker [Deliver] exampleState) !! id = Some (0%nat, mkRequest [1%nat; 2%nat] id "add") ∧
    (mkRequest [1%nat; 2%nat] id "add", inl 3%nat) ∈ ip_runs (runActions exampleClone exampleWorker [Deliver] exampleState) ∧
    ∀ id' request, ip_posted (runActions exampleClone exampleWorker [Deliver] exampleState) !! id' = Some (0%nat, request) → id' = id.
Proof.
  apply (own_answer exampleClone exampleWorker); [apply runActions_reachable, state_reachable | reflexivity].
Defined.

Lemma calls_settle_witness :
  Forall (λ p, pr_outcome p ≠ None)
    (ip_promises (runActions exampleClone exampleWorker (quiesce [inl 7%nat; inr "late"; inl 9%nat] exampleState) exampleState)).
Proof.
  apply Forall_lookup_2, (calls_settle exampleClone exampleWorker exampleState state_reachable); [reflexivity | vm_compute; lia].
Defined.

(** [dispose] names a reason, but the calls that are in flight are rejected with
    the worker's exit code; only later calls get the reason. *)
Example disposed_calls_get_exit_code :
  pr_outcome <$> ip_promises (runActions exampleClone exampleWorker [Send "add" []; Dispose; Exit "1"; Send "add" []] newIpc) =
    [Some (Rejected "Worker stopped with exit code 1"); Some (Rejected "Worker is being disposed")].
Proof. by vm_compute. Qed.
