(* ===== verification/Queue.v ===== *)
(** * packages/kernel/source/services/queue/drivers/memory.ts

    The queue in memory: jobs run one after the other, in the order they were
    pushed.  [#processJobs] is an async loop: [qu_loops] holds a stage for each call of
    it that is suspended at an await, and the environment decides when an awaited
    promise is settled and how.  Timers fire at any time.  The stored resolvers are
    [Waiter]s, the rest of [drain] behind an await is a [Continuation].  Listeners of the
    events that are emitted do not throw, and nothing is called in them.  The ghost
    [qu_trace] records what happened to the jobs. *)
From S2P Require Import Prelude.

Section queue.
Context {Job : Type}.

(** Where a call of [#processJobs] waits: for the job, or for the dispatch of the event
    that it finished or failed. *)
Inductive Stage :=
| Handling (job : Job)
| DispatchingFinished (job : Job)
| DispatchingFailed (job : Job).

(** A promise of [stop] or [pause], or a [drain] that waits. *)
Inductive Waiter := WaitStopped (promise : nat) | WaitDrain (promise : nat).
Inductive Continuation := DrainWaits (promise : nat) | DrainChecks (promise : nat).

Inductive QueueEvent :=
| Pushed (job : Job) | Taken (job : Job) | Cleared
| JobDone (job : Job) | JobError (job : Job) | LoopBroken | DrainEmitted | Resolved (promise : nat) | Drained (promise : nat).

Record Queue := mkQueue {
  qu_jobs : list Job;
  qu_running : bool;
  qu_started : bool;
  qu_onProcessedCallbacks : list Waiter;
  qu_timers : list (nat * Job);
  qu_loops : list Stage;
  qu_ready : list Continuation;
  qu_trace : list QueueEvent;
}.
#[export] Instance eta_Queue : Eta Queue := λ s,
  mkQueue (qu_jobs s) (qu_running s) (qu_started s) (qu_onProcessedCallbacks s) (qu_timers s) (qu_loops s) (qu_ready s) (qu_trace s).

Definition newQueue : Queue := mkQueue [] false false [] [] [] [] [].

Definition record (e : QueueEvent) : M Queue unit := modify (λ s, s <| qu_trace ::= λ l, l ++ [e] |>).

(** ** The loop *)
Definition resolveOne (w : Waiter) : M Queue unit :=
  match w with
  | WaitStopped p => record (Resolved p)
  | WaitDrain p => modify (λ s, s <| qu_ready ::= λ l, l ++ [DrainChecks p] |>)
  end.

Definition resolveOnProcessed : M Queue unit :=
  s ← get;
  modify (λ s, s <| qu_onProcessedCallbacks := [] |>);;
  forEach (qu_onProcessedCallbacks s) resolveOne.

(** The [finally]. *)
Definition leaveLoop : M Queue unit :=
  modify (λ s, s <| qu_running := false |>);;
  resolveOnProcessed;;
  s ← get;
  match qu_jobs s with [] => record DrainEmitted | _ => mret tt end.

(** The head of the [while], up to the await of the next job. *)
Definition iterate : M Queue unit :=
  s ← get;
  match qu_jobs s with
  | job :: rest =>
      if qu_started s then
        modify (λ s, s <| qu_jobs := rest |>);;
        record (Taken job);;
        modify (λ s, s <| qu_loops ::= λ l, l ++ [Handling job] |>)
      else leaveLoop
  | [] => leaveLoop
  end.

Definition processJobs : M Queue unit :=
  s ← get;
  if qu_running s then mret tt else modify (λ s, s <| qu_running := true |>);; iterate.

Definition setStage (i : nat) (stage : Stage) : M Queue unit := modify (λ s, s <| qu_loops ::= <[i := stage]> |>).
Definition leaveStage (i : nat) : M Queue unit := modify (λ s, s <| qu_loops ::= delete i |>).

(** The job of the [i]th loop ended, by returning or by throwing. *)
Definition jobSettled (i : nat) (ok : bool) : M Queue unit :=
  s ← get;
  match qu_loops s !! i with
  | Some (Handling job) => setStage i (if ok then DispatchingFinished job else DispatchingFailed job)
  | _ => mret tt
  end.

(** The dispatch of its event ended; an error in the [catch] leaves the loop. *)
Definition dispatchSettled (i : nat) (ok : bool) : M Queue unit :=
  s ← get;
  match qu_loops s !! i with
  | Some (DispatchingFinished job) => if ok then leaveStage i;; record (JobDone job);; iterate else setStage i (DispatchingFailed job)
  | Some (DispatchingFailed job) =>
      leaveStage i;;
      if ok then record (JobError job);; iterate else record LoopBroken;; leaveLoop
  | _ => mret tt
  end.

(** ** The methods *)
Definition waitUntilProcessed (w : Waiter) : M Queue unit :=
  s ← get;
  if qu_running s then modify (λ s, s <| qu_onProcessedCallbacks ::= λ l, l ++ [w] |>) else resolveOne w.

Definition start : M Queue unit := modify (λ s, s <| qu_started := true |>);; processJobs.
Definition resume : M Queue unit := start.

Definition clear : M Queue unit := modify (λ s, s <| qu_timers := [] |>);; modify (λ s, s <| qu_jobs := [] |>);; record Cleared.

Definition stop (promise : nat) : M Queue unit :=
  modify (λ s, s <| qu_started := false |>);;
  waitUntilProcessed (WaitStopped promise);;
  clear.

Definition pause (promise : nat) : M Queue unit :=
  modify (λ s, s <| qu_started := false |>);;
  waitUntilProcessed (WaitStopped promise).

(** One pass of the [while] of [drain]. *)
Definition drain (promise : nat) : M Queue unit :=
  s ← get;
  if qu_running s || negb (match qu_jobs s with [] => true | _ => false end) then
    if qu_started s then processJobs;; waitUntilProcessed (WaitDrain promise)
    else start;; modify (λ s, s <| qu_ready ::= λ l, l ++ [DrainWaits promise] |>)
  else record (Drained promise).

Definition continueDrain (i : nat) : M Queue unit :=
  s ← get;
  match qu_ready s !! i with
  | Some (DrainWaits p) => modify (λ s, s <| qu_ready ::= delete i |>);; waitUntilProcessed (WaitDrain p)
  | Some (DrainChecks p) => modify (λ s, s <| qu_ready ::= delete i |>);; drain p
  | None => mret tt
  end.

Definition enqueue (job : Job) : M Queue unit := modify (λ s, s <| qu_jobs ::= λ l, l ++ [job] |>);; record (Pushed job).
Definition push (job : Job) : M Queue unit := enqueue job;; processJobs.
Definition bulk (jobs : list Job) : M Queue unit := forEach jobs enqueue;; processJobs.

Definition later (timer : nat) (job : Job) : M Queue unit := modify (λ s, s <| qu_timers ::= λ l, l ++ [(timer, job)] |>).
Definition timerFires (i : nat) : M Queue unit :=
  s ← get;
  match qu_timers s !! i with
  | Some (_, job) => modify (λ s, s <| qu_timers ::= delete i |>);; push job
  | None => mret tt
  end.

Definition size (s : Queue) : nat := length (qu_jobs s).
Definition isStarted (s : Queue) : bool := qu_started s.
Definition isRunning (s : Queue) : bool := qu_running s.

(** ** Runs *)
Inductive QueueStep :=
| Start | Stop (promise : nat) | Pause (promise : nat) | Clear | StartDrain (promise : nat) | ContinueDrain (i : nat)
| Push (job : Job) | Bulk (jobs : list Job) | Later (timer : nat) (job : Job) | TimerFires (i : nat)
| JobSettled (i : nat) (ok : bool) | DispatchSettled (i : nat) (ok : bool).

Definition queueStep (a : QueueStep) : M Queue unit :=
  match a with
  | Start => start
  | Stop p => stop p
  | Pause p => pause p
  | Clear => clear
  | StartDrain p => drain p
  | ContinueDrain i => continueDrain i
  | Push job => push job
  | Bulk jobs => bulk jobs
  | Later timer job => later timer job
  | TimerFires i => timerFires i
  | JobSettled i ok => jobSettled i ok
  | DispatchSettled i ok => dispatchSettled i ok
  end.

Definition runSteps (steps : list QueueStep) (s : Queue) : Queue := foldl (λ s a, run_in (queueStep a) s) s steps.

(** ** The abstract queue

    What a first-in-first-out queue allows: a job is taken from the head, and only
    when the one before it is done with; [stop] and [pause] return when none is
    handled, [drain] when moreover none is left. *)
Definition Fifo : Type := list Job * option Job.
Inductive fifoStep : Fifo → QueueEvent → Fifo → Prop :=
| fifo_pushed jobs current job : fifoStep (jobs, current) (Pushed job) (jobs ++ [job], current)
| fifo_taken jobs job : fifoStep (job :: jobs, None) (Taken job) (jobs, Some job)
| fifo_cleared jobs current : fifoStep (jobs, current) Cleared ([], current)
| fifo_done jobs job : fifoStep (jobs, Some job) (JobDone job) (jobs, None)
| fifo_error jobs job : fifoStep (jobs, Some job) (JobError job) (jobs, None)
| fifo_broken jobs job : fifoStep (jobs, Some job) (LoopBroken) (jobs, None)
| fifo_idle : fifoStep ([], None) DrainEmitted ([], None)
| fifo_stopped jobs p : fifoStep (jobs, None) (Resolved p) (jobs, None)
| fifo_drained p : fifoStep ([], None) (Drained p) ([], None).
Inductive fifoRun : list QueueEvent → Fifo → Prop :=
| fifo_new : fifoRun [] ([], None)
| fifo_next trace q e q' : fifoRun trace q → fifoStep q e q' → fifoRun (trace ++ [e]) q'.

(** ** The invariant *)
Definition jobOf (stage : Stage) : Job :=
  match stage with Handling job | DispatchingFinished job | DispatchingFailed job => job end.
Definition currentOf (loops : list Stage) : option Job := match loops with [stage] => Some (jobOf stage) | _ => None end.

Record queueOk (s : Queue) : Prop := {
  qo_one : if qu_running s then ∃ stage, qu_loops s = [stage] else qu_loops s = [];
  qo_fifo : fifoRun (qu_trace s) (qu_jobs s, currentOf (qu_loops s));
  qo_serves : qu_started s = true → qu_jobs s ≠ [] → qu_running s = true ∨ LoopBroken ∈ qu_trace s;
  qo_waits : qu_onProcessedCallbacks s ≠ [] → qu_running s = true;
}.

(** Between two jobs. *)
Record atHead (s : Queue) : Prop := {
  ah_running : qu_running s = true;
  ah_loops : qu_loops s = [];
  ah_fifo : fifoRun (qu_trace s) (qu_jobs s, None);
}.

Lemma resolveAll ws : ∀ s, fifoRun (qu_trace s) (qu_jobs s, None) →
  ∃ ready trace, forEach ws resolveOne s = (Ok tt, s <| qu_ready := ready |> <| qu_trace := trace |>) ∧
    fifoRun trace (qu_jobs s, None) ∧ (∀ e, e ∈ qu_trace s → e ∈ trace).
Proof.
  induction ws as [|w ws IH]; intros s Hs; cbn [forEach].
  - exists (qu_ready s), (qu_trace s). split; [by destruct s | done].
  - destruct w as [p|p]; cbn [resolveOne record]; erewrite M_bind_run by reflexivity.
    + destruct (IH (s <| qu_trace ::= λ l, l ++ [Resolved p] |>)) as (ready & trace & -> & Hf & Hsub).
      { cbn. eapply fifo_next; [exact Hs | constructor]. }
      exists ready, trace. split_and!; [done | done |]. intros e He. apply Hsub. cbn. rewrite elem_of_app. by left.
    + destruct (IH (s <| qu_ready ::= λ l, l ++ [DrainChecks p] |>)) as (ready & trace & -> & Hf & Hsub); [exact Hs |].
      by exists ready, trace.
Qed.

Lemma leaveLoop_ok s :
  atHead s → (qu_started s = true → qu_jobs s ≠ [] → LoopBroken ∈ qu_trace s) → ∃ s', leaveLoop s = (Ok tt, s') ∧ queueOk s'.
Proof.
  intros [Hr Hl Hf] Hserve. unfold leaveLoop, resolveOnProcessed. erewrite M_bind_run by reflexivity.
  set (s1 := s <| qu_running := false |> <| qu_onProcessedCallbacks := [] |>).
  destruct (resolveAll (qu_onProcessedCallbacks s) s1 Hf) as (ready & trace & Hrun & Hf' & Hsub).
  assert (Hres : (s0 ← get; modify (λ s, s <| qu_onProcessedCallbacks := [] |>);; forEach (qu_onProcessedCallbacks s0) resolveOne)
    (s <| qu_running := false |>) = (Ok tt, s1 <| qu_ready := ready |> <| qu_trace := trace |>)).
  { erewrite M_bind_run by reflexivity. erewrite M_bind_run by reflexivity. exact Hrun. }
  rewrite (M_bind_run _ _ _ _ _ Hres). erewrite M_bind_run by reflexivity. change (qu_jobs s1) with (qu_jobs s) in Hf'.
  change (qu_jobs (s1 <| qu_ready := ready |> <| qu_trace := trace |>)) with (qu_jobs s).
  destruct (qu_jobs s) as [|job jobs] eqn:Hj.
  - eexists. split; [reflexivity |]. split; cbn; rewrite ?Hl, ?Hj; try done. eapply fifo_next; [exact Hf' | constructor].
  - eexists. split; [reflexivity |]. split; cbn; rewrite ?Hl, ?Hj; try done. intros Hst _. right. by apply Hsub, Hserve.
Qed.

Lemma iterate_ok s : atHead s → ∃ s', iterate s = (Ok tt, s') ∧ queueOk s'.
Proof.
  intros Hs. unfold iterate. erewrite M_bind_run by reflexivity. destruct (qu_jobs s) as [|job jobs] eqn:Hj.
  { apply leaveLoop_ok; [done |]. by rewrite Hj. }
  destruct (qu_started s) eqn:Hst; [| apply leaveLoop_ok; [done | by rewrite Hst]].
  erewrite M_bind_run by reflexivity. erewrite M_bind_run by reflexivity. eexists. split; [reflexivity |].
  destruct Hs as [Hr Hl Hf]. rewrite Hj in Hf. split; cbn; rewrite ?Hr, ?Hl; cbn; try done.
  - by eexists.
  - eapply fifo_next; [exact Hf | constructor].
  - by left.
Qed.

(** What holds before [processJobs] looks whether there is something to do. *)
Record queueCore (s : Queue) : Prop := {
  qc_one : if qu_running s then ∃ stage, qu_loops s = [stage] else qu_loops s = [];
  qc_fifo : fifoRun (qu_trace s) (qu_jobs s, currentOf (qu_loops s));
  qc_waits : qu_onProcessedCallbacks s ≠ [] → qu_running s = true;
}.
Lemma queueOk_core s : queueOk s → queueCore s.
Proof. intros []. by split. Qed.

Lemma processJobs_ok s : queueCore s → ∃ s', processJobs s = (Ok tt, s') ∧ queueOk s'.
Proof.
  intros [H1 Hf Hw]. unfold processJobs. erewrite M_bind_run by reflexivity. destruct (qu_running s) eqn:Hr.
  - exists s. split; [done |]. split; rewrite ?Hr; try done. by left.
  - erewrite M_bind_run by reflexivity. apply iterate_ok. split; cbn; [done | done |]. by rewrite H1 in Hf.
Qed.

Lemma enqueue_core job s : queueCore s → ∃ s', enqueue job s = (Ok tt, s') ∧ queueCore s'.
Proof.
  intros [H1 Hf Hw]. unfold enqueue. erewrite M_bind_run by reflexivity. eexists. split; [reflexivity |]. split; cbn; try done.
  eapply fifo_next; [exact Hf | constructor].
Qed.

Lemma queuePush_ok job s : queueOk s → ∃ s', push job s = (Ok tt, s') ∧ queueOk s'.
Proof.
  intros Hs. destruct (enqueue_core job s (queueOk_core s Hs)) as (s1 & Hrun & Hs1). unfold push.
  rewrite (M_bind_run _ _ _ _ _ Hrun). by apply processJobs_ok.
Qed.

Lemma queueBulk_ok jobs s : queueOk s → ∃ s', bulk jobs s = (Ok tt, s') ∧ queueOk s'.
Proof.
  intros Hs. assert (Hall : ∃ s1, forEach jobs enqueue s = (Ok tt, s1) ∧ queueCore s1).
  { assert (Hc := queueOk_core s Hs). clear Hs. revert s Hc. induction jobs as [|job jobs IH]; intros s Hc; cbn [forEach]; [by exists s |].
    destruct (enqueue_core job s Hc) as (s1 & Hrun & Hs1). rewrite (M_bind_run _ _ _ _ _ Hrun). by apply IH. }
  destruct Hall as (s1 & Hrun & Hs1). unfold bulk. rewrite (M_bind_run _ _ _ _ _ Hrun). by apply processJobs_ok.
Qed.

Lemma queueStart_ok s : queueOk s → ∃ s', start s = (Ok tt, s') ∧ queueOk s'.
Proof. intros [H1 Hf _ Hw]. unfold start. erewrite M_bind_run by reflexivity. apply processJobs_ok. by split. Qed.

Lemma queueWait_ok w s : queueOk s → ∃ s', waitUntilProcessed w s = (Ok tt, s') ∧ queueOk s'.
Proof.
  intros [H1 Hf Hs Hw]. unfold waitUntilProcessed. erewrite M_bind_run by reflexivity. destruct (qu_running s) eqn:Hr.
  - eexists. split; [reflexivity |]. split; cbn; rewrite ?Hr; try done.
  - rewrite H1 in Hf. destruct w as [p|p]; (eexists; split; [reflexivity |]); split; cbn; rewrite ?Hr; try done.
    + rewrite H1. eapply fifo_next; [exact Hf | constructor].
    + intros Hst Hj. right. destruct (Hs Hst Hj) as [?|?]; [done |]. rewrite elem_of_app. by left.
    + by rewrite H1.
Qed.

Lemma queueHalt_ok s : queueOk s → queueOk (s <| qu_started := false |>).
Proof. intros [H1 Hf Hs Hw]. by split. Qed.

Lemma queueClear_ok s : queueOk s → ∃ s', clear s = (Ok tt, s') ∧ queueOk s'.
Proof.
  intros [H1 Hf Hs Hw]. unfold clear. erewrite M_bind_run by reflexivity. erewrite M_bind_run by reflexivity. eexists. split; [reflexivity |].
  split; cbn; try done. eapply fifo_next; [exact Hf | constructor].
Qed.

Lemma queueDrain_ok p s : queueOk s → ∃ s', drain p s = (Ok tt, s') ∧ queueOk s'.
Proof.
  intros Hs. unfold drain. erewrite M_bind_run by reflexivity. destruct (qu_running s || _) eqn:Hbusy.
  - destruct (qu_started s).
    + destruct (processJobs_ok s (queueOk_core s Hs)) as (s1 & Hrun & Hs1). rewrite (M_bind_run _ _ _ _ _ Hrun). by apply queueWait_ok.
    + destruct (queueStart_ok s Hs) as (s1 & Hrun & [H1 Hf Hse Hw]). rewrite (M_bind_run _ _ _ _ _ Hrun). eexists. split; [reflexivity |]. by split.
  - apply orb_false_iff in Hbusy as [Hr Hj]. destruct Hs as [H1 Hf Hse Hw]. rewrite Hr in H1, Hw. destruct (qu_jobs s) eqn:Hjobs; [| done].
    eexists. split; [reflexivity |]. split; cbn; rewrite ?Hr, ?Hjobs; try done. rewrite H1 in *. eapply fifo_next; [exact Hf | constructor].
Qed.

Lemma jobSettled_ok i ok s : queueOk s → ∃ s', jobSettled i ok s = (Ok tt, s') ∧ queueOk s'.
Proof.
  intros Hs. unfold jobSettled. erewrite M_bind_run by reflexivity. destruct (qu_loops s !! i) as [[job|job|job]|] eqn:Hi; try by exists s.
  destruct Hs as [H1 Hf Hse Hw]. destruct (qu_running s) eqn:Hr; [| by rewrite H1 in Hi]. destruct H1 as [stage H1]. rewrite H1 in *.
  destruct i as [|i]; [| by destruct i]. injection Hi as ->. eexists. split; [reflexivity |]. unfold set_field. split; cbn; rewrite ?Hr, ?H1; cbn; try done.
  - by eexists.
  - by destruct ok.
Qed.

Lemma leaveStage_head i s stage e :
  queueOk s → qu_loops s !! i = Some stage → fifoStep (qu_jobs s, Some (jobOf stage)) e (qu_jobs s, None) →
  atHead (s <| qu_loops ::= delete i |> <| qu_trace ::= λ l, l ++ [e] |>).
Proof.
  intros [H1 Hf Hse Hw] Hi He. destruct (qu_running s) eqn:Hr; [| by rewrite H1 in Hi]. destruct H1 as [stage' H1]. rewrite H1 in *.
  destruct i as [|i]; [| by destruct i]. injection Hi as ->. split; cbn; [done | by rewrite H1 |]. eapply fifo_next; [exact Hf | exact He].
Qed.

Lemma dispatchSettled_ok i ok s : queueOk s → ∃ s', dispatchSettled i ok s = (Ok tt, s') ∧ queueOk s'.
Proof.
  intros Hs. unfold dispatchSettled. erewrite M_bind_run by reflexivity. destruct (qu_loops s !! i) as [[job|job|job]|] eqn:Hi; try by exists s.
  - destruct ok.
    + erewrite M_bind_run by reflexivity. erewrite M_bind_run by reflexivity. apply iterate_ok.
      apply (leaveStage_head i s _ (JobDone job) Hs Hi). constructor.
    + destruct Hs as [H1 Hf Hse Hw]. destruct (qu_running s) eqn:Hr; [| by rewrite H1 in Hi]. destruct H1 as [stage H1]. rewrite H1 in *.
      destruct i as [|i]; [| by destruct i]. injection Hi as ->. eexists. split; [reflexivity |]. split; cbn; rewrite ?Hr, ?H1; cbn; try done. by eexists.
  - erewrite M_bind_run by reflexivity. destruct ok; erewrite M_bind_run by reflexivity.
    + apply iterate_ok. apply (leaveStage_head i s _ (JobError job) Hs Hi). constructor.
    + apply leaveLoop_ok; [apply (leaveStage_head i s _ LoopBroken Hs Hi); constructor |].
      intros _ _. cbn. rewrite elem_of_app. right. by left.
Qed.

Lemma queueStep_ok a s : queueOk s → ∃ s', queueStep a s = (Ok tt, s') ∧ queueOk s'.
Proof.
  intros Hs. destruct a; cbn [queueStep].
  - by apply queueStart_ok.
  - unfold stop. erewrite M_bind_run by reflexivity. destruct (queueWait_ok (WaitStopped promise) _ (queueHalt_ok s Hs)) as (s1 & Hrun & Hs1).
    rewrite (M_bind_run _ _ _ _ _ Hrun). by apply queueClear_ok.
  - unfold pause. erewrite M_bind_run by reflexivity. by apply queueWait_ok, queueHalt_ok.
  - by apply queueClear_ok.
  - by apply queueDrain_ok.
  - unfold continueDrain. erewrite M_bind_run by reflexivity. assert (Hready : queueOk (s <| qu_ready ::= delete i |>)) by (destruct Hs; by split).
    destruct (qu_ready s !! i) as [[p|p]|]; [erewrite M_bind_run by reflexivity; by apply queueWait_ok | erewrite M_bind_run by reflexivity; by apply queueDrain_ok | by exists s].
  - by apply queuePush_ok.
  - by apply queueBulk_ok.
  - eexists. split; [reflexivity |]. destruct Hs. by split.
  - unfold timerFires. erewrite M_bind_run by reflexivity. destruct (qu_timers s !! i) as [[t job]|]; [| by exists s].
    erewrite M_bind_run by reflexivity. apply queuePush_ok. destruct Hs. by split.
  - by apply jobSettled_ok.
  - by apply dispatchSettled_ok.
Qed.

Lemma newQueue_ok : queueOk newQueue.
Proof. split; try done. constructor. Qed.

Lemma runSteps_ok steps s : queueOk s → queueOk (runSteps steps s).
Proof.
  unfold runSteps. revert s. induction steps as [|a steps IH]; intros s Hs; cbn [foldl]; [done |]. apply IH.
  destruct (queueStep_ok a s Hs) as (s' & Hrun & Hs'). unfold run_in. by rewrite Hrun.
Qed.

(** ** In order *)
Fixpoint pushedOf (trace : list QueueEvent) : list Job :=
  match trace with [] => [] | Pushed job :: trace' => job :: pushedOf trace' | _ :: trace' => pushedOf trace' end.
Fixpoint takenOf (trace : list QueueEvent) : list Job :=
  match trace with [] => [] | Taken job :: trace' => job :: takenOf trace' | _ :: trace' => takenOf trace' end.

Lemma pushedOf_app t t' : pushedOf (t ++ t') = pushedOf t ++ pushedOf t'.
Proof. induction t as [|[] t IH]; cbn; rewrite ?IH; done. Qed.
Lemma takenOf_app t t' : takenOf (t ++ t') = takenOf t ++ takenOf t'.
Proof. induction t as [|[] t IH]; cbn; rewrite ?IH; done. Qed.

Lemma fifoRun_order trace q : fifoRun trace q → Cleared ∉ trace → pushedOf trace = takenOf trace ++ q.1.
Proof.
  induction 1 as [|trace q e q' Hrun IH Hstep]; intros Hno; [done |]. rewrite not_elem_of_app in Hno. destruct Hno as [Hno He].
  specialize (IH Hno). rewrite pushedOf_app, takenOf_app, IH. destruct Hstep; cbn; rewrite ?app_nil_r, <- ?app_assoc; try done.
  exfalso. apply He. by left.
Qed.

(** ** What a client sees

    The calls but [push], [bulk], [stop] and [clear] neither push nor drop a job; those
    that are taken are handled. *)
Definition handlings (loops : list Stage) : list Job := omap (λ stage, match stage with Handling job => Some job | _ => None end) loops.
Definition grows (s s' : Queue) : Prop := ∃ ev,
  qu_trace s' = qu_trace s ++ ev ∧ handlings (qu_loops s') = handlings (qu_loops s) ++ takenOf ev ∧ pushedOf ev = [] ∧ Cleared ∉ ev.
Definition growing {A} (m : M Queue A) : Prop := ∀ s, ∃ a s', m s = (Ok a, s') ∧ grows s s'.

Lemma handlings_app l l' : handlings (l ++ l') = handlings l ++ handlings l'.
Proof. apply omap_app. Qed.
Lemma handlings_cons stage l : handlings (stage :: l) = handlings [stage] ++ handlings l.
Proof. apply (handlings_app [stage]). Qed.
Lemma grows_refl s s' : qu_trace s' = qu_trace s → handlings (qu_loops s') = handlings (qu_loops s) → grows s s'.
Proof. intros Ht Hl. exists []. rewrite Ht, Hl, !app_nil_r. split_and!; [done | done | done | apply not_elem_of_nil]. Qed.
Lemma grows_trans s1 s2 s3 : grows s1 s2 → grows s2 s3 → grows s1 s3.
Proof.
  intros (e1 & Ht1 & Hl1 & Hp1 & Hc1) (e2 & Ht2 & Hl2 & Hp2 & Hc2). exists (e1 ++ e2).
  rewrite Ht2, Ht1, Hl2, Hl1, takenOf_app, pushedOf_app, Hp1, Hp2, <- !app_assoc, not_elem_of_app. done.
Qed.
Lemma growing_mret {A} (a : A) : growing (mret a : M Queue A).
Proof. intros s. exists a, s. split; [done | by apply grows_refl]. Qed.
Lemma growing_get : growing (get : M Queue Queue).
Proof. intros s. exists s, s. split; [done | by apply grows_refl]. Qed.
Lemma growing_bind {A B} (m : M Queue A) (f : A → M Queue B) : growing m → (∀ a, growing (f a)) → growing (m ≫= f).
Proof.
  intros Hm Hf s. destruct (Hm s) as (a & s1 & Hrun & H1). destruct (Hf a s1) as (b & s2 & Hrun2 & H2). exists b, s2.
  rewrite (M_bind_run _ _ _ _ _ Hrun). split; [done | by eapply grows_trans].
Qed.
Lemma growing_modify f : (∀ s, qu_trace (f s) = qu_trace s) → (∀ s, qu_loops (f s) = qu_loops s) → growing (modify f).
Proof. intros Ht Hl s. eexists _, _. split; [reflexivity |]. by apply grows_refl; rewrite ?Ht, ?Hl. Qed.
Lemma growing_record e : takenOf [e] = [] → pushedOf [e] = [] → Cleared ≠ e → growing (record e).
Proof.
  intros Ht Hp Hc s. eexists _, _. split; [reflexivity |]. exists [e]. rewrite Ht, app_nil_r, list_elem_of_singleton. done.
Qed.

Ltac growing := repeat first
  [ apply growing_mret | apply growing_get | by apply growing_modify | by apply growing_record
  | match goal with |- growing (_ ≫= _) => apply growing_bind; [| intros ?] end | match goal with |- growing (match ?x with _ => _ end) => destruct x end ].

Lemma growing_leaveLoop : growing leaveLoop.
Proof.
  assert (Hall : ∀ ws, growing (forEach ws resolveOne)).
  { induction ws as [|w ws IH]; cbn [forEach]; [growing |]. apply growing_bind; [unfold resolveOne; growing | intros _; exact IH]. }
  unfold leaveLoop, resolveOnProcessed. growing. apply Hall.
Qed.

Lemma growing_iterate : growing iterate.
Proof.
  unfold iterate. apply growing_bind; [growing | intros s]. destruct (qu_jobs s) as [|job jobs]; [apply growing_leaveLoop |].
  destruct (qu_started s); [| apply growing_leaveLoop]. intros s1. eexists _, _. split; [reflexivity |]. exists [Taken job]. cbn.
  rewrite handlings_app. split_and!; [done | done | done |]. by intros ?%list_elem_of_singleton.
Qed.

Lemma growing_processJobs : growing processJobs.
Proof. unfold processJobs. growing. apply growing_iterate. Qed.
Lemma growing_start : growing start.
Proof. unfold start. growing. apply growing_processJobs. Qed.
Lemma growing_wait w : growing (waitUntilProcessed w).
Proof. unfold waitUntilProcessed, resolveOne. growing. Qed.
Lemma growing_drain p : growing (drain p).
Proof. unfold drain. growing; [apply growing_processJobs | apply growing_wait | apply growing_start]. Qed.
Lemma growing_continueDrain i : growing (continueDrain i).
Proof. unfold continueDrain. growing; [apply growing_wait | apply growing_drain]. Qed.

Lemma growing_dispatchSettled i ok : growing (dispatchSettled i ok).
Proof.
  intros s. unfold dispatchSettled. erewrite M_bind_run by reflexivity.
  assert (Hleave : ∀ stage, qu_loops s !! i = Some stage → handlings [stage] = [] →
    grows s (s <| qu_loops ::= delete i |>) ∧ ∀ stage', handlings [stage'] = [] → grows s (s <| qu_loops ::= <[i := stage']> |>)).
  { intros stage Hi Hnone. assert (Hlt := lookup_lt_Some _ _ _ Hi).
    assert (Hsplit : handlings (qu_loops s) = handlings (take i (qu_loops s)) ++ handlings (drop (S i) (qu_loops s))).
    { rewrite <- (take_drop_middle _ _ _ Hi) at 1. by rewrite handlings_app, handlings_cons, Hnone. }
    split; [| intros stage' Hnone']; apply grows_refl; try done; rewrite Hsplit; cbn.
    - by rewrite delete_take_drop, handlings_app.
    - by rewrite insert_take_drop, handlings_app, handlings_cons, Hnone'. }
  destruct (qu_loops s !! i) as [[job|job|job]|] eqn:Hi; try by (eexists _, _; split; [reflexivity | by apply grows_refl]).
  - destruct (Hleave _ eq_refl eq_refl) as [Hdel Hset]. destruct ok; [| eexists _, _; split; [reflexivity | by apply Hset]].
    erewrite M_bind_run by reflexivity. assert (Hrest : growing (record (JobDone job);; iterate)) by (growing; apply growing_iterate).
    destruct (Hrest (s <| qu_loops ::= delete i |>)) as (a & s' & Hrun & Hg). exists a, s'. split; [exact Hrun | by eapply grows_trans].
  - destruct (Hleave _ eq_refl eq_refl) as [Hdel _]. erewrite M_bind_run by reflexivity.
    assert (Hrest : growing (if ok then record (JobError job);; iterate else record LoopBroken;; leaveLoop)).
    { destruct ok; growing; [apply growing_iterate | apply growing_leaveLoop]. }
    destruct (Hrest (s <| qu_loops ::= delete i |>)) as (a & s' & Hrun & Hg). exists a, s'. split; [exact Hrun | by eapply grows_trans].
Qed.

(** [push] grows the queue by its job. *)
Lemma push_grows job s : ∃ s', push job s = (Ok tt, s') ∧ ∃ ev,
  qu_trace s' = qu_trace s ++ ev ∧ handlings (qu_loops s') = handlings (qu_loops s) ++ takenOf ev ∧ pushedOf ev = [job] ∧ Cleared ∉ ev.
Proof.
  unfold push, enqueue. set (s1 := s <| qu_jobs ::= λ l, l ++ [job] |> <| qu_trace ::= λ l, l ++ [Pushed job] |>).
  destruct (growing_processJobs s1) as ([] & s' & Hrun & ev & Ht & Hl & Hp & Hc). exists s'. split; [exact Hrun |].
  exists (Pushed job :: ev). cbn in Ht, Hl |- *. rewrite Ht, Hl, Hp, <- app_assoc. split_and!; [done | done | done |].
  rewrite not_elem_of_cons. done.
Qed.

(** C40. Whatever is called on the queue, whichever jobs and listeners fail, and
    whenever timers fire and promises are settled: at most one job is handled at a
    time; the queue behaves as a first-in-first-out queue, which takes a job from the
    head when the one before it is done with, and lets [stop], [pause] and [drain]
    return only when none is handled; what was pushed and not cleared is taken in that
    order; a started queue with jobs left is running, unless reporting a failure failed;
    and whoever waits, waits for a running queue. *)
Theorem queue_fifo steps :
  let s := runSteps steps newQueue in
  (length (qu_loops s) ≤ 1)%nat ∧ (isRunning s = true ↔ qu_loops s ≠ []) ∧
  fifoRun (qu_trace s) (qu_jobs s, currentOf (qu_loops s)) ∧
  (Cleared ∉ qu_trace s → pushedOf (qu_trace s) = takenOf (qu_trace s) ++ qu_jobs s) ∧
  (isStarted s = true → size s ≠ 0%nat → isRunning s = true ∨ LoopBroken ∈ qu_trace s) ∧
  (qu_onProcessedCallbacks s ≠ [] → isRunning s = true).
Proof.
  intros s. destruct (runSteps_ok steps newQueue newQueue_ok : queueOk s) as [H1 Hf Hs Hw]. unfold isRunning, isStarted, size.
  split_and!; [| | done | exact (fifoRun_order _ _ Hf) | | done].
  - destruct (qu_running s); [by destruct H1 as [stage ->]; cbn; lia | by rewrite H1; cbn; lia].
  - destruct (qu_running s); [destruct H1 as [stage ->] | rewrite H1]; done.
  - intros Hst Hj. apply Hs; [done |]. intros Hnil. by rewrite Hnil in Hj.
Qed.
End queue.
