(* ===== verification/Quorum.v ===== *)
(** * packages/blockchain-utils: is-majority.ts, is-minority.ts

    The two thresholds of the protocol and the counting facts that its safety
    rests on.  Validators are the indices below [n]; [f] of them are faulty. *)
From S2P Require Import Prelude.

Definition isMajority (size roundValidators : Z) : bool := roundValidators * 2 <? size * 3.
Definition isMinority (size roundValidators : Z) : bool := roundValidators <? size * 3.

Lemma isMajority_spec size n : isMajority size n = true ↔ 2 * n < 3 * size.
Proof. unfold isMajority. rewrite Z.ltb_lt. lia. Qed.

Lemma isMinority_spec size n : isMinority size n = true ↔ n < 3 * size.
Proof. unfold isMinority. rewrite Z.ltb_lt. lia. Qed.

Lemma isMajority_zero n : 0 ≤ n → isMajority 0 n = false.
Proof. intros Hn. apply not_true_iff_false. rewrite isMajority_spec. lia. Qed.

Lemma isMinority_zero n : 0 ≤ n → isMinority 0 n = false.
Proof. intros Hn. apply not_true_iff_false. rewrite isMinority_spec. lia. Qed.

Lemma isMajority_mono size size' n :
  size ≤ size' → isMajority size n = true → isMajority size' n = true.
Proof. rewrite !isMajority_spec. lia. Qed.

Lemma isMajority_isMinority size n : 0 ≤ n → isMajority size n = true → isMinority size n = true.
Proof. rewrite isMajority_spec, isMinority_spec. lia. Qed.

(** ** Quorums

    A voter set [s] is a quorum when it is a majority by the code's test. *)
Section quorum.
Context (n : Z).

Definition quorum (s : gset Z) : Prop := isMajority (Z.of_nat (size s)) n = true.
Definition inRange (s : gset Z) : Prop := ∀ i, i ∈ s → 0 ≤ i < n.

Definition validatorRange : gset Z := list_to_set (seqZ 0 n).

Lemma validatorRange_spec i : i ∈ validatorRange ↔ 0 ≤ i < n.
Proof. unfold validatorRange. rewrite elem_of_list_to_set, elem_of_seqZ. lia. Qed.

Lemma validatorRange_size : 0 ≤ n → Z.of_nat (size validatorRange) = n.
Proof.
  intros Hn. unfold validatorRange. rewrite size_list_to_set by apply NoDup_seqZ.
  rewrite length_seqZ. lia.
Qed.

(** Two quorums overlap in more than a third of the validators. *)
Lemma quorum_overlap (s t : gset Z) :
  0 ≤ n → inRange s → inRange t → quorum s → quorum t → n < 3 * Z.of_nat (size (s ∩ t)).
Proof.
  unfold quorum. rewrite !isMajority_spec. intros Hn Hs Ht Hqs Hqt.
  assert (s ∪ t ⊆ validatorRange) as Hsub.
  { intros i Hi. apply validatorRange_spec. apply elem_of_union in Hi as [Hi|Hi]; auto. }
  apply subseteq_size in Hsub. pose proof (validatorRange_size Hn).
  assert (size (s ∪ t) + size (s ∩ t) = size s + size t)%nat.
  { rewrite size_union_alt. pose proof (size_difference_alt t s). 
    rewrite (intersection_comm_L s t). pose proof (subseteq_size (t ∩ s) t (intersection_subseteq_l t s)). lia. }
  lia.
Qed.

(** With fewer than a third faulty, two quorums share a correct validator. *)
Lemma quorum_intersection (faulty s t : gset Z) :
  0 ≤ n → inRange s → inRange t → quorum s → quorum t → 3 * Z.of_nat (size faulty) < n →
  ∃ i, i ∈ s ∧ i ∈ t ∧ i ∉ faulty.
Proof.
  intros Hn Hs Ht Hqs Hqt Hf. pose proof (quorum_overlap s t Hn Hs Ht Hqs Hqt) as Ho.
  destruct (decide ((s ∩ t) ∖ faulty = ∅)) as [Hempty|Hne].
  - assert (s ∩ t ⊆ faulty) as Hsub%subseteq_size; [| lia].
    intros i Hi. destruct (decide (i ∈ faulty)); [done |].
    assert (i ∈ (s ∩ t) ∖ faulty) as Hin by (by apply elem_of_difference).
    rewrite Hempty in Hin. by apply elem_of_empty in Hin.
  - apply set_choose_L in Hne as [i [[Hs' Ht']%elem_of_intersection Hf']%elem_of_difference]. eauto.
Qed.

(** More than a third of the validators, the code's minority, contains a
    correct one: a node that follows a minority to a higher round follows at
    least one correct node. *)
Lemma minority_correct (faulty s : gset Z) :
  3 * Z.of_nat (size faulty) < n → isMinority (Z.of_nat (size s)) n = true → ∃ i, i ∈ s ∧ i ∉ faulty.
Proof.
  rewrite isMinority_spec. intros Hf Hm. destruct (decide (s ∖ faulty = ∅)) as [Hempty|Hne].
  - assert (s ⊆ faulty) as Hsub%subseteq_size; [| lia].
    intros i Hi. destruct (decide (i ∈ faulty)); [done |].
    assert (i ∈ s ∖ faulty) as Hin by (by apply elem_of_difference).
    rewrite Hempty in Hin. by apply elem_of_empty in Hin.
  - apply set_choose_L in Hne as [i [Hi Hi']%elem_of_difference]. eauto.
Qed.
End quorum.
