(* ===== verification/ValidatorSet.v ===== *)
(** * packages/evm-consensus/source/validator-set.ts

    The validators of the current round: the consensus index of a validator is
    its position in the list that the consensus contract returns, and the two
    lookups, by index and by address, are each other's inverse. *)
From S2P Require Import Prelude JsMap.

(** [Contracts.State.ValidatorWallet]. *)
Record ValidatorWallet := mkValidatorWallet {
  vw_address : string;
  vw_blsPublicKey : string;
  vw_voteBalance : Z;
  vw_votersCount : Z;
  vw_fee : Z;
  vw_isResigned : bool;
}.
#[export] Instance ValidatorWallet_eq_dec : EqDecision ValidatorWallet.
Proof. solve_decision. Defined.

Record ValidatorSet := mkValidatorSet {
  vs_topValidators : list ValidatorWallet;
  vs_indexByAddress : JsMap string Z;
  vs_allValidators : JsMap string ValidatorWallet;
  vs_dirtyValidators : list ValidatorWallet;
}.
#[export] Instance eta_ValidatorSet : Eta ValidatorSet := λ v,
  mkValidatorSet (vs_topValidators v) (vs_indexByAddress v) (vs_allValidators v) (vs_dirtyValidators v).

Definition newValidatorSet : ValidatorSet := mkValidatorSet [] [] [] [].

(** [new Map(list.map(...))]. *)
Definition mapOfList {A K V} `{EqDecision K} (key : nat → A → K) (value : nat → A → V) (l : list A)
    : JsMap K V :=
  foldl (λ m kv, mapSet m kv.1 kv.2) [] (imap (λ i x, (key i x, value i x)) l).

(** What the consensus contract answers: [getRoundValidators] and
    [getAllValidators] of consensus-contract-service.ts. *)
Class ConsensusContract := {
  contractRoundValidators : result (list ValidatorWallet);
  contractAllValidators : result (list ValidatorWallet);
}.

Section validatorSet.
Context `{ConsensusContract}.
(** [configuration.getMilestone().roundValidators]. *)
Context (roundValidators : Z).

Definition NotEnoughRoundValidatorsError {A} : result A :=
  Throw (NamedError "NotEnoughRoundValidatorsError").

Definition buildRoundValidators : M ValidatorSet unit :=
  validators ← liftR contractRoundValidators;
  if Z.of_nat (length validators) <? roundValidators then liftR NotEnoughRoundValidatorsError
  else
    let top := take (Z.to_nat roundValidators) validators in
    modify (λ v, v <| vs_topValidators := top |>
                   <| vs_indexByAddress := mapOfList (λ _ w, vw_address w) (λ i _, Z.of_nat i) top |>).

Definition restore : M ValidatorSet unit :=
  buildRoundValidators;;
  validators ← liftR contractAllValidators;
  modify (λ v, v <| vs_allValidators := mapOfList (λ _ w, vw_address w) (λ _ w, w) validators |>).

Definition isChanged (v : ValidatorSet) (w : ValidatorWallet) : bool :=
  match mapGet (vs_allValidators v) (vw_address w) with
  | None => true
  | Some current =>
      negb (vw_voteBalance current =? vw_voteBalance w) || negb (vw_fee current =? vw_fee w) ||
      negb (Bool.eqb (vw_isResigned current) (vw_isResigned w)) ||
      negb (vw_votersCount current =? vw_votersCount w) ||
      negb (String.eqb (vw_blsPublicKey current) (vw_blsPublicKey w))
  end.

Definition calculateChangedValidators : M ValidatorSet unit :=
  modify (λ v, v <| vs_dirtyValidators := [] |>);;
  validators ← liftR contractAllValidators;
  forEach validators (λ w,
    v ← get;
    when (isChanged v w) (modify (λ v, v <| vs_dirtyValidators ::= λ l, l ++ [w] |>)));;
  modify (λ v, v <| vs_allValidators := mapOfList (λ _ w, vw_address w) (λ _ w, w) validators |>).

(** [onCommit]; [newRound] is [roundCalculator.isNewRound(unit.blockNumber + 1)]
    and [apiSync] whether the api-sync service is bound. *)
Definition onCommit (newRound apiSync : bool) : M ValidatorSet unit :=
  when newRound buildRoundValidators;;
  when apiSync calculateChangedValidators.

Definition getAllValidators (v : ValidatorSet) : list ValidatorWallet := mapValues (vs_allValidators v).
Definition getDirtyValidators (v : ValidatorSet) : list ValidatorWallet := vs_dirtyValidators v.

Definition getRoundValidators (v : ValidatorSet) : result (list ValidatorWallet) :=
  if negb (Z.of_nat (length (vs_topValidators v)) =? roundValidators) then NotEnoughRoundValidatorsError
  else Ok (take (Z.to_nat roundValidators) (vs_topValidators v)).

Definition getValidator (v : ValidatorSet) (index : Z) : result ValidatorWallet :=
  if index <? 0 then Throw (JSError "Validator not found.")
  else match vs_topValidators v !! Z.to_nat index with
       | Some w => Ok w
       | None => Throw (JSError "Validator not found.")
       end.

Definition getValidatorIndexByWalletAddress (v : ValidatorSet) (walletAddress : string) : result Z :=
  match mapGet (vs_indexByAddress v) walletAddress with
  | Some i => Ok i
  | None => Throw (JSError "Validator not found.")
  end.
End validatorSet.

(** ** Correctness *)
Definition wfValidatorSet (v : ValidatorSet) : Prop :=
  ∀ i w, vs_topValidators v !! i = Some w →
         mapGet (vs_indexByAddress v) (vw_address w) = Some (Z.of_nat i).

Lemma foldl_mapSet_get {K V} `{EqDecision K} (l : list (K * V)) (m : JsMap K V) k v :
  NoDup l.*1 → (k, v) ∈ l → mapGet (foldl (λ m kv, mapSet m kv.1 kv.2) m l) k = Some v.
Proof.
  revert m; induction l as [|[k1 v1] l IH]; intros m; [by intros _ ?%elem_of_nil |].
  rewrite fmap_cons. intros [Hk Hnd]%NoDup_cons [Heq|Hin]%elem_of_cons; [| by apply IH].
  injection Heq as -> ->. cbn [foldl fst snd].
  assert (∀ m', mapGet m' k1 = Some v1 → mapGet (foldl (λ m kv, mapSet m kv.1 kv.2) m' l) k1 = Some v1) as Hkeep.
  { clear IH Hnd m. induction l as [|[k2 v2] l IH]; intros m' Hm; [done |].
    rewrite fmap_cons, not_elem_of_cons in Hk. apply IH; [tauto |]. cbn [fst snd].
    rewrite mapGet_set_ne; [done |]. intros ->. tauto. }
  apply Hkeep, mapGet_set_eq.
Qed.

Lemma imap_fst_fmap {A B C} (f : A → B) (g : nat → A → C) (l : list A) :
  (imap (λ i x, (f x, g i x)) l).*1 = f <$> l.
Proof.
  revert g; induction l as [|x l IH]; intros g; [done |].
  rewrite imap_cons, !fmap_cons. f_equal. apply (IH (g ∘ S)).
Qed.

Lemma foldl_mapSet_none {K V} `{EqDecision K} (l : list (K * V)) (m : JsMap K V) k :
  k ∉ l.*1 → mapGet m k = None → mapGet (foldl (λ m kv, mapSet m kv.1 kv.2) m l) k = None.
Proof.
  revert m; induction l as [|[k1 v1] l IH]; intros m; [done |].
  rewrite fmap_cons, not_elem_of_cons. intros [Hne Hk] Hm. apply IH; [done |]. by rewrite mapGet_set_ne.
Qed.

Section correctness.
Context `{ConsensusContract}.

(** Nothing of an earlier round is left: the set has the contract's first [n]
    validators and the index map no other address. *)
Lemma buildRoundValidators_exact n v v' validators :
  contractRoundValidators = Ok validators → buildRoundValidators n v = (Ok tt, v') →
  vs_topValidators v' = take (Z.to_nat n) validators ∧
  ∀ address, address ∉ vw_address <$> take (Z.to_nat n) validators →
    getValidatorIndexByWalletAddress v' address = Throw (JSError "Validator not found.").
Proof.
  intros Hc. unfold buildRoundValidators, mbind, M_bind, liftR. rewrite Hc.
  destruct (Z.ltb_spec (Z.of_nat (length validators)) n); [done |]. unfold modify. intros [= <-].
  split; [done |]. intros address Ha. unfold getValidatorIndexByWalletAddress. cbn. unfold mapOfList.
  rewrite foldl_mapSet_none; [done | by rewrite imap_fst_fmap | done].
Qed.

Lemma buildRoundValidators_wf n v validators :
  contractRoundValidators = Ok validators → NoDup (vw_address <$> validators) →
  0 ≤ n ≤ Z.of_nat (length validators) →
  ∃ v', buildRoundValidators n v = (Ok tt, v') ∧ wfValidatorSet v' ∧
        getRoundValidators n v' = Ok (take (Z.to_nat n) validators).
Proof.
  intros Hc Hnd Hn. unfold buildRoundValidators, mbind, M_bind, liftR. rewrite Hc.
  destruct (Z.ltb_spec (Z.of_nat (length validators)) n); [lia |]. unfold modify.
  eexists; split; [reflexivity |]. split.
  - intros i w Hi. cbn in *. unfold mapOfList. apply foldl_mapSet_get.
    + rewrite imap_fst_fmap. rewrite <- (take_drop (Z.to_nat n) validators), fmap_app in Hnd.
      by apply NoDup_app in Hnd as [Hnd _].
    + apply list_elem_of_lookup. exists i. by rewrite list_lookup_imap, Hi.
  - unfold getRoundValidators. cbn. rewrite length_take, Nat.min_l, Z2Nat.id, Z.eqb_refl by lia.
    cbn. by rewrite take_take, Nat.min_id.
Qed.

(** Rebuilding the round's validators from a contract answer that holds
    enough of them with distinct addresses yields a set in which the consensus
    index of the validator at an index is that index again, and every index
    below the number of round validators is filled. *)
Theorem validator_index_roundtrip n v validators :
  contractRoundValidators = Ok validators → NoDup (vw_address <$> validators) →
  0 ≤ n ≤ Z.of_nat (length validators) →
  ∃ v', buildRoundValidators n v = (Ok tt, v') ∧
    ∀ i, 0 ≤ i < n → ∃ w, getValidator v' i = Ok w ∧
                          getValidatorIndexByWalletAddress v' (vw_address w) = Ok i.
Proof.
  intros Hc Hnd Hn. destruct (buildRoundValidators_wf n v validators) as (v' & Hb & Hwf & Hr); try done.
  exists v'. split; [done |]. intros i Hi. unfold getRoundValidators in Hr.
  destruct (Z.eqb_spec (Z.of_nat (length (vs_topValidators v'))) n) as [Hlen|]; [| done].
  destruct (lookup_lt_is_Some_2 (vs_topValidators v') (Z.to_nat i)) as [w Hw]; [lia |].
  exists w. unfold getValidator, getValidatorIndexByWalletAddress.
  destruct (Z.ltb_spec i 0); [lia |]. rewrite Hw, (Hwf _ _ Hw), Z2Nat.id by lia. done.
Qed.
End correctness.
