(* ===== verification/Election.v ===== *)
(** * contracts/src/consensus/ConsensusV1.sol: the contract that elects validators

    Validators register and resign, accounts vote for them with their balance,
    and once per round the top validators by vote balance become the round's
    validators in a shuffled order.  The services of packages/evm-consensus read the
    contract; ContractService models those.  One definition per function.

    An address is its number, [address(0)] is 0, a mapping is a [gmap] whose absent
    keys have the default value, and amounts are integers with Solidity's overflow
    checks.  A call that reverts leaves the state as it was ([call]).  The refund that
    [resignValidator] sends may run code of the receiver: its outcome is an argument,
    and calls it makes back are calls of their own, since the state is written
    before.  Events, ownership transfer and upgrades are left out. *)
From S2P Require Import Prelude Bytes.
#[local] Open Scope Z_scope.

(** ** State *)
Record ValidatorData := mkValidatorData {
  vd_voteBalance : Z;
  vd_fee : Z;
  vd_votersCount : Z;
  vd_isResigned : bool;
  vd_blsPublicKey : list byte;
}.
#[export] Instance eta_ValidatorData : Eta ValidatorData := λ s,
  mkValidatorData (vd_voteBalance s) (vd_fee s) (vd_votersCount s) (vd_isResigned s) (vd_blsPublicKey s).
Definition noData : ValidatorData := mkValidatorData 0 0 0 false [].

Record Vote := mkVote { vo_validator : Z; vo_balance : Z; vo_prev : Z; vo_next : Z }.
#[export] Instance eta_Vote : Eta Vote := λ s, mkVote (vo_validator s) (vo_balance s) (vo_prev s) (vo_next s).
Definition noVote : Vote := mkVote 0 0 0 0.

Record ConsensusV1 := mkConsensusV1 {
  c_owner : Z;
  c_validatorsData : gmap Z ValidatorData;
  c_hasValidator : gset Z;
  c_blsPublicKeys : list (list byte);
  c_validators : list Z;
  c_activeValidators : list Z;
  c_activeValidatorIndex : gmap Z Z;
  c_resignedValidatorsCount : Z;
  c_voters : gmap Z Vote;
  c_votersHead : Z;
  c_votersTail : Z;
  c_votersCount : Z;
  c_roundValidatorsMap : gmap Z Z;
  c_roundValidators : list Z;
  c_roundValidatorsHead : Z;
  c_roundValidatorsCount : Z;
  c_minValidators : Z;
  c_fee : Z;
  c_rounds : list (list (Z * Z));
}.
#[export] Instance eta_ConsensusV1 : Eta ConsensusV1 := λ s,
  mkConsensusV1 (c_owner s) (c_validatorsData s) (c_hasValidator s) (c_blsPublicKeys s) (c_validators s)
    (c_activeValidators s) (c_activeValidatorIndex s) (c_resignedValidatorsCount s) (c_voters s) (c_votersHead s)
    (c_votersTail s) (c_votersCount s) (c_roundValidatorsMap s) (c_roundValidators s) (c_roundValidatorsHead s)
    (c_roundValidatorsCount s) (c_minValidators s) (c_fee s) (c_rounds s).

Definition initialize (owner registrationFee : Z) : ConsensusV1 :=
  mkConsensusV1 owner ∅ ∅ [] [] [] ∅ 0 ∅ 0 0 0 ∅ [] 0 0 1 registrationFee [].

Definition dataOf (s : ConsensusV1) (addr : Z) : ValidatorData := default noData (c_validatorsData s !! addr).
Definition voteOf (s : ConsensusV1) (addr : Z) : Vote := default noVote (c_voters s !! addr).
Definition roundNext (s : ConsensusV1) (addr : Z) : Z := default 0 (c_roundValidatorsMap s !! addr).
Definition activeIndex (s : ConsensusV1) (addr : Z) : Z := default 0 (c_activeValidatorIndex s !! addr).
Definition isValidatorRegistered (s : ConsensusV1) (addr : Z) : bool := bool_decide (addr ∈ c_hasValidator s).

Abbreviation C := (M ConsensusV1).
Definition revert {A} (error : string) : C A := throw (NamedError error).
Definition require (b : bool) (error : string) : C unit := if b then mret tt else revert error.

(** Checked arithmetic; a number of voters has 64 bits, the other sums 256. *)
Definition addUint (bits a b : Z) : C Z := if a + b <? 2 ^ bits then mret (a + b) else revert "Panic".
Definition addU (a b : Z) : C Z := addUint 256 a b.
Definition subU (a b : Z) : C Z := if b <=? a then mret (a - b) else revert "Panic".

Definition setData (addr : Z) (data : ValidatorData) : C unit := modify (λ s, s <| c_validatorsData ::= <[addr := data]> |>).
Definition setVote (addr : Z) (v : Vote) : C unit := modify (λ s, s <| c_voters ::= <[addr := v]> |>).

(** The environment of a call. *)
Class EvmCall := {
  msg_sender : Z;
  msg_value : Z;
  balanceOf : Z → Z;
  prevrandao : list byte;
  refundSucceeds : bool;
}.

(** [keccak256] of bytes, [BLSPoP.verify], and the encoding that is hashed to shuffle. *)
Class ContractCrypto := {
  keccak : list byte → list byte;
  verifyPoP : Z → list byte → list byte → bool;
  encodePacked : list byte → Z → list byte;
}.

Section contract.
Context `{EvmCall} `{ContractCrypto}.

Definition onlyOwner : C unit := s ← get; require (msg_sender =? c_owner s) "OwnableUnauthorizedAccount".

Definition setFee (registrationFee : Z) : C unit :=
  onlyOwner;;
  modify (λ s, s <| c_fee := registrationFee |>).

(** ** Active validators *)
Definition isActiveValidator (s : ConsensusV1) (addr : Z) : bool :=
  let index := activeIndex s addr in
  if Z.of_nat (length (c_activeValidators s)) <=? index then false
  else bool_decide (c_activeValidators s !! Z.to_nat index = Some addr).

Definition canBecomeActiveValidator (s : ConsensusV1) (addr : Z) : bool :=
  negb (vd_isResigned (dataOf s addr)) && negb (bool_decide (vd_blsPublicKey (dataOf s addr) = [])).

Definition addActiveValidator (addr : Z) : C unit := modify (λ s,
  s <| c_activeValidators ::= λ l, l ++ [addr] |>
    <| c_activeValidatorIndex ::= <[addr := Z.of_nat (length (c_activeValidators s))]> |>).

(** The last address takes the place of the removed one. *)
Definition removeActiveValidator (addr : Z) : C unit :=
  s ← get;
  if negb (isActiveValidator s addr) then mret tt
  else
    let index := activeIndex s addr in
    let lastIndex := Z.of_nat (length (c_activeValidators s)) - 1 in
    when (negb (index =? lastIndex))
      (let lastValidator := default 0 (c_activeValidators s !! Z.to_nat lastIndex) in
       modify (λ s, s <| c_activeValidators ::= <[Z.to_nat index := lastValidator]> |>
                      <| c_activeValidatorIndex ::= <[lastValidator := index]> |>));;
    modify (λ s, s <| c_activeValidators ::= λ l, take (length l - 1) l |>
                   <| c_activeValidatorIndex ::= delete addr |>).

(** ** Validators *)
Definition addValidator (addr : Z) (isResigned : bool) : C unit :=
  onlyOwner;;
  s ← get;
  require (bool_decide (c_rounds s = [])) "ImportIsNotAllowed";;
  require (negb (isValidatorRegistered s addr)) "ValidatorAlreadyRegistered";;
  modify (λ s, s <| c_hasValidator ::= λ h, {[addr]} ∪ h |>);;
  setData addr (mkValidatorData 0 0 0 isResigned []);;
  modify (λ s, s <| c_validators ::= λ l, l ++ [addr] |>);;
  when isResigned (n ← addU (c_resignedValidatorsCount s) 1; modify (λ s, s <| c_resignedValidatorsCount := n |>)).

Definition verifyAndRegisterBlsPublicKey (blsPublicKey : list byte) : C unit :=
  s ← get;
  require (negb (bool_decide (keccak blsPublicKey ∈ c_blsPublicKeys s))) "BlsKeyAlreadyRegistered";;
  require (length blsPublicKey =? 48)%nat "BlsKeyIsInvalid";;
  modify (λ s, s <| c_blsPublicKeys ::= λ k, keccak blsPublicKey :: k |>).

Definition registerValidator (blsPublicKey proofOfPossession : list byte) : C unit :=
  s ← get;
  require (msg_value =? c_fee s) "InvalidFee";;
  require (negb (isValidatorRegistered s msg_sender)) "ValidatorAlreadyRegistered";;
  require (verifyPoP msg_sender blsPublicKey proofOfPossession) "InvalidProofOfPossession";;
  verifyAndRegisterBlsPublicKey blsPublicKey;;
  modify (λ s, s <| c_hasValidator ::= λ h, {[msg_sender]} ∪ h |>);;
  setData msg_sender (mkValidatorData 0 msg_value 0 false blsPublicKey);;
  modify (λ s, s <| c_validators ::= λ l, l ++ [msg_sender] |>);;
  addActiveValidator msg_sender.

Definition updateValidator (blsPublicKey proofOfPossession : list byte) : C unit :=
  s ← get;
  require (isValidatorRegistered s msg_sender) "ValidatorNotRegistered";;
  require (verifyPoP msg_sender blsPublicKey proofOfPossession) "InvalidProofOfPossession";;
  verifyAndRegisterBlsPublicKey blsPublicKey;;
  setData msg_sender ((dataOf s msg_sender) <| vd_blsPublicKey := blsPublicKey |>);;
  s ← get;
  when (canBecomeActiveValidator s msg_sender && negb (isActiveValidator s msg_sender)) (addActiveValidator msg_sender).

Definition resignValidator : C unit :=
  s ← get;
  require (isValidatorRegistered s msg_sender) "CallerIsNotValidator";;
  require (negb (vd_isResigned (dataOf s msg_sender))) "ValidatorAlreadyResigned";;
  require (negb (Z.of_nat (length (c_activeValidators s)) <=? c_minValidators s)) "BellowMinValidators";;
  setData msg_sender ((dataOf s msg_sender) <| vd_isResigned := true |>);;
  n ← addU (c_resignedValidatorsCount s) 1;
  modify (λ s, s <| c_resignedValidatorsCount := n |>);;
  removeActiveValidator msg_sender;;
  when (0 <? vd_fee (dataOf s msg_sender)) (require refundSucceeds "RefundFailed").

(** ** Votes *)

(** A new vote goes to the end of the list of voters. *)
Definition linkVoter (voter : Z) : C unit :=
  s ← get;
  if c_votersHead s =? 0 then modify (λ s, s <| c_votersHead := voter |> <| c_votersTail := voter |>)
  else
    setVote (c_votersTail s) ((voteOf s (c_votersTail s)) <| vo_next := voter |>);;
    s ← get;
    setVote voter ((voteOf s voter) <| vo_prev := c_votersTail s |>);;
    modify (λ s, s <| c_votersTail := voter |>).

Definition creditValidator (validator amount : Z) : C unit :=
  s ← get;
  balance ← addU (vd_voteBalance (dataOf s validator)) amount;
  setData validator ((dataOf s validator) <| vd_voteBalance := balance |>);;
  s ← get;
  voters ← addUint 64 (vd_votersCount (dataOf s validator)) 1;
  setData validator ((dataOf s validator) <| vd_votersCount := voters |>).

Definition appendVoter (voter validator : Z) : C unit :=
  setVote voter (mkVote validator (balanceOf voter) 0 0);;
  linkVoter voter;;
  s ← get;
  count ← addU (c_votersCount s) 1;
  modify (λ s, s <| c_votersCount := count |>);;
  creditValidator validator (balanceOf voter).

Definition addVote (voter validator : Z) : C unit :=
  s ← get;
  require (bool_decide (c_rounds s = [])) "ImportIsNotAllowed";;
  require (isValidatorRegistered s validator) "ValidatorNotRegistered";;
  require (vo_validator (voteOf s voter) =? 0) "AlreadyVoted";;
  appendVoter voter validator.

Definition addVotes (voters validators : list Z) : C unit :=
  onlyOwner;;
  require (length voters =? length validators)%nat "input length mismatch";;
  forEach (zip voters validators) (λ '(voter, validator), addVote voter validator).

(** The voter is taken out of the list. *)
Definition unlinkVoter (addr : Z) (voter : Vote) : C unit :=
  s ← get;
  if c_votersHead s =? c_votersTail s then modify (λ s, s <| c_votersHead := 0 |> <| c_votersTail := 0 |>)
  else if c_votersTail s =? addr then
    setVote (vo_prev voter) ((voteOf s (vo_prev voter)) <| vo_next := 0 |>);;
    modify (λ s, s <| c_votersTail := vo_prev voter |>)
  else if c_votersHead s =? addr then
    setVote (vo_next voter) ((voteOf s (vo_next voter)) <| vo_prev := 0 |>);;
    modify (λ s, s <| c_votersHead := vo_next voter |>)
  else
    setVote (vo_prev voter) ((voteOf s (vo_prev voter)) <| vo_next := vo_next voter |>);;
    s ← get;
    setVote (vo_next voter) ((voteOf s (vo_next voter)) <| vo_prev := vo_prev voter |>).

Definition debitValidator (validator amount : Z) : C unit :=
  s ← get;
  balance ← subU (vd_voteBalance (dataOf s validator)) amount;
  setData validator ((dataOf s validator) <| vd_voteBalance := balance |>);;
  s ← get;
  voters ← subU (vd_votersCount (dataOf s validator)) 1;
  setData validator ((dataOf s validator) <| vd_votersCount := voters |>).

(** [_unvote]. *)
Definition doUnvote : C unit :=
  s ← get;
  let voter := voteOf s msg_sender in
  require (negb (vo_validator voter =? 0)) "MissingVote";;
  unlinkVoter msg_sender voter;;
  debitValidator (vo_validator voter) (vo_balance voter);;
  modify (λ s, s <| c_voters ::= delete msg_sender |>);;
  s ← get;
  total ← subU (c_votersCount s) 1;
  modify (λ s, s <| c_votersCount := total |>).

Definition unvote : C unit := doUnvote.

Definition vote (addr : Z) : C unit :=
  s ← get;
  require (isValidatorRegistered s addr) "ValidatorNotRegistered";;
  require (negb (vd_isResigned (dataOf s addr))) "VoteResignedValidator";;
  require (negb (bool_decide (vd_blsPublicKey (dataOf s addr) = []))) "VoteValidatorWithoutBlsPublicKey";;
  require (negb (vo_validator (voteOf s msg_sender) =? addr)) "VoteSameValidator";;
  when (negb (vo_validator (voteOf s msg_sender) =? 0)) doUnvote;;
  appendVoter msg_sender addr.

Definition updateVoter (addr : Z) : C unit :=
  s ← get;
  let voter := voteOf s addr in
  if vo_validator voter =? 0 then mret tt
  else
    let data := dataOf s (vo_validator voter) in
    balance ← (if vo_balance voter <? balanceOf addr
               then addU (vd_voteBalance data) (balanceOf addr - vo_balance voter)
               else subU (vd_voteBalance data) (vo_balance voter - balanceOf addr));
    setData (vo_validator voter) (data <| vd_voteBalance := balance |>);;
    setVote addr (voter <| vo_balance := balanceOf addr |>).

Definition updateVoters (voters : list Z) : C unit := onlyOwner;; forEach voters updateVoter.

(** ** Rounds *)

(** [_isGreater]: more votes, or as many and the smaller address. *)
Definition isGreater (s : ConsensusV1) (a b : Z) : bool :=
  if vd_voteBalance (dataOf s a) =? vd_voteBalance (dataOf s b) then a <? b
  else vd_voteBalance (dataOf s b) <? vd_voteBalance (dataOf s a).

Definition setRoundNext (addr next : Z) : C unit := modify (λ s, s <| c_roundValidatorsMap ::= <[addr := next]> |>).
Definition countOne : C unit := modify (λ s, s <| c_roundValidatorsCount ::= λ n, n + 1 |>).

Definition insertHead (addr : Z) : C unit :=
  s ← get;
  setRoundNext addr (c_roundValidatorsHead s);;
  modify (λ s, s <| c_roundValidatorsHead := addr |>);;
  countOne.

Definition insertAfter (previous addr : Z) : C unit :=
  s ← get;
  setRoundNext addr (roundNext s previous);;
  setRoundNext previous addr;;
  countOne.

(** The [while (true)], which walks from the lowest validator up. *)
Fixpoint insertLoop (fuel : nat) (previous current addr : Z) : C unit :=
  s ← get;
  if current =? 0 then insertAfter previous addr
  else if isGreater s current addr then insertAfter previous addr
  else
    match fuel with
    | O => throw OutOfFuel
    | S fuel' => insertLoop fuel' current (roundNext s current) addr
    end.

(** The lowest one is dropped. *)
Definition dropHead : C unit :=
  s ← get;
  let next := roundNext s (c_roundValidatorsHead s) in
  modify (λ s, s <| c_roundValidatorsMap ::= delete (c_roundValidatorsHead s) |>);;
  modify (λ s, s <| c_roundValidatorsHead := next |> <| c_roundValidatorsCount ::= λ n, n - 1 |>).

Definition insertValidator (addr top : Z) : C unit :=
  s ← get;
  (if isGreater s (c_roundValidatorsHead s) addr then insertHead addr
   else insertLoop (Z.to_nat (c_roundValidatorsCount s)) (c_roundValidatorsHead s) (roundNext s (c_roundValidatorsHead s)) addr);;
  s ← get;
  when (top <? c_roundValidatorsCount s) dropHead.

Fixpoint deleteLoop (fuel : nat) (next : Z) : C unit :=
  if next =? 0 then mret tt
  else
    match fuel with
    | O => throw OutOfFuel
    | S fuel' =>
        s ← get;
        modify (λ s, s <| c_roundValidatorsMap ::= delete next |>);;
        deleteLoop fuel' (roundNext s next)
    end.
Definition deleteRoundValidators : C unit :=
  s ← get;
  deleteLoop (Z.to_nat (c_roundValidatorsCount s)) (c_roundValidatorsHead s);;
  modify (λ s, s <| c_roundValidatorsCount := 0 |>).

(** The body of the loop over the active validators. *)
Definition considerValidator (n addr : Z) : C unit :=
  s ← get;
  if negb (canBecomeActiveValidator s addr) then mret tt
  else if c_roundValidatorsHead s =? 0 then
    modify (λ s, s <| c_roundValidatorsHead := addr |> <| c_roundValidatorsCount := 1 |>)
  else if c_roundValidatorsCount s <? n then insertValidator addr n
  else if isGreater s addr (c_roundValidatorsHead s) then insertValidator addr n
  else mret tt.

(** The sorted list, from the head. *)
Fixpoint materialize (s : ConsensusV1) (n : nat) (next : Z) : list Z :=
  match n with
  | O => []
  | S n' => next :: materialize s n' (roundNext s next)
  end.

Definition swap (l : list Z) (i j : nat) : list Z :=
  let temp := default 0 (l !! i) in
  <[j := temp]> (<[i := default 0 (l !! j)]> l).
Fixpoint shuffleLoop (i : nat) (l : list Z) : list Z :=
  match i with
  | O => l
  | S i' => shuffleLoop i' (swap l i (Z.to_nat (be_decode (keccak (encodePacked prevrandao (Z.of_nat i))) mod (Z.of_nat i + 1))))
  end.
Definition shuffleMem (l : list Z) : list Z := shuffleLoop (length l - 1) l.

Definition calculateRoundValidators (n : Z) : C unit :=
  onlyOwner;;
  require (negb (n =? 0)) "InvalidParameters";;
  modify (λ s, s <| c_minValidators := n |>);;
  deleteRoundValidators;;
  modify (λ s, s <| c_roundValidatorsHead := 0 |>);;
  s ← get;
  forEach (c_activeValidators s) (considerValidator n);;
  s ← get;
  require (negb (c_roundValidatorsCount s <? n)) "InsufficientActiveValidators";;
  let shuffled := shuffleMem (materialize s (Z.to_nat n) (c_roundValidatorsHead s)) in
  modify (λ s, s <| c_roundValidators := shuffled |>
                 <| c_rounds ::= λ l, l ++ [(λ addr, (addr, vd_voteBalance (dataOf s addr))) <$> shuffled] |>).

(** ** Views *)
Definition getRoundValidators (s : ConsensusV1) : list (Z * ValidatorData) := (λ addr, (addr, dataOf s addr)) <$> c_roundValidators s.
Definition getAllValidators (s : ConsensusV1) : list (Z * ValidatorData) := (λ addr, (addr, dataOf s addr)) <$> c_validators s.
Definition getVotesCount (s : ConsensusV1) : Z := c_votersCount s.

(** The result array has room for [_min(count, _votersCount)] entries. *)
Fixpoint votesLoop (fuel : nat) (s : ConsensusV1) (next left : Z) : result (list (Z * Z)) :=
  if (next =? 0) || (left <=? 0) then Ok []
  else
    match fuel with
    | O => Throw (NamedError "Panic")
    | S fuel' =>
        rest ← votesLoop fuel' s (vo_next (voteOf s next)) (left - 1);
        Ok ((next, vo_validator (voteOf s next)) :: rest)
    end.
Definition getVotes (addr count : Z) (s : ConsensusV1) : result (list (Z * Z)) :=
  votesLoop (Z.to_nat (Z.min count (c_votersCount s))) s
    (if addr =? 0 then c_votersHead s else vo_next (voteOf s addr)) count.

Definition getRoundsCount (s : ConsensusV1) : Z := Z.of_nat (length (c_rounds s)).
Definition getRounds (offset count : Z) (s : ConsensusV1) : list (Z * list (Z * Z)) :=
  let total := if getRoundsCount s <=? offset then 0
               else if getRoundsCount s <? offset + count then getRoundsCount s - offset else count in
  imap (λ i validators, (offset + Z.of_nat i + 1, validators)) (take (Z.to_nat total) (drop (Z.to_nat offset) (c_rounds s))).
End contract.

(** A transaction: a call that reverts changes nothing. *)
Definition call {A} (m : C A) (s : ConsensusV1) : ConsensusV1 := match m s with (Ok _, s') => s' | (Throw _, _) => s end.
