(* ===== verification/ElectionVotes.v ===== *)
(** * The votes of the election contract

    The voters form a doubly linked list in a mapping; every validator's vote
    balance and number of voters are running sums over it.  [votersOk] says that the
    pointers describe a list and that the sums are exact; every operation on votes
    keeps it, and removing a vote never underflows. *)
From S2P Require Import Prelude Bytes Election.
#[local] Open Scope Z_scope.

(** ** Pointers into a list of addresses *)
Definition link (l : list Z) (i : nat) : Z := default 0 (l !! i).
Definition prevLink (l : list Z) (i : nat) : Z := match i with O => 0 | S j => link l j end.

Lemma link_app l x i : (i < length l)%nat → link (l ++ [x]) i = link l i.
Proof. intros Hi. unfold link. by rewrite lookup_app_l. Qed.
Lemma link_last l x : link (l ++ [x]) (length l) = x.
Proof. unfold link. by rewrite list_lookup_middle. Qed.
Lemma link_beyond l i : (length l ≤ i)%nat → link l i = 0.
Proof. intros Hi. unfold link. by rewrite lookup_ge_None_2. Qed.
Lemma prevLink_app l x i : (i ≤ length l)%nat → prevLink (l ++ [x]) i = prevLink l i.
Proof. intros Hi. destruct i as [|j]; [done |]. apply link_app. lia. Qed.
Lemma link_elem l i a : l !! i = Some a → link l i = a.
Proof. unfold link. by intros ->. Qed.
Lemma link_in l i : (i < length l)%nat → link l i ∈ l.
Proof. intros [a Ha]%lookup_lt_is_Some. rewrite (link_elem _ _ _ Ha). by apply list_elem_of_lookup_2 in Ha. Qed.

Lemma link_delete l i j : link (delete i l) j = if decide (j < i)%nat then link l j else link l (S j).
Proof. unfold link. case_decide; [by rewrite list_lookup_delete_lt | by rewrite list_lookup_delete_ge by lia]. Qed.
Lemma prevLink_delete l i j :
  (i < length l)%nat → prevLink (delete i l) j = if decide (j ≤ i)%nat then prevLink l j else prevLink l (S j).
Proof.
  intros Hi. destruct j as [|j]; cbn; [by rewrite decide_True by lia |]. rewrite link_delete.
  repeat case_decide; try lia; done.
Qed.
Lemma lookup_delete_Some (l : list Z) i j a :
  delete i l !! j = Some a → ∃ k, l !! k = Some a ∧ k ≠ i ∧ j = (if decide (k < i)%nat then k else pred k).
Proof.
  intros Hj. destruct (decide (j < i)%nat) as [Hlt|Hge].
  - rewrite list_lookup_delete_lt in Hj by done. exists j. rewrite decide_True by done. split_and!; [done | lia | done].
  - rewrite list_lookup_delete_ge in Hj by lia. exists (S j). rewrite decide_False by lia. split_and!; [done | lia | done].
Qed.

(** ** The sums *)
Definition voteIn (voters : gmap Z Vote) (a : Z) : Vote := default noVote (voters !! a).
Definition balanceFor (voters : gmap Z Vote) (w a : Z) : Z :=
  if vo_validator (voteIn voters a) =? w then vo_balance (voteIn voters a) else 0.
Definition countFor (voters : gmap Z Vote) (w a : Z) : Z := if vo_validator (voteIn voters a) =? w then 1 else 0.
Fixpoint sumOf (f : Z → Z) (l : list Z) : Z := match l with [] => 0 | a :: l' => f a + sumOf f l' end.

Lemma sumOf_app f l l' : sumOf f (l ++ l') = sumOf f l + sumOf f l'.
Proof. induction l as [|a l IH]; cbn; [done |]. rewrite IH. lia. Qed.
Lemma sumOf_ext f g l : (∀ a, a ∈ l → f a = g a) → sumOf f l = sumOf g l.
Proof. induction l as [|a l IH]; intros Heq; cbn; [done |]. rewrite (Heq a), IH; [done | intros; apply Heq; by right | by left]. Qed.
Lemma sumOf_delete f l i a : l !! i = Some a → sumOf f l = f a + sumOf f (delete i l).
Proof.
  revert i. induction l as [|x l IH]; intros [|i] Hi; [done | done | by injection Hi as -> |].
  change (delete (S i) (x :: l)) with (x :: delete i l). cbn [sumOf]. rewrite (IH i Hi). lia.
Qed.
Lemma sumOf_nonneg f l : (∀ a, a ∈ l → 0 ≤ f a) → 0 ≤ sumOf f l.
Proof.
  induction l as [|a l IH]; intros Hf; cbn; [lia |].
  assert (0 ≤ f a) by (apply Hf; by left). assert (0 ≤ sumOf f l) by (apply IH; intros; apply Hf; by right). lia.
Qed.

(** ** The invariant *)
Record votersOk (s : ConsensusV1) (l : list Z) : Prop := {
  vt_nodup : NoDup l;
  vt_zero : 0 ∉ l;
  vt_head : c_votersHead s = link l 0;
  vt_tail : c_votersTail s = prevLink l (length l);
  vt_count : c_votersCount s = Z.of_nat (length l);
  vt_entry : ∀ i a, l !! i = Some a → ∃ v, c_voters s !! a = Some v ∧ vo_prev v = prevLink l i ∧ vo_next v = link l (S i) ∧
    vo_validator v ≠ 0 ∧ isValidatorRegistered s (vo_validator v) = true ∧ 0 ≤ vo_balance v;
  vt_none : ∀ a, a ∉ l → c_voters s !! a = None;
  vt_balance : ∀ w, vd_voteBalance (dataOf s w) = sumOf (balanceFor (c_voters s) w) l;
  vt_votersCount : ∀ w, vd_votersCount (dataOf s w) = sumOf (countFor (c_voters s) w) l;
}.

(** What an operation on votes leaves alone. *)
Record sameValidators (s s' : ConsensusV1) : Prop := {
  sv_owner : c_owner s' = c_owner s;
  sv_has : c_hasValidator s' = c_hasValidator s;
  sv_keys : c_blsPublicKeys s' = c_blsPublicKeys s;
  sv_validators : c_validators s' = c_validators s;
  sv_active : c_activeValidators s' = c_activeValidators s;
  sv_index : c_activeValidatorIndex s' = c_activeValidatorIndex s;
  sv_resigned : c_resignedValidatorsCount s' = c_resignedValidatorsCount s;
  sv_map : c_roundValidatorsMap s' = c_roundValidatorsMap s;
  sv_roundValidators : c_roundValidators s' = c_roundValidators s;
  sv_roundHead : c_roundValidatorsHead s' = c_roundValidatorsHead s;
  sv_roundCount : c_roundValidatorsCount s' = c_roundValidatorsCount s;
  sv_rounds : c_rounds s' = c_rounds s;
  sv_data : ∀ w, vd_isResigned (dataOf s' w) = vd_isResigned (dataOf s w) ∧ vd_blsPublicKey (dataOf s' w) = vd_blsPublicKey (dataOf s w);
}.

#[export] Instance sameValidators_preorder : PreOrder sameValidators.
Proof.
  split; [by intros s; split |]. intros s1 s2 s3 [] []. split; try congruence.
  intros w. destruct (sv_data0 w), (sv_data1 w). split; congruence.
Qed.

(** A voter with a validator is in the list. *)
Lemma voter_listed s l a : votersOk s l → vo_validator (voteOf s a) ≠ 0 → ∃ i, l !! i = Some a.
Proof.
  intros Hs Ha. destruct (decide (a ∈ l)) as [Hin|Hout]; [by apply list_elem_of_lookup_1 in Hin |].
  unfold voteOf in Ha. by rewrite (vt_none _ _ Hs a Hout) in Ha.
Qed.
Lemma listed_voter s l i a : votersOk s l → l !! i = Some a → ∃ v, voteOf s a = v ∧ c_voters s !! a = Some v ∧
  vo_prev v = prevLink l i ∧ vo_next v = link l (S i) ∧ vo_validator v ≠ 0 ∧ isValidatorRegistered s (vo_validator v) = true ∧ 0 ≤ vo_balance v.
Proof.
  intros Hs Hi. destruct (vt_entry _ _ Hs i a Hi) as (v & Hv & ?). exists v. split; [| done]. unfold voteOf. by rewrite Hv.
Qed.

(** ** Changing one validator's sums *)
Lemma dataOf_set s addr data w : dataOf (s <| c_validatorsData ::= <[addr := data]> |>) w = if decide (addr = w) then data else dataOf s w.
Proof. unfold dataOf. cbn. rewrite lookup_insert. by case_decide. Qed.

(** ** Steps *)
Lemma addUint_inv bits a b s x s' : addUint bits a b s = (Ok x, s') → x = a + b ∧ s' = s.
Proof. unfold addUint. destruct (_ <? _); [by intros [= <- <-] | done]. Qed.
Lemma subU_inv a b s x s' : subU a b s = (Ok x, s') → b ≤ a ∧ x = a - b ∧ s' = s.
Proof. unfold subU. destruct (Z.leb_spec b a); [by intros [= <- <-] | done]. Qed.
Lemma require_inv b error s x s' : require b error s = (Ok x, s') → b = true ∧ s' = s.
Proof. destruct b; cbn; [by intros [= _ <-] | done]. Qed.

(** The sums of one validator change; the rest of its data stays. *)
Definition withSums (w balance count : Z) (s : ConsensusV1) : ConsensusV1 :=
  s <| c_validatorsData ::= <[w := (dataOf s w) <| vd_voteBalance := balance |> <| vd_votersCount := count |>]> |>.

Lemma set_twice w x y s :
  (s <| c_validatorsData ::= <[w := x]> |>) <| c_validatorsData ::= <[w := y]> |> = s <| c_validatorsData ::= <[w := y]> |>.
Proof. unfold set_field. cbn -[insert]. by rewrite insert_insert_eq. Qed.

Lemma creditValidator_run w amount s s' :
  creditValidator w amount s = (Ok tt, s') → s' = withSums w (vd_voteBalance (dataOf s w) + amount) (vd_votersCount (dataOf s w) + 1) s.
Proof.
  unfold creditValidator. intros Hrun. erewrite M_bind_run in Hrun by reflexivity.
  apply M_bind_inv in Hrun as (bal & s1 & [-> ->]%addUint_inv & Hrun).
  apply M_bind_inv in Hrun as ([] & s2 & [= <-] & Hrun). erewrite M_bind_run in Hrun by reflexivity.
  apply M_bind_inv in Hrun as (n & s3 & [-> ->]%addUint_inv & Hrun). injection Hrun as <-.
  rewrite dataOf_set, decide_True by done. apply set_twice.
Qed.

Lemma debitValidator_run w amount s :
  amount ≤ vd_voteBalance (dataOf s w) → 1 ≤ vd_votersCount (dataOf s w) →
  debitValidator w amount s = (Ok tt, withSums w (vd_voteBalance (dataOf s w) - amount) (vd_votersCount (dataOf s w) - 1) s).
Proof.
  intros Hb Hn. unfold debitValidator. erewrite M_bind_run by reflexivity.
  assert (Hsub : ∀ x y s, y ≤ x → subU x y s = (Ok (x - y), s)) by (intros x y s1 Hle; unfold subU; by rewrite (proj2 (Z.leb_le _ _) Hle)).
  rewrite (M_bind_run _ _ _ _ _ (Hsub _ _ s Hb)). erewrite M_bind_run by reflexivity. erewrite M_bind_run by reflexivity.
  rewrite dataOf_set, decide_True by done.
  rewrite (M_bind_run _ _ _ _ _ (Hsub (vd_votersCount (dataOf s w)) 1 _ Hn)). unfold setData, modify. f_equal. apply set_twice.
Qed.

Lemma withSums_same w balance count s : sameValidators s (withSums w balance count s).
Proof.
  split; try done. intros x. unfold withSums. rewrite dataOf_set. by case_decide as Hx; [subst |].
Qed.

(** ** A new vote *)

(** The mapping after [voter] was appended to the list [l]. *)
Definition linkedVoters (s : ConsensusV1) (l : list Z) (voter w amount : Z) : gmap Z Vote :=
  <[voter := mkVote w amount (prevLink l (length l)) 0]>
    (match l with [] => c_voters s | _ => <[c_votersTail s := (voteOf s (c_votersTail s)) <| vo_next := voter |>]> (c_voters s) end).

Definition afterAppend (s : ConsensusV1) (l : list Z) (voter w amount : Z) : ConsensusV1 :=
  s <| c_voters := linkedVoters s l voter w amount |> <| c_votersHead := link (l ++ [voter]) 0 |> <| c_votersTail := voter |>.

Lemma tail_in s l : votersOk s l → l ≠ [] → c_votersTail s ∈ l.
Proof. intros Hs Hl. rewrite (vt_tail _ _ Hs). destruct l as [|x l]; [done |]. cbn [length prevLink]. apply link_in. cbn. lia. Qed.

Lemma linkVoter_run s l voter w amount :
  votersOk s l → voter ∉ l →
  linkVoter voter (s <| c_voters ::= <[voter := mkVote w amount 0 0]> |>) = (Ok tt, afterAppend s l voter w amount).
Proof.
  intros Hs Hv. unfold linkVoter. erewrite M_bind_run by reflexivity.
  change (c_votersHead (s <| c_voters ::= <[voter := mkVote w amount 0 0]> |>)) with (c_votersHead s).
  change (c_votersTail (s <| c_voters ::= <[voter := mkVote w amount 0 0]> |>)) with (c_votersTail s).
  destruct (decide (l = [])) as [->|Hl].
  - assert (Hz : (c_votersHead s =? 0) = true) by (rewrite (vt_head _ _ Hs); done). by rewrite Hz.
  - assert (Hz : (c_votersHead s =? 0) = false).
    { apply Z.eqb_neq. rewrite (vt_head _ _ Hs). intros Heq. apply (vt_zero _ _ Hs). rewrite <- Heq. apply link_in. by destruct l; [| cbn; lia]. }
    rewrite Hz. assert (Htail := tail_in s l Hs Hl).
    assert (Hne : voter ≠ c_votersTail s) by (by intros ->). unfold setVote, modify, mbind, M_bind, get. cbn -[insert].
    f_equal. unfold afterAppend, linkedVoters, set_field. cbn -[insert link prevLink length].
    assert (Hhead : link (l ++ [voter]) 0 = c_votersHead s) by (rewrite (vt_head _ _ Hs); apply link_app; by destruct l; [| cbn; lia]).
    rewrite Hhead. f_equal. unfold voteOf. cbn -[insert].
    repeat first [rewrite lookup_insert_eq | rewrite lookup_insert_ne by done]. cbn -[insert].
    rewrite (insert_insert_ne _ (c_votersTail s) voter) by done. rewrite insert_insert_eq. rewrite <- (vt_tail _ _ Hs).
    by destruct l.
Qed.

Lemma voteIn_appended s l voter w amount a :
  votersOk s l → voter ∉ l →
  vo_validator (voteIn (linkedVoters s l voter w amount) a) = (if decide (a = voter) then w else vo_validator (voteOf s a)) ∧
  vo_balance (voteIn (linkedVoters s l voter w amount) a) = (if decide (a = voter) then amount else vo_balance (voteOf s a)).
Proof.
  intros Hs Hv. unfold voteIn, linkedVoters, voteOf. rewrite lookup_insert. destruct (decide (voter = a)) as [->|Hne].
  - by rewrite !decide_True by done.
  - rewrite !decide_False by done. destruct l as [|x l]; [done |]. rewrite lookup_insert. by case_decide as Ht; [subst |].
Qed.

(** The sums over the longer list. *)
Lemma sums_appended s l voter w amount x :
  votersOk s l → voter ∉ l →
  sumOf (balanceFor (linkedVoters s l voter w amount) x) (l ++ [voter]) =
    sumOf (balanceFor (c_voters s) x) l + (if w =? x then amount else 0) ∧
  sumOf (countFor (linkedVoters s l voter w amount) x) (l ++ [voter]) =
    sumOf (countFor (c_voters s) x) l + (if w =? x then 1 else 0).
Proof.
  intros Hs Hv. rewrite !sumOf_app. cbn [sumOf]. unfold balanceFor, countFor.
  destruct (voteIn_appended s l voter w amount voter Hs Hv) as [Hw Ha]. rewrite Hw, Ha, !decide_True by done. rewrite !Z.add_0_r.
  split; f_equal; apply sumOf_ext; intros a Hin; destruct (voteIn_appended s l voter w amount a Hs Hv) as [Hw' Ha'];
    rewrite Hw', ?Ha', !decide_False by (by intros ->); done.
Qed.

Lemma entries_appended s l voter w amount i a :
  votersOk s l → voter ∉ l → (l ++ [voter]) !! i = Some a →
  ∃ v, linkedVoters s l voter w amount !! a = Some v ∧ vo_prev v = prevLink (l ++ [voter]) i ∧ vo_next v = link (l ++ [voter]) (S i) ∧
    (a ∈ l ∧ vo_validator v = vo_validator (voteOf s a) ∧ vo_balance v = vo_balance (voteOf s a) ∨ a = voter ∧ vo_validator v = w ∧ vo_balance v = amount).
Proof.
  intros Hs Hv [[Hi Ha]|[-> [= <-]]]%lookup_snoc_Some.
  - destruct (listed_voter s l i a Hs Ha) as (v & Hvote & Hget & Hp & Hn & _). assert (Hin := list_elem_of_lookup_2 _ _ _ Ha).
    assert (Hne : voter ≠ a) by (by intros ->). unfold linkedVoters. rewrite lookup_insert_ne by done.
    rewrite prevLink_app by lia. destruct (decide (S i = length l)) as [Hlast|Hmid].
    + assert (Ht : c_votersTail s = a). { rewrite (vt_tail _ _ Hs), <- Hlast. cbn. by apply link_elem. }
      destruct l as [|x l]; [done |]. rewrite Ht, lookup_insert_eq, Hlast, link_last. eexists. split; [done |]. rewrite Hvote.
      split_and!; [exact Hp | done | by left].
    + rewrite link_app by lia. exists v. split; [| rewrite Hvote; split_and!; [exact Hp | exact Hn | by left]].
      destruct l as [|x l]; [done |]. rewrite lookup_insert_ne; [done |]. intros Ht.
      assert (Hlast : (x :: l) !! pred (length (x :: l)) = Some a).
      { rewrite (vt_tail _ _ Hs) in Ht. cbn [length prevLink pred] in *. destruct (lookup_lt_is_Some_2 (x :: l) (length l)) as [y Hy]; [cbn; lia |].
        rewrite (link_elem _ _ _ Hy) in Ht. by rewrite Hy, Ht. }
      assert (i = pred (length (x :: l))) by (eapply NoDup_lookup; [apply (vt_nodup _ _ Hs) | done | done]). cbn in *. lia.
  - unfold linkedVoters. rewrite lookup_insert_eq. eexists. split; [done |]. rewrite prevLink_app by lia.
    rewrite link_beyond by (rewrite length_app; cbn; lia). cbn. split_and!; [done | done | by right].
Qed.

Lemma appendVoter_ok `{EvmCall} s l voter w s' :
  votersOk s l → voter ∉ l → voter ≠ 0 → w ≠ 0 → isValidatorRegistered s w = true → 0 ≤ balanceOf voter →
  appendVoter voter w s = (Ok tt, s') → votersOk s' (l ++ [voter]) ∧ sameValidators s s'.
Proof.
  intros Hs Hv Hv0 Hw0 Hw Ha Hrun. unfold appendVoter in Hrun. erewrite M_bind_run in Hrun by reflexivity.
  rewrite (M_bind_run _ _ _ _ _ (linkVoter_run s l voter w (balanceOf voter) Hs Hv)) in Hrun.
  erewrite M_bind_run in Hrun by reflexivity. apply M_bind_inv in Hrun as (count & s1 & [-> ->]%addUint_inv & Hrun).
  erewrite M_bind_run in Hrun by reflexivity. apply creditValidator_run in Hrun as ->.
  set (s1 := (afterAppend s l voter w (balanceOf voter)) <| c_votersCount := c_votersCount (afterAppend s l voter w (balanceOf voter)) + 1 |>).
  assert (Hdata : ∀ x, dataOf s1 x = dataOf s x) by done.
  split.
  - assert (Hd : ∀ x, vd_voteBalance (dataOf (withSums w (vd_voteBalance (dataOf s1 w) + balanceOf voter) (vd_votersCount (dataOf s1 w) + 1) s1) x) =
        vd_voteBalance (dataOf s x) + (if w =? x then balanceOf voter else 0) ∧
      vd_votersCount (dataOf (withSums w (vd_voteBalance (dataOf s1 w) + balanceOf voter) (vd_votersCount (dataOf s1 w) + 1) s1) x) =
        vd_votersCount (dataOf s x) + (if w =? x then 1 else 0)).
    { intros x. unfold withSums. rewrite dataOf_set. case_decide as Hx; [subst; by rewrite Z.eqb_refl | rewrite (proj2 (Z.eqb_neq _ _) Hx), Hdata; lia]. }
    revert Hd. generalize (vd_voteBalance (dataOf s1 w) + balanceOf voter) (vd_votersCount (dataOf s1 w) + 1). intros bal count Hd.
    split.
    + apply NoDup_app. split_and!; [apply Hs | set_solver | apply NoDup_singleton].
    + rewrite elem_of_app, list_elem_of_singleton. intros [?|?]; [by apply (vt_zero _ _ Hs) | done].
    + done.
    + rewrite length_app. cbn [length]. rewrite Nat.add_1_r. cbn [prevLink]. by rewrite link_last.
    + change (c_votersCount s + 1 = Z.of_nat (length (l ++ [voter]))). rewrite (vt_count _ _ Hs), length_app. cbn. lia.
    + intros i a Hi. destruct (entries_appended s l voter w (balanceOf voter) i a Hs Hv Hi) as (v & Hget & Hp & Hn & Hcase).
      exists v. split_and!; [done | done | done |..]; destruct Hcase as [(Hin & Hval & Hbal)|(-> & Hval & Hbal)]; rewrite ?Hval, ?Hbal; try done;
        apply list_elem_of_lookup_1 in Hin as [j Hj]; destruct (listed_voter s l j a Hs Hj) as (v' & -> & _ & _ & _ & ? & ? & ?); done.
    + intros a Hout. rewrite elem_of_app, list_elem_of_singleton in Hout.
      change (linkedVoters s l voter w (balanceOf voter) !! a = None). unfold linkedVoters. rewrite lookup_insert_ne by naive_solver.
      destruct l as [|x l]; [by apply (vt_none _ _ Hs), not_elem_of_nil |]. rewrite lookup_insert_ne; [apply (vt_none _ _ Hs); tauto |].
      intros <-. apply Hout. left. by apply (tail_in s).
    + intros x. destruct (Hd x) as [-> _]. rewrite (vt_balance _ _ Hs). symmetry. by apply sums_appended.
    + intros x. destruct (Hd x) as [_ ->]. rewrite (vt_votersCount _ _ Hs). symmetry. by apply sums_appended.
  - etransitivity; [| apply withSums_same]. by split.
Qed.

(** ** Taking a vote out *)
Definition unlinkedPrev (s : ConsensusV1) (l : list Z) (i : nat) : gmap Z Vote :=
  match i with
  | O => c_voters s
  | S j => <[link l j := (voteOf s (link l j)) <| vo_next := link l (S i) |>]> (c_voters s)
  end.
Definition unlinkedVoters (s : ConsensusV1) (l : list Z) (i : nat) : gmap Z Vote :=
  if decide (S i < length l)%nat
  then <[link l (S i) := (voteOf s (link l (S i))) <| vo_prev := prevLink l i |>]> (unlinkedPrev s l i)
  else unlinkedPrev s l i.
Definition afterUnlink (s : ConsensusV1) (l : list Z) (i : nat) : ConsensusV1 :=
  s <| c_voters := unlinkedVoters s l i |> <| c_votersHead := link (delete i l) 0 |>
    <| c_votersTail := prevLink (delete i l) (length (delete i l)) |>.

Lemma link_inj s l i j : votersOk s l → (i < length l)%nat → (j < length l)%nat → link l i = link l j → i = j.
Proof.
  intros Hs [a Ha]%lookup_lt_is_Some [b Hb]%lookup_lt_is_Some. rewrite (link_elem _ _ _ Ha), (link_elem _ _ _ Hb). intros ->.
  eapply NoDup_lookup; [apply (vt_nodup _ _ Hs) | done | done].
Qed.

Lemma unlinkVoter_run s l i a :
  votersOk s l → l !! i = Some a → unlinkVoter a (voteOf s a) s = (Ok tt, afterUnlink s l i).
Proof.
  intros Hs Hi. assert (Hlt := lookup_lt_Some _ _ _ Hi). destruct (listed_voter s l i a Hs Hi) as (v & -> & _ & Hp & Hn & _).
  assert (Ha := link_elem _ _ _ Hi). assert (Hhead := vt_head _ _ Hs). assert (Htail := vt_tail _ _ Hs).
  assert (Hlen : length (delete i l) = pred (length l)) by (rewrite length_delete by done; lia).
  destruct (length l) as [|m] eqn:Hm; [lia |]. cbn [pred prevLink] in *.
  assert (Hht : (c_votersHead s =? c_votersTail s) = bool_decide (m = 0)%nat).
  { rewrite Hhead, Htail. destruct (Z.eqb_spec (link l 0) (link l m)) as [Heq|Hne]; [| rewrite bool_decide_false; [done | by intros ->]].
    apply (link_inj s l) in Heq; [| done | lia | lia]. by rewrite bool_decide_true by lia. }
  assert (Hta : (c_votersTail s =? a) = bool_decide (i = m)%nat).
  { rewrite Htail, <- Ha. destruct (Z.eqb_spec (link l m) (link l i)) as [Heq|Hne]; [| rewrite bool_decide_false; [done | by intros ->]].
    apply (link_inj s l) in Heq; [| done | lia | lia]. by rewrite bool_decide_true by lia. }
  assert (Hha : (c_votersHead s =? a) = bool_decide (i = 0)%nat).
  { rewrite Hhead, <- Ha. destruct (Z.eqb_spec (link l 0) (link l i)) as [Heq|Hne]; [| rewrite bool_decide_false; [done | by intros ->]].
    apply (link_inj s l) in Heq; [| done | lia | lia]. by rewrite bool_decide_true by lia. }
  unfold unlinkVoter. erewrite M_bind_run by reflexivity. rewrite Hht, Hta, Hha, Hp, Hn.
  assert (Hfin : ∀ V h t, V = unlinkedVoters s l i → h = link (delete i l) 0 → t = prevLink (delete i l) m →
    s <| c_voters := V |> <| c_votersHead := h |> <| c_votersTail := t |> = afterUnlink s l i).
  { intros V h t -> -> ->. unfold afterUnlink. by rewrite Hlen. }
  destruct (decide (m = 0)%nat) as [->|Hm0]; [| rewrite bool_decide_false by done; destruct (decide (i = m)%nat) as [->|Him];
    [rewrite bool_decide_true by done | rewrite bool_decide_false by done; destruct (decide (i = 0)%nat) as [->|Hi0];
       [rewrite bool_decide_true by done | rewrite bool_decide_false by done]]].
  - rewrite bool_decide_true by done. unfold modify. f_equal. assert (i = 0%nat) as -> by lia.
    rewrite <- (Hfin (c_voters s) 0 0); [by destruct s | | | done].
    + unfold unlinkedVoters. rewrite decide_False by lia. done.
    + rewrite link_beyond; [done | lia].
  - unfold setVote, modify, mbind, M_bind. cbn [fst snd]. f_equal. rewrite <- (Hfin (unlinkedVoters s l m) (c_votersHead s) (prevLink l m)); [| done | |].
    + unfold unlinkedVoters. rewrite decide_False by lia. destruct m as [|m]; [done |]. cbn [unlinkedPrev prevLink].
      rewrite (link_beyond l (S (S m))) by lia. by destruct s.
    + rewrite link_delete, decide_True by lia. done.
    + rewrite prevLink_delete, decide_True by lia. done.
  - unfold setVote, modify, mbind, M_bind. cbn [fst snd]. f_equal. rewrite <- (Hfin (unlinkedVoters s l 0) (link l 1) (c_votersTail s)); [| done | |].
    + unfold unlinkedVoters. rewrite decide_True by lia. by destruct s.
    + rewrite link_delete, decide_False by lia. done.
    + rewrite prevLink_delete, decide_False by lia. done.
  - unfold setVote, modify, mbind, M_bind, get. cbn [fst snd]. f_equal.
    rewrite <- (Hfin (unlinkedVoters s l i) (c_votersHead s) (c_votersTail s)); [| done | |].
    + unfold unlinkedVoters. rewrite decide_True by lia. destruct i as [|j]; [done |]. cbn [unlinkedPrev prevLink].
      assert (Hne : link l j ≠ link l (S (S j))) by (intros Heq; apply (link_inj s l) in Heq; [lia | done | lia | lia]).
      assert (Hvn : voteOf (s <| c_voters ::= <[link l j := (voteOf s (link l j)) <| vo_next := link l (S (S j)) |>]> |>) (link l (S (S j))) =
        voteOf s (link l (S (S j)))) by (unfold voteOf; cbn -[insert link]; by rewrite lookup_insert_ne).
      rewrite Hvn. by destruct s.
    + rewrite link_delete, decide_True by lia. done.
    + rewrite prevLink_delete, decide_False by lia. done.
Qed.

(** Only pointers changed. *)
Lemma voteIn_unlinked s l i b :
  votersOk s l → (i < length l)%nat →
  vo_validator (voteIn (unlinkedVoters s l i) b) = vo_validator (voteOf s b) ∧
  vo_balance (voteIn (unlinkedVoters s l i) b) = vo_balance (voteOf s b).
Proof.
  intros Hs Hi. assert (Hprev : vo_validator (voteIn (unlinkedPrev s l i) b) = vo_validator (voteOf s b) ∧
    vo_balance (voteIn (unlinkedPrev s l i) b) = vo_balance (voteOf s b)).
  { unfold unlinkedPrev, voteIn, voteOf. destruct i; [done |]. rewrite lookup_insert. by case_decide; [subst |]. }
  unfold unlinkedVoters. case_decide; [| done]. unfold voteIn in *. rewrite lookup_insert. by case_decide as Hb; [subst |].
Qed.

Lemma entries_unlinked s l i k b :
  votersOk s l → (i < length l)%nat → l !! k = Some b → k ≠ i →
  ∃ v, unlinkedVoters s l i !! b = Some v ∧
    vo_prev v = (if decide (k = S i) then prevLink l i else prevLink l k) ∧
    vo_next v = (if decide (S k = i) then link l (S i) else link l (S k)) ∧
    vo_validator v = vo_validator (voteOf s b) ∧ vo_balance v = vo_balance (voteOf s b).
Proof.
  intros Hs Hi Hk Hne. assert (Hlt := lookup_lt_Some _ _ _ Hk). assert (Hb := link_elem _ _ _ Hk).
  destruct (listed_voter s l k b Hs Hk) as (v & Hv & Hget & Hp & Hn & _).
  assert (Hprev : ∃ v', unlinkedPrev s l i !! b = Some v' ∧ vo_prev v' = prevLink l k ∧
    vo_next v' = (if decide (S k = i) then link l (S i) else link l (S k)) ∧
    vo_validator v' = vo_validator (voteOf s b) ∧ vo_balance v' = vo_balance (voteOf s b)).
  { unfold unlinkedPrev. destruct i as [|j].
    - exists v. rewrite decide_False, Hv by lia. done.
    - destruct (decide (S k = S j)) as [Heq|Hkj].
      + assert (k = j) as -> by lia. rewrite Hb, lookup_insert_eq. eexists. split; [done |]. rewrite Hv. done.
      + exists v. rewrite lookup_insert_ne, Hv; [done |]. intros Heq. rewrite <- Hb in Heq. apply (link_inj s l) in Heq; [lia | done | lia | lia]. }
  unfold unlinkedVoters. destruct (decide (S i < length l)%nat) as [Hin|Hout].
  - destruct (decide (k = S i)) as [->|Hki].
    + rewrite Hb, lookup_insert_eq. eexists. split; [done |]. rewrite Hv. cbn. rewrite decide_False by lia. done.
    + rewrite lookup_insert_ne; [done |]. intros Heq. rewrite <- Hb in Heq. apply (link_inj s l) in Heq; [lia | done | lia | lia].
  - rewrite (decide_False (P := k = S i)) by lia. done.
Qed.

(** The list without the voter. *)
Lemma entry_removed s l i a j b :
  votersOk s l → l !! i = Some a → delete i l !! j = Some b →
  ∃ v, delete a (unlinkedVoters s l i) !! b = Some v ∧ vo_prev v = prevLink (delete i l) j ∧ vo_next v = link (delete i l) (S j) ∧
    vo_validator v = vo_validator (voteOf s b) ∧ vo_balance v = vo_balance (voteOf s b) ∧ b ∈ l.
Proof.
  intros Hs Hi (k & Hk & Hne & Hj)%lookup_delete_Some. assert (Hlt := lookup_lt_Some _ _ _ Hi).
  destruct (entries_unlinked s l i k b Hs Hlt Hk Hne) as (v & Hget & Hp & Hn & Hval & Hbal). exists v.
  assert (Hab : a ≠ b) by (intros ->; apply Hne; eapply NoDup_lookup; [apply (vt_nodup _ _ Hs) | done | done]).
  rewrite lookup_delete_ne by done. rewrite Hp, Hn, prevLink_delete, link_delete by done.
  split_and!; [done | | | done | done | by apply list_elem_of_lookup_2 in Hk].
  - destruct (decide (k < i)%nat); repeat case_decide; subst; try lia; try done. all: f_equal; lia.
  - destruct (decide (k < i)%nat); repeat case_decide; subst; try lia; try done. all: f_equal; lia.
Qed.

Lemma sums_removed s l i a x :
  votersOk s l → l !! i = Some a →
  sumOf (balanceFor (c_voters s) x) l =
    (if vo_validator (voteOf s a) =? x then vo_balance (voteOf s a) else 0) + sumOf (balanceFor (delete a (unlinkedVoters s l i)) x) (delete i l) ∧
  sumOf (countFor (c_voters s) x) l =
    (if vo_validator (voteOf s a) =? x then 1 else 0) + sumOf (countFor (delete a (unlinkedVoters s l i)) x) (delete i l).
Proof.
  intros Hs Hi. assert (Hlt := lookup_lt_Some _ _ _ Hi). rewrite !(sumOf_delete _ l i a Hi).
  assert (Hsame : ∀ b, b ∈ delete i l → voteIn (delete a (unlinkedVoters s l i)) b = voteIn (unlinkedVoters s l i) b).
  { intros b Hb. unfold voteIn. apply list_elem_of_lookup_1 in Hb as [j Hj].
    destruct (entry_removed s l i a j b Hs Hi Hj) as (v & Hget & _). rewrite lookup_delete in Hget |- *. by case_decide. }
  split; f_equal; apply sumOf_ext; intros b Hb; unfold balanceFor, countFor; rewrite (Hsame b Hb);
    destruct (voteIn_unlinked s l i b Hs Hlt) as [-> Hbal]; rewrite ?Hbal; done.
Qed.

(** The running sums cover the vote. *)
Lemma sums_cover s l i a :
  votersOk s l → l !! i = Some a →
  vo_balance (voteOf s a) ≤ vd_voteBalance (dataOf s (vo_validator (voteOf s a))) ∧ 1 ≤ vd_votersCount (dataOf s (vo_validator (voteOf s a))).
Proof.
  intros Hs Hi. destruct (sums_removed s l i a (vo_validator (voteOf s a)) Hs Hi) as [Hb Hc]. rewrite Z.eqb_refl in Hb, Hc.
  rewrite (vt_balance _ _ Hs), (vt_votersCount _ _ Hs), Hb, Hc.
  assert (Hnn : ∀ b, b ∈ delete i l → 0 ≤ balanceFor (delete a (unlinkedVoters s l i)) (vo_validator (voteOf s a)) b ∧
    0 ≤ countFor (delete a (unlinkedVoters s l i)) (vo_validator (voteOf s a)) b).
  { intros b Hin. apply list_elem_of_lookup_1 in Hin as [j Hj]. destruct (entry_removed s l i a j b Hs Hi Hj) as (v & Hget & _ & _ & _ & Hbal & Hbl).
    apply list_elem_of_lookup_1 in Hbl as [j' Hj']. destruct (listed_voter s l j' b Hs Hj') as (v' & Hv' & _ & _ & _ & _ & _ & Hpos).
    unfold balanceFor, countFor, voteIn. rewrite Hget. cbn. rewrite Hbal, Hv'. split; by destruct (_ =? _). }
  split; [assert (0 ≤ sumOf (balanceFor (delete a (unlinkedVoters s l i)) (vo_validator (voteOf s a))) (delete i l)) |
          assert (0 ≤ sumOf (countFor (delete a (unlinkedVoters s l i)) (vo_validator (voteOf s a))) (delete i l))];
    try lia; apply sumOf_nonneg; intros b Hin; by apply Hnn.
Qed.

(** Removing a vote never fails. *)
Lemma doUnvote_ok `{EvmCall} s l i :
  votersOk s l → l !! i = Some msg_sender →
  ∃ s', doUnvote s = (Ok tt, s') ∧ votersOk s' (delete i l) ∧ sameValidators s s'.
Proof.
  intros Hs Hi. assert (Hlt := lookup_lt_Some _ _ _ Hi). destruct (listed_voter s l i _ Hs Hi) as (v & Hv & _ & _ & _ & Hv0 & _ & _).
  destruct (sums_cover s l i _ Hs Hi) as [Hcb Hcc]. unfold doUnvote. erewrite M_bind_run by reflexivity.
  assert (Hz : (vo_validator (voteOf s msg_sender) =? 0) = false) by (apply Z.eqb_neq; by rewrite Hv). rewrite Hz. cbn [negb require].
  erewrite M_bind_run by reflexivity. rewrite (M_bind_run _ _ _ _ _ (unlinkVoter_run s l i _ Hs Hi)).
  set (w := vo_validator (voteOf s msg_sender)) in *. set (amount := vo_balance (voteOf s msg_sender)) in *.
  rewrite (M_bind_run _ _ _ _ _ (debitValidator_run w amount (afterUnlink s l i) Hcb Hcc)).
  erewrite M_bind_run by reflexivity. erewrite M_bind_run by reflexivity.
  set (s1 := withSums w (vd_voteBalance (dataOf (afterUnlink s l i) w) - amount) (vd_votersCount (dataOf (afterUnlink s l i) w) - 1) (afterUnlink s l i)).
  assert (Hn : (1 <=? c_votersCount (s1 <| c_voters ::= delete msg_sender |>)) = true).
  { apply Z.leb_le. change (1 ≤ c_votersCount s). rewrite (vt_count _ _ Hs). lia. }
  unfold subU. rewrite Hn. erewrite M_bind_run by reflexivity. eexists. split; [reflexivity |].
  assert (Hd : ∀ x, vd_voteBalance (dataOf s1 x) = vd_voteBalance (dataOf s x) - (if w =? x then amount else 0) ∧
    vd_votersCount (dataOf s1 x) = vd_votersCount (dataOf s x) - (if w =? x then 1 else 0)).
  { intros x. unfold s1, withSums. rewrite dataOf_set. case_decide as Hx; [subst; by rewrite Z.eqb_refl |].
    rewrite (proj2 (Z.eqb_neq _ _) Hx), !Z.sub_0_r. done. }
  assert (Hsame : sameValidators s s1) by (etransitivity; [| apply withSums_same]; by split).
  assert (Hvot : c_voters s1 = unlinkedVoters s l i) by done.
  assert (Hreg : ∀ x, isValidatorRegistered s1 x = isValidatorRegistered s x) by done.
  assert (Hlists : c_votersHead s1 = link (delete i l) 0 ∧ c_votersTail s1 = prevLink (delete i l) (length (delete i l)) ∧ c_votersCount s1 = c_votersCount s) by done.
  revert Hd Hsame Hvot Hreg Hlists. generalize s1. clear s1 Hn. intros s1 Hd Hsame Hvot Hreg (Hhead & Htail & Hcount). split.
  - split.
    + eapply sublist_NoDup; [apply (vt_nodup _ _ Hs) | apply sublist_delete].
    + intros Hz0. apply (vt_zero _ _ Hs). by eapply list_elem_of_delete_inv.
    + exact Hhead.
    + exact Htail.
    + change (c_votersCount s1 - 1 = Z.of_nat (length (delete i l))). rewrite Hcount, (vt_count _ _ Hs), length_delete by done. lia.
    + intros j b Hj. destruct (entry_removed s l i _ j b Hs Hi Hj) as (v' & Hget & Hp & Hnx & Hval & Hbal & Hin). exists v'.
      apply list_elem_of_lookup_1 in Hin as [k Hk]. destruct (listed_voter s l k b Hs Hk) as (vb & Hvb & _ & _ & _ & ? & ? & ?).
      split_and!; [| done | done | by rewrite Hval, Hvb | change (isValidatorRegistered s1 (vo_validator v') = true); by rewrite Hreg, Hval, Hvb | by rewrite Hbal, Hvb].
      change (delete msg_sender (c_voters s1) !! b = Some v'). by rewrite Hvot.
    + intros b Hb. change (delete msg_sender (c_voters s1) !! b = None). rewrite Hvot, lookup_delete. case_decide as Hx; [done |].
      assert (Hout : b ∉ l). { intros Hin. apply Hb. apply list_elem_of_lookup_1 in Hin as [k Hk].
        assert (Hki : k ≠ i) by (intros ->; congruence). destruct (decide (k < i)%nat).
        - apply (list_elem_of_lookup_2 _ k). by rewrite list_lookup_delete_lt.
        - apply (list_elem_of_lookup_2 _ (pred k)). rewrite list_lookup_delete_ge by lia. by replace (S (pred k)) with k by lia. }
      assert (Hout' : ∀ k, (k < length l)%nat → link l k ≠ b) by (intros k Hk <-; by apply Hout, link_in).
      unfold unlinkedVoters, unlinkedPrev. destruct (decide (S i < length l)%nat); destruct i as [|j];
        rewrite ?lookup_insert_ne by (apply Hout'; lia); by apply (vt_none _ _ Hs).
    + intros x. change (vd_voteBalance (dataOf s1 x) = sumOf (balanceFor (delete msg_sender (c_voters s1)) x) (delete i l)).
      rewrite Hvot. destruct (Hd x) as [-> _]. rewrite (vt_balance _ _ Hs). destruct (sums_removed s l i _ x Hs Hi) as [-> _]. fold w amount. lia.
    + intros x. change (vd_votersCount (dataOf s1 x) = sumOf (countFor (delete msg_sender (c_voters s1)) x) (delete i l)).
      rewrite Hvot. destruct (Hd x) as [_ ->]. rewrite (vt_votersCount _ _ Hs). destruct (sums_removed s l i _ x Hs Hi) as [_ ->]. fold w. lia.
  - etransitivity; [exact Hsame |]. by split.
Qed.

(** ** A changed balance *)
Lemma updateVoter_ok `{EvmCall} s l addr s' :
  votersOk s l → 0 ≤ balanceOf addr → updateVoter addr s = (Ok tt, s') → votersOk s' l ∧ sameValidators s s'.
Proof.
  intros Hs Ha. unfold updateVoter. intros Hrun. erewrite M_bind_run in Hrun by reflexivity.
  destruct (Z.eqb_spec (vo_validator (voteOf s addr)) 0) as [Hz|Hnz]; [injection Hrun as <-; by split |].
  destruct (voter_listed s l addr Hs Hnz) as [i Hi]. destruct (listed_voter s l i addr Hs Hi) as (v & Hv & Hget & Hp & Hn & Hv0 & Hreg & Hpos).
  rewrite Hv in *. set (w := vo_validator v) in *.
  apply M_bind_inv in Hrun as (balance & s1 & Hbal & Hrun).
  assert (Hnew : balance = vd_voteBalance (dataOf s w) + (balanceOf addr - vo_balance v) ∧ s1 = s).
  { destruct (vo_balance v <? balanceOf addr); [apply addUint_inv in Hbal as [-> ->] | apply subU_inv in Hbal as (_ & -> & ->)]; (split; [lia | done]). }
  destruct Hnew as [-> ->]. erewrite M_bind_run in Hrun by reflexivity. injection Hrun as <-.
  set (s1 := s <| c_validatorsData ::= <[w := (dataOf s w) <| vd_voteBalance := vd_voteBalance (dataOf s w) + (balanceOf addr - vo_balance v) |>]> |>).
  assert (Hd : ∀ x, vd_voteBalance (dataOf s1 x) = vd_voteBalance (dataOf s x) + (if w =? x then balanceOf addr - vo_balance v else 0) ∧
    vd_votersCount (dataOf s1 x) = vd_votersCount (dataOf s x) ∧ vd_isResigned (dataOf s1 x) = vd_isResigned (dataOf s x) ∧
    vd_blsPublicKey (dataOf s1 x) = vd_blsPublicKey (dataOf s x)).
  { intros x. unfold s1. rewrite dataOf_set. case_decide as Hx; [subst x; by rewrite Z.eqb_refl |].
    rewrite (proj2 (Z.eqb_neq _ _) Hx), Z.add_0_r. done. }
  assert (Hvot : c_voters s1 = c_voters s) by done.
  assert (Hin : ∀ b, voteIn (<[addr := v <| vo_balance := balanceOf addr |>]> (c_voters s)) b =
    (if decide (addr = b) then v <| vo_balance := balanceOf addr |> else voteOf s b)).
  { intros b. unfold voteIn, voteOf. rewrite lookup_insert. by case_decide. }
  assert (Hsum : ∀ f g, (∀ b, b ≠ addr → f b = g b) → sumOf f l - f addr = sumOf g l - g addr).
  { intros f g Hfg. rewrite !(sumOf_delete _ l i addr Hi). assert (Heq : sumOf f (delete i l) = sumOf g (delete i l)).
    { apply sumOf_ext. intros b Hb. apply Hfg. intros ->. apply list_elem_of_lookup_1 in Hb as [j Hj].
      apply lookup_delete_Some in Hj as (k & Hk & Hki & _). apply Hki. eapply NoDup_lookup; [apply (vt_nodup _ _ Hs) | done | done]. }
    rewrite Heq. lia. }
  split.
  - split; try apply Hs.
    + intros j b Hj. destruct (vt_entry _ _ Hs j b Hj) as (vb & Hb & Hrest).
      destruct (decide (addr = b)) as [<-|Hne].
      * rewrite Hget in Hb. injection Hb as <-. assert (j = i) as -> by (eapply NoDup_lookup; [apply (vt_nodup _ _ Hs) | done | done]).
        exists (v <| vo_balance := balanceOf addr |>). split; [apply lookup_insert_eq |]. tauto.
      * exists vb. split; [| exact Hrest]. change (<[addr := v <| vo_balance := balanceOf addr |>]> (c_voters s) !! b = Some vb). by rewrite lookup_insert_ne.
    + intros b Hb. change (<[addr := v <| vo_balance := balanceOf addr |>]> (c_voters s) !! b = None). rewrite lookup_insert_ne; [by apply (vt_none _ _ Hs) |].
      intros <-. by apply list_elem_of_lookup_2 in Hi.
    + intros x. change (vd_voteBalance (dataOf s1 x) = sumOf (balanceFor (<[addr := v <| vo_balance := balanceOf addr |>]> (c_voters s)) x) l).
      destruct (Hd x) as [-> _]. rewrite (vt_balance _ _ Hs).
      assert (Hx := Hsum (balanceFor (<[addr := v <| vo_balance := balanceOf addr |>]> (c_voters s)) x) (balanceFor (c_voters s) x)).
      unfold balanceFor at 2 4 6 in Hx. rewrite Hin, decide_True in Hx by done. change (voteIn (c_voters s) addr) with (voteOf s addr) in Hx. rewrite Hv in Hx.
      change (vo_validator (v <| vo_balance := balanceOf addr |>)) with w in Hx. change (vo_validator v) with w in Hx.
      change (vo_balance (v <| vo_balance := balanceOf addr |>)) with (balanceOf addr) in Hx.
      specialize (Hx ltac:(intros b Hb; unfold balanceFor; rewrite Hin, decide_False by done; done)). destruct (w =? x); lia.
    + intros x. change (vd_votersCount (dataOf s1 x) = sumOf (countFor (<[addr := v <| vo_balance := balanceOf addr |>]> (c_voters s)) x) l).
      destruct (Hd x) as (_ & -> & _). rewrite (vt_votersCount _ _ Hs). apply sumOf_ext. intros b _. unfold countFor. rewrite Hin. case_decide; [by subst | done].
  - split; try done. intros x. destruct (Hd x) as (_ & _ & ? & ?). done.
Qed.
