(* ===== verification/ElectionRounds.v ===== *)
(** * The rounds of the election contract

    The active validators are kept in an array with an index; a round's validators
    are selected by inserting each active one into a sorted linked list that is
    cut to the wanted length.  [activeOk] says what the array holds, [roundChain]
    that the mapping describes a list; the selection is the top of the active
    validators, and the shuffle permutes it. *)
From Stdlib Require Import Sorted.
From S2P Require Import Prelude Bytes Election ElectionVotes.
#[local] Open Scope Z_scope.

(** ** The active validators *)
Record activeOk (s : ConsensusV1) : Prop := {
  ac_nodup : NoDup (c_activeValidators s);
  ac_index : ∀ i a, c_activeValidators s !! i = Some a → activeIndex s a = Z.of_nat i;
  ac_active : ∀ a, a ∈ c_activeValidators s ↔ isValidatorRegistered s a = true ∧ canBecomeActiveValidator s a = true;
  ac_zero : isValidatorRegistered s 0 = false;
}.

Lemma isActive_indexed s a :
  (∀ i a, c_activeValidators s !! i = Some a → activeIndex s a = Z.of_nat i) → isActiveValidator s a = true ↔ a ∈ c_activeValidators s.
Proof.
  intros Hs. unfold isActiveValidator. split.
  - destruct (_ <=? _); [done |]. intros Hb%bool_decide_eq_true_1. by apply list_elem_of_lookup_2 in Hb.
  - intros [i Hi]%list_elem_of_lookup_1. rewrite (Hs i a Hi), Nat2Z.id. assert (Hlt := lookup_lt_Some _ _ _ Hi).
    rewrite (proj2 (Z.leb_gt _ _)) by lia. by apply bool_decide_eq_true_2.
Qed.
Lemma isActive_iff s a : activeOk s → isActiveValidator s a = true ↔ a ∈ c_activeValidators s.
Proof. intros Hs. apply isActive_indexed, Hs. Qed.

Lemma canBecome_same s s' a : sameValidators s s' → canBecomeActiveValidator s' a = canBecomeActiveValidator s a.
Proof. intros Hs. unfold canBecomeActiveValidator. by destruct (sv_data _ _ Hs a) as [-> ->]. Qed.

Lemma activeOk_same s s' : sameValidators s s' → activeOk s → activeOk s'.
Proof.
  intros Hsame [Hnd Hidx Hact Hz]. unfold activeIndex, isValidatorRegistered in *. split; rewrite ?(sv_active _ _ Hsame), ?(sv_has _ _ Hsame); try done.
  - intros i a Hi. unfold activeIndex. rewrite (sv_index _ _ Hsame). by apply Hidx.
  - intros a. unfold isValidatorRegistered. rewrite (sv_has _ _ Hsame), (canBecome_same _ _ _ Hsame). apply Hact.
  - unfold isValidatorRegistered. by rewrite (sv_has _ _ Hsame).
Qed.

(** A new active validator. *)
Lemma addActive_index s addr i a :
  activeOk s → addr ∉ c_activeValidators s → (c_activeValidators s ++ [addr]) !! i = Some a →
  default 0 (<[addr := Z.of_nat (length (c_activeValidators s))]> (c_activeValidatorIndex s) !! a) = Z.of_nat i.
Proof.
  intros Hs Hout [[Hi Ha]|[-> [= <-]]]%lookup_snoc_Some; [| by rewrite lookup_insert_eq].
  rewrite lookup_insert_ne; [by apply (ac_index _ Hs) |]. intros ->. by apply list_elem_of_lookup_2 in Ha.
Qed.

(** The array after the last one took the removed one's place. *)
Definition removedActive (s : ConsensusV1) (i : nat) : list Z :=
  take (length (c_activeValidators s) - 1)
    (if decide (S i = length (c_activeValidators s)) then c_activeValidators s
     else <[i := link (c_activeValidators s) (length (c_activeValidators s) - 1)]> (c_activeValidators s)).
Definition removedIndex (s : ConsensusV1) (i : nat) (addr : Z) : gmap Z Z :=
  delete addr
    (if decide (S i = length (c_activeValidators s)) then c_activeValidatorIndex s
     else <[link (c_activeValidators s) (length (c_activeValidators s) - 1) := Z.of_nat i]> (c_activeValidatorIndex s)).

Lemma removeActive_run s i addr :
  (∀ i a, c_activeValidators s !! i = Some a → activeIndex s a = Z.of_nat i) → c_activeValidators s !! i = Some addr →
  removeActiveValidator addr s =
    (Ok tt, s <| c_activeValidators := removedActive s i |> <| c_activeValidatorIndex := removedIndex s i addr |>).
Proof.
  intros Hs Hi. unfold removeActiveValidator. erewrite M_bind_run by reflexivity.
  rewrite (proj2 (isActive_indexed s addr Hs)) by (by apply list_elem_of_lookup_2 in Hi). cbn [negb]. rewrite (Hs i addr Hi).
  assert (Hlt := lookup_lt_Some _ _ _ Hi). set (n := length (c_activeValidators s)) in *.
  assert (Hl : Z.to_nat (Z.of_nat n - 1) = (n - 1)%nat) by lia. rewrite Hl, Nat2Z.id. cbv zeta.
  unfold removedActive, removedIndex. fold n. destruct (decide (S i = n)) as [Heq|Hne].
  - rewrite (proj2 (Z.eqb_eq _ _)) by lia. cbn [negb when]. erewrite M_bind_run by reflexivity. done.
  - rewrite (proj2 (Z.eqb_neq _ _)) by lia. cbn [negb when]. erewrite M_bind_run by reflexivity. unfold modify. f_equal.
    unfold set_field. cbn -[insert delete take]. rewrite length_insert. fold n. done.
Qed.

Lemma removedActive_lookup s i addr j a :
  activeOk s → c_activeValidators s !! i = Some addr → removedActive s i !! j = Some a →
  ∃ k, c_activeValidators s !! k = Some a ∧ k ≠ i ∧ (S j < length (c_activeValidators s))%nat ∧
    (j = i ∧ S k = length (c_activeValidators s) ∨ j ≠ i ∧ k = j).
Proof.
  intros Hs Hi Hj. assert (Hlt := lookup_lt_Some _ _ _ Hi). unfold removedActive in Hj.
  apply lookup_take_Some in Hj as [Hj Hjn]. destruct (decide (S i = length (c_activeValidators s))) as [Heq|Hne].
  - exists j. split_and!; [done | lia | lia | right; lia].
  - apply list_lookup_insert_Some in Hj as [(<- & <- & _)|(Hij & Hj)].
    + destruct (lookup_lt_is_Some_2 (c_activeValidators s) (length (c_activeValidators s) - 1)) as [b Hb]; [lia |].
      exists (length (c_activeValidators s) - 1)%nat. rewrite (link_elem _ _ _ Hb). split_and!; [done | lia | lia | left; lia].
    + exists j. split_and!; [done | lia | lia | right; lia].
Qed.

Lemma removedActive_elem s i addr a :
  activeOk s → c_activeValidators s !! i = Some addr → a ∈ removedActive s i ↔ a ∈ c_activeValidators s ∧ a ≠ addr.
Proof.
  intros Hs Hi. assert (Hlt := lookup_lt_Some _ _ _ Hi). split.
  - intros [j Hj]%list_elem_of_lookup_1. destruct (removedActive_lookup s i addr j a Hs Hi Hj) as (k & Hk & Hne & _).
    split; [by apply list_elem_of_lookup_2 in Hk |]. intros ->. apply Hne. eapply NoDup_lookup; [apply (ac_nodup _ Hs) | done | done].
  - intros [[k Hk]%list_elem_of_lookup_1 Hne]. assert (Hk' := lookup_lt_Some _ _ _ Hk). assert (Hki : k ≠ i) by (intros ->; congruence).
    unfold removedActive. destruct (decide (S i = length (c_activeValidators s))) as [Heq|Hlast].
    + apply (list_elem_of_lookup_2 _ k). rewrite lookup_take_lt by lia. done.
    + destruct (decide (S k = length (c_activeValidators s))) as [Hkl|Hkl].
      * apply (list_elem_of_lookup_2 _ i). rewrite lookup_take_lt by lia. rewrite list_lookup_insert_eq by done. f_equal.
        replace (length (c_activeValidators s) - 1)%nat with k by lia. by apply link_elem.
      * apply (list_elem_of_lookup_2 _ k). rewrite lookup_take_lt by lia. by rewrite list_lookup_insert_ne.
Qed.

Lemma removedActive_nodup s i addr :
  activeOk s → c_activeValidators s !! i = Some addr → NoDup (removedActive s i).
Proof.
  intros Hs Hi. apply NoDup_alt. intros j1 j2 a H1 H2.
  destruct (removedActive_lookup s i addr j1 a Hs Hi H1) as (k1 & Hk1 & Hn1 & Hl1 & Hc1).
  destruct (removedActive_lookup s i addr j2 a Hs Hi H2) as (k2 & Hk2 & Hn2 & Hl2 & Hc2).
  assert (k1 = k2) as -> by (eapply NoDup_lookup; [apply (ac_nodup _ Hs) | done | done]). lia.
Qed.

Lemma removedIndex_ok s i addr j a :
  activeOk s → c_activeValidators s !! i = Some addr → removedActive s i !! j = Some a →
  default 0 (removedIndex s i addr !! a) = Z.of_nat j.
Proof.
  intros Hs Hi Hj. assert (Hlt := lookup_lt_Some _ _ _ Hi). assert (Hin := list_elem_of_lookup_2 _ _ _ Hj).
  apply (removedActive_elem s i addr a Hs Hi) in Hin as [_ Hne]. unfold removedIndex. rewrite lookup_delete_ne by done.
  destruct (removedActive_lookup s i addr j a Hs Hi Hj) as (k & Hk & Hki & Hjn & Hcase).
  destruct (decide (S i = length (c_activeValidators s))) as [Heq|Hlast].
  - destruct Hcase as [[-> ?]|[_ ->]]; [lia |]. apply (ac_index _ Hs j a Hk).
  - destruct (lookup_lt_is_Some_2 (c_activeValidators s) (length (c_activeValidators s) - 1)) as [b Hb]; [lia |]. rewrite (link_elem _ _ _ Hb), lookup_insert.
    destruct Hcase as [[-> Hkn]|[Hji ->]].
    + replace (length (c_activeValidators s) - 1)%nat with k in Hb by lia. rewrite Hk in Hb. injection Hb as <-. by rewrite decide_True.
    + rewrite decide_False; [by apply (ac_index _ Hs) |]. intros ->.
      assert (j = (length (c_activeValidators s) - 1)%nat) by (eapply NoDup_lookup; [apply (ac_nodup _ Hs) | done | done]). lia.
Qed.

(** ** The list of a round *)
Fixpoint chain (next : Z → Z) (rs : list Z) : Prop :=
  match rs with
  | [] => True
  | a :: rs' => next a = link rs' 0 ∧ chain next rs'
  end.

Record roundChain (s : ConsensusV1) (rs : list Z) : Prop := {
  rc_nodup : NoDup rs;
  rc_zero : 0 ∉ rs;
  rc_head : c_roundValidatorsHead s = link rs 0;
  rc_chain : chain (roundNext s) rs;
  rc_count : c_roundValidatorsCount s = Z.of_nat (length rs);
  rc_out : ∀ a, a ∉ rs → roundNext s a = 0;
}.

(** What the selection leaves alone: all but the list. *)
Definition setRound (m : gmap Z Z) (head count : Z) (s : ConsensusV1) : ConsensusV1 :=
  s <| c_roundValidatorsMap := m |> <| c_roundValidatorsHead := head |> <| c_roundValidatorsCount := count |>.

Lemma chain_ext next next' rs : (∀ a, a ∈ rs → next a = next' a) → chain next rs → chain next' rs.
Proof.
  induction rs as [|a rs IH]; intros Heq; [done |]. cbn. intros [Ha Hrs]. rewrite <- Heq by (by left).
  split; [done |]. apply IH; [| done]. intros b Hb. apply Heq. by right.
Qed.

Definition nextIn (m : gmap Z Z) (a : Z) : Z := default 0 (m !! a).

Lemma nextIn_insert m a b c : nextIn (<[a := b]> m) c = if decide (a = c) then b else nextIn m c.
Proof. unfold nextIn. rewrite lookup_insert. by case_decide. Qed.

(** [_insertAfter] *)
Lemma chain_insertAfter next m p x l1 l2 :
  (∀ a, nextIn m a = next a) → NoDup (l1 ++ p :: l2) → x ∉ l1 ++ p :: l2 → chain next (l1 ++ p :: l2) →
  chain (nextIn (<[p := x]> (<[x := next p]> m))) (l1 ++ p :: x :: l2).
Proof.
  intros Hm. induction l1 as [|a l1 IH]; intros Hnd Hx Hc.
  - cbn [app] in *. cbn [chain link] in Hc |- *. destruct Hc as [Hp Hl2]. apply NoDup_cons in Hnd as [Hpn Hnd].
    rewrite not_elem_of_cons in Hx. destruct Hx as [Hxp Hx]. split_and!.
    + by rewrite nextIn_insert, decide_True.
    + rewrite nextIn_insert, decide_False, nextIn_insert, decide_True by done. exact Hp.
    + eapply chain_ext; [| exact Hl2]. intros b Hb. rewrite nextIn_insert, decide_False by (by intros ->).
      by rewrite nextIn_insert, decide_False, Hm by (by intros ->).
  - cbn [app chain] in *. destruct Hc as [Ha Hc]. apply NoDup_cons in Hnd as [Han Hnd]. rewrite not_elem_of_cons in Hx. destruct Hx as [Hxa Hx].
    assert (Hap : p ≠ a) by (intros ->; apply Han; apply elem_of_app; right; by left).
    split; [| by apply IH]. rewrite nextIn_insert, decide_False, nextIn_insert, decide_False, Hm, Ha by (done || congruence).
    by destruct l1.
Qed.

(** ** The order *)
Section order.
Context (s : ConsensusV1).

Lemma isGreater_irrefl a : isGreater s a a = false.
Proof. unfold isGreater. rewrite Z.eqb_refl. apply Z.ltb_irrefl. Qed.
Lemma isGreater_total a b : a ≠ b → isGreater s a b = negb (isGreater s b a).
Proof.
  intros Hne. unfold isGreater. rewrite (Z.eqb_sym (vd_voteBalance (dataOf s b))).
  destruct (Z.eqb_spec (vd_voteBalance (dataOf s a)) (vd_voteBalance (dataOf s b))).
  - destruct (Z.ltb_spec a b), (Z.ltb_spec b a); cbn; lia.
  - destruct (Z.ltb_spec (vd_voteBalance (dataOf s b)) (vd_voteBalance (dataOf s a))), (Z.ltb_spec (vd_voteBalance (dataOf s a)) (vd_voteBalance (dataOf s b))); cbn; lia.
Qed.
Lemma isGreater_trans a b c : isGreater s a b = true → isGreater s b c = true → isGreater s a c = true.
Proof.
  unfold isGreater. set (x := vd_voteBalance (dataOf s a)). set (y := vd_voteBalance (dataOf s b)). set (z := vd_voteBalance (dataOf s c)).
  destruct (Z.eqb_spec x y), (Z.eqb_spec y z), (Z.eqb_spec x z);
    repeat match goal with |- context [(?u <? ?v)] => destruct (Z.ltb_spec u v) end; try done; lia.
Qed.

(** From the lowest up. *)
Definition ascending (rs : list Z) : Prop := StronglySorted (λ a b, isGreater s b a = true) rs.

Fixpoint insertAsc (x : Z) (rs : list Z) : list Z :=
  match rs with
  | [] => [x]
  | y :: rs' => if isGreater s y x then x :: rs else y :: insertAsc x rs'
  end.

(** The selection of at most [n]: the lowest one goes when there are too many. *)
Definition topInsert (n : nat) (x : Z) (rs : list Z) : list Z :=
  let r := insertAsc x rs in if (n <? length r)%nat then tail r else r.

Lemma insertAsc_perm x rs : insertAsc x rs ≡ₚ x :: rs.
Proof.
  induction rs as [|y rs IH]; cbn; [done |]. destruct (isGreater s y x); [done |]. rewrite IH. apply Permutation_swap.
Qed.
Lemma insertAsc_length x rs : length (insertAsc x rs) = S (length rs).
Proof. by rewrite insertAsc_perm. Qed.

Lemma insertAsc_sorted x rs : x ∉ rs → ascending rs → ascending (insertAsc x rs).
Proof.
  unfold ascending. induction rs as [|y rs IH]; intros Hx Hs; cbn.
  { by repeat constructor. }
  rewrite not_elem_of_cons in Hx. destruct Hx as [Hxy Hx]. inversion Hs as [|? ? Hs' Hall]; subst.
  destruct (isGreater s y x) eqn:Hg.
  - constructor; [done |]. constructor; [done |]. rewrite Forall_forall in Hall |- *. intros b Hb. eapply isGreater_trans; [by apply Hall | done].
  - constructor; [by apply IH |]. rewrite Forall_forall in Hall |- *. intros b Hb. rewrite insertAsc_perm, elem_of_cons in Hb.
    destruct Hb as [->|Hb]; [| by apply Hall]. by rewrite (isGreater_total x y), Hg.
Qed.

(** The invariant of the loop: the [n] greatest of those seen. *)
Record topOf (n : nat) (seen rs : list Z) : Prop := {
  to_sorted : ascending rs;
  to_nodup : NoDup rs;
  to_sub : ∀ a, a ∈ rs → a ∈ seen;
  to_length : length rs = Nat.min n (length seen);
  to_greater : ∀ a b, a ∈ seen → a ∉ rs → b ∈ rs → isGreater s b a = true;
}.

Lemma topOf_insert n seen rs x :
  topOf n seen rs → x ∉ seen → topOf n (seen ++ [x]) (topInsert n x rs).
Proof.
  intros [Hs Hnd Hsub Hlen Hg] Hx. assert (Hxr : x ∉ rs) by (intros Hin; by apply Hx, Hsub).
  assert (Hs' := insertAsc_sorted x rs Hxr Hs). assert (Hperm := insertAsc_perm x rs).
  assert (Hnd' : NoDup (insertAsc x rs)) by (rewrite Hperm; by apply NoDup_cons).
  assert (Hin : ∀ a, a ∈ insertAsc x rs ↔ a = x ∨ a ∈ rs) by (intros a; by rewrite Hperm, elem_of_cons).
  assert (Hgreater : ∀ a b, a ∈ seen ++ [x] → a ∉ insertAsc x rs → b ∈ rs → isGreater s b a = true).
  { intros a b Ha Hout Hb. rewrite Hin in Hout. rewrite elem_of_app, list_elem_of_singleton in Ha. apply Hg; [tauto | tauto | done]. }
  unfold topInsert. rewrite insertAsc_length. destruct (Nat.ltb_spec n (S (length rs))) as [Hfull|Hroom].
  - destruct (insertAsc x rs) as [|low r] eqn:Hr; [by apply (f_equal length) in Hr; rewrite insertAsc_length in Hr |]. cbn [tail].
    unfold ascending in Hs'. inversion Hs' as [|? ? Hsr Hall]; subst. rewrite Forall_forall in Hall. apply NoDup_cons in Hnd' as [Hlow Hndr].
    split; [done | done | | |].
    + intros a Ha. assert (Hax : a ∈ low :: r) by (by right). apply Hin in Hax as [->|Hax]; apply elem_of_app; [right; by left | left; by apply Hsub].
    + assert (Hl : length (low :: r) = S (length rs)) by (by rewrite Hperm). cbn in Hl. rewrite length_app. cbn. lia.
    + intros a b Ha Hout Hb. destruct (decide (a = low)) as [->|Hal]; [by apply Hall |].
      assert (Hao : a ∉ low :: r) by (by rewrite not_elem_of_cons).
      assert (Hbx : b ∈ low :: r) by (by right). apply Hin in Hbx as [->|Hbr]; [| by apply (Hgreater a)].
      assert (Hlx : low ≠ x) by (by intros ->). assert (Hlr : low ∈ rs) by (assert (Hll : low ∈ low :: r) by (by left); apply Hin in Hll as [?|?]; done).
      eapply isGreater_trans; [by apply Hall | by apply (Hgreater a)].
  - split; [done | done | | |].
    + intros a [->|Ha]%Hin; apply elem_of_app; [right; by left | left; by apply Hsub].
    + rewrite insertAsc_length, length_app. cbn. lia.
    + intros a b Ha Hout [->|Hb]%Hin; [| by apply (Hgreater a)]. exfalso. rewrite Hin in Hout. rewrite elem_of_app, list_elem_of_singleton in Ha.
      assert (Hall : ∀ c, c ∈ seen → c ∈ rs).
      { assert (Hle : (length seen ≤ length rs)%nat) by lia. intros c Hc. destruct (decide (c ∈ rs)) as [|Hcr]; [done |]. exfalso.
        assert (Hss : (length (c :: rs) ≤ length seen)%nat).
        { apply submseteq_length, NoDup_submseteq; [by apply NoDup_cons |]. intros d [->|Hd]%elem_of_cons; [done | by apply Hsub]. }
        cbn in Hss. lia. }
      destruct Ha as [Ha|Ha]; [apply Hout; right; by apply Hall | tauto].
Qed.

Lemma topOf_all n seen l :
  topOf n [] seen → NoDup l → topOf n l (foldl (λ rs x, topInsert n x rs) seen l).
Proof.
  intros H0 Hnd. assert (Hgen : ∀ seen0 rs, topOf n seen0 rs → (∀ x, x ∈ l → x ∉ seen0) → topOf n (seen0 ++ l) (foldl (λ rs x, topInsert n x rs) rs l)).
  { clear H0. induction l as [|x l IH]; intros seen0 rs Hto Hdisj; cbn [foldl]; [by rewrite app_nil_r |].
    apply NoDup_cons in Hnd as [Hx Hnd]. replace (seen0 ++ x :: l) with ((seen0 ++ [x]) ++ l) by (by rewrite <- app_assoc).
    apply IH; [done | apply topOf_insert; [done | apply Hdisj; by left] |].
    intros y Hy. rewrite elem_of_app, list_elem_of_singleton. intros [?| ->]; [by apply (Hdisj y); [right |] | done]. }
  apply (Hgen [] seen H0). intros x _. apply not_elem_of_nil.
Qed.
End order.

(** ** The list operations *)
Lemma roundChain_intro m head count s rs :
  NoDup rs → 0 ∉ rs → head = link rs 0 → count = Z.of_nat (length rs) → chain (nextIn m) rs → (∀ a, a ∉ rs → nextIn m a = 0) →
  roundChain (setRound m head count s) rs.
Proof. intros. by split. Qed.

Lemma insertAfter_run s l1 p l2 x :
  roundChain s (l1 ++ p :: l2) → x ∉ l1 ++ p :: l2 → x ≠ 0 →
  ∃ m, insertAfter p x s = (Ok tt, setRound m (c_roundValidatorsHead s) (c_roundValidatorsCount s + 1) s) ∧
    roundChain (setRound m (c_roundValidatorsHead s) (c_roundValidatorsCount s + 1) s) (l1 ++ p :: x :: l2).
Proof.
  intros Hs Hx Hx0. exists (<[p := x]> (<[x := roundNext s p]> (c_roundValidatorsMap s))). split.
  - unfold insertAfter. erewrite M_bind_run by reflexivity. erewrite M_bind_run by reflexivity. erewrite M_bind_run by reflexivity.
    reflexivity.
  - assert (Hperm : l1 ++ p :: x :: l2 ≡ₚ x :: l1 ++ p :: l2) by (rewrite <- !Permutation_middle; apply Permutation_swap).
    apply roundChain_intro.
    + rewrite Hperm. apply NoDup_cons. split; [done | apply Hs].
    + rewrite Hperm, elem_of_cons. intros [?|?]; [done | by apply (rc_zero _ _ Hs)].
    + rewrite (rc_head _ _ Hs). by destruct l1.
    + rewrite (rc_count _ _ Hs), Hperm. cbn [length]. lia.
    + apply chain_insertAfter; [done | apply Hs | done | apply Hs].
    + intros a Ha. rewrite Hperm, not_elem_of_cons in Ha. destruct Ha as [Hax Ha]. rewrite nextIn_insert, decide_False.
      2:{ intros ->. apply Ha, elem_of_app. right. by left. }
      rewrite nextIn_insert, decide_False by done. by apply (rc_out _ _ Hs).
Qed.

Lemma chain_middle next l1 p l2 : chain next (l1 ++ p :: l2) → next p = link l2 0.
Proof. induction l1 as [|a l1 IH]; cbn; intros [Ha Hc]; [done | by apply IH]. Qed.

Lemma insertLoop_run s x l2 : ∀ fuel l1 p,
  roundChain s (l1 ++ p :: l2) → x ∉ l1 ++ p :: l2 → x ≠ 0 → (length l2 ≤ fuel)%nat →
  ∃ m, insertLoop fuel p (link l2 0) x s = (Ok tt, setRound m (c_roundValidatorsHead s) (c_roundValidatorsCount s + 1) s) ∧
    roundChain (setRound m (c_roundValidatorsHead s) (c_roundValidatorsCount s + 1) s) (l1 ++ p :: insertAsc s x l2).
Proof.
  induction l2 as [|y l2 IH]; intros fuel l1 p Hs Hx Hx0 Hf.
  - destruct (insertAfter_run s l1 p [] x Hs Hx Hx0) as (m & Hrun & Hc). exists m. split; [| done].
    destruct fuel; cbn [insertLoop]; by erewrite M_bind_run by reflexivity.
  - assert (Hy0 : (link (y :: l2) 0 =? 0) = false).
    { apply Z.eqb_neq. cbn. intros ->. apply (rc_zero _ _ Hs), elem_of_app. right. right. by left. }
    change (link (y :: l2) 0) with y in *. cbn [insertAsc]. destruct (isGreater s y x) eqn:Hg.
    + destruct (insertAfter_run s l1 p (y :: l2) x Hs Hx Hx0) as (m & Hrun & Hc). exists m. split; [| done].
      destruct fuel; cbn [insertLoop]; erewrite M_bind_run by reflexivity; by rewrite Hy0, Hg.
    + destruct fuel as [|fuel]; [cbn in Hf; lia |]. cbn [length] in Hf. cbn [insertLoop]. erewrite M_bind_run by reflexivity. rewrite Hy0, Hg.
      assert (Happ : l1 ++ p :: y :: l2 = (l1 ++ [p]) ++ y :: l2) by (by rewrite <- app_assoc). rewrite Happ in Hs, Hx.
      rewrite (chain_middle _ _ _ _ (rc_chain _ _ Hs)).
      destruct (IH fuel (l1 ++ [p]) y Hs Hx Hx0) as (m & Hrun & Hc); [lia |]. exists m. split; [exact Hrun |].
      rewrite <- app_assoc in Hc. exact Hc.
Qed.

Lemma dropHead_run s a rs :
  roundChain s (a :: rs) →
  ∃ m, dropHead s = (Ok tt, setRound m (link rs 0) (c_roundValidatorsCount s - 1) s) ∧
    roundChain (setRound m (link rs 0) (c_roundValidatorsCount s - 1) s) rs.
Proof.
  intros Hs. assert (Ha := rc_head _ _ Hs). cbn in Ha. assert (Hc := rc_chain _ _ Hs). cbn [chain] in Hc. destruct Hc as [Hna Hc].
  assert (Hnd := rc_nodup _ _ Hs). apply NoDup_cons in Hnd as [Hout Hnd]. exists (delete a (c_roundValidatorsMap s)). split.
  - unfold dropHead. erewrite M_bind_run by reflexivity. rewrite Ha. erewrite M_bind_run by reflexivity. rewrite Hna, Ha. reflexivity.
  - assert (Hdel : ∀ b, nextIn (delete a (c_roundValidatorsMap s)) b = if decide (a = b) then 0 else roundNext s b).
    { intros b. unfold nextIn. rewrite lookup_delete. by case_decide. }
    apply roundChain_intro; [done | | done | | |].
    + intros H0. apply (rc_zero _ _ Hs). by right.
    + rewrite (rc_count _ _ Hs). cbn [length]. lia.
    + eapply chain_ext; [| exact Hc]. intros b Hb. rewrite Hdel, decide_False; [done | by intros ->].
    + intros b Hb. rewrite Hdel. case_decide; [done |]. apply (rc_out _ _ Hs). by rewrite not_elem_of_cons.
Qed.

Lemma insertHead_run s rs x :
  roundChain s rs → x ∉ rs → x ≠ 0 →
  ∃ m, insertHead x s = (Ok tt, setRound m x (c_roundValidatorsCount s + 1) s) ∧
    roundChain (setRound m x (c_roundValidatorsCount s + 1) s) (x :: rs).
Proof.
  intros Hs Hx Hx0. exists (<[x := c_roundValidatorsHead s]> (c_roundValidatorsMap s)). split.
  - unfold insertHead. erewrite M_bind_run by reflexivity. erewrite M_bind_run by reflexivity. erewrite M_bind_run by reflexivity.
    reflexivity.
  - apply roundChain_intro.
    + apply NoDup_cons. split; [done | apply Hs].
    + rewrite elem_of_cons. intros [?|?]; [done | by apply (rc_zero _ _ Hs)].
    + done.
    + rewrite (rc_count _ _ Hs). cbn [length]. lia.
    + cbn [chain]. split; [rewrite nextIn_insert, decide_True by done; apply Hs |].
      eapply chain_ext; [| apply (rc_chain _ _ Hs)]. intros b Hb. rewrite nextIn_insert, decide_False; [done | by intros ->].
    + intros b Hb. rewrite not_elem_of_cons in Hb. rewrite nextIn_insert, decide_False by naive_solver. apply (rc_out _ _ Hs). tauto.
Qed.

Lemma setRound_twice m h c m' h' c' s : setRound m' h' c' (setRound m h c s) = setRound m' h' c' s.
Proof. by destruct s. Qed.

(** Inserting and cutting. *)
Lemma insertValidator_run s y rs x n :
  roundChain s (y :: rs) → x ∉ y :: rs → x ≠ 0 →
  ∃ m h c, insertValidator x (Z.of_nat n) s = (Ok tt, setRound m h c s) ∧ roundChain (setRound m h c s) (topInsert s n x (y :: rs)).
Proof.
  intros Hs Hx Hx0. unfold insertValidator. erewrite M_bind_run by reflexivity. assert (Hy := rc_head _ _ Hs). cbn in Hy.
  assert (Hins : ∃ m h, (if isGreater s (c_roundValidatorsHead s) x then insertHead x
      else insertLoop (Z.to_nat (c_roundValidatorsCount s)) (c_roundValidatorsHead s) (roundNext s (c_roundValidatorsHead s)) x) s =
        (Ok tt, setRound m h (c_roundValidatorsCount s + 1) s) ∧
      roundChain (setRound m h (c_roundValidatorsCount s + 1) s) (insertAsc s x (y :: rs))).
  { rewrite Hy. cbn [insertAsc]. destruct (isGreater s y x).
    - destruct (insertHead_run s (y :: rs) x Hs Hx Hx0) as (m & Hrun & Hc). exists m, x. split; [exact Hrun | exact Hc].
    - assert (Hc := rc_chain _ _ Hs). cbn [chain] in Hc. destruct Hc as [-> _].
      destruct (insertLoop_run s x rs (Z.to_nat (c_roundValidatorsCount s)) [] y Hs Hx Hx0) as (m & Hrun & Hc).
      { rewrite (rc_count _ _ Hs). cbn [length]. lia. }
      rewrite Hy in Hrun, Hc. exists m, y. split; [exact Hrun | exact Hc]. }
  destruct Hins as (m & h & Hrun & Hc). rewrite (M_bind_run _ _ _ _ _ Hrun). erewrite M_bind_run by reflexivity.
  set (s1 := setRound m h (c_roundValidatorsCount s + 1) s) in *. unfold topInsert. assert (Hcount := rc_count _ _ Hc).
  destruct (Nat.ltb_spec n (length (insertAsc s x (y :: rs)))) as [Hfull|Hroom].
  - rewrite (proj2 (Z.ltb_lt _ _)) by lia. cbn [when].
    destruct (insertAsc s x (y :: rs)) as [|a r] eqn:Hr; [cbn in Hfull; lia |].
    destruct (dropHead_run s1 a r Hc) as (m' & Hrun' & Hc'). unfold s1 in Hrun', Hc'. rewrite setRound_twice in Hrun', Hc'. eauto.
  - rewrite (proj2 (Z.ltb_ge _ _)) by lia. cbn [when]. unfold s1 in *. eauto 6.
Qed.

Lemma considerValidator_run s rs x n :
  roundChain s rs → x ∉ rs → x ≠ 0 → (1 ≤ n)%nat → (length rs ≤ n)%nat → ascending s rs → canBecomeActiveValidator s x = true →
  ∃ m h c, considerValidator (Z.of_nat n) x s = (Ok tt, setRound m h c s) ∧ roundChain (setRound m h c s) (topInsert s n x rs).
Proof.
  intros Hs Hx Hx0 Hn Hlen Hasc Hcan. unfold considerValidator. erewrite M_bind_run by reflexivity. rewrite Hcan. cbn [negb].
  assert (Hsame : s = setRound (c_roundValidatorsMap s) (c_roundValidatorsHead s) (c_roundValidatorsCount s) s) by (by destruct s).
  destruct rs as [|y rs].
  - rewrite (rc_head _ _ Hs). cbn [link Z.eqb]. exists (c_roundValidatorsMap s), x, 1. split; [by destruct s |].
    unfold topInsert. cbn [insertAsc length]. destruct (Nat.ltb_spec n 1); [lia |].
    apply roundChain_intro; [apply NoDup_singleton | by rewrite list_elem_of_singleton | done | done | |].
    + cbn. split; [| done]. by apply (rc_out _ _ Hs), not_elem_of_nil.
    + intros a _. by apply (rc_out _ _ Hs), not_elem_of_nil.
  - assert (Hy := rc_head _ _ Hs). change (link (y :: rs) 0) with y in Hy. assert (Hcount := rc_count _ _ Hs).
    assert (Hy0 : (c_roundValidatorsHead s =? 0) = false).
    { apply Z.eqb_neq. rewrite Hy. intros ->. apply (rc_zero _ _ Hs). by left. }
    rewrite Hy0. destruct (Z.ltb_spec (c_roundValidatorsCount s) (Z.of_nat n)) as [Hroom|Hfull]; [by apply insertValidator_run |].
    rewrite Hy. destruct (isGreater s x y) eqn:Hg; [by apply insertValidator_run |].
    do 3 eexists. split; [rewrite Hsame at 1; reflexivity |]. rewrite <- Hsame.
    assert (Hxy : x ≠ y) by (intros ->; apply Hx; by left).
    unfold topInsert. cbn [insertAsc]. rewrite (isGreater_total s y x), Hg by done. cbn [negb].
    destruct (Nat.ltb_spec n (length (x :: y :: rs))); [done | cbn [length] in *; lia].
Qed.

(** ** Clearing the list *)
Definition withMap (m : gmap Z Z) (s : ConsensusV1) : ConsensusV1 := s <| c_roundValidatorsMap := m |>.

Lemma deleteLoop_run rs : ∀ fuel s,
  chain (roundNext s) rs → 0 ∉ rs → NoDup rs → (length rs ≤ fuel)%nat →
  ∃ m, deleteLoop fuel (link rs 0) s = (Ok tt, withMap m s) ∧ ∀ a, nextIn m a = if decide (a ∈ rs) then 0 else roundNext s a.
Proof.
  induction rs as [|x rs IH]; intros fuel s Hc H0 Hnd Hf.
  - exists (c_roundValidatorsMap s). split; [by destruct fuel, s |]. intros a. rewrite decide_False by apply not_elem_of_nil. done.
  - change (link (x :: rs) 0) with x. rewrite not_elem_of_cons in H0. destruct H0 as [Hx0 H0]. apply NoDup_cons in Hnd as [Hx Hnd].
    destruct fuel as [|fuel]; [cbn in Hf; lia |]. cbn [deleteLoop]. rewrite (proj2 (Z.eqb_neq x 0)) by congruence.
    erewrite M_bind_run by reflexivity. erewrite M_bind_run by reflexivity. cbn [chain] in Hc. destruct Hc as [Hnx Hc]. rewrite Hnx.
    set (s1 := s <| c_roundValidatorsMap ::= delete x |>).
    assert (Hdel : ∀ b, roundNext s1 b = if decide (x = b) then 0 else roundNext s b).
    { intros b. unfold roundNext, s1. cbn -[delete]. rewrite lookup_delete. by case_decide. }
    destruct (IH fuel s1) as (m & Hrun & Hm); [| done | done | cbn in Hf; lia |].
    + eapply chain_ext; [| exact Hc]. intros b Hb. rewrite Hdel, decide_False; [done | by intros ->].
    + exists m. split; [rewrite Hrun; by destruct s |]. intros a. rewrite Hm, Hdel.
      destruct (decide (a ∈ rs)) as [Hin|Hout]; [by rewrite decide_True by (by right) |].
      destruct (decide (x = a)) as [->|Hne]; [by rewrite decide_True by (by left) |].
      rewrite decide_False; [done |]. rewrite elem_of_cons. naive_solver.
Qed.

Lemma deleteRound_run s rs :
  roundChain s rs →
  ∃ m, (deleteRoundValidators;; modify (λ s, s <| c_roundValidatorsHead := 0 |>)) s = (Ok tt, setRound m 0 0 s) ∧ roundChain (setRound m 0 0 s) [].
Proof.
  intros Hs. destruct (deleteLoop_run rs (Z.to_nat (c_roundValidatorsCount s)) s) as (m & Hrun & Hm);
    [apply Hs | apply Hs | apply Hs | rewrite (rc_count _ _ Hs); lia |].
  exists m. split.
  - unfold deleteRoundValidators. unfold mbind at 1, M_bind at 1. erewrite M_bind_run by reflexivity.
    rewrite (rc_head _ _ Hs), (M_bind_run _ _ _ _ _ Hrun). by destruct s.
  - apply roundChain_intro; [apply NoDup_nil_2 | apply not_elem_of_nil | done | done | done |].
    intros a _. rewrite Hm. destruct (decide (a ∈ rs)); [done | by apply (rc_out _ _ Hs)].
Qed.

(** ** Listing and shuffling *)
Lemma materialize_chain s rs n : chain (roundNext s) rs → (n ≤ length rs)%nat → materialize s n (link rs 0) = take n rs.
Proof.
  revert n. induction rs as [|a rs IH]; intros [|n] Hc Hn; cbn [length] in *; try done; [lia |].
  cbn [chain] in Hc. destruct Hc as [Ha Hc]. cbn [materialize take]. change (link (a :: rs) 0) with a. f_equal. rewrite Ha. apply IH; [done | lia].
Qed.

Lemma swap_perm l i j : (i < length l)%nat → (j < length l)%nat → swap l i j ≡ₚ l.
Proof.
  intros [a Ha]%lookup_lt_is_Some [b Hb]%lookup_lt_is_Some. unfold swap. rewrite Ha, Hb. cbn [default from_option].
  destruct (decide (i = j)) as [->|Hne].
  - assert (a = b) as -> by congruence. cbn. unfold id. rewrite list_insert_insert_eq, list_insert_id; done.
  - unfold id. assert (Hj : <[i := b]> l !! j = Some b) by (by rewrite list_lookup_insert_ne).
    assert (Hi : l !! i = Some a) by done.
    apply (inj (cons b)).
    assert (H1 : b :: <[j := a]> (<[i := b]> l) ≡ₚ a :: <[i := b]> l).
    { clear -Hj. revert Hj. generalize (<[i := b]> l). intros l' Hj. revert j Hj. induction l' as [|x l' IH]; intros [|j] Hj; [done | done | |].
      - injection Hj as ->. cbn. apply Permutation_swap.
      - change (<[S j := a]> (x :: l')) with (x :: <[j := a]> l'). rewrite Permutation_swap, (IH j Hj). apply Permutation_swap. }
    rewrite H1. clear -Hi. revert i Hi. induction l as [|x l IH]; intros [|i] Hi; [done | done | |].
    + injection Hi as ->. cbn. apply Permutation_swap.
    + change (<[S i := b]> (x :: l)) with (x :: <[i := b]> l). rewrite Permutation_swap, (IH i Hi). apply Permutation_swap.
Qed.

Lemma shuffleLoop_perm `{EvmCall} `{ContractCrypto} i : ∀ l, (i < length l)%nat → shuffleLoop i l ≡ₚ l.
Proof.
  induction i as [|i IH]; intros l Hi; cbn [shuffleLoop]; [done |].
  set (j := Z.to_nat _). assert (Hj : (j < length l)%nat).
  { unfold j. assert (Hm := Z.mod_pos_bound (be_decode (keccak (encodePacked prevrandao (Z.of_nat (S i))))) (Z.of_nat (S i) + 1)). lia. }
  rewrite IH; [by apply swap_perm |]. rewrite (swap_perm l (S i) j Hi Hj). lia.
Qed.
Lemma shuffle_perm `{EvmCall} `{ContractCrypto} l : shuffleMem l ≡ₚ l.
Proof. destruct l as [|x l]; [done |]. apply shuffleLoop_perm. cbn. lia. Qed.

(** ** The selection *)
Lemma considerAll_run s n l : ∀ m h c rs seen,
  roundChain (setRound m h c s) rs → topOf s n seen rs → NoDup (seen ++ l) → (1 ≤ n)%nat →
  (∀ x, x ∈ l → x ≠ 0 ∧ canBecomeActiveValidator s x = true) →
  ∃ m' h' c' rs', forEach l (considerValidator (Z.of_nat n)) (setRound m h c s) = (Ok tt, setRound m' h' c' s) ∧
    roundChain (setRound m' h' c' s) rs' ∧ topOf s n (seen ++ l) rs'.
Proof.
  induction l as [|x l IH]; intros m h c rs seen Hc Hto Hnd Hn Hall; cbn [forEach].
  - rewrite app_nil_r. exists m, h, c, rs. done.
  - destruct (Hall x) as [Hx0 Hcan]; [by left |].
    assert (Hx : x ∉ seen). { apply NoDup_app in Hnd as (_ & Hd & _). intros Hin. apply (Hd x Hin). by left. }
    destruct (considerValidator_run (setRound m h c s) rs x n Hc) as (m1 & h1 & c1 & Hrun & Hc1); try done.
    { intros Hin. by apply Hx, (to_sub _ _ _ _ Hto). }
    { rewrite (to_length _ _ _ _ Hto). lia. }
    { apply (to_sorted _ _ _ _ Hto). }
    rewrite (M_bind_run _ _ _ _ _ Hrun). rewrite setRound_twice in Hc1 |- *.
    destruct (IH m1 h1 c1 (topInsert s n x rs) (seen ++ [x])) as (m' & h' & c' & rs' & Hrun' & Hc' & Hto').
    + exact Hc1.
    + by apply topOf_insert.
    + by rewrite <- app_assoc.
    + done.
    + intros y Hy. apply Hall. by right.
    + exists m', h', c', rs'. rewrite <- app_assoc in Hto'. done.
Qed.

(** What a round leaves alone. *)
Record sameVotes (s s' : ConsensusV1) : Prop := {
  se_owner : c_owner s' = c_owner s;
  se_data : c_validatorsData s' = c_validatorsData s;
  se_has : c_hasValidator s' = c_hasValidator s;
  se_keys : c_blsPublicKeys s' = c_blsPublicKeys s;
  se_validators : c_validators s' = c_validators s;
  se_resigned : c_resignedValidatorsCount s' = c_resignedValidatorsCount s;
  se_active : c_activeValidators s' = c_activeValidators s;
  se_index : c_activeValidatorIndex s' = c_activeValidatorIndex s;
  se_voters : c_voters s' = c_voters s;
  se_head : c_votersHead s' = c_votersHead s;
  se_tail : c_votersTail s' = c_votersTail s;
  se_count : c_votersCount s' = c_votersCount s;
}.

Lemma calculate_run `{EvmCall} `{ContractCrypto} s rs0 n :
  activeOk s → roundChain s rs0 → msg_sender = c_owner s → (1 ≤ n)%nat →
  if decide (length (c_activeValidators s) < n)%nat then
    (calculateRoundValidators (Z.of_nat n) s).1 = Throw (NamedError "InsufficientActiveValidators")
  else
    ∃ s' rs, calculateRoundValidators (Z.of_nat n) s = (Ok tt, s') ∧ topOf s n (c_activeValidators s) rs ∧ roundChain s' rs ∧
      c_roundValidators s' ≡ₚ rs ∧ c_rounds s' = c_rounds s ++ [(λ a, (a, vd_voteBalance (dataOf s a))) <$> c_roundValidators s'] ∧
      sameVotes s s'.
Proof.
  intros Ha Hc Howner Hn. unfold calculateRoundValidators, onlyOwner.
  assert (Hown : (s ← get; require (msg_sender =? c_owner s) "OwnableUnauthorizedAccount") s = (Ok tt, s)).
  { erewrite M_bind_run by reflexivity. by rewrite Howner, Z.eqb_refl. }
  rewrite (M_bind_run _ _ _ _ _ Hown). rewrite (proj2 (Z.eqb_neq (Z.of_nat n) 0)) by lia. cbn [negb require].
  erewrite M_bind_run by reflexivity. erewrite M_bind_run by reflexivity.
  set (s1 := s <| c_minValidators := Z.of_nat n |>). assert (Hc1 : roundChain s1 rs0) by (split; apply Hc).
  destruct (deleteRound_run s1 rs0 Hc1) as (m & Hrun & Hnil).
  assert (Hassoc : ∀ (k : C unit), (deleteRoundValidators;; (modify (λ s, s <| c_roundValidatorsHead := 0 |>);; k)) s1 = k (setRound m 0 0 s1)).
  { intros k. unfold mbind, M_bind in Hrun |- *. destruct (deleteRoundValidators s1) as [[[]|e] s2]; [| done]. unfold modify in *.
    apply (f_equal snd) in Hrun. cbn [snd] in Hrun. by rewrite Hrun. }
  rewrite Hassoc. erewrite M_bind_run by reflexivity.
  assert (Hto : topOf s1 n [] []).
  { split; [constructor | apply NoDup_nil_2 | done | by rewrite Nat.min_0_r | by intros a b ?%elem_of_nil]. }
  destruct (considerAll_run s1 n (c_activeValidators s1) m 0 0 [] [] Hnil Hto) as (m' & h' & c' & rs & Hall & Hc' & Hto');
    [apply (ac_nodup _ Ha) | done | |].
  { intros x Hx. apply (ac_active _ Ha) in Hx as [Hreg Hcan]. split; [| exact Hcan]. intros ->. by rewrite (ac_zero _ Ha) in Hreg. }
  change (c_activeValidators (setRound m 0 0 s1)) with (c_activeValidators s1). rewrite (M_bind_run _ _ _ _ _ Hall).
  erewrite M_bind_run by reflexivity. rewrite (rc_count _ _ Hc'). rewrite app_nil_l in Hto'.
  assert (Hlen := to_length _ _ _ _ Hto'). change (c_activeValidators s1) with (c_activeValidators s) in *.
  destruct (decide (length (c_activeValidators s) < n)%nat) as [Hfew|Hmany].
  - rewrite (proj2 (Z.ltb_lt _ _)) by lia. done.
  - assert (Hrs : length rs = n) by lia. rewrite (proj2 (Z.ltb_ge _ _)) by lia. cbn [negb require]. erewrite M_bind_run by reflexivity.
    rewrite (rc_head _ _ Hc'), Nat2Z.id, (materialize_chain _ rs n (rc_chain _ _ Hc')), take_ge by lia.
    do 2 eexists. split; [reflexivity |]. split; [split; apply Hto' |]. split; [| split; [apply shuffle_perm | split; [done | by split]]].
    split; apply Hc'.
Qed.
