(* ===== verification/ElectionTheorems.v ===== *)
(** * What the election contract promises

    [electionOk] joins the invariants of the contract's parts: the linked list of
    voters and the sums it stands for, the array of active validators, the list of a
    round, the registry with its count of resigned validators, the BLS keys and the
    rounds recorded.  Every call keeps it, so it holds after any sequence of calls
    from the state the deployment leaves. *)
From S2P Require Import Prelude Bytes Election ElectionVotes ElectionRounds.
#[local] Open Scope Z_scope.

(** ** The registry, the keys and the rounds *)
Definition keyOf (s : ConsensusV1) (a : Z) : list byte := vd_blsPublicKey (dataOf s a).
Definition resignedOne (s : ConsensusV1) (a : Z) : Z := if vd_isResigned (dataOf s a) then 1 else 0.

Record registryOk (s : ConsensusV1) : Prop := {
  rg_nodup : NoDup (c_validators s);
  rg_elem : ∀ a, a ∈ c_validators s ↔ isValidatorRegistered s a = true;
  rg_resigned : c_resignedValidatorsCount s = sumOf (resignedOne s) (c_validators s);
}.

(** No two validators have the same key. *)
Record keysOk `{ContractCrypto} (s : ConsensusV1) : Prop := {
  ky_known : ∀ a, keyOf s a ≠ [] → keccak (keyOf s a) ∈ c_blsPublicKeys s;
  ky_unique : ∀ a b, keyOf s a ≠ [] → keyOf s b ≠ [] → keccak (keyOf s a) = keccak (keyOf s b) → a = b;
}.

Definition roundsOk (s : ConsensusV1) : Prop := Forall (λ round : list (Z * Z), NoDup round.*1) (c_rounds s).

Record electionOk `{ContractCrypto} (s : ConsensusV1) : Prop := {
  el_votes : ∃ l, votersOk s l;
  el_active : activeOk s;
  el_round : ∃ rs, roundChain s rs;
  el_registry : registryOk s;
  el_keys : keysOk s;
  el_rounds : roundsOk s;
}.

(** ** A call on the registry changes one validator *)
Record touches (addr : Z) (s s' : ConsensusV1) : Prop := {
  tc_voters : c_voters s' = c_voters s;
  tc_head : c_votersHead s' = c_votersHead s;
  tc_tail : c_votersTail s' = c_votersTail s;
  tc_count : c_votersCount s' = c_votersCount s;
  tc_map : c_roundValidatorsMap s' = c_roundValidatorsMap s;
  tc_roundHead : c_roundValidatorsHead s' = c_roundValidatorsHead s;
  tc_roundCount : c_roundValidatorsCount s' = c_roundValidatorsCount s;
  tc_rounds : c_rounds s' = c_rounds s;
  tc_data : ∀ w, w ≠ addr → dataOf s' w = dataOf s w;
  tc_sums : vd_voteBalance (dataOf s' addr) = vd_voteBalance (dataOf s addr) ∧ vd_votersCount (dataOf s' addr) = vd_votersCount (dataOf s addr);
  tc_has : ∀ a, isValidatorRegistered s' a = true ↔ a = addr ∨ isValidatorRegistered s a = true;
}.

(** An address nobody could vote for has no votes. *)
Lemma unregistered_sums s l w :
  votersOk s l → isValidatorRegistered s w = false → vd_voteBalance (dataOf s w) = 0 ∧ vd_votersCount (dataOf s w) = 0.
Proof.
  intros Hs Hw. rewrite (vt_balance _ _ Hs), (vt_votersCount _ _ Hs).
  assert (Hno : ∀ a, a ∈ l → (vo_validator (voteIn (c_voters s) a) =? w) = false).
  { intros a [i Hi]%list_elem_of_lookup_1. destruct (listed_voter s l i a Hs Hi) as (v & Hv & _ & _ & _ & _ & Hreg & _).
    change (voteIn (c_voters s) a) with (voteOf s a). rewrite Hv. apply Z.eqb_neq. intros <-. by rewrite Hreg in Hw. }
  assert (Hz : sumOf (λ _, 0) l = 0) by (clear; by induction l).
  split; (etransitivity; [| exact Hz]); apply sumOf_ext; intros a Ha; unfold balanceFor, countFor; by rewrite (Hno a Ha).
Qed.

Section touches.
Context (addr : Z) (s s' : ConsensusV1) (Ht : touches addr s s').

Lemma touches_votes l : votersOk s l → votersOk s' l.
Proof.
  intros Hs. assert (Hsums : ∀ w, vd_voteBalance (dataOf s' w) = vd_voteBalance (dataOf s w) ∧ vd_votersCount (dataOf s' w) = vd_votersCount (dataOf s w)).
  { intros w. destruct (decide (w = addr)) as [->|Hne]; [apply Ht |]. by rewrite (tc_data _ _ _ Ht w Hne). }
  split; rewrite ?(tc_voters _ _ _ Ht), ?(tc_head _ _ _ Ht), ?(tc_tail _ _ _ Ht), ?(tc_count _ _ _ Ht); try apply Hs.
  - intros i a Hi. destruct (vt_entry _ _ Hs i a Hi) as (v & ? & ? & ? & ? & Hreg & ?). exists v. split_and!; try done.
    apply (tc_has _ _ _ Ht). by right.
  - intros w. destruct (Hsums w) as [-> _]. apply Hs.
  - intros w. destruct (Hsums w) as [_ ->]. apply Hs.
Qed.

Lemma touches_round rs : roundChain s rs → roundChain s' rs.
Proof.
  intros Hs. split; unfold roundNext; rewrite ?(tc_map _ _ _ Ht), ?(tc_roundHead _ _ _ Ht), ?(tc_roundCount _ _ _ Ht); apply Hs.
Qed.

Lemma touches_rounds : roundsOk s → roundsOk s'.
Proof. unfold roundsOk. by rewrite (tc_rounds _ _ _ Ht). Qed.

Lemma touches_other a : a ≠ addr →
  isValidatorRegistered s' a = isValidatorRegistered s a ∧ canBecomeActiveValidator s' a = canBecomeActiveValidator s a.
Proof.
  intros Hne. unfold canBecomeActiveValidator. rewrite (tc_data _ _ _ Ht a Hne). split; [| done].
  apply eq_true_iff_eq. rewrite (tc_has _ _ _ Ht). naive_solver.
Qed.

Lemma touches_zero : addr ≠ 0 → isValidatorRegistered s 0 = false → isValidatorRegistered s' 0 = false.
Proof. intros Ha Hz. by rewrite (proj1 (touches_other 0 (not_eq_sym Ha))). Qed.

Lemma activeOk_elem a :
  (a ∈ c_activeValidators s' ↔ a ∈ c_activeValidators s) → a ≠ addr → activeOk s →
  a ∈ c_activeValidators s' ↔ isValidatorRegistered s' a = true ∧ canBecomeActiveValidator s' a = true.
Proof. intros Hiff Hne Hs. rewrite Hiff. destruct (touches_other a Hne) as [-> ->]. apply Hs. Qed.

(** The validator stays in the array, or out of it. *)
Lemma activeOk_keep :
  activeOk s → addr ≠ 0 → c_activeValidators s' = c_activeValidators s → c_activeValidatorIndex s' = c_activeValidatorIndex s →
  (addr ∈ c_activeValidators s ↔ canBecomeActiveValidator s' addr = true) → activeOk s'.
Proof.
  intros Hs Ha Hact Hidx Haddr. split; [rewrite Hact; apply Hs | | | by apply touches_zero; [| apply Hs]].
  - intros i a. unfold activeIndex. rewrite Hact, Hidx. apply Hs.
  - intros a. destruct (decide (a = addr)) as [->|Hne]; [| apply activeOk_elem; [by rewrite Hact | done | done]].
    rewrite Hact, Haddr, (tc_has _ _ _ Ht). naive_solver.
Qed.

(** It is appended. *)
Lemma activeOk_add :
  activeOk s → addr ≠ 0 → addr ∉ c_activeValidators s → c_activeValidators s' = c_activeValidators s ++ [addr] →
  c_activeValidatorIndex s' = <[addr := Z.of_nat (length (c_activeValidators s))]> (c_activeValidatorIndex s) →
  canBecomeActiveValidator s' addr = true → activeOk s'.
Proof.
  intros Hs Ha Hout Hact Hidx Hcan. split; [| | | by apply touches_zero; [| apply Hs]].
  - rewrite Hact. apply NoDup_app. split_and!; [apply Hs | | apply NoDup_singleton].
    intros a Hin ->%list_elem_of_singleton. done.
  - intros i a Hi. unfold activeIndex. rewrite Hidx. rewrite Hact in Hi. by apply addActive_index.
  - intros a. destruct (decide (a = addr)) as [->|Hne].
    + rewrite Hact, elem_of_app, list_elem_of_singleton, (tc_has _ _ _ Ht). naive_solver.
    + apply activeOk_elem; [| done | done]. rewrite Hact, elem_of_app, list_elem_of_singleton. naive_solver.
Qed.

(** It is taken out. *)
Lemma activeOk_remove i :
  activeOk s → addr ≠ 0 → c_activeValidators s !! i = Some addr → c_activeValidators s' = removedActive s i →
  c_activeValidatorIndex s' = removedIndex s i addr → canBecomeActiveValidator s' addr = false → activeOk s'.
Proof.
  intros Hs Ha Hi Hact Hidx Hcan. split; [| | | by apply touches_zero; [| apply Hs]].
  - rewrite Hact. by eapply removedActive_nodup.
  - intros j a Hj. unfold activeIndex. rewrite Hidx. rewrite Hact in Hj. by eapply removedIndex_ok.
  - intros a. destruct (decide (a = addr)) as [->|Hne].
    + rewrite Hact, (removedActive_elem s i addr addr Hs Hi), Hcan. naive_solver.
    + apply activeOk_elem; [| done | done]. rewrite Hact, (removedActive_elem s i addr a Hs Hi). naive_solver.
Qed.

(** A new registration. *)
Lemma registryOk_new :
  registryOk s → isValidatorRegistered s addr = false → c_validators s' = c_validators s ++ [addr] →
  c_resignedValidatorsCount s' = c_resignedValidatorsCount s + resignedOne s' addr → registryOk s'.
Proof.
  intros Hs Hout Hval Hres. assert (Hno : addr ∉ c_validators s) by (rewrite (rg_elem _ Hs), Hout; done). split; rewrite Hval.
  - apply NoDup_app. split_and!; [apply Hs | | apply NoDup_singleton]. intros a Hin ->%list_elem_of_singleton. done.
  - intros a. rewrite elem_of_app, list_elem_of_singleton, (rg_elem _ Hs), (tc_has _ _ _ Ht). naive_solver.
  - rewrite Hres, (rg_resigned _ Hs), sumOf_app. cbn [sumOf]. rewrite Z.add_0_r. f_equal. apply sumOf_ext.
    intros a Ha. unfold resignedOne. rewrite (tc_data _ _ _ Ht); [done | by intros ->].
Qed.

Lemma sumOf_change f g l a :
  NoDup l → a ∈ l → (∀ b, b ≠ a → g b = f b) → sumOf g l = sumOf f l - f a + g a.
Proof.
  intros Hnd [i Hi]%list_elem_of_lookup_1 Hsame. rewrite (sumOf_delete f l i a Hi), (sumOf_delete g l i a Hi).
  rewrite (sumOf_ext g f (delete i l)); [lia |]. intros b [j (k & Hk & Hne & _)%lookup_delete_Some]%list_elem_of_lookup_1.
  apply Hsame. intros ->. apply Hne. by eapply NoDup_lookup.
Qed.

Lemma registryOk_same :
  registryOk s → isValidatorRegistered s addr = true → c_validators s' = c_validators s →
  c_resignedValidatorsCount s' = c_resignedValidatorsCount s - resignedOne s addr + resignedOne s' addr → registryOk s'.
Proof.
  intros Hs Hreg Hval Hres. split; rewrite Hval.
  - apply Hs.
  - intros a. rewrite (rg_elem _ Hs), (tc_has _ _ _ Ht). naive_solver.
  - rewrite Hres, (rg_resigned _ Hs), (sumOf_change (resignedOne s) (resignedOne s') _ addr); [done | apply Hs | by apply Hs |].
    intros b Hb. unfold resignedOne. by rewrite (tc_data _ _ _ Ht).
Qed.

(** The key stays, or none is set, or it is a new one. *)
Lemma keysOk_touched `{ContractCrypto} :
  keysOk s → c_blsPublicKeys s ⊆ c_blsPublicKeys s' →
  keyOf s' addr = keyOf s addr ∨ keyOf s' addr = [] ∨ keccak (keyOf s' addr) ∉ c_blsPublicKeys s ∧ keccak (keyOf s' addr) ∈ c_blsPublicKeys s' →
  keysOk s'.
Proof.
  intros Hs Hsub Hkey. assert (Hoth : ∀ a, a ≠ addr → keyOf s' a = keyOf s a) by (intros a Ha; unfold keyOf; by rewrite (tc_data _ _ _ Ht)).
  split.
  - intros a Ha. destruct (decide (a = addr)) as [->|Hne].
    + destruct Hkey as [Hk|[Hk|[_ Hk]]]; [| done | done]. rewrite Hk in *. by apply Hsub, (ky_known _ Hs).
    + rewrite Hoth in * by done. by apply Hsub, (ky_known _ Hs).
  - intros a b Ha Hb Heq. destruct (decide (a = addr)) as [->|Hna], (decide (b = addr)) as [->|Hnb]; [done | | |].
    + rewrite (Hoth b Hnb) in *. destruct Hkey as [Hk|[Hk|[Hk _]]]; [rewrite Hk in *; by apply (ky_unique _ Hs) | done |].
      exfalso. apply Hk. rewrite Heq. by apply (ky_known _ Hs).
    + rewrite (Hoth a Hna) in *. destruct Hkey as [Hk|[Hk|[Hk _]]]; [rewrite Hk in *; by apply (ky_unique _ Hs) | done |].
      exfalso. apply Hk. rewrite <- Heq. by apply (ky_known _ Hs).
    + rewrite Hoth in Ha, Heq by done. rewrite Hoth in Hb, Heq by done. by apply (ky_unique _ Hs).
Qed.
End touches.

(** ** The calls *)
Section calls.
Context `{ContractCrypto}.

(** A call on the registry: what is left to show of the parts it changes. *)
Lemma electionOk_touched addr s s' :
  touches addr s s' → electionOk s → activeOk s' → registryOk s' → keysOk s' → electionOk s'.
Proof.
  intros Ht [[l Hv] _ [rs Hr] _ _ Hrs] Ha Hg Hk. split; [exists l; by eapply touches_votes | done | exists rs; by eapply touches_round | done | done |].
  by eapply touches_rounds.
Qed.

(** A call on votes. *)
Lemma electionOk_votes s s' : sameValidators s s' → (∃ l, votersOk s' l) → electionOk s → electionOk s'.
Proof.
  intros Hs Hv [_ Ha [rs Hr] Hg Hk Hrs]. split; [done | by eapply activeOk_same | exists rs | | |].
  - split; unfold roundNext; rewrite ?(sv_map _ _ Hs), ?(sv_roundHead _ _ Hs), ?(sv_roundCount _ _ Hs); apply Hr.
  - split; unfold isValidatorRegistered; rewrite ?(sv_validators _ _ Hs), ?(sv_has _ _ Hs), ?(sv_resigned _ _ Hs); [apply Hg | apply Hg |].
    rewrite (rg_resigned _ Hg). apply sumOf_ext. intros a _. unfold resignedOne. by destruct (sv_data _ _ Hs a) as [-> _].
  - assert (Hkey : ∀ a, keyOf s' a = keyOf s a) by (intros a; by destruct (sv_data _ _ Hs a)).
    split; rewrite ?(sv_keys _ _ Hs); [intros a | intros a b]; rewrite !Hkey; apply Hk.
  - unfold roundsOk. by rewrite (sv_rounds _ _ Hs).
Qed.

Lemma onlyOwner_inv `{EvmCall} s x s' : onlyOwner s = (Ok x, s') → msg_sender = c_owner s ∧ s' = s.
Proof. unfold onlyOwner. intros Hrun. erewrite M_bind_run in Hrun by reflexivity. by apply require_inv in Hrun as [?%Z.eqb_eq ->]. Qed.

Lemma dataOf_keep s s' w : c_validatorsData s' = c_validatorsData s → dataOf s' w = dataOf s w.
Proof. unfold dataOf. by intros ->. Qed.

Lemma registered_insert s s' addr a :
  c_hasValidator s' = {[addr]} ∪ c_hasValidator s → isValidatorRegistered s' a = true ↔ a = addr ∨ isValidatorRegistered s a = true.
Proof. unfold isValidatorRegistered. intros ->. rewrite !bool_decide_eq_true. set_solver. Qed.

Lemma dataOf_insert s s' addr data w :
  c_validatorsData s' = <[addr := data]> (c_validatorsData s) → dataOf s' w = if decide (addr = w) then data else dataOf s w.
Proof. intros Heq. unfold dataOf. rewrite Heq, lookup_insert. by case_decide. Qed.

(** Which validator a call on the registry changes. *)
Lemma touches_new s s' l addr data :
  votersOk s l → isValidatorRegistered s addr = false → vd_voteBalance data = 0 → vd_votersCount data = 0 →
  c_hasValidator s' = {[addr]} ∪ c_hasValidator s → c_validatorsData s' = <[addr := data]> (c_validatorsData s) →
  c_voters s' = c_voters s → c_votersHead s' = c_votersHead s → c_votersTail s' = c_votersTail s → c_votersCount s' = c_votersCount s →
  c_roundValidatorsMap s' = c_roundValidatorsMap s → c_roundValidatorsHead s' = c_roundValidatorsHead s →
  c_roundValidatorsCount s' = c_roundValidatorsCount s → c_rounds s' = c_rounds s → touches addr s s'.
Proof.
  intros Hs Hreg Hb Hn Hhas Hdata. intros. destruct (unregistered_sums s l addr Hs Hreg) as [Hb0 Hn0]. split; try done.
  - intros w Hw. rewrite (dataOf_insert s s' addr data) by done. by rewrite decide_False.
  - rewrite (dataOf_insert s s' addr data), decide_True by done. by rewrite Hb, Hn, Hb0, Hn0.
  - intros a. by apply registered_insert.
Qed.

Lemma touches_set s s' addr data :
  isValidatorRegistered s addr = true → vd_voteBalance data = vd_voteBalance (dataOf s addr) → vd_votersCount data = vd_votersCount (dataOf s addr) →
  c_hasValidator s' = c_hasValidator s → c_validatorsData s' = <[addr := data]> (c_validatorsData s) →
  c_voters s' = c_voters s → c_votersHead s' = c_votersHead s → c_votersTail s' = c_votersTail s → c_votersCount s' = c_votersCount s →
  c_roundValidatorsMap s' = c_roundValidatorsMap s → c_roundValidatorsHead s' = c_roundValidatorsHead s →
  c_roundValidatorsCount s' = c_roundValidatorsCount s → c_rounds s' = c_rounds s → touches addr s s'.
Proof.
  intros Hreg Hb Hn Hhas Hdata. intros. split; try done.
  - intros w Hw. rewrite (dataOf_insert s s' addr data) by done. by rewrite decide_False.
  - by rewrite (dataOf_insert s s' addr data), decide_True by done.
  - intros a. unfold isValidatorRegistered in *. rewrite Hhas. naive_solver.
Qed.

Lemma not_active s addr : activeOk s → isValidatorRegistered s addr = false → addr ∉ c_activeValidators s.
Proof. intros Hs Hreg Hin. apply (ac_active _ Hs) in Hin as [Hr _]. by rewrite Hr in Hreg. Qed.

Lemma verifyKey_inv key s x s' :
  verifyAndRegisterBlsPublicKey key s = (Ok x, s') →
  keccak key ∉ c_blsPublicKeys s ∧ length key = 48%nat ∧ s' = s <| c_blsPublicKeys ::= λ k, keccak key :: k |>.
Proof.
  unfold verifyAndRegisterBlsPublicKey. intros Hrun. erewrite M_bind_run in Hrun by reflexivity.
  apply M_bind_inv in Hrun as (? & s1 & [Hk ->]%require_inv & Hrun). apply M_bind_inv in Hrun as (? & s2 & [Hl ->]%require_inv & Hrun).
  apply negb_true_iff, bool_decide_eq_false_1 in Hk. apply Nat.eqb_eq in Hl. injection Hrun as _ <-. done.
Qed.

Lemma addValidator_ok `{EvmCall} addr resigned s s' :
  electionOk s → addr ≠ 0 → addValidator addr resigned s = (Ok tt, s') → electionOk s'.
Proof.
  intros Hok Ha Hrun. unfold addValidator in Hrun. apply M_bind_inv in Hrun as (? & s1 & [_ ->]%onlyOwner_inv & Hrun).
  erewrite M_bind_run in Hrun by reflexivity. apply M_bind_inv in Hrun as (? & s1 & [_ ->]%require_inv & Hrun).
  apply M_bind_inv in Hrun as (? & s1 & [Hreg ->]%require_inv & Hrun). apply negb_true_iff in Hreg.
  do 3 (erewrite M_bind_run in Hrun by reflexivity).
  set (data := mkValidatorData 0 0 0 resigned []) in *. destruct (el_votes _ Hok) as [l Hv].
  assert (Hs' : ∃ n, n = c_resignedValidatorsCount s + (if resigned then 1 else 0) ∧
    s' = s <| c_hasValidator ::= λ h, {[addr]} ∪ h |> <| c_validatorsData ::= <[addr := data]> |> <| c_validators ::= λ l, l ++ [addr] |>
           <| c_resignedValidatorsCount := n |>).
  { destruct resigned; cbn [when] in Hrun.
    - apply M_bind_inv in Hrun as (n & s2 & [-> ->]%addUint_inv & Hrun).
      injection Hrun as <-. eexists. split; reflexivity.
    - injection Hrun as <-. exists (c_resignedValidatorsCount s). split; [lia | by destruct s]. }
  destruct Hs' as (n & -> & Hs'). assert (Ht : touches addr s s').
  { subst s'. eapply (touches_new _ _ l addr data); done. }
  assert (Hd : dataOf s' addr = data) by (rewrite (dataOf_insert s s' addr data), decide_True; by subst s').
  apply (electionOk_touched addr s s'); [done | done | | |].
  - eapply activeOk_keep; [exact Ht | apply Hok | done | by subst s' | by subst s' |].
    unfold canBecomeActiveValidator. rewrite Hd. cbn. rewrite andb_false_r. assert (Hn := not_active s addr (el_active _ Hok) Hreg). done.
  - eapply registryOk_new; [exact Ht | apply Hok | done | by subst s' |]. unfold resignedOne. rewrite Hd. by subst s'.
  - eapply keysOk_touched; [exact Ht | apply Hok | by subst s' |]. right. left. unfold keyOf. by rewrite Hd.
Qed.

Lemma registerValidator_ok `{EvmCall} key proof s s' :
  electionOk s → msg_sender ≠ 0 → registerValidator key proof s = (Ok tt, s') → electionOk s'.
Proof.
  intros Hok Ha Hrun. unfold registerValidator in Hrun. erewrite M_bind_run in Hrun by reflexivity.
  apply M_bind_inv in Hrun as (? & s1 & [_ ->]%require_inv & Hrun). apply M_bind_inv in Hrun as (? & s1 & [Hreg ->]%require_inv & Hrun).
  apply M_bind_inv in Hrun as (? & s1 & [_ ->]%require_inv & Hrun). apply negb_true_iff in Hreg.
  apply M_bind_inv in Hrun as (? & s1 & (Hkey & Hlen & Hs1)%verifyKey_inv & Hrun).
  do 3 (erewrite M_bind_run in Hrun by reflexivity). injection Hrun as Hs'. symmetry in Hs'.
  set (data := mkValidatorData 0 msg_value 0 false key) in *. destruct (el_votes _ Hok) as [l Hv].
  assert (Ht : touches msg_sender s s') by (eapply (touches_new _ _ l msg_sender data); by subst s' s1).
  assert (Hd : dataOf s' msg_sender = data) by (rewrite (dataOf_insert s s' msg_sender data), decide_True; by subst s' s1).
  apply (electionOk_touched msg_sender s s'); [done | done | | |].
  - eapply activeOk_add; [exact Ht | apply Hok | done | by apply not_active; [apply Hok |] | by subst s' s1 | by subst s' s1 |].
    unfold canBecomeActiveValidator. rewrite Hd. cbn [vd_isResigned vd_blsPublicKey data negb andb]. rewrite bool_decide_false; [done |].
    intros Hnil. by rewrite Hnil in Hlen.
  - eapply registryOk_new; [exact Ht | apply Hok | done | by subst s' s1 |]. unfold resignedOne. rewrite Hd. cbn [vd_isResigned data]. subst s' s1. cbn. lia.
  - eapply keysOk_touched; [exact Ht | apply Hok | subst s' s1; by right |]. right. right. unfold keyOf. rewrite Hd. split; [done |]. subst s' s1. by left.
Qed.

Lemma updateValidator_ok `{EvmCall} key proof s s' :
  electionOk s → msg_sender ≠ 0 → updateValidator key proof s = (Ok tt, s') → electionOk s'.
Proof.
  intros Hok Ha Hrun. unfold updateValidator in Hrun. erewrite M_bind_run in Hrun by reflexivity.
  apply M_bind_inv in Hrun as (? & s1 & [Hreg ->]%require_inv & Hrun). apply M_bind_inv in Hrun as (? & s1 & [_ ->]%require_inv & Hrun).
  apply M_bind_inv in Hrun as (? & s1 & (Hkey & Hlen & Hs1)%verifyKey_inv & Hrun). erewrite M_bind_run in Hrun by reflexivity.
  set (data := (dataOf s msg_sender) <| vd_blsPublicKey := key |>) in *.
  set (s2 := s1 <| c_validatorsData ::= <[msg_sender := data]> |>) in *.
  change ((when (canBecomeActiveValidator s2 msg_sender && negb (isActiveValidator s2 msg_sender)) (addActiveValidator msg_sender)) s2 = (Ok tt, s')) in Hrun.
  assert (Ht : touches msg_sender s s2) by (eapply (touches_set _ _ msg_sender data); by subst s2 s1).
  assert (Hd : dataOf s2 msg_sender = data) by (rewrite (dataOf_insert s s2 msg_sender data), decide_True; by subst s2 s1).
  assert (Hcan : canBecomeActiveValidator s2 msg_sender = negb (vd_isResigned (dataOf s msg_sender))).
  { unfold canBecomeActiveValidator. rewrite Hd. cbn [vd_isResigned vd_blsPublicKey data set_field]. rewrite bool_decide_false; [by rewrite andb_true_r |].
    cbn. intros Hnil. by rewrite Hnil in Hlen. }
  assert (Hact : isActiveValidator s2 msg_sender = isActiveValidator s msg_sender) by (by subst s2 s1).
  assert (Hreg' : registryOk s2).
  { eapply registryOk_same; [exact Ht | apply Hok | done | by subst s2 s1 |]. unfold resignedOne. rewrite Hd. subst s2 s1. cbn. lia. }
  assert (Hk' : keysOk s2).
  { eapply keysOk_touched; [exact Ht | apply Hok | subst s2 s1; by right |]. right. right. unfold keyOf. rewrite Hd. split; [done |]. subst s2 s1. by left. }
  rewrite Hcan, Hact in Hrun. assert (Hiff := isActive_iff s msg_sender (el_active _ Hok)).
  destruct (negb (vd_isResigned (dataOf s msg_sender)) && negb (isActiveValidator s msg_sender)) eqn:Hadd.
  - apply andb_true_iff in Hadd as [Hres Hna%negb_true_iff]. cbn [when] in Hrun. injection Hrun as Hs'.
    assert (Ht' : touches msg_sender s s') by (eapply (touches_set _ _ msg_sender data); by subst s' s2 s1).
    assert (Hdata : ∀ w, dataOf s' w = dataOf s2 w) by (intros w; by subst s').
    apply (electionOk_touched msg_sender s s'); [done | done | | |].
    + eapply activeOk_add; [exact Ht' | apply Hok | done | by rewrite <- Hiff, Hna | by subst s' s2 s1 | by subst s' s2 s1 |].
      rewrite <- Hres, <- Hcan. unfold canBecomeActiveValidator. by rewrite Hdata.
    + subst s'. split; apply Hreg'.
    + subst s'. split; apply Hk'.
  - injection Hrun as <-. apply (electionOk_touched msg_sender s s2); [done | done | | done | done].
    eapply activeOk_keep; [exact Ht | apply Hok | done | by subst s2 s1 | by subst s2 s1 |]. rewrite <- Hiff, Hcan.
    apply andb_false_iff in Hadd as [Hres|Hin%negb_false_iff]; [| split; [intros _ | done]].
    + split; [| by rewrite Hres]. intros Hin%Hiff. apply (ac_active _ (el_active _ Hok)) in Hin as [_ Hc].
      unfold canBecomeActiveValidator in Hc. by rewrite Hres in Hc.
    + apply Hiff, (ac_active _ (el_active _ Hok)) in Hin as [_ Hc]. by apply andb_true_iff in Hc as [? _].
Qed.

Lemma resignValidator_ok `{EvmCall} s s' :
  electionOk s → msg_sender ≠ 0 → resignValidator s = (Ok tt, s') → electionOk s'.
Proof.
  intros Hok Ha Hrun. unfold resignValidator in Hrun. erewrite M_bind_run in Hrun by reflexivity.
  apply M_bind_inv in Hrun as (? & s1 & [Hreg ->]%require_inv & Hrun). apply M_bind_inv in Hrun as (? & s1 & [Hres ->]%require_inv & Hrun).
  apply M_bind_inv in Hrun as (? & s1 & [_ ->]%require_inv & Hrun). apply negb_true_iff in Hres. erewrite M_bind_run in Hrun by reflexivity.
  apply M_bind_inv in Hrun as (n & s1 & [-> Hs1]%addUint_inv & Hrun). erewrite M_bind_run in Hrun by reflexivity.
  set (data := (dataOf s msg_sender) <| vd_isResigned := true |>) in *.
  set (s2 := s1 <| c_resignedValidatorsCount := c_resignedValidatorsCount s + 1 |>) in *.
  apply M_bind_inv in Hrun as ([] & s3 & Hrem & Hrun).
  assert (s' = s3) as -> by (destruct (0 <? _); cbn [when] in Hrun; [by apply require_inv in Hrun as [_ ->] | by injection Hrun]).
  assert (Hiff := isActive_iff s msg_sender (el_active _ Hok)).
  assert (Hact : isActiveValidator s2 msg_sender = isActiveValidator s msg_sender) by (by subst s2 s1).
  assert (Hcases : (∃ i, c_activeValidators s !! i = Some msg_sender ∧ s3 = s2 <| c_activeValidators := removedActive s i |> <| c_activeValidatorIndex := removedIndex s i msg_sender |>) ∨
    (msg_sender ∉ c_activeValidators s ∧ s3 = s2)).
  { destruct (isActiveValidator s msg_sender) eqn:Hin.
    - left. destruct (list_elem_of_lookup_1 _ _ (proj1 Hiff eq_refl)) as [i Hi]. exists i. split; [done |].
      rewrite (removeActive_run s2 i) in Hrem; [injection Hrem as <-; by subst s2 s1 | subst s2 s1; apply Hok | by subst s2 s1].
    - right. split; [intros Hm%Hiff; done |]. unfold removeActiveValidator in Hrem. erewrite M_bind_run in Hrem by reflexivity.
      rewrite Hact in Hrem. by injection Hrem. }
  assert (Ht : touches msg_sender s s3).
  { destruct Hcases as [(i & _ & ->)|[_ ->]]; eapply (touches_set _ _ msg_sender data); by subst s2 s1. }
  assert (Hd : dataOf s3 msg_sender = data).
  { rewrite (dataOf_insert s s3 msg_sender data), decide_True; [done.. |]. destruct Hcases as [(i & _ & ->)|[_ ->]]; by subst s2 s1. }
  assert (Hcan : canBecomeActiveValidator s3 msg_sender = false) by (unfold canBecomeActiveValidator; by rewrite Hd).
  apply (electionOk_touched msg_sender s s3); [done | done | | |].
  - destruct Hcases as [(i & Hi & Hs3)|[Hout Hs3]].
    + eapply activeOk_remove; [exact Ht | apply Hok | done | exact Hi | by subst s3 | by subst s3 | done].
    + eapply activeOk_keep; [exact Ht | apply Hok | done | by subst s3 s2 s1 | by subst s3 s2 s1 |]. by rewrite Hcan.
  - eapply registryOk_same; [exact Ht | apply Hok | done | |].
    + destruct Hcases as [(i & _ & ->)|[_ ->]]; by subst s2 s1.
    + unfold resignedOne. rewrite Hd, Hres. destruct Hcases as [(i & _ & ->)|[_ ->]]; subst s2 s1; cbn; lia.
  - eapply keysOk_touched; [exact Ht | apply Hok | |].
    + destruct Hcases as [(i & _ & ->)|[_ ->]]; by subst s2 s1.
    + left. unfold keyOf. by rewrite Hd.
Qed.

(** Votes. *)
Lemma appendVoter_election `{EvmCall} s l voter w s' :
  electionOk s → votersOk s l → voter ∉ l → voter ≠ 0 → isValidatorRegistered s w = true → 0 ≤ balanceOf voter →
  appendVoter voter w s = (Ok tt, s') → electionOk s' ∧ votersOk s' (l ++ [voter]).
Proof.
  intros Hok Hv Hout Hz Hw Hb Hrun. assert (Hw0 : w ≠ 0) by (intros ->; by rewrite (ac_zero _ (el_active _ Hok)) in Hw).
  destruct (appendVoter_ok s l voter w s' Hv Hout Hz Hw0 Hw Hb Hrun) as [Hv' Hs]. split; [| done].
  eapply electionOk_votes; [exact Hs | by eexists | done].
Qed.

Lemma nonvoter s l a : votersOk s l → vo_validator (voteOf s a) = 0 → a ∉ l.
Proof. intros Hv Ha [i Hi]%list_elem_of_lookup_1. destruct (listed_voter s l i a Hv Hi) as (v & Hvo & _ & _ & _ & Hne & _). congruence. Qed.

Lemma doUnvote_election `{EvmCall} s l i :
  electionOk s → votersOk s l → l !! i = Some msg_sender →
  ∃ s', doUnvote s = (Ok tt, s') ∧ electionOk s' ∧ votersOk s' (delete i l) ∧ sameValidators s s'.
Proof.
  intros Hok Hv Hi. destruct (doUnvote_ok s l i Hv Hi) as (s' & Hrun & Hv' & Hs). exists s'. split_and!; try done.
  eapply electionOk_votes; [exact Hs | by eexists | done].
Qed.

Lemma unvote_ok `{EvmCall} s s' : electionOk s → unvote s = (Ok tt, s') → electionOk s'.
Proof.
  intros Hok Hrun. unfold unvote in Hrun. destruct (el_votes _ Hok) as [l Hv].
  destruct (Z.eq_dec (vo_validator (voteOf s msg_sender)) 0) as [Hz|Hnz].
  - unfold doUnvote in Hrun. erewrite M_bind_run in Hrun by reflexivity. rewrite Hz in Hrun. done.
  - destruct (voter_listed s l _ Hv Hnz) as [i Hi]. destruct (doUnvote_election s l i Hok Hv Hi) as (s1 & Hrun1 & Hok1 & _).
    rewrite Hrun in Hrun1. by injection Hrun1 as ->.
Qed.

(** A vote takes the voter's former one back and goes to the end of the list. *)
Lemma vote_ok `{EvmCall} addr s s' :
  electionOk s → msg_sender ≠ 0 → 0 ≤ balanceOf msg_sender → vote addr s = (Ok tt, s') → electionOk s'.
Proof.
  intros Hok Ha Hb Hrun. unfold vote in Hrun. erewrite M_bind_run in Hrun by reflexivity. destruct (el_votes _ Hok) as [l Hv].
  apply M_bind_inv in Hrun as (? & s1 & [Hreg ->]%require_inv & Hrun). do 3 (apply M_bind_inv in Hrun as (? & s1 & [_ ->]%require_inv & Hrun)).
  destruct (Z.eqb_spec (vo_validator (voteOf s msg_sender)) 0) as [Hz|Hnz]; cbn [negb when] in Hrun.
  - erewrite M_bind_run in Hrun by reflexivity. by eapply (appendVoter_election s l msg_sender addr s' Hok Hv (nonvoter s l _ Hv Hz)).
  - destruct (voter_listed s l _ Hv Hnz) as [i Hi]. destruct (doUnvote_election s l i Hok Hv Hi) as (s1 & Hrun1 & Hok1 & Hv1 & Hsame).
    rewrite (M_bind_run _ _ _ _ _ Hrun1) in Hrun. eapply (appendVoter_election s1 (delete i l) msg_sender addr s' Hok1 Hv1); try done.
    + intros [j (k & Hk & Hne & _)%lookup_delete_Some]%list_elem_of_lookup_1. apply Hne. eapply NoDup_lookup; [apply (vt_nodup _ _ Hv) | done | done].
    + unfold isValidatorRegistered in *. by rewrite (sv_has _ _ Hsame).
Qed.

Lemma addVote_ok `{EvmCall} voter validator s s' :
  electionOk s → voter ≠ 0 → 0 ≤ balanceOf voter → addVote voter validator s = (Ok tt, s') → electionOk s'.
Proof.
  intros Hok Ha Hb Hrun. unfold addVote in Hrun. erewrite M_bind_run in Hrun by reflexivity. destruct (el_votes _ Hok) as [l Hv].
  apply M_bind_inv in Hrun as (? & s1 & [_ ->]%require_inv & Hrun). apply M_bind_inv in Hrun as (? & s1 & [Hreg ->]%require_inv & Hrun).
  apply M_bind_inv in Hrun as (? & s1 & [Hz%Z.eqb_eq ->]%require_inv & Hrun).
  by eapply (appendVoter_election s l voter validator s' Hok Hv (nonvoter s l _ Hv Hz)).
Qed.

Lemma updateVoter_election `{EvmCall} addr s s' :
  electionOk s → 0 ≤ balanceOf addr → updateVoter addr s = (Ok tt, s') → electionOk s'.
Proof.
  intros Hok Hb Hrun. destruct (el_votes _ Hok) as [l Hv]. destruct (updateVoter_ok s l addr s' Hv Hb Hrun) as [Hv' Hs].
  eapply electionOk_votes; [exact Hs | by eexists | done].
Qed.

Lemma forEach_ok {A} (I : ConsensusV1 → Prop) (l : list A) (f : A → M ConsensusV1 unit) :
  (∀ x s s', x ∈ l → I s → f x s = (Ok tt, s') → I s') → ∀ s s', I s → forEach l f s = (Ok tt, s') → I s'.
Proof.
  induction l as [|x l IH]; intros Hf s s' Hs Hrun; cbn [forEach] in Hrun; [by injection Hrun as <- |].
  apply M_bind_inv in Hrun as ([] & s1 & Hx & Hrun). eapply IH; [| | exact Hrun].
  - intros y t t' Hy. apply Hf. by right.
  - eapply Hf; [by left | exact Hs | exact Hx].
Qed.

Lemma addVotes_ok `{EvmCall} voters validators s s' :
  electionOk s → 0 ∉ voters → (∀ a, 0 ≤ balanceOf a) → addVotes voters validators s = (Ok tt, s') → electionOk s'.
Proof.
  intros Hok Hz Hb Hrun. unfold addVotes in Hrun. apply M_bind_inv in Hrun as (? & s1 & [_ ->]%onlyOwner_inv & Hrun).
  apply M_bind_inv in Hrun as (? & s1 & [_ ->]%require_inv & Hrun). revert Hok Hrun. apply forEach_ok.
  intros [a w] t t' Hin Ht Hrun. eapply addVote_ok; [exact Ht | | apply Hb | exact Hrun].
  intros ->. apply Hz. by apply elem_of_zip_l in Hin.
Qed.

Lemma updateVoters_ok `{EvmCall} voters s s' :
  electionOk s → (∀ a, 0 ≤ balanceOf a) → updateVoters voters s = (Ok tt, s') → electionOk s'.
Proof.
  intros Hok Hb Hrun. unfold updateVoters in Hrun. apply M_bind_inv in Hrun as (? & s1 & [_ ->]%onlyOwner_inv & Hrun).
  revert Hok Hrun. apply forEach_ok. intros a t t' _ Ht Hrun. by eapply updateVoter_election.
Qed.

(** A round is the top of the active validators, each once. *)
Lemma calculate_election `{EvmCall} n s s' :
  electionOk s → 0 ≤ n → calculateRoundValidators n s = (Ok tt, s') →
  electionOk s' ∧ 1 ≤ n ∧ sameVotes s s' ∧ ∃ rs, topOf s (Z.to_nat n) (c_activeValidators s) rs ∧
    length rs = Z.to_nat n ∧ c_roundValidators s' ≡ₚ rs ∧
    c_rounds s' = c_rounds s ++ [(λ a, (a, vd_voteBalance (dataOf s a))) <$> c_roundValidators s'].
Proof.
  intros Hok Hn Hrun. assert (Howner : msg_sender = c_owner s).
  { unfold calculateRoundValidators in Hrun. by apply M_bind_inv in Hrun as (? & s1 & [? _]%onlyOwner_inv & _). }
  assert (Hn1 : 1 ≤ n).
  { unfold calculateRoundValidators in Hrun. apply M_bind_inv in Hrun as (? & s1 & [_ ->]%onlyOwner_inv & Hrun).
    apply M_bind_inv in Hrun as (? & s1 & [Hz%negb_true_iff%Z.eqb_neq _]%require_inv & _). lia. }
  destruct (el_round _ Hok) as [rs0 Hr]. assert (Hcalc := calculate_run s rs0 (Z.to_nat n) (el_active _ Hok) Hr Howner).
  rewrite Z2Nat.id in Hcalc by lia. specialize (Hcalc ltac:(lia)). case_decide as Hlen; [by rewrite Hrun in Hcalc |].
  destruct Hcalc as (s1 & rs & Hrun1 & Hto & Hr' & Hperm & Hrounds & Hs). rewrite Hrun in Hrun1. injection Hrun1 as <-.
  assert (Hdata : ∀ w, dataOf s' w = dataOf s w) by (intros w; unfold dataOf; by rewrite (se_data _ _ Hs)).
  assert (Hreg : ∀ a, isValidatorRegistered s' a = isValidatorRegistered s a) by (intros a; unfold isValidatorRegistered; by rewrite (se_has _ _ Hs)).
  split; [| split; [done |]; split; [done |]; exists rs; split_and!; try done; rewrite (to_length _ _ _ _ Hto); lia].
  destruct Hok as [[l Hv] Ha _ Hg Hk Hrs]. split; [exists l | | by exists rs | | |].
  - split; rewrite ?(se_voters _ _ Hs), ?(se_head _ _ Hs), ?(se_tail _ _ Hs), ?(se_count _ _ Hs); try apply Hv.
    + intros i a Hi. setoid_rewrite Hreg. by apply (vt_entry _ _ Hv).
    + intros w. rewrite Hdata. apply Hv.
    + intros w. rewrite Hdata. apply Hv.
  - split; rewrite ?(se_active _ _ Hs); [apply Ha | | | rewrite Hreg; apply Ha].
    + intros i a. unfold activeIndex. rewrite (se_index _ _ Hs). apply Ha.
    + intros a. unfold canBecomeActiveValidator. rewrite Hdata, Hreg. apply Ha.
  - split; rewrite ?(se_validators _ _ Hs), ?(se_resigned _ _ Hs); [apply Hg | intros a; rewrite Hreg; apply Hg |].
    rewrite (rg_resigned _ Hg). apply sumOf_ext. intros a _. unfold resignedOne. by rewrite Hdata.
  - split; unfold keyOf; rewrite ?(se_keys _ _ Hs); [intros a | intros a b]; rewrite !Hdata; apply Hk.
  - unfold roundsOk. rewrite Hrounds. apply Forall_app. split; [done |]. apply Forall_singleton.
    rewrite <- list_fmap_compose. rewrite (list_fmap_ext _ id) by done. rewrite list_fmap_id, Hperm. apply Hto.
Qed.
End calls.

(** ** Transactions *)
Inductive Operation :=
| SetFee (registrationFee : Z)
| AddValidator (addr : Z) (isResigned : bool)
| AddVotes (voters validators : list Z)
| RegisterValidator (blsPublicKey proofOfPossession : list byte)
| UpdateValidator (blsPublicKey proofOfPossession : list byte)
| ResignValidator
| CastVote (addr : Z)
| Unvote
| UpdateVoters (voters : list Z)
| CalculateRoundValidators (n : Z).

Section transactions.
Context `{ContractCrypto}.

Definition perform `{EvmCall} (op : Operation) : M ConsensusV1 unit :=
  match op with
  | SetFee f => setFee f
  | AddValidator a r => addValidator a r
  | AddVotes voters validators => addVotes voters validators
  | RegisterValidator k p => registerValidator k p
  | UpdateValidator k p => updateValidator k p
  | ResignValidator => resignValidator
  | CastVote a => vote a
  | Unvote => unvote
  | UpdateVoters voters => updateVoters voters
  | CalculateRoundValidators n => calculateRoundValidators n
  end.

(** What the chain guarantees of a transaction: nobody holds the key of the zero
    address, balances are not negative, a [uint8] is not; the import names no zero address. *)
Definition wellFormed (tx : EvmCall * Operation) : Prop :=
  @msg_sender tx.1 ≠ 0 ∧ (∀ a, 0 ≤ @balanceOf tx.1 a) ∧
  match tx.2 with
  | AddValidator a _ => a ≠ 0
  | AddVotes voters _ => 0 ∉ voters
  | CalculateRoundValidators n => 0 ≤ n < 256
  | _ => True
  end.

Definition transact (s : ConsensusV1) (tx : EvmCall * Operation) : ConsensusV1 := call (@perform tx.1 tx.2) s.
Definition history (owner registrationFee : Z) (txs : list (EvmCall * Operation)) : ConsensusV1 :=
  foldl transact (initialize owner registrationFee) txs.

Lemma initialize_ok owner registrationFee : electionOk (initialize owner registrationFee).
Proof.
  split; [exists [] | | exists [] | | |].
  - split; try done; [constructor | apply not_elem_of_nil].
  - split; try done; [constructor |]. intros a. split; [by intros ?%elem_of_nil | by intros [? _]].
  - split; try done; [constructor | apply not_elem_of_nil].
  - split; try done; [constructor |]. intros a. split; [by intros ?%elem_of_nil | done].
  - by split.
  - constructor.
Qed.

Lemma perform_ok (env : EvmCall) op s s' :
  electionOk s → wellFormed (env, op) → perform op s = (Ok tt, s') → electionOk s'.
Proof.
  intros Hok (Ha & Hb & Hop) Hrun. cbn [fst snd] in *. destruct op; cbn [perform] in Hrun.
  - unfold setFee in Hrun. apply M_bind_inv in Hrun as (? & s1 & [_ ->]%onlyOwner_inv & Hrun). injection Hrun as <-.
    destruct Hok as [[l [? ? ? ? ? ? ? ? ?]] [? ? ? ?] [rs [? ? ? ? ? ?]] [? ? ?] [? ?] ?].
    split; [by exists l | done | by exists rs | done | done | done].
  - by eapply addValidator_ok.
  - by eapply addVotes_ok.
  - by eapply registerValidator_ok.
  - by eapply updateValidator_ok.
  - by eapply resignValidator_ok.
  - by eapply vote_ok.
  - by eapply unvote_ok.
  - by eapply updateVoters_ok.
  - by eapply calculate_election in Hrun as [? _]; [| done | apply Hop].
Qed.

Lemma history_ok owner registrationFee txs : Forall wellFormed txs → electionOk (history owner registrationFee txs).
Proof.
  unfold history. assert (Hgen : ∀ s, electionOk s → Forall wellFormed txs → electionOk (foldl transact s txs)); [| intros; apply Hgen; [apply initialize_ok | done]].
  induction txs as [|[env op] txs IH]; intros s Hok Hwf; cbn [foldl]; [done |]. apply Forall_cons in Hwf as [Hop Hwf].
  apply IH; [| done]. unfold transact, call. cbn [fst snd]. destruct (perform op s) as [[[]|e] s'] eqn:Hrun; [| done].
  by eapply perform_ok.
Qed.

(** C29. Whatever transactions reach the election contract after its deployment, its
    parts agree: the linked list of voters has each voter once, both ways; a
    validator's balance and number of voters are the sums over the votes for it; the
    array of active validators holds exactly those that have a key and did not
    resign, each at its index; no two validators have the same BLS key; every round
    recorded has distinct validators.  And a voter can always take its vote back: no
    subtraction of [_unvote] underflows. *)
Theorem election_sound owner registrationFee txs :
  Forall wellFormed txs →
  electionOk (history owner registrationFee txs) ∧
  ∀ env : EvmCall, vo_validator (voteOf (history owner registrationFee txs) msg_sender) ≠ 0 →
    ∃ s', unvote (history owner registrationFee txs) = (Ok tt, s') ∧ vo_validator (voteOf s' msg_sender) = 0.
Proof.
  intros Hwf. assert (Hok := history_ok owner registrationFee txs Hwf). split; [done |]. intros env Hvote.
  destruct (el_votes _ Hok) as [l Hv]. destruct (voter_listed _ l _ Hv Hvote) as [i Hi].
  destruct (doUnvote_election _ l i Hok Hv Hi) as (s' & Hrun & _ & Hv' & _). exists s'. split; [done |].
  unfold voteOf. rewrite (vt_none _ _ Hv'); [done |].
  intros [j (k & Hk & Hne & _)%lookup_delete_Some]%list_elem_of_lookup_1. apply Hne. eapply NoDup_lookup; [apply (vt_nodup _ _ Hv) | done | done].
Qed.

(** C30. The owner's call for a round of [n] validators.  With fewer than [n] active ones
    it reverts and nothing changes.  Otherwise it records one round, after the former
    ones, of exactly [n] distinct active validators, each with the sum of the balances
    that voted for it; an active validator left out has fewer votes than each of them,
    or as many and a greater address; and the round's validators are served in that order. *)
Theorem round_elected owner registrationFee txs (env : EvmCall) n :
  Forall wellFormed txs → 1 ≤ n < 256 → msg_sender = c_owner (history owner registrationFee txs) →
  let s := history owner registrationFee txs in
  let s' := transact s (env, CalculateRoundValidators n) in
  if decide (Z.of_nat (length (c_activeValidators s)) < n) then s' = s
  else ∃ round l, c_rounds s' = c_rounds s ++ [round] ∧ Z.of_nat (length round) = n ∧ NoDup round.*1 ∧ votersOk s l ∧
    (∀ a b, (a, b) ∈ round → a ∈ c_activeValidators s ∧ b = sumOf (balanceFor (c_voters s) a) l) ∧
    (∀ a w, a ∈ c_activeValidators s → a ∉ round.*1 → w ∈ round.*1 → isGreater s w a = true) ∧
    (getRoundValidators s').*1 = round.*1.
Proof.
  intros Hwf Hn Howner s s'. assert (Hok := history_ok owner registrationFee txs Hwf : electionOk s).
  destruct (el_round _ Hok) as [rs0 Hr]. assert (Hcalc := calculate_run s rs0 (Z.to_nat n) (el_active _ Hok) Hr Howner ltac:(lia)).
  rewrite Z2Nat.id in Hcalc by lia. unfold s', transact, call. cbn [fst snd perform].
  destruct (calculateRoundValidators n s) as [[[]|e] s1] eqn:Hrun.
  - case_decide as Hlen; [done |]. rewrite decide_False by lia.
    destruct (calculate_election n s s1 Hok ltac:(lia) Hrun) as (_ & _ & _ & rs & Hto & Hl & Hperm & Hrounds). destruct (el_votes _ Hok) as [l Hv].
    assert (Hfst : ((λ a, (a, vd_voteBalance (dataOf s a))) <$> c_roundValidators s1).*1 = c_roundValidators s1).
    { rewrite <- list_fmap_compose. rewrite (list_fmap_ext _ id) by done. apply list_fmap_id. }
    assert (Hlen1 := Permutation_length Hperm). assert (Hnd : NoDup (c_roundValidators s1)) by (rewrite Hperm; apply Hto).
    eexists _, l. split; [exact Hrounds |]. rewrite Hfst, length_fmap. split_and!; [lia | exact Hnd | done | | |].
    + intros a b (x & [= -> ->] & Hx)%list_elem_of_fmap. rewrite Hperm in Hx. split; [by apply (to_sub _ _ _ _ Hto) | apply (vt_balance _ _ Hv)].
    + intros a w Ha Hout Hw. rewrite Hperm in Hout, Hw. by apply (to_greater _ _ _ _ Hto).
    + unfold getRoundValidators. rewrite <- list_fmap_compose. rewrite (list_fmap_ext _ id) by done. apply list_fmap_id.
  - case_decide as Hlen; [by rewrite decide_True by lia |]. by destruct Hcalc as (? & ? & [=] & _).
Qed.
End transactions.

(** ** A history: three validators, four votes *)
Definition exampleCrypto : ContractCrypto := {|
  keccak := λ b, b;
  verifyPoP := λ _ _ _, true;
  encodePacked := λ r i, r ++ be_encode 32 i;
|}.
Definition from (sender value balance : Z) : EvmCall :=
  {| msg_sender := sender; msg_value := value; balanceOf := λ _, balance; prevrandao := be_encode 4 12345; refundSucceeds := true |}.
Definition exampleKey (i : Z) : list byte := be_encode 48 i.
Definition exampleTxs : list (EvmCall * Operation) :=
  [(from 99 0 0, AddValidator 7 false); (from 99 0 50, AddVotes [21] [7]);
   (from 1 10 5, RegisterValidator (exampleKey 1) []); (from 2 10 5, RegisterValidator (exampleKey 2) []);
   (from 3 10 5, RegisterValidator (exampleKey 1) []); (from 3 10 5, RegisterValidator (exampleKey 3) []);
   (from 22 0 30, CastVote 1); (from 23 0 40, CastVote 3); (from 24 0 5, CastVote 2); (from 22 0 60, CastVote 3);
   (from 99 0 0, CalculateRoundValidators 2); (from 99 0 70, UpdateVoters [24]); (from 23 0 0, Unvote)].

Lemma exampleTxs_wf : Forall wellFormed exampleTxs.
Proof. repeat (apply Forall_cons; split; [split_and!; cbn; (lia || done || set_solver) |]). done. Qed.

Lemma election_sound_witness :
  (electionOk (H := exampleCrypto) (@history exampleCrypto 99 10 exampleTxs) ∧
   ∀ env : EvmCall, vo_validator (voteOf (@history exampleCrypto 99 10 exampleTxs) msg_sender) ≠ 0 →
     ∃ s', unvote (@history exampleCrypto 99 10 exampleTxs) = (Ok tt, s') ∧ vo_validator (voteOf s' msg_sender) = 0) ∧
  c_activeValidators (@history exampleCrypto 99 10 exampleTxs) = [1; 2; 3] ∧
  (vd_voteBalance <$> (dataOf (@history exampleCrypto 99 10 exampleTxs) <$> [1; 2; 3; 7])) = [0; 70; 60; 50].
Proof. split; [apply (election_sound (H := exampleCrypto) 99 10 exampleTxs exampleTxs_wf) | split; vm_compute; reflexivity]. Defined.

(** The next round is of the validators 2 and 3. *)
Lemma round_elected_witness :
  let s := @history exampleCrypto 99 10 exampleTxs in
  let s' := @transact exampleCrypto s (from 99 0 0, CalculateRoundValidators 2) in
  (∃ round l, c_rounds s' = c_rounds s ++ [round] ∧ Z.of_nat (length round) = 2 ∧ NoDup round.*1 ∧ votersOk s l ∧
    (∀ a b, (a, b) ∈ round → a ∈ c_activeValidators s ∧ b = sumOf (balanceFor (c_voters s) a) l) ∧
    (∀ a w, a ∈ c_activeValidators s → a ∉ round.*1 → w ∈ round.*1 → isGreater s w a = true) ∧
    (getRoundValidators s').*1 = round.*1) ∧
  c_rounds s' = [[(2, 5); (3, 100)]; [(3, 60); (2, 70)]].
Proof.
  intros s s'. split; [| vm_compute; reflexivity].
  assert (Hlen : length (c_activeValidators s) = 3%nat) by (vm_compute; reflexivity). assert (Howner : c_owner s = 99) by (vm_compute; reflexivity).
  assert (Hr := round_elected (H := exampleCrypto) 99 10 exampleTxs (from 99 0 0) 2 exampleTxs_wf ltac:(lia) (eq_sym Howner)).
  cbv zeta in Hr. fold s in Hr. fold s' in Hr. rewrite Hlen in Hr. destruct (decide _) as [Hlt|_] in Hr; [lia | exact Hr].
Defined.
