(* ===== verification/ContractService.v ===== *)
(** * packages/evm-consensus/source/services: reading the election contract

    [view] calls a view function of the contract from the deployer's address; the
    service turns the answers into wallets, and two iterators read all rounds and all
    votes in pages, one call per page.  viem's encoding of calls and answers and the
    EVM are the class [ContractCalls]; what they are relied on for is [servesContract]:
    a view answers as the function of the contract does.  Numbers that the code
    converts with [Number] are integers. *)
From S2P Require Import Prelude Bytes Election ElectionVotes ElectionRounds ElectionTheorems JsMap ValidatorSet.
#[local] Open Scope Z_scope.

Inductive Argument :=
| AddressArgument (address : string)
| NumberArgument (n : Z).
#[export] Instance Argument_eq_dec : EqDecision Argument.
Proof. solve_decision. Defined.

Record ConsensusContractValidator := {
  cv_addr : string;
  cv_voteBalance : Z;
  cv_fee : Z;
  cv_votersCount : Z;
  cv_isResigned : bool;
  cv_blsPublicKey : string;
}.
Record ConsensusContractVote := { cvt_validator : string; cvt_voter : string }.
Record ConsensusContractValidatorRound := { cr_round : Z; cr_validators : list (string * Z) }.

(** What [decodeFunctionResult] makes of an output. *)
Inductive Answer :=
| ValidatorsAnswer (validators : list ConsensusContractValidator)
| VotesAnswer (votes : list ConsensusContractVote)
| RoundsAnswer (rounds : list ConsensusContractValidatorRound)
| NumberAnswer (n : Z).

Record ViewParameters (Data : Type) := mkViewParameters { view_data : Data; view_from : string; view_specId : string; view_to : string }.
Arguments mkViewParameters {Data}.
Arguments view_data {Data}.

Class ContractCalls := {
  Data : Type;
  Output : Type;
  encodeFunctionData : string → list Argument → Data;
  decodeFunctionResult : string → Output → Answer;
  evm_view : ViewParameters Data → option Output;
}.

(** The addresses that the container binds, and the milestone's EVM version. *)
Class ContractAddresses := { deployerAddress : string; consensusContractAddress : string; evmSpec : string }.

(** A validator, a vote and a round as [Contracts.State] and [Contracts.Evm] have them. *)
Record EvmVote := mkEvmVote { ev_validatorAddress : string; ev_voterAddress : string }.
Record ValidatorRound := mkValidatorRound { er_round : Z; er_validators : list (string * Z) }.

Record VotesIterator := mkVotesIterator { vi_address : string; vi_votes : list EvmVote; vi_index : nat }.
#[export] Instance eta_VotesIterator : Eta VotesIterator := λ s, mkVotesIterator (vi_address s) (vi_votes s) (vi_index s).
Record RoundsIterator := mkRoundsIterator { ri_rounds : list ValidatorRound; ri_index : nat; ri_offset : Z }.
#[export] Instance eta_RoundsIterator : Eta RoundsIterator := λ s, mkRoundsIterator (ri_rounds s) (ri_index s) (ri_offset s).

Definition zeroAddress : string := "0x0000000000000000000000000000000000000000".
Definition newVotesIterator : VotesIterator := mkVotesIterator zeroAddress [] 0.
Definition newRoundsIterator : RoundsIterator := mkRoundsIterator [] 0 0.
Definition ROUNDS_PER_REQUEST : Z := 2500.
Definition VOTES_PER_REQUEST : Z := 10000.

(** Reading an answer of another shape as an array throws. *)
Definition TypeError {A} : result A := Throw (JSError "TypeError").
Definition asValidators (a : Answer) : result (list ConsensusContractValidator) := match a with ValidatorsAnswer l => Ok l | _ => TypeError end.
Definition asVotes (a : Answer) : result (list ConsensusContractVote) := match a with VotesAnswer l => Ok l | _ => TypeError end.
Definition asRounds (a : Answer) : result (list ConsensusContractValidatorRound) := match a with RoundsAnswer l => Ok l | _ => TypeError end.
Definition asNumber (a : Answer) : result Z := match a with NumberAnswer n => Ok n | _ => TypeError end.

Section service.
Context `{ContractCalls} `{ContractAddresses}.

(** [app.fail] throws; it also terminates the process. *)
Definition view (functionName : string) (arguments : list Argument) : result Answer :=
  match evm_view (mkViewParameters (encodeFunctionData functionName arguments) deployerAddress evmSpec consensusContractAddress) with
  | Some output => Ok (decodeFunctionResult functionName output)
  | None => Throw (JSError ("Consensus contract call " +:+ functionName +:+ " failed"))
  end.

(** [slice(2)] *)
Definition slice2 (s : string) : string := match s with String _ (String _ s') => s' | _ => "" end.

Definition walletOf (v : ConsensusContractValidator) : ValidatorWallet :=
  mkValidatorWallet (cv_addr v) (slice2 (cv_blsPublicKey v)) (cv_voteBalance v) (cv_votersCount v) (cv_fee v) (cv_isResigned v).

Definition getRoundValidators : result (list ValidatorWallet) :=
  a ← view "getRoundValidators" []; validators ← asValidators a; Ok (map walletOf validators).
Definition getAllValidators : result (list ValidatorWallet) :=
  a ← view "getAllValidators" []; validators ← asValidators a; Ok (map walletOf validators).
Definition getVotesCount : result Z := a ← view "getVotesCount" []; asNumber a.

(** The service is the contract of the validator set. *)
#[export] Instance contractService : ConsensusContract := {|
  contractRoundValidators := getRoundValidators;
  contractAllValidators := getAllValidators;
|}.

(** ** The iterators: [next] gives a value or is done. *)
Definition getVotes : M VotesIterator (list EvmVote) :=
  s ← get;
  a ← liftR (view "getVotes" [AddressArgument (vi_address s); NumberArgument VOTES_PER_REQUEST]);
  votes ← liftR (asVotes a);
  mret ((λ v, mkEvmVote (cvt_validator v) (cvt_voter v)) <$> votes).

Definition yieldVote : M VotesIterator (option EvmVote) :=
  s ← get;
  modify (λ s, s <| vi_index ::= S |>);;
  mret (vi_votes s !! vi_index s).

Definition nextVote : M VotesIterator (option EvmVote) :=
  s ← get;
  if (length (vi_votes s) =? vi_index s)%nat then
    votes ← getVotes;
    modify (λ s, s <| vi_votes := votes |>);;
    match last votes with
    | None => mret None
    | Some v =>
        modify (λ s, s <| vi_index := 0%nat |>);;
        modify (λ s, s <| vi_address := ev_voterAddress v |>);;
        yieldVote
    end
  else yieldVote.

Definition getRounds : M RoundsIterator (list ValidatorRound) :=
  s ← get;
  a ← liftR (view "getRounds" [NumberArgument (ri_offset s); NumberArgument ROUNDS_PER_REQUEST]);
  rounds ← liftR (asRounds a);
  mret ((λ r, mkValidatorRound (cr_round r) (cr_validators r)) <$> rounds).

Definition yieldRound : M RoundsIterator (option ValidatorRound) :=
  s ← get;
  modify (λ s, s <| ri_index ::= S |>);;
  mret (ri_rounds s !! ri_index s).

Definition nextRound : M RoundsIterator (option ValidatorRound) :=
  s ← get;
  if (length (ri_rounds s) =? ri_index s)%nat then
    rounds ← getRounds;
    modify (λ s, s <| ri_rounds := rounds |>);;
    if (length rounds =? 0)%nat then mret None
    else
      modify (λ s, s <| ri_index := 0%nat |>);;
      modify (λ s, s <| ri_offset ::= λ o, o + Z.of_nat (length rounds) |>);;
      yieldRound
  else yieldRound.
End service.

(** [for await]: the values until [next] is done. *)
Fixpoint forAwait {S A} (next : M S (option A)) (fuel : nat) : M S (list A) :=
  match fuel with
  | O => throw OutOfFuel
  | S fuel' =>
      r ← next;
      match r with
      | None => mret []
      | Some x => rest ← forAwait next fuel'; mret (x :: rest)
      end
  end.

(** An iterator whose states stand for the values to come yields them and ends. *)
Lemma forAwait_list {S A} (next : M S (option A)) (I : S → list A → Prop) :
  (∀ s, I s [] → ∃ s', next s = (Ok None, s')) →
  (∀ s x xs, I s (x :: xs) → ∃ s', next s = (Ok (Some x), s') ∧ I s' xs) →
  ∀ xs s, I s xs → ∃ s', forAwait next (Datatypes.S (length xs)) s = (Ok xs, s').
Proof.
  intros Hnil Hcons. induction xs as [|x xs IH]; intros s Hs.
  - destruct (Hnil s Hs) as [s' Hn]. exists s'. cbn [forAwait length]. by rewrite (M_bind_run _ _ _ _ _ Hn).
  - destruct (Hcons s x xs Hs) as (s1 & Hn & Hs1). destruct (IH s1 Hs1) as [s' Hrest]. exists s'.
    change (length (x :: xs)) with (Datatypes.S (length xs)). remember (Datatypes.S (length xs)) as n. cbn [forAwait].
    rewrite (M_bind_run _ _ _ _ _ Hn). by rewrite (M_bind_run _ _ _ _ _ Hrest).
Qed.

(** ** What the views answer *)
Definition isAddress (a : Z) : Prop := 0 ≤ a < 2 ^ 160.
Definition voteFor (s : ConsensusV1) (a : Z) : Z * Z := (a, vo_validator (voteOf s a)).

Lemma votesLoop_run s l : votersOk s l → ∀ fuel i left,
  (Nat.min (Z.to_nat left) (length l - i) ≤ fuel)%nat →
  votesLoop fuel s (link l i) left = Ok (voteFor s <$> take (Z.to_nat left) (drop i l)).
Proof.
  intros Hs. induction fuel as [|fuel IH]; intros i left Hf; destruct (decide (i < length l)%nat) as [Hi|Hi].
  2, 4: rewrite link_beyond, drop_ge, take_nil by lia; by destruct left.
  - assert (Hl : left <= 0) by lia. cbn [votesLoop]. rewrite (proj2 (Z.leb_le left 0) Hl), orb_true_r.
    replace (Z.to_nat left) with 0%nat by lia. done.
  - apply lookup_lt_is_Some_2 in Hi as [a Ha]. rewrite (link_elem _ _ _ Ha). cbn [votesLoop].
    destruct (Z.leb_spec left 0) as [Hl|Hl].
    + rewrite orb_true_r. replace (Z.to_nat left) with 0%nat by lia. done.
    + destruct (Z.eqb_spec a 0) as [->|Ha0]; [by apply list_elem_of_lookup_2, (vt_zero _ _ Hs) in Ha |]. cbn [orb].
      destruct (listed_voter s l i a Hs Ha) as (v & Hv & _ & _ & Hn & _). rewrite Hv, Hn, IH by lia.
      rewrite (drop_S _ _ _ Ha). replace (Z.to_nat left) with (S (Z.to_nat (left - 1))) by lia. cbn. unfold voteFor at 2. by rewrite Hv.
Qed.

(** A page of votes: from the start, or from behind a voter. *)
Lemma getVotes_page s l count i :
  votersOk s l → 0 ≤ count → (i ≤ length l)%nat →
  Election.getVotes (prevLink l i) count s = Ok (voteFor s <$> take (Z.to_nat count) (drop i l)).
Proof.
  intros Hs Hc Hi. unfold Election.getVotes.
  assert (Hstart : (if prevLink l i =? 0 then c_votersHead s else vo_next (voteOf s (prevLink l i))) = link l i).
  { destruct i as [|j]; cbn [prevLink]; [by rewrite (vt_head _ _ Hs) |]. destruct (lookup_lt_is_Some_2 l j) as [a Ha]; [lia |].
    rewrite (link_elem _ _ _ Ha). destruct (Z.eqb_spec a 0) as [->|_]; [by apply list_elem_of_lookup_2, (vt_zero _ _ Hs) in Ha |].
    destruct (listed_voter s l j a Hs Ha) as (v & Hv & _ & _ & Hn & _). by rewrite Hv. }
  rewrite Hstart. apply votesLoop_run; [done |]. rewrite (vt_count _ _ Hs). lia.
Qed.

(** Rounds are numbered from 1. *)
Definition allRounds (s : ConsensusV1) : list (Z * list (Z * Z)) := imap (λ i validators, (Z.of_nat i + 1, validators)) (c_rounds s).

Lemma imap_drop {A B} (f : nat → A → B) l k : imap (λ i, f (k + i)%nat) (drop k l) = drop k (imap f l).
Proof.
  revert f l. induction k as [|k IH]; intros f l; [by rewrite !drop_0 |]. destruct l as [|x l]; [done |]. rewrite imap_cons. cbn [drop].
  rewrite <- IH. done.
Qed.
Lemma imap_take {A B} (f : nat → A → B) l k : imap f (take k l) = take k (imap f l).
Proof. revert f l. induction k as [|k IH]; intros f l; [done |]. destruct l as [|x l]; [done |]. rewrite imap_cons. cbn [take]. by rewrite imap_cons, IH. Qed.

Lemma getRounds_page s offset count :
  (offset ≤ length (c_rounds s))%nat → 0 ≤ count →
  Election.getRounds (Z.of_nat offset) count s = take (Z.to_nat count) (drop offset (allRounds s)).
Proof.
  intros Ho Hc. unfold Election.getRounds, getRoundsCount, allRounds. rewrite Nat2Z.id, <- imap_drop, <- imap_take.
  match goal with |- context [imap _ (take (Z.to_nat ?t) _) = _] => set (total := t) end.
  assert (Ht : take (Z.to_nat total) (drop offset (c_rounds s)) = take (Z.to_nat count) (drop offset (c_rounds s))).
  { unfold total. destruct (Z.leb_spec (Z.of_nat (length (c_rounds s))) (Z.of_nat offset)).
    - by rewrite drop_ge, !take_nil by lia.
    - destruct (Z.ltb_spec (Z.of_nat (length (c_rounds s))) (Z.of_nat offset + count)); [| done]. by rewrite !take_ge by (rewrite length_drop; lia). }
  rewrite Ht. apply imap_ext. intros i x _. f_equal. lia.
Qed.

Section iteration.
Context `{ContractCalls} `{ContractAddresses} (hexAddress : Z → string).

(** A validator, a vote and a round as viem decodes them: addresses and bytes are text. *)
Definition validatorAnswer (v : Z * ValidatorData) : ConsensusContractValidator := {|
  cv_addr := hexAddress v.1;
  cv_voteBalance := vd_voteBalance v.2;
  cv_fee := vd_fee v.2;
  cv_votersCount := vd_votersCount v.2;
  cv_isResigned := vd_isResigned v.2;
  cv_blsPublicKey := "0x" +:+ hexEncode (vd_blsPublicKey v.2);
|}.
Definition voteAnswer (v : Z * Z) : ConsensusContractVote := {| cvt_validator := hexAddress v.2; cvt_voter := hexAddress v.1 |}.
Definition roundAnswer (r : Z * list (Z * Z)) : ConsensusContractValidatorRound :=
  {| cr_round := r.1; cr_validators := (λ v, (hexAddress v.1, v.2)) <$> r.2 |}.

(** What the service relies on: a view answers as the contract in the state [s] does. *)
Class ServesContract (s : ConsensusV1) : Prop := {
  sc_zero : hexAddress 0 = zeroAddress;
  sc_injective : ∀ a b, isAddress a → isAddress b → hexAddress a = hexAddress b → a = b;
  sc_roundValidators : view "getRoundValidators" [] = Ok (ValidatorsAnswer (validatorAnswer <$> Election.getRoundValidators s));
  sc_allValidators : view "getAllValidators" [] = Ok (ValidatorsAnswer (validatorAnswer <$> Election.getAllValidators s));
  sc_votesCount : view "getVotesCount" [] = Ok (NumberAnswer (Election.getVotesCount s));
  sc_votes : ∀ a count votes, isAddress a → 0 ≤ count → Election.getVotes a count s = Ok votes →
    view "getVotes" [AddressArgument (hexAddress a); NumberArgument count] = Ok (VotesAnswer (voteAnswer <$> votes));
  sc_rounds : ∀ offset count, 0 ≤ offset → 0 ≤ count →
    view "getRounds" [NumberArgument offset; NumberArgument count] = Ok (RoundsAnswer (roundAnswer <$> Election.getRounds offset count s));
}.

Definition evmVote (s : ConsensusV1) (a : Z) : EvmVote := mkEvmVote (hexAddress (vo_validator (voteOf s a))) (hexAddress a).
Definition evmRound (r : Z * list (Z * Z)) : ValidatorRound := mkValidatorRound r.1 ((λ v, (hexAddress v.1, v.2)) <$> r.2).

Section state.
Context (s : ConsensusV1) `{!ServesContract s} (l : list Z).

(** The votes yet to come: what is left of the page that ends at [q], and those behind it. *)
Definition votesLeft (it : VotesIterator) (xs : list EvmVote) : Prop :=
  ∃ p q, (p ≤ q ≤ length l)%nat ∧ xs = evmVote s <$> drop p l ∧ vi_address it = hexAddress (prevLink l q) ∧
    (vi_index it ≤ length (vi_votes it))%nat ∧ drop (vi_index it) (vi_votes it) = evmVote s <$> take (q - p) (drop p l).

Lemma yieldVote_left it p q a :
  (p < q ≤ length l)%nat → l !! p = Some a → vi_address it = hexAddress (prevLink l q) →
  drop (vi_index it) (vi_votes it) = evmVote s <$> take (q - p) (drop p l) →
  ∃ it', yieldVote it = (Ok (Some (evmVote s a)), it') ∧ votesLeft it' (evmVote s <$> drop (S p) l).
Proof.
  intros Hpq Ha Haddr Hd. rewrite (drop_S _ _ _ Ha) in Hd. destruct (q - p)%nat as [|m] eqn:Hm; [lia |]. cbn [take fmap list_fmap] in Hd.
  assert (Hi : vi_votes it !! vi_index it = Some (evmVote s a)) by (rewrite <- (Nat.add_0_r (vi_index it)), <- lookup_drop, Hd; done).
  unfold yieldVote. erewrite M_bind_run by reflexivity. erewrite M_bind_run by reflexivity. rewrite Hi. eexists. split; [reflexivity |].
  assert (Hlt := lookup_lt_Some _ _ _ Hi).
  exists (S p), q. cbn [vi_address vi_index vi_votes set_field eta_VotesIterator]. split_and!; try done; try lia.
  rewrite (drop_S _ _ _ Hi) in Hd. injection Hd as Hd. rewrite Hd. by replace (q - S p)%nat with m by lia.
Qed.

Lemma nextVote_left it xs :
  votersOk s l → Forall isAddress l → votesLeft it xs →
  match xs with
  | [] => ∃ it', nextVote it = (Ok None, it')
  | x :: xs' => ∃ it', nextVote it = (Ok (Some x), it') ∧ votesLeft it' xs'
  end.
Proof.
  intros Hs Hadr (p & q & Hpq & -> & Haddr & Hidx & Hd). unfold nextVote. assert (Hlen := f_equal length Hd).
  rewrite length_drop, length_fmap, length_take, length_drop in Hlen. assert (Hn : 0 < VOTES_PER_REQUEST) by (by vm_compute).
  destruct (Nat.eqb_spec (length (vi_votes it)) (vi_index it)) as [Hend|Hmore].
  - assert (q = p) as -> by lia. assert (Hprev : isAddress (prevLink l p)).
    { destruct p as [|j]; [by cbn |]. cbn [prevLink]. rewrite Forall_forall in Hadr. apply Hadr, link_in. lia. }
    assert (Hget : getVotes it = (Ok (evmVote s <$> take (Z.to_nat VOTES_PER_REQUEST) (drop p l)), it)).
    { unfold getVotes. erewrite M_bind_run by reflexivity. rewrite Haddr.
      rewrite (sc_votes _ VOTES_PER_REQUEST _ Hprev ltac:(lia) (getVotes_page s l VOTES_PER_REQUEST p Hs ltac:(lia) ltac:(lia))).
      erewrite M_bind_run by reflexivity. erewrite M_bind_run by reflexivity. unfold mret, M_ret. do 2 f_equal.
      rewrite <- !list_fmap_compose. done. }
    erewrite M_bind_run by reflexivity. rewrite (proj2 (Nat.eqb_eq _ _) Hend). rewrite (M_bind_run _ _ _ _ _ Hget). erewrite M_bind_run by reflexivity.
    remember (Z.to_nat VOTES_PER_REQUEST) as N eqn:HN. destruct (drop p l) as [|a rest] eqn:Hdrop.
    + rewrite take_nil. eexists. reflexivity.
    + assert (Hp : (p < length l)%nat) by (apply (f_equal length) in Hdrop; rewrite length_drop in Hdrop; cbn in Hdrop; lia).
      destruct (lookup_lt_is_Some_2 l p Hp) as [a' Ha']. rewrite (drop_S _ _ _ Ha') in Hdrop. injection Hdrop as -> <-.
      set (m := Nat.min N (length l - p)). assert (Hm : (1 ≤ m)%nat) by lia.
      set (page := take N (a :: drop (S p) l)).
      assert (Hpage : page = take (p + m - p) (drop p l)).
      { unfold page. rewrite <- (drop_S _ _ _ Ha'). replace (p + m - p)%nat with m by lia. unfold m. rewrite <- (length_drop l p).
        rewrite <- take_take. by rewrite (take_ge (drop p l) (length (drop p l))). }
      assert (Hlast : last page = Some (link l (p + m - 1))).
      { rewrite Hpage, last_lookup, length_take, length_drop. replace (pred (Nat.min (p + m - p) (length l - p))) with (m - 1)%nat by lia.
        rewrite lookup_take_lt, lookup_drop by lia. destruct (lookup_lt_is_Some_2 l (p + m - 1)) as [b Hb]; [lia |].
        rewrite (link_elem _ _ _ Hb). by replace (p + (m - 1))%nat with (p + m - 1)%nat by lia. }
      rewrite fmap_last, Hlast. cbn [fmap option_fmap option_map]. erewrite M_bind_run by reflexivity. erewrite M_bind_run by reflexivity.
      cbn [fmap list_fmap]. apply (yieldVote_left _ p (p + m)); [lia | done | | by rewrite <- Hpage].
      cbn [vi_address set_field eta_VotesIterator ev_voterAddress evmVote]. f_equal. destruct (p + m)%nat as [|j] eqn:Hj; [lia |]. cbn. by rewrite Nat.sub_0_r.
  - erewrite M_bind_run by reflexivity. rewrite (proj2 (Nat.eqb_neq _ _) Hmore).
    destruct (lookup_lt_is_Some_2 l p) as [a Ha]; [lia |]. rewrite (drop_S _ _ _ Ha). cbn [fmap list_fmap].
    apply (yieldVote_left it p q); [lia | done | done | done].
Qed.

(** The rounds yet to come. *)
Definition roundsLeft (it : RoundsIterator) (xs : list ValidatorRound) : Prop :=
  ∃ p q, (p ≤ q ≤ length (c_rounds s))%nat ∧ xs = evmRound <$> drop p (allRounds s) ∧ ri_offset it = Z.of_nat q ∧
    (ri_index it ≤ length (ri_rounds it))%nat ∧ drop (ri_index it) (ri_rounds it) = evmRound <$> take (q - p) (drop p (allRounds s)).

Lemma length_allRounds : length (allRounds s) = length (c_rounds s).
Proof. apply length_imap. Qed.

Lemma yieldRound_left it p q r :
  (p < q ≤ length (c_rounds s))%nat → allRounds s !! p = Some r → ri_offset it = Z.of_nat q →
  drop (ri_index it) (ri_rounds it) = evmRound <$> take (q - p) (drop p (allRounds s)) →
  ∃ it', yieldRound it = (Ok (Some (evmRound r)), it') ∧ roundsLeft it' (evmRound <$> drop (S p) (allRounds s)).
Proof.
  intros Hpq Hr Ho Hd. rewrite (drop_S _ _ _ Hr) in Hd. destruct (q - p)%nat as [|m] eqn:Hm; [lia |]. cbn [take fmap list_fmap] in Hd.
  assert (Hi : ri_rounds it !! ri_index it = Some (evmRound r)) by (rewrite <- (Nat.add_0_r (ri_index it)), <- lookup_drop, Hd; done).
  unfold yieldRound. erewrite M_bind_run by reflexivity. erewrite M_bind_run by reflexivity. rewrite Hi. eexists. split; [reflexivity |].
  assert (Hlt := lookup_lt_Some _ _ _ Hi).
  exists (S p), q. cbn [ri_offset ri_index ri_rounds set_field eta_RoundsIterator]. split_and!; try done; try lia.
  rewrite (drop_S _ _ _ Hi) in Hd. injection Hd as Hd. rewrite Hd. by replace (q - S p)%nat with m by lia.
Qed.

Lemma nextRound_left it xs :
  roundsLeft it xs →
  match xs with
  | [] => ∃ it', nextRound it = (Ok None, it')
  | x :: xs' => ∃ it', nextRound it = (Ok (Some x), it') ∧ roundsLeft it' xs'
  end.
Proof.
  intros (p & q & Hpq & -> & Ho & Hidx & Hd). unfold nextRound. assert (Hlen := f_equal length Hd). assert (Hall := length_allRounds).
  rewrite length_drop, length_fmap, length_take, length_drop in Hlen. assert (Hn : 0 < ROUNDS_PER_REQUEST) by (by vm_compute).
  destruct (Nat.eqb_spec (length (ri_rounds it)) (ri_index it)) as [Hend|Hmore].
  - assert (q = p) as -> by lia.
    assert (Hget : getRounds it = (Ok (evmRound <$> take (Z.to_nat ROUNDS_PER_REQUEST) (drop p (allRounds s))), it)).
    { unfold getRounds. erewrite M_bind_run by reflexivity. rewrite Ho.
      rewrite (sc_rounds (Z.of_nat p) ROUNDS_PER_REQUEST) by lia. rewrite (getRounds_page s p ROUNDS_PER_REQUEST) by lia.
      erewrite M_bind_run by reflexivity. erewrite M_bind_run by reflexivity. unfold mret, M_ret. do 2 f_equal.
      rewrite <- !list_fmap_compose. done. }
    erewrite M_bind_run by reflexivity. rewrite (proj2 (Nat.eqb_eq _ _) Hend). rewrite (M_bind_run _ _ _ _ _ Hget). erewrite M_bind_run by reflexivity.
    remember (Z.to_nat ROUNDS_PER_REQUEST) as N eqn:HN. rewrite length_fmap, length_take, length_drop, Hall.
    destruct (drop p (allRounds s)) as [|r rest] eqn:Hdrop.
    + apply (f_equal length) in Hdrop. rewrite length_drop in Hdrop. cbn in Hdrop. rewrite (proj2 (Nat.eqb_eq _ _)) by lia. eexists. reflexivity.
    + assert (Hp : (p < length (allRounds s))%nat) by (apply (f_equal length) in Hdrop; rewrite length_drop in Hdrop; cbn in Hdrop; lia).
      destruct (lookup_lt_is_Some_2 (allRounds s) p Hp) as [r' Hr']. rewrite (drop_S _ _ _ Hr') in Hdrop. injection Hdrop as -> <-.
      set (m := Nat.min N (length (c_rounds s) - p)). assert (Hm : (1 ≤ m)%nat) by lia. rewrite (proj2 (Nat.eqb_neq _ _)) by lia.
      erewrite M_bind_run by reflexivity. erewrite M_bind_run by reflexivity. cbn [fmap list_fmap].
      apply (yieldRound_left _ p (p + m)); [lia | done | |].
      * cbn [ri_offset set_field eta_RoundsIterator]. rewrite Ho. lia.
      * cbn [ri_index ri_rounds set_field eta_RoundsIterator]. rewrite drop_0. f_equal. rewrite <- (drop_S _ _ _ Hr').
        replace (p + m - p)%nat with m by lia. unfold m. rewrite <- Hall, <- (length_drop (allRounds s) p).
        rewrite <- take_take. by rewrite (take_ge (drop p (allRounds s)) (length (drop p (allRounds s)))).
  - erewrite M_bind_run by reflexivity. rewrite (proj2 (Nat.eqb_neq _ _) Hmore).
    destruct (lookup_lt_is_Some_2 (allRounds s) p) as [r Hr]; [lia |]. rewrite (drop_S _ _ _ Hr). cbn [fmap list_fmap].
    apply (yieldRound_left it p q); [lia | done | done | done].
Qed.
End state.

(** C32. Reading the contract in pages misses nothing and repeats nothing: over a contract
    whose voters are the list [l], [for await] over the votes yields the vote of each
    voter once, in the contract's order, and ends; over the rounds it yields every
    round recorded, numbered from 1; and the number of votes is as many as were yielded. *)
Theorem iterations_complete s l :
  ServesContract s → votersOk s l → Forall isAddress l →
  (∃ it, forAwait nextVote (S (length l)) newVotesIterator = (Ok (evmVote s <$> l), it)) ∧
  (∃ it, forAwait nextRound (S (length (c_rounds s))) newRoundsIterator = (Ok (evmRound <$> allRounds s), it)) ∧
  getVotesCount = Ok (Z.of_nat (length l)).
Proof.
  intros Hserve Hs Hadr. split_and!.
  - rewrite <- (length_fmap (evmVote s)). apply (forAwait_list _ (votesLeft s l)).
    + intros it Hit. by apply (nextVote_left s l it []).
    + intros it x xs Hit. by apply (nextVote_left s l it (x :: xs)).
    + exists 0%nat, 0%nat. split_and!; try done; try lia. cbn. by rewrite sc_zero.
  - rewrite <- (length_allRounds s), <- (length_fmap evmRound). apply (forAwait_list _ (roundsLeft s)).
    + intros it Hit. by apply (nextRound_left s it []).
    + intros it x xs Hit. by apply (nextRound_left s it (x :: xs)).
    + exists 0%nat, 0%nat. split_and!; try done; lia.
  - unfold getVotesCount. rewrite sc_votesCount. cbn. unfold Election.getVotesCount. by rewrite (vt_count _ _ Hs).
Qed.

(** C31. From the election to the node: when the owner's call for a round of as many
    validators as the milestone wants has enough active ones, the validator set that
    is rebuilt from the contract has exactly the round's validators, each at the
    position the contract gave it, with its key and votes, and finds that position by
    the validator's address. *)
Theorem round_served `{ContractCrypto} s (env : EvmCall) n v :
  electionOk s → msg_sender = c_owner s → 1 ≤ n < 256 → n ≤ Z.of_nat (length (c_activeValidators s)) →
  Forall isAddress (c_activeValidators s) → ServesContract (transact s (env, CalculateRoundValidators n)) →
  ∃ v', buildRoundValidators n v = (Ok tt, v') ∧
    Z.of_nat (length (c_roundValidators (transact s (env, CalculateRoundValidators n)))) = n ∧
    (∀ i a, c_roundValidators (transact s (env, CalculateRoundValidators n)) !! i = Some a →
      a ∈ c_activeValidators s ∧
      getValidator v' (Z.of_nat i) = Ok (mkValidatorWallet (hexAddress a) (hexEncode (keyOf s a)) (vd_voteBalance (dataOf s a))
        (vd_votersCount (dataOf s a)) (vd_fee (dataOf s a)) (vd_isResigned (dataOf s a))) ∧
      getValidatorIndexByWalletAddress v' (hexAddress a) = Ok (Z.of_nat i)) ∧
    (∀ i, ¬ 0 ≤ i < n → getValidator v' i = Throw (JSError "Validator not found.")) ∧
    (∀ address, address ∉ hexAddress <$> c_roundValidators (transact s (env, CalculateRoundValidators n)) →
      getValidatorIndexByWalletAddress v' address = Throw (JSError "Validator not found.")).
Proof.
  intros Hok Howner Hn Henough Hadr Hserve. destruct (el_round _ Hok) as [rs0 Hr].
  assert (Hcalc := calculate_run s rs0 (Z.to_nat n) (el_active _ Hok) Hr Howner ltac:(lia)). rewrite Z2Nat.id, decide_False in Hcalc by lia.
  destruct Hcalc as (s' & rs & Hrun & Hto & _ & Hperm & _ & Hsame).
  assert (Hs' : transact s (env, CalculateRoundValidators n) = s') by (unfold transact, call; cbn [perform fst snd]; by rewrite Hrun).
  rewrite Hs' in Hserve |- *. assert (Hdata : ∀ a, dataOf s' a = dataOf s a) by (intros a; unfold dataOf; by rewrite (se_data _ _ Hsame)).
  assert (Hin : ∀ a, a ∈ c_roundValidators s' → a ∈ c_activeValidators s) by (intros a; rewrite Hperm; apply (to_sub _ _ _ _ Hto)).
  assert (Hlen := Permutation_length Hperm). rewrite (to_length _ _ _ _ Hto) in Hlen.
  set (wallet := λ a, walletOf (validatorAnswer (a, dataOf s' a))).
  assert (Hc : contractRoundValidators = Ok (wallet <$> c_roundValidators s')).
  { change (getRoundValidators = Ok (wallet <$> c_roundValidators s')). unfold getRoundValidators. rewrite sc_roundValidators. cbn. f_equal.
    unfold Election.getRoundValidators. change (map walletOf) with (fmap (M := list) walletOf). rewrite <- !list_fmap_compose. done. }
  assert (Hnd : NoDup (vw_address <$> (wallet <$> c_roundValidators s'))).
  { rewrite <- list_fmap_compose. apply NoDup_fmap_2_strong; [| rewrite Hperm; apply Hto].
    intros a b Ha Hb Heq. rewrite Forall_forall in Hadr. apply sc_injective; [by apply Hadr, Hin | by apply Hadr, Hin | exact Heq]. }
  destruct (buildRoundValidators_wf n v _ Hc Hnd) as (v' & Hb & Hwf & _); [rewrite length_fmap; lia |].
  destruct (buildRoundValidators_exact n v v' _ Hc Hb) as [Htop Hnone].
  rewrite take_ge in Htop, Hnone by (rewrite length_fmap; lia). rewrite <- list_fmap_compose in Hnone.
  exists v'. split_and!; [done | lia | | | done].
  2: { intros i Hi. unfold getValidator. rewrite Htop. destruct (Z.ltb_spec i 0); [done |].
    rewrite lookup_ge_None_2; [done | rewrite length_fmap; lia]. }
  intros i a Hi. split; [apply Hin; by eapply list_elem_of_lookup_2 |].
  assert (Hw : vs_topValidators v' !! i = Some (wallet a)) by (by rewrite Htop, list_lookup_fmap, Hi).
  split.
  - unfold getValidator. rewrite (proj2 (Z.ltb_ge _ _)) by lia. rewrite Nat2Z.id, Hw. unfold wallet, walletOf, validatorAnswer, keyOf. cbn. by rewrite Hdata.
  - unfold getValidatorIndexByWalletAddress. change (hexAddress a) with (vw_address (wallet a)). by rewrite (Hwf i _ Hw).
Qed.
End iteration.

(** ** A deployment to read *)
Definition exampleAddress (a : Z) : string := "0x" +:+ hexEncode (be_encode 20 a).
Definition parseAddress (s : string) : Z := be_decode (hexDecode (slice2 s)).
#[local] Instance exampleAddresses : ContractAddresses :=
  {| deployerAddress := exampleAddress 99; consensusContractAddress := exampleAddress 100; evmSpec := "Shanghai" |}.

(** An EVM that runs the contract's views in the state [s]. *)
Definition runView (s : ConsensusV1) (data : string * list Argument) : option Answer :=
  match data with
  | ("getRoundValidators", []) => Some (ValidatorsAnswer (validatorAnswer exampleAddress <$> Election.getRoundValidators s))
  | ("getAllValidators", []) => Some (ValidatorsAnswer (validatorAnswer exampleAddress <$> Election.getAllValidators s))
  | ("getVotesCount", []) => Some (NumberAnswer (Election.getVotesCount s))
  | ("getVotes", [AddressArgument a; NumberArgument count]) =>
      match Election.getVotes (parseAddress a) count s with
      | Ok votes => Some (VotesAnswer (voteAnswer exampleAddress <$> votes))
      | Throw _ => None
      end
  | ("getRounds", [NumberArgument offset; NumberArgument count]) => Some (RoundsAnswer (roundAnswer exampleAddress <$> Election.getRounds offset count s))
  | _ => None
  end%string.
Definition exampleCalls (s : ConsensusV1) : ContractCalls := {|
  Data := string * list Argument;
  Output := Answer;
  encodeFunctionData := pair;
  decodeFunctionResult := λ _ output, output;
  evm_view := λ parameters, runView s (view_data parameters);
|}.

Lemma parse_address a : isAddress a → parseAddress (exampleAddress a) = a.
Proof.
  intros Ha. unfold parseAddress, exampleAddress. change (slice2 ("0x" +:+ hexEncode (be_encode 20 a))) with (hexEncode (be_encode 20 a)).
  rewrite hexDecode_Encode. apply be_decode_encode. exact Ha.
Qed.

Lemma exampleCalls_serve s : ServesContract (H := exampleCalls s) exampleAddress s.
Proof.
  split; try done.
  - intros a b Ha Hb Heq. by rewrite <- (parse_address a), <- (parse_address b), Heq.
  - intros a count votes Ha Hc Hv. unfold view. cbn -[Election.getVotes parseAddress exampleAddress]. by rewrite parse_address, Hv.
Qed.

Definition exampleState : ConsensusV1 := @history exampleCrypto 99 10 exampleTxs.
Lemma exampleState_ok : electionOk (H := exampleCrypto) exampleState.
Proof. apply (history_ok (H := exampleCrypto) 99 10 exampleTxs exampleTxs_wf). Qed.

(** The voters in the order of the list: one import and two votes are left. *)
Lemma exampleState_votes : votersOk exampleState [21; 24; 22].
Proof.
  destruct (el_votes _ exampleState_ok) as [l Hl]. assert (Hlen : c_votersCount exampleState = 3) by (vm_compute; reflexivity).
  rewrite (vt_count _ _ Hl) in Hlen. assert (Hv := votesLoop_run exampleState l Hl 3 0 3 ltac:(lia)).
  rewrite <- (vt_head _ _ Hl), drop_0, take_ge in Hv by lia. assert (Hrun : votesLoop 3 exampleState (c_votersHead exampleState) 3 = Ok [(21, 7); (24, 2); (22, 3)]).
  { vm_compute. reflexivity. }
  rewrite Hrun in Hv. injection Hv as Hv. apply (f_equal (λ l, l.*1)) in Hv. rewrite <- list_fmap_compose, (list_fmap_ext _ id), list_fmap_id in Hv by done.
  cbn in Hv. by rewrite Hv.
Qed.

Lemma iterations_complete_witness :
  (∃ it, forAwait (nextVote (H := exampleCalls exampleState)) 4 newVotesIterator = (Ok (evmVote exampleAddress exampleState <$> [21; 24; 22]), it)) ∧
  (∃ it, forAwait (nextRound (H := exampleCalls exampleState)) 2 newRoundsIterator = (Ok (evmRound exampleAddress <$> allRounds exampleState), it)) ∧
  getVotesCount (H := exampleCalls exampleState) = Ok 3.
Proof.
  apply (iterations_complete (H := exampleCalls exampleState) exampleAddress exampleState [21; 24; 22] (exampleCalls_serve _) exampleState_votes).
  repeat constructor; vm_compute; done.
Defined.

(** The round of the next two validators, in the node's validator set. *)
Lemma round_served_witness :
  ∃ v', @buildRoundValidators (@contractService (exampleCalls (@transact exampleCrypto exampleState (from 99 0 0, CalculateRoundValidators 2))) exampleAddresses) 2 newValidatorSet = (Ok tt, v') ∧
    getValidator v' 0 = Ok (mkValidatorWallet (exampleAddress 3) (hexEncode (exampleKey 3)) 60 1 10 false) ∧
    getValidatorIndexByWalletAddress v' (exampleAddress 2) = Ok 1.
Proof.
  assert (Hlen : length (c_activeValidators exampleState) = 3%nat) by (vm_compute; reflexivity). assert (Howner : c_owner exampleState = 99) by (vm_compute; reflexivity).
  assert (Hactive : Forall isAddress (c_activeValidators exampleState)) by (vm_compute c_activeValidators; repeat constructor; vm_compute; done).
  set (s' := @transact exampleCrypto exampleState (from 99 0 0, CalculateRoundValidators 2)).
  destruct (round_served (H := exampleCalls s') exampleAddress (H1 := exampleCrypto) exampleState (from 99 0 0) 2 newValidatorSet exampleState_ok
    (eq_sym Howner) ltac:(lia) ltac:(rewrite Hlen; lia) Hactive (exampleCalls_serve s')) as (v' & Hb & _ & Hall & _ & _).
  assert (Hround : c_roundValidators s' = [3; 2]) by (vm_compute; reflexivity). fold s' in Hall. rewrite Hround in Hall.
  destruct (Hall 0%nat 3 eq_refl) as (_ & H3 & _). destruct (Hall 1%nat 2 eq_refl) as (_ & _ & H2).
  exists v'. split; [exact Hb |]. split; [| exact H2]. etransitivity; [exact H3 |]. vm_compute. reflexivity.
Defined.
