(* ===== verification/BlockchainUtils.v ===== *)
(** * packages/blockchain-utils: proposer-calculator.ts, timestamp-calculator.ts,
    fee-calculator.ts and randao.ts *)
From Stdlib Require Import Ascii.
From S2P Require Import Prelude Bytes Blocks.

(** [milestone.timeouts]. *)
Record Timeouts := mkTimeouts {
  to_blockPrepareTime : Z;
  to_blockTime : Z;
  to_stageTimeout : Z;
  to_stageTimeoutIncrease : Z;
  to_tolerance : Z;
}.

(** ** proposer-calculator.ts; JavaScript's [%] has the sign of the dividend. *)
Definition getValidatorIndexFrom (roundValidators totalRound round : Z) : Z :=
  Z.rem (totalRound + round) roundValidators.

(** ** timestamp-calculator.ts, with [timeouts] those of the milestone at
    [previousBlock.number + 1] and the previous block's timestamp. *)
Definition calculateMinimalTimestamp (timeouts : Timeouts) (previousTimestamp round : Z) : result Z :=
  if 100000 <? round then Throw (JSError "Round is too high")
  else
    let previousRounds := Z.max 0 (round - 1) in
    let increases := to_stageTimeoutIncrease timeouts * previousRounds * (previousRounds + 1) / 2 in
    Ok (previousTimestamp + to_blockTime timeouts + round * to_stageTimeout timeouts + increases).

(** scheduler.ts: [#getTimeout], the length of the stages of a round. *)
Definition getTimeout (timeouts : Timeouts) (round : Z) : Z :=
  to_stageTimeout timeouts + round * to_stageTimeoutIncrease timeouts.

(** ** fee-calculator.ts *)
Definition calculateFee (transaction : Transaction) : Z := tx_gasPrice transaction * tx_gasLimit transaction.
Definition calculateConsumed (gasPrice gasUsed : Z) : Z := gasPrice * gasUsed.

(** ** randao.ts *)
Fixpoint asciiBytes (s : string) : list byte :=
  match s with
  | EmptyString => []
  | String a s' => byte_of_ascii a :: asciiBytes s'
  end.
Definition RANDAO_TAG : list byte := asciiBytes "MAINSAIL_RANDAO".

Definition randaoMessage (genesisBlockHash parentRandaoReveal : string) (blockNumber : Z) : result (list byte) :=
  if (0 <=? blockNumber) && (blockNumber <? 2 ^ 32) then
    Ok (RANDAO_TAG ++ hexDecode genesisBlockHash ++ hexDecode parentRandaoReveal ++ be_encode 4 blockNumber)
  else Throw (JSError "ERR_OUT_OF_RANGE").

Definition getPrevrandao `{HashFactory} (previousBlock : BlockHeader) : list byte :=
  keccak256 (hexDecode (bh_randaoReveal (bh_raw previousBlock))).

(** ** Correctness *)

(** The sum of the stage timeouts of the rounds before [r]. *)
Fixpoint sumTimeouts (timeouts : Timeouts) (r : nat) : Z :=
  match r with
  | O => 0
  | S r' => sumTimeouts timeouts r' + getTimeout timeouts (Z.of_nat r')
  end.

Lemma triangle r : (0 ≤ r) → ∃ k, r * (r + 1) = 2 * k.
Proof.
  intros Hr. destruct (Z.Even_or_Odd r) as [[k ->]|[k ->]].
  - exists (k * (2 * k + 1)). lia.
  - exists ((2 * k + 1) * (k + 1)). lia.
Qed.

Lemma increases_exact c r : 0 ≤ r → 2 * (c * r * (r + 1) / 2) = c * r * (r + 1).
Proof.
  intros Hr. destruct (triangle r Hr) as [k Hk].
  assert (c * r * (r + 1) = (c * k) * 2) as -> by (transitivity (c * (r * (r + 1))); [ring | rewrite Hk; ring]). rewrite Z.div_mul; lia.
Qed.

Lemma sumTimeouts_closed timeouts r :
  2 * sumTimeouts timeouts r =
  2 * (Z.of_nat r * to_stageTimeout timeouts) +
  to_stageTimeoutIncrease timeouts * (Z.of_nat r - 1) * Z.of_nat r.
Proof.
  induction r as [|r IH]; [cbn [sumTimeouts Z.of_nat]; ring |]. cbn [sumTimeouts].
  rewrite Nat2Z.inj_succ, Z.mul_add_distr_l, IH. unfold getTimeout, Z.succ. ring.
Qed.

(** The minimal timestamp of a round is the previous block's timestamp plus
    the block time plus exactly the stage timeouts that the scheduler waits in
    the rounds before it; in particular the division by two loses nothing. *)
Theorem minimal_timestamp_sum timeouts previousTimestamp (r : nat) :
  Z.of_nat r ≤ 100000 →
  calculateMinimalTimestamp timeouts previousTimestamp (Z.of_nat r) =
  Ok (previousTimestamp + to_blockTime timeouts + sumTimeouts timeouts r).
Proof.
  intros Hr. unfold calculateMinimalTimestamp. rewrite (proj2 (Z.ltb_ge _ _)) by lia. f_equal.
  pose proof (sumTimeouts_closed timeouts r) as Hs.
  destruct r as [|r].
  { cbn [sumTimeouts] in *. change (Z.max 0 (Z.of_nat 0 - 1)) with 0. rewrite Z.mul_0_r, Z.mul_0_l. change (0 * (0 + 1) / 2) with 0. ring. }
  rewrite Z.max_r by lia.
  pose proof (increases_exact (to_stageTimeoutIncrease timeouts) (Z.of_nat (S r) - 1) ltac:(lia)) as Hi.
  replace (Z.of_nat (S r) - 1 + 1) with (Z.of_nat (S r)) in * by lia. lia.
Qed.

(** The round limit keeps the computation exact: with every milestone
    timeout below 2^19 milliseconds and a 48-bit previous timestamp, each
    intermediate value of [calculateMinimalTimestamp] stays within the integers
    that a JavaScript number represents exactly. *)
Theorem minimal_timestamp_bounds timeouts previousTimestamp round t :
  0 ≤ to_blockTime timeouts < 2 ^ 19 → 0 ≤ to_stageTimeout timeouts < 2 ^ 19 →
  0 ≤ to_stageTimeoutIncrease timeouts < 2 ^ 19 → 0 ≤ previousTimestamp < 2 ^ 48 → 0 ≤ round →
  calculateMinimalTimestamp timeouts previousTimestamp round = Ok t →
  let previousRounds := Z.max 0 (round - 1) in
  0 ≤ to_stageTimeoutIncrease timeouts * previousRounds * (previousRounds + 1) < 2 ^ 53 ∧
  0 ≤ round * to_stageTimeout timeouts < 2 ^ 53 ∧ previousTimestamp ≤ t < 2 ^ 53.
Proof.
  intros Hb Hs Hi Hp Hr. unfold calculateMinimalTimestamp.
  destruct (Z.ltb_spec 100000 round) as [|Hle]; [done |]. intros [= <-]. cbv zeta.
  set (p := Z.max 0 (round - 1)). assert (0 ≤ p ≤ 99999) as Hpr by lia.
  assert (0 ≤ p * (p + 1) ≤ 99999 * 100000) as Hpp by nia.
  assert (0 ≤ to_stageTimeoutIncrease timeouts * p * (p + 1) < 2 ^ 53) as Hinc by nia.
  assert (0 ≤ round * to_stageTimeout timeouts < 2 ^ 36) as Hst by nia.
  pose proof (increases_exact (to_stageTimeoutIncrease timeouts) p ltac:(lia)).
  split; [done |]. lia.
Qed.

(** Proposers rotate: in any [n] consecutive rounds each of the [n]
    validators is the proposer of exactly one. *)
Theorem proposer_rotation n totalRound round i :
  0 < n → 0 ≤ totalRound → 0 ≤ round → 0 ≤ i < n →
  ∃ k, 0 ≤ k < n ∧ getValidatorIndexFrom n totalRound (round + k) = i ∧
       ∀ k', 0 ≤ k' < n → getValidatorIndexFrom n totalRound (round + k') = i → k' = k.
Proof.
  intros Hn Ht Hr Hi. exists ((i - (totalRound + round)) mod n).
  pose proof (Z.mod_pos_bound (i - (totalRound + round)) n Hn) as Hk.
  unfold getValidatorIndexFrom.
  assert (∀ k, 0 ≤ k → Z.rem (totalRound + (round + k)) n = (totalRound + round + k) mod n) as Hrem.
  { intros k Hk0. rewrite Z.rem_mod_nonneg by lia. f_equal. lia. }
  split; [done |]. split.
  - rewrite Hrem by lia. rewrite Zplus_mod_idemp_r.
    replace (totalRound + round + (i - (totalRound + round))) with i by lia. by apply Z.mod_small.
  - intros k' Hk'. rewrite Hrem by lia. intros Hmod. rewrite <- Hmod at 1.
    rewrite Zminus_mod_idemp_l. replace (totalRound + round + k' - (totalRound + round)) with k' by lia.
    symmetry. by apply Z.mod_small.
Qed.
