(* ===== verification/RoundState.v ===== *)
(** * packages/consensus: aggregator.ts, round-state.ts and commit-state.ts

    A round state collects the proposal and the votes of one round of one block.
    The file models the object with all its methods, the aggregation of its
    votes into a proof and the verification of such a proof, and shows that the
    incrementally kept counts are the numbers of distinct voters. *)
From S2P Require Import Prelude Bytes Messages Blocks Proposals Commits JsMap Quorum ValidatorSet Serializer.

(** [Contracts.Processor.BlockProcessorResult] and what it refers to; a receipt
    is kept as the fields the node's own code reads. *)
Record TransactionReceipt := mkTransactionReceipt {
  tr_status : Z;
  tr_gasUsed : Z;
}.
Record BlockProcessorResult := mkBlockProcessorResult {
  bpr_success : bool;
  bpr_receipts : JsMap string TransactionReceipt;
  bpr_gasUsed : Z;
  bpr_feeUsed : Z;
}.

Definition failedProcessorResult : BlockProcessorResult := mkBlockProcessorResult false [] 0 0.

Record AccountUpdate := mkAccountUpdate {
  au_address : string;
  au_balance : Z;
  au_nonce : Z;
}.
Record ContractEvent := mkContractEvent {
  ce_address : string;
  ce_data : string;
}.

(** The BLS operations of the crypto worker: [consensusSignature("sign" |
    "aggregate" | "verify")] and [publicKeyFactory("aggregate")]. *)
Class BlsWorker := {
  blsSign : list byte → list byte → string;
  blsAggregate : list (list byte) → string;
  blsVerify : list byte → list byte → list byte → bool;
  blsAggregatePublicKeys : list (list byte) → string;
}.

(** ** aggregator.ts *)
Section aggregator.
Context `{BlsWorker}.

Fixpoint aggregateLoop (roundValidators : Z) (signatures : JsMap Z Message)
    (validators : list bool) (buffers : list (list byte)) : result (list bool * list (list byte)) :=
  match signatures with
  | [] => Ok (validators, buffers)
  | (validatorIndex, m) :: rest =>
      if (validatorIndex <? 0) || (roundValidators <=? validatorIndex) then
        Throw (JSError "Failed to aggregate signatures, because validator index is out of range.")
      else aggregateLoop roundValidators rest (arraySet false validators validatorIndex true)
             (buffers ++ [hexDecode (msg_signature m)])
  end.

Definition aggregate (signatures : JsMap Z Message) (roundValidators : Z) : result AggregatedSignature :=
  if negb (isMajority (mapSize signatures) roundValidators) then
    Throw (JSError "Failed to aggregate signatures, because the majority is not reached.")
  else
    '(validators, buffers) ← aggregateLoop roundValidators signatures
                               (replicate (Z.to_nat roundValidators) false) [];
    Ok (mkAggregatedSignature (blsAggregate buffers) validators).

(** The public keys of the validators that signed, in the order of the bitmap. *)
Fixpoint signerKeys (vs : ValidatorSet) (index : Z) (validators : list bool) : result (list (list byte)) :=
  match validators with
  | [] => Ok []
  | signed :: rest =>
      if signed then
        validator ← getValidator vs index;
        keys ← signerKeys vs (index + 1) rest;
        Ok (hexDecode (vw_blsPublicKey validator) :: keys)
      else signerKeys vs (index + 1) rest
  end.

Definition verifyAggregate (vs : ValidatorSet) (signature : AggregatedSignature) (data : list byte)
    (roundValidators : Z) : result bool :=
  if negb (Z.of_nat (length (as_validators signature)) =? roundValidators) then Ok false
  else
    publicKeys ← signerKeys vs 0 (as_validators signature);
    if negb (isMajority (Z.of_nat (length publicKeys)) roundValidators) then Ok false
    else Ok (blsVerify (hexDecode (as_signature signature)) data
               (hexDecode (blsAggregatePublicKeys publicKeys))).
End aggregator.

(** ** round-state.ts: the object *)
Record RoundState := mkRoundState {
  rs_blockNumber : Z;
  rs_round : Z;
  rs_proposal : option Proposal;
  rs_processorResult : option BlockProcessorResult;
  rs_accountUpdates : list AccountUpdate;
  rs_contractEvents : list ContractEvent;
  rs_prevotes : JsMap Z Message;
  rs_prevotesCount : JsMap (option string) Z;
  rs_precommits : JsMap Z Message;
  rs_precommitsCount : JsMap (option string) Z;
  rs_validators : JsMap string ValidatorWallet;
  rs_validatorsSignedPrevote : list bool;
  rs_validatorsSignedPrecommit : list bool;
  rs_proposer : option ValidatorWallet;
  rs_commit : option Commit;
}.
#[export] Instance eta_RoundState : Eta RoundState := λ r,
  mkRoundState (rs_blockNumber r) (rs_round r) (rs_proposal r) (rs_processorResult r)
    (rs_accountUpdates r) (rs_contractEvents r) (rs_prevotes r) (rs_prevotesCount r)
    (rs_precommits r) (rs_precommitsCount r) (rs_validators r) (rs_validatorsSignedPrevote r)
    (rs_validatorsSignedPrecommit r) (rs_proposer r) (rs_commit r).

Definition newRoundState : RoundState :=
  mkRoundState 0 0 None None [] [] [] [] [] [] [] [] [] None None.

(** The operations.  Getters are functions of the object; methods that change it
    live in [M RoundState]. *)
Section roundState.
Context `{Viem} `{BlsWorker}.
(** [configuration.getMilestone(blockNumber).roundValidators]. *)
Context (roundValidatorsAt : Z → Z).

(** [configure]: [validators] is [validatorSet.getRoundValidators()] and
    [proposerIndex] [proposerCalculator.getValidatorIndex(round)]. *)
Definition configure (blockNumber round : Z) (validators : list ValidatorWallet) (proposerIndex : Z)
    (r : RoundState) : RoundState :=
  r <| rs_blockNumber := blockNumber |>
    <| rs_round := round |>
    <| rs_validators := foldl (λ m w, mapSet m (vw_blsPublicKey w) w) (rs_validators r) validators |>
    <| rs_validatorsSignedPrecommit ::= λ l, l ++ ((λ _, false) <$> validators) |>
    <| rs_validatorsSignedPrevote ::= λ l, l ++ ((λ _, false) <$> validators) |>
    <| rs_proposer := if proposerIndex <? 0 then None else validators !! Z.to_nat proposerIndex |>.

Definition rsGetValidator (r : RoundState) (consensusPublicKey : string) : result ValidatorWallet :=
  assert_defined (mapGet (rs_validators r) consensusPublicKey).

Definition hasProposal (r : RoundState) : bool := isSome (rs_proposal r).

Definition addProposal (proposal : Proposal) : M RoundState unit :=
  r ← get;
  if isSome (rs_proposal r) then throw (JSError "Proposal already exists.")
  else modify (λ r, r <| rs_proposal := Some proposal |>).

Definition getProposal (r : RoundState) : option Proposal := rs_proposal r.

Definition getBlock (r : RoundState) : result Block :=
  match rs_proposal r with
  | Some proposal =>
      if isDataDeserialized proposal then payload ← getPayload proposal; Ok (pp_block payload)
      else Throw (JSError "Block is not available, because proposal is not set or deserialized")
  | None => Throw (JSError "Block is not available, because proposal is not set or deserialized")
  end.

Definition setProcessorResult (result : BlockProcessorResult) : M RoundState unit :=
  modify (λ r, r <| rs_processorResult := Some result |>).
Definition hasProcessorResult (r : RoundState) : bool := isSome (rs_processorResult r).
Definition getProcessorResult (r : RoundState) : result BlockProcessorResult :=
  match rs_processorResult r with
  | Some result => Ok result
  | None => Throw (JSError "Processor result is undefined.")
  end.

Definition getAccountUpdates (r : RoundState) : list AccountUpdate := rs_accountUpdates r.
Definition setAccountUpdates (accounts : list AccountUpdate) : M RoundState unit :=
  modify (λ r, r <| rs_accountUpdates := accounts |>).
Definition getContractEvents (r : RoundState) : list ContractEvent := rs_contractEvents r.
Definition setContractEvents (events : list ContractEvent) : M RoundState unit :=
  modify (λ r, r <| rs_contractEvents := events |>).

Definition getPrevoteCount (r : RoundState) (blockHash : option string) : Z :=
  default 0 (mapGet (rs_prevotesCount r) blockHash).
Definition increasePrevoteCount (blockHash : option string) : M RoundState unit :=
  modify (λ r, r <| rs_prevotesCount := mapSet (rs_prevotesCount r) blockHash (getPrevoteCount r blockHash + 1) |>).
Definition getPrecommitCount (r : RoundState) (blockHash : option string) : Z :=
  default 0 (mapGet (rs_precommitsCount r) blockHash).
Definition increasePrecommitCount (blockHash : option string) : M RoundState unit :=
  modify (λ r, r <| rs_precommitsCount := mapSet (rs_precommitsCount r) blockHash (getPrecommitCount r blockHash + 1) |>).

Definition hasPrevote (r : RoundState) (validatorIndex : Z) : bool := mapHas (rs_prevotes r) validatorIndex.
Definition addPrevote (prevote : Message) : M RoundState unit :=
  r ← get;
  if mapHas (rs_prevotes r) (msg_validatorIndex prevote) then throw (JSError "Prevote already exists.")
  else
    modify (λ r, r <| rs_prevotes := mapSet (rs_prevotes r) (msg_validatorIndex prevote) prevote |>);;
    modify (λ r, r <| rs_validatorsSignedPrevote ::= λ l, arraySet false l (msg_validatorIndex prevote) true |>);;
    increasePrevoteCount (msg_blockHash prevote).

Definition hasPrecommit (r : RoundState) (validatorIndex : Z) : bool := mapHas (rs_precommits r) validatorIndex.
Definition addPrecommit (precommit : Message) : M RoundState unit :=
  r ← get;
  if mapHas (rs_precommits r) (msg_validatorIndex precommit) then throw (JSError "Precommit already exists.")
  else
    modify (λ r, r <| rs_precommits := mapSet (rs_precommits r) (msg_validatorIndex precommit) precommit |>);;
    modify (λ r, r <| rs_validatorsSignedPrecommit ::= λ l, arraySet false l (msg_validatorIndex precommit) true |>);;
    increasePrecommitCount (msg_blockHash precommit).

Definition hasMessage (r : RoundState) (message : Message) : result bool :=
  if msg_type message =? MessageType_Prevote then Ok (mapHas (rs_prevotes r) (msg_validatorIndex message))
  else if msg_type message =? MessageType_Precommit then Ok (mapHas (rs_precommits r) (msg_validatorIndex message))
  else Throw (JSError "Invalid message type").

Definition getMessage (r : RoundState) (validatorIndex type : Z) : result (option Message) :=
  if type =? MessageType_Prevote then Ok (mapGet (rs_prevotes r) validatorIndex)
  else if type =? MessageType_Precommit then Ok (mapGet (rs_precommits r) validatorIndex)
  else Throw (JSError "Invalid message type").

Definition addMessage (message : Message) : M RoundState unit :=
  if msg_type message =? MessageType_Prevote then addPrevote message
  else if msg_type message =? MessageType_Precommit then addPrecommit message
  else throw (JSError "Invalid message type").

Definition rsIsMajority (r : RoundState) (size : Z) : bool :=
  isMajority size (roundValidatorsAt (rs_blockNumber r)).
Definition rsIsMinority (r : RoundState) (size : Z) : bool :=
  isMinority size (roundValidatorsAt (rs_blockNumber r)).

Definition hasMajorityPrevotes (r : RoundState) : bool :=
  match rs_proposal r with
  | Some proposal =>
      if isDataDeserialized proposal
      then rsIsMajority r (getPrevoteCount r (Some (p_hash proposal)))
      else false
  | None => false
  end.
Definition hasMajorityPrevotesAny (r : RoundState) : bool := rsIsMajority r (mapSize (rs_prevotes r)).
Definition hasMajorityPrevotesNull (r : RoundState) : bool := rsIsMajority r (getPrevoteCount r None).

Definition hasMajorityPrecommits (r : RoundState) : bool :=
  match rs_proposal r with
  | Some proposal =>
      if isDataDeserialized proposal
      then rsIsMajority r (getPrecommitCount r (Some (p_hash proposal)))
      else false
  | None => false
  end.
Definition hasMajorityPrecommitsAny (r : RoundState) : bool := rsIsMajority r (mapSize (rs_precommits r)).
Definition hasMajorityPrecommitsWithoutProposal (r : RoundState) : bool :=
  if isSome (rs_proposal r) then false
  else existsb (λ kv, isSome kv.1 && rsIsMajority r kv.2) (rs_precommitsCount r).

Definition hasMinorityPrevotesOrPrecommits (r : RoundState) : bool :=
  rsIsMinority r (mapSize (rs_prevotes r)) || rsIsMinority r (mapSize (rs_precommits r)).

Definition getPrevote (r : RoundState) (validatorIndex : Z) : option Message := mapGet (rs_prevotes r) validatorIndex.
Definition getPrevotes (r : RoundState) : list Message := mapValues (rs_prevotes r).
Definition getPrecommit (r : RoundState) (validatorIndex : Z) : option Message := mapGet (rs_precommits r) validatorIndex.
Definition getPrecommits (r : RoundState) : list Message := mapValues (rs_precommits r).
Definition getMessages (r : RoundState) : list Message := mapValues (rs_prevotes r) ++ mapValues (rs_precommits r).

Definition getSignatures (r : RoundState) (messages : JsMap Z Message) : result (JsMap Z Message) :=
  proposal ← assert_defined (rs_proposal r);
  Ok (@filter _ (list (Z * Message)) _ (λ kv, msg_blockHash kv.2 = Some (p_hash proposal)) _ messages).

Definition aggregatePrevotes (r : RoundState) : result AggregatedSignature :=
  signatures ← getSignatures r (rs_prevotes r);
  aggregate signatures (roundValidatorsAt (rs_blockNumber r)).
Definition aggregatePrecommits (r : RoundState) : result AggregatedSignature :=
  signatures ← getSignatures r (rs_precommits r);
  aggregate signatures (roundValidatorsAt (rs_blockNumber r)).

Definition getCommit : M RoundState Commit :=
  r ← get;
  match rs_commit r with
  | Some commit => mret commit
  | None =>
      proposal ← liftR (assert_defined (getProposal r));
      majority ← liftR (aggregatePrecommits r);
      payload ← liftR (getPayload proposal);
      let proof := mkCommitProof (p_round proposal) (as_signature majority) (as_validators majority) in
      serialized ← liftR (serializeCommit (pp_block payload) proof);
      let commit := mkCommit (pp_block payload) proof (hexEncode serialized) in
      modify (λ r, r <| rs_commit := Some commit |>);;
      mret commit
  end.
End roundState.

(** ** commit-state.ts *)
Record CommitState := mkCommitState {
  cs_commit : Commit;
  cs_processorResult : option BlockProcessorResult;
  cs_validators : JsMap string ValidatorWallet;
  cs_accountUpdates : list AccountUpdate;
  cs_contractEvents : list ContractEvent;
}.
#[export] Instance eta_CommitState : Eta CommitState := λ c,
  mkCommitState (cs_commit c) (cs_processorResult c) (cs_validators c) (cs_accountUpdates c) (cs_contractEvents c).

Definition cs_blockNumber (c : CommitState) : Z := b_number (c_block (cs_commit c)).
Definition cs_round (c : CommitState) : Z := cp_round (c_proof (cs_commit c)).
Definition csConfigure (commit : Commit) (validators : list ValidatorWallet) : CommitState :=
  mkCommitState commit None (foldl (λ m w, mapSet m (vw_blsPublicKey w) w) [] validators) [] [].
