(* ===== verification/RoundStateFacts.v ===== *)
(** * Correctness of round states and of the aggregator

    The counts a round state keeps incrementally are the numbers of distinct
    validators that voted; a majority is a quorum; two values never both have
    one; and the proof aggregated from a majority verifies. *)
From S2P Require Import Prelude Bytes Messages Blocks Proposals Commits JsMap Quorum ValidatorSet Serializer.
From S2P Require Import RoundState.

Definition votesFor (messages : JsMap Z Message) (h : option string) : list (Z * Message) :=
  @filter _ (list (Z * Message)) _ (λ kv, msg_blockHash kv.2 = h) _ messages.

Definition voters (messages : JsMap Z Message) (h : option string) : gset Z :=
  list_to_set (votesFor messages h).*1.

(** The three representations of one kind of votes agree. *)
Record tallyOk (n : Z) (messages : JsMap Z Message) (counts : JsMap (option string) Z)
    (signed : list bool) : Prop := {
  tally_keys : wfMap messages;
  tally_index : ∀ i m, (i, m) ∈ messages → msg_validatorIndex m = i ∧ 0 ≤ i < n;
  tally_counts : ∀ h, default 0 (mapGet counts h) = Z.of_nat (length (votesFor messages h));
  tally_countKeys : wfMap counts;
  tally_length : Z.of_nat (length signed) = n;
  tally_signed : ∀ i b, signed !! i = Some b → b = mapHas messages (Z.of_nat i);
}.

Record wfRoundState (n : Z) (r : RoundState) : Prop := {
  wf_prevotes : tallyOk n (rs_prevotes r) (rs_prevotesCount r) (rs_validatorsSignedPrevote r);
  wf_precommits : tallyOk n (rs_precommits r) (rs_precommitsCount r) (rs_validatorsSignedPrecommit r);
}.

(** ** Counting voters *)
Lemma votesFor_app m1 m2 h : votesFor (m1 ++ m2) h = votesFor m1 h ++ votesFor m2 h.
Proof. apply filter_app. Qed.

Lemma votesFor_sub messages h i m : (i, m) ∈ votesFor messages h ↔ msg_blockHash m = h ∧ (i, m) ∈ messages.
Proof. unfold votesFor. by rewrite list_elem_of_filter. Qed.

Lemma NoDup_votesFor messages h : wfMap messages → NoDup (votesFor messages h).*1.
Proof.
  unfold wfMap, mapKeys, votesFor. induction messages as [|[i m] l IH]; [constructor |].
  rewrite fmap_cons, filter_cons. intros [Hi Hnd]%NoDup_cons. case_decide; [| auto].
  rewrite fmap_cons. apply NoDup_cons. split; [| auto].
  intros ([i' m'] & Heq & [_ Hin]%list_elem_of_filter)%list_elem_of_fmap. apply Hi, list_elem_of_fmap.
  by exists (i', m').
Qed.

Lemma elem_of_voters messages h i :
  i ∈ voters messages h ↔ ∃ m, (i, m) ∈ messages ∧ msg_blockHash m = h.
Proof.
  unfold voters. rewrite elem_of_list_to_set, list_elem_of_fmap. split.
  - intros ([i' m] & -> & [Hh Hin]%votesFor_sub). eauto.
  - intros (m & Hin & Hh). exists (i, m). split; [done |]. by apply votesFor_sub.
Qed.

Lemma size_voters messages h :
  wfMap messages → size (voters messages h) = length (votesFor messages h).
Proof.
  intros Hwf. unfold voters. rewrite size_list_to_set by (by apply NoDup_votesFor).
  apply length_fmap.
Qed.

Lemma voters_disjoint messages h h' :
  wfMap messages → h ≠ h' → voters messages h ## voters messages h'.
Proof.
  intros Hwf Hne i (m & Hin & Hm)%elem_of_voters (m' & Hin' & Hm')%elem_of_voters.
  apply mapGet_wf in Hin; [| done]. apply mapGet_wf in Hin'; [| done]. congruence.
Qed.

Section tally.
Context (n : Z).

Lemma voters_inRange messages counts signed h :
  tallyOk n messages counts signed → inRange n (voters messages h).
Proof.
  intros Hok i (m & Hin & _)%elem_of_voters. by destruct (tally_index _ _ _ _ Hok i m Hin).
Qed.

Lemma tally_nil signed :
  Z.of_nat (length signed) = n → (∀ b, b ∈ signed → b = false) → tallyOk n [] [] signed.
Proof.
  intros Hl Hs. split; try done.
  - constructor.
  - by intros i m ?%elem_of_nil.
  - constructor.
  - intros i b Hi. apply Hs, list_elem_of_lookup. eauto.
Qed.

(** Adding a vote of a validator that has none keeps the tally exact. *)
Lemma tally_add messages counts signed m :
  tallyOk n messages counts signed → 0 ≤ msg_validatorIndex m < n →
  mapHas messages (msg_validatorIndex m) = false →
  tallyOk n (mapSet messages (msg_validatorIndex m) m)
    (mapSet counts (msg_blockHash m) (default 0 (mapGet counts (msg_blockHash m)) + 1))
    (arraySet false signed (msg_validatorIndex m) true).
Proof.
  intros Hok Hi Hnew. assert (mapGet messages (msg_validatorIndex m) = None) as Hnone
    by (by apply mapGet_None, mapHas_false).
  destruct Hok as [Hk Hx Hc Hck Hl Hs].
  split; [by apply wfMap_set | | | by apply wfMap_set | |].
  - intros i m'. rewrite mapSet_fresh by done.
    intros [Hin|[= -> ->]%list_elem_of_singleton]%elem_of_app; auto.
  - intros h. rewrite (mapSet_fresh messages), votesFor_app, length_app, mapGet_set by done.
    unfold votesFor at 2. rewrite filter_cons, filter_nil. cbn [snd].
    destruct (decide (msg_blockHash m = h)) as [->|Hne]; simpl; rewrite Hc; lia.
  - rewrite arraySet_length; lia.
  - intros i b. rewrite arraySet_lookup by lia. unfold mapHas. rewrite mapGet_set.
    destruct (decide (Z.of_nat i = msg_validatorIndex m)) as [Heq|Hne].
    + intros [= <-]. by rewrite decide_True by congruence.
    + intros Hb. rewrite decide_False by congruence. by apply Hs.
Qed.

Lemma tally_quorum messages counts signed h :
  tallyOk n messages counts signed →
  isMajority (default 0 (mapGet counts h)) n = true → quorum n (voters messages h).
Proof.
  intros Hok. unfold quorum. rewrite (tally_counts _ _ _ _ Hok), size_voters by apply Hok. done.
Qed.

Lemma tally_quorum_unique messages counts signed h h' :
  0 ≤ n → tallyOk n messages counts signed →
  quorum n (voters messages h) → quorum n (voters messages h') → h = h'.
Proof.
  intros Hn Hok Hq Hq'. destruct (decide (h = h')) as [|Hne]; [done |]. exfalso.
  pose proof (quorum_overlap n _ _ Hn (voters_inRange _ _ _ h Hok) (voters_inRange _ _ _ h' Hok) Hq Hq') as Ho.
  pose proof (voters_disjoint messages h h' (tally_keys _ _ _ _ Hok) Hne) as Hd.
  apply disjoint_intersection_L in Hd. rewrite Hd, size_empty in Ho. lia.
Qed.
End tally.

(** ** Every operation preserves the invariant *)
Section preservation.
Context (n : Z).

Lemma configure_wf blockNumber round validators i :
  Z.of_nat (length validators) = n →
  wfRoundState n (configure blockNumber round validators i newRoundState).
Proof.
  intros Hl. split; apply tally_nil; cbn; try (by rewrite length_fmap);
    intros b (w & -> & _)%list_elem_of_fmap; done.
Qed.

Lemma addProposal_wf p r : wfRoundState n r → wfRoundState n (addProposal p r).2.
Proof.
  intros Hwf. unfold addProposal, mbind, M_bind, get. destruct (isSome _); [done |].
  destruct Hwf. by split.
Qed.

Lemma addPrevote_wf m r :
  wfRoundState n r → 0 ≤ msg_validatorIndex m < n → wfRoundState n (addPrevote m r).2.
Proof.
  intros [Hp Hc] Hi. unfold addPrevote, mbind, M_bind, get.
  destruct (mapHas _ _) eqn:Hh; [by split |]. split; [| exact Hc]. by apply (tally_add n).
Qed.

Lemma addPrecommit_wf m r :
  wfRoundState n r → 0 ≤ msg_validatorIndex m < n → wfRoundState n (addPrecommit m r).2.
Proof.
  intros [Hp Hc] Hi. unfold addPrecommit, mbind, M_bind, get.
  destruct (mapHas _ _) eqn:Hh; [by split |]. split; [exact Hp |]. by apply (tally_add n).
Qed.

Lemma addMessage_wf m r :
  wfRoundState n r → 0 ≤ msg_validatorIndex m < n → wfRoundState n (addMessage m r).2.
Proof.
  intros Hwf Hi. unfold addMessage. destruct (_ =? _); [by apply addPrevote_wf |].
  destruct (_ =? _); [by apply addPrecommit_wf | done].
Qed.
End preservation.

(** A sequence of [addProposal] and [addMessage] calls on a round state, errors
    ignored as the callers log them. *)
Inductive RoundInput :=
  | InProposal (p : Proposal)
  | InMessage (m : Message).

Definition feed (r : RoundState) (i : RoundInput) : RoundState :=
  match i with
  | InProposal p => (addProposal p r).2
  | InMessage m => (addMessage m r).2
  end.

Definition inputInRange (n : Z) (i : RoundInput) : Prop :=
  match i with InProposal _ => True | InMessage m => 0 ≤ msg_validatorIndex m < n end.

Lemma feed_wf n l r :
  wfRoundState n r → Forall (inputInRange n) l → wfRoundState n (foldl feed r l).
Proof.
  revert r; induction l as [|[p|m] l IH]; intros r Hwf Hall; [done | |];
    apply Forall_cons in Hall as [Hi Hall]; apply IH; try done.
  - by apply addProposal_wf.
  - by apply addMessage_wf.
Qed.

(** What a list of inputs says: the first proposal, and the first message of a
    type that a validator sent. *)
Definition firstProposal (l : list RoundInput) : option Proposal :=
  head (omap (λ i, match i with InProposal p => Some p | _ => None end) l).

Definition messageOf (type validatorIndex : Z) (i : RoundInput) : option Message :=
  match i with
  | InMessage m => if decide (msg_type m = type ∧ msg_validatorIndex m = validatorIndex) then Some m else None
  | InProposal _ => None
  end.

Definition firstVote (type : Z) (l : list RoundInput) (validatorIndex : Z) : option Message :=
  head (omap (messageOf type validatorIndex) l).

(** The validators below [n] whose first message of the type has the value. *)
Definition votersOf (type : Z) (l : list RoundInput) (n : nat) (h : option string) : list nat :=
  filter (λ i, msg_blockHash <$> firstVote type l (Z.of_nat i) = Some h) (seq 0 n).

Lemma head_omap_snoc {A B} (f : A → option B) l x :
  head (omap f (l ++ [x])) = match head (omap f l) with Some y => Some y | None => f x end.
Proof. rewrite omap_app. destruct (omap f l); cbn; [by destruct (f x) | done]. Qed.

Lemma addPrevote_get m r i :
  mapGet (rs_prevotes (addPrevote m r).2) i =
    match mapGet (rs_prevotes r) i with
    | Some m' => Some m'
    | None => if decide (msg_validatorIndex m = i) then Some m else None
    end ∧
  rs_precommits (addPrevote m r).2 = rs_precommits r ∧ rs_proposal (addPrevote m r).2 = rs_proposal r.
Proof.
  unfold addPrevote, mbind, M_bind, get, mapHas. destruct (mapGet (rs_prevotes r) _) as [m'|] eqn:Hm; cbn.
  - split; [| done]. case_decide as Hi; [subst i; by rewrite Hm | by destruct (mapGet _ i)].
  - split; [| done]. rewrite mapGet_set. case_decide as Hi; [subst i; by rewrite Hm | by destruct (mapGet _ i)].
Qed.

Lemma addPrecommit_get m r i :
  mapGet (rs_precommits (addPrecommit m r).2) i =
    match mapGet (rs_precommits r) i with
    | Some m' => Some m'
    | None => if decide (msg_validatorIndex m = i) then Some m else None
    end ∧
  rs_prevotes (addPrecommit m r).2 = rs_prevotes r ∧ rs_proposal (addPrecommit m r).2 = rs_proposal r.
Proof.
  unfold addPrecommit, mbind, M_bind, get, mapHas. destruct (mapGet (rs_precommits r) _) as [m'|] eqn:Hm; cbn.
  - split; [| done]. case_decide as Hi; [subst i; by rewrite Hm | by destruct (mapGet _ i)].
  - split; [| done]. rewrite mapGet_set. case_decide as Hi; [subst i; by rewrite Hm | by destruct (mapGet _ i)].
Qed.

(** A fed round state holds the first proposal and the first votes. *)
Lemma feed_first r l :
  rs_proposal r = None → rs_prevotes r = [] → rs_precommits r = [] →
  rs_proposal (foldl feed r l) = firstProposal l ∧
  (∀ i, mapGet (rs_prevotes (foldl feed r l)) i = firstVote MessageType_Prevote l i) ∧
  (∀ i, mapGet (rs_precommits (foldl feed r l)) i = firstVote MessageType_Precommit l i).
Proof.
  intros Hp Hv Hc. induction l as [|x l (IHp & IHv & IHc)] using rev_ind.
  { cbn. by rewrite Hp, Hv, Hc. }
  rewrite foldl_app. cbn [foldl]. set (r1 := foldl feed r l) in *.
  unfold firstProposal, firstVote. rewrite head_omap_snoc. setoid_rewrite head_omap_snoc.
  fold (firstProposal l). setoid_rewrite <- IHv. setoid_rewrite <- IHc. rewrite <- IHp. destruct x as [p|m]; cbn [feed messageOf].
  - unfold addProposal, mbind, M_bind, get. destruct (rs_proposal r1) eqn:Hr; cbn; rewrite ?Hr;
      (split; [done |]; split; intros i; by destruct (mapGet _ i)).
  - unfold addMessage. destruct (Z.eqb_spec (msg_type m) MessageType_Prevote) as [Ht|Ht].
    + destruct (addPrevote_get m r1 0) as (_ & Hc1 & Hp1). rewrite Hc1, Hp1. split; [by destruct (rs_proposal r1) |].
      split; intros i; [rewrite (proj1 (addPrevote_get m r1 i)) | rewrite Ht];
        destruct (mapGet _ i); try done; repeat case_decide; naive_solver.
    + destruct (Z.eqb_spec (msg_type m) MessageType_Precommit) as [Ht'|Ht'].
      * destruct (addPrecommit_get m r1 0) as (_ & Hv1 & Hp1). rewrite Hv1, Hp1. split; [by destruct (rs_proposal r1) |].
        split; intros i; [rewrite Ht' | rewrite (proj1 (addPrecommit_get m r1 i))];
          destruct (mapGet _ i); try done; repeat case_decide; naive_solver.
      * cbn. split; [by destruct (rs_proposal r1) |].
        split; intros i; destruct (mapGet _ i); try done; case_decide; naive_solver.
Qed.

(** The votes for a value in a tally that holds the first votes of a list. *)
Lemma votesFor_first n messages counts signed type l h :
  tallyOk n messages counts signed → (∀ i, mapGet messages i = firstVote type l i) →
  length (votesFor messages h) = length (votersOf type l (Z.to_nat n) h).
Proof.
  intros Hok Hfirst. rewrite <- (length_fmap fst), <- (length_fmap Z.of_nat (votersOf _ _ _ _)).
  apply Permutation_length, NoDup_Permutation.
  - apply NoDup_votesFor, Hok.
  - apply NoDup_fmap_2; [apply _ |]. apply NoDup_filter, NoDup_seq.
  - intros i. rewrite !list_elem_of_fmap. split.
    + intros ([i' m] & -> & [Hh Hin]%votesFor_sub). destruct (tally_index _ _ _ _ Hok _ _ Hin) as [_ Hr].
      apply mapGet_wf in Hin; [| apply Hok]. exists (Z.to_nat i'). cbn. split; [lia |].
      apply list_elem_of_filter. rewrite Z2Nat.id, <- Hfirst, Hin, elem_of_seq by lia. cbn. split; [by f_equal | lia].
    + intros (k & -> & [Hf _]%list_elem_of_filter). rewrite <- Hfirst in Hf.
      destruct (mapGet messages (Z.of_nat k)) as [m|] eqn:Hm; [| done]. injection Hf as Hf.
      exists (Z.of_nat k, m). split; [done |]. apply votesFor_sub. split; [done |]. by apply mapGet_elem.
Qed.

Lemma signed_first n messages counts signed type l :
  tallyOk n messages counts signed → (∀ i, mapGet messages i = firstVote type l i) →
  signed = (λ i, isSome (firstVote type l (Z.of_nat i))) <$> seq 0 (Z.to_nat n).
Proof.
  intros Hok Hfirst. pose proof (tally_length _ _ _ _ Hok) as Hl. apply list_eq. intros i.
  rewrite list_lookup_fmap. destruct (signed !! i) as [b|] eqn:Hb.
  - rewrite lookup_seq_lt by (apply lookup_lt_Some in Hb; lia). cbn. f_equal. rewrite <- Hfirst.
    rewrite (tally_signed _ _ _ _ Hok i b Hb). unfold mapHas. by destruct (mapGet _ _).
  - rewrite lookup_seq_ge; [done |]. apply lookup_ge_None in Hb. lia.
Qed.

Section majority.
Context (roundValidatorsAt : Z → Z).

(** C22. Whatever proposals and votes of validators in range a fresh round
    state is fed with, in any order and with duplicates: it holds the first
    proposal, and each validator's first prevote and first precommit; the count
    it keeps of the prevotes (precommits) for a value is the number of
    validators whose first prevote (precommit) in the list has that value; and
    the bitmaps mark exactly the validators with a prevote (a precommit). *)
Theorem roundState_counts_exact blockNumber round validators proposer l h :
  let n := length validators in
  Forall (inputInRange (Z.of_nat n)) l →
  let r := foldl feed (configure blockNumber round validators proposer newRoundState) l in
  getProposal r = firstProposal l ∧
  (∀ i, getPrevote r i = firstVote MessageType_Prevote l i) ∧
  (∀ i, getPrecommit r i = firstVote MessageType_Precommit l i) ∧
  getPrevoteCount r h = Z.of_nat (length (votersOf MessageType_Prevote l n h)) ∧
  getPrecommitCount r h = Z.of_nat (length (votersOf MessageType_Precommit l n h)) ∧
  rs_validatorsSignedPrevote r = (λ i, isSome (firstVote MessageType_Prevote l (Z.of_nat i))) <$> seq 0 n ∧
  rs_validatorsSignedPrecommit r = (λ i, isSome (firstVote MessageType_Precommit l (Z.of_nat i))) <$> seq 0 n.
Proof.
  intros n Hall r. assert (wfRoundState (Z.of_nat n) r) as [Hp Hc] by (apply feed_wf; [by apply configure_wf | done]).
  destruct (feed_first (configure blockNumber round validators proposer newRoundState) l) as (H1 & H2 & H3); try done.
  fold r in H1, H2, H3. unfold getPrevoteCount, getPrecommitCount. rewrite (tally_counts _ _ _ _ Hp), (tally_counts _ _ _ _ Hc).
  rewrite (votesFor_first _ _ _ _ _ _ _ Hp H2), (votesFor_first _ _ _ _ _ _ _ Hc H3), Nat2Z.id.
  pose proof (signed_first _ _ _ _ _ _ Hp H2) as H4. pose proof (signed_first _ _ _ _ _ _ Hc H3) as H5.
  rewrite Nat2Z.id in H4, H5. auto 10.
Qed.

Lemma hasMajorityPrevotes_inv r :
  hasMajorityPrevotes roundValidatorsAt r = true →
  ∃ p, rs_proposal r = Some p ∧ isDataDeserialized p = true ∧
       rsIsMajority roundValidatorsAt r (getPrevoteCount r (Some (p_hash p))) = true.
Proof.
  unfold hasMajorityPrevotes. destruct (rs_proposal r) as [p|]; [| done].
  destruct (isDataDeserialized p) eqn:Hd; [eauto | done].
Qed.

Lemma hasMajorityPrecommits_inv r :
  hasMajorityPrecommits roundValidatorsAt r = true →
  ∃ p, rs_proposal r = Some p ∧ isDataDeserialized p = true ∧
       rsIsMajority roundValidatorsAt r (getPrecommitCount r (Some (p_hash p))) = true.
Proof.
  unfold hasMajorityPrecommits. destruct (rs_proposal r) as [p|]; [| done].
  destruct (isDataDeserialized p) eqn:Hd; [eauto | done].
Qed.

Lemma majorityPrevotes_quorum r p :
  wfRoundState (roundValidatorsAt (rs_blockNumber r)) r →
  rs_proposal r = Some p → hasMajorityPrevotes roundValidatorsAt r = true →
  quorum (roundValidatorsAt (rs_blockNumber r)) (voters (rs_prevotes r) (Some (p_hash p))).
Proof.
  intros Hwf Hp Hm. apply hasMajorityPrevotes_inv in Hm as (p' & Hp' & _ & Hm).
  rewrite Hp in Hp'. injection Hp' as <-. eapply tally_quorum; [apply Hwf | exact Hm].
Qed.

(** In one round a node never sees +2/3 prevotes for two different
    values, nil included: the rules on a majority for the proposal and on a
    majority for nil exclude each other.  The same holds of precommits. *)
Theorem majority_unique r h h' :
  let n := roundValidatorsAt (rs_blockNumber r) in
  0 ≤ n → wfRoundState n r →
  (rsIsMajority roundValidatorsAt r (getPrevoteCount r h) = true →
   rsIsMajority roundValidatorsAt r (getPrevoteCount r h') = true → h = h') ∧
  (rsIsMajority roundValidatorsAt r (getPrecommitCount r h) = true →
   rsIsMajority roundValidatorsAt r (getPrecommitCount r h') = true → h = h') ∧
  (hasMajorityPrevotes roundValidatorsAt r = true → hasMajorityPrevotesNull roundValidatorsAt r = false).
Proof.
  intros n Hn [Hp Hc].
  assert (∀ h h', rsIsMajority roundValidatorsAt r (getPrevoteCount r h) = true →
    rsIsMajority roundValidatorsAt r (getPrevoteCount r h') = true → h = h') as Hpre.
  { intros h1 h2 H1 H2. eapply (tally_quorum_unique n); [done | exact Hp | |]; by eapply tally_quorum. }
  split; [apply Hpre | split].
  - intros H1 H2. eapply (tally_quorum_unique n); [done | exact Hc | |]; by eapply tally_quorum.
  - intros (p & _ & _ & Hm)%hasMajorityPrevotes_inv. apply not_true_iff_false. intros Hnull.
    by specialize (Hpre _ _ Hm Hnull).
Qed.
End majority.

(** ** Aggregated proofs

    The law of BLS that the protocol uses: signatures of the same data aggregate
    to a signature of the aggregated public keys, whatever the order. *)
Class BlsLaws `{BlsWorker} := {
  bls_aggregate_verify data (pairs : list (list byte * list byte)) keys :
    pairs ≠ [] → (∀ s k, (s, k) ∈ pairs → blsVerify s data k = true) → pairs.*2 ≡ₚ keys →
    blsVerify (hexDecode (blsAggregate pairs.*1)) data (hexDecode (blsAggregatePublicKeys keys)) = true;
}.

Fixpoint positions (i : Z) (l : list bool) : list Z :=
  match l with
  | [] => []
  | b :: l' => if b then i :: positions (i + 1) l' else positions (i + 1) l'
  end.

Lemma elem_of_positions i l j :
  j ∈ positions i l ↔ ∃ k, l !! k = Some true ∧ j = i + Z.of_nat k.
Proof.
  revert i; induction l as [|b l IH]; intros i.
  { split; [by intros ?%elem_of_nil | by intros (k & ? & _)]. }
  assert (j ∈ positions (i + 1) l ↔ ∃ k, (b :: l) !! S k = Some true ∧ j = i + Z.of_nat (S k)) as IH'.
  { rewrite IH. split; intros (k & Hk & ->); exists k; (split; [exact Hk | lia]). }
  destruct b; cbn [positions]; rewrite ?elem_of_cons, IH'; split.
  - intros [->|(k & Hk & Hj)]; [exists 0%nat; split; [done | lia] | eauto].
  - intros ([|k] & Hk & Hj); [left; lia | right; eauto].
  - intros (k & Hk & Hj). eauto.
  - intros ([|k] & Hk & Hj); [done | eauto].
Qed.

Lemma NoDup_positions i l : NoDup (positions i l).
Proof.
  revert i; induction l as [|[] l IH]; intros i; cbn [positions]; [constructor | | apply IH].
  apply NoDup_cons. split; [| apply IH]. intros (k & _ & Hk)%elem_of_positions. lia.
Qed.

Section aggregation.
Context `{BlsWorker} (n : Z).

Lemma aggregateLoop_spec signatures bitmap buffers :
  (∀ i m, (i, m) ∈ signatures → 0 ≤ i < n) → Z.of_nat (length bitmap) = n →
  ∃ bitmap', aggregateLoop n signatures bitmap buffers =
               Ok (bitmap', buffers ++ ((λ kv, hexDecode (msg_signature kv.2)) <$> signatures)) ∧
    length bitmap' = length bitmap ∧
    ∀ k, bitmap' !! k = Some true ↔ bitmap !! k = Some true ∨ Z.of_nat k ∈ signatures.*1.
Proof.
  revert bitmap buffers; induction signatures as [|[i m] l IH]; intros bitmap buffers Hin Hl.
  { exists bitmap. cbn. rewrite app_nil_r. split; [done |]. split; [done |].
    intros k. split; [auto | by intros [|?%elem_of_nil]]. }
  assert (0 ≤ i < n) as Hi by (apply (Hin i m); left).
  cbn [aggregateLoop]. rewrite (proj2 (Z.ltb_ge _ _)), (proj2 (Z.leb_gt _ _)) by lia. cbn [orb].
  destruct (IH (arraySet false bitmap i true) (buffers ++ [hexDecode (msg_signature m)]))
    as (b' & Hb & Hl' & Hk).
  { intros i' m' Hi'. apply (Hin i' m'). by right. }
  { rewrite arraySet_length; lia. }
  exists b'. rewrite Hb, <- app_assoc. split; [done |]. split; [by rewrite Hl', arraySet_length by lia |].
  intros k. rewrite Hk, arraySet_lookup, fmap_cons, elem_of_cons by lia. cbn [fst].
  case_decide as Hd; [| tauto]. split; [auto | intros _; by left].
Qed.

(** The public key at an index. *)
Definition keyAt (vs : ValidatorSet) (i : Z) : list byte :=
  match getValidator vs i with Ok w => hexDecode (vw_blsPublicKey w) | Throw _ => [] end.

Lemma signerKeys_spec vs i bitmap :
  0 ≤ i → i + Z.of_nat (length bitmap) ≤ Z.of_nat (length (vs_topValidators vs)) →
  signerKeys vs i bitmap = Ok (keyAt vs <$> positions i bitmap).
Proof.
  revert i; induction bitmap as [|b l IH]; intros i Hi Hl; [done |]. cbn [length] in Hl.
  cbn [signerKeys positions]. rewrite (IH (i + 1)) by lia. destruct b; [| done].
  destruct (lookup_lt_is_Some_2 (vs_topValidators vs) (Z.to_nat i)) as [w Hw]; [lia |].
  rewrite fmap_cons. unfold keyAt at 2, getValidator. rewrite (proj2 (Z.ltb_ge _ _)) by lia.
  by rewrite Hw.
Qed.

(** Aggregating the votes for one value of an exact tally succeeds, and the
    bitmap of the proof marks exactly the voters. *)
Lemma aggregate_votes messages counts signed h :
  tallyOk n messages counts signed →
  isMajority (default 0 (mapGet counts h)) n = true →
  let votes := votesFor messages h in
  ∃ bitmap, aggregate votes n =
              Ok (mkAggregatedSignature (blsAggregate ((λ kv, hexDecode (msg_signature kv.2)) <$> votes)) bitmap) ∧
    Z.of_nat (length bitmap) = n ∧ votes.*1 ≡ₚ positions 0 bitmap ∧ votes ≠ [] ∧
    isMajority (Z.of_nat (length votes)) n = true.
Proof.
  intros Hwf Hmaj votes. rewrite (tally_counts _ _ _ _ Hwf) in Hmaj. fold votes in Hmaj.
  pose proof (tally_length _ _ _ _ Hwf) as Hn.
  unfold aggregate, mapSize. rewrite Hmaj. cbn [negb].
  destruct (aggregateLoop_spec votes (replicate (Z.to_nat n) false) []) as (bitmap & -> & Hlen & Hbits).
  { intros i m [_ Hin]%votesFor_sub. by destruct (tally_index _ _ _ _ Hwf i m Hin). }
  { rewrite length_replicate. lia. }
  rewrite length_replicate in Hlen. exists bitmap. split; [done |]. split; [lia |]. split; [| split; [| done]].
  - apply NoDup_Permutation; [by apply NoDup_votesFor, Hwf | apply NoDup_positions |].
    intros i. rewrite elem_of_positions. split.
    + intros Hi. assert (0 ≤ i) by (apply list_elem_of_fmap in Hi as ([i' m] & -> & [_ Hin]%votesFor_sub);
        destruct (tally_index _ _ _ _ Hwf i' m Hin) as [_ ?]; simpl; lia).
      exists (Z.to_nat i). rewrite Hbits, !Z2Nat.id by lia. split; [by right | lia].
    + intros (k & [Hk|Hk]%Hbits & ->); [by apply lookup_replicate in Hk as [? _] | done].
  - intros Hnil. rewrite Hnil in Hmaj. apply isMajority_spec in Hmaj. cbn in Hmaj. lia.
Qed.

(** A proof aggregated from +2/3 votes verifies.  For a round state with
    a majority of prevotes for its proposal, whose prevotes carry valid
    signatures of [data] under the keys of their validators, the aggregator
    returns a proof, and every node with the same validator set accepts that
    proof for [data]: a locked proposer can always convince the others. *)
Theorem aggregate_verifies `{!BlsLaws} roundValidatorsAt r p vs data :
  roundValidatorsAt (rs_blockNumber r) = n → Z.of_nat (length (vs_topValidators vs)) = n →
  wfRoundState n r → rs_proposal r = Some p →
  rsIsMajority roundValidatorsAt r (getPrevoteCount r (Some (p_hash p))) = true →
  (∀ i m, (i, m) ∈ votesFor (rs_prevotes r) (Some (p_hash p)) →
          blsVerify (hexDecode (msg_signature m)) data (keyAt vs i) = true) →
  ∃ proof, aggregatePrevotes roundValidatorsAt r = Ok proof ∧
           verifyAggregate vs proof data n = Ok true.
Proof.
  intros Hn Hvs [Hwf _] Hp Hmaj Hsig. unfold aggregatePrevotes, getSignatures. rewrite Hp, Hn.
  unfold mbind, result_bind. cbn [assert_defined]. fold (votesFor (rs_prevotes r) (Some (p_hash p))).
  unfold rsIsMajority in Hmaj. rewrite Hn in Hmaj.
  destruct (aggregate_votes _ _ _ _ Hwf Hmaj) as (bitmap & -> & Hlen & Hperm & Hne & Hmaj').
  set (votes := votesFor _ _) in *. eexists; split; [reflexivity |].
  unfold verifyAggregate. cbn [as_validators as_signature]. rewrite (proj2 (Z.eqb_eq _ _)) by lia. cbn [negb].
  rewrite signerKeys_spec by lia. unfold mbind, result_bind.
  rewrite length_fmap, <- (Permutation_length Hperm), length_fmap, Hmaj'. cbn [negb].
  set (pairs := (λ kv : Z * Message, (hexDecode (msg_signature kv.2), keyAt vs kv.1)) <$> votes).
  pose proof (bls_aggregate_verify data pairs (keyAt vs <$> positions 0 bitmap)) as Hbls.
  assert (pairs.*1 = (λ kv, hexDecode (msg_signature kv.2)) <$> votes) as Hfst
    by (subst pairs; by rewrite <- list_fmap_compose).
  rewrite <- Hfst. f_equal. apply Hbls.
  - subst pairs. by intros ?%fmap_nil_inv.
  - intros s k ([i m] & [= -> ->] & Hin)%list_elem_of_fmap. by apply Hsig.
  - rewrite <- Hperm. subst pairs. by rewrite <- !list_fmap_compose.
Qed.
End aggregation.
