(* ===== verification/ConsensusStorage.v ===== *)
(** * packages/consensus-storage/source/service.ts

    The durable record of what a node signed: one block's worth of proposals,
    messages and the position of the node.  A write for a newer block replaces
    everything stored for the older one, in the same transaction. *)
From S2P Require Import Prelude Bytes Serializer Messages Blocks Proposals.

(** [Enums.Consensus.Step]. *)
Inductive Step := Propose | Prevote | Precommit.
#[export] Instance Step_eq_dec : EqDecision Step.
Proof. solve_decision. Defined.
Definition stepZ (s : Step) : Z :=
  match s with Propose => 0 | Prevote => 1 | Precommit => 2 end.

(** [Contracts.Consensus.StateData]. *)
Record StateData := mkStateData {
  sd_blockNumber : Z;
  sd_round : Z;
  sd_step : Step;
  sd_lockedRound : option Z;
  sd_validRound : option Z;
}.
#[export] Instance StateData_eq_dec : EqDecision StateData.
Proof. solve_decision. Defined.

(** The three LMDB tables and the service's own field.  A key
    [`${round}-${validatorIndex}`] is the pair, [`${round}-${validatorIndex}-${type}`]
    the triple of its numbers. *)
Record Storage := mkStorage {
  st_blockNumber : Z;
  st_proposals : gmap (Z * Z) (list byte);
  st_messages : gmap (Z * Z * Z) (list byte);
  st_state : option StateData;
}.
#[export] Instance eta_Storage : Eta Storage := λ s,
  mkStorage (st_blockNumber s) (st_proposals s) (st_messages s) (st_state s).

(** [initialize], run when the service is constructed over existing tables. *)
Definition initialize (s : Storage) : Storage :=
  s <| st_blockNumber := match st_state s with Some d => sd_blockNumber d | None => 0 end |>.

Definition emptyStorage : Storage := mkStorage 0 ∅ ∅ None.

Section storage.
(** Whether the environment accepts writes; a failed transaction leaves the
    tables as they are and [app.fail] throws. *)
Context (diskOk : bool).

Definition stCommit (write : Storage → Storage) : M Storage unit :=
  if diskOk then modify write else throw (FatalError "Failed to write the consensus store").

Definition stClear (s : Storage) : Storage :=
  s <| st_proposals := ∅ |> <| st_messages := ∅ |> <| st_state := None |>.

Definition stWrite (blockNumber : Z) (write : Storage → Storage) : M Storage unit :=
  s ← get;
  let replacesStoredBlock := st_blockNumber s <? blockNumber in
  modify (λ s, s <| st_blockNumber ::= Z.max blockNumber |>);;
  stCommit (λ s, write (if replacesStoredBlock then stClear s else s)).

Definition saveState (state : StateData) : M Storage unit :=
  stWrite (sd_blockNumber state) (λ s, s <| st_state := Some state |>).

Definition saveProposal (proposal : Proposal) : M Storage unit :=
  stWrite (p_blockNumber proposal)
    (λ s, s <| st_proposals ::= <[(p_round proposal, p_validatorIndex proposal) := p_serialized proposal]> |>).

Definition saveMessage (message : Message) : M Storage unit :=
  stWrite (msg_blockNumber message)
    (λ s, s <| st_messages ::=
               <[(msg_round message, msg_validatorIndex message, msg_type message) := msg_serialized message]> |>).

Definition clear : M Storage unit :=
  modify (λ s, s <| st_blockNumber := 0 |>);;
  stCommit stClear.
End storage.

Section read.
Context `{Viem} `{TransactionCodec} `{HashFactory}.
Context (roundValidatorsAt : option Z → Z) (isAddress : string → bool).

Definition getState (s : Storage) : option StateData := st_state s.

(** The order of an LMDB range is the order of its keys, which no caller
    depends on; here it is the order of [map_to_list]. *)
Definition getProposals (s : Storage) : result (list Proposal) :=
  traverse (makeProposalFromBytes roundValidatorsAt isAddress) (map_to_list (st_proposals s)).*2.

Definition getMessages (s : Storage) : result (list Message) :=
  traverse (makeMessageFromBytes (λ n, roundValidatorsAt (Some n))) (map_to_list (st_messages s)).*2.
End read.

(** ** Correctness *)

(** A store written by the service alone: the block number it keeps is at least
    that of the state it holds. *)
Definition wfStorage (s : Storage) : Prop :=
  ∀ d, st_state s = Some d → sd_blockNumber d ≤ st_blockNumber s.

Lemma stWrite_newer (write : Storage → Storage) blockNumber s :
  st_blockNumber s < blockNumber →
  stWrite true blockNumber write s = (Ok tt, write (stClear (s <| st_blockNumber := blockNumber |>))).
Proof.
  intros Hlt. unfold stWrite, mbind, M_bind, get. cbn -[Z.max].
  rewrite (proj2 (Z.ltb_lt _ _)) by done. unfold stCommit, modify. do 2 f_equal.
  replace (s <| st_blockNumber ::= Z.max blockNumber |>) with (s <| st_blockNumber := blockNumber |>); [done |].
  destruct s as [n ? ? ?]. unfold set_field. cbn -[Z.max] in *. by rewrite Z.max_l by lia.
Qed.

Lemma stWrite_same (write : Storage → Storage) blockNumber s :
  blockNumber ≤ st_blockNumber s → stWrite true blockNumber write s = (Ok tt, write s).
Proof.
  intros Hle. unfold stWrite, mbind, M_bind, get. cbn -[Z.max].
  rewrite (proj2 (Z.ltb_ge _ _)) by done. unfold stCommit, modify. do 2 f_equal.
  replace (s <| st_blockNumber ::= Z.max blockNumber |>) with s; [done |].
  destruct s as [n ? ? ?]. unfold set_field. cbn -[Z.max] in *. by rewrite Z.max_r by lia.
Qed.

(** The operations of the service as data, to speak of sequences of them. *)
Inductive StoreOp :=
  | OpState (d : StateData)
  | OpProposal (p : Proposal)
  | OpMessage (m : Message).

Definition opBlock (o : StoreOp) : Z :=
  match o with
  | OpState d => sd_blockNumber d
  | OpProposal p => p_blockNumber p
  | OpMessage m => msg_blockNumber m
  end.

Definition opRun (diskOk : bool) (o : StoreOp) : M Storage unit :=
  match o with
  | OpState d => saveState diskOk d
  | OpProposal p => saveProposal diskOk p
  | OpMessage m => saveMessage diskOk m
  end.

Definition opApply (o : StoreOp) (s : Storage) : Storage :=
  match o with
  | OpState d => s <| st_state := Some d |>
  | OpProposal p =>
      s <| st_proposals ::= <[(p_round p, p_validatorIndex p) := p_serialized p]> |>
  | OpMessage m =>
      s <| st_messages ::= <[(msg_round m, msg_validatorIndex m, msg_type m) := msg_serialized m]> |>
  end.

Lemma opRun_same o s : opBlock o ≤ st_blockNumber s → opRun true o s = (Ok tt, opApply o s).
Proof. destruct o; cbn [opBlock opRun opApply]; intros Hle; by apply stWrite_same. Qed.

Lemma opRun_newer o s :
  st_blockNumber s < opBlock o →
  opRun true o s = (Ok tt, opApply o (stClear (s <| st_blockNumber := opBlock o |>))).
Proof. destruct o; cbn [opBlock opRun opApply]; intros Hlt; by apply stWrite_newer. Qed.

Lemma opApply_block o s : st_blockNumber (opApply o s) = st_blockNumber s.
Proof. by destruct o, s. Qed.

(** A failed write throws and leaves the tables as they are; the block number
    is raised all the same. *)
Lemma opRun_failed o s :
  opRun false o s = (Throw (FatalError "Failed to write the consensus store"),
                     s <| st_blockNumber ::= Z.max (opBlock o) |>).
Proof. by destruct o. Qed.

(** The abstract store: its block number and the list of the saves whose records
    it holds. *)
Definition storeOf (blockNumber : Z) (ops : list StoreOp) : Storage :=
  foldl (λ s o, opApply o s) (mkStorage blockNumber ∅ ∅ None) ops.

Lemma storeOf_snoc n ops o : storeOf n (ops ++ [o]) = opApply o (storeOf n ops).
Proof. unfold storeOf. by rewrite foldl_app. Qed.

Lemma storeOf_block n ops : st_blockNumber (storeOf n ops) = n.
Proof.
  induction ops as [|o ops IH] using rev_ind; [done |]. by rewrite storeOf_snoc, opApply_block.
Qed.

Lemma storeOf_renumber n n' ops : (storeOf n ops) <| st_blockNumber := n' |> = storeOf n' ops.
Proof.
  induction ops as [|o ops IH] using rev_ind; [done |]. rewrite !storeOf_snoc, <- IH. by destruct o.
Qed.

(** What a save of the list left behind: the last one with the same key. *)
Definition savedState (o : StoreOp) : option StateData :=
  match o with OpState d => Some d | _ => None end.
Definition savedProposal (k : Z * Z) (o : StoreOp) : option (list byte) :=
  match o with
  | OpProposal p => if decide ((p_round p, p_validatorIndex p) = k) then Some (p_serialized p) else None
  | _ => None
  end.
Definition savedMessage (k : Z * Z * Z) (o : StoreOp) : option (list byte) :=
  match o with
  | OpMessage m =>
      if decide ((msg_round m, msg_validatorIndex m, msg_type m) = k) then Some (msg_serialized m) else None
  | _ => None
  end.

Lemma last_omap_snoc {A B} (f : A → option B) l x :
  last (omap f (l ++ [x])) = match f x with Some y => Some y | None => last (omap f l) end.
Proof. rewrite omap_app. cbn. destruct (f x); [by rewrite last_snoc | by rewrite app_nil_r]. Qed.

Lemma storeOf_records n ops :
  st_state (storeOf n ops) = last (omap savedState ops) ∧
  (∀ k, st_proposals (storeOf n ops) !! k = last (omap (savedProposal k) ops)) ∧
  (∀ k, st_messages (storeOf n ops) !! k = last (omap (savedMessage k) ops)).
Proof.
  induction ops as [|o ops (IH1 & IH2 & IH3)] using rev_ind; [done |]. rewrite storeOf_snoc.
  split; [| split; intros k]; rewrite last_omap_snoc; [by destruct o | |]; destruct o; cbn; auto;
    case_decide; subst; by rewrite ?lookup_insert_eq, ?lookup_insert_ne.
Qed.

(** One save on the abstract store: a newer block starts a new list, an older
    one is added like one of the current block. *)
Definition specStep (n : Z) (ops : list StoreOp) (o : StoreOp) : Z * list StoreOp :=
  if n <? opBlock o then (opBlock o, [o]) else (n, ops ++ [o]).

Lemma opRun_refines n ops o :
  opRun true o (storeOf n ops) = (Ok tt, storeOf (specStep n ops o).1 (specStep n ops o).2).
Proof.
  unfold specStep. pose proof (storeOf_block n ops) as Hb.
  destruct (Z.ltb_spec n (opBlock o)) as [Hlt|Hge].
  - by rewrite opRun_newer by (by rewrite Hb).
  - rewrite opRun_same by (by rewrite Hb). cbn [fst snd]. by rewrite storeOf_snoc.
Qed.

(** What can happen to the store: a save that is written, one whose transaction
    fails, a call of [clear] that is written or fails, and a new service over the
    tables of the old one. *)
Inductive StoreEvent :=
  | Saved (o : StoreOp)
  | Failed (o : StoreOp)
  | Emptied (diskOk : bool)
  | Restarted.

Definition eventRun (e : StoreEvent) : M Storage unit :=
  match e with
  | Saved o => opRun true o
  | Failed o => opRun false o
  | Emptied diskOk => clear diskOk
  | Restarted => modify initialize
  end.

Fixpoint eventsRun (l : list StoreEvent) (s : Storage) : list (result unit) * Storage :=
  match l with
  | [] => ([], s)
  | e :: l' => let '(r, s1) := eventRun e s in let '(rs, s2) := eventsRun l' s1 in (r :: rs, s2)
  end.

(** Their effect on the abstract store, and their outcomes. *)
Definition specEvent (a : Z * list StoreOp) (e : StoreEvent) : Z * list StoreOp :=
  match e with
  | Saved o => specStep a.1 a.2 o
  | Failed o => (Z.max (opBlock o) a.1, a.2)
  | Emptied diskOk => (0, if diskOk then [] else a.2)
  | Restarted => (match last (omap savedState a.2) with Some d => sd_blockNumber d | None => 0 end, a.2)
  end.

Definition specOutcome (e : StoreEvent) : result unit :=
  match e with
  | Failed _ | Emptied false => Throw (FatalError "Failed to write the consensus store")
  | _ => Ok tt
  end.

Lemma eventRun_refines n ops e :
  eventRun e (storeOf n ops) =
  (specOutcome e, storeOf (specEvent (n, ops) e).1 (specEvent (n, ops) e).2).
Proof.
  destruct e as [o|o|[]|]; cbn [eventRun specOutcome specEvent fst snd].
  - apply opRun_refines.
  - rewrite opRun_failed. f_equal. rewrite <- (storeOf_renumber n (Z.max _ _)). pose proof (storeOf_block n ops) as Hb.
    destruct (storeOf n ops) as [n' ? ? ?]. cbn in Hb. by subst n'.
  - reflexivity.
  - by rewrite <- (storeOf_renumber n 0).
  - unfold modify, initialize. destruct (storeOf_records n ops) as [-> _]. by rewrite <- (storeOf_renumber n (match _ with Some _ => _ | None => _ end)).
Qed.

(** C23. Refinement of the store: whatever saves are made from the empty store,
    with failing writes, calls of [clear] and restarts between them, each call
    returns unless its write fails, and then it throws, and the tables hold exactly,
    under each key, the last record saved since the list was last started anew.  A
    save of a block newer than the number the service keeps starts the list anew;
    one of that block or of an older one is added to it; a failed save changes no
    record but raises the number; [clear] sets the number to 0 and empties the list
    if its write succeeds; a restart sets the number to that of the state stored. *)
Theorem storage_refines (l : list StoreEvent) :
  let a := foldl specEvent (0, []) l in
  eventsRun l emptyStorage = (specOutcome <$> l, storeOf a.1 a.2) ∧
  st_blockNumber (storeOf a.1 a.2) = a.1 ∧
  st_state (storeOf a.1 a.2) = last (omap savedState a.2) ∧
  (∀ k, st_proposals (storeOf a.1 a.2) !! k = last (omap (savedProposal k) a.2)) ∧
  (∀ k, st_messages (storeOf a.1 a.2) !! k = last (omap (savedMessage k) a.2)).
Proof.
  intros a. split; [subst a | split; [by rewrite storeOf_block | by apply storeOf_records]].
  change emptyStorage with (storeOf 0 []). generalize 0 as n, (@nil StoreOp) as ops.
  induction l as [|e l IH]; intros n ops; [done |].
  cbn [eventsRun foldl]. rewrite eventRun_refines. destruct (specEvent (n, ops) e) as [n' ops'].
  cbn [fst snd]. by rewrite IH.
Qed.

(** A restart can lose records of the current block: [initialize] takes the
    block number from the stored state alone, so when a message of the current
    block was stored before any state of it, the first save after the restart
    clears that message although it belongs to the same block. *)
Theorem restart_loses_records m d :
  0 < msg_blockNumber m → sd_blockNumber d = msg_blockNumber m →
  let before := run_in (saveMessage true m) emptyStorage in
  let after := run_in (saveState true d) (initialize before) in
  st_messages before !! (msg_round m, msg_validatorIndex m, msg_type m) = Some (msg_serialized m) ∧
  st_messages after = ∅ ∧ st_state after = Some d.
Proof.
  intros Hpos Hd before after. subst after before. unfold run_in, saveMessage, saveState.
  rewrite stWrite_newer by done. cbn. split; [apply lookup_insert_eq |].
  rewrite stWrite_newer by (cbn; lia). done.
Qed.
