(* ===== verification/Node.v ===== *)
(** * The node around the consensus

    The state the consensus package shares: the consensus fields, the round and
    commit states as a heap of mutable objects with the round-state repository
    (round-state-repository.ts) naming some of them, the scheduler's timers
    (scheduler.ts), the consensus store, the chain (packages/state, the
    validator set and the configuration's height), the commit lock
    (packages/utils/source/lock.ts), the calls in flight, and the trace of what
    the node did.  Code outside packages/consensus is a parameter. *)
From S2P Require Import Prelude Bytes Serializer Messages Blocks Proposals Commits JsMap Quorum BlockchainUtils.
From S2P Require Import ValidatorSet RoundState ConsensusStorage.

(** ** The chain: state/source/store.ts, the validator set, and the height of
    the configuration that [setBlockNumber] maintains. *)
Record Chain := mkChain {
  ch_genesisCommit : option Commit;
  ch_lastBlock : option Block;
  ch_blockNumber : Z;
  ch_totalRound : Z;
  ch_height : Z;
  ch_validatorSet : ValidatorSet;
}.
#[export] Instance eta_Chain : Eta Chain := λ c,
  mkChain (ch_genesisCommit c) (ch_lastBlock c) (ch_blockNumber c) (ch_totalRound c) (ch_height c) (ch_validatorSet c).

Definition setGenesisCommit (genesisCommit : Commit) : M Chain unit :=
  modify (λ c, c <| ch_genesisCommit := Some genesisCommit |>).
Definition getGenesisCommit (c : Chain) : result Commit := assert_defined (ch_genesisCommit c).
Definition setBlockNumber (blockNumber : Z) : M Chain unit :=
  modify (λ c, c <| ch_blockNumber := blockNumber |> <| ch_height := blockNumber + 1 |>).
Definition setLastBlock (block : Block) : M Chain unit :=
  modify (λ c, c <| ch_lastBlock := Some block |>);; setBlockNumber (b_number block).
Definition getLastBlock (c : Chain) : result Block := assert_defined (ch_lastBlock c).
Definition setTotalRound (totalRound : Z) : M Chain unit :=
  modify (λ c, c <| ch_totalRound := totalRound |>).
Definition storeOnCommit (block : Block) (round : Z) : M Chain unit :=
  setLastBlock block;; modify (λ c, c <| ch_totalRound ::= λ t, t + (round + 1) |>).

(** ** pending-commits.ts (p2p): the commits that the block downloader has verified
    and not yet handed to the commit processor. *)
Definition PendingCommits : Type := JsMap Z Commit.
Definition pendingAdd (commits : list Commit) (p : PendingCommits) : PendingCommits :=
  foldl (λ p commit, mapSet p (b_number (c_block commit)) commit) p commits.
Definition pendingTake (blockNumber : Z) (p : PendingCommits) : option Commit * PendingCommits :=
  (mapGet p blockNumber, mapDelete p blockNumber).
Definition pendingHas (blockNumber : Z) (p : PendingCommits) : bool := mapHas p blockNumber.

(** ** The services the consensus calls

    Milestones, cryptography, the block processor and the forger: what they
    compute is a parameter.  [validatorKey] is the private key of the validator
    that the validator repository has registered under a public key. *)
Class Services := {
  sv_viem :: Viem;
  sv_codec :: TransactionCodec;
  sv_hash :: HashFactory;
  sv_bls :: BlsWorker;
  roundValidatorsAt : Z → Z;
  timeoutsAt : Z → Timeouts;
  isNewRoundAt : Z → bool;
  isAddress : string → bool;
  txSchemaValid : Transaction → bool;
  validatorKey : string → option string;
  consensusContract : Z → ConsensusContract;
  processBlock : Chain → Block → BlockProcessorResult;
  forgeBlock : Chain → string → Z → Z → string → result Block;
  (** whether the EVM, the database and the workers accept a commit *)
  evmOnCommit : Commit → bool;
  databaseOnCommit : Commit → bool;
  workersOnCommit : Commit → bool;
}.

(** ** consensus.ts: the fields *)
Record Core := mkCore {
  k_blockNumber : Z;
  k_round : Z;
  k_step : Step;
  k_lockedValue : option Z;
  k_validValue : option Z;
  k_didMajorityPrevote : bool;
  k_didMajorityPrecommit : bool;
  k_didMajorityPrecommitWithoutProposal : bool;
  k_isDisposed : bool;
  k_pendingJobs : gset Z;
  k_proposalPromise : option Z;
  k_roundStartTime : Z;
}.
#[export] Instance eta_Core : Eta Core := λ c,
  mkCore (k_blockNumber c) (k_round c) (k_step c) (k_lockedValue c) (k_validValue c)
    (k_didMajorityPrevote c) (k_didMajorityPrecommit c) (k_didMajorityPrecommitWithoutProposal c)
    (k_isDisposed c) (k_pendingJobs c) (k_proposalPromise c) (k_roundStartTime c).

Definition newCore : Core := mkCore 1 0 Propose None None false false false false ∅ None 0.

(** scheduler.ts: a timer holds the arguments of its handler and its delay. *)
Record Scheduler := mkScheduler {
  sch_timeoutBlockPrepare : option Z;
  sch_timeoutPropose : option (Z * Z * Z);
  sch_timeoutPrevote : option (Z * Z * Z);
  sch_timeoutPrecommit : option (Z * Z * Z);
}.
#[export] Instance eta_Scheduler : Eta Scheduler := λ s,
  mkScheduler (sch_timeoutBlockPrepare s) (sch_timeoutPropose s) (sch_timeoutPrevote s) (sch_timeoutPrecommit s).
Definition newScheduler : Scheduler := mkScheduler None None None None.

(** A call waiting for the handler lock. *)
Inductive Job :=
  | JHandle (roundState : Z)
  | JCommitState (commitState : Z)
  | JTimeoutPropose (blockNumber round : Z)
  | JTimeoutPrevote (blockNumber round : Z)
  | JTimeoutPrecommit (blockNumber round : Z).
#[export] Instance Job_eq_dec : EqDecision Job.
Proof. solve_decision. Defined.

(** A processor call between its two synchronous segments: the signature is
    being verified while the call holds the commit lock non-exclusively. *)
Inductive InFlight :=
  | FMessage (message : Message) (roundState : Z)
  | FProposal (proposal : Proposal) (roundState : Z).

(** What the node did, oldest first.  [EvStuck] is not an event of the program: it
    marks a call that could never return. *)
Inductive Event :=
  | EvDispatch (name : string) (state : StateData)
  | EvPersist (state : StateData)
  | EvSign (validatorIndex : Z) (data : SignatureMessageData)
  | EvCommit (blockNumber round : Z) (hash : string)
  | EvStuck.

(** A call of a processor that waits for the commit lock to start. *)
Inductive Background :=
  | BMessage (message : Message)
  | BProposal (proposal : Proposal).

(** What the rest of the process may do while a handler awaits: bytes arrive
    from peers, a background call starts or finishes verifying, the block
    downloader verifies a batch of commits that follow a block, hands one of them
    over or drops them, timers fire, a proposal is ready, the node is disposed, time
    passes, the disk starts to fail. *)
Inductive EnvAction :=
  | ADeliverMessage (bytes : list byte)
  | ADeliverProposal (bytes : list byte)
  | ABackground
  | AVerified (k : nat)
  | AVerifyCommits (previousBlockHash : string) (batch : list (list byte))
  | ATakeCommit (blockNumber : Z)
  | AClearCommits
  | AFireBlockPrepare
  | APrepared (promise : Z)
  | AFirePropose
  | AFirePrevote
  | AFirePrecommit
  | ADispose
  | AClock (time : Z)
  | ADisk (ok : bool).

Record World := mkWorld {
  w_core : Core;
  w_rounds : gmap Z RoundState;
  w_commits : gmap Z CommitState;
  w_next : Z;
  w_repo : JsMap (Z * Z) Z;
  w_scheduler : Scheduler;
  w_storage : Storage;
  w_chain : Chain;
  w_clock : Z;
  w_commitLock : bool;
  w_diskOk : bool;
  w_promises : gmap Z (option Proposal);
  w_awaiting : gset Z;
  w_inFlight : list InFlight;
  w_background : list Background;
  w_jobs : list Job;
  w_pendingCommits : PendingCommits;
  w_trace : list Event;
  w_env : list (list EnvAction);
}.
#[export] Instance eta_World : Eta World := λ w,
  mkWorld (w_core w) (w_rounds w) (w_commits w) (w_next w) (w_repo w) (w_scheduler w) (w_storage w)
    (w_chain w) (w_clock w) (w_commitLock w) (w_diskOk w) (w_promises w) (w_awaiting w) (w_inFlight w)
    (w_background w) (w_jobs w) (w_pendingCommits w) (w_trace w) (w_env w).

(** ** Access *)
Definition core {A} (f : Core → A) : M World A := gets (λ w, f (w_core w)).
Definition setCore (f : Core → Core) : M World unit := modify (λ w, w <| w_core ::= f |>).
Definition emit (e : Event) : M World unit := modify (λ w, w <| w_trace ::= λ t, t ++ [e] |>).

(** Run an operation of a part of a state. *)
Definition zoomM {W S A} (view : W → S) (put : S → W → W) (m : M S A) : M W A := λ w,
  let '(r, s) := m (view w) in (r, put s w).
Definition onStorage {A} (m : bool → M Storage A) : M World A := λ w,
  zoomM w_storage (λ s w, w <| w_storage := s |>) (m (w_diskOk w)) w.
Definition onChain {A} : M Chain A → M World A :=
  zoomM w_chain (λ c w, w <| w_chain := c |>).
Definition onScheduler {A} : M Scheduler A → M World A :=
  zoomM w_scheduler (λ s w, w <| w_scheduler := s |>).

Definition getRS (l : Z) : M World RoundState :=
  w ← get; liftR (assert_defined (w_rounds w !! l)).
Definition onRound {A} (l : Z) (m : M RoundState A) : M World A :=
  r ← getRS l;
  let '(res, r') := m r in
  modify (λ w, w <| w_rounds ::= <[l := r']> |>);;
  liftR res.
Definition getCS (l : Z) : M World CommitState :=
  w ← get; liftR (assert_defined (w_commits w !! l)).

Definition enqueue (j : Job) : M World unit := modify (λ w, w <| w_jobs ::= λ js, js ++ [j] |>).

Section node.
Context `{Services}.

(** [getMilestone(height?).roundValidators]: the current height by default. *)
Definition roundValidatorsOr (chain : Chain) (height : option Z) : Z :=
  roundValidatorsAt (default (ch_height chain) height).

Definition milestoneValidators : M World Z := gets (λ w, roundValidatorsAt (ch_height (w_chain w))).
Definition milestoneTimeouts : M World Timeouts := gets (λ w, timeoutsAt (ch_height (w_chain w))).

(** proposer-calculator.ts: [getValidatorIndex]. *)
Definition getValidatorIndex (round : Z) : M World Z :=
  n ← milestoneValidators;
  totalRound ← gets (λ w, ch_totalRound (w_chain w));
  mret (getValidatorIndexFrom n totalRound round).

(** ** round-state-repository.ts *)
Definition createRoundState (blockNumber round : Z) : M World Z :=
  n ← milestoneValidators;
  vs ← gets (λ w, ch_validatorSet (w_chain w));
  validators ← liftR (getRoundValidators n vs);
  proposer ← getValidatorIndex round;
  l ← gets w_next;
  modify (λ w, w <| w_next := l + 1 |>
                 <| w_rounds ::= <[l := configure blockNumber round validators proposer newRoundState]> |>);;
  mret l.

Definition getRoundState (blockNumber round : Z) : M World Z :=
  w ← get;
  match mapGet (w_repo w) (blockNumber, round) with
  | Some l => mret l
  | None =>
      l ← createRoundState blockNumber round;
      modify (λ w, w <| w_repo := mapSet (w_repo w) (blockNumber, round) l |>);;
      mret l
  end.

Definition getRoundStates (w : World) : list Z := mapValues (w_repo w).
Definition clearRoundStates : M World unit := modify (λ w, w <| w_repo := [] |>).

(** ** scheduler.ts *)
Definition minimalTimestamp (round : Z) : M World Z :=
  c ← gets w_chain;
  last ← liftR (getLastBlock c);
  liftR (calculateMinimalTimestamp (timeoutsAt (b_number last + 1)) (b_timestamp last) round).

Definition getNextBlockTimestamp (roundStartTime round : Z) : M World Z :=
  timeouts ← milestoneTimeouts;
  minimal ← minimalTimestamp round;
  mret (Z.max (roundStartTime + to_blockPrepareTime timeouts) minimal).

Definition scheduleTimeoutBlockPrepare (timestamp : Z) : M World bool :=
  s ← gets w_scheduler;
  if isSome (sch_timeoutBlockPrepare s) then mret false
  else
    now ← gets w_clock;
    onScheduler (modify (λ s, s <| sch_timeoutBlockPrepare := Some (Z.max 0 (timestamp - now)) |>));;
    mret true.

Definition stageDelay (round : Z) : M World Z :=
  timeouts ← milestoneTimeouts; mret (getTimeout timeouts round).

Definition scheduleTimeoutPropose (blockNumber round : Z) : M World bool :=
  s ← gets w_scheduler;
  if isSome (sch_timeoutPropose s) then mret false
  else
    delay ← stageDelay round;
    onScheduler (modify (λ s, s <| sch_timeoutPropose := Some (blockNumber, round, delay) |>));;
    mret true.

Definition scheduleTimeoutPrevote (blockNumber round : Z) : M World bool :=
  s ← gets w_scheduler;
  if isSome (sch_timeoutPrevote s) then mret false
  else
    delay ← stageDelay round;
    onScheduler (modify (λ s, s <| sch_timeoutPrevote := Some (blockNumber, round, delay) |>));;
    mret true.

Definition scheduleTimeoutPrecommit (blockNumber round : Z) : M World bool :=
  s ← gets w_scheduler;
  if isSome (sch_timeoutPrecommit s) then mret false
  else
    delay ← stageDelay round;
    onScheduler (modify (λ s, s <| sch_timeoutPrecommit := Some (blockNumber, round, delay) |>));;
    mret true.

(** round-state.ts: [logPrevotes] and [logPrecommits] look every voter up. *)
Definition logVotes (counts : JsMap (option string) Z) (messages : JsMap Z Message) : M World unit :=
  vs ← gets (λ w, ch_validatorSet (w_chain w));
  forEach (mapKeys counts) (λ key,
    forEach (mapValues messages) (λ m,
      if bool_decide (msg_blockHash m = key) then
        _ ← liftR (getValidator vs (msg_validatorIndex m)); mret tt
      else mret tt)).
Definition logPrevotes (l : Z) : M World unit := r ← getRS l; logVotes (rs_prevotesCount r) (rs_prevotes r).
Definition logPrecommits (l : Z) : M World unit := r ← getRS l; logVotes (rs_precommitsCount r) (rs_precommits r).

Definition clearTimers : M World unit := onScheduler (modify (λ _, newScheduler)).

(** The callbacks of the timers: each empties its slot and calls its handler,
    which waits for the handler lock. *)
Definition firePropose : M World unit :=
  s ← gets w_scheduler;
  match sch_timeoutPropose s with
  | Some (b, r, _) => onScheduler (modify (λ s, s <| sch_timeoutPropose := None |>));; enqueue (JTimeoutPropose b r)
  | None => mret tt
  end.
Definition firePrevote : M World unit :=
  s ← gets w_scheduler;
  match sch_timeoutPrevote s with
  | Some (b, r, _) => onScheduler (modify (λ s, s <| sch_timeoutPrevote := None |>));; enqueue (JTimeoutPrevote b r)
  | None => mret tt
  end.
Definition firePrecommit : M World unit :=
  s ← gets w_scheduler;
  match sch_timeoutPrecommit s with
  | Some (b, r, _) => onScheduler (modify (λ s, s <| sch_timeoutPrecommit := None |>));; enqueue (JTimeoutPrecommit b r)
  | None => mret tt
  end.
End node.
