(* ===== verification/BlockProcessor.v ===== *)
(** * packages/processor

    The rules a block must satisfy: the verifiers that run before execution, and
    the block processor, which executes the transactions and compares what they
    consumed and produced with what the header claims.  The EVM is a parameter,
    an interface of state transformers. *)
From S2P Require Import Prelude Bytes Serializer Messages Blocks Proposals Commits JsMap BlockchainUtils.
From S2P Require Import ValidatorSet RoundState ConsensusStorage Node.

Definition ZeroHash : string := "0000000000000000000000000000000000000000000000000000000000000000".

(** The parameters of a milestone that block processing reads. *)
Record Snapshot := mkSnapshot {
  sn_previousGenesisBlockHash : string;
  sn_snapshotHash : string;
}.
Record BlockMilestone := mkBlockMilestone {
  bm_maxGasLimit : Z;
  bm_maxPayload : Z;
  bm_version : Z;
  bm_reward : Z;
  bm_validatorRegistrationFee : Z;
  bm_roundValidators : Z;
  bm_evmSpec : string;
  bm_snapshot : option Snapshot;
}.

(** ** The EVM instance *)
Record CommitKey := mkCommitKey {
  ck_blockHash : option string;
  ck_blockNumber : Z;
  ck_round : Z;
}.
Record BlockContext := mkBlockContext {
  bc_commitKey : CommitKey;
  bc_gasLimit : Z;
  bc_prevrandao : list byte;
  bc_timestamp : Z;
  bc_validatorAddress : string;
}.
(** What the calls after the last transaction share; [value] is the reward, the
    fee or the number of validators. *)
Record BlockCall := mkBlockCall {
  bl_commitKey : CommitKey;
  bl_value : Z;
  bl_specId : string;
  bl_timestamp : Z;
  bl_validatorAddress : string;
}.
Record TransactionCall := mkTransactionCall {
  tc_commitKey : CommitKey;
  tc_data : list byte;
  tc_from : string;
  tc_gasLimit : Z;
  tc_gasPrice : Z;
  tc_legacyAddress : string;
  tc_nonce : Z;
  tc_specId : string;
  tc_to : option string;
  tc_txHash : string;
  tc_value : Z;
}.

Class Evm (E : Type) := {
  evm_prepareNextCommit : BlockContext → M E unit;
  evm_process : TransactionCall → M E TransactionReceipt;
  evm_updateRewardsAndVotes : BlockCall → M E unit;
  evm_updateValidatorRegistrationFee : BlockCall → M E unit;
  evm_calculateRoundValidators : BlockCall → M E unit;
  evm_stateRoot : CommitKey → string → M E string;
  evm_logsBloom : CommitKey → M E string;
  (** [getLegacyAttributes(...)?.secondPublicKey] *)
  evm_legacySecondPublicKey : string → string → M E (option string);
}.

(** ** crypto-transaction/source/verifier.ts: [verifyLegacySecondSignature] *)
Class LegacySignature := {
  toHashUnsigned : Transaction → list byte;
  verifyRecoverable : string → string → option Z → list byte → list byte → bool;
}.
Definition verifyLegacySecondSignature `{LegacySignature} (data : Transaction) (key : string) : result bool :=
  match tx_legacySecondSignature data with
  | None | Some EmptyString => Throw (NamedError "MissingLegacySecondSignatureError")
  | Some signature =>
      let r := slice signature 0 64 in
      let s := slice signature 64 128 in
      let v := parseInt2 (slice signature 128 130) in
      if verifyRecoverable r s v (toHashUnsigned data) (hexDecode key) then Ok true
      else Throw (NamedError "InvalidLegacySecondSignatureError")
  end.

(** [unit]: the block and the round of a processable unit. *)
Record Unit := mkUnit { un_block : Block; un_round : Z }.

Section processor.
Context {E : Type} `{Evm E} `{LegacySignature} `{HashFactory} `{BlsWorker}.
Context (milestoneOf : Z → BlockMilestone) (timeoutsOf : Z → Timeouts) (roundValidatorsOf : Z → Z).
Context (genesisHeight : Z) (isNewRound : Z → bool).
(** The state store and the validator set. *)
Context (chain : Chain).

Definition isGenesis (b : Block) : bool := b_number b =? genesisHeight.
Definition transactionsOf (b : Block) : list Transaction := bt_transaction <$> b_transactions b.
Definition reject (class : string) : result unit := Throw (NamedError class).

(** ** The verifiers *)
Definition chainedVerifier (u : Unit) : result unit :=
  let block := un_block u in
  if isGenesis block then
    let expected := match bm_snapshot (milestoneOf (b_number block)) with
                    | Some s => sn_previousGenesisBlockHash s
                    | None => ZeroHash
                    end in
    if negb (String.eqb (bh_parentHash (b_raw block)) expected) then reject "BlockNotChained" else Ok tt
  else
    previous ← getLastBlock chain;
    if negb (String.eqb (bh_parentHash (b_raw block)) (b_hash previous)) then reject "BlockNotChained"
    else if negb (b_number block =? b_number previous + 1) then reject "BlockNotChained"
    else Ok tt.

Definition roundVerifier (u : Unit) : result unit :=
  if un_round u <? b_round (un_block u) then reject "InvalidBlockRound" else Ok tt.

Definition sizeVerifier (u : Unit) : result unit :=
  let block := un_block u in
  let totalSize := headerSize + bh_payloadSize (b_raw block) in
  if bm_maxPayload (milestoneOf (b_number block)) <? totalSize then reject "MaxPayloadExceeded"
  else
    let actualSize := Z.of_nat (String.length (b_serialized block)) / 2 in
    if negb (totalSize =? actualSize) then reject "InvalidPayloadSize"
    else
      let totalPayloadSize :=
        foldl (λ size tx, size + Z.of_nat (length (tx_serialized tx)))
          (Z.of_nat (length (transactionsOf block)) * 4) (transactionsOf block) in
      if negb (totalPayloadSize =? bh_payloadSize (b_raw block)) then reject "InvalidPayloadSize" else Ok tt.

Definition timestampVerifier (u : Unit) : result unit :=
  let block := un_block u in
  if isGenesis block then Ok tt
  else
    last ← getLastBlock chain;
    minimal ← calculateMinimalTimestamp (timeoutsOf (b_number last + 1)) (b_timestamp last) (b_round block);
    if b_timestamp block <? minimal then reject "InvalidTimestamp" else Ok tt.

Definition generatorVerifier (u : Unit) : result unit :=
  let block := un_block u in
  if isGenesis block then Ok tt
  else
    let validatorIndex := getValidatorIndexFrom (roundValidatorsOf (ch_height chain)) (ch_totalRound chain) (b_round block) in
    validator ← getValidator (ch_validatorSet chain) validatorIndex;
    if negb (String.eqb (bh_proposer (b_raw block)) (vw_address validator)) then reject "InvalidGenerator" else Ok tt.

Definition versionVerifier (u : Unit) : result unit :=
  let block := un_block u in
  if negb (bh_version (b_raw block) =? bm_version (milestoneOf (b_number block)))
  then reject "InvalidBlockVersion" else Ok tt.

Definition rewardVerifier (u : Unit) : result unit :=
  let block := un_block u in
  if negb (bh_reward (b_raw block) =? bm_reward (milestoneOf (b_number block)))
  then reject "InvalidReward" else Ok tt.

Definition transactionsLengthVerifier (u : Unit) : result unit :=
  let block := un_block u in
  if negb (Z.of_nat (length (b_transactions block)) =? bh_transactionsCount (b_raw block))
  then reject "InvalidTransactionsLength" else Ok tt.

Fixpoint noDuplicates (applied : gset string) (l : list Transaction) : result unit :=
  match l with
  | [] => Ok tt
  | tx :: rest =>
      if bool_decide (tx_hash tx ∈ applied) then reject "DuplicatedTransaction"
      else noDuplicates ({[tx_hash tx]} ∪ applied) rest
  end.
Definition transactionsDuplicatesVerifier (u : Unit) : result unit :=
  noDuplicates ∅ (transactionsOf (un_block u)).

(** [hashFactory.sha256(buffers)] hashes the concatenation. *)
Definition transactionsRootVerifier (u : Unit) : result unit :=
  let block := un_block u in
  let transactionsRoot := sha256 (concat ((λ tx, hexDecode (tx_hash tx)) <$> transactionsOf block)) in
  if negb (String.eqb (hexEncode transactionsRoot) (bh_transactionsRoot (b_raw block)))
  then reject "InvalidTransactionsRoot" else Ok tt.

Definition gasLimitVerifier (u : Unit) : result unit :=
  let block := un_block u in
  if isGenesis block then Ok tt
  else if bm_maxGasLimit (milestoneOf (b_number block)) <? bh_gasUsed (b_raw block)
  then reject "ExceededGasLimit" else Ok tt.

(** The second public key of a sender is asked once per block. *)
Fixpoint legacyAttributes (senders : gmap string (option string)) (l : list Transaction) : M E unit :=
  match l with
  | [] => mret tt
  | tx :: rest =>
      secondPublicKey ← (match senders !! tx_from tx with
                         | Some k => mret k
                         | None => evm_legacySecondPublicKey (tx_from tx) (tx_senderLegacyAddress tx)
                         end);
      _ ← (match secondPublicKey with
           | None | Some EmptyString =>
               if match tx_legacySecondSignature tx with None | Some EmptyString => false | _ => true end
               then throw (NamedError "UnexpectedLegacySecondSignatureError") else mret true
           | Some key => liftR (verifyLegacySecondSignature tx key)
           end);
      legacyAttributes (<[tx_from tx := secondPublicKey]> senders) rest
  end.
Definition legacyAttributeVerifier (u : Unit) : M E unit := legacyAttributes ∅ (transactionsOf (un_block u)).

Definition randaoVerifier (u : Unit) : result unit :=
  let block := un_block u in
  if isGenesis block then Ok tt
  else
    index ← getValidatorIndexByWalletAddress (ch_validatorSet chain) (bh_proposer (b_raw block));
    proposer ← getValidator (ch_validatorSet chain) index;
    genesis ← getGenesisCommit chain;
    last ← getLastBlock chain;
    message ← randaoMessage (b_hash (c_block genesis)) (bh_randaoReveal (b_raw last)) (b_number block);
    if negb (blsVerify (hexDecode (bh_randaoReveal (b_raw block))) message (hexDecode (vw_blsPublicKey proposer)))
    then reject "InvalidRandaoReveal" else Ok tt.

(** block-verifier.ts, with the handlers in the order of service-provider.ts. *)
Definition verify (u : Unit) : M E unit :=
  liftR (chainedVerifier u);; liftR (roundVerifier u);; liftR (sizeVerifier u);; liftR (timestampVerifier u);;
  liftR (generatorVerifier u);; liftR (versionVerifier u);; liftR (rewardVerifier u);;
  liftR (transactionsLengthVerifier u);; liftR (transactionsDuplicatesVerifier u);;
  liftR (transactionsRootVerifier u);; liftR (gasLimitVerifier u);; legacyAttributeVerifier u;;
  liftR (randaoVerifier u).

(** ** block-processor.ts: [process] *)
Definition commitKey (block : Block) : CommitKey := mkCommitKey (Some (b_hash block)) (b_number block) (b_round block).

Definition blockPrevrandao (block : Block) : result (list byte) :=
  if isGenesis block then Ok (replicate 32 x00)
  else last ← getLastBlock chain; Ok (getPrevrandao (b_header last)).

Definition getPreviousStateRoot (block : Block) : result string :=
  if negb (isGenesis block) then last ← getLastBlock chain; Ok (bh_stateRoot (b_raw last))
  else Ok (match bm_snapshot (milestoneOf (b_number block)) with
           | Some s => sn_snapshotHash s
           | None => ZeroHash
           end).

(** transaction-processor.ts: the call to the EVM. *)
Definition processTransaction (block : Block) (tx : Transaction) : M E TransactionReceipt :=
  evm_process (mkTransactionCall (commitKey block) (hexDecode (slice (tx_data tx) 2 (String.length (tx_data tx))))
    (tx_from tx) (tx_gasLimit tx) (tx_gasPrice tx) (tx_senderLegacyAddress tx) (tx_nonce tx)
    (bm_evmSpec (milestoneOf (b_number block))) (tx_to tx) (tx_hash tx) (tx_value tx)).

(** The EVM together with the result under construction, which an error leaves
    as far as it got. *)
Record ProcessState := mkProcessState { ps_evm : E; ps_result : BlockProcessorResult }.

Definition onEvm {A} (m : M E A) : M ProcessState A := λ s,
  let '(r, e) := m (ps_evm s) in (r, mkProcessState e (ps_result s)).
Definition setResult (f : BlockProcessorResult → BlockProcessorResult) : M ProcessState unit :=
  modify (λ s, mkProcessState (ps_evm s) (f (ps_result s))).

Definition consumeGas (block : Block) (gasUsed : Z) : M ProcessState unit :=
  s ← get;
  if bh_gasUsed (b_raw block) <? bpr_gasUsed (ps_result s) + gasUsed then throw (NamedError "InvalidGasUsed")
  else setResult (λ r, mkBlockProcessorResult (bpr_success r) (bpr_receipts r) (bpr_gasUsed r + gasUsed) (bpr_feeUsed r)).

Definition consumeFee (block : Block) (tx : Transaction) (gasUsed : Z) : M ProcessState unit :=
  let fee := calculateConsumed (tx_gasPrice tx) gasUsed in
  s ← get;
  if bh_fee (b_raw block) <? bpr_feeUsed (ps_result s) + fee then throw (NamedError "InvalidFee")
  else setResult (λ r, mkBlockProcessorResult (bpr_success r) (bpr_receipts r) (bpr_gasUsed r) (bpr_feeUsed r + fee)).

Definition executeTransaction (block : Block) (tx : Transaction) : M ProcessState unit :=
  receipt ← onEvm (processTransaction block tx);
  setResult (λ r, mkBlockProcessorResult (bpr_success r) (mapSet (bpr_receipts r) (tx_hash tx) receipt)
                    (bpr_gasUsed r) (bpr_feeUsed r));;
  consumeGas block (tr_gasUsed receipt);;
  consumeFee block tx (tr_gasUsed receipt).

Definition verifyConsumedAllGas (block : Block) : M ProcessState unit :=
  s ← get;
  if negb (bh_gasUsed (b_raw block) =? bpr_gasUsed (ps_result s)) then throw (NamedError "InvalidGasUsed") else mret tt.
Definition verifyTotalFee (block : Block) : M ProcessState unit :=
  s ← get;
  if negb (bpr_feeUsed (ps_result s) =? bh_fee (b_raw block)) then throw (NamedError "InvalidFee") else mret tt.

Definition blockCall (block : Block) (milestone : BlockMilestone) (value : Z) : BlockCall :=
  mkBlockCall (commitKey block) value (bm_evmSpec milestone) (b_timestamp block) (bh_proposer (b_raw block)).

Definition verifyStateRoot (block : Block) : M ProcessState unit :=
  previous ← liftR (getPreviousStateRoot block);
  stateRoot ← onEvm (evm_stateRoot (commitKey block) previous);
  if negb (String.eqb (bh_stateRoot (b_raw block)) stateRoot) then throw (NamedError "InvalidStateRoot") else mret tt.
Definition verifyLogsBloom (block : Block) : M ProcessState unit :=
  logsBloom ← onEvm (evm_logsBloom (commitKey block));
  if negb (String.eqb (bh_logsBloom (b_raw block)) logsBloom) then throw (NamedError "InvalidLogsBloom") else mret tt.

(** The body of the [try]. *)
Definition processBody (u : Unit) : M ProcessState unit :=
  let block := un_block u in
  onEvm (verify u);;
  let milestone := milestoneOf (b_number block) in
  prevrandao ← liftR (blockPrevrandao block);
  onEvm (evm_prepareNextCommit (mkBlockContext (commitKey block) (bm_maxGasLimit milestone) prevrandao
           (b_timestamp block) (bh_proposer (b_raw block))));;
  forEach (transactionsOf block) (executeTransaction block);;
  verifyConsumedAllGas block;;
  verifyTotalFee block;;
  onEvm (evm_updateRewardsAndVotes (blockCall block milestone (bm_reward milestone)));;
  when (isNewRound (b_number block + 1))
    (let next := milestoneOf (b_number block + 1) in
     onEvm (evm_updateValidatorRegistrationFee (blockCall block next (bm_validatorRegistrationFee next)));;
     onEvm (evm_calculateRoundValidators (blockCall block next (bm_roundValidators next))));;
  verifyStateRoot block;;
  verifyLogsBloom block;;
  setResult (λ r, mkBlockProcessorResult true (bpr_receipts r) (bpr_gasUsed r) (bpr_feeUsed r)).

Definition process (u : Unit) (e : E) : BlockProcessorResult * E :=
  let s := (processBody u (mkProcessState e failedProcessorResult)).2 in (ps_result s, ps_evm s).

(** ** The rules, stated at once

    The specification executes every transaction first and compares the totals
    afterwards; the code stops at the first transaction that exceeds what the
    header claims. *)
Fixpoint executeAll (block : Block) (l : list Transaction) : M E (list TransactionReceipt) :=
  match l with
  | [] => mret []
  | tx :: rest =>
      receipt ← processTransaction block tx;
      receipts ← executeAll block rest;
      mret (receipt :: receipts)
  end.
Definition totalGas (receipts : list TransactionReceipt) : Z := foldr (λ r n, tr_gasUsed r + n) 0 receipts.
Fixpoint totalFee (l : list Transaction) (receipts : list TransactionReceipt) : Z :=
  match l, receipts with
  | tx :: l', r :: receipts' => tx_gasPrice tx * tr_gasUsed r + totalFee l' receipts'
  | _, _ => 0
  end.
Definition requireM (b : bool) (class : string) : M E unit := if b then mret tt else throw (NamedError class).

Definition blockRules (u : Unit) : M E (list TransactionReceipt) :=
  let block := un_block u in
  let milestone := milestoneOf (b_number block) in
  let next := milestoneOf (b_number block + 1) in
  verify u;;
  prevrandao ← liftR (blockPrevrandao block);
  evm_prepareNextCommit (mkBlockContext (commitKey block) (bm_maxGasLimit milestone) prevrandao
    (b_timestamp block) (bh_proposer (b_raw block)));;
  receipts ← executeAll block (transactionsOf block);
  requireM (totalGas receipts =? bh_gasUsed (b_raw block)) "InvalidGasUsed";;
  requireM (totalFee (transactionsOf block) receipts =? bh_fee (b_raw block)) "InvalidFee";;
  evm_updateRewardsAndVotes (blockCall block milestone (bm_reward milestone));;
  when (isNewRound (b_number block + 1))
    (evm_updateValidatorRegistrationFee (blockCall block next (bm_validatorRegistrationFee next));;
     evm_calculateRoundValidators (blockCall block next (bm_roundValidators next)));;
  previous ← liftR (getPreviousStateRoot block);
  stateRoot ← evm_stateRoot (commitKey block) previous;
  requireM (String.eqb (bh_stateRoot (b_raw block)) stateRoot) "InvalidStateRoot";;
  logsBloom ← evm_logsBloom (commitKey block);
  requireM (String.eqb (bh_logsBloom (b_raw block)) logsBloom) "InvalidLogsBloom";;
  mret receipts.

(** ** Lemmas *)
Lemma verify_Ok u e e' :
  verify u e = (Ok tt, e') →
  chainedVerifier u = Ok tt ∧ roundVerifier u = Ok tt ∧ sizeVerifier u = Ok tt ∧ timestampVerifier u = Ok tt ∧
  generatorVerifier u = Ok tt ∧ versionVerifier u = Ok tt ∧ rewardVerifier u = Ok tt ∧
  transactionsLengthVerifier u = Ok tt ∧ transactionsDuplicatesVerifier u = Ok tt ∧
  transactionsRootVerifier u = Ok tt ∧ gasLimitVerifier u = Ok tt ∧ randaoVerifier u = Ok tt.
Proof.
  unfold verify. intros Hv. inv_run Hv.
  repeat match goal with H : liftR _ _ = (Ok ?a, _) |- _ => destruct a; apply liftR_inv in H as [H _] end.
  by repeat (split; [done |]).
Qed.

Lemma noDuplicates_spec l : ∀ seen,
  noDuplicates seen l = Ok tt → NoDup (tx_hash <$> l) ∧ ∀ tx, tx ∈ l → tx_hash tx ∉ seen.
Proof.
  induction l as [|tx l IH]; intros seen; simpl; [intros _; split; [constructor | by intros ? ?%elem_of_nil] |].
  case_bool_decide as Hseen; [done |]. intros [Hnd Hall]%IH. split.
  - apply NoDup_cons. split; [| done]. intros (tx' & Heq & Hin)%list_elem_of_fmap.
    apply (Hall _ Hin), elem_of_union_l, elem_of_singleton. done.
  - intros tx' [-> | Hin]%elem_of_cons; [done |]. intros Hs. by apply (Hall _ Hin), elem_of_union_r.
Qed.

(** Nothing is consumed past what the header claims, also when the block fails. *)
Definition withinClaim (block : Block) (s : ProcessState) : Prop :=
  bpr_gasUsed (ps_result s) ≤ bh_gasUsed (b_raw block) ∧ bpr_feeUsed (ps_result s) ≤ bh_fee (b_raw block).

Lemma onEvm_keeps {A} I (m : M E A) :
  triple (λ s, I (ps_result s)) (onEvm m) (λ _ s, I (ps_result s)) (λ _ s, I (ps_result s)).
Proof. intros s Hs. unfold onEvm. destruct (m (ps_evm s)) as [[] e']; done. Qed.

Lemma onEvm_inv {A} (m : M E A) s a s' :
  onEvm m s = (Ok a, s') → ∃ e', m (ps_evm s) = (Ok a, e') ∧ s' = mkProcessState e' (ps_result s).
Proof. unfold onEvm. destruct (m (ps_evm s)) as [r e'] eqn:?. intros [= -> <-]. eauto. Qed.

Lemma onEvm_run {A} (m : M E A) e r a e' :
  m e = (Ok a, e') → onEvm m (mkProcessState e r) = (Ok a, mkProcessState e' r).
Proof. unfold onEvm. simpl. by intros ->. Qed.

(** What one transaction adds to the result. *)
Definition addReceipt (tx : Transaction) (receipt : TransactionReceipt) (r : BlockProcessorResult) :=
  mkBlockProcessorResult (bpr_success r) (mapSet (bpr_receipts r) (tx_hash tx) receipt)
    (bpr_gasUsed r + tr_gasUsed receipt) (bpr_feeUsed r + tx_gasPrice tx * tr_gasUsed receipt).

Lemma executeTransaction_Ok block tx e r s' :
  executeTransaction block tx (mkProcessState e r) = (Ok tt, s') ↔
  ∃ receipt e', processTransaction block tx e = (Ok receipt, e') ∧
    bpr_gasUsed r + tr_gasUsed receipt ≤ bh_gasUsed (b_raw block) ∧
    bpr_feeUsed r + tx_gasPrice tx * tr_gasUsed receipt ≤ bh_fee (b_raw block) ∧
    s' = mkProcessState e' (addReceipt tx receipt r).
Proof.
  unfold executeTransaction, onEvm, mbind, M_bind; simpl.
  destruct (processTransaction block tx e) as [[receipt|err] e'];
    [| split; [done | by intros (? & ? & [=] & _)]].
  unfold setResult, modify, consumeGas, consumeFee, get, throw, calculateConsumed, mbind, M_bind. simpl.
  destruct (Z.ltb_spec (bh_gasUsed (b_raw block)) (bpr_gasUsed r + tr_gasUsed receipt)); simpl.
  { split; [done |]. intros (? & ? & [= <- <-] & ? & _). lia. }
  destruct (Z.ltb_spec (bh_fee (b_raw block)) (bpr_feeUsed r + tx_gasPrice tx * tr_gasUsed receipt)); simpl.
  { split; [done |]. intros (? & ? & [= <- <-] & ? & ? & _). lia. }
  split; [intros [= <-]; eauto 10 | by intros (? & ? & [= <- <-] & _ & _ & ->)].
Qed.

Lemma executeTransaction_within block tx :
  triple (withinClaim block) (executeTransaction block tx) (λ _, withinClaim block) (λ _, withinClaim block).
Proof.
  intros [e r] [Hg Hf]. unfold executeTransaction, onEvm, mbind, M_bind; simpl in *.
  destruct (processTransaction block tx e) as [[receipt|err] e']; [| done].
  unfold setResult, modify, consumeGas, consumeFee, get, throw, calculateConsumed, withinClaim, mbind, M_bind. simpl.
  destruct (Z.ltb_spec (bh_gasUsed (b_raw block)) (bpr_gasUsed r + tr_gasUsed receipt)); [done |]. simpl.
  by destruct (Z.ltb_spec (bh_fee (b_raw block)) (bpr_feeUsed r + tx_gasPrice tx * tr_gasUsed receipt)).
Qed.

(** The receipts in the order of the transactions, and the totals. *)
Definition addReceipts (l : list Transaction) (receipts : list TransactionReceipt) (r : BlockProcessorResult) :=
  mkBlockProcessorResult (bpr_success r) (bpr_receipts r ++ zip (tx_hash <$> l) receipts)
    (bpr_gasUsed r + totalGas receipts) (bpr_feeUsed r + totalFee l receipts).

Definition freshHashes (l : list Transaction) (r : BlockProcessorResult) : Prop :=
  NoDup (tx_hash <$> l) ∧ ∀ tx, tx ∈ l → mapGet (bpr_receipts r) (tx_hash tx) = None.

Lemma freshHashes_step tx l receipt r :
  freshHashes (tx :: l) r → freshHashes l (addReceipt tx receipt r).
Proof.
  intros [[Hnot Hnd]%NoDup_cons Hfresh]. split; [done |]. intros tx' Hin. simpl.
  rewrite mapGet_set, decide_False; [by apply Hfresh; right |].
  intros Heq. apply Hnot, list_elem_of_fmap. by exists tx'.
Qed.

Lemma addReceipts_step tx l receipt receipts r :
  freshHashes (tx :: l) r →
  addReceipts l receipts (addReceipt tx receipt r) = addReceipts (tx :: l) (receipt :: receipts) r.
Proof.
  intros [_ Hfresh]. unfold addReceipts, addReceipt. simpl. rewrite mapSet_fresh by (apply Hfresh; left).
  rewrite <- app_assoc. simpl. by rewrite !Z.add_assoc.
Qed.

Lemma executeLoop_inv block l : ∀ e r s',
  freshHashes l r →
  forEach l (executeTransaction block) (mkProcessState e r) = (Ok tt, s') →
  ∃ receipts e', executeAll block l e = (Ok receipts, e') ∧ s' = mkProcessState e' (addReceipts l receipts r).
Proof.
  induction l as [|tx l IH]; intros e r s' Hfresh; simpl.
  { intros [= <-]. exists [], e. split; [done |]. f_equal. unfold addReceipts. simpl.
    rewrite app_nil_r, !Z.add_0_r. by destruct r. }
  intros Hrun. apply M_bind_inv in Hrun as ([] & s1 & Hone & Hrest).
  apply executeTransaction_Ok in Hone as (receipt & e1 & Hp & _ & _ & ->).
  apply IH in Hrest as (receipts & e' & Hall & ->); [| by apply freshHashes_step].
  exists (receipt :: receipts), e'. rewrite (M_bind_run _ _ _ _ _ Hp), (M_bind_run _ _ _ _ _ Hall).
  split; [done |]. by rewrite addReceipts_step.
Qed.

(** EVM receipts report an unsigned amount of gas. *)
Definition gasUnsigned : Prop := ∀ c e receipt e', evm_process c e = (Ok receipt, e') → 0 ≤ tr_gasUsed receipt.

Lemma executeAll_unsigned block l : gasUnsigned → ∀ e receipts e',
  Forall (λ tx, 0 ≤ tx_gasPrice tx) l →
  executeAll block l e = (Ok receipts, e') → 0 ≤ totalGas receipts ∧ 0 ≤ totalFee l receipts.
Proof.
  intros Hgas. induction l as [|tx l IH]; intros e receipts e' Hprice; simpl; [by intros [= <- <-] |].
  intros Hrun. inversion Hprice; subst. inv_run Hrun. injection Hrun as <- <-.
  apply Hgas in Hm. apply IH in Hm0 as [??]; [simpl; nia | done].
Qed.

Lemma executeAll_length block l : ∀ e receipts e',
  executeAll block l e = (Ok receipts, e') → length receipts = length l.
Proof.
  induction l as [|tx l IH]; intros e receipts e'; simpl; [by intros [= <- _] |].
  intros Hrun. inv_run Hrun. injection Hrun as <- _. simpl. f_equal. eauto.
Qed.

Lemma executeLoop_run block l : gasUnsigned → ∀ e r receipts e',
  Forall (λ tx, 0 ≤ tx_gasPrice tx) l → freshHashes l r →
  executeAll block l e = (Ok receipts, e') →
  bpr_gasUsed r + totalGas receipts ≤ bh_gasUsed (b_raw block) →
  bpr_feeUsed r + totalFee l receipts ≤ bh_fee (b_raw block) →
  forEach l (executeTransaction block) (mkProcessState e r) = (Ok tt, mkProcessState e' (addReceipts l receipts r)).
Proof.
  intros Hgas. induction l as [|tx l IH]; intros e r receipts e' Hprice Hfresh; simpl.
  { intros [= <- <-] _ _. unfold addReceipts, mret, M_ret. simpl. rewrite app_nil_r, !Z.add_0_r. by destruct r. }
  inversion Hprice; subst. intros Hrun. inv_run Hrun. injection Hrun as <- <-. simpl. intros Hg Hf.
  destruct (executeAll_unsigned _ _ Hgas _ _ _ ltac:(done) Hm0).
  erewrite M_bind_run.
  2:{ apply executeTransaction_Ok. do 2 eexists. split; [exact Hm |]. split; [lia |]. split; [lia |]. reflexivity. }
  rewrite <- addReceipts_step by done. apply IH; simpl; eauto using freshHashes_step; lia.
Qed.
(** ** The processor as a whole *)
Definition accepted (r : BlockProcessorResult) : BlockProcessorResult :=
  mkBlockProcessorResult true (bpr_receipts r) (bpr_gasUsed r) (bpr_feeUsed r).

(** A property of the result under construction that the execution of a
    transaction keeps holds to the end, or to the error. *)
Section keeps.
Context (I : BlockProcessorResult → Prop) (u : Unit).
Let keeps {A} (m : M ProcessState A) : Prop :=
  triple (λ s, I (ps_result s)) m (λ _ s, I (ps_result s)) (λ _ s, I (ps_result s)).
Hypothesis Htx : ∀ tx, keeps (executeTransaction (un_block u) tx).

Lemma keeps_pure {A} (m : M ProcessState A) : (∀ s, (m s).2 = s) → keeps m.
Proof. intros Hm s Hs. specialize (Hm s). destruct (m s) as [[] s']; simpl in Hm; by subst. Qed.

Lemma processBody_keeps :
  triple (λ s, I (ps_result s)) (processBody u)
    (λ _ s, ∃ r, I r ∧ ps_result s = accepted r) (λ _ s, I (ps_result s)).
Proof.
  assert (Hpure : ∀ b class, keeps (if negb b then throw (NamedError class) else mret tt)) by
    (intros [] class; by apply keeps_pure).
  unfold processBody. cbv zeta.
  repeat match goal with
  | |- triple _ (mbind _ _) _ _ => eapply (triple_bind _ _ _ (λ _ s, I (ps_result s))); [| intros ?]
  | |- triple _ (onEvm _) _ (λ _ s, I (ps_result s)) => apply onEvm_keeps
  | |- triple _ (liftR _) _ _ => by apply keeps_pure
  | |- triple _ (forEach _ _) _ _ => apply triple_forEach; intros; apply Htx
  | |- triple _ (verifyConsumedAllGas _) _ _ => unfold verifyConsumedAllGas
  | |- triple _ (verifyTotalFee _) _ _ => unfold verifyTotalFee
  | |- triple _ (verifyStateRoot _) _ _ => unfold verifyStateRoot
  | |- triple _ (verifyLogsBloom _) _ _ => unfold verifyLogsBloom
  | |- triple _ get _ _ => by apply keeps_pure
  | |- triple _ (if negb _ then _ else _) _ _ => apply Hpure
  | |- triple _ (when _ _) _ _ => unfold when; case_match; [| by apply keeps_pure]
  end.
  intros s Hs. exists (ps_result s). done.
Qed.
End keeps.

Lemma process_within u e :
  0 ≤ bh_gasUsed (b_raw (un_block u)) → 0 ≤ bh_fee (b_raw (un_block u)) →
  bpr_gasUsed (process u e).1 ≤ bh_gasUsed (b_raw (un_block u)) ∧
  bpr_feeUsed (process u e).1 ≤ bh_fee (b_raw (un_block u)).
Proof.
  intros Hg Hf.
  pose proof (processBody_keeps (λ r, bpr_gasUsed r ≤ bh_gasUsed (b_raw (un_block u)) ∧
    bpr_feeUsed r ≤ bh_fee (b_raw (un_block u))) u (executeTransaction_within _)
    (mkProcessState e failedProcessorResult) (conj Hg Hf)) as Hb.
  unfold process. destruct (processBody u _) as [[] s']; simpl; [| done].
  by destruct Hb as (r & Hr & ->).
Qed.

Lemma executeTransaction_pending block tx :
  triple (λ s, bpr_success (ps_result s) = false) (executeTransaction block tx)
    (λ _ s, bpr_success (ps_result s) = false) (λ _ s, bpr_success (ps_result s) = false).
Proof.
  intros [e r] Hr. unfold executeTransaction, onEvm, mbind, M_bind; simpl in *.
  destruct (processTransaction block tx e) as [[receipt|err] e']; [| done].
  unfold setResult, modify, consumeGas, consumeFee, get, throw, calculateConsumed, mbind, M_bind. simpl.
  destruct (Z.ltb_spec (bh_gasUsed (b_raw block)) (bpr_gasUsed r + tr_gasUsed receipt)); [done |]. simpl.
  by destruct (Z.ltb_spec (bh_fee (b_raw block)) (bpr_feeUsed r + tx_gasPrice tx * tr_gasUsed receipt)).
Qed.

Lemma process_success u e :
  bpr_success (process u e).1 = true →
  ∃ s', processBody u (mkProcessState e failedProcessorResult) = (Ok tt, s') ∧ process u e = (ps_result s', ps_evm s').
Proof.
  pose proof (processBody_keeps (λ r, bpr_success r = false) u (executeTransaction_pending _)
    (mkProcessState e failedProcessorResult) eq_refl) as Hb.
  unfold process. destruct (processBody u _) as [[[]|] s']; simpl; [eauto | congruence].
Qed.
Lemma verify_fresh u e e' : verify u e = (Ok tt, e') → freshHashes (transactionsOf (un_block u)) failedProcessorResult.
Proof.
  intros (_ & _ & _ & _ & _ & _ & _ & _ & Hdup & _)%verify_Ok.
  apply noDuplicates_spec in Hdup as [Hnd _]. by split.
Qed.

Definition blockResult (block : Block) (receipts : list TransactionReceipt) : BlockProcessorResult :=
  mkBlockProcessorResult true (zip (tx_hash <$> transactionsOf block) receipts)
    (bh_gasUsed (b_raw block)) (bh_fee (b_raw block)).

Lemma requireM_inv b class e e' : requireM b class e = (Ok tt, e') → b = true ∧ e' = e.
Proof. destruct b; [by intros [= ->] | done]. Qed.

Lemma requireM_run b class e : b = true → requireM b class e = (Ok tt, e).
Proof. by intros ->. Qed.

Lemma liftR_run {S A} (r : result A) a (s : S) : r = Ok a → liftR r s = (Ok a, s).
Proof. by intros ->. Qed.

Lemma throwUnless_run {S} (b : bool) err (s : S) : b = true → (if negb b then throw err else mret tt) s = (Ok tt, s).
Proof. by intros ->. Qed.

Lemma throwUnless_inv {S} (b : bool) err (s s' : S) :
  (if negb b then throw err else mret tt) s = (Ok tt, s') → b = true ∧ s' = s.
Proof. destruct b; [by intros [= ->] | done]. Qed.

Lemma checkM_inv {S A} (f : S → A) (c : A → bool) err (s s' : S) :
  (x ← get; if negb (c (f x)) then throw err else mret tt) s = (Ok tt, s') → c (f s) = true ∧ s' = s.
Proof. apply (throwUnless_inv (c (f s))). Qed.

(** The rounds part of the body, on the EVM alone. *)
Lemma when_onEvm b (m1 m2 : M E unit) s s' :
  when b (onEvm m1;; onEvm m2) s = (Ok tt, s') →
  ∃ e', when b (m1;; m2) (ps_evm s) = (Ok tt, e') ∧ s' = mkProcessState e' (ps_result s).
Proof.
  unfold when. destruct b; [| intros [= <-]; exists (ps_evm s); by destruct s].
  intros Hrun. inv_run Hrun. destruct a. apply onEvm_inv in Hm as (e1 & H1' & ->).
  apply onEvm_inv in Hrun as (e2 & H2' & ->). exists e2. split; [| done]. by rewrite (M_bind_run _ _ _ _ _ H1').
Qed.

Lemma when_onEvm_run b (m1 m2 : M E unit) e r e' :
  when b (m1;; m2) e = (Ok tt, e') →
  when b (onEvm m1;; onEvm m2) (mkProcessState e r) = (Ok tt, mkProcessState e' r).
Proof.
  unfold when. destruct b; [| by intros [= <-]]. intros Hrun. inv_run Hrun. destruct a.
  erewrite M_bind_run by (by apply onEvm_run). by apply onEvm_run.
Qed.

Lemma body_rules u e s' :
  processBody u (mkProcessState e failedProcessorResult) = (Ok tt, s') →
  ∃ receipts, blockRules u e = (Ok receipts, ps_evm s') ∧ ps_result s' = blockResult (un_block u) receipts.
Proof.
  unfold processBody. cbv zeta. intros Hrun. inv_run Hrun.
  repeat match goal with a : unit |- _ => destruct a end.
  apply onEvm_inv in Hm as (e1 & Hv & ->). apply liftR_inv in Hm0 as [Hp ->].
  apply onEvm_inv in Hm1 as (e2 & Hn & ->). simpl in *.
  apply executeLoop_inv in Hm2 as (receipts & e3 & Hall & ->); [| by eapply verify_fresh].
  apply (checkM_inv (λ s, bpr_gasUsed (ps_result s)) (Z.eqb _)) in Hm3 as [Hgas ->].
  apply (checkM_inv (λ s, bpr_feeUsed (ps_result s)) (λ f, f =? _)) in Hm4 as [Hfee ->].
  apply onEvm_inv in Hm5 as (e4 & Hr & ->). apply when_onEvm in Hm6 as (e5 & Hw & ->). simpl in *.
  unfold verifyStateRoot in Hm7. inv_run Hm7. apply liftR_inv in Hm as [Hps ->].
  apply onEvm_inv in Hm0 as (e6 & Hs & ->). apply throwUnless_inv in Hm7 as [Hroot ->]. simpl in *.
  unfold verifyLogsBloom in Hm8. inv_run Hm8. apply onEvm_inv in Hm as (e7 & Hl & ->).
  apply throwUnless_inv in Hm8 as [Hbloom ->]. injection Hrun as <-. simpl in *.
  exists receipts. split; [| unfold blockResult; simpl_bool; simpl; f_equal; lia].
  unfold blockRules. cbv zeta.
  by rewrite (M_bind_run _ _ _ _ _ Hv), (M_bind_run _ _ _ _ _ (liftR_run _ _ _ Hp)),
    (M_bind_run _ _ _ _ _ Hn), (M_bind_run _ _ _ _ _ Hall),
    (M_bind_run _ _ _ _ _ (requireM_run _ _ _ (eq_trans (Z.eqb_sym _ _) Hgas))),
    (M_bind_run _ _ _ _ _ (requireM_run _ _ _ Hfee)), (M_bind_run _ _ _ _ _ Hr), (M_bind_run _ _ _ _ _ Hw),
    (M_bind_run _ _ _ _ _ (liftR_run _ _ _ Hps)), (M_bind_run _ _ _ _ _ Hs),
    (M_bind_run _ _ _ _ _ (requireM_run _ _ _ Hroot)), (M_bind_run _ _ _ _ _ Hl),
    (M_bind_run _ _ _ _ _ (requireM_run _ _ _ Hbloom)).
Qed.

Lemma rules_body u e receipts e' :
  gasUnsigned → Forall (λ tx, 0 ≤ tx_gasPrice tx) (transactionsOf (un_block u)) →
  blockRules u e = (Ok receipts, e') →
  processBody u (mkProcessState e failedProcessorResult) =
    (Ok tt, mkProcessState e' (blockResult (un_block u) receipts)).
Proof.
  intros Hunsigned Hprices. unfold blockRules. cbv zeta. intros Hrun. inv_run Hrun.
  repeat match goal with a : unit |- _ => destruct a end.
  apply liftR_inv in Hm0 as [Hp ->]. apply requireM_inv in Hm3 as [Hgas ->], Hm4 as [Hfee ->].
  apply liftR_inv in Hm7 as [Hps ->]. apply requireM_inv in Hm9 as [Hroot ->], Hm11 as [Hbloom ->].
  injection Hrun as <- <-. unfold processBody. cbv zeta.
  pose proof (verify_fresh _ _ _ Hm) as Hfresh.
  rewrite (M_bind_run _ _ _ _ _ (onEvm_run _ _ _ _ _ Hm)), (M_bind_run _ _ _ _ _ (liftR_run _ _ _ Hp)),
    (M_bind_run _ _ _ _ _ (onEvm_run _ _ _ _ _ Hm1)).
  erewrite M_bind_run by (apply executeLoop_run; [done | done | done | exact Hm2 | |]; simpl_bool; simpl; lia).
  erewrite M_bind_run by (apply throwUnless_run; simpl_bool; simpl; apply Z.eqb_eq; lia).
  erewrite M_bind_run by (apply throwUnless_run; simpl_bool; simpl; apply Z.eqb_eq; lia).
  rewrite (M_bind_run _ _ _ _ _ (onEvm_run _ _ _ _ _ Hm5)), (M_bind_run _ _ _ _ _ (when_onEvm_run _ _ _ _ _ _ Hm6)).
  assert (Hsr : ∀ r, verifyStateRoot (un_block u) (mkProcessState s6 r) = (Ok tt, mkProcessState s8 r)).
  { intros r. unfold verifyStateRoot.
    rewrite (M_bind_run _ _ _ _ _ (liftR_run _ _ _ Hps)), (M_bind_run _ _ _ _ _ (onEvm_run _ _ _ _ _ Hm8)).
    by apply throwUnless_run. }
  assert (Hlb : ∀ r, verifyLogsBloom (un_block u) (mkProcessState s8 r) = (Ok tt, mkProcessState s10 r)).
  { intros r. unfold verifyLogsBloom. rewrite (M_bind_run _ _ _ _ _ (onEvm_run _ _ _ _ _ Hm10)).
    by apply throwUnless_run. }
  rewrite (M_bind_run _ _ _ _ _ (Hsr _)), (M_bind_run _ _ _ _ _ (Hlb _)).
  unfold setResult, modify, blockResult. simpl. simpl_bool. do 3 f_equal; lia.
Qed.

(** C11. The block processor implements the rules of a block: it reports
    success exactly when the rules hold, that is when the verifiers pass, every
    transaction executes, the gas and the fees of all receipts add up to the
    header's, the round changes and the state root and the logs bloom of the
    EVM are the header's; and then its result is one receipt per transaction,
    in order, under the transaction's hash, with the EVM in the state the rules
    give.  Stopping at the first transaction that exceeds the header's gas or
    fee rejects no block that the totals would accept. *)
Theorem process_refines (u : Unit) (e : E) :
  gasUnsigned → Forall (λ tx, 0 ≤ tx_gasPrice tx) (transactionsOf (un_block u)) →
  bpr_success (process u e).1 = is_ok (blockRules u e).1 ∧
  ∀ receipts e', blockRules u e = (Ok receipts, e') → process u e = (blockResult (un_block u) receipts, e').
Proof.
  intros Hgas Hprices. split.
  - destruct (bpr_success (process u e).1) eqn:Hs.
    + apply process_success in Hs as (s' & Hb & _). apply body_rules in Hb as (receipts & -> & _). done.
    + destruct (blockRules u e) as [[receipts|] e'] eqn:Hr; [| done]. exfalso.
      unfold process in Hs. by rewrite (rules_body _ _ _ _ Hgas Hprices Hr) in Hs.
  - intros receipts e' Hr. unfold process. by rewrite (rules_body _ _ _ _ Hgas Hprices Hr).
Qed.

(** Processing never reports more gas or more fees than the block's header
    claims, whether it succeeds or stops at an error. *)
Theorem process_bounds (u : Unit) (e : E) :
  0 ≤ bh_gasUsed (b_raw (un_block u)) → 0 ≤ bh_fee (b_raw (un_block u)) →
  bpr_gasUsed (process u e).1 ≤ bh_gasUsed (b_raw (un_block u)) ∧
  bpr_feeUsed (process u e).1 ≤ bh_fee (b_raw (un_block u)).
Proof. apply process_within. Qed.

(** What the verifiers establish of a block after the genesis block. *)
Record ValidNext (u : Unit) (last : Block) : Prop := {
  vn_parent : bh_parentHash (b_raw (un_block u)) = b_hash last;
  vn_number : b_number (un_block u) = b_number last + 1;
  vn_round : b_round (un_block u) ≤ un_round u;
  vn_timestamp : ∃ minimal,
    calculateMinimalTimestamp (timeoutsOf (b_number last + 1)) (b_timestamp last) (b_round (un_block u)) = Ok minimal ∧
    minimal ≤ b_timestamp (un_block u);
  vn_proposer : ∃ validator,
    getValidator (ch_validatorSet chain)
      (getValidatorIndexFrom (roundValidatorsOf (ch_height chain)) (ch_totalRound chain) (b_round (un_block u)))
      = Ok validator ∧ bh_proposer (b_raw (un_block u)) = vw_address validator;
  vn_gasLimit : bh_gasUsed (b_raw (un_block u)) ≤ bm_maxGasLimit (milestoneOf (b_number (un_block u)));
  vn_reward : bh_reward (b_raw (un_block u)) = bm_reward (milestoneOf (b_number (un_block u)));
  vn_size : headerSize + bh_payloadSize (b_raw (un_block u)) ≤ bm_maxPayload (milestoneOf (b_number (un_block u)));
  vn_count : Z.of_nat (length (transactionsOf (un_block u))) = bh_transactionsCount (b_raw (un_block u));
  vn_unique : NoDup (tx_hash <$> transactionsOf (un_block u));
}.

Lemma verify_next u e e' last :
  isGenesis (un_block u) = false → getLastBlock chain = Ok last →
  verify u e = (Ok tt, e') → ValidNext u last.
Proof.
  intros Hgen Hlast (Hc & Hr & Hs & Ht & Hg & Hv & Hw & Hn & Hd & Hroot & Hl & Hrandao)%verify_Ok.
  unfold chainedVerifier, timestampVerifier, generatorVerifier, gasLimitVerifier in *.
  rewrite Hgen in Hc, Ht, Hg, Hl. rewrite Hlast in Hc, Ht. simpl in Hc, Ht.
  unfold roundVerifier, sizeVerifier, rewardVerifier, transactionsLengthVerifier, reject in *.
  apply noDuplicates_spec in Hd as [Hd _].
  split; try done.
  - repeat case_match; simpl_bool; try done. by apply String.eqb_eq.
  - repeat case_match; simpl_bool; done.
  - repeat case_match; simpl_bool; try done.
  - apply bind_Ok in Ht as (minimal & Hmin & Ht). exists minimal. split; [done |].
    repeat case_match; simpl_bool; done.
  - apply bind_Ok in Hg as (validator & Hval & Hg). exists validator. split; [done |].
    repeat case_match; simpl_bool; try done. by apply String.eqb_eq.
  - repeat case_match; simpl_bool; done.
  - repeat case_match; simpl_bool; done.
  - repeat case_match; simpl_bool; done.
  - unfold transactionsOf. rewrite length_fmap. repeat case_match; simpl_bool; done.
Qed.

(** C12. A block after genesis that is processed successfully extends the last
    block: it names its hash as parent and carries the next number, its
    timestamp is at least the minimal one of its round, its round is not after
    the one it is processed in, its proposer is the validator whose turn it
    was, it keeps the milestone's gas limit, reward and payload size, and its
    transactions are as many as it says and distinct; and its header's gas is
    the sum over the receipts. *)
Theorem accepted_block_valid (u : Unit) (e : E) (last : Block) :
  isGenesis (un_block u) = false → getLastBlock chain = Ok last →
  bpr_success (process u e).1 = true →
  ValidNext u last ∧
  ∃ receipts, (process u e).1 = blockResult (un_block u) receipts ∧
    length receipts = length (transactionsOf (un_block u)) ∧
    totalGas receipts = bh_gasUsed (b_raw (un_block u)) ∧
    totalFee (transactionsOf (un_block u)) receipts = bh_fee (b_raw (un_block u)).
Proof.
  intros Hgen Hlast (s' & Hb & Hp)%process_success. apply body_rules in Hb as (receipts & Hrules & Hres).
  unfold blockRules in Hrules. cbv zeta in Hrules. inv_run Hrules.
  repeat match goal with a : unit |- _ => destruct a end.
  apply requireM_inv in Hm3 as [Hgas ->], Hm4 as [Hfee ->].
  split; [by eapply verify_next |]. exists a2. rewrite Hp, Hres. injection Hrules as -> _.
  simpl_bool. split; [done |]. split; [| done]. by eapply executeAll_length.
Qed.
End processor.
