(* ===== verification/Ledger.v ===== *)
(** * The stored chain

    How a commit is stored and read back: [#prepareCommitData] of
    packages/evm-service/source/instances/evm.ts, the storage entry points of the
    factories of crypto-transaction, crypto-block and crypto-commit, the tables that
    evm/core/src/db.rs writes at a commit, packages/database/source/database-service.ts
    over them, and what packages/bootstrap/source/bootstrapper.ts restores from it. *)
From stdpp Require Import sorting.
From S2P Require Import Prelude Bytes ByteBuffer Serializer Messages Blocks Proposals Commits JsMap Quorum BlockchainUtils.
From S2P Require Import ValidatorSet RoundState ConsensusStorage Node Canonical Rlp Transactions BlockProcessor.

(** ** What is stored *)
Record TransactionStorageData := mkTransactionStorageData {
  td_blockNumber : Z;
  td_data : list byte;
  td_from : string;
  td_gasLimit : Z;
  td_gasPrice : Z;
  td_index : Z;
  td_legacyAddress : option string;
  td_legacySecondSignature : option string;
  td_nonce : Z;
  td_r : string;
  td_s : string;
  td_senderPublicKey : string;
  td_to : option string;
  td_txHash : string;
  td_v : Z;
  td_value : Z;
}.
Record ProofStorageData := mkProofStorageData { pd_round : Z; pd_signature : string; pd_validatorSet : Z }.
Record CommitStorageData := mkCommitStorageData {
  cd_header : BlockHeader;
  cd_proof : ProofStorageData;
  cd_transactions : list TransactionStorageData;
}.

Section storage.
Context `{Viem} `{ViemRlp} `{WalletCrypto}.
(** The network's chain id, and [roundValidators] of the milestone of a height. *)
Context (chainId : Z) (roundValidatorsOf : Z → Z).

(** ** evm.ts: [#prepareCommitData] *)
Definition slice2 (s : string) : string := match s with String _ (String _ rest) => rest | _ => EmptyString end.

Definition storeTransaction (block : Block) (transaction : BlockTransaction) : TransactionStorageData :=
  let tx := bt_transaction transaction in
  mkTransactionStorageData (b_number block) (hexDecode (slice2 (tx_data tx))) (tx_from tx) (tx_gasLimit tx) (tx_gasPrice tx)
    (bt_transactionIndex transaction) (Some (tx_senderLegacyAddress tx)) (tx_legacySecondSignature tx) (tx_nonce tx) (tx_r tx) (tx_s tx)
    (tx_senderPublicKey tx) (tx_to tx) (tx_hash tx) (tx_v tx) (tx_value tx).

Definition prepareCommitData (commit : Commit) : CommitStorageData :=
  let block := c_block commit in let proof := c_proof commit in
  mkCommitStorageData (b_header block)
    (mkProofStorageData (cp_round proof) (cp_signature proof) (validatorSetPack (cp_validators proof)))
    (storeTransaction block <$> b_transactions block).

(** ** crypto-transaction/source/factory.ts: [fromStorage] *)
Definition transactionFromStorage (blockHash : string) (transaction : TransactionStorageData) : result BlockTransaction :=
  senderLegacyAddress ← match truthy (td_legacyAddress transaction) with
                        | Some legacyAddress => Ok legacyAddress
                        | None => legacyAddressFromPublicKey (td_senderPublicKey transaction)
                        end;
  let transactionData := mkTransactionSerializable chainId (td_to transaction) (td_value transaction) (td_gasPrice transaction)
    (td_gasLimit transaction) (td_nonce transaction) ("0x" +:+ hexEncode (td_data transaction)) (td_v transaction) (td_r transaction)
    (td_s transaction) (td_legacySecondSignature transaction) in
  serialized ← serializeTransaction transactionData;
  Ok (mkBlockTransaction
        (newTransaction transactionData (td_from transaction) (td_txHash transaction) senderLegacyAddress (td_senderPublicKey transaction) serialized)
        (td_index transaction) (td_blockNumber transaction) blockHash).

(** ** crypto-block/source/factory.ts: [headerFromStorage], [fromStorage] *)
Definition headerFromStorage (header : BlockHeader) : BlockHeader :=
  let h := bh_raw header in
  mkBlockHeader
    (mkBlockHeaderRaw (bh_version h) (bh_timestamp h) (bh_number h) (bh_round h) (bh_parentHash h) (bh_stateRoot h) (bh_logsBloom h)
       (bh_transactionsCount h) (bh_gasUsed h) (bh_fee h) (bh_reward h) (bh_payloadSize h) (bh_transactionsRoot h) (bh_proposer h) (bh_randaoReveal h))
    (bh_hash header).
Definition blockFromStorage (header : BlockHeader) (transactions : list TransactionStorageData) : result Block :=
  parsedTransactions ← traverse (transactionFromStorage (bh_hash header)) transactions;
  let data := headerFromStorage header in
  let transactions := bt_transaction <$> parsedTransactions in
  serialized ← serializeWithTransactions (bh_raw data) transactions;
  Ok (newBlock data (hexEncode serialized) transactions).

(** ** crypto-commit/source/factory.ts: [fromStorage] *)
Definition commitFromStorage (data : CommitStorageData) : result Commit :=
  block ← blockFromStorage (cd_header data) (cd_transactions data);
  validators ← validatorSetUnpack (pd_validatorSet (cd_proof data)) (roundValidatorsOf (b_number block));
  let proof := mkCommitProof (pd_round (cd_proof data)) (pd_signature (cd_proof data)) validators in
  serialized ← serializeCommit block proof;
  Ok (mkCommit block proof (hexEncode serialized)).

(** ** db.rs

    The tables that a commit writes: blocks, proofs and transactions, which are
    written together, by block number in ascending order; the numbers of blocks and
    the keys of transactions by hash; [total_round]. *)
Record Tables := mkTables {
  tb_commits : list (Z * CommitStorageData);
  tb_blocksHashNumber : JsMap string Z;
  tb_transactionsHashKey : JsMap string (Z * nat);
  tb_totalRound : Z;
}.
#[export] Instance eta_Tables : Eta Tables := λ t,
  mkTables (tb_commits t) (tb_blocksHashNumber t) (tb_transactionsHashKey t) (tb_totalRound t).
Definition newTables : Tables := mkTables [] [] [] 0.

Fixpoint putCommit (number : Z) (data : CommitStorageData) (l : list (Z * CommitStorageData)) : list (Z * CommitStorageData) :=
  match l with
  | [] => [(number, data)]
  | (n, d) :: rest => if number <? n then (number, data) :: l else if number =? n then (number, data) :: rest else (n, d) :: putCommit number data rest
  end.
Definition lookupCommit (number : Z) (t : Tables) : option CommitStorageData := mapGet (tb_commits t) number.

(** The loop over the transactions of a block. *)
Definition putTransactionKeys (number : Z) (transactions : list TransactionStorageData) (m : JsMap string (Z * nat)) : JsMap string (Z * nat) :=
  foldl (λ m '(sequence, transaction), mapSet m (td_txHash transaction) (number, sequence)) m (imap pair transactions).

(** [commit_to_db]: one transaction of the database. *)
Definition commitToDb (number : Z) (data : CommitStorageData) : M Tables unit :=
  t ← get;
  if isSome (lookupCommit number t) then throw (JSError "block already committed")
  else modify (λ t, t
    <| tb_commits ::= putCommit number data |>
    <| tb_blocksHashNumber ::= λ m, mapSet m (bh_hash (cd_header data)) number |>
    <| tb_transactionsHashKey ::= putTransactionKeys number (cd_transactions data) |>
    <| tb_totalRound ::= λ r, r + pd_round (cd_proof data) + 1 |>).

(** [get_block_number_by_hash], [get_block_header_data], [get_transaction_key_by_hash], [get_transaction_data]. *)
Definition getBlockNumberByHash (blockHash : string) (t : Tables) : option Z := mapGet (tb_blocksHashNumber t) blockHash.
Definition getBlockHeaderData (blockNumber : Z) (t : Tables) : option BlockHeader := cd_header <$> lookupCommit blockNumber t.
Definition getTransactionKeyByHash (txHash : string) (t : Tables) : option (Z * nat) := mapGet (tb_transactionsHashKey t) txHash.
Definition getTransactionData (key : Z * nat) (t : Tables) : option TransactionStorageData :=
  lookupCommit key.1 t ≫= λ data, cd_transactions data !! key.2.

Definition tablesEmpty (t : Tables) : bool := bool_decide (tb_commits t = []).
(** [get_state]: the last block number and the total of rounds. *)
Definition getState (t : Tables) : Z * Z := (match last (tb_commits t) with Some (number, _) => number | None => 0 end, tb_totalRound t).

(** ** database-service.ts *)
Record Database := mkDatabase { db_tables : Tables; db_blockNumber : Z; db_totalRound : Z }.
#[export] Instance eta_Database : Eta Database := λ d, mkDatabase (db_tables d) (db_blockNumber d) (db_totalRound d).

(** A new process over the tables: [initialize]. *)
Definition openDatabase (t : Tables) : Database := mkDatabase t (getState t).1 (getState t).2.
Definition isEmpty (d : Database) : bool := tablesEmpty (db_tables d).
Definition getBlock (blockNumber : Z) (d : Database) : result (option Block) :=
  match lookupCommit blockNumber (db_tables d) with
  | Some data => commit ← commitFromStorage data; Ok (Some (c_block commit))
  | None => Ok None
  end.
Definition hasCommitByHash (blockHash : string) (d : Database) : bool := isSome (getBlockNumberByHash blockHash (db_tables d)).
Definition getBlockByHash (blockHash : string) (d : Database) : result (option Block) :=
  match getBlockNumberByHash blockHash (db_tables d) with
  | Some blockNumber => getBlock blockNumber d
  | None => Ok None
  end.
Definition getBlockHeader (blockNumber : Z) (d : Database) : option BlockHeader :=
  headerFromStorage <$> getBlockHeaderData blockNumber (db_tables d).
Definition getBlockHeaderByHash (blockHash : string) (d : Database) : option BlockHeader :=
  getBlockNumberByHash blockHash (db_tables d) ≫= λ blockNumber, getBlockHeader blockNumber d.
Definition readTransaction (key : Z * nat) (d : Database) : result (option BlockTransaction) :=
  match getTransactionData key (db_tables d) with
  | None => Ok None
  | Some transaction =>
      blockHeaderData ← assert_defined (getBlockHeaderData (td_blockNumber transaction) (db_tables d));
      Some <$> transactionFromStorage (bh_hash blockHeaderData) transaction
  end.
Definition getTransactionByHash (transactionHash : string) (d : Database) : result (option BlockTransaction) :=
  match getTransactionKeyByHash transactionHash (db_tables d) with
  | None => Ok None
  | Some key => readTransaction key d
  end.
Definition getTransactionByBlockHashAndIndex (blockHash : string) (index : nat) (d : Database) : result (option BlockTransaction) :=
  match getBlockNumberByHash blockHash (db_tables d) with
  | None => Ok None
  | Some blockNumber => readTransaction (blockNumber, index) d
  end.
Definition getTransactionByBlockNumberAndIndex (blockNumber : Z) (index : nat) (d : Database) : result (option BlockTransaction) :=
  readTransaction (blockNumber, index) d.
Definition getLastCommit (d : Database) : result Commit :=
  if isEmpty d then Throw (JSError "Database is empty")
  else data ← assert_defined (lookupCommit (db_blockNumber d) (db_tables d)); commitFromStorage data.
Definition databaseCommitted (commit : Commit) : M Database unit :=
  modify (λ d, d <| db_blockNumber := b_number (c_block commit) |> <| db_totalRound ::= λ r, r + (cp_round (c_proof commit) + 1) |>).

(** ** A node's chain over the database: the handlers of block-processor.ts' [commit]
    that write either. *)
Record Store := mkStore { so_chain : Chain; so_database : Database }.
#[export] Instance eta_Store : Eta Store := λ s, mkStore (so_chain s) (so_database s).
Definition onDatabase (m : M Database unit) : M Store unit := zoomM so_database (λ d s, s <| so_database := d |>) m.
Definition onStoreChain (m : M Chain unit) : M Store unit := zoomM so_chain (λ c s, s <| so_chain := c |>) m.

(** evm.ts: [onCommit] (its tables), then [stateStore.onCommit], then
    [databaseService.onCommit]. *)
Definition commitHandlers (commit : Commit) : M Store unit :=
  onDatabase (zoomM db_tables (λ t d, d <| db_tables := t |>) (commitToDb (b_number (c_block commit)) (prepareCommitData commit)));;
  onStoreChain (storeOnCommit (c_block commit) (cp_round (c_proof commit)));;
  onDatabase (databaseCommitted commit).

(** ** bootstrapper.ts: what it restores

    [#checkStoredGenesisCommit] and [#initPostGenesisState]. *)
Definition checkStoredGenesisCommit (genesisHeight : Z) (s : Store) : result unit :=
  genesisBlock ← getBlock genesisHeight (so_database s);
  match genesisBlock with
  | None => Ok tt
  | Some block =>
      genesis ← getGenesisCommit (so_chain s);
      guardR (String.eqb (b_hash (c_block genesis)) (b_hash block)) (JSError "Block from crypto.json doesn't match stored genesis block")
  end.
Definition initPostGenesisState : M Store unit :=
  s ← get;
  commit ← liftR (getLastCommit (so_database s));
  onStoreChain (setLastBlock (c_block commit));;
  onStoreChain (setTotalRound (db_totalRound (so_database s))).
End storage.

(** ** Reading back what was stored *)
Section correctness.
Context `{ViemLaws} `{HashFactory} `{WalletCrypto}.
Context (isAddress isPublicKey isAlphanumeric : string → bool) (rules : TransactionRules).
Context (roundValidatorsAt : option Z → Z) (txSchemaValid : Transaction → bool).

(** The commits that are read here carry transactions of [rules]. *)
#[local] Instance ledgerCodec : TransactionCodec := transactionCodec isAddress isPublicKey isAlphanumeric rules.
#[local] Abbreviation chainId := (tr_chainId rules).
#[local] Abbreviation roundValidatorsOf := (λ number, roundValidatorsAt (Some number)).
#[local] Abbreviation readCommit := (commitFromBytes roundValidatorsAt isAddress txSchemaValid).

(** A transaction that is stored without loss. *)
Record storable (tx : Transaction) : Prop := {
  sb_network : tx_network tx = chainId;
  sb_data : ∃ d, tx_data tx = "0x" +:+ hexEncode d;
  sb_legacy : legacyAddressFromPublicKey (tx_senderPublicKey tx) = Ok (tx_senderLegacyAddress tx);
}.

Lemma orInvalidBytes_Ok {A} (r : result A) a : orInvalidBytes r = Ok a → r = Ok a.
Proof. by destruct r. Qed.

Lemma deserialized_data bs t : deserializeTransaction bs = Ok t → ∃ d, ts_data t = "0x" +:+ hexEncode d.
Proof.
  intros (fields & _ & Hf)%bind_Ok. destruct fields as [|f0 [|f1 [|f2 [|f3 [|f4 [|f5 [|f6 [|f7 [|f8 more]]]]]]]]]; try done. exists f5. cbn [transactionOfFields] in Hf.
  repeat (let x := fresh "x" in let Hx := fresh "Hx" in apply bind_Ok in Hf as (x & Hx & Hf); cbv zeta in Hf). by injection Hf as <-.
Qed.

(** What the factory accepts is stored without loss, and has canonical bytes. *)
Lemma fromBytes_storable bs tx : txFromBytes bs = Ok tx →
  storable tx ∧ tx_serialized tx = bs ∧
  ∃ c, serializeTransaction (serializable tx) = Ok c ∧ (length c ≤ length bs)%nat ∧ (length bs = length c → bs = c).
Proof.
  unfold txFromBytes, ledgerCodec, transactionCodec, transactionFromBytes. intros (t & Ht%orInvalidBytes_Ok & Hk)%bind_Ok.
  apply bind_Ok in Hk as ([[[from hash] legacy] key] & Hc%orInvalidBytes_Ok & Hk). cbv zeta in Hk.
  destruct (transactionStrictValid _ _ _ _ (newTransaction t from hash legacy key bs)) eqn:Hv; [| done]. injection Hk as <-. split; [split | split; [done |]].
  - unfold transactionStrictValid in Hv. rewrite !andb_true_iff in Hv. destruct_and! Hv. by apply Z.eqb_eq.
  - by apply (deserialized_data bs).
  - unfold computeCryptoData in Hc. repeat (let x := fresh "x" in let Hx := fresh "Hx" in apply bind_Ok in Hc as (x & Hx & Hc)). injection Hc as <- <- <- <-. done.
  - replace (serializable _) with t by (by destruct t). by apply transaction_shortest_bytes.
Qed.

Lemma codec_keeps bytes tx : txFromBytes bytes = Ok tx → tx_serialized tx = bytes.
Proof. intros Ht. apply (fromBytes_storable _ _ Ht). Qed.

Lemma slice2_data d : hexDecode (slice2 ("0x" +:+ hexEncode d)) = d.
Proof. apply hexDecode_Encode. Qed.

Lemma getAddress_toBytes b a : viem_getAddress ("0x" +:+ hexEncode b) = Ok a → viem_toBytes a = Ok b.
Proof. apply getAddress_bytes. Qed.

(** The transaction as it is read back: with the bytes that the serializer writes. *)
Definition canonicalBytes (tx : Transaction) : list byte :=
  match serializeTransaction (serializable tx) with Ok c => c | Throw _ => [] end.
Definition restored (tx : Transaction) : Transaction := withSerialized (canonicalBytes tx) tx.

Lemma canonical_le tx : txFromBytes (tx_serialized tx) = Ok tx →
  serializeTransaction (serializable tx) = Ok (canonicalBytes tx) ∧ (length (canonicalBytes tx) ≤ length (tx_serialized tx))%nat ∧
  (length (tx_serialized tx) = length (canonicalBytes tx) → tx_serialized tx = canonicalBytes tx).
Proof. intros (_ & _ & c & Hc & Hle & Heq)%fromBytes_storable. unfold canonicalBytes. by rewrite Hc. Qed.

Lemma restored_same tx : tx_serialized tx = canonicalBytes tx → restored tx = tx.
Proof. intros Heq. unfold restored. rewrite <- Heq. by destruct tx. Qed.

Lemma transactionFromStorage_spec block hash t : txFromBytes (tx_serialized (bt_transaction t)) = Ok (bt_transaction t) →
  transactionFromStorage chainId hash (storeTransaction block t) =
    Ok (mkBlockTransaction (restored (bt_transaction t)) (bt_transactionIndex t) (b_number block) hash).
Proof.
  intros Ht. destruct (canonical_le _ Ht) as (Hser & _). destruct (fromBytes_storable _ _ Ht) as ([Hn [d Hd] Hl] & _ & _).
  unfold transactionFromStorage, storeTransaction. cbn [td_legacyAddress td_senderPublicKey].
  replace (match truthy (Some (tx_senderLegacyAddress (bt_transaction t))) with Some a => Ok a | None => legacyAddressFromPublicKey (tx_senderPublicKey (bt_transaction t)) end)
    with (Ok (tx_senderLegacyAddress (bt_transaction t))) by (cbn [truthy]; by destruct (String.eqb _ _)).
  cbn [mbind result_bind td_data td_to td_value td_gasPrice td_gasLimit td_nonce td_v td_r td_s td_legacySecondSignature td_from td_txHash td_index td_blockNumber]. cbv zeta.
  unfold serializable in Hser. rewrite Hd in Hser. rewrite Hd, slice2_data, <- Hn, Hser. cbn. do 2 f_equal.
  unfold restored, withSerialized, serializable. by rewrite Hd.
Qed.

Lemma transactions_stored block hash l : Forall (λ tx, txFromBytes (tx_serialized tx) = Ok tx) (bt_transaction <$> l) →
  ∃ parsed, traverse (transactionFromStorage chainId hash) (storeTransaction block <$> l) = Ok parsed ∧
    bt_transaction <$> parsed = restored <$> (bt_transaction <$> l).
Proof.
  induction l as [|t l IH]; intros Hall; [by exists [] |]. apply Forall_cons in Hall as [Ht Hall]. destruct (IH Hall) as (parsed & Hp & Heq).
  eexists (_ :: parsed). cbn [fmap list_fmap traverse]. rewrite transactionFromStorage_spec by done. cbn [mbind result_bind].
  change (map (storeTransaction block) l) with (storeTransaction block <$> l). rewrite Hp. cbn [mbind result_bind]. split; [done |]. cbn. by f_equal.
Qed.

(** Canonical bytes never take more. *)
Lemma payload_restored txs : Forall (λ tx, txFromBytes (tx_serialized tx) = Ok tx) txs →
  (length (payloadBytes (restored <$> txs)) ≤ length (payloadBytes txs))%nat ∧
  (length (payloadBytes (restored <$> txs)) = length (payloadBytes txs) → Forall (λ tx, tx_serialized tx = canonicalBytes tx) txs).
Proof.
  induction 1 as [|tx txs Htx _ [IHle IHeq]]; [by split |]. destruct (canonical_le _ Htx) as (_ & Hle & Heq). cbn [fmap list_fmap payloadBytes].
  change (map restored txs) with (restored <$> txs). rewrite !length_app, !length_le_encode. cbn [tx_serialized restored withSerialized newTransaction].
  split; [lia |]. intros Hl. constructor; [apply Heq; lia | apply IHeq; lia].
Qed.

(** What the database gives back for a commit that was read from bytes. *)
Definition restoredBlock (block : Block) : Block :=
  let txs := restored <$> (bt_transaction <$> b_transactions block) in
  newBlock (b_header block) (hexEncode (headerBytes (b_raw block) ++ payloadBytes txs)) txs.

Lemma blockFromStorage_spec b : wfHeader (b_raw b) → wfPayload (b_raw b) (bt_transaction <$> b_transactions b) →
  blockFromStorage chainId (b_header b) (storeTransaction b <$> b_transactions b) = Ok (restoredBlock b).
Proof.
  intros Hwf Hpay. assert (Forall (λ tx, txFromBytes (tx_serialized tx) = Ok tx) (bt_transaction <$> b_transactions b)) as Htx.
  { destruct Hpay as (_ & _ & Hall). eapply Forall_impl; [exact Hall | by intros tx [_ ?]]. }
  unfold blockFromStorage. destruct (transactions_stored b (bh_hash (b_header b)) (b_transactions b) Htx) as (parsed & -> & Heq). cbn [mbind result_bind]. cbv zeta. rewrite Heq.
  assert (headerFromStorage (b_header b) = b_header b) as -> by (by destruct b as [[[] ?] ? ?]).
  rewrite write_block; [done | done | | |].
  - rewrite length_fmap. exact (proj1 Hpay).
  - apply Forall_fmap, Forall_forall. intros tx Hin. rewrite Forall_forall in Htx. destruct (canonical_le tx (Htx tx Hin)) as (_ & Hle & _).
    pose proof (wfPayload_uint _ _ Hpay) as Hu. rewrite Forall_forall in Hu. specialize (Hu tx Hin). unfold uint in *. cbn. lia.
  - destruct (payload_restored _ Htx) as [Hle _]. destruct Hpay as (_ & Hp & _). unfold b_raw in Hp. lia.
Qed.

Lemma commitFromStorage_spec bs c : readCommit bs = Ok c →
  ∃ proofBytes, bs = proofBytes ++ hexDecode (b_serialized (c_block c)) ∧ Z.of_nat (length proofBytes) = proofSize ∧
    deserializeCommitProof proofBytes = Ok (c_proof c) ∧ c_serialized c = hexEncode bs ∧
    wfHeader (b_raw (c_block c)) ∧ wfPayload (b_raw (c_block c)) (bt_transaction <$> b_transactions (c_block c)) ∧
    c_block c = newBlock (b_header (c_block c)) (hexEncode (headerBytes (b_raw (c_block c)) ++ payloadBytes (bt_transaction <$> b_transactions (c_block c)))) (bt_transaction <$> b_transactions (c_block c)) ∧
    commitFromStorage chainId roundValidatorsOf (prepareCommitData c) =
      Ok (mkCommit (restoredBlock (c_block c)) (c_proof c) (hexEncode (proofBytes ++ hexDecode (b_serialized (restoredBlock (c_block c)))))).
Proof.
  intros (proofBytes & blockBytes & -> & Hlen & Hread & Hp & Hb & Hs & Hv)%commitFromBytes_inv; [| apply getAddress_toBytes].
  destruct (blockFromBytes_inv getAddress_toBytes codec_keeps _ _ _ _ Hb) as (hd & txs & Heq & Hwf & Hpay & Hbytes & Hhash).
  exists proofBytes. destruct c as [b p se]. cbn [c_block c_proof c_serialized] in *. subst b.
  rewrite newBlock_transactions. change (b_header (newBlock hd (hexEncode blockBytes) txs)) with hd.
  change (b_raw (newBlock hd (hexEncode blockBytes) txs)) with (bh_raw hd). cbn [b_serialized newBlock]. rewrite hexDecode_Encode, <- Hbytes.
  split_and!; try done. unfold commitFromStorage, prepareCommitData. cbn [cd_header cd_proof cd_transactions c_block c_proof].
  rewrite blockFromStorage_spec; [| done | by rewrite newBlock_transactions]. cbn [mbind result_bind pd_validatorSet pd_round pd_signature].
  assert (roundValidatorsAt (Some (b_number (restoredBlock (newBlock hd (hexEncode blockBytes) txs)))) = Z.of_nat (length (cp_validators p))) as ->.
  { unfold commitProofSchemaValid, limitToRoundValidators in Hv. apply andb_true_iff in Hv as [_ Hv%Z.eqb_eq]. symmetry. exact Hv. }
  rewrite unpack_pack. cbn [mbind result_bind]. cbv zeta. replace (mkCommitProof (cp_round p) (cp_signature p) (cp_validators p)) with p by (by destruct p).
  unfold serializeCommit. by rewrite Hp.
Qed.

(** The transactions of a commit are in the bytes that the serializer writes. *)
Definition canonicalTransactions (c : Commit) : Prop :=
  Forall (λ t, serializeTransaction (serializable (bt_transaction t)) = Ok (tx_serialized (bt_transaction t))) (b_transactions (c_block c)).

Lemma canonical_restored c : canonicalTransactions c → restored <$> (bt_transaction <$> b_transactions (c_block c)) = bt_transaction <$> b_transactions (c_block c).
Proof.
  unfold canonicalTransactions. induction 1 as [|t l Ht _ IH]; [done |]. cbn. f_equal; [| exact IH]. apply restored_same. unfold canonicalBytes. by rewrite Ht.
Qed.

Lemma stored_commit_roundtrip_body bs c : readCommit bs = Ok c → canonicalTransactions c →
  commitFromStorage chainId roundValidatorsOf (prepareCommitData c) = Ok c.
Proof.
  intros (proofBytes & -> & _ & _ & Hs & _ & _ & Hb & ->)%commitFromStorage_spec Hcan%canonical_restored. unfold restoredBlock. rewrite Hcan, <- Hb, <- Hs.
  by destruct c.
Qed.

(** C15. The database loses nothing of a commit whose transactions are in canonical
    bytes: it is read back the same, its transactions, its proof and its bytes, and
    those who are sent the bytes read it too. *)
Theorem stored_commit_roundtrip bs c : readCommit bs = Ok c → canonicalTransactions c →
  commitFromStorage chainId roundValidatorsOf (prepareCommitData c) = Ok c ∧ readCommit (hexDecode (c_serialized c)) = Ok c.
Proof.
  intros Hread Hcan. split; [by apply (stored_commit_roundtrip_body bs) |]. destruct (commitFromStorage_spec bs c Hread) as (_ & _ & _ & _ & -> & _).
  by rewrite hexDecode_Encode.
Qed.

Lemma not_restored c : wfPayload (b_raw (c_block c)) (bt_transaction <$> b_transactions (c_block c)) →
  ¬ canonicalTransactions c →
  Z.of_nat (length (payloadBytes (restored <$> (bt_transaction <$> b_transactions (c_block c))))) < bh_payloadSize (b_raw (c_block c)).
Proof.
  intros (_ & -> & Hall) Hnot. assert (Forall (λ tx, txFromBytes (tx_serialized tx) = Ok tx) (bt_transaction <$> b_transactions (c_block c))) as Htx.
  { eapply Forall_impl; [exact Hall | by intros tx [_ ?]]. }
  destruct (payload_restored _ Htx) as [Hle Heq]. apply Nat2Z.inj_lt. apply Nat.le_neq. split; [done |]. intros Hsame. apply Hnot.
  specialize (Heq Hsame). unfold canonicalTransactions. rewrite Forall_fmap in Heq, Htx. rewrite Forall_forall in *. intros t Ht.
  destruct (canonical_le _ (Htx t Ht)) as (-> & _). by rewrite <- (Heq t Ht).
Qed.

(** C16. One transaction that is not in canonical bytes makes a block unreadable
    for those who did not see it being made: the database gives the commit back with
    a shorter payload than the header announces, and no node can read its bytes. *)
Theorem malleated_commit_unreadable bs c : readCommit bs = Ok c → ¬ canonicalTransactions c →
  ∃ c', commitFromStorage chainId roundValidatorsOf (prepareCommitData c) = Ok c' ∧
    readCommit (hexDecode (c_serialized c')) = Throw (NamedError "InvalidBlockBytesError").
Proof.
  intros (proofBytes & -> & Hlen & Hread & Hs & Hwf & Hpay & Hb & ->)%commitFromStorage_spec Hnot. eexists. split; [done |]. unfold restoredBlock. cbv zeta. cbn [c_serialized b_serialized newBlock].
  rewrite !hexDecode_Encode. set (txs := restored <$> (bt_transaction <$> b_transactions (c_block c))). unfold commitFromBytes, mbind, M_bind. rewrite <- Hlen.
  destruct (readBytes_reads proofBytes (fromBuffer (proofBytes ++ headerBytes (b_raw (c_block c)) ++ payloadBytes txs)) (headerBytes (b_raw (c_block c)) ++ payloadBytes txs))
    as (b1 & -> & Hok1 & Hr1); [done | apply fromBuffer_ok |]. unfold liftR, gets. rewrite Hread, Hr1.
  unfold blockFromBytes, deserializeWithTransactions, deserializeBufferWithTransactions, mbind, M_bind.
  destruct (deserializeBufferHeader_read (b_raw (c_block c)) (fromBuffer (headerBytes (b_raw (c_block c)) ++ payloadBytes txs)) (payloadBytes txs)) as (b2 & _ & _ & ->); [done | done | apply fromBuffer_ok |].
  rewrite (proj2 (Z.eqb_neq _ _)); [done |]. pose proof (not_restored c Hpay Hnot). unfold txs. lia.
Qed.

(** ** A chain that is committed and restarted *)
Definition commitAll (commits : list Commit) : M Store unit := forEach commits commitHandlers.
Definition roundsOf (commits : list Commit) : Z := foldr (λ c acc, cp_round (c_proof c) + 1 + acc) 0 commits.
Definition rowOf (c : Commit) : Z * CommitStorageData := (b_number (c_block c), prepareCommitData c).

(** Commits in ascending order of their numbers. *)
Definition before (c c' : Commit) : Prop := b_number (c_block c) < b_number (c_block c').
Definition ascending (commits : list Commit) : Prop := StronglySorted before commits.

(** What the tables by hash hold. *)
Definition setAll {A} (l : list (string * A)) (m : JsMap string A) : JsMap string A := foldl (λ m kv, mapSet m kv.1 kv.2) m l.
Definition blockEntry (c : Commit) : string * Z := (b_hash (c_block c), b_number (c_block c)).
Definition transactionEntries (c : Commit) : list (string * (Z * nat)) :=
  imap (λ i t, (tx_hash (bt_transaction t), (b_number (c_block c), i))) (b_transactions (c_block c)).

(** The store after some commits. *)
Record committed (commits : list Commit) (s : Store) : Prop := {
  cm_rows : tb_commits (db_tables (so_database s)) = rowOf <$> commits;
  cm_hashes : tb_blocksHashNumber (db_tables (so_database s)) = setAll (blockEntry <$> commits) [];
  cm_keys : tb_transactionsHashKey (db_tables (so_database s)) = setAll (mjoin (transactionEntries <$> commits)) [];
  cm_tableRounds : tb_totalRound (db_tables (so_database s)) = roundsOf commits;
  cm_rounds : db_totalRound (so_database s) = roundsOf commits;
  cm_chainRounds : ch_totalRound (so_chain s) = roundsOf commits;
  cm_number : db_blockNumber (so_database s) = from_option (λ c, b_number (c_block c)) 0 (last commits);
  cm_last : ∀ c, last commits = Some c → ch_lastBlock (so_chain s) = Some (c_block c) ∧
    ch_blockNumber (so_chain s) = b_number (c_block c) ∧ ch_height (so_chain s) = b_number (c_block c) + 1;
}.

Lemma roundsOf_snoc cs c : roundsOf (cs ++ [c]) = roundsOf cs + cp_round (c_proof c) + 1.
Proof. unfold roundsOf. rewrite foldr_snoc. cbn. induction cs as [|c' cs IH]; cbn; lia. Qed.

Lemma putCommit_last number data l : Forall (λ row, row.1 < number) l → putCommit number data l = l ++ [(number, data)].
Proof.
  induction 1 as [|[n d] l Hn _ IH]; [done |]. cbn in *. rewrite (proj2 (Z.ltb_ge _ _)), (proj2 (Z.eqb_neq _ _)) by lia. by rewrite IH.
Qed.

Lemma lookup_rows cs c : Forall (λ c', b_number (c_block c') < b_number (c_block c)) cs → mapGet (rowOf <$> cs) (b_number (c_block c)) = None.
Proof.
  induction 1 as [|c' cs Hn _ IH]; [done |]. cbn. rewrite decide_False by lia. exact IH.
Qed.

Lemma foldl_imap {A B C D} (f : nat → A → B) (g : nat → A → D) (F : C → B → C) (G : C → D → C) l m :
  (∀ m i a, F m (f i a) = G m (g i a)) → foldl F m (imap f l) = foldl G m (imap g l).
Proof.
  revert f g m. induction l as [|a l IH]; intros f g m Hfg; [done |]. rewrite !imap_cons. cbn [foldl]. rewrite Hfg. apply IH. intros; apply Hfg.
Qed.

Lemma putTransactionKeys_all c m : putTransactionKeys (b_number (c_block c)) (cd_transactions (prepareCommitData c)) m = setAll (transactionEntries c) m.
Proof. unfold putTransactionKeys, setAll, transactionEntries, prepareCommitData. cbn [cd_transactions]. rewrite imap_fmap. by apply foldl_imap. Qed.

Lemma setAll_app {A} (l l' : list (string * A)) m : setAll (l ++ l') m = setAll l' (setAll l m).
Proof. apply foldl_app. Qed.

(** Distinct keys keep their values; other keys are as before. *)
Lemma setAll_get {A} (l : list (string * A)) m k :
  (∀ v, NoDup l.*1 → (k, v) ∈ l → mapGet (setAll l m) k = Some v) ∧ (k ∉ l.*1 → mapGet (setAll l m) k = mapGet m k).
Proof.
  revert m. induction l as [|[k' v'] l IH]; intros m; [split; [by intros v _ ?%elem_of_nil | done] |]. unfold setAll in *. cbn [foldl fst snd]. destruct (IH (mapSet m k' v')) as [IHin IHout].
  split.
  - intros v [Hk Hnd]%NoDup_cons [[= -> ->]|Hin]%elem_of_cons; [| by apply IHin]. rewrite IHout by done. apply mapGet_set_eq.
  - intros [Hne Hk]%not_elem_of_cons. rewrite IHout by done. apply mapGet_set_ne. cbn in Hne. congruence.
Qed.

Lemma commitHandlers_committed cs c s : committed cs s → Forall (λ c', b_number (c_block c') < b_number (c_block c)) cs →
  ∃ s', commitHandlers c s = (Ok tt, s') ∧ committed (cs ++ [c]) s'.
Proof.
  intros [] Hlt. destruct s as [chain [[rows hashes keys total] number rounds]]. cbn in *. subst rows.
  eexists. unfold commitHandlers, onDatabase, onStoreChain, zoomM, commitToDb, lookupCommit, mbind, M_bind. cbn. rewrite lookup_rows by done. cbn.
  split; [reflexivity |]. split; cbn; rewrite ?roundsOf_snoc, ?last_snoc; [| | | lia | lia | lia | done | by intros c' [= <-]].
  - rewrite fmap_app. apply putCommit_last. by apply Forall_fmap.
  - rewrite fmap_app, setAll_app, <- cm_hashes0. done.
  - rewrite fmap_app, join_app, setAll_app. cbn [fmap list_fmap mjoin list_join]. rewrite app_nil_r, <- putTransactionKeys_all, <- cm_keys0. done.
Qed.

Lemma commitAll_committed cs rest s : committed cs s → ascending (cs ++ rest) →
  ∃ s', commitAll rest s = (Ok tt, s') ∧ committed (cs ++ rest) s'.
Proof.
  revert cs s. induction rest as [|c rest IH]; intros cs s Hcs Hsorted; [exists s; by rewrite app_nil_r |].
  destruct (commitHandlers_committed cs c s Hcs) as (s1 & Hs1 & Hcs1).
  { apply Forall_forall. intros c' Hc'. exact (StronglySorted_app_1_elem_of before cs (c :: rest) c' c Hsorted Hc' ltac:(by left)). }
  destruct (IH (cs ++ [c]) s1 Hcs1) as (s2 & Hs2 & Hcs2); [by rewrite <- app_assoc |]. exists s2. rewrite <- app_assoc in Hcs2. split; [| done].
  unfold commitAll in *. cbn [forEach]. unfold mbind, M_bind. by rewrite Hs1, Hs2.
Qed.

Lemma committed_empty chain : ch_totalRound chain = 0 → committed [] (mkStore chain (openDatabase newTables)).
Proof. by split. Qed.

Lemma lookup_row cs c : ascending cs → c ∈ cs → mapGet (rowOf <$> cs) (b_number (c_block c)) = Some (prepareCommitData c).
Proof.
  intros Hs Hc. induction Hs as [|c' cs Hs IH Hall]; [by apply elem_of_nil in Hc |]. cbn. apply elem_of_cons in Hc as [->|Hc]; [by rewrite decide_True |].
  rewrite Forall_forall in Hall. specialize (Hall c Hc). unfold before in Hall. rewrite decide_False by lia. by apply IH.
Qed.

Lemma getBlock_committed cs s bs c : committed cs s → ascending cs → c ∈ cs → readCommit bs = Ok c → canonicalTransactions c →
  getBlock chainId roundValidatorsOf (b_number (c_block c)) (so_database s) = Ok (Some (c_block c)).
Proof.
  intros Hcs Hs Hc Hread Hcan. unfold getBlock, lookupCommit. rewrite (cm_rows _ _ Hcs), (lookup_row cs c Hs Hc).
  by rewrite (stored_commit_roundtrip_body bs c Hread Hcan).
Qed.

(** A transaction of a stored commit, by its key. *)
Lemma readTransaction_committed cs s bs c i t : committed cs s → ascending cs → c ∈ cs → readCommit bs = Ok c → canonicalTransactions c →
  b_transactions (c_block c) !! i = Some t → readTransaction chainId (b_number (c_block c), i) (so_database s) = Ok (Some t).
Proof.
  intros Hcs Hs Hc Hread Hcan Ht. unfold readTransaction, getTransactionData, getBlockHeaderData, lookupCommit. cbn [fst snd].
  rewrite (cm_rows _ _ Hcs), (lookup_row cs c Hs Hc). cbn [mbind option_bind prepareCommitData cd_transactions]. rewrite list_lookup_fmap, Ht.
  cbn [fmap option_fmap option_map]. cbn [storeTransaction td_blockNumber]. rewrite (lookup_row cs c Hs Hc). cbn [fmap option_fmap option_map assert_defined mbind result_bind prepareCommitData cd_header].
  destruct (commitFromStorage_spec bs c Hread) as (_ & _ & _ & _ & _ & _ & (_ & _ & Hall) & Hb & _).
  rewrite transactionFromStorage_spec.
  - cbn. do 2 f_equal. unfold canonicalTransactions in Hcan. rewrite Forall_forall in Hcan. pose proof (Hcan t (list_elem_of_lookup_2 _ _ _ Ht)) as Ht'.
    rewrite restored_same by (unfold canonicalBytes; by rewrite Ht'). rewrite Hb in Ht. cbn [b_transactions newBlock] in Ht.
    rewrite list_lookup_imap, list_lookup_fmap in Ht. destruct (b_transactions (c_block c) !! i) as [t'|]; [| done]. injection Ht as <-. done.
  - rewrite Forall_fmap, Forall_forall in Hall. by apply (Hall t (list_elem_of_lookup_2 _ _ _ Ht)).
Qed.

(** C17. The queries of the database by hash answer from the chain, when the hashes
    are distinct and the transactions of the commits are in canonical bytes: every
    committed block, its header and each of its transactions are found under their
    hashes, a transaction also under its block's hash and its index, and nothing else
    is: under a hash that no block has there is no block, no header and no transaction,
    under one that no transaction has no transaction, and no transaction is at an index
    past those of a block. *)
Theorem database_lookups cs chain : ascending cs → ch_totalRound chain = 0 →
  (∀ c, c ∈ cs → ∃ bs, readCommit bs = Ok c ∧ canonicalTransactions c) →
  NoDup (b_hash ∘ c_block <$> cs) → NoDup (fst <$> mjoin (transactionEntries <$> cs)) →
  ∃ s, commitAll cs (mkStore chain (openDatabase newTables)) = (Ok tt, s) ∧
    (∀ c, c ∈ cs →
      getBlockByHash chainId roundValidatorsOf (b_hash (c_block c)) (so_database s) = Ok (Some (c_block c)) ∧
      getBlockHeaderByHash (b_hash (c_block c)) (so_database s) = Some (b_header (c_block c)) ∧
      ∀ i t, b_transactions (c_block c) !! i = Some t →
        getTransactionByHash chainId (tx_hash (bt_transaction t)) (so_database s) = Ok (Some t) ∧
        getTransactionByBlockHashAndIndex chainId (b_hash (c_block c)) i (so_database s) = Ok (Some t)) ∧
    (∀ h, h ∉ b_hash ∘ c_block <$> cs →
      hasCommitByHash h (so_database s) = false ∧ getBlockByHash chainId roundValidatorsOf h (so_database s) = Ok None ∧
      getBlockHeaderByHash h (so_database s) = None ∧
      ∀ i, getTransactionByBlockHashAndIndex chainId h i (so_database s) = Ok None) ∧
    (∀ c i, c ∈ cs → (length (b_transactions (c_block c)) ≤ i)%nat →
      getTransactionByBlockHashAndIndex chainId (b_hash (c_block c)) i (so_database s) = Ok None) ∧
    (∀ h, h ∉ fst <$> mjoin (transactionEntries <$> cs) → getTransactionByHash chainId h (so_database s) = Ok None).
Proof.
  intros Hsorted Hzero Hreal Hblocks Htransactions. destruct (commitAll_committed [] cs _ (committed_empty chain Hzero) Hsorted) as (s & Hrun & Hcs). cbn in Hcs.
  assert ((blockEntry <$> cs).*1 = b_hash ∘ c_block <$> cs) as Hkeys by (rewrite <- list_fmap_compose; done).
  assert (∀ c, c ∈ cs → getBlockNumberByHash (b_hash (c_block c)) (db_tables (so_database s)) = Some (b_number (c_block c))) as Hnumbers.
  { intros c Hc. unfold getBlockNumberByHash. rewrite (cm_hashes _ _ Hcs). apply (setAll_get (blockEntry <$> cs)); [by rewrite Hkeys |].
    apply list_elem_of_fmap. by exists c. }
  exists s. split_and!; [done | | | |].
  - intros c Hc. destruct (Hreal c Hc) as (bs & Hread & Hcan). pose proof (Hnumbers c Hc) as Hnumber.
    split_and!.
    + unfold getBlockByHash. rewrite Hnumber. by eapply getBlock_committed.
    + unfold getBlockHeaderByHash. rewrite Hnumber. cbn [mbind option_bind]. unfold getBlockHeader, getBlockHeaderData, lookupCommit.
      rewrite (cm_rows _ _ Hcs), (lookup_row cs c Hsorted Hc). cbn. f_equal. by destruct (c_block c) as [[[] ?] ? ?].
    + intros i t Ht. unfold getTransactionByHash, getTransactionByBlockHashAndIndex. rewrite Hnumber. unfold getTransactionKeyByHash. rewrite (cm_keys _ _ Hcs).
      rewrite (proj1 (setAll_get (mjoin (transactionEntries <$> cs)) [] (tx_hash (bt_transaction t))) (b_number (c_block c), i) Htransactions);
        [split; by eapply readTransaction_committed |].
      apply list_elem_of_join. exists (transactionEntries c). split; [| apply list_elem_of_fmap; by exists c].
      unfold transactionEntries. by apply (elem_of_lookup_imap_2 (λ i t, (tx_hash (bt_transaction t), (b_number (c_block c), i))) _ t i).
  - intros h Hh. assert (getBlockNumberByHash h (db_tables (so_database s)) = None) as Hnone.
    { unfold getBlockNumberByHash. rewrite (cm_hashes _ _ Hcs). by rewrite (proj2 (setAll_get (blockEntry <$> cs) [] h)) by by rewrite Hkeys. }
    unfold hasCommitByHash, getBlockByHash, getBlockHeaderByHash, getTransactionByBlockHashAndIndex. by rewrite Hnone.
  - intros c i Hc Hi. unfold getTransactionByBlockHashAndIndex. rewrite (Hnumbers c Hc).
    unfold readTransaction, getTransactionData, lookupCommit. cbn [fst snd]. rewrite (cm_rows _ _ Hcs), (lookup_row cs c Hsorted Hc).
    cbn [mbind option_bind prepareCommitData cd_transactions]. by rewrite lookup_ge_None_2 by by rewrite length_fmap.
  - intros h Hh. unfold getTransactionByHash, getTransactionKeyByHash. rewrite (cm_keys _ _ Hcs).
    by rewrite (proj2 (setAll_get (mjoin (transactionEntries <$> cs)) [] h)).
Qed.

(** A process that opens the tables has the database as it was. *)
Lemma reopen cs s : committed cs s → openDatabase (db_tables (so_database s)) = so_database s.
Proof.
  intros []. destruct s as [chain [[rows hashes keys total] number rounds]]. cbn in *. unfold openDatabase, getState. cbn. f_equal; [| congruence].
  subst. rewrite fmap_last. by destruct (last cs).
Qed.

(** C14. A node that is restarted continues where it was: after commits of ascending
    numbers that were read from bytes and whose transactions are in canonical bytes, the
    process that opens the database and runs the bootstrapper has the
    last block, the block number, the height of the configuration and the total
    number of rounds of the process that committed them, and reads every block
    back. *)
Theorem restart_restores_chain cs chain : cs ≠ [] → ascending cs → ch_totalRound chain = 0 →
  (∀ c, c ∈ cs → ∃ bs, readCommit bs = Ok c ∧ canonicalTransactions c) →
  ∃ s, commitAll cs (mkStore chain (openDatabase newTables)) = (Ok tt, s) ∧
    (∀ c, c ∈ cs → getBlock chainId roundValidatorsOf (b_number (c_block c)) (so_database s) = Ok (Some (c_block c))) ∧
    ∀ fresh, ∃ s', initPostGenesisState chainId roundValidatorsOf (mkStore fresh (openDatabase (db_tables (so_database s)))) = (Ok tt, s') ∧
      so_database s' = so_database s ∧ ch_lastBlock (so_chain s') = ch_lastBlock (so_chain s) ∧ ch_blockNumber (so_chain s') = ch_blockNumber (so_chain s) ∧
      ch_height (so_chain s') = ch_height (so_chain s) ∧ ch_totalRound (so_chain s') = ch_totalRound (so_chain s).
Proof.
  intros Hne Hsorted Hzero Hreal. destruct (commitAll_committed [] cs _ (committed_empty chain Hzero) Hsorted) as (s & Hrun & Hcs). cbn in Hcs.
  exists s. split_and!; [done | intros c Hc; destruct (Hreal c Hc) as (bs & Hread & Hcan); by eapply getBlock_committed |].
  intros fresh. rewrite (reopen cs s Hcs). destruct (last cs) as [c|] eqn:Hlast; [| by apply last_None in Hlast].
  assert (c ∈ cs) as Hc by by apply last_Some_elem_of. destruct (Hreal c Hc) as (bs & Hread & Hcan).
  assert (getLastCommit chainId roundValidatorsOf (so_database s) = Ok c) as Hget.
  { unfold getLastCommit, isEmpty, tablesEmpty, lookupCommit. rewrite (cm_number _ _ Hcs), Hlast. cbn [from_option]. rewrite (cm_rows _ _ Hcs), (lookup_row cs c Hsorted Hc).
    rewrite bool_decide_eq_false_2 by (by destruct cs). cbn. by apply (stored_commit_roundtrip_body bs). }
  destruct (cm_last _ _ Hcs c Hlast) as (Hblock & Hnumber & Hheight). unfold initPostGenesisState, onStoreChain, zoomM, mbind, M_bind, liftR. cbn [get so_database]. unfold get. rewrite Hget.
  eexists. split; [reflexivity |]. cbn. rewrite (cm_rounds _ _ Hcs), (cm_chainRounds _ _ Hcs), Hblock, Hnumber, Hheight. by split_and!.
Qed.
End correctness.
