(* ===== verification/Forger.v ===== *)
(** * packages/forger

    block-forger.ts, transaction-forger.ts and transaction-iterable.ts: a
    proposer executes transactions of the pool on its own EVM instance, keeps
    those that fit, and makes the block.  The theorem compares it with the block
    processor that every node runs on the result. *)
From S2P Require Import Prelude Bytes Serializer Messages Blocks Proposals Commits JsMap BlockchainUtils.
From S2P Require Import ValidatorSet RoundState ConsensusStorage Node BlockProcessor.

(** What the forger uses of its EVM instance beyond the processor's calls. *)
Class ForgerEvm (E : Type) := {
  evm_initializeGenesis : M E unit;
  evm_snapshot : CommitKey → M E unit;
  evm_rollback : CommitKey → M E unit;
  evm_dispose : M E unit;
}.

(** transaction-iterable.ts: the answers of the pool's worker, one batch after
    the other, up to the first empty one. *)
Fixpoint yielded (batches : list (list Transaction)) : list Transaction :=
  match batches with
  | [] | [] :: _ => []
  | batch :: rest => batch ++ yielded rest
  end.

Section forger.
Context {E : Type} `{Evm E} `{ForgerEvm E} `{Viem} `{HashFactory}.
Context (isAddress : string → bool) (txSchemaValid : Transaction → bool).
Context (milestoneOf : Z → BlockMilestone) (isNewRound : Z → bool) (chain : Chain).
(** [transactionFactory.fromPoolData]; and whether the time is up when the n-th
    transaction is looked at. *)
Context (fromPoolData : Transaction → result Transaction) (late : nat → bool).

(** The fields of the forger, its result under construction and its local flag;
    [fo_removed] are the transactions reported to the pool. *)
Record ForgeState := mkForgeState {
  fo_evm : E;
  fo_fee : Z;
  fo_gasLeft : Z;
  fo_gasUsed : Z;
  fo_transactions : list Transaction;
  fo_failedSenders : list string;
  fo_removed : list (string * string);
  fo_snapshotTaken : bool;
}.
#[export] Instance eta_ForgeState : Eta ForgeState := λ s,
  mkForgeState (fo_evm s) (fo_fee s) (fo_gasLeft s) (fo_gasUsed s) (fo_transactions s) (fo_failedSenders s)
    (fo_removed s) (fo_snapshotTaken s).

Definition forgeEvm {A} (m : M E A) : M ForgeState A := λ s,
  let '(r, e) := m (fo_evm s) in (r, s <| fo_evm := e |>).

(** [initialize]'s arguments. *)
Context (generatorAddress : string) (timestamp round : Z) (previousBlock : Block).
Definition forgeKey : CommitKey := mkCommitKey None (b_number previousBlock + 1) round.
(** [getMilestone()]: the milestone of the configuration's height. *)
Definition forgeMilestone : BlockMilestone := milestoneOf (ch_height chain).

Definition forgeCall (tx : Transaction) : TransactionCall :=
  mkTransactionCall forgeKey (hexDecode (slice (tx_data tx) 2 (String.length (tx_data tx))))
    (tx_from tx) (tx_gasLimit tx) (tx_gasPrice tx) (tx_senderLegacyAddress tx) (tx_nonce tx)
    (bm_evmSpec forgeMilestone) (tx_to tx) (tx_hash tx) (tx_value tx).

Definition handleFailedTransaction (tx : Transaction) : M ForgeState unit :=
  modify (λ s, s <| fo_removed ::= λ l, l ++ [(tx_from tx, tx_hash tx)] |>);;
  modify (λ s, s <| fo_failedSenders ::= λ l, tx_senderPublicKey tx :: l |>).

(** [#processTransaction]: executing, once the snapshot, if any, is taken. *)
Definition forgeAfter (tx : Transaction) : M ForgeState unit :=
  receipt ← forgeEvm (evm_process (forgeCall tx));
  let gasUsed := tr_gasUsed receipt in
  modify (λ s, s <| fo_gasLeft ::= λ n, n - gasUsed |>);;
  s ← get;
  if fo_gasLeft s <? 0 then
    if fo_snapshotTaken s then forgeEvm (evm_rollback forgeKey)
    else throw (JSError "Non-optimistic transaction processing requires more gas than remaining block space")
  else
    modify (λ s, s <| fo_gasUsed ::= λ n, n + gasUsed |>
                   <| fo_fee ::= λ n, n + calculateConsumed (tx_gasPrice tx) gasUsed |>
                   <| fo_transactions ::= λ l, l ++ [tx] |>).

(** Its [catch]. *)
Definition forgeFailed (tx : Transaction) : M ForgeState unit :=
  s ← get;
  when (fo_snapshotTaken s) (tryCatch (forgeEvm (evm_rollback forgeKey)) (λ _, mret tt));;
  handleFailedTransaction tx.

Definition forgeTransaction (tx : Transaction) : M ForgeState unit :=
  s ← get;
  let optimisticExecution := fo_gasLeft s - tx_gasLimit tx <? 0 in
  modify (λ s, s <| fo_snapshotTaken := false |>);;
  tryCatch
    (when optimisticExecution
       (forgeEvm (evm_snapshot forgeKey);; modify (λ s, s <| fo_snapshotTaken := true |>));;
     forgeAfter tx)
    (λ _, forgeFailed tx).

(** [#processTransactions]: the loop over what the pool offers. *)
Fixpoint collate (n : nat) (l : list Transaction) : M ForgeState unit :=
  match l with
  | [] => mret tt
  | data :: rest =>
      tx ← liftR (fromPoolData data);
      if late n then mret tt
      else
        s ← get;
        if bool_decide (tx_senderPublicKey tx ∈ fo_failedSenders s) then collate (S n) rest
        else if fo_gasLeft s <? 21000 then mret tt
        else forgeTransaction tx;; collate (S n) rest
  end.

Definition forgeBlockCall (milestone : BlockMilestone) (value : Z) : BlockCall :=
  mkBlockCall forgeKey value (bm_evmSpec milestone) timestamp generatorAddress.

(** The body of the [try] of [getTransactions]: the logs bloom and the state root. *)
Definition collateBody (batches : list (list Transaction)) : M ForgeState (string * string) :=
  forgeEvm evm_initializeGenesis;;
  forgeEvm (evm_prepareNextCommit (mkBlockContext forgeKey (bm_maxGasLimit forgeMilestone)
              (getPrevrandao (b_header previousBlock)) timestamp generatorAddress));;
  collate 0 (yielded batches);;
  forgeEvm (evm_updateRewardsAndVotes (forgeBlockCall forgeMilestone (bm_reward forgeMilestone)));;
  let next := milestoneOf (b_number previousBlock + 2) in
  when (isNewRound (b_number previousBlock + 2))
    (forgeEvm (evm_updateValidatorRegistrationFee (forgeBlockCall next (bm_validatorRegistrationFee next))));;
  when (isNewRound (b_number previousBlock + 2))
    (forgeEvm (evm_calculateRoundValidators (forgeBlockCall next (bm_roundValidators next))));;
  logsBloom ← forgeEvm (evm_logsBloom forgeKey);
  stateRoot ← forgeEvm (evm_stateRoot forgeKey (bh_stateRoot (b_raw previousBlock)));
  mret (logsBloom, stateRoot).

(** [finally { await evm.dispose() }]: an error of it replaces the outcome. *)
Definition forgeTransactions (batches : list (list Transaction)) : M ForgeState (string * string) := λ s,
  let '(r, s1) := collateBody batches s in
  match forgeEvm evm_dispose s1 with
  | (Ok _, s2) => (r, s2)
  | (Throw err, s2) => (Throw err, s2)
  end.

(** ** block-forger.ts: [#makeBlock] *)
Definition forgedHeader (randaoReveal logsBloom stateRoot : string) (fee gasUsed : Z) (transactions : list Transaction)
    : BlockHeaderRaw :=
  mkBlockHeaderRaw 1 timestamp (b_number previousBlock + 1) round (b_hash previousBlock) stateRoot logsBloom
    (Z.of_nat (length transactions)) gasUsed fee (bm_reward (milestoneOf (b_number previousBlock + 1)))
    (foldl (λ size tx, size + Z.of_nat (length (tx_serialized tx))) (Z.of_nat (length transactions) * 4) transactions)
    (hexEncode (sha256 (concat ((λ tx, hexDecode (tx_hash tx)) <$> transactions)))) generatorAddress randaoReveal.

Definition initialForge (e : E) : ForgeState := mkForgeState e 0 (bm_maxGasLimit forgeMilestone) 0 [] [] [] false.

Definition forge (randaoReveal : string) (batches : list (list Transaction)) (e : E) : result Block :=
  match forgeTransactions batches (initialForge e) with
  | (Throw err, _) => Throw err
  | (Ok (logsBloom, stateRoot), s) =>
      makeBlock isAddress txSchemaValid
        (forgedHeader randaoReveal logsBloom stateRoot (fo_fee s) (fo_gasUsed s) (fo_transactions s)) (fo_transactions s)
  end.
End forger.

(** [forgeBlock]. *)
Definition forgeNext {E} `{Evm E} `{ForgerEvm E} `{Viem} `{HashFactory} isAddress txSchemaValid milestoneOf isNewRound chain
    fromPoolData late (generatorAddress : string) (round timestamp : Z) (randaoReveal : string)
    (batches : list (list Transaction)) (e : E) : result Block :=
  previousBlock ← getLastBlock chain;
  forge isAddress txSchemaValid milestoneOf isNewRound chain fromPoolData late generatorAddress timestamp round previousBlock
    randaoReveal batches e.

(** ** The two EVM instances

    The forger and the processor run on different instances, under commit keys
    that differ in the block hash.  [agree e1 e2]: the pending state of the
    forger's instance is the one the processor's would have. *)
Definition withKey (k : CommitKey) (c : TransactionCall) : TransactionCall :=
  mkTransactionCall k (tc_data c) (tc_from c) (tc_gasLimit c) (tc_gasPrice c) (tc_legacyAddress c) (tc_nonce c)
    (tc_specId c) (tc_to c) (tc_txHash c) (tc_value c).
Definition callWithKey (k : CommitKey) (c : BlockCall) : BlockCall :=
  mkBlockCall k (bl_value c) (bl_specId c) (bl_timestamp c) (bl_validatorAddress c).
Definition contextWithKey (k : CommitKey) (c : BlockContext) : BlockContext :=
  mkBlockContext k (bc_gasLimit c) (bc_prevrandao c) (bc_timestamp c) (bc_validatorAddress c).
Definition samePosition (k k' : CommitKey) : Prop := ck_blockNumber k = ck_blockNumber k' ∧ ck_round k = ck_round k'.

(** [m'] on the processor's side follows [m] on the forger's. *)
Definition follows {E A} (agree : E → E → Prop) (m m' : M E A) : Prop :=
  ∀ e1 e2 a e1', agree e1 e2 → m e1 = (Ok a, e1') → ∃ e2', m' e2 = (Ok a, e2') ∧ agree e1' e2'.

Class EvmAgreement {E} `{Evm E} `{ForgerEvm E} (agree : E → E → Prop) (secondKey : string → option string) : Prop := {
  ag_initialize e1 e2 : agree e1 e2 → agree (run_in evm_initializeGenesis e1) e2;
  ag_prepare k c : samePosition (bc_commitKey c) k → follows agree (evm_prepareNextCommit c) (evm_prepareNextCommit (contextWithKey k c));
  ag_process k c : samePosition (tc_commitKey c) k → follows agree (evm_process c) (evm_process (withKey k c));
  ag_rewards k c : samePosition (bl_commitKey c) k → follows agree (evm_updateRewardsAndVotes c) (evm_updateRewardsAndVotes (callWithKey k c));
  ag_fee k c : samePosition (bl_commitKey c) k →
    follows agree (evm_updateValidatorRegistrationFee c) (evm_updateValidatorRegistrationFee (callWithKey k c));
  ag_validators k c : samePosition (bl_commitKey c) k →
    follows agree (evm_calculateRoundValidators c) (evm_calculateRoundValidators (callWithKey k c));
  ag_logsBloom k k' : samePosition k k' → follows agree (evm_logsBloom k) (evm_logsBloom k');
  ag_stateRoot k k' previous : samePosition k k' → follows agree (evm_stateRoot k previous) (evm_stateRoot k' previous);
  (** Reading changes nothing that is compared. *)
  ag_readBloom k e1 e2 : agree e1 e2 → agree (run_in (evm_logsBloom k) e1) e2;
  ag_readRoot k previous e1 e2 : agree e1 e2 → agree e1 (run_in (evm_stateRoot k previous) e2);
  ag_secondKey address legacy e1 e2 : agree e1 e2 →
    ∃ e2', evm_legacySecondPublicKey address legacy e2 = (Ok (secondKey address), e2') ∧ agree e1 e2';
  (** A transaction that is refused leaves the pending state, and so does taking a snapshot. *)
  ag_refused c e1 e1' e2 err : agree e1 e2 → evm_process c e1 = (Throw err, e1') → agree e1' e2;
  ag_snapshot k e1 e2 : agree e1 e2 → agree (run_in (evm_snapshot k) e1) e2;
  (** Rolling back undoes one transaction since the snapshot. *)
  ag_rollback k c e1 e1' e2 : agree e1 e2 → evm_snapshot k e1 = (Ok tt, e1') →
    ∃ e3, evm_rollback k (run_in (evm_process c) e1') = (Ok tt, e3) ∧ agree e3 e2;
  (** A transaction uses no more than its gas limit. *)
  ag_gas c e receipt e' : evm_process c e = (Ok receipt, e') → 0 ≤ tr_gasUsed receipt ≤ tc_gasLimit c;
}.

Section forged.
Context {E : Type} `{Evm E} `{ForgerEvm E} `{LegacySignature} `{Viem} `{HashFactory} `{BlsWorker}.
Context (agree : E → E → Prop) (secondKey : string → option string) `{!EvmAgreement agree secondKey}.
Context (isAddress : string → bool) (txSchemaValid : Transaction → bool).
Context (milestoneOf : Z → BlockMilestone) (timeoutsOf : Z → Timeouts) (roundValidatorsOf : Z → Z).
Context (genesisHeight : Z) (isNewRound : Z → bool) (chain : Chain).
Context (fromPoolData : Transaction → result Transaction) (late : nat → bool).
Context (generatorAddress : string) (timestamp round : Z) (previousBlock : Block).

(** The block under comparison is at the position of the forger. *)
Context (block : Block) (Hnumber : b_number block = b_number previousBlock + 1) (Hround : b_round block = round).
Context (Hheight : ch_height chain = b_number previousBlock + 1).

#[local] Abbreviation key := (forgeKey round previousBlock).
#[local] Abbreviation afterHere := (forgeAfter milestoneOf chain round previousBlock).
#[local] Abbreviation failedHere := (forgeFailed round previousBlock).
Lemma key_position : samePosition key (commitKey block).
Proof. split; cbn; congruence. Qed.

Lemma forgeCall_follows tx :
  follows agree (evm_process (forgeCall milestoneOf chain round previousBlock tx)) (processTransaction milestoneOf block tx).
Proof.
  unfold processTransaction. rewrite Hnumber, <- Hheight.
  apply (ag_process (commitKey block) (forgeCall milestoneOf chain round previousBlock tx)), key_position.
Qed.

Lemma executeAll_snoc l tx : ∀ e receipts e1 receipt e2,
  executeAll milestoneOf block l e = (Ok receipts, e1) → processTransaction milestoneOf block tx e1 = (Ok receipt, e2) →
  executeAll milestoneOf block (l ++ [tx]) e = (Ok (receipts ++ [receipt]), e2).
Proof.
  induction l as [|t l IH]; intros e receipts e1 receipt e2 Hall Htx; cbn [executeAll app] in *.
  - injection Hall as <- <-. by rewrite (M_bind_run _ _ _ _ _ Htx).
  - inv_run Hall. injection Hall as <- <-. rewrite (M_bind_run _ _ _ _ _ Hm).
    by rewrite (M_bind_run _ _ _ _ _ (IH _ _ _ _ _ Hm0 Htx)).
Qed.

Lemma totalGas_snoc l r : totalGas (l ++ [r]) = totalGas l + tr_gasUsed r.
Proof. unfold totalGas. induction l as [|x l IH]; cbn [foldr app]; [lia |]. rewrite IH. lia. Qed.
Lemma totalFee_snoc l tx : ∀ rs r,
  length l = length rs → totalFee (l ++ [tx]) (rs ++ [r]) = totalFee l rs + tx_gasPrice tx * tr_gasUsed r.
Proof.
  induction l as [|t l IH]; intros [|x rs] r Hlen; simplify_eq/=; [lia |]. rewrite IH by done. lia.
Qed.

(** The forger's state matches executing its transactions from [e0]. *)
Record collated (e0 : E) (seen : list Transaction) (s : ForgeState) : Prop := {
  co_run : ∃ receipts e, executeAll milestoneOf block (fo_transactions s) e0 = (Ok receipts, e) ∧ agree (fo_evm s) e ∧
             fo_gasUsed s = totalGas receipts ∧ fo_fee s = totalFee (fo_transactions s) receipts;
  co_gas : fo_gasUsed s + fo_gasLeft s ≤ bm_maxGasLimit (forgeMilestone milestoneOf chain);
  co_limit : 0 ≤ fo_gasUsed s ≤ bm_maxGasLimit (forgeMilestone milestoneOf chain);
  co_seen : fo_transactions s `sublist_of` seen;
}.

Lemma collated_skip e0 seen tx s s' :
  collated e0 seen s → (∀ e, agree (fo_evm s) e → agree (fo_evm s') e) →
  fo_transactions s' = fo_transactions s → fo_gasUsed s' = fo_gasUsed s → fo_fee s' = fo_fee s →
  fo_gasLeft s' ≤ fo_gasLeft s → collated e0 (seen ++ [tx]) s'.
Proof.
  intros [(receipts & e & Hrun & Hag & Hg & Hf) Hgas Hlim Hseen] Hevm Htx Hu Hfee Hleft.
  split; rewrite ?Htx, ?Hu, ?Hfee; [| lia | done | by apply sublist_inserts_r].
  exists receipts, e. auto.
Qed.

Lemma collated_add e0 seen tx s s' e1 receipt :
  collated e0 seen s → (∀ e, agree (fo_evm s) e → agree e1 e) →
  evm_process (forgeCall milestoneOf chain round previousBlock tx) e1 = (Ok receipt, fo_evm s') →
  fo_transactions s' = fo_transactions s ++ [tx] → fo_gasUsed s' = fo_gasUsed s + tr_gasUsed receipt →
  fo_fee s' = fo_fee s + tx_gasPrice tx * tr_gasUsed receipt → fo_gasLeft s' = fo_gasLeft s - tr_gasUsed receipt →
  0 ≤ fo_gasLeft s' → collated e0 (seen ++ [tx]) s'.
Proof.
  intros [(receipts & e & Hrun & Hag & Hg & Hf) Hgas Hlim Hseen] Hevm Hproc Htx Hu Hfee Hleft Hroom.
  destruct (forgeCall_follows tx _ _ _ _ (Hevm _ Hag) Hproc) as (e' & Hproc' & Hag').
  pose proof (ag_gas _ _ _ _ Hproc) as [Hpos _].
  split; rewrite ?Htx; [| lia | lia | by apply sublist_app].
  exists (receipts ++ [receipt]), e'. split; [by eapply executeAll_snoc |]. split; [done |].
  rewrite totalGas_snoc, totalFee_snoc by (symmetry; by eapply executeAll_length). lia.
Qed.

(** Without a snapshot the gas limit fits, so the block space does too. *)
Lemma forgeDirect_collated e0 seen tx s s' :
  collated e0 seen s → fo_snapshotTaken s = false → tx_gasLimit tx ≤ fo_gasLeft s →
  tryCatch (afterHere tx) (λ _, failedHere tx) s = (Ok tt, s') → collated e0 (seen ++ [tx]) s'.
Proof.
  intros Hc Hsnap Hfits. unfold tryCatch, forgeAfter, mbind at 1, M_bind at 1, forgeEvm at 1.
  destruct (evm_process _ (fo_evm s)) as [[receipt|err] e'] eqn:Hproc.
  - pose proof (ag_gas _ _ _ _ Hproc) as [Hpos Hle]. cbn in Hle. unfold mbind, M_bind, modify, get. cbn.
    rewrite (proj2 (Z.ltb_ge _ _)) by lia. intros [= <-].
    eapply (collated_add e0 seen tx s _ (fo_evm s) receipt); [done | done | exact Hproc | | | | |]; cbn; [done | done | done | done | lia].
  - assert (failedHere tx (s <| fo_evm := e' |>) = (Ok tt, s') → collated e0 (seen ++ [tx]) s') as Hfail.
    { unfold forgeFailed, mbind, M_bind, get. cbn. rewrite Hsnap. cbn. intros [= <-].
      eapply collated_skip; [exact Hc | | done | done | done | done]. intros e Hag. cbn. by eapply ag_refused. }
    destruct err; try exact Hfail. done.
Qed.

(** With one, what does not fit is undone. *)
Lemma forgeOptimistic_collated e0 seen tx s s' e1 :
  collated e0 seen s → evm_snapshot key (fo_evm s) = (Ok tt, e1) →
  tryCatch (afterHere tx) (λ _, failedHere tx) (s <| fo_evm := e1 |> <| fo_snapshotTaken := true |>) = (Ok tt, s') →
  collated e0 (seen ++ [tx]) s'.
Proof.
  intros Hc Hsnap. unfold tryCatch, forgeAfter, mbind at 1, M_bind at 1, forgeEvm at 1. cbn [fo_evm set_field].
  assert (∀ e, agree (fo_evm s) e → agree e1 e) as Hag1.
  { intros e Hag. pose proof (ag_snapshot key _ _ Hag) as Ha. unfold run_in in Ha. by rewrite Hsnap in Ha. }
  assert (∀ e, agree (fo_evm s) e → ∃ e3, evm_rollback key (run_in (evm_process (forgeCall milestoneOf chain round previousBlock tx)) e1) = (Ok tt, e3) ∧ agree e3 e) as Hback.
  { intros e Hag. by eapply ag_rollback. }
  pose proof (co_run _ _ _ Hc) as (rs & e & _ & Hag & _). unfold run_in in Hback.
  change (fo_evm (s <| fo_evm := e1 |> <| fo_snapshotTaken := true |>)) with e1.
  destruct (evm_process _ e1) as [[receipt|err] e'] eqn:Hproc; cbn [snd] in Hback.
  - unfold mbind, M_bind, modify, get, forgeEvm. cbn.
    destruct (Z.ltb_spec (fo_gasLeft s - tr_gasUsed receipt) 0) as [Hover|Hroom].
    + destruct (Hback e Hag) as (e3 & Hrb & _).
      change (fo_evm (s <| fo_evm := e1 |> <| fo_snapshotTaken := true |> <| fo_evm := e' |> <| fo_gasLeft ::= _ |>)) with e'.
      rewrite Hrb. intros [= <-]. pose proof (ag_gas _ _ _ _ Hproc) as [Hpos _].
      eapply collated_skip; [exact Hc | | done | done | done | cbn; lia]. intros e2 Hag2. cbn.
      destruct (Hback e2 Hag2) as (e3' & Hrb' & Ha). congruence.
    + intros [= <-]. eapply (collated_add e0 seen tx s _ e1 receipt); [done | done | exact Hproc | | | | |]; cbn; [done | done | done | done | lia].
  - destruct (Hback e Hag) as (e3 & Hrb & _).
    assert (failedHere tx (s <| fo_evm := e1 |> <| fo_snapshotTaken := true |> <| fo_evm := e' |>) = (Ok tt, s') → collated e0 (seen ++ [tx]) s') as Hfail.
    { unfold forgeFailed, mbind, M_bind, get, tryCatch, forgeEvm. cbn.
      change (fo_evm (s <| fo_evm := e1 |> <| fo_snapshotTaken := true |> <| fo_evm := e' |>)) with e'. rewrite Hrb. cbn. intros [= <-].
      eapply collated_skip; [exact Hc | | done | done | done | done]. intros e2 Hag2. cbn.
      destruct (Hback e2 Hag2) as (e3' & Hrb' & Ha). congruence. }
    destruct err; try exact Hfail. done.
Qed.

Lemma forgeTransaction_collated e0 seen tx s s' :
  collated e0 seen s → forgeTransaction milestoneOf chain round previousBlock tx s = (Ok tt, s') → collated e0 (seen ++ [tx]) s'.
Proof.
  intros Hc. unfold forgeTransaction. erewrite M_bind_run by reflexivity. erewrite M_bind_run by reflexivity.
  set (s0 := s <| fo_snapshotTaken := false |>).
  assert (collated e0 seen s0) as Hc0 by (destruct Hc; by split).
  destruct (Z.ltb_spec (fo_gasLeft s - tx_gasLimit tx) 0) as [Hopt|Hdirect]; cbn [when].
  - unfold tryCatch at 1. unfold mbind at 1, M_bind at 1, mbind at 1, M_bind at 1, forgeEvm at 1.
    destruct (evm_snapshot key (fo_evm s0)) as [[[]|err] e1] eqn:Hsnap.
    + apply (forgeOptimistic_collated e0 seen tx s0 s' e1 Hc0 Hsnap).
    + assert (failedHere tx (s0 <| fo_evm := e1 |>) = (Ok tt, s') → collated e0 (seen ++ [tx]) s') as Hfail; [| by destruct err].
      unfold forgeFailed, mbind, M_bind, get. cbn. intros [= <-].
      eapply collated_skip; [exact Hc0 | | done | done | done | done]. intros e Hag. cbn.
      pose proof (ag_snapshot key _ _ Hag) as Ha. unfold run_in in Ha. by rewrite Hsnap in Ha.
  - intros Hrun. eapply (forgeDirect_collated e0 seen tx s0); [done | done | cbn; lia | exact Hrun].
Qed.

(** What the pool offers, as the factory reads it. *)
Definition read (l : list Transaction) : list Transaction :=
  omap (λ d, match fromPoolData d with Ok tx => Some tx | Throw _ => None end) l.

Lemma collate_collated l : ∀ n e0 seen s s',
  collated e0 seen s → collate milestoneOf chain fromPoolData late round previousBlock n l s = (Ok tt, s') →
  collated e0 (seen ++ read l) s'.
Proof.
  assert (∀ e0 seen more s, collated e0 seen s → collated e0 (seen ++ more) s) as Hmore.
  { intros e0 seen more s [? ? ? ?]. split; try done. by apply sublist_inserts_r. }
  induction l as [|d l IH]; intros n e0 seen s s' Hc; cbn [collate].
  { intros [= <-]. by apply Hmore. }
  unfold mbind at 1, M_bind at 1, liftR. destruct (fromPoolData d) as [tx|] eqn:Hd; [| done].
  assert (read (d :: l) = [tx] ++ read l) as -> by (unfold read; cbn; by rewrite Hd). rewrite app_assoc.
  destruct (late n); [intros [= <-]; rewrite <- app_assoc; by apply Hmore |]. erewrite M_bind_run by reflexivity.
  destruct (bool_decide _); [apply IH; by apply Hmore |].
  destruct (_ <? _); [intros [= <-]; rewrite <- app_assoc; by apply Hmore |].
  intros Hrun. apply M_bind_inv in Hrun as ([] & s1 & Htx & Hrest). eapply IH; [| exact Hrest].
  by eapply forgeTransaction_collated.
Qed.

Context (Htime : b_timestamp block = timestamp) (Hproposer : bh_proposer (b_raw block) = generatorAddress).

Lemma forgeEvm_inv {A} (m : M E A) s a s' :
  forgeEvm m s = (Ok a, s') → ∃ e', m (fo_evm s) = (Ok a, e') ∧ s' = s <| fo_evm := e' |>.
Proof. unfold forgeEvm. destruct (m (fo_evm s)) as [r e'] eqn:?. intros [= -> <-]. eauto. Qed.

Lemma whenEvm_inv b (m : M E unit) s s' :
  when b (forgeEvm m) s = (Ok tt, s') → ∃ e', when b m (fo_evm s) = (Ok tt, e') ∧ s' = s <| fo_evm := e' |>.
Proof. destruct b; cbn [when]; [apply forgeEvm_inv |]. intros [= <-]. exists (fo_evm s). by destruct s. Qed.

Lemma when_follows b (m m' : M E unit) : follows agree m m' → follows agree (when b m) (when b m').
Proof. intros Hm. destruct b; [done |]. intros e1 e2 a e1' Hag [= <- <-]. by exists e2. Qed.

(** The calls at the end of the block. *)
Lemma whenBoth b (m1 m2 : M E unit) e e1 e2 :
  when b m1 e = (Ok tt, e1) → when b m2 e1 = (Ok tt, e2) → when b (m1;; m2) e = (Ok tt, e2).
Proof. destruct b; cbn [when]; [intros Hm1; by rewrite (M_bind_run _ _ _ _ _ Hm1) | by intros [= <-] [= <-]]. Qed.

(** Everything the processor does after its verifiers succeeds, with the values
    the forger put into the header. *)
Record replayed (e2 : E) (s : @ForgeState E) (bloom root : string) : Prop := mkReplayed {
  rp_run : ∃ ea receipts eb ec ed ee ef,
    evm_prepareNextCommit (mkBlockContext (commitKey block) (bm_maxGasLimit (milestoneOf (b_number block)))
      (getPrevrandao (b_header previousBlock)) (b_timestamp block) (bh_proposer (b_raw block))) e2 = (Ok tt, ea) ∧
    executeAll milestoneOf block (fo_transactions s) ea = (Ok receipts, eb) ∧
    fo_gasUsed s = totalGas receipts ∧ fo_fee s = totalFee (fo_transactions s) receipts ∧
    evm_updateRewardsAndVotes (blockCall block (milestoneOf (b_number block)) (bm_reward (milestoneOf (b_number block)))) eb = (Ok tt, ec) ∧
    when (isNewRound (b_number block + 1))
      (evm_updateValidatorRegistrationFee (blockCall block (milestoneOf (b_number block + 1)) (bm_validatorRegistrationFee (milestoneOf (b_number block + 1))));;
       evm_calculateRoundValidators (blockCall block (milestoneOf (b_number block + 1)) (bm_roundValidators (milestoneOf (b_number block + 1))))) ec = (Ok tt, ed) ∧
    evm_stateRoot (commitKey block) (bh_stateRoot (b_raw previousBlock)) ed = (Ok root, ee) ∧
    evm_logsBloom (commitKey block) ee = (Ok bloom, ef);
  rp_limit : 0 ≤ fo_gasUsed s ≤ bm_maxGasLimit (milestoneOf (b_number block));
}.

(** The two reads at the end, in either order. *)
Lemma reads_follow e1 e2 bloom root previous ea eb :
  agree e1 e2 → evm_logsBloom key e1 = (Ok bloom, ea) → evm_stateRoot key previous ea = (Ok root, eb) →
  ∃ ec ed, evm_stateRoot (commitKey block) previous e2 = (Ok root, ec) ∧ evm_logsBloom (commitKey block) ec = (Ok bloom, ed).
Proof.
  intros Hag Hbloom Hroot. pose proof (ag_readBloom key _ _ Hag) as Hag'. unfold run_in in Hag'. rewrite Hbloom in Hag'.
  destruct (ag_stateRoot _ _ _ key_position _ _ _ _ Hag' Hroot) as (ec & Hr & _).
  pose proof (ag_readRoot (commitKey block) previous _ _ Hag) as Hag2. unfold run_in in Hag2. rewrite Hr in Hag2.
  destruct (ag_logsBloom _ _ key_position _ _ _ _ Hag2 Hbloom) as (ed & Hl & _). by exists ec, ed.
Qed.

Lemma collateBody_replayed batches e1 e2 s bloom root :
  0 ≤ bm_maxGasLimit (forgeMilestone milestoneOf chain) → agree e1 e2 →
  collateBody milestoneOf isNewRound chain fromPoolData late generatorAddress timestamp round previousBlock batches
    (initialForge milestoneOf chain e1) = (Ok (bloom, root), s) →
  replayed e2 s bloom root ∧ fo_transactions s `sublist_of` read (yielded batches).
Proof.
  intros Hgas Hag. unfold collateBody. cbv zeta. intros Hrun. inv_run Hrun.
  repeat match goal with a : unit |- _ => destruct a end. injection Hrun as -> -> ->.
  apply forgeEvm_inv in Hm as (f1 & Hinit & ->). apply forgeEvm_inv in Hm0 as (f2 & Hprep & ->).
  change (fo_evm (initialForge milestoneOf chain e1)) with e1 in Hinit.
  pose proof (ag_initialize _ _ Hag) as Hag1. unfold run_in in Hag1. rewrite Hinit in Hag1. cbn [snd] in Hag1.
  destruct (ag_prepare (commitKey block) (mkBlockContext key _ _ _ _) key_position _ _ _ _ Hag1 Hprep) as (g2 & Hprep' & Hag2).
  eapply (collate_collated _ _ g2 []) in Hm1 as [(receipts & g3 & Hall & Hag3 & Hg & Hf) _ Hlim Hseen];
    [| by split; cbn; [exists [], g2 | lia | lia | constructor]].
  apply forgeEvm_inv in Hm2 as (f4 & Hrew & ->). apply whenEvm_inv in Hm3 as (f5 & Hfee & ->).
  apply whenEvm_inv in Hm4 as (f6 & Hval & ->). apply forgeEvm_inv in Hm5 as (f7 & Hbloom & ->). apply forgeEvm_inv in Hm6 as (f8 & Hroot & ->).
  destruct (ag_rewards (commitKey block) (forgeBlockCall generatorAddress timestamp round previousBlock _ _) key_position _ _ _ _ Hag3 Hrew) as (g4 & Hrew' & Hag4).
  destruct (when_follows _ _ _ (ag_fee (commitKey block) (forgeBlockCall generatorAddress timestamp round previousBlock _ _) key_position) _ _ _ _ Hag4 Hfee) as (g5 & Hfee' & Hag5).
  destruct (when_follows _ _ _ (ag_validators (commitKey block) (forgeBlockCall generatorAddress timestamp round previousBlock _ _) key_position) _ _ _ _ Hag5 Hval) as (g6 & Hval' & Hag6).
  destruct (reads_follow _ _ _ _ _ _ _ Hag6 Hbloom Hroot) as (g7 & g8 & Hroot' & Hbloom').
  assert (b_number previousBlock + 2 = b_number block + 1) as Hnext by lia.
  split; [| exact Hseen]. unfold forgeMilestone in *. rewrite Hheight, <- Hnumber in *. rewrite <- Htime, <- Hproposer, Hnext in *.
  split; [| exact Hlim]. exists g2, receipts, g3, g4, g6, g7, g8.
  split; [exact Hprep' |]. split; [exact Hall |]. split; [exact Hg |]. split; [exact Hf |]. split; [exact Hrew' |].
  split; [exact (whenBoth _ _ _ _ _ _ Hfee' Hval') |]. by split.
Qed.
End forged.

(** ** What the block factory makes *)
Section made.
Context `{Viem} `{HashFactory} `{TransactionCodec} (isAddress : string → bool) (txSchemaValid : Transaction → bool).

Lemma makeBlock_inv data transactions b :
  makeBlock isAddress txSchemaValid data transactions = Ok b →
  b_raw b = data ∧ transactionsOf b = transactions ∧ length (b_transactions b) = length transactions ∧
  ∃ serialized, serializeWithTransactions data transactions = Ok serialized ∧ b_serialized b = hexEncode serialized.
Proof.
  unfold makeBlock. intros (hash & _ & Hrun)%bind_Ok. destruct (blockSchemaValid _ _ _ _); [| done].
  apply bind_Ok in Hrun as (serialized & Hser & [= <-]). split; [done |]. split; [| split; [apply length_imap | eauto]].
  unfold transactionsOf, newBlock. cbn. rewrite fmap_imap. cbn. clear. induction transactions as [|t l IH]; [done |].
  cbn. f_equal. etrans; [| exact IH]. apply imap_ext. done.
Qed.

Lemma payloadBytes_length transactions :
  Z.of_nat (length (payloadBytes transactions)) =
  foldl (λ size tx, size + Z.of_nat (length (tx_serialized tx))) (Z.of_nat (length transactions) * 4) transactions.
Proof.
  assert (∀ l n, foldl (λ size tx, size + Z.of_nat (length (tx_serialized tx))) n l =
    n + foldl (λ size tx, size + Z.of_nat (length (tx_serialized tx))) 0 l) as Hacc.
  { induction l as [|t l IH]; intros n; cbn [foldl]; [lia |]. rewrite IH, (IH (0 + _)). lia. }
  rewrite Hacc. induction transactions as [|t l IH]; [done |]. cbn [payloadBytes foldl]. rewrite !length_app, length_le_encode, Hacc.
  cbn [length]. lia.
Qed.
End made.

Lemma noDuplicates_run l : ∀ seen,
  NoDup (tx_hash <$> l) → (∀ tx, tx ∈ l → tx_hash tx ∉ seen) → noDuplicates seen l = Ok tt.
Proof.
  induction l as [|tx l IH]; intros seen Hnd Hseen; [done |]. rewrite fmap_cons in Hnd. apply NoDup_cons in Hnd as [Hnew Hnd].
  cbn [noDuplicates]. rewrite bool_decide_false by (apply Hseen; left). apply IH; [done |]. intros tx' Htx' [Heq|Hin]%elem_of_union.
  - apply elem_of_singleton in Heq. apply Hnew. rewrite <- Heq. by apply list_elem_of_fmap_2.
  - apply (Hseen tx'); [by right | done].
Qed.

(** ** The forged block and the processor *)
Section accepted.
Context {E : Type} `{Evm E} `{ForgerEvm E} `{LegacySignature} `{Viem} `{HashFactory} `{BlsWorker} `{TransactionCodec}.
Context (agree : E → E → Prop) (secondKey : string → option string) `{!EvmAgreement agree secondKey}.
Context (isAddress : string → bool) (txSchemaValid : Transaction → bool).
Context (milestoneOf : Z → BlockMilestone) (timeoutsOf : Z → Timeouts) (roundValidatorsOf : Z → Z).
Context (genesisHeight : Z) (isNewRound : Z → bool) (chain : Chain).
Context (fromPoolData : Transaction → result Transaction) (late : nat → bool).

(** What the consensus engine gives the forger: the turn, the time, the reveal. *)
Record eligible (last : Block) (proposer : string) (round timestamp : Z) (reveal : string) : Prop := {
  el_last : getLastBlock chain = Ok last;
  el_height : ch_height chain = b_number last + 1;
  el_later : b_number last + 1 ≠ genesisHeight;
  el_version : bm_version (milestoneOf (b_number last + 1)) = 1;
  el_gas : 0 ≤ bm_maxGasLimit (milestoneOf (b_number last + 1));
  el_timestamp : ∃ minimal,
    calculateMinimalTimestamp (timeoutsOf (b_number last + 1)) (b_timestamp last) round = Ok minimal ∧ minimal ≤ timestamp;
  el_turn : ∃ validator,
    getValidator (ch_validatorSet chain)
      (getValidatorIndexFrom (roundValidatorsOf (ch_height chain)) (ch_totalRound chain) round) = Ok validator ∧
    vw_address validator = proposer;
  el_reveal : ∃ index validator genesis message,
    getValidatorIndexByWalletAddress (ch_validatorSet chain) proposer = Ok index ∧
    getValidator (ch_validatorSet chain) index = Ok validator ∧ getGenesisCommit chain = Ok genesis ∧
    randaoMessage (b_hash (c_block genesis)) (bh_randaoReveal (b_raw last)) (b_number last + 1) = Ok message ∧
    blsVerify (hexDecode reveal) message (hexDecode (vw_blsPublicKey validator)) = true;
}.

(** A transaction of the pool: it survives the wire, its price is not negative,
    and it carries the second signature its sender's account asks for. *)
Record offerable (tx : Transaction) : Prop := {
  of_wire : uint 4 (Z.of_nat (length (tx_serialized tx))) ∧ txFromBytes (tx_serialized tx) = Ok tx;
  of_price : 0 ≤ tx_gasPrice tx;
  of_second : match secondKey (tx_from tx) with
              | None | Some EmptyString => tx_legacySecondSignature tx = None
              | Some k => verifyLegacySecondSignature tx k = Ok true
              end;
}.

Lemma legacyAttributes_run l : ∀ senders e1 e2,
  agree e1 e2 → Forall offerable l → (∀ a k, senders !! a = Some k → k = secondKey a) →
  ∃ e2', legacyAttributes senders l e2 = (Ok tt, e2') ∧ agree e1 e2'.
Proof.
  induction l as [|tx l IH]; intros senders e1 e2 Hag Hl Hs; [by exists e2 |]. apply Forall_cons in Hl as [Htx Hl].
  assert (∃ e2a, (match senders !! tx_from tx with Some k => mret k | None => evm_legacySecondPublicKey (tx_from tx) (tx_senderLegacyAddress tx) end) e2
            = (Ok (secondKey (tx_from tx)), e2a) ∧ agree e1 e2a) as (e2a & Hkey & Hag').
  { destruct (senders !! tx_from tx) as [k|] eqn:Hk; [| by apply ag_secondKey]. apply Hs in Hk as ->. by exists e2. }
  destruct (IH (<[tx_from tx := secondKey (tx_from tx)]> senders) e1 e2a Hag' Hl) as (e2' & Hrun & Hag2).
  { intros a k. destruct (decide (tx_from tx = a)) as [<-|Hne]; [rewrite lookup_insert_eq; congruence |].
    rewrite lookup_insert_ne by done. apply Hs. }
  exists e2'. split; [| done]. cbn [legacyAttributes]. rewrite (M_bind_run _ _ _ _ _ Hkey). pose proof (of_second _ Htx) as Hsec.
  destruct (secondKey (tx_from tx)) as [[|c k]|]; cbn in Hsec |- *; [rewrite Hsec | unfold liftR, mbind, M_bind; rewrite Hsec | rewrite Hsec];
    exact Hrun.
Qed.

Context (last : Block) (proposer : string) (round timestamp : Z) (reveal : string).
Context (Hel : eligible last proposer round timestamp reveal).

(** A block made of a forged header over some transactions. *)
Record forgedFrom (transactions : list Transaction) (gasUsed fee : Z) (bloom root : string) (b : Block) : Prop := {
  ff_raw : b_raw b = forgedHeader milestoneOf proposer timestamp round last reveal bloom root fee gasUsed transactions;
  ff_transactions : transactionsOf b = transactions;
  ff_count : length (b_transactions b) = length transactions;
  ff_size : Z.of_nat (String.length (b_serialized b)) / 2 = headerSize + bh_payloadSize (b_raw b);
}.

#[local] Abbreviation verifyHere := (verify milestoneOf timeoutsOf roundValidatorsOf genesisHeight chain).

Lemma forged_size transactions gasUsed fee bloom root b :
  forgedFrom transactions gasUsed fee bloom root b →
  headerSize + bh_payloadSize (b_raw b) ≤ bm_maxPayload (milestoneOf (b_number b)) →
  sizeVerifier milestoneOf (mkUnit b round) = Ok tt.
Proof.
  intros [Hraw Htx _ Hsize] Hfits. unfold sizeVerifier. cbv zeta. cbn [un_block].
  rewrite (proj2 (Z.ltb_ge _ _)) by done. rewrite Hsize, Z.eqb_refl. cbn [negb]. rewrite Htx, Hraw. cbn [bh_payloadSize forgedHeader].
  by rewrite Z.eqb_refl.
Qed.

Lemma verify_run u e e' :
  chainedVerifier milestoneOf genesisHeight chain u = Ok tt → roundVerifier u = Ok tt → sizeVerifier milestoneOf u = Ok tt →
  timestampVerifier timeoutsOf genesisHeight chain u = Ok tt → generatorVerifier roundValidatorsOf genesisHeight chain u = Ok tt →
  versionVerifier milestoneOf u = Ok tt → rewardVerifier milestoneOf u = Ok tt → transactionsLengthVerifier u = Ok tt →
  transactionsDuplicatesVerifier u = Ok tt → transactionsRootVerifier u = Ok tt → gasLimitVerifier milestoneOf genesisHeight u = Ok tt →
  randaoVerifier genesisHeight chain u = Ok tt → legacyAttributeVerifier u e = (Ok tt, e') → verifyHere u e = (Ok tt, e').
Proof.
  intros V1 V2 V3 V4 V5 V6 V7 V8 V9 V10 V11 V12 V13. unfold verify, mbind, M_bind, liftR.
  by rewrite V1, V2, V3, V4, V5, V6, V7, V8, V9, V10, V11, V13, V12.
Qed.

Lemma forged_verifies transactions gasUsed fee bloom root b e1 e2 :
  forgedFrom transactions gasUsed fee bloom root b → agree e1 e2 → Forall offerable transactions → NoDup (tx_hash <$> transactions) →
  gasUsed ≤ bm_maxGasLimit (milestoneOf (b_number last + 1)) →
  headerSize + bh_payloadSize (b_raw b) ≤ bm_maxPayload (milestoneOf (b_number b)) →
  ∃ e2', verifyHere (mkUnit b round) e2 = (Ok tt, e2') ∧ agree e1 e2'.
Proof.
  intros Hf Hag Hoff Hnd Hgas Hfits. pose proof (forged_size _ _ _ _ _ _ Hf Hfits) as Hsize. destruct Hf as [Hraw Htx Hcount _].
  destruct Hel as [Hlast Hheight Hlater Hversion _ (minimal & Hmin & Hle) (v & Hv & Haddr) (i & v' & g & m & Hi & Hv' & Hg & Hm & Hbls)].
  destruct (legacyAttributes_run transactions ∅ e1 e2 Hag Hoff) as (e2' & Hlegacy & Hag'); [by intros a k; rewrite lookup_empty |].
  exists e2'. split; [| done]. unfold b_raw in *.
  assert (b_number b = b_number last + 1) as Hnumber by (unfold b_number, b_raw; by rewrite Hraw).
  assert (isGenesis genesisHeight b = false) as Hgen by (unfold isGenesis; rewrite Hnumber; by apply Z.eqb_neq).
  assert (b_round b = round) as Hround by (unfold b_round, b_raw; by rewrite Hraw).
  assert (b_timestamp b = timestamp) as Htime by (unfold b_timestamp, b_raw; by rewrite Hraw).
  apply verify_run; cbn [un_block un_round]; unfold b_raw in *; try done.
  - unfold chainedVerifier. cbn [un_block]. rewrite Hgen, Hlast. unfold mbind, result_bind, b_raw. rewrite Hraw. cbn.
    by rewrite String.eqb_refl, Hnumber, Z.eqb_refl.
  - unfold roundVerifier. cbn. by rewrite Hround, Z.ltb_irrefl.
  - unfold timestampVerifier. cbn [un_block]. rewrite Hgen, Hlast. unfold mbind, result_bind. rewrite Hround, Hmin, Htime.
    by rewrite (proj2 (Z.ltb_ge _ _)).
  - unfold generatorVerifier. cbn [un_block]. rewrite Hgen, Hround, Hv. unfold mbind, result_bind, b_raw. rewrite Hraw, Haddr. cbn.
    by rewrite String.eqb_refl.
  - unfold versionVerifier, b_raw. cbn [un_block]. by rewrite Hnumber, Hversion, Hraw.
  - unfold rewardVerifier, b_raw. cbn [un_block]. rewrite Hnumber, Hraw. cbn. by rewrite Z.eqb_refl.
  - unfold transactionsLengthVerifier, b_raw. cbn [un_block]. rewrite Hcount, Hraw. cbn. by rewrite Z.eqb_refl.
  - unfold transactionsDuplicatesVerifier. cbn [un_block]. rewrite Htx. apply noDuplicates_run; [done |]. set_solver.
  - unfold transactionsRootVerifier, b_raw. cbn [un_block]. rewrite Htx, Hraw. cbn. by rewrite String.eqb_refl.
  - unfold gasLimitVerifier, b_raw. cbn [un_block]. rewrite Hgen, Hnumber, Hraw. cbn. by rewrite (proj2 (Z.ltb_ge _ _)).
  - unfold randaoVerifier. cbn [un_block]. rewrite Hgen, Hnumber. unfold mbind, result_bind, b_raw. rewrite Hraw. cbn.
    by rewrite Hi, Hv', Hg, Hlast, Hm, Hbls.
  - unfold legacyAttributeVerifier. cbn [un_block]. by rewrite Htx.
Qed.

#[local] Abbreviation forgeHere batches e :=
  (forgeNext isAddress txSchemaValid milestoneOf isNewRound chain fromPoolData late proposer round timestamp reveal batches e).
#[local] Abbreviation offered batches := (read fromPoolData (yielded batches)).

Lemma forged_inv batches e b :
  forgeHere batches e = Ok b →
  ∃ s bloom root,
    collateBody milestoneOf isNewRound chain fromPoolData late proposer timestamp round last batches
      (initialForge milestoneOf chain e) = (Ok (bloom, root), s) ∧
    makeBlock isAddress txSchemaValid
      (forgedHeader milestoneOf proposer timestamp round last reveal bloom root (fo_fee s) (fo_gasUsed s) (fo_transactions s))
      (fo_transactions s) = Ok b.
Proof.
  unfold forgeNext. rewrite (el_last _ _ _ _ _ Hel). unfold mbind, result_bind, forge, forgeTransactions.
  destruct (collateBody _ _ _ _ _ _ _ _ _ _ _) as [[[bloom root]|err] s]; unfold forgeEvm;
    destruct (evm_dispose (fo_evm s)) as [[[]|err'] e']; try done.
  intros Hmake. by exists s, bloom, root.
Qed.

Lemma made_forged s bloom root b :
  makeBlock isAddress txSchemaValid
    (forgedHeader milestoneOf proposer timestamp round last reveal bloom root (fo_fee s) (fo_gasUsed s) (fo_transactions s))
    (@fo_transactions E s) = Ok b →
  wfHeader (b_raw b) → Forall offerable (fo_transactions s) →
  forgedFrom (fo_transactions s) (fo_gasUsed s) (fo_fee s) bloom root b.
Proof.
  intros (Hraw & Htx & Hcount & bytes & Hser & Hb)%makeBlock_inv Hwf Hoff. split; try done.
  assert (wfPayload (b_raw b) (fo_transactions s)) as Hpayload.
  { rewrite Hraw. split; [done |]. split; [symmetry; apply payloadBytes_length |].
    eapply Forall_impl; [exact Hoff |]. by intros tx [? _ _]. }
  rewrite <- Hraw in Hser. unfold serializeWithTransactions in Hser.
  assert (totalSize (b_raw b) = Z.of_nat (length (headerBytes (b_raw b) ++ payloadBytes (fo_transactions s)))) as Hlen.
  { unfold totalSize. rewrite length_app, Nat2Z.inj_add, length_headerBytes by done. by destruct Hpayload as (_ & -> & _). }
  rewrite (serialize_encodes _ _ _ _ (block_encode _ _ Hwf (proj1 Hpayload) (wfPayload_uint _ _ Hpayload)) Hlen) in Hser.
  assert (bytes = headerBytes (b_raw b) ++ payloadBytes (fo_transactions s)) as -> by congruence.
  rewrite Hb, length_hexEncode, Nat2Z.inj_mul, <- Hlen. unfold totalSize. rewrite Z.mul_comm, Z.div_mul; lia.
Qed.

#[local] Abbreviation processHere :=
  (process milestoneOf timeoutsOf roundValidatorsOf genesisHeight isNewRound chain).
#[local] Abbreviation rulesHere :=
  (blockRules milestoneOf timeoutsOf roundValidatorsOf genesisHeight isNewRound chain).

(** The rules hold of the forged block when it fits. *)
Lemma forged_rules s bloom root b e1 e2 e2' :
  forgedFrom (fo_transactions s) (fo_gasUsed s) (fo_fee s) bloom root b → agree e1 e2 →
  verifyHere (mkUnit b round) e2 = (Ok tt, e2') → replayed milestoneOf isNewRound last b e2' s bloom root →
  ∃ receipts e3, rulesHere (mkUnit b round) e2 = (Ok receipts, e3).
Proof.
  intros [Hraw Htx _ _] Hag Hverify [(ea & receipts & eb & ec & ed & ee & ef & Hprep & Hall & Hg & Hf & Hrew & Hround & Hroot & Hbloom) _].
  destruct Hel as [Hlast _ Hlater _ _ _ _ _].
  assert (b_number b = b_number last + 1) as Hnumber by (unfold b_number at 1; by rewrite Hraw).
  assert (isGenesis genesisHeight b = false) as Hgen by (unfold isGenesis; rewrite Hnumber; by apply Z.eqb_neq).
  assert (blockPrevrandao genesisHeight chain b = Ok (getPrevrandao (b_header last))) as Hprev
    by (unfold blockPrevrandao; by rewrite Hgen, Hlast).
  assert (getPreviousStateRoot milestoneOf genesisHeight chain b = Ok (bh_stateRoot (b_raw last))) as Hstate
    by (unfold getPreviousStateRoot; by rewrite Hgen, Hlast).
  exists receipts, ef. unfold blockRules. cbv zeta. cbn [un_block]. rewrite Htx.
  rewrite (M_bind_run _ _ _ _ _ Hverify), (M_bind_run _ _ _ _ _ (liftR_run _ _ _ Hprev)), (M_bind_run _ _ _ _ _ Hprep),
    (M_bind_run _ _ _ _ _ Hall).
  erewrite M_bind_run by (apply requireM_run; rewrite Hraw; cbn; apply Z.eqb_eq; congruence).
  erewrite M_bind_run by (apply requireM_run; rewrite Hraw; cbn; apply Z.eqb_eq; congruence).
  rewrite (M_bind_run _ _ _ _ _ Hrew), (M_bind_run _ _ _ _ _ Hround), (M_bind_run _ _ _ _ _ (liftR_run _ _ _ Hstate)),
    (M_bind_run _ _ _ _ _ Hroot).
  erewrite M_bind_run by (apply requireM_run; rewrite Hraw; cbn; apply String.eqb_refl).
  rewrite (M_bind_run _ _ _ _ _ Hbloom).
  by erewrite M_bind_run by (apply requireM_run; rewrite Hraw; cbn; apply String.eqb_refl).
Qed.

Lemma sublist_offered batches l :
  l `sublist_of` offered batches → Forall offerable (offered batches) → NoDup (tx_hash <$> offered batches) →
  Forall offerable l ∧ NoDup (tx_hash <$> l).
Proof.
  intros Hsub Hoff Hnd. split; [| eapply sublist_NoDup; [exact Hnd | by apply fmap_sublist]].
  rewrite Forall_forall in *. intros tx Htx. apply Hoff. by eapply elem_of_sublist.
Qed.

(** C13. A block forged by the validator whose turn it is, from what the pool
    offers, is accepted by the block processor of every node in the same state,
    exactly if it fits into the milestone's maximal payload, which the forger
    itself does not look at: its gas and fee are those of the replay, also when
    transactions failed, exceeded the space or were rolled back on the way. *)
Theorem forged_block_accepted batches e1 e2 b :
  agree e1 e2 → Forall offerable (offered batches) → NoDup (tx_hash <$> offered batches) →
  forgeHere batches e1 = Ok b → wfHeader (b_raw b) →
  bpr_success (processHere (mkUnit b round) e2).1 =
  (headerSize + bh_payloadSize (b_raw b) <=? bm_maxPayload (milestoneOf (b_number b))).
Proof.
  intros Hag Hoff Hnd Hforge Hwf. destruct (forged_inv _ _ _ Hforge) as (s & bloom & root & Hbody & Hmake).
  pose proof (makeBlock_inv _ _ _ _ _ Hmake) as (Hraw & _).
  assert (b_number b = b_number last + 1) as Hnumber by (unfold b_number at 1; by rewrite Hraw).
  assert (∀ e, agree e1 e → replayed milestoneOf isNewRound last b e s bloom root ∧ fo_transactions s `sublist_of` offered batches) as Hreplay.
  { intros e Hage. eapply (collateBody_replayed agree secondKey); [| | | | | | exact Hage | exact Hbody];
      [done | unfold b_round; by rewrite Hraw | apply Hel | unfold b_timestamp; by rewrite Hraw | by rewrite Hraw |].
    unfold forgeMilestone. rewrite (el_height _ _ _ _ _ Hel). apply Hel. }
  destruct (Hreplay e2 Hag) as [[_ Hlim] Hsub]. destruct (sublist_offered _ _ Hsub Hoff Hnd) as [Hoff' Hnd'].
  pose proof (made_forged _ _ _ _ Hmake Hwf Hoff') as Hf. destruct (Z.leb_spec (headerSize + bh_payloadSize (b_raw b)) (bm_maxPayload (milestoneOf (b_number b)))) as [Hfits|Hbig].
  - destruct (forged_verifies _ _ _ _ _ _ e1 e2 Hf Hag Hoff' Hnd') as (e2' & Hverify & Hag'); [rewrite <- Hnumber; lia | done |].
    destruct (forged_rules _ _ _ _ _ _ _ Hf Hag Hverify (proj1 (Hreplay _ Hag'))) as (receipts & e3 & Hrules).
    unfold process. erewrite rules_body; [done | | | exact Hrules].
    + intros c e receipt e' Hp. by apply ag_gas in Hp as [? _].
    + cbn [un_block]. rewrite (ff_transactions _ _ _ _ _ _ Hf). eapply Forall_impl; [exact Hoff' |]. by intros tx [_ ? _].
  - apply not_true_iff_false. intros Hs. apply process_success in Hs as (s' & Hb & _). apply body_rules in Hb as (receipts & Hrules & _).
    unfold blockRules in Hrules. cbv zeta in Hrules. apply M_bind_inv in Hrules as ([] & e' & Hverify & _).
    apply verify_Ok in Hverify as (_ & _ & Hsize & _). unfold sizeVerifier in Hsize. cbv zeta in Hsize. cbn [un_block] in Hsize.
    by rewrite (proj2 (Z.ltb_lt _ _)) in Hsize.
Qed.
End accepted.
