(* ===== verification/Processors.v ===== *)
(** * packages/consensus/source/processors

    The entry points for messages, proposals and commits from peers and from the
    node itself.  [process] of the message and proposal processors runs under
    the commit lock, non-exclusively, and awaits the verification of a
    signature: it is the two synchronous segments before and after. *)
From S2P Require Import Prelude Bytes Serializer Messages Blocks Proposals Commits JsMap Quorum BlockchainUtils.
From S2P Require Import ValidatorSet RoundState ConsensusStorage Node.

(** [Enums.Consensus.ProcessorResult]. *)
Inductive ProcessorResult := Invalid | Accepted | Skipped.
#[export] Instance ProcessorResult_eq_dec : EqDecision ProcessorResult.
Proof. solve_decision. Defined.

(** A segment either decides the result or leaves the call in flight. *)
Inductive Progress := Done (r : ProcessorResult) | Pending.

Section processors.
Context `{Services}.

(** ** abstract-processor.ts *)
Definition hasValidBlockNumberAndRound (blockNumber round : Z) : M World bool :=
  c ← gets w_core;
  mret ((blockNumber =? k_blockNumber c) && (k_round c <=? round)).

Definition isRoundAheadOfTime (round : Z) : M World bool :=
  c ← gets w_core;
  if round <=? k_round c then mret false
  else
    timeouts ← milestoneTimeouts;
    minimal ← minimalTimestamp round;
    now ← gets w_clock;
    mret (negb (minimal - to_tolerance timeouts <? now)).

(** [handle] of consensus.ts up to the handler lock, called from
    [handleRoundState]: a round state already waiting is not queued twice. *)
Definition handleRoundState (roundState : Z) : M World unit :=
  c ← gets w_core;
  if bool_decide (roundState ∈ k_pendingJobs c) then mret tt
  else
    setCore (λ c, c <| k_pendingJobs ::= λ s, {[roundState]} ∪ s |>);;
    enqueue (JHandle roundState).

Definition signatureContext : M World SignatureMessageContext :=
  c ← gets w_chain;
  genesis ← liftR (getGenesisCommit c);
  last ← liftR (getLastBlock c);
  mret (mkSignatureMessageContext (b_hash (c_block genesis)) (b_hash last)).

(** ** message-processor.ts *)
Definition isDuplicateMessage (roundState : Z) (message : Message) : M World bool :=
  r ← getRS roundState; liftR (hasMessage r message).

Definition hasValidMessageSignature (message : Message) : M World bool :=
  context ← signatureContext;
  data ← liftR (serializeMessageForSignature (toSignatureData (msg_data message)) context);
  vs ← gets (λ w, ch_validatorSet (w_chain w));
  validator ← liftR (getValidator vs (msg_validatorIndex message));
  mret (blsVerify (hexDecode (msg_signature message)) data (hexDecode (vw_blsPublicKey validator))).

(** An identical message is already being verified. *)
Definition isPendingMessage (w : World) (message : Message) : bool :=
  existsb (λ f, match f with
                | FMessage m _ => bool_decide (msg_serialized m = msg_serialized message)
                | FProposal _ _ => false
                end) (w_inFlight w).

Definition messageBegin (message : Message) : M World Progress :=
  disposed ← core k_isDisposed;
  if disposed : bool then mret (Done Skipped)
  else
    valid ← hasValidBlockNumberAndRound (msg_blockNumber message) (msg_round message);
    if negb valid then mret (Done Skipped)
    else
      ahead ← isRoundAheadOfTime (msg_round message);
      if ahead : bool then mret (Done Skipped)
      else
        roundState ← getRoundState (msg_blockNumber message) (msg_round message);
        duplicate ← isDuplicateMessage roundState message;
        if duplicate : bool then mret (Done Skipped)
        else
          w ← get;
          (* a copy of a message in flight shares its outcome and changes nothing *)
          if isPendingMessage w message then mret Pending
          else
            modify (λ w, w <| w_inFlight ::= λ l, l ++ [FMessage message roundState] |>);;
            mret Pending.

Definition messageFinish (message : Message) (roundState : Z) : M World ProcessorResult :=
  valid ← hasValidMessageSignature message;
  if negb valid then mret Invalid
  else
    duplicate ← isDuplicateMessage roundState message;
    if duplicate : bool then mret Skipped
    else
      onRound roundState (addMessage message);;
      onStorage (λ ok, saveMessage ok message);;
      handleRoundState roundState;;
      mret Accepted.

(** ** proposal-processor.ts *)
Definition isDuplicateProposal (roundState : Z) : M World bool :=
  r ← getRS roundState; mret (hasProposal r).

Definition hasValidProposer (proposal : Proposal) : M World bool :=
  i ← getValidatorIndex (p_round proposal); mret (p_validatorIndex proposal =? i).

Definition hasValidProposalSignature (proposal : Proposal) : M World bool :=
  data ← liftR (serializeProposalUnsigned (p_data proposal));
  vs ← gets (λ w, ch_validatorSet (w_chain w));
  validator ← liftR (getValidator vs (p_validatorIndex proposal));
  mret (blsVerify (hexDecode (p_signature proposal)) data (hexDecode (vw_blsPublicKey validator))).

Definition proposalBegin (proposal : Proposal) : M World Progress :=
  disposed ← core k_isDisposed;
  if disposed : bool then mret (Done Skipped)
  else
    valid ← hasValidBlockNumberAndRound (p_blockNumber proposal) (p_round proposal);
    if negb valid then mret (Done Skipped)
    else
      ahead ← isRoundAheadOfTime (p_round proposal);
      if ahead : bool then mret (Done Skipped)
      else
        proposer ← hasValidProposer proposal;
        if negb proposer then mret (Done Invalid)
        else
          roundState ← getRoundState (p_blockNumber proposal) (p_round proposal);
          duplicate ← isDuplicateProposal roundState;
          if duplicate : bool then mret (Done Skipped)
          else
            modify (λ w, w <| w_inFlight ::= λ l, l ++ [FProposal proposal roundState] |>);;
            mret Pending.

Definition proposalFinish (proposal : Proposal) (roundState : Z) : M World ProcessorResult :=
  valid ← hasValidProposalSignature proposal;
  if negb valid then mret Invalid
  else
    duplicate ← isDuplicateProposal roundState;
    if duplicate : bool then mret Skipped
    else
      onRound roundState (addProposal proposal);;
      onStorage (λ ok, saveProposal ok proposal);;
      handleRoundState roundState;;
      mret Accepted.

Definition hasValidLockProof (proposal : Proposal) : M World bool :=
  match p_validRound proposal, p_lockProof proposal with
  | None, None => mret true
  | _, None => mret false
  | None, _ => mret false
  | Some validRound, Some lockProof =>
      if p_round proposal <=? validRound then mret false
      else
        context ← signatureContext;
        data ← liftR (serializeMessageForSignature
                 (mkSignatureMessageData MessageType_Prevote (p_blockNumber proposal) validRound
                    (Some (p_hash proposal))) context);
        vs ← gets (λ w, ch_validatorSet (w_chain w));
        liftR (verifyAggregate vs lockProof data (roundValidatorsAt (p_blockNumber proposal)))
  end.

(** ** commit-processor.ts: [process] up to the handler lock, and
    [hasValidSignature] *)
Definition commitBegin (commit : Commit) : M World (option Z) :=
  c ← gets w_core;
  if negb (b_number (c_block commit) =? k_blockNumber c) then mret None
  else
    n ← milestoneValidators;
    vs ← gets (λ w, ch_validatorSet (w_chain w));
    validators ← liftR (getRoundValidators n vs);
    l ← gets w_next;
    modify (λ w, w <| w_next := l + 1 |> <| w_commits ::= <[l := csConfigure commit validators]> |>);;
    enqueue (JCommitState l);;
    mret (Some l).

Definition commitResult (l : Z) : M World ProcessorResult :=
  cs ← getCS l;
  match cs_processorResult cs with
  | None => mret Skipped
  | Some r => mret (if bpr_success r then Accepted else Invalid)
  end.

Definition hasValidCommitSignature (commit : Commit) (previousBlockHash : string) : M World bool :=
  c ← gets w_chain;
  genesis ← liftR (getGenesisCommit c);
  precommit ← liftR (serializeMessageForSignature
    (mkSignatureMessageData MessageType_Precommit (b_number (c_block commit)) (cp_round (c_proof commit))
       (Some (b_hash (c_block commit))))
    (mkSignatureMessageContext (b_hash (c_block genesis)) previousBlockHash));
  liftR (verifyAggregate (ch_validatorSet c)
           (mkAggregatedSignature (cp_signature (c_proof commit)) (cp_validators (c_proof commit)))
           precommit (roundValidatorsAt (b_number (c_block commit)))).
End processors.
