(* ===== verification/CommitBatch.v ===== *)
(** * Batches of downloaded commits

    What packages/p2p/source/downloader/block-downloader.ts checks of a batch of
    commits before any of them is handed to the commit processor. *)
From S2P Require Import Prelude Bytes ByteBuffer Serializer Messages Blocks Proposals Commits JsMap Quorum BlockchainUtils.
From S2P Require Import ValidatorSet RoundState ConsensusStorage Node Processors.

Section batch.
Context `{Services}.

(** [commitFactory.fromBytes]. *)
Definition parseCommit (chain : Chain) : list byte → result Commit :=
  commitFromBytes (roundValidatorsOr chain) isAddress txSchemaValid.

Definition numbersMatch (number : Z) (commits : list Commit) : bool :=
  forallb id (imap (λ index commit, b_number (c_block commit) =? number + Z.of_nat index) commits).

(** A commit, and the hash of the block before it that its signature covers. *)
Record Handed := mkHanded { hc_commit : Commit; hc_previous : string }.

(** Each commit with the hash of the one before it in the batch. *)
Fixpoint withPrevious (previous : string) (commits : list Commit) : list Handed :=
  match commits with
  | [] => []
  | c :: rest => mkHanded c previous :: withPrevious (b_hash (c_block c)) rest
  end.

Definition checkSignature (w : World) (h : Handed) : result bool :=
  (hasValidCommitSignature (hc_commit h) (hc_previous h) w).1.
End batch.

(** Parsing does not depend on the state of the chain. *)
Lemma commitFromBytes_ext `{Viem} `{TransactionCodec} `{HashFactory} rva rva' isAddress txSchemaValid buff :
  (∀ h, rva (Some h) = rva' (Some h)) →
  commitFromBytes rva isAddress txSchemaValid buff = commitFromBytes rva' isAddress txSchemaValid buff.
Proof.
  intros Hrva. unfold commitFromBytes, mbind, M_bind, liftR, gets. destruct (readBytes proofSize (fromBuffer buff)) as [[proofBuffer|e] b]; [| done].
  destruct (deserializeCommitProof proofBuffer) as [proof|e]; [| done].
  destruct (blockFromBytes isAddress txSchemaValid (getRemainder b)) as [block|e]; [| done].
  unfold commitSchemaValid, commitProofSchemaValid. by rewrite Hrva.
Qed.

Lemma parseCommit_chain `{Services} chain chain' bytes : parseCommit chain bytes = parseCommit chain' bytes.
Proof. unfold parseCommit. apply commitFromBytes_ext. intros h. reflexivity. Qed.

Lemma parseCommit_hash `{Services} chain bytes c : parseCommit chain bytes = Ok c → hexOfLength 64 (b_hash (c_block c)) = true.
Proof. unfold parseCommit. apply commitFromBytes_hash. Qed.

Lemma withPrevious_commits previous commits : hc_commit <$> withPrevious previous commits = commits.
Proof. revert previous. induction commits as [|c l IH]; intros previous; cbn; [done |]. f_equal. apply IH. Qed.

Lemma withPrevious_hashes previous commits h :
  hexOfLength 64 previous = true → (∀ c, c ∈ commits → hexOfLength 64 (b_hash (c_block c)) = true) →
  h ∈ withPrevious previous commits → hexOfLength 64 (hc_previous h) = true.
Proof.
  revert previous. induction commits as [|c l IH]; intros previous Hp Hc; cbn; [by intros ?%elem_of_nil |].
  intros [->|Hh]%elem_of_cons; [done |]. eapply IH; [apply Hc; by left | intros c' ?; apply Hc; by right | done].
Qed.

(** A batch that passes: every commit verified, against a proper hash. *)
Lemma batch_checked `{Services} w previous batch commits valid :
  traverse (parseCommit (w_chain w)) batch = Ok commits →
  traverse (checkSignature w) (withPrevious previous commits) = Ok valid → forallb id valid = true →
  hexOfLength 64 previous = true →
  ∀ c, c ∈ commits → hexOfLength 64 (b_hash (c_block c)) = true ∧
    ∃ h, hexOfLength 64 h = true ∧ (hasValidCommitSignature c h w).1 = Ok true.
Proof.
  intros Hparse Hsigs Hall Hp.
  assert (∀ c, c ∈ commits → hexOfLength 64 (b_hash (c_block c)) = true) as Hhex.
  { intros c Hc. destruct (traverse_elem _ _ _ _ Hparse Hc) as (bytes & Hbytes). by eapply parseCommit_hash. }
  intros c Hc. split; [by apply Hhex |]. rewrite <- (withPrevious_commits previous commits) in Hc.
  apply list_elem_of_fmap in Hc as (x & -> & Hx). exists (hc_previous x). split; [by eapply withPrevious_hashes |].
  by apply (traverse_true _ _ _ Hsigs Hall).
Qed.
