(* ===== verification/Peers.v ===== *)
(** * packages/p2p: the peers of a node

    peer-repository.ts, peer-disposer.ts, peer-processor.ts, peer-verifier.ts, the
    cleansing of service.ts, and the helpers they use (utils/is-valid-version.ts,
    validation/is-valid-peer.ts, and is-whitelisted.ts, is-blacklisted.ts and
    ip-address.ts of packages/utils).  A call that awaits is kept with the point it
    has reached; everything else may happen in between. *)
From S2P Require Import Prelude Bytes ByteBuffer Serializer Messages Blocks Proposals Commits JsMap Quorum BlockchainUtils.
From S2P Require Import ValidatorSet RoundState ConsensusStorage Node Processors CommitBatch.
From Stdlib Require Import Ascii.

(** ** Libraries

    micromatch ([None]: it throws), ipaddr.js, the interfaces of the machine, semver. *)
Class Networking := {
  isMatch : string → string → option bool;
  ipaddr_process : string → option string;
  ipaddr_kind : string → option string;
  networkAddress : string → string;
  interfaceAddresses : list string;
  semver_valid : string → bool;
  semver_satisfies : bool → string → string → bool;
}.

(** ** Configuration of the plugin *)
Record PeersConfig := mkPeersConfig {
  pc_disableDiscovery : bool;
  pc_whitelist : list string;
  pc_blacklist : list string;
  pc_maxSameSubnetPeers : Z;
  pc_peerBanTime : Z;
  pc_skipPeerStateVerification : bool;
  pc_minimumVersions : list string;
  pc_ignoreMinimumNetworkReach : bool;
  pc_minimumNetworkReach : Z;
  pc_nethash : string;
  pc_networkName : string;
}.

(** ** State

    A peer object; [po_id] is its identity, its version is kept under it. *)
Record PeerObject := mkPeerObject { po_id : nat; po_ip : string }.

(** What a peer says of itself, as far as it is looked at. *)
Record Status := mkStatus { st_version : string; st_nethash : string; st_blockNumber : Z }.

(** What a handler reads of the rest of the node: the state store, the blocks of the
    database, and the [p2p.minimumVersions] of the milestone. *)
Record NodeView := mkNodeView {
  nv_chain : Chain;
  nv_getBlock : Z → option Block;
  nv_minimumVersions : option (list string);
}.

(** The points at which [verify] and [#acceptNewPeer] await.  [seen] is what the node
    was when the status came; the code has no use for it, the theorems do. *)
Inductive Stage :=
  | AwaitStatus
  | AwaitBlock (status : Status) (block : Block) (blockNumberToRequest : Z) (seen : NodeView)
  | AwaitTxPool
  | AwaitWorker
  | AwaitDiscovery.

(** A call of [#acceptNewPeer], or of [verify] within [cleansePeers]. *)
Record Call := mkCall { ca_peer : PeerObject; ca_cleansing : bool; ca_stage : Stage }.

(** A successful verification: what the peer said, the block that both have, and what
    the node was when the status and when the block came. *)
Record Verified := mkVerified {
  ve_peer : PeerObject; ve_status : Status; ve_ours : Block; ve_theirs : Commit;
  ve_atStatus : NodeView; ve_atBlock : NodeView;
}.

(** [pp_blacklist] has the time in milliseconds until which an address is banned. *)
Record Peers := mkPeers {
  pp_peers : JsMap string PeerObject;
  pp_pending : JsMap string PeerObject;
  pp_blacklist : JsMap string Z;
  pp_verifying : list string;
  pp_now : Z;
  pp_next : nat;
  pp_version : nat → option string;
  pp_calls : list Call;
  pp_verified : list Verified;
}.
#[export] Instance eta_Peers : Eta Peers := λ s,
  mkPeers (pp_peers s) (pp_pending s) (pp_blacklist s) (pp_verifying s) (pp_now s) (pp_next s) (pp_version s) (pp_calls s) (pp_verified s).
Definition newPeers (now : Z) : Peers := mkPeers [] [] [] [] now 0 (λ _, None) [] [].

(** ** peer-repository.ts *)
Definition getPeers (s : Peers) : list PeerObject := mapValues (pp_peers s).
Definition hasPeers (s : Peers) : bool := 0 <? mapSize (pp_peers s).
Definition getPeer (ip : string) (s : Peers) : result PeerObject := assert_defined (mapGet (pp_peers s) ip).
Definition hasPeer (ip : string) (s : Peers) : bool := mapHas (pp_peers s) ip.
Definition setPeer (peer : PeerObject) (s : Peers) : Peers := s <| pp_peers ::= λ m, mapSet m (po_ip peer) peer |>.
Definition forgetPeer (peer : PeerObject) (s : Peers) : Peers := s <| pp_peers ::= λ m, mapDelete m (po_ip peer) |>.
Definition getPendingPeers (s : Peers) : list PeerObject := mapValues (pp_pending s).
Definition hasPendingPeers (s : Peers) : bool := 0 <? mapSize (pp_pending s).
Definition getPendingPeer (ip : string) (s : Peers) : result PeerObject := assert_defined (mapGet (pp_pending s) ip).
Definition hasPendingPeer (ip : string) (s : Peers) : bool := mapHas (pp_pending s) ip.
Definition setPendingPeer (peer : PeerObject) (s : Peers) : Peers := s <| pp_pending ::= λ m, mapSet m (po_ip peer) peer |>.
Definition forgetPendingPeer (peer : PeerObject) (s : Peers) : Peers := s <| pp_pending ::= λ m, mapDelete m (po_ip peer) |>.

(** ** Addresses *)

(** [s.replace(c, "")]: the first occurrence. *)
Fixpoint replaceFirst (c : Ascii.ascii) (s : string) : string :=
  match s with
  | EmptyString => EmptyString
  | String a rest => if Ascii.eqb a c then rest else String a (replaceFirst c rest)
  end.
Definition cleanAddress (ip : string) : string := replaceFirst "]"%char (replaceFirst "["%char ip).

Section peers.
Context `{Services} `{Networking} (cfg : PeersConfig).

Definition isIPv6Address (ip : string) : bool := bool_decide (ipaddr_kind (cleanAddress ip) = Some "ipv6"%string).

Definition getSameSubnetPeers (peerIp : string) (s : Peers) : list PeerObject :=
  List.filter (λ peer,
    if negb (isIPv6Address (po_ip peer)) && negb (isIPv6Address peerIp)
    then String.eqb (networkAddress (po_ip peer)) (networkAddress peerIp)
    else false) (getPeers s).

Definition hasMinimumPeers (s : Peers) : bool :=
  if pc_ignoreMinimumNetworkReach cfg then true else pc_minimumNetworkReach cfg <=? Z.of_nat (length (getPeers s)).

Definition matchesAny (patterns : list string) (remoteAddress : string) : bool :=
  existsb (λ ip, default false (isMatch remoteAddress ip)) patterns.
Definition isWhitelisted (whitelist : list string) (remoteAddress : string) : bool :=
  if bool_decide (whitelist = []) then true else matchesAny whitelist remoteAddress.
Definition isBlacklisted (blacklist : list string) (remoteAddress : string) : bool :=
  if bool_decide (blacklist = []) then false else matchesAny blacklist remoteAddress.

Definition sanitizeRemoteAddress (ip : string) : option string := ipaddr_process ip.
Definition isLocalHost (ip : string) : bool :=
  String.prefix "0" ip || bool_decide (ip ∈ ["127.0.0.1"; "::ffff:127.0.0.1"; "::1"]%string) || bool_decide (ip ∈ interfaceAddresses).
Definition isValidPeerIp (ip : string) : bool :=
  match sanitizeRemoteAddress ip with
  | None => false
  | Some sanitizedAddress =>
      if String.eqb sanitizedAddress "" then false else negb (isLocalHost sanitizedAddress)
  end.

(** utils/is-valid-version.ts. *)
Definition minimumVersionsOf (view : NodeView) : list string :=
  match nv_minimumVersions view with
  | Some (v :: rest) => v :: rest
  | _ => pc_minimumVersions cfg
  end.
Definition isValidVersion (view : NodeView) (version : string) : bool :=
  if String.eqb version "" then false
  else if negb (semver_valid version) then false
  else
    let includePrerelease := negb (String.eqb (pc_networkName cfg) "mainnet") in
    existsb (semver_satisfies includePrerelease version) (minimumVersionsOf view).

(** ** peer-disposer.ts

    Of an error it matters whether it comes from the socket: a closed connection or a
    timeout does not get the peer banned. *)
Inductive PeerError := SocketClosed | OtherError.

Definition isBanned (ip : string) (s : Peers) : bool * Peers :=
  match mapGet (pp_blacklist s) ip with
  | Some bannedUntil =>
      if pp_now s <? bannedUntil then (true, s) else (false, s <| pp_blacklist ::= λ m, mapDelete m ip |>)
  | None => (false, s)
  end.

Definition disposePeer (ip : string) (s : Peers) : Peers :=
  match mapGet (pp_peers s) ip with
  | Some peer => forgetPeer peer s
  | None => s
  end.

Definition MINUTE : Z := 60 * 1000.
Definition banPeer (ip : string) (error : PeerError) (s : Peers) : Peers :=
  let '(banned, s1) := isBanned ip s in
  if banned then s1
  else match error with
       | SocketClosed => disposePeer ip s1
       | OtherError =>
           let timeout := pc_peerBanTime cfg in
           disposePeer ip (if 0 <? timeout then s1 <| pp_blacklist ::= λ m, mapSet m ip (pp_now s1 + timeout * MINUTE) |> else s1)
       end.

(** ** peer-processor.ts: the checks of an address *)
Definition validatePeerIp (ip : string) (seed : bool) (s : Peers) : bool * Peers :=
  if pc_disableDiscovery cfg then (false, s)
  else if negb (isValidPeerIp ip) then (false, s)
  else if negb (isWhitelisted (pc_whitelist cfg) ip) then (false, s)
  else if isBlacklisted (pc_blacklist cfg) ip then (false, s)
  else
    let '(banned, s1) := isBanned ip s in
    if banned then (false, s1)
    else (negb ((pc_maxSameSubnetPeers cfg <=? Z.of_nat (length (getSameSubnetPeers ip s1))) && negb seed), s1).

(** ** Calls in flight *)
Definition await (call : Call) (s : Peers) : Peers := s <| pp_calls ::= λ l, l ++ [call] |>.
Definition setStage (stage : Stage) (call : Call) : Call := mkCall (ca_peer call) (ca_cleansing call) stage.

(** [resume k f]: the [k]-th call goes on. *)
Definition resume (k : nat) (f : Call → Peers → Peers) (s : Peers) : Peers :=
  match pp_calls s !! k with
  | None => s
  | Some call => f call (s <| pp_calls ::= delete k |>)
  end.

(** What follows the [verify] of a call. *)
Definition afterVerify (call : Call) (verified : bool) (s : Peers) : Peers :=
  if ca_cleansing call then s <| pp_verifying ::= List.filter (λ ip, negb (String.eqb ip (po_ip (ca_peer call)))) |>
  else if verified then await (setStage AwaitTxPool call) s
  else forgetPendingPeer (ca_peer call) s.

(** ** peer-verifier.ts *)
Definition startVerify (call : Call) (s : Peers) : Peers :=
  if pc_skipPeerStateVerification cfg then afterVerify call true s else await (setStage AwaitStatus call) s.

(** The [catch] of [verify]. *)
Definition failVerify (call : Call) (error : PeerError) (s : Peers) : Peers :=
  afterVerify call false (banPeer (po_ip (ca_peer call)) error s).

Definition verifyConfig (status : Status) : bool := String.eqb (st_nethash status) (pc_nethash cfg).

(** The status has come: up to the request of the block. *)
Definition onStatus (k : nat) (answer : PeerError + Status) (view : NodeView) : Peers → Peers :=
  resume k (λ call s,
    match ca_stage call with
    | AwaitStatus =>
        match answer with
        | inl error => failVerify call error s
        | inr status =>
            let s1 := s <| pp_version ::= λ f i, if decide (i = po_id (ca_peer call)) then Some (st_version status) else f i |> in
            if negb (verifyConfig status) then failVerify call OtherError s1
            else if negb (isValidVersion view (st_version status)) then failVerify call OtherError s1
            else match getLastBlock (nv_chain view) with
                 | Throw _ => failVerify call OtherError s1
                 | Ok block =>
                     let blockNumberToRequest := if st_blockNumber status <? b_number block then st_blockNumber status else b_number block in
                     await (setStage (AwaitBlock status block blockNumberToRequest view) call) s1
                 end
        end
    | _ => await call s
    end).

(** [#verifyHighestCommonBlock] from the answer on: the commit received and the block
    it was compared with. *)
Definition commonBlock (view : NodeView) (block : Block) (blockNumberToRequest : Z) (blocks : list (list byte)) : result (Block * Commit) :=
  match blocks with
  | [bytes] =>
      receivedCommit ← parseCommit (nv_chain view) bytes;
      blockToCompare ← assert_defined (if b_number block =? blockNumberToRequest then Some block else nv_getBlock view blockNumberToRequest);
      guardR (b_number (c_block receivedCommit) =? b_number blockToCompare) (JSError "Received block does not match the requested block number");;
      guardR (String.eqb (b_hash (c_block receivedCommit)) (b_hash blockToCompare)) (JSError "Received block does not match the requested hash. Peer is on a different chain.");;
      Ok (blockToCompare, receivedCommit)
  | _ => Throw (JSError "Failed to get blocks from peer")
  end.

Definition onBlock (k : nat) (answer : PeerError + list (list byte)) (view : NodeView) : Peers → Peers :=
  resume k (λ call s,
    match ca_stage call with
    | AwaitBlock status block blockNumberToRequest seen =>
        match answer with
        | inl error => failVerify call error s
        | inr blocks =>
            match commonBlock view block blockNumberToRequest blocks with
            | Throw _ => failVerify call OtherError s
            | Ok (ours, theirs) =>
                afterVerify call true (s <| pp_verified ::= λ l, l ++ [mkVerified (ca_peer call) status ours theirs seen view] |>)
            end
        end
    | _ => await call s
    end).

(** ** peer-processor.ts: accepting a peer *)
Definition acceptNewPeer (ip : string) (s : Peers) : Peers :=
  let peer := mkPeerObject (pp_next s) ip in
  startVerify (mkCall peer false AwaitStatus) (setPendingPeer peer (s <| pp_next ::= S |>)).

Definition validateAndAcceptPeer (ip : string) (seed : bool) (s : Peers) : Peers :=
  if hasPeer ip s || hasPendingPeer ip s then s
  else
    let '(valid, s1) := validatePeerIp ip seed s in
    if valid then acceptNewPeer ip s1 else s1.

(** The pool node of the peer is checked. *)
Definition onTxPoolVerified (k : nat) (verified : bool) : Peers → Peers :=
  resume k (λ call s,
    match ca_stage call with
    | AwaitTxPool =>
        if verified then
          let '(banned, s1) := isBanned (po_ip (ca_peer call)) s in
          if negb banned then await (setStage AwaitWorker call) (setPeer (ca_peer call) s1)
          else forgetPendingPeer (ca_peer call) s1
        else forgetPendingPeer (ca_peer call) s
    | _ => await call s
    end).

(** The worker of the pool has answered; if it fails, so does the call. *)
Definition onWorker (k : nat) (answer : result unit) : Peers → Peers :=
  resume k (λ call s,
    match ca_stage call with
    | AwaitWorker =>
        match answer with
        | Ok _ => await (setStage AwaitDiscovery call) s
        | Throw _ => s
        end
    | _ => await call s
    end).

(** Ports are pinged, peers and API nodes are discovered. *)
Definition onDiscovered (k : nat) : Peers → Peers :=
  resume k (λ call s,
    match ca_stage call with
    | AwaitDiscovery => forgetPendingPeer (ca_peer call) s
    | _ => await call s
    end).

(** The listener of [CryptoEvent.MilestoneChanged]. *)
Definition disconnectInvalidPeers (view : NodeView) (s : Peers) : Peers :=
  foldl (λ s peer,
    match pp_version s (po_id peer) with
    | Some version => if negb (isValidVersion view version) then disposePeer (po_ip peer) s else s
    | None => disposePeer (po_ip peer) s
    end) s (getPeers s).

(** ** service.ts: cleansing; [order] is the random order of [shuffle]. *)
Definition cleansePeers (order : list PeerObject → list PeerObject) (peerCount : nat) (s : Peers) : Peers :=
  let peers := take peerCount (order (List.filter (λ peer, negb (bool_decide (po_ip peer ∈ pp_verifying s))) (getPeers s))) in
  foldl (λ s peer,
    startVerify (mkCall peer true AwaitStatus)
      (s <| pp_verifying ::= λ l, if bool_decide (po_ip peer ∈ l) then l else l ++ [po_ip peer] |>)) s peers.

(** [#checkReceivedMessages]: how many peers are cleansed. *)
Definition peersToCleanse (s : Peers) : Z := Z.max ((Z.of_nat (length (getPeers s)) + 4) / 5) 5.
Definition isQuiet (lastMessageTime : Z) (s : Peers) : bool := lastMessageTime <? pp_now s - 8 * 1000.
Definition checkReceivedMessages (lastMessageTime : Z) (order : list PeerObject → list PeerObject) (s : Peers) : Peers :=
  if isQuiet lastMessageTime s then cleansePeers order (Z.to_nat (peersToCleanse s)) s else s.

(** ** The life of the peers *)
Inductive peerStep : relation Peers :=
  | peer_accept ip seed s : peerStep s (validateAndAcceptPeer ip seed s)
  | peer_status k answer view s : peerStep s (onStatus k answer view s)
  | peer_block k answer view s : peerStep s (onBlock k answer view s)
  | peer_txpool k verified s : peerStep s (onTxPoolVerified k verified s)
  | peer_worker k answer s : peerStep s (onWorker k answer s)
  | peer_discovered k s : peerStep s (onDiscovered k s)
  | peer_cleanse order count s :
      (∀ l, order l ≡ₚ l) → peerStep s (cleansePeers order count s)
  | peer_ban ip error s : peerStep s (banPeer ip error s)
  | peer_dispose ip s : peerStep s (disposePeer ip s)
  | peer_milestone view s : peerStep s (disconnectInvalidPeers view s)
  | peer_time d s : 0 ≤ d → peerStep s (s <| pp_now ::= Z.add d |>).
End peers.
