(* ===== verification/PeersTheorems.v ===== *)
(** * The peers of a node: what holds of them

    The invariant of [Peers], over any interleaving of its handlers. *)
From S2P Require Import Prelude Bytes ByteBuffer Serializer Messages Blocks Proposals Commits JsMap Quorum BlockchainUtils.
From S2P Require Import ValidatorSet RoundState ConsensusStorage Node Processors CommitBatch Peers.

Section facts.
Context `{Services} `{Networking} (cfg : PeersConfig).

(** ** The invariant *)
Definition accepting (c : Call) : bool := negb (ca_cleansing c).
Definition callIp (c : Call) : string := po_ip (ca_peer c).
Definition acceptIps (l : list Call) : list string := callIp <$> List.filter accepting l.

(** The common block is behind the call. *)
Definition checked (stage : Stage) : bool := match stage with AwaitTxPool | AwaitWorker | AwaitDiscovery => true | _ => false end.

(** The number asked for: the peer's, or that of the node's last block if it is less. *)
Definition requested (status : Status) (block : Block) : Z := Z.min (st_blockNumber status) (b_number block).

(** A version that the node accepts: it satisfies a range of the milestone, or of the
    node's configuration if the milestone names none. *)
Definition acceptedVersion (view : NodeView) (version : string) : Prop :=
  version ≠ ""%string ∧ semver_valid version = true ∧
  ∃ range, range ∈ (if decide (default [] (nv_minimumVersions view) = []) then pc_minimumVersions cfg else default [] (nv_minimumVersions view)) ∧
    semver_satisfies (negb (bool_decide (pc_networkName cfg = "mainnet"%string))) version range = true.

Lemma isValidVersion_accepted view version : isValidVersion cfg view version = true ↔ acceptedVersion view version.
Proof.
  unfold isValidVersion, acceptedVersion. assert (String.eqb (pc_networkName cfg) "mainnet" = bool_decide (pc_networkName cfg = "mainnet"%string)) as ->
    by (case_bool_decide as Hn; [by rewrite Hn | by apply String.eqb_neq]).
  assert (minimumVersionsOf cfg view = if decide (default [] (nv_minimumVersions view) = []) then pc_minimumVersions cfg else default [] (nv_minimumVersions view)) as ->
    by (unfold minimumVersionsOf; by destruct (nv_minimumVersions view) as [[]|]).
  destruct (String.eqb_spec version "") as [|Hne]; [naive_solver |]. destruct (semver_valid version); cbn [negb]; [| naive_solver].
  rewrite existsb_exists. setoid_rewrite list_elem_of_In. naive_solver.
Qed.

(** What the node made sure of when the status came. *)
Definition statusOk (status : Status) (block : Block) (n : Z) (view : NodeView) : Prop :=
  st_nethash status = pc_nethash cfg ∧ acceptedVersion view (st_version status) ∧
  getLastBlock (nv_chain view) = Ok block ∧ n = requested status block.

(** The node's own block of a number: the last one, or what its database has. *)
Definition ownBlock (block : Block) (view : NodeView) (n : Z) (ours : Block) : Prop :=
  if b_number block =? n then ours = block else nv_getBlock view n = Some ours.

Definition sound (v : Verified) : Prop :=
  ∃ block n, statusOk (ve_status v) block n (ve_atStatus v) ∧ ownBlock block (ve_atBlock v) n (ve_ours v) ∧
    (∃ bytes, parseCommit (nv_chain (ve_atBlock v)) bytes = Ok (ve_theirs v)) ∧
    b_number (c_block (ve_theirs v)) = b_number (ve_ours v) ∧ b_hash (c_block (ve_theirs v)) = b_hash (ve_ours v).

Definition vouched (s : Peers) (p : PeerObject) : Prop :=
  pc_skipPeerStateVerification cfg = true ∨ ∃ v, v ∈ pp_verified s ∧ ve_peer v = p.

(** [active]: the calls that are running right now. *)
Record peersOk (active : list Call) (s : Peers) : Prop := {
  ok_keys : ∀ ip p, mapGet (pp_peers s) ip = Some p → po_ip p = ip;
  ok_ban : ∀ ip until, mapGet (pp_blacklist s) ip = Some until → pp_now s < until → mapGet (pp_peers s) ip = None;
  ok_pending : ∀ c, c ∈ active ++ pp_calls s → ca_cleansing c = false → mapGet (pp_pending s) (callIp c) = Some (ca_peer c);
  ok_once : NoDup (acceptIps (active ++ pp_calls s));
  ok_checked : ∀ c, c ∈ active ++ pp_calls s → checked (ca_stage c) = true → ca_cleansing c = false ∧ vouched s (ca_peer c);
  ok_status : ∀ c status b n seen, c ∈ active ++ pp_calls s → ca_stage c = AwaitBlock status b n seen → statusOk status b n seen;
  ok_sound : ∀ v, v ∈ pp_verified s → sound v;
  ok_vouched : ∀ ip p, mapGet (pp_peers s) ip = Some p → vouched s p;
}.

Lemma ok_new now : peersOk [] (newPeers now).
Proof. constructor; try done; [intros ? ?%elem_of_nil; done | apply NoDup_nil_2 | intros ? ?%elem_of_nil; done | intros ? ? ? ? ? ?%elem_of_nil; done | intros ? ?%elem_of_nil; done]. Qed.

(** *** Calls *)
Lemma acceptIps_perm l l' : l ≡ₚ l' → acceptIps l ≡ₚ acceptIps l'.
Proof.
  intros Hp. unfold acceptIps. apply fmap_Permutation. induction Hp as [|x l l' Hp IH|x y l|l l1 l2 H1 IH1 H2 IH2]; cbn; [done | | |].
  - destruct (accepting x); by rewrite IH.
  - destruct (accepting x), (accepting y); try done; apply perm_swap.
  - by rewrite IH1.
Qed.

Lemma acceptIps_cons c l : acceptIps (c :: l) = if ca_cleansing c then acceptIps l else callIp c :: acceptIps l.
Proof. unfold acceptIps, accepting. cbn. by destruct (ca_cleansing c). Qed.

(** The invariant is about the calls, not about which of them run. *)
Lemma ok_perm active active' s s' :
  peersOk active s → active' ++ pp_calls s' ≡ₚ active ++ pp_calls s → s' = s <| pp_calls := pp_calls s' |> → peersOk active' s'.
Proof.
  intros [] Hp Hs'. assert (∀ c, c ∈ active' ++ pp_calls s' → c ∈ active ++ pp_calls s) as Hin by (intros c; by rewrite Hp).
  rewrite Hs'. constructor; cbn; eauto. by rewrite (acceptIps_perm _ _ Hp).
Qed.

Lemma ok_resume k c s : peersOk [] s → pp_calls s !! k = Some c → peersOk [c] (s <| pp_calls ::= delete k |>).
Proof.
  intros Hok Hk. eapply (ok_perm [] [c] s); [done | | by destruct s]. cbn. symmetry. by apply delete_Permutation.
Qed.

(** A step of a call to its next await. *)
Lemma ok_await c c' s :
  peersOk [c] s → ca_peer c' = ca_peer c → ca_cleansing c' = ca_cleansing c →
  (checked (ca_stage c') = true → ca_cleansing c = false ∧ vouched s (ca_peer c)) →
  (∀ status b n seen, ca_stage c' = AwaitBlock status b n seen → statusOk status b n seen) →
  peersOk [] (await c' s).
Proof.
  intros [] Hp Hcl Hch Hst. assert (callIp c' = callIp c) as Hip by (unfold callIp; by rewrite Hp).
  assert (∀ x, x ∈ [] ++ pp_calls (await c' s) → x = c' ∨ x ∈ [c] ++ pp_calls s) as Hin.
  { intros x Hx. cbn in Hx. apply elem_of_app in Hx as [Hx| ->%list_elem_of_singleton]; [right; by right | by left]. }
  constructor; try done.
  - intros x [->|Hx]%Hin Hc; [rewrite Hip, Hp; apply ok_pending0; [by left | congruence] | by apply ok_pending0].
  - assert (acceptIps (pp_calls (await c' s)) ≡ₚ acceptIps (c :: pp_calls s)) as ->; [| done].
    rewrite (acceptIps_perm _ (c' :: pp_calls s)) by (cbn; symmetry; apply Permutation_cons_append).
    by rewrite !acceptIps_cons, Hcl, Hip.
  - intros x [->|Hx]%Hin Hc; [rewrite Hp, Hcl; by apply Hch | by apply ok_checked0].
  - intros x status b n seen [->|Hx]%Hin Hc; [by eapply Hst | by eapply ok_status0].
Qed.

Lemma ok_await_same c s : peersOk [c] s → peersOk [] (await c s).
Proof.
  intros Hok. apply (ok_await c); [done.. | |].
  - intros Hc. apply (ok_checked _ _ Hok); [left | done].
  - intros status b n seen Hc. eapply (ok_status _ _ Hok); [left | done].
Qed.

(** A call that ends. *)
Lemma ok_drop c active s : peersOk (c :: active) s → peersOk active s.
Proof.
  intros []. assert (∀ x, x ∈ active ++ pp_calls s → x ∈ (c :: active) ++ pp_calls s) as Hin by (intros x Hx; by right).
  constructor; eauto. change ((c :: active) ++ pp_calls s) with (c :: (active ++ pp_calls s)) in ok_once0. rewrite acceptIps_cons in ok_once0. destruct (ca_cleansing c); [done | by apply NoDup_cons in ok_once0 as [_ ?]].
Qed.

Lemma ok_forget c s : peersOk [c] s → ca_cleansing c = false → peersOk [] (forgetPendingPeer (ca_peer c) s).
Proof.
  intros Hok Hc. pose proof (ok_once _ _ Hok) as Hnd. pose proof (ok_pending _ _ Hok) as Hpend. apply ok_drop in Hok as []. constructor; try done.
  intros x Hx Hxc. cbn in Hx |- *. rewrite mapGet_delete, decide_False; [apply Hpend; [by right | done] |].
  change ([c] ++ pp_calls s) with (c :: pp_calls s) in Hnd. rewrite acceptIps_cons, Hc in Hnd. apply NoDup_cons in Hnd as [Hnot _]. intros Heq. apply Hnot.
  unfold acceptIps. apply list_elem_of_fmap. exists x. split; [exact Heq |]. apply list_elem_of_In, filter_In.
  split; [by apply list_elem_of_In | unfold accepting; by rewrite Hxc].
Qed.

(** *** Banning and disposing *)
Lemma ok_isBanned active ip s : peersOk active s → peersOk active (isBanned ip s).2.
Proof.
  intros Hok. unfold isBanned. destruct (mapGet (pp_blacklist s) ip) as [until|] eqn:Hb; [| done]. destruct (_ <? _); [done |]. cbn.
  destruct Hok. constructor; try done. cbn. intros ip' until'. rewrite mapGet_delete. destruct (decide _); [done |]. apply ok_ban0.
Qed.

Lemma ok_dispose active ip s : peersOk active s → peersOk active (disposePeer ip s).
Proof.
  intros Hok. unfold disposePeer. destruct (mapGet (pp_peers s) ip) as [p|] eqn:Hp; [| done]. destruct Hok. constructor; try done; cbn.
  - intros ip' p'. rewrite mapGet_delete. destruct (decide _); [done |]. apply ok_keys0.
  - intros ip' until Hb Hlt. rewrite mapGet_delete. destruct (decide _); [done |]. by eapply ok_ban0.
  - intros ip' p'. rewrite mapGet_delete. destruct (decide _); [done |]. apply ok_vouched0.
Qed.

Lemma dispose_gone ip s : (∀ ip p, mapGet (pp_peers s) ip = Some p → po_ip p = ip) → mapGet (pp_peers (disposePeer ip s)) ip = None.
Proof.
  intros Hk. unfold disposePeer. destruct (mapGet (pp_peers s) ip) as [p|] eqn:Hp; [| done]. cbn. rewrite mapGet_delete, decide_True; [done | by apply Hk].
Qed.

(** The ban and the removal from the repository are one step. *)
Lemma ok_dispose_banned active ip until s : peersOk active s →
  peersOk active (disposePeer ip (s <| pp_blacklist ::= λ m, mapSet m ip until |>)).
Proof.
  intros Hok. set (s1 := s <| pp_blacklist ::= λ m, mapSet m ip until |>).
  assert (mapGet (pp_peers (disposePeer ip s1)) ip = None) as Hgone by (apply dispose_gone, (ok_keys _ _ Hok)).
  assert (disposePeer ip s1 = (disposePeer ip s) <| pp_blacklist ::= λ m, mapSet m ip until |>) as Heq.
  { unfold disposePeer, s1. cbn. by destruct (mapGet (pp_peers s) ip). }
  rewrite Heq in Hgone |- *. apply (ok_dispose _ ip) in Hok as []. constructor; try done.
  cbn. intros ip' until'. rewrite mapGet_set. destruct (decide (ip = ip')) as [<-|]; [intros _ _; exact Hgone | apply ok_ban0].
Qed.

Lemma ok_banPeer active ip error s : peersOk active s → peersOk active (banPeer cfg ip error s).
Proof.
  intros Hok. unfold banPeer. pose proof (ok_isBanned active ip s Hok) as H1. destruct (isBanned ip s) as [[] s1]; [done |].
  destruct error; [by apply ok_dispose |]. cbv zeta. destruct (_ <? _); [by apply ok_dispose_banned | by apply ok_dispose].
Qed.

(** *** Verifications *)
Lemma ok_afterVerify c verified s :
  peersOk [c] s → (verified = true → vouched s (ca_peer c)) → peersOk [] (afterVerify c verified s).
Proof.
  intros Hok Hv. unfold afterVerify. destruct (ca_cleansing c) eqn:Hc.
  - apply ok_drop in Hok as []. by constructor.
  - destruct verified; [| by apply ok_forget]. apply (ok_await c); [done.. | by intros _; split; [done | apply Hv] | done].
Qed.

Lemma ok_fail c error s : peersOk [c] s → peersOk [] (failVerify cfg c error s).
Proof. intros Hok. by apply ok_afterVerify; [apply ok_banPeer |]. Qed.

Lemma ok_start c s : peersOk [c] s → peersOk [] (startVerify cfg c s).
Proof.
  intros Hok. unfold startVerify. destruct (pc_skipPeerStateVerification cfg) eqn:Hskip.
  - apply ok_afterVerify; [done |]. intros _. by left.
  - by apply (ok_await c).
Qed.

Lemma ok_version active f s : peersOk active s → peersOk active (s <| pp_version ::= f |>).
Proof. intros []. by constructor. Qed.

Lemma resume_ok k f s :
  peersOk [] s → (∀ c s', peersOk [c] s' → peersOk [] (f c s')) → peersOk [] (resume k f s).
Proof. intros Hok Hf. unfold resume. destruct (pp_calls s !! k) as [c|] eqn:Hk; [| done]. apply Hf. by apply ok_resume. Qed.

Lemma ok_onStatus k answer view s : peersOk [] s → peersOk [] (onStatus cfg k answer view s).
Proof.
  intros Hok. apply resume_ok; [done |]. intros c s1 H1. destruct (ca_stage c) eqn:Hst; try (by apply ok_await_same).
  destruct answer as [error|status]; [by apply ok_fail |]. cbv zeta.
  match goal with |- context [failVerify cfg c OtherError ?x] => assert (peersOk [c] x) as H2 by (by apply ok_version); set (s2 := x) in * end.
  destruct (verifyConfig cfg status) eqn:Hnet; [| by apply ok_fail]. destruct (isValidVersion cfg view (st_version status)) eqn:Hver; [| by apply ok_fail].
  destruct (getLastBlock (nv_chain view)) as [block|] eqn:Hlast; [| by apply ok_fail]. apply String.eqb_eq in Hnet.
  apply (ok_await c); [done.. |]. intros status' b n seen Heq. injection Heq as <- <- <- <-. split_and!; [done | by apply isValidVersion_accepted | done |].
  unfold requested. destruct (Z.ltb_spec (st_blockNumber status) (b_number block)); lia.
Qed.

Lemma commonBlock_Ok view block n blocks ours theirs :
  commonBlock view block n blocks = Ok (ours, theirs) →
  ownBlock block view n ours ∧ (∃ bytes, parseCommit (nv_chain view) bytes = Ok theirs) ∧
  b_number (c_block theirs) = b_number ours ∧ b_hash (c_block theirs) = b_hash ours.
Proof.
  unfold commonBlock. destruct blocks as [|bytes []]; [done | | done]. intros Hrun.
  apply bind_Ok in Hrun as (commit & Hparse & Hrun). apply bind_Ok in Hrun as (block' & Hown & Hrun).
  destruct (Z.eqb_spec (b_number (c_block commit)) (b_number block')) as [Hn|]; [| done]. cbn in Hrun.
  destruct (String.eqb_spec (b_hash (c_block commit)) (b_hash block')) as [Hh|]; [| done]. cbn in Hrun. injection Hrun as <- <-.
  split_and!; [| by exists bytes | done | done]. unfold ownBlock. destruct (b_number block =? n); cbn in Hown; [congruence |].
  destruct (nv_getBlock view n); cbn in Hown; [congruence | done].
Qed.

Lemma ok_onBlock k answer view s : peersOk [] s → peersOk [] (onBlock cfg k answer view s).
Proof.
  intros Hok. apply resume_ok; [done |]. intros c s1 H1. destruct (ca_stage c) as [|status block n seen| | |] eqn:Hst; try (by apply ok_await_same).
  destruct answer as [error|blocks]; [by apply ok_fail |]. destruct (commonBlock view block n blocks) as [[ours theirs]|] eqn:Hcb; [| by apply ok_fail].
  set (v := mkVerified (ca_peer c) status ours theirs seen view). apply ok_afterVerify; [| intros _; right; exists v; split; [apply elem_of_app; right; left | done]].
  assert (statusOk status block n seen) as Hstatus by (apply (ok_status _ _ H1 c); [left | done]).
  assert (∀ p, vouched s1 p → vouched (s1 <| pp_verified ::= λ l, l ++ [v] |>) p) as Hmore.
  { intros p [Hs|(v' & Hv' & Hp)]; [by left | right; exists v'; split; [by apply elem_of_app; left | done]]. }
  destruct H1. constructor; try done; eauto.
  { intros x Hx Hx'. destruct (ok_checked0 x Hx Hx'). auto. }
  intros v' [Hv'| ->%list_elem_of_singleton]%elem_of_app; [by apply ok_sound0 |].
  exists block, n. split; [exact Hstatus | by apply (commonBlock_Ok view block n blocks)].
Qed.

(** *** Accepting a peer *)
Lemma ok_validateIp ip seed s : peersOk [] s → peersOk [] (validatePeerIp cfg ip seed s).2.
Proof.
  intros Hok. unfold validatePeerIp. repeat (destruct (_ : bool); [done |]).
  pose proof (ok_isBanned [] ip s Hok) as H1. by destruct (isBanned ip s) as [[] s1].
Qed.

Lemma isBanned_frame ip s : (isBanned ip s).2 = s <| pp_blacklist := pp_blacklist (isBanned ip s).2 |>.
Proof. unfold isBanned. destruct (mapGet _ _); [| by destruct s]. destruct (_ <? _); by destruct s. Qed.

Lemma validateIp_frame ip seed s : (validatePeerIp cfg ip seed s).2 = s <| pp_blacklist := pp_blacklist (validatePeerIp cfg ip seed s).2 |>.
Proof.
  unfold validatePeerIp. repeat (destruct (_ : bool); [by destruct s |]). pose proof (isBanned_frame ip s) as Hf.
  destruct (isBanned ip s) as [[] s1]; exact Hf.
Qed.

Lemma ok_acceptNew ip s : peersOk [] s → mapGet (pp_pending s) ip = None → peersOk [] (acceptNewPeer cfg ip s).
Proof.
  intros Hok Hnew. unfold acceptNewPeer. cbv zeta. set (peer := mkPeerObject (pp_next s) ip). set (c := mkCall peer false AwaitStatus).
  apply ok_start. destruct Hok. constructor; try done.
  - intros x Hx Hxc. cbn in Hx |- *. rewrite mapGet_set. apply elem_of_cons in Hx as [->|Hx]; [by rewrite decide_True |].
    specialize (ok_pending0 x Hx Hxc). rewrite decide_False; [done |]. intros Heq. rewrite <- Heq in ok_pending0. change (mapGet (pp_pending s) ip = Some (ca_peer x)) in ok_pending0. congruence.
  - change (NoDup (acceptIps (c :: pp_calls s))). rewrite acceptIps_cons. cbn [ca_cleansing c]. apply NoDup_cons. split; [| done]. unfold acceptIps.
    intros (x & Hx & [Hin Hacc]%list_elem_of_In%filter_In)%list_elem_of_fmap. apply negb_true_iff in Hacc.
    specialize (ok_pending0 x (proj2 (list_elem_of_In _ _) Hin) Hacc). rewrite <- Hx in ok_pending0. change (callIp c) with ip in ok_pending0. congruence.
  - intros x [->|Hx]%elem_of_cons Hst; [done | by apply ok_checked0].
  - intros x status b n seen [->|Hx]%elem_of_cons Hst; [done | by eapply ok_status0].
Qed.

Lemma ok_accept ip seed s : peersOk [] s → peersOk [] (validateAndAcceptPeer cfg ip seed s).
Proof.
  intros Hok. unfold validateAndAcceptPeer. destruct (hasPeer ip s); [done |]. destruct (hasPendingPeer ip s) eqn:Hpend; [done |]. cbn [orb].
  pose proof (ok_validateIp ip seed s Hok) as H1. pose proof (validateIp_frame ip seed s) as Hf.
  destruct (validatePeerIp cfg ip seed s) as [[] s1]; [| done]. cbn [snd] in *. apply ok_acceptNew; [done |].
  rewrite Hf. by apply isSome_false in Hpend.
Qed.

Lemma isBanned_false ip s : (isBanned ip s).1 = false → ∀ until, mapGet (pp_blacklist (isBanned ip s).2) ip = Some until → False.
Proof.
  unfold isBanned. destruct (mapGet (pp_blacklist s) ip) as [u|] eqn:Hb; [| cbn; congruence]. destruct (_ <? _); [done |]. cbn. intros _ until.
  by rewrite mapGet_delete, decide_True.
Qed.

Lemma ok_setPeer c s : peersOk [c] s → checked (ca_stage c) = true → (∀ until, mapGet (pp_blacklist s) (callIp c) = Some until → False) →
  peersOk [c] (setPeer (ca_peer c) s).
Proof.
  intros Hok Hst Hban. destruct (ok_checked _ _ Hok c) as [_ Hv]; [left | done |].
  destruct Hok. constructor; try done; cbn.
  - intros ip p. rewrite mapGet_set. destruct (decide _) as [<-|]; [by intros [= <-] | apply ok_keys0].
  - intros ip until Hb Hlt. rewrite mapGet_set. destruct (decide _) as [<-|]; [by destruct (Hban until) | by eapply ok_ban0].
  - intros ip p. rewrite mapGet_set. destruct (decide _) as [<-|]; [by intros [= <-] | apply ok_vouched0].
Qed.

Lemma ok_onTxPool k verified s : peersOk [] s → peersOk [] (onTxPoolVerified k verified s).
Proof.
  intros Hok. unfold onTxPoolVerified, resume. destruct (pp_calls s !! k) as [c|] eqn:Hk; [| done]. pose proof (ok_resume k c s Hok Hk) as H1.
  set (s1 := s <| pp_calls ::= delete k |>) in *. destruct (ca_stage c) eqn:Hst; try (by apply ok_await_same).
  destruct (ok_checked _ _ H1 c) as [Hc Hv]; [left | by rewrite Hst |]. destruct verified; [| by apply ok_forget].
  pose proof (ok_isBanned _ (po_ip (ca_peer c)) s1 H1) as H2. pose proof (isBanned_false (po_ip (ca_peer c)) s1) as Hfree.
  destruct (isBanned (po_ip (ca_peer c)) s1) as [[] s2]; cbn [negb fst snd] in *; [by apply ok_forget |].
  assert (peersOk [c] (setPeer (ca_peer c) s2)) as H3 by (apply ok_setPeer; [done | by rewrite Hst | by apply Hfree]).
  apply (ok_await c); [done.. | | done]. intros _. apply (ok_checked _ _ H3); [left | by rewrite Hst].
Qed.

Lemma ok_onWorker k answer s : peersOk [] s → peersOk [] (onWorker k answer s).
Proof.
  intros Hok. apply resume_ok; [done |]. intros c s1 H1. destruct (ca_stage c) eqn:Hst; try (by apply ok_await_same).
  destruct answer; [| by eapply ok_drop]. apply (ok_await c); [done.. | | done]. intros _. apply (ok_checked _ _ H1); [left | by rewrite Hst].
Qed.

Lemma ok_onDiscovered k s : peersOk [] s → peersOk [] (onDiscovered k s).
Proof.
  intros Hok. apply resume_ok; [done |]. intros c s1 H1. destruct (ca_stage c) eqn:Hst; try (by apply ok_await_same).
  apply ok_forget; [done |]. apply (ok_checked _ _ H1); [left | by rewrite Hst].
Qed.

Lemma ok_foldl {A} (f : Peers → A → Peers) l s : peersOk [] s → (∀ s x, peersOk [] s → peersOk [] (f s x)) → peersOk [] (foldl f s l).
Proof. intros Hok Hf. revert s Hok. induction l as [|x l IH]; intros s Hok; cbn; [done | by apply IH, Hf]. Qed.

Lemma ok_cleanse order count s : peersOk [] s → peersOk [] (cleansePeers cfg order count s).
Proof.
  intros Hok. unfold cleansePeers. apply ok_foldl; [done |]. intros s1 p H1. apply ok_start. destruct H1. constructor; try done.
  - intros x [->|Hx]%elem_of_cons Hc; [done | by apply ok_pending0].
  - intros x [->|Hx]%elem_of_cons Hc; [done | by apply ok_checked0].
  - intros x status b n seen [->|Hx]%elem_of_cons Hc; [done | by eapply ok_status0].
Qed.

Lemma ok_milestone view s : peersOk [] s → peersOk [] (disconnectInvalidPeers cfg view s).
Proof.
  intros Hok. apply ok_foldl; [done |]. intros s1 p H1. destruct (pp_version s1 (po_id p)); [| by apply ok_dispose].
  destruct (negb _); [by apply ok_dispose | done].
Qed.

Lemma ok_step s s' : peersOk [] s → peerStep cfg s s' → peersOk [] s'.
Proof.
  intros Hok Hstep. revert Hok. destruct Hstep as [ip seed s|k answer view s|k answer view s|k verified s|k answer s|k s|order count s|ip error s|ip s|view s|d s]; intros Hok.
  - by apply ok_accept.
  - by apply ok_onStatus.
  - by apply ok_onBlock.
  - by apply ok_onTxPool.
  - by apply ok_onWorker.
  - by apply ok_onDiscovered.
  - by apply ok_cleanse.
  - by apply ok_banPeer.
  - by apply ok_dispose.
  - by apply ok_milestone.
  - destruct Hok. constructor; try done. cbn. intros ip until Hb Hlt. eapply ok_ban0; [done | lia].
Qed.

Lemma ok_reached now s : rtc (peerStep cfg) (newPeers now) s → peersOk [] s.
Proof. apply (rtc_ind_r (λ s, peersOk [] s)); [apply ok_new | intros y z _ Hstep Hok; by eapply ok_step]. Qed.

(** C20. A banned peer is not a peer: however acceptances, verifications, bans and the
    clock interleave, no address is in the repository while it is banned, although
    it may be banned while its acceptance awaits. *)
Theorem banned_peer_absent now s ip :
  rtc (peerStep cfg) (newPeers now) s → (isBanned ip s).1 = true → hasPeer ip s = false.
Proof.
  intros Hok%ok_reached Hban. unfold hasPeer, mapHas. apply isSome_false. unfold isBanned in Hban.
  destruct (mapGet (pp_blacklist s) ip) as [until|] eqn:Hb; [| done]. destruct (Z.ltb_spec (pp_now s) until); [| done]. by eapply ok_ban.
Qed.

(** C21. Only verified peers are peers.  Unless the check is switched off, each peer
    object of the repository has passed a verification: when its status came, the peer
    named the node's network, a version that was then among those the node accepts, and
    a height, and the node asked for its block of that height or of the node's last
    block, whichever is less; and it sent a commit that parses, for the node's own block
    of that number (its last block, or the one its database had when the answer came),
    with the same number and hash.  While a peer is being accepted it is the pending one
    of its address, and no other call accepts that address. *)
Theorem peers_verified now s :
  rtc (peerStep cfg) (newPeers now) s →
  (∀ ip p, mapGet (pp_peers s) ip = Some p → po_ip p = ip ∧
     (pc_skipPeerStateVerification cfg = false → ∃ v, v ∈ pp_verified s ∧ ve_peer v = p ∧ sound v)) ∧
  NoDup (acceptIps (pp_calls s)) ∧
  (∀ c, c ∈ pp_calls s → ca_cleansing c = false → mapGet (pp_pending s) (callIp c) = Some (ca_peer c)).
Proof.
  intros Hrun. pose proof (ok_reached now s Hrun) as Hok. split_and!.
  - intros ip p Hp. split; [by eapply ok_keys |]. intros Hskip. destruct (ok_vouched _ _ Hok ip p Hp) as [|(v & Hv & Hvp)]; [congruence |].
    exists v. split_and!; [done | done |]. by eapply ok_sound.
  - apply (ok_once _ _ Hok).
  - apply (ok_pending _ _ Hok).
Qed.

(** ** A peer that stays pending *)
Section lost.
Context (ip : string).

(** Pending, with no call behind it. *)
Definition orphaned (active : list Call) (s : Peers) : Prop :=
  mapHas (pp_pending s) ip = true ∧ ip ∉ acceptIps (active ++ pp_calls s).

(** It stays so, and it does not become a peer. *)
Definition keepsLost (active : list Call) (s : Peers) (active' : list Call) (s' : Peers) : Prop :=
  orphaned active s → orphaned active' s' ∧ ∀ p, mapGet (pp_peers s') ip = Some p → mapGet (pp_peers s) ip = Some p.

Lemma lost_refl active s : keepsLost active s active s.
Proof. by intros Ho. Qed.
Lemma lost_trans a s a' s' a'' s'' : keepsLost a s a' s' → keepsLost a' s' a'' s'' → keepsLost a s a'' s''.
Proof. intros H1 H2 Ho. destruct (H1 Ho) as [Ho' Hp]. destruct (H2 Ho') as [Ho'' Hp']. split; [done | auto]. Qed.

(** Steps that change neither the pending peers nor the calls. *)
Lemma lost_frame a s s' : pp_pending s' = pp_pending s → pp_calls s' = pp_calls s →
  (∀ p, mapGet (pp_peers s') ip = Some p → mapGet (pp_peers s) ip = Some p) → keepsLost a s a s'.
Proof. intros Hp Hc Hpe [Ho Hn]. unfold orphaned. by rewrite Hp, Hc. Qed.

Lemma lost_isBanned a ip' s : keepsLost a s a (isBanned ip' s).2.
Proof. rewrite isBanned_frame. by apply lost_frame. Qed.

Lemma lost_dispose a ip' s : keepsLost a s a (disposePeer ip' s).
Proof.
  unfold disposePeer. destruct (mapGet (pp_peers s) ip') as [p|]; [| apply lost_refl]. apply lost_frame; [done | done |].
  intros p'. cbn. rewrite mapGet_delete. by destruct (decide _).
Qed.

Lemma lost_ban a ip' error s : keepsLost a s a (banPeer cfg ip' error s).
Proof.
  unfold banPeer. pose proof (lost_isBanned a ip' s) as H1. destruct (isBanned ip' s) as [[] s1]; [done |]. eapply lost_trans; [exact H1 |].
  destruct error; [apply lost_dispose |]. cbv zeta. eapply lost_trans; [| apply lost_dispose]. destruct (_ <? _); by apply lost_frame.
Qed.

(** Steps of a call. *)
Lemma acceptIps_snoc c l : acceptIps (l ++ [c]) ≡ₚ acceptIps (c :: l).
Proof. apply acceptIps_perm. symmetry. apply Permutation_cons_append. Qed.

Lemma lost_await c c' s : ca_peer c' = ca_peer c → ca_cleansing c' = ca_cleansing c → keepsLost [c] s [] (await c' s).
Proof.
  intros Hp Hc [Ho Hn]. split; [split; [done |] | done]. change (ip ∉ acceptIps (pp_calls s ++ [c'])). rewrite acceptIps_snoc, acceptIps_cons. unfold callIp. rewrite Hp, Hc.
  change ([c] ++ pp_calls s) with (c :: pp_calls s) in Hn. by rewrite acceptIps_cons in Hn.
Qed.

Lemma lost_drop c s : keepsLost [c] s [] s.
Proof.
  intros [Ho Hn]. split; [split; [done |] | done]. change ([c] ++ pp_calls s) with (c :: pp_calls s) in Hn. rewrite acceptIps_cons in Hn.
  destruct (ca_cleansing c); [done | by apply not_elem_of_cons in Hn as [_ ?]].
Qed.

Lemma orphaned_ne c s : orphaned [c] s → ca_cleansing c = false → callIp c ≠ ip.
Proof.
  intros [_ Hn] Hc <-. apply Hn. change ([c] ++ pp_calls s) with (c :: pp_calls s). rewrite acceptIps_cons, Hc. left.
Qed.

Lemma lost_forget c s : ca_cleansing c = false → keepsLost [c] s [] (forgetPendingPeer (ca_peer c) s).
Proof.
  intros Hc Ho. pose proof (orphaned_ne c s Ho Hc) as Hne. destruct (lost_drop c s Ho) as [[Hp Hn] _]. split; [split; [| done] | done].
  unfold mapHas. cbn. rewrite mapGet_delete, decide_False; [exact Hp | exact Hne].
Qed.

Lemma lost_setPeer c s : ca_cleansing c = false → keepsLost [c] s [c] (setPeer (ca_peer c) s).
Proof.
  intros Hc Ho. pose proof (orphaned_ne c s Ho Hc) as Hne. split; [done |]. intros p. cbn. by rewrite mapGet_set, decide_False.
Qed.

Lemma lost_resume k f s :
  (∀ c, pp_calls s !! k = Some c → keepsLost [c] (s <| pp_calls ::= delete k |>) [] (f c (s <| pp_calls ::= delete k |>))) →
  keepsLost [] s [] (resume k f s).
Proof.
  intros Hf. unfold resume. destruct (pp_calls s !! k) as [c|] eqn:Hk; [| apply lost_refl]. eapply lost_trans; [| by apply Hf].
  intros [Ho Hn]. split; [split; [done |] | done]. change (ip ∉ acceptIps (pp_calls s)) in Hn. by rewrite (acceptIps_perm _ _ (delete_Permutation _ _ _ Hk)) in Hn.
Qed.

Lemma lost_afterVerify c verified s : keepsLost [c] s [] (afterVerify c verified s).
Proof.
  unfold afterVerify. destruct (ca_cleansing c) eqn:Hc.
  - eapply lost_trans; [apply lost_drop |]. by apply lost_frame.
  - destruct verified; [by apply lost_await | by apply lost_forget].
Qed.

Lemma lost_fail c error s : keepsLost [c] s [] (failVerify cfg c error s).
Proof. eapply lost_trans; [apply lost_ban | apply lost_afterVerify]. Qed.

Lemma lost_start c s : keepsLost [c] s [] (startVerify cfg c s).
Proof. unfold startVerify. destruct (pc_skipPeerStateVerification cfg); [apply lost_afterVerify | by apply lost_await]. Qed.

Lemma lost_accept ip' seed s : keepsLost [] s [] (validateAndAcceptPeer cfg ip' seed s).
Proof.
  unfold validateAndAcceptPeer. destruct (hasPeer ip' s); [apply lost_refl |]. destruct (hasPendingPeer ip' s) eqn:Hnew; [apply lost_refl |]. cbn [orb].
  pose proof (validateIp_frame ip' seed s) as Hf. destruct (validatePeerIp cfg ip' seed s) as [valid s1]. cbn [snd] in Hf.
  assert (keepsLost [] s [] s1) as H1 by (rewrite Hf; by apply lost_frame). destruct valid; [| done].
  intros Ho. destruct (H1 Ho) as [[Hp Hn] Hpe].
  assert (ip' ≠ ip) as Hne by (intros ->; destruct Ho as [Ho _]; unfold hasPendingPeer in Hnew; congruence).
  unfold acceptNewPeer. cbv zeta. destruct (lost_start (mkCall (mkPeerObject (pp_next s1) ip') false AwaitStatus)
    (setPendingPeer (mkPeerObject (pp_next s1) ip') (s1 <| pp_next ::= S |>))) as [Ho' Hpe']; [| split; [done | auto]].
  split; [unfold mapHas; cbn; by rewrite mapGet_set, decide_False |].
  change (ip ∉ acceptIps (mkCall (mkPeerObject (pp_next s1) ip') false AwaitStatus :: pp_calls s1)). rewrite acceptIps_cons. cbn. by apply not_elem_of_cons.
Qed.

Lemma lost_cleanse order count s : keepsLost [] s [] (cleansePeers cfg order count s).
Proof.
  unfold cleansePeers. generalize (take count (order (List.filter (λ peer, negb (bool_decide (po_ip peer ∈ pp_verifying s))) (getPeers s)))). intros l.
  revert s. induction l as [|p l IH]; intros s; cbn [foldl]; [apply lost_refl |]. eapply lost_trans; [| apply IH].
  eapply lost_trans; [| apply lost_start]. intros [Ho Hn]. split; [split; [done |] | done].
  change (ip ∉ acceptIps (mkCall p true AwaitStatus :: pp_calls s)). by rewrite acceptIps_cons.
Qed.

Lemma lost_milestone view s : keepsLost [] s [] (disconnectInvalidPeers cfg view s).
Proof.
  unfold disconnectInvalidPeers. generalize (getPeers s). intros l. revert s.
  induction l as [|p l IH]; intros s; cbn [foldl]; [apply lost_refl |]. eapply lost_trans; [| apply IH].
  destruct (pp_version s (po_id p)); [| apply lost_dispose]. destruct (negb _); [apply lost_dispose | apply lost_refl].
Qed.

Lemma lost_step s s' : peersOk [] s → peerStep cfg s s' → keepsLost [] s [] s'.
Proof.
  intros Hok Hstep. revert Hok. destruct Hstep as [ip' seed s|k answer view s|k answer view s|k verified s|k answer s|k s|order count s|ip' error s|ip' s|view s|d s]; intros Hok.
  - apply lost_accept.
  - apply lost_resume. intros c Hk. set (s1 := s <| pp_calls ::= delete k |>). destruct (ca_stage c); try (by apply lost_await).
    destruct answer as [error|status]; [apply lost_fail |]. cbv zeta.
    match goal with |- context [failVerify cfg c OtherError ?x] => set (s2 := x) end.
    assert (keepsLost [c] s1 [c] s2) as H2 by (by apply lost_frame). eapply lost_trans; [exact H2 |].
    destruct (negb _); [apply lost_fail |]. destruct (negb _); [apply lost_fail |]. destruct (getLastBlock _); [by apply lost_await | apply lost_fail].
  - apply lost_resume. intros c Hk. set (s1 := s <| pp_calls ::= delete k |>). destruct (ca_stage c); try (by apply lost_await).
    destruct answer as [error|blocks]; [apply lost_fail |]. destruct (commonBlock _ _ _ _) as [[ours theirs]|]; [| apply lost_fail].
    eapply lost_trans; [| apply lost_afterVerify]. by apply lost_frame.
  - apply lost_resume. intros c Hk. destruct (ca_stage c) eqn:Hst; try (by apply lost_await).
    destruct (ok_checked _ _ (ok_resume k c s Hok Hk) c) as [Hc _]; [left | by rewrite Hst |]. set (s1 := s <| pp_calls ::= delete k |>).
    destruct verified; [| by apply lost_forget]. pose proof (lost_isBanned [c] (po_ip (ca_peer c)) s1) as H1.
    destruct (isBanned (po_ip (ca_peer c)) s1) as [[] s2]; (eapply lost_trans; [exact H1 |]); cbn [negb]; [by apply lost_forget |].
    eapply lost_trans; [by apply lost_setPeer | by apply lost_await].
  - apply lost_resume. intros c Hk. destruct (ca_stage c); try (by apply lost_await). destruct answer; [by apply lost_await | apply lost_drop].
  - apply lost_resume. intros c Hk. destruct (ca_stage c) eqn:Hst; try (by apply lost_await). apply lost_forget.
    apply (ok_checked _ _ (ok_resume k c s Hok Hk)); [left | by rewrite Hst].
  - apply lost_cleanse.
  - apply lost_ban.
  - apply lost_dispose.
  - apply lost_milestone.
  - by apply lost_frame.
Qed.

Lemma lost_reached s s' : peersOk [] s → rtc (peerStep cfg) s s' → peersOk [] s' ∧ keepsLost [] s [] s'.
Proof.
  intros Hok Hrun. revert Hok. induction Hrun as [s|s s1 s' Hstep _ IH]; intros Hok; [split; [done | apply lost_refl] |].
  destruct (IH (ok_step s s1 Hok Hstep)) as [Hok' Hk]. split; [done |]. eapply lost_trans; [by apply lost_step | done].
Qed.
End lost.

(** A peer that can never come back.  If the worker of the transaction pool fails
    when it is told of a new peer, the acceptance ends without removing the peer from
    the pending ones.  From then on its address is pending forever, and once the
    peer has been disposed of or banned, it is never accepted again. *)
Theorem failed_acceptance_sticks now s k c e s1 s2 :
  rtc (peerStep cfg) (newPeers now) s → pp_calls s !! k = Some c → ca_stage c = AwaitWorker →
  rtc (peerStep cfg) (onWorker k (Throw e) s) s1 → rtc (peerStep cfg) s1 s2 →
  hasPendingPeer (callIp c) s2 = true ∧ (hasPeer (callIp c) s1 = false → hasPeer (callIp c) s2 = false).
Proof.
  intros Hok%ok_reached Hk Hst Hrun1 Hrun2. pose proof (ok_onWorker k (Throw e) s Hok) as Hok0. pose proof (ok_resume k c s Hok Hk) as Hc.
  destruct (ok_checked _ _ Hc c) as [Hacc _]; [left | by rewrite Hst |].
  assert (orphaned (callIp c) [] (onWorker k (Throw e) s)) as Ho.
  { unfold onWorker, resume. rewrite Hk, Hst. split.
    - unfold mapHas. cbn. by rewrite (ok_pending _ _ Hc c (list_elem_of_here _ _) Hacc : mapGet (pp_pending s) _ = _).
    - pose proof (ok_once _ _ Hc) as Hnd. change (NoDup (acceptIps (c :: delete k (pp_calls s)))) in Hnd. rewrite acceptIps_cons, Hacc in Hnd.
      by apply NoDup_cons in Hnd as [? _]. }
  destruct (lost_reached (callIp c) _ _ Hok0 Hrun1) as [Hok1 Hl1]. destruct (Hl1 Ho) as [Ho1 _].
  destruct (lost_reached (callIp c) _ _ Hok1 Hrun2) as [_ Hl2]. destruct (Hl2 Ho1) as [[Hp _] Hpe]. split; [exact Hp |].
  unfold hasPeer, mapHas. rewrite !isSome_false. intros Hnone. destruct (mapGet (pp_peers s2) (callIp c)) eqn:Hp2; [| done].
  specialize (Hpe _ eq_refl). congruence.
Qed.
End facts.
