(* ===== verification/MessageDownloader.v ===== *)
(** * packages/p2p/source/downloader/message-downloader.ts

    A node that misses votes of the current block asks a peer that has them.  It
    remembers which votes are being asked for, so that two peers are not asked for
    the same one, and bans a peer whose answer lacks what its header promised. *)
From S2P Require Import Prelude Bytes Serializer Messages JsMap Quorum RoundState Processors.

(** ** Headers and jobs

    Of a header, what the downloaders read. *)
Record HeaderData := mkHeaderData {
  hd_blockNumber : Z;
  hd_round : Z;
  hd_validatorsSignedPrevote : list bool;
  hd_validatorsSignedPrecommit : list bool;
  hd_proposedBlockHash : option string;
}.
Record Peer := mkPeer { pe_ip : string; pe_header : HeaderData }.

Record DownloadsByRound := mkDownloadsByRound { dr_prevotes : list bool; dr_precommits : list bool }.

Record DownloadJob := mkDownloadJob {
  mj_isFullDownload : bool;
  mj_peer : Peer;
  mj_ourHeader : HeaderData;
  mj_prevoteIndexes : list Z;
  mj_precommitIndexes : list Z;
  mj_round : Z;
  mj_blockNumber : Z;
}.

(** The two maps of the class; the jobs whose answer is awaited; the peers banned. *)
Record MessageDownloader := mkMessageDownloader {
  md_fullDownloads : JsMap Z (list Z);
  md_downloads : JsMap Z (JsMap Z DownloadsByRound);
  md_jobs : list DownloadJob;
  md_banned : list string;
}.
#[export] Instance eta_MessageDownloader : Eta MessageDownloader := λ d,
  mkMessageDownloader (md_fullDownloads d) (md_downloads d) (md_jobs d) (md_banned d).
Definition newMessageDownloader : MessageDownloader := mkMessageDownloader [] [] [] [].

(** [array[index]] read as a condition. *)
Definition isSet (l : list bool) (index : Z) : bool := if index <? 0 then false else default false (l !! Z.to_nat index).
Definition countTrue (l : list bool) : Z := Z.of_nat (length (List.filter id l)).

Section downloader.
Context (roundValidatorsAt : Z → Z).

Definition getIndexesToDownload (ours theirs messages : list bool) : list Z :=
  List.filter (λ index, negb (isSet messages index) && isSet theirs index && negb (isSet ours index))
    (seqZ 0 (Z.of_nat (length messages))).

Definition getHighestRoundToDownload (ourHeader peerHeader : HeaderData) : Z :=
  if hd_round peerHeader <=? hd_round ourHeader then hd_round peerHeader
  else if isMinority (countTrue (hd_validatorsSignedPrevote peerHeader)) (roundValidatorsAt (hd_blockNumber ourHeader))
       then hd_round peerHeader
       else hd_round peerHeader - 1.

(** [#downloadsByBlockNumber.get(blockNumber)?.get(round)], and setting it. *)
Definition roundDownloads (d : MessageDownloader) (blockNumber round : Z) : option DownloadsByRound :=
  rounds ← mapGet (md_downloads d) blockNumber; mapGet rounds round.
Definition putDownloads (blockNumber round : Z) (x : DownloadsByRound) (d : MessageDownloader) : MessageDownloader :=
  d <| md_downloads ::= λ m, mapSet m blockNumber (mapSet (default [] (mapGet m blockNumber)) round x) |>.

Definition newDownloads (blockNumber : Z) : DownloadsByRound :=
  let none := replicate (Z.to_nat (roundValidatorsAt blockNumber)) false in mkDownloadsByRound none none.

Definition getDownloadsByRound (blockNumber round : Z) : M MessageDownloader DownloadsByRound :=
  d ← get;
  match roundDownloads d blockNumber round with
  | Some x => mret x
  | None => modify (putDownloads blockNumber round (newDownloads blockNumber));; mret (newDownloads blockNumber)
  end.

Definition canDownloadFullRound (blockNumber round : Z) (d : MessageDownloader) : bool :=
  match mapGet (md_fullDownloads d) blockNumber with
  | None | Some [] => true
  | Some (r :: rounds) => foldl Z.max r rounds <? round
  end.

(** [set.add(round)] on the set of a block number that is created if needed. *)
Definition setFullDownload (blockNumber round : Z) (d : MessageDownloader) : MessageDownloader :=
  let rounds := default [] (mapGet (md_fullDownloads d) blockNumber) in
  d <| md_fullDownloads ::= λ m, mapSet m blockNumber (if bool_decide (round ∈ rounds) then rounds else rounds ++ [round]) |>.

Definition prevotesToDownload (ourHeader peerHeader : HeaderData) (x : DownloadsByRound) : list Z :=
  getIndexesToDownload (hd_validatorsSignedPrevote ourHeader) (hd_validatorsSignedPrevote peerHeader) (dr_prevotes x).
Definition precommitsToDownload (ourHeader peerHeader : HeaderData) (x : DownloadsByRound) : list Z :=
  getIndexesToDownload (hd_validatorsSignedPrecommit ourHeader) (hd_validatorsSignedPrecommit peerHeader) (dr_precommits x).

Definition canDownload (ourHeader peerHeader : HeaderData) : M MessageDownloader bool :=
  if negb (hd_blockNumber ourHeader =? hd_blockNumber peerHeader) || (hd_round peerHeader <? hd_round ourHeader) then mret false
  else
    let round := getHighestRoundToDownload ourHeader peerHeader in
    if hd_round ourHeader =? round then
      downloads ← getDownloadsByRound (hd_blockNumber peerHeader) (hd_round peerHeader);
      mret (negb (bool_decide (prevotesToDownload ourHeader peerHeader downloads = []) &&
                  bool_decide (precommitsToDownload ourHeader peerHeader downloads = [])))
    else gets (canDownloadFullRound (hd_blockNumber peerHeader) round).

(** [array[index] = value] for each index. *)
Definition setAll (value : bool) (indexes : list Z) (l : list bool) : list bool :=
  foldl (λ l index, arraySet false l index value) l indexes.
Definition markAll (value : bool) (job : DownloadJob) (x : DownloadsByRound) : DownloadsByRound :=
  mkDownloadsByRound (setAll value (mj_prevoteIndexes job) (dr_prevotes x))
    (setAll value (mj_precommitIndexes job) (dr_precommits x)).

(** The request is sent: its answer is [finish]ed later. *)
Definition startJob (job : DownloadJob) : M MessageDownloader unit := modify (λ d, d <| md_jobs ::= λ l, l ++ [job] |>).

(** [download]; [busy] is [blockDownloader.isDownloading()]. *)
Definition download (busy : bool) (ourHeader : HeaderData) (peer : Peer) : M MessageDownloader unit :=
  let peerHeader := pe_header peer in
  if busy then mret tt
  else
    can ← canDownload ourHeader peerHeader;
    if negb can then mret tt
    else
      let round := getHighestRoundToDownload ourHeader peerHeader in
      if hd_round ourHeader =? round then
        downloads ← getDownloadsByRound (hd_blockNumber peerHeader) (hd_round peerHeader);
        let job := mkDownloadJob false peer ourHeader (prevotesToDownload ourHeader peerHeader downloads)
                     (precommitsToDownload ourHeader peerHeader downloads) round (hd_blockNumber ourHeader) in
        modify (putDownloads (hd_blockNumber peerHeader) (hd_round peerHeader) (markAll true job downloads));;
        startJob job
      else if hd_round ourHeader <? hd_round peerHeader then
        modify (setFullDownload (hd_blockNumber peerHeader) round);;
        startJob (mkDownloadJob true peer ourHeader [] [] round (hd_blockNumber ourHeader))
      else mret tt.

(** [peers.filter(peer => this.#canDownload(header, peer.header))] *)
Fixpoint downloadable (ourHeader : HeaderData) (peers : list Peer) : M MessageDownloader (list Peer) :=
  match peers with
  | [] => mret []
  | peer :: rest =>
      can ← canDownload ourHeader (pe_header peer);
      others ← downloadable ourHeader rest;
      mret (if can : bool then peer :: others else others)
  end.

(** The loop of [tryToDownload]; [pick] are the random numbers of [getRandomPeer]. *)
Fixpoint tryLoop (fuel : nat) (pick : nat → nat) (ourHeader : HeaderData) (peers : list Peer) : M MessageDownloader unit :=
  peers' ← downloadable ourHeader peers;
  match peers' !! (pick fuel mod length peers')%nat with
  | None => mret tt
  | Some peer =>
      match fuel with
      | O => throw OutOfFuel
      | S fuel' => download false ourHeader peer;; tryLoop fuel' pick ourHeader peers'
      end
  end.
Definition tryToDownload (busy : bool) (pick : nat → nat) (ourHeader : HeaderData) (peers : list Peer) : M MessageDownloader unit :=
  if busy then mret tt else tryLoop (length peers) pick ourHeader peers.

(** ** The answer *)
Definition checkMessage (message firstMessage : Message) (job : DownloadJob) : result unit :=
  guardR ((msg_blockNumber message =? msg_blockNumber firstMessage) && (msg_round message =? msg_round firstMessage))
    (JSError "Received message blockNumber and round does not match expected");;
  guardR (msg_blockNumber message =? mj_blockNumber job) (JSError "Received message blockNumber does not match expected");;
  guardR (mj_round job <=? msg_round message) (JSError "Received message round is lower than requested round").

(** One of the two loops over the messages of an answer.  An entry is what the
    factory makes of the bytes and what the processor answers. *)
Fixpoint receive (job : DownloadJob) (first : option Message) (received : JsMap Z Message)
    (answer : list (result Message * result ProcessorResult)) : result (JsMap Z Message) :=
  match answer with
  | [] => Ok received
  | (parsed, response) :: rest =>
      message ← parsed;
      let firstMessage := default message first in
      checkMessage message firstMessage job;;
      result ← response;
      guardR (negb (bool_decide (result = Invalid))) (JSError "Received message is invalid");;
      receive job (Some firstMessage) (mapSet received (msg_validatorIndex message) message) rest
  end.

(** [counts] are [ourHeader]'s votes at this moment: its arrays are those of the
    round state. *)
Definition checkFullRoundResponse (prevotes precommits : JsMap Z Message) (job : DownloadJob) (counts : Z * Z) : result unit :=
  let roundValidators := roundValidatorsAt (mj_blockNumber job) in
  guardR (isMajority (mapSize prevotes + counts.1) roundValidators)
    (JSError "Peer didn't return enough prevotes for +2/3 majority");;
  guardR (isMajority (mapSize precommits + counts.2) roundValidators)
    (JSError "Peer didn't return enough precommits for +2/3 majority").

Definition checkPartialRoundResponse (prevotes precommits : JsMap Z Message) (job : DownloadJob) : result unit :=
  guardR (forallb (mapHas prevotes) (mj_prevoteIndexes job)) (JSError "Missing prevote for validator");;
  guardR (forallb (mapHas precommits) (mj_precommitIndexes job)) (JSError "Missing precommit for validator").

Definition checkResponse (prevotes precommits : JsMap Z Message) (job : DownloadJob) (counts : Z * Z) : result unit :=
  match mapValues prevotes ++ mapValues precommits with
  | [] => Ok tt
  | received :: _ =>
      if hd_round (mj_ourHeader job) <? msg_round received then checkFullRoundResponse prevotes precommits job counts
      else checkPartialRoundResponse prevotes precommits job
  end.

(** What a peer answered: the call failed, or two lists of messages. *)
Definition Answer : Type :=
  result (list (result Message * result ProcessorResult) * list (result Message * result ProcessorResult)).

Definition checkAnswer (job : DownloadJob) (answer : Answer) (counts : Z * Z) : result unit :=
  '(prevotes, precommits) ← answer;
  prevotes ← receive job None [] prevotes;
  precommits ← receive job None [] precommits;
  checkResponse prevotes precommits job counts.

Definition removeFullDownloadJob (job : DownloadJob) (d : MessageDownloader) : MessageDownloader :=
  match mapGet (md_fullDownloads d) (mj_blockNumber job) with
  | None => d
  | Some rounds =>
      let rounds' := List.filter (λ r, negb (r =? mj_round job)) rounds in
      d <| md_fullDownloads ::= λ m,
             if bool_decide (rounds' = []) then mapDelete m (mj_blockNumber job)
             else mapSet m (mj_blockNumber job) rounds' |>
  end.

(** Nothing of the round is being downloaded. *)
Definition gone (x : DownloadsByRound) : bool := forallb negb (dr_prevotes x) && forallb negb (dr_precommits x).

Definition removePartialDownloadJob (job : DownloadJob) (d : MessageDownloader) : MessageDownloader :=
  match mapGet (md_downloads d) (mj_blockNumber job) with
  | None => d
  | Some rounds =>
      match mapGet rounds (mj_round job) with
      | None => d
      | Some x =>
          let x' := markAll false job x in
          let rounds' := if gone x' then mapDelete rounds (mj_round job) else mapSet rounds (mj_round job) x' in
          d <| md_downloads ::= λ m,
                 if bool_decide (rounds' = []) then mapDelete m (mj_blockNumber job)
                 else mapSet m (mj_blockNumber job) rounds' |>
      end
  end.

Definition removeDownloadJob (job : DownloadJob) : MessageDownloader → MessageDownloader :=
  if mj_isFullDownload job then removeFullDownloadJob job else removePartialDownloadJob job.

(** [#downloadMessagesFromPeer] from the answer on, for the [k]-th job awaited;
    [peers] is the repository once the peer may have been banned. *)
Definition finish (k : nat) (answer : Answer) (counts : Z * Z) (busy : bool) (pick : nat → nat) (ourHeader : HeaderData)
    (peers : list Peer) : M MessageDownloader unit :=
  d ← get;
  match md_jobs d !! k with
  | None => mret tt
  | Some job =>
      modify (λ d, d <| md_jobs ::= delete k |>);;
      modify (removeDownloadJob job);;
      match checkAnswer job answer counts with
      | Ok _ => mret tt
      | Throw _ =>
          modify (λ d, d <| md_banned ::= λ l, l ++ [pe_ip (mj_peer job)] |>);;
          tryToDownload busy pick ourHeader peers
      end
  end.

(** The listener of [BlockEvent.Applied]. *)
Definition onBlockApplied (number : Z) (d : MessageDownloader) : MessageDownloader :=
  d <| md_downloads ::= λ m, mapDelete m number |> <| md_fullDownloads ::= λ m, mapDelete m number |>.

Definition isDownloading (d : MessageDownloader) : bool :=
  (0 <? mapSize (md_downloads d)) || (0 <? mapSize (md_fullDownloads d)).

End downloader.

(** ** The marks

    The two kinds of votes are treated alike. *)
Inductive Kind := Prevotes | Precommits.
Definition votes (k : Kind) (x : DownloadsByRound) : list bool := match k with Prevotes => dr_prevotes x | Precommits => dr_precommits x end.
Definition indexes (k : Kind) (job : DownloadJob) : list Z :=
  match k with Prevotes => mj_prevoteIndexes job | Precommits => mj_precommitIndexes job end.
Definition signedBy (k : Kind) (h : HeaderData) : list bool :=
  match k with Prevotes => hd_validatorsSignedPrevote h | Precommits => hd_validatorsSignedPrecommit h end.

Lemma isSet_range l i : isSet l i = true → 0 ≤ i < Z.of_nat (length l).
Proof.
  unfold isSet. destruct (Z.ltb_spec i 0); [done |]. destruct (l !! Z.to_nat i) eqn:Hl; [| done]. intros _.
  apply lookup_lt_Some in Hl. lia.
Qed.

Lemma isSet_arraySet l i v j :
  0 ≤ i < Z.of_nat (length l) → isSet (arraySet false l i v) j = if decide (j = i) then v else isSet l j.
Proof.
  intros Hi. unfold isSet. destruct (Z.ltb_spec j 0); [rewrite decide_False by lia; done |].
  rewrite (arraySet_lookup false l i v) by done. rewrite Z2Nat.id by lia. by case_decide.
Qed.

Lemma setAll_spec v il l :
  (∀ i, i ∈ il → 0 ≤ i < Z.of_nat (length l)) →
  length (setAll v il l) = length l ∧ ∀ j, isSet (setAll v il l) j = if decide (j ∈ il) then v else isSet l j.
Proof.
  revert l. induction il as [|i il IH]; intros l Hin.
  { split; [done |]. intros j. rewrite decide_False; [done |]. apply not_elem_of_nil. }
  change (setAll v (i :: il) l) with (setAll v il (arraySet false l i v)).
  assert (0 ≤ i < Z.of_nat (length l)) as Hi by (apply Hin; left). pose proof (arraySet_length false l i v Hi) as Hlen.
  destruct (IH (arraySet false l i v)) as [Hl Hs]; [intros j Hj; rewrite Hlen; apply Hin; by right |].
  split; [congruence |]. intros j. rewrite Hs, isSet_arraySet by done.
  destruct (decide (j ∈ il)) as [Hj|Hj]; [rewrite decide_True by (by right); done |].
  destruct (decide (j = i)) as [->|Hne]; [rewrite decide_True by left; done |].
  rewrite decide_False; [done |]. by intros [?|?]%elem_of_cons.
Qed.

Lemma elem_getIndexes ours theirs messages i :
  i ∈ getIndexesToDownload ours theirs messages ↔
  0 ≤ i < Z.of_nat (length messages) ∧ isSet messages i = false ∧ isSet theirs i = true ∧ isSet ours i = false.
Proof.
  unfold getIndexesToDownload. rewrite list_elem_of_In, filter_In, <- list_elem_of_In, elem_of_seqZ, !andb_true_iff, !negb_true_iff.
  lia || (split; [intros (? & [? ?] & ?); repeat split; done || lia | intros (? & ? & ? & ?); repeat split; done || lia]).
Qed.

Section marks.
Context (rv : Z → Z).

(** What is recorded for a round; nothing, until it is first asked for. *)
Definition entry (d : MessageDownloader) (n r : Z) : DownloadsByRound := default (newDownloads rv n) (roundDownloads d n r).
Definition marked (k : Kind) (d : MessageDownloader) (n r i : Z) : bool := isSet (votes k (entry d n r)) i.

Lemma votes_new k n : votes k (newDownloads rv n) = replicate (Z.to_nat (rv n)) false.
Proof. by destruct k. Qed.
Lemma votes_markAll k v job x : votes k (markAll v job x) = setAll v (indexes k job) (votes k x).
Proof. by destruct k. Qed.

Lemma isSet_replicate n i : isSet (replicate n false) i = false.
Proof.
  unfold isSet. destruct (i <? 0); [done |]. destruct (replicate n false !! Z.to_nat i) eqn:Hl; [| done].
  by apply lookup_replicate in Hl as [-> _].
Qed.

Lemma roundDownloads_put d n r x n' r' :
  roundDownloads (putDownloads n r x d) n' r' = if decide (n = n' ∧ r = r') then Some x else roundDownloads d n' r'.
Proof.
  unfold roundDownloads, putDownloads. cbn. rewrite mapGet_set. destruct (decide (n = n')) as [<-|Hn]; cbn.
  - rewrite mapGet_set. destruct (decide (r = r')) as [<-|Hr]; [by rewrite decide_True |].
    rewrite decide_False by naive_solver. by destruct (mapGet (md_downloads d) n).
  - rewrite decide_False by naive_solver. done.
Qed.

Lemma entry_put d n r x n' r' :
  entry (putDownloads n r x d) n' r' = if decide (n = n' ∧ r = r') then x else entry d n' r'.
Proof. unfold entry. rewrite roundDownloads_put. by case_decide. Qed.

(** Looking something up records nothing. *)
Record idleMD (d d' : MessageDownloader) : Prop := {
  id_entry : ∀ n r, entry d' n r = entry d n r;
  id_full : md_fullDownloads d' = md_fullDownloads d;
  id_jobs : md_jobs d' = md_jobs d;
}.
#[export] Instance idleMD_preorder : PreOrder idleMD.
Proof. split; [done |]. intros d1 d2 d3 [] []. split; congruence. Qed.

Lemma getDownloads_run n r d :
  ∃ d', getDownloadsByRound rv n r d = (Ok (entry d n r), d') ∧ idleMD d d'.
Proof.
  unfold getDownloadsByRound, mbind, M_bind, get. unfold entry. destruct (roundDownloads d n r) as [x|] eqn:Hx; [by exists d |].
  exists (putDownloads n r (newDownloads rv n) d). split; [done |]. split; [| done | done].
  intros n' r'. rewrite entry_put. case_decide as Heq; [| done]. destruct Heq as [<- <-]. unfold entry. by rewrite Hx.
Qed.

(** Whether there is something to ask a peer for. *)
Definition able (ourHeader peerHeader : HeaderData) (d : MessageDownloader) : bool :=
  if negb (hd_blockNumber ourHeader =? hd_blockNumber peerHeader) || (hd_round peerHeader <? hd_round ourHeader) then false
  else
    let round := getHighestRoundToDownload rv ourHeader peerHeader in
    if hd_round ourHeader =? round then
      let x := entry d (hd_blockNumber peerHeader) (hd_round peerHeader) in
      negb (bool_decide (prevotesToDownload ourHeader peerHeader x = []) && bool_decide (precommitsToDownload ourHeader peerHeader x = []))
    else canDownloadFullRound (hd_blockNumber peerHeader) round d.

Lemma able_idle our h d d' : idleMD d d' → able our h d' = able our h d.
Proof. intros [He Hf _]. unfold able, canDownloadFullRound. by rewrite He, Hf. Qed.

Lemma canDownload_run our h d : ∃ d', canDownload rv our h d = (Ok (able our h d), d') ∧ idleMD d d'.
Proof.
  unfold canDownload, able. destruct (_ || _); [by exists d |]. cbv zeta. destruct (_ =? _); [| by exists d].
  destruct (getDownloads_run (hd_blockNumber h) (hd_round h) d) as (d' & Hrun & Hid). exists d'.
  by rewrite (M_bind_run _ _ _ _ _ Hrun).
Qed.

Lemma downloadable_run our peers d :
  ∃ d', downloadable rv our peers d = (Ok (List.filter (λ p, able our (pe_header p) d) peers), d') ∧ idleMD d d'.
Proof.
  revert d. induction peers as [|p peers IH]; intros d; cbn [downloadable List.filter]; [by exists d |].
  destruct (canDownload_run our (pe_header p) d) as (d1 & Hrun & H1). rewrite (M_bind_run _ _ _ _ _ Hrun).
  destruct (IH d1) as (d2 & Hrun2 & H2). exists d2. rewrite (M_bind_run _ _ _ _ _ Hrun2). split; [| by etransitivity].
  assert (List.filter (λ p, able our (pe_header p) d1) peers = List.filter (λ p, able our (pe_header p) d) peers) as ->; [| done].
  apply filter_ext. intros q. by apply able_idle.
Qed.

(** ** Asking a peer *)
Definition partialJob (our : HeaderData) (p : Peer) (d : MessageDownloader) : DownloadJob :=
  let h := pe_header p in
  let x := entry d (hd_blockNumber h) (hd_round h) in
  mkDownloadJob false p our (prevotesToDownload our h x) (precommitsToDownload our h x)
    (getHighestRoundToDownload rv our h) (hd_blockNumber our).

Definition fullJob (our : HeaderData) (p : Peer) : DownloadJob :=
  mkDownloadJob true p our [] [] (getHighestRoundToDownload rv our (pe_header p)) (hd_blockNumber our).

Lemma indexes_full k our p : indexes k (fullJob our p) = [].
Proof. by destruct k. Qed.

Lemma indexes_partial k our p d :
  indexes k (partialJob our p d) =
  getIndexesToDownload (signedBy k our) (signedBy k (pe_header p))
    (votes k (entry d (hd_blockNumber (pe_header p)) (hd_round (pe_header p)))).
Proof. by destruct k. Qed.

(** Either nothing is asked, or the missing votes are, or a later round is. *)
Inductive asked (our : HeaderData) (p : Peer) (d d' : MessageDownloader) : Prop :=
  | asked_nothing : able our (pe_header p) d = false → idleMD d d' → asked our p d d'
  | asked_partial :
      able our (pe_header p) d = true → hd_blockNumber our = hd_blockNumber (pe_header p) →
      hd_round our = getHighestRoundToDownload rv our (pe_header p) →
      (∀ n r, entry d' n r =
        if decide (hd_blockNumber our = n ∧ hd_round (pe_header p) = r) then markAll true (partialJob our p d) (entry d n r) else entry d n r) →
      md_fullDownloads d' = md_fullDownloads d → md_jobs d' = md_jobs d ++ [partialJob our p d] → asked our p d d'
  | asked_full :
      able our (pe_header p) d = true →
      canDownloadFullRound (hd_blockNumber (pe_header p)) (getHighestRoundToDownload rv our (pe_header p)) d' = false →
      (∀ n r, canDownloadFullRound n r d' = true → canDownloadFullRound n r d = true) →
      hd_round our ≠ getHighestRoundToDownload rv our (pe_header p) →
      (∀ n r, entry d' n r = entry d n r) → md_jobs d' = md_jobs d ++ [fullJob our p] → asked our p d d'.

Lemma max_ge r rounds x : x ∈ r :: rounds → x ≤ foldl Z.max r rounds.
Proof.
  revert r x. induction rounds as [|y rounds IH]; intros r x; cbn; [intros ->%list_elem_of_singleton; lia |].
  assert (Z.max r y ≤ foldl Z.max (Z.max r y) rounds) as Hle by (apply IH; left).
  rewrite !elem_of_cons. intros [->|[->|Hx]]; [lia.. |]. apply IH. by right.
Qed.

Lemma setFull_covers n r d : canDownloadFullRound n r (setFullDownload n r d) = false.
Proof.
  unfold canDownloadFullRound, setFullDownload. cbn. rewrite mapGet_set_eq.
  match goal with |- context [if ?c then ?a else ?b] => set (l := if c then a else b) end.
  assert (r ∈ l) as Hr by (subst l; case_bool_decide; [done | apply elem_of_app; right; left]).
  destruct l as [|x l]; [by apply elem_of_nil in Hr |]. apply Z.ltb_ge. by apply max_ge.
Qed.

Lemma max_mono a b l : a ≤ b → foldl Z.max a l ≤ foldl Z.max b l.
Proof. revert a b. induction l as [|x l IH]; intros a b Hab; cbn; [done |]. apply IH. lia. Qed.

Lemma setFull_mono n r d n' r' :
  canDownloadFullRound n' r' (setFullDownload n r d) = true → canDownloadFullRound n' r' d = true.
Proof.
  unfold canDownloadFullRound, setFullDownload. cbn. rewrite mapGet_set. destruct (decide (n = n')) as [<-|]; [| done].
  destruct (mapGet (md_fullDownloads d) n) as [[|x l]|] eqn:Hm; [done | | done]. cbn [default].
  case_bool_decide; [done |]. cbn. rewrite foldl_app. cbn. rewrite !Z.ltb_lt. lia.
Qed.

Lemma download_asked our p d : ∃ d', download rv false our p d = (Ok tt, d') ∧ asked our p d d'.
Proof.
  unfold download. cbv zeta. destruct (canDownload_run our (pe_header p) d) as (d1 & Hrun & Hid).
  rewrite (M_bind_run _ _ _ _ _ Hrun). destruct (able our (pe_header p) d) eqn:Hable; cbn [negb]; [| exists d1; split; [done | by apply asked_nothing]].
  pose proof Hable as Hable'. unfold able in Hable'. destruct (_ || _) eqn:Hguard; [done |]. clear Hable'. simpl_bool.
  destruct (Z.eqb_spec (hd_round our) (getHighestRoundToDownload rv our (pe_header p))) as [Hr|Hr].
  - destruct (getDownloads_run (hd_blockNumber (pe_header p)) (hd_round (pe_header p)) d1) as (d2 & Hrun2 & Hid2).
    rewrite (M_bind_run _ _ _ _ _ Hrun2). assert (idleMD d d2) as [He Hf Hj] by (by etransitivity).
    rewrite (id_entry _ _ Hid). change (mkDownloadJob false p our _ _ _ _) with (partialJob our p d).
    eexists. split; [reflexivity |]. apply asked_partial; try done; [| cbn; by rewrite Hj].
    intros n r. etransitivity; [apply (entry_put d2) |]. rewrite He, H. case_decide as Heq; [| done]. by destruct Heq as [<- <-].
  - destruct (Z.ltb_spec (hd_round our) (hd_round (pe_header p))) as [Hlt|Hge].
    + eexists. split; [reflexivity |]. apply asked_full; try done; [apply setFull_covers | | |].
      * intros n r Hc%setFull_mono. unfold canDownloadFullRound in *. by rewrite (id_full _ _ Hid) in Hc.
      * intros n r. apply (id_entry _ _ Hid).
      * cbn. by rewrite (id_jobs _ _ Hid).
    + exfalso. apply Hr. unfold getHighestRoundToDownload. rewrite (proj2 (Z.leb_le _ _)) by done. lia.
Qed.

(** Whoever was asked has nothing more to be asked for. *)
Lemma asked_unable our p d d' : asked our p d d' → able our (pe_header p) d' = false.
Proof.
  intros [Hab Hid|Hab Hn Hr He Hf Hj|Hab Hcov _ Hr He Hj].
  - by rewrite (able_idle _ _ _ _ Hid).
  - unfold able. rewrite Hn, Z.eqb_refl. cbn [negb orb]. destruct (_ <? _); [done |]. rewrite <- Hr, Z.eqb_refl.
    rewrite He. rewrite decide_True by done.
    assert (∀ k, getIndexesToDownload (signedBy k our) (signedBy k (pe_header p))
      (votes k (markAll true (partialJob our p d) (entry d (hd_blockNumber (pe_header p)) (hd_round (pe_header p))))) = []) as Hnone.
    { intros k. apply elem_of_nil_inv. intros i (Hi & Hm & Ht & Ho)%elem_getIndexes. rewrite votes_markAll, indexes_partial in *.
      set (l := votes k _) in *. destruct (setAll_spec true (getIndexesToDownload (signedBy k our) (signedBy k (pe_header p)) l) l) as [Hl Hs].
      { by intros j [? _]%elem_getIndexes. }
      rewrite Hl in Hi. rewrite Hs in Hm. case_decide as Hin; [done |]. apply Hin, elem_getIndexes. done. }
    unfold prevotesToDownload, precommitsToDownload. pose proof (Hnone Prevotes) as H1. pose proof (Hnone Precommits) as H2. cbn in H1, H2.
    cbn. by rewrite H1, H2.
  - unfold able. destruct (_ || _); [done |]. cbv zeta. by rewrite (proj2 (Z.eqb_neq _ _)).
Qed.

(** ** The loop over the peers ends *)
Lemma filter_shrinks {A} (f g : A → bool) (l : list A) x :
  (∀ y, f y = true → g y = true) → x ∈ l → g x = true → f x = false →
  (length (List.filter f l) < length (List.filter g l))%nat.
Proof.
  intros Hfg. induction l as [|y l IH]; [by intros ?%elem_of_nil |].
  assert (length (List.filter f l) ≤ length (List.filter g l))%nat as Hle.
  { clear IH. induction l as [|z l IHl]; cbn; [done |]. destruct (f z) eqn:Hz; [rewrite (Hfg z Hz); cbn; lia |]. destruct (g z); cbn; lia. }
  intros [->|Hx]%elem_of_cons Hg Hf; cbn.
  - rewrite Hf, Hg. cbn. lia.
  - specialize (IH Hx Hg Hf). destruct (f y) eqn:Hy; [rewrite (Hfg y Hy); cbn; lia |]. destruct (g y); cbn; lia.
Qed.

Lemma able_partial_mono our q job d d' n r :
  (∀ n' r', entry d' n' r' = if decide (n = n' ∧ r = r') then markAll true job (entry d n' r') else entry d n' r') →
  (∀ k i, i ∈ indexes k job → 0 ≤ i < Z.of_nat (length (votes k (entry d n r)))) →
  md_fullDownloads d' = md_fullDownloads d → able our q d' = true → able our q d = true.
Proof.
  intros He Hin Hf. unfold able. destruct (_ || _); [done |]. cbv zeta. destruct (_ =? _); [| unfold canDownloadFullRound; by rewrite Hf].
  rewrite He. case_decide as Heq; [| done]. destruct Heq as [<- <-].
  assert (∀ k l l', getIndexesToDownload l l' (votes k (entry d n r)) = [] →
    getIndexesToDownload l l' (votes k (markAll true job (entry d n r))) = []) as Hsub.
  { intros k l l' Hnil. apply elem_of_nil_inv. intros i (Hi & Hm & Ht & Ho)%elem_getIndexes. rewrite votes_markAll in *.
    destruct (setAll_spec true (indexes k job) (votes k (entry d n r)) (Hin k)) as [Hl Hs]. rewrite Hl in Hi. rewrite Hs in Hm.
    case_decide; [done |]. assert (i ∈ getIndexesToDownload l l' (votes k (entry d n r))) as Hi' by (by apply elem_getIndexes).
    rewrite Hnil in Hi'. by apply elem_of_nil in Hi'. }
  rewrite !negb_true_iff, !andb_false_iff, !bool_decide_eq_false. unfold prevotesToDownload, precommitsToDownload.
  intros [Hne|Hne]; [left | right]; intros Hnil; apply Hne.
  - by apply (Hsub Prevotes).
  - by apply (Hsub Precommits).
Qed.

Lemma partial_range our p d k i :
  i ∈ indexes k (partialJob our p d) → 0 ≤ i < Z.of_nat (length (votes k (entry d (hd_blockNumber (pe_header p)) (hd_round (pe_header p))))).
Proof. rewrite indexes_partial. by intros [? _]%elem_getIndexes. Qed.

Lemma asked_able our p q d d' : asked our p d d' → able our q d' = true → able our q d = true.
Proof.
  intros [_ Hid|_ Hn Hr He Hf Hj|_ _ Hmono _ He Hj].
  - by rewrite (able_idle _ _ _ _ Hid).
  - apply (able_partial_mono our q (partialJob our p d) d d' _ _ He); [| done]. intros k i Hi. rewrite Hn. by apply (partial_range our).
  - unfold able. destruct (_ || _); [done |]. cbv zeta. rewrite He. destruct (_ =? _); [done | apply Hmono].
Qed.

Lemma asked_jobs our p d d' : asked our p d d' → (length (md_jobs d') ≤ S (length (md_jobs d)))%nat.
Proof. intros [_ Hid|_ _ _ _ _ ->|_ _ _ _ _ ->]; [rewrite (id_jobs _ _ Hid) | rewrite length_app; cbn ..]; lia. Qed.

(** A sequence of requests to peers of the list. *)
Definition requests (our : HeaderData) (peers : list Peer) : relation MessageDownloader :=
  rtc (λ d d', idleMD d d' ∨ ∃ p, p ∈ peers ∧ asked our p d d').

Lemma tryLoop_run fuel pick our peers d :
  (length (List.filter (λ p, able our (pe_header p) d) peers) ≤ fuel)%nat →
  ∃ d', tryLoop rv fuel pick our peers d = (Ok tt, d') ∧ requests our peers d d' ∧ (length (md_jobs d') ≤ length (md_jobs d) + fuel)%nat.
Proof.
  revert peers d. induction fuel as [|fuel IH]; intros peers d Hlen; cbn [tryLoop];
    destruct (downloadable_run our peers d) as (d1 & Hrun & Hid); rewrite (M_bind_run _ _ _ _ _ Hrun);
    set (ready := List.filter _ peers) in *; destruct (ready !! _) as [p|] eqn:Hp;
    try (exists d1; split; [done |]; split; [apply rtc_once; by left | rewrite (id_jobs _ _ Hid); lia]).
  { destruct ready; [done | cbn in Hlen; lia]. }
  assert (p ∈ ready) as Hin by (by eapply list_elem_of_lookup_2). pose proof Hin as [Hpeer Hab]%list_elem_of_In%filter_In.
  apply list_elem_of_In in Hpeer. destruct (download_asked our p d1) as (d2 & Hrun2 & Hasked). rewrite (M_bind_run _ _ _ _ _ Hrun2).
  destruct (IH ready d2) as (d3 & Hrun3 & Hreq & Hmore).
  { assert (length (List.filter (λ p, able our (pe_header p) d2) ready) < length (List.filter (λ p, able our (pe_header p) d) ready))%nat as Hlt.
    { apply (filter_shrinks _ _ _ p); [| done | done | by apply (asked_unable our p d1)].
      intros q Hq. rewrite <- (able_idle our (pe_header q) d d1 Hid). by eapply asked_able. }
    assert (length (List.filter (λ p, able our (pe_header p) d) ready) ≤ length ready)%nat by apply filter_length_le. lia. }
  exists d3. split; [done |]. split; [| pose proof (asked_jobs _ _ _ _ Hasked); rewrite (id_jobs _ _ Hid) in *; lia].
  eapply rtc_l; [by left |]. eapply rtc_l; [right; by exists p |].
  eapply rtc_subrel; [| exact Hreq]. intros a b [?|(q & Hq & ?)]; [by left | right]. exists q. split; [| done].
  apply list_elem_of_In, filter_In in Hq as [Hq _]. by apply list_elem_of_In.
Qed.

(** ** Who asks for what *)
Definition holds (k : Kind) (n r i : Z) (job : DownloadJob) : bool :=
  (mj_blockNumber job =? n) && (mj_round job =? r) && bool_decide (i ∈ indexes k job).
Definition asking (k : Kind) (n r i : Z) (jobs : list DownloadJob) : nat := length (List.filter (holds k n r i) jobs).

Lemma asking_app k n r i l l' : asking k n r i (l ++ l') = (asking k n r i l + asking k n r i l')%nat.
Proof. unfold asking. by rewrite List.filter_app, length_app. Qed.
Lemma asking_one k n r i job : asking k n r i [job] = Nat.b2n (holds k n r i job).
Proof. unfold asking. cbn. by destruct (holds k n r i job). Qed.

(** Outside the block numbers [applied], a vote is marked exactly while one job
    asks for it. *)
Record marksOk (applied : list Z) (d : MessageDownloader) : Prop := {
  mo_length : ∀ k n r, length (votes k (entry d n r)) = Z.to_nat (rv n);
  mo_range : ∀ k job i, job ∈ md_jobs d → i ∈ indexes k job → 0 ≤ i < Z.of_nat (Z.to_nat (rv (mj_blockNumber job)));
  mo_full : ∀ k job, job ∈ md_jobs d → mj_isFullDownload job = true → indexes k job = [];
  mo_count : ∀ k n r i, n ∉ applied → asking k n r i (md_jobs d) = Nat.b2n (marked k d n r i);
}.

Lemma holds_true k n r i job : holds k n r i job = true ↔ mj_blockNumber job = n ∧ mj_round job = r ∧ i ∈ indexes k job.
Proof. unfold holds. rewrite !andb_true_iff, !Z.eqb_eq, bool_decide_eq_true. tauto. Qed.

Lemma holds_none k n r i job : indexes k job = [] → holds k n r i job = false.
Proof. intros Hnil. apply not_true_iff_false. rewrite holds_true, Hnil. by intros (_ & _ & ?%elem_of_nil). Qed.

Lemma marksOk_idle applied d d' : idleMD d d' → marksOk applied d → marksOk applied d'.
Proof.
  intros [He Hf Hj] [H1 H2 H3 H4]. split; rewrite ?Hj; try done.
  - intros k n r. by rewrite He.
  - intros k n r i Hn. unfold marked. rewrite He. by apply H4.
Qed.

(** The peer is not one round ahead with too few prevotes for that round. *)
Definition aligned (our h : HeaderData) : Prop :=
  hd_round our = getHighestRoundToDownload rv our h → hd_round h = hd_round our.

Lemma marked_partial our p d d' k n r i :
  hd_blockNumber our = hd_blockNumber (pe_header p) →
  (∀ n r, entry d' n r =
    if decide (hd_blockNumber our = n ∧ hd_round (pe_header p) = r) then markAll true (partialJob our p d) (entry d n r) else entry d n r) →
  length (votes k (entry d' n r)) = length (votes k (entry d n r)) ∧
  marked k d' n r i = marked k d n r i ||
    (bool_decide (hd_blockNumber our = n ∧ hd_round (pe_header p) = r) && bool_decide (i ∈ indexes k (partialJob our p d))).
Proof.
  intros Hn He. unfold marked. rewrite He. case_decide as Heq; [| rewrite bool_decide_eq_false_2 by done; by rewrite orb_false_r].
  rewrite bool_decide_eq_true_2 by done. destruct Heq as [<- <-]. rewrite votes_markAll.
  destruct (setAll_spec true (indexes k (partialJob our p d)) (votes k (entry d (hd_blockNumber our) (hd_round (pe_header p))))) as [Hl Hs].
  { intros j Hj. rewrite Hn. by apply (partial_range our). }
  split; [done |]. rewrite Hs. cbn [andb]. case_decide; [rewrite bool_decide_eq_true_2 by done; by rewrite orb_true_r |].
  rewrite bool_decide_eq_false_2 by done. by rewrite orb_false_r.
Qed.

Lemma marksOk_asked applied our p d d' : aligned our (pe_header p) → asked our p d d' → marksOk applied d → marksOk applied d'.
Proof.
  intros Hal [_ Hid|_ Hn Hr He Hf Hj|_ _ _ _ He Hj] Hok; [by eapply marksOk_idle | |].
  - pose proof (λ k n r i, marked_partial our p d d' k n r i Hn He) as Hm. set (job := partialJob our p d) in *.
    assert (∀ k n r i, holds k n r i job = bool_decide (hd_blockNumber our = n ∧ hd_round (pe_header p) = r) && bool_decide (i ∈ indexes k job)) as Hh.
    { intros k n r i. unfold holds. f_equal. change (mj_round job) with (getHighestRoundToDownload rv our (pe_header p)).
      rewrite <- Hr, (Hal Hr). apply eq_true_iff_eq. rewrite andb_true_iff, !Z.eqb_eq, bool_decide_eq_true. done. }
    destruct Hok as [H1 H2 H3 H4]. split; rewrite ?Hj.
    + intros k n r. by rewrite (proj1 (Hm k n r 0)).
    + intros k j i [Hin| ->%list_elem_of_singleton]%elem_of_app Hi; [by eapply H2 |].
      apply (partial_range our p d) in Hi. rewrite H1, <- Hn in Hi. exact Hi.
    + intros k j [Hin| ->%list_elem_of_singleton]%elem_of_app; [by apply H3 | done].
    + intros k n r i Hna. rewrite asking_app, asking_one, H4, (proj2 (Hm k n r i)), Hh by done.
      destruct (bool_decide (_ ∧ _)) eqn:Hkey; cbn [andb]; [| rewrite orb_false_r; cbn; lia].
      destruct (bool_decide_reflect (i ∈ indexes k job)) as [Hin|_]; [| rewrite orb_false_r; cbn; lia].
      apply bool_decide_eq_true_1 in Hkey as [<- <-]. unfold job in Hin. rewrite indexes_partial, elem_getIndexes in Hin.
      destruct Hin as (_ & Hu & _). unfold marked. rewrite Hn, Hu. done.
  - destruct Hok as [H1 H2 H3 H4]. split; rewrite ?Hj.
    + intros k n r. by rewrite He.
    + intros k j i [Hin| ->%list_elem_of_singleton]%elem_of_app Hi; [by eapply H2 |]. rewrite indexes_full in Hi. by apply elem_of_nil in Hi.
    + intros k j [Hin| ->%list_elem_of_singleton]%elem_of_app; [by apply H3 | intros _; apply indexes_full].
    + intros k n r i Hna. unfold marked. rewrite He, asking_app, asking_one, holds_none, H4 by (done || apply indexes_full).
      cbn. unfold marked. lia.
Qed.

(** ** The end of a job *)
Lemma remove_nothing job d : roundDownloads d (mj_blockNumber job) (mj_round job) = None → removePartialDownloadJob job d = d.
Proof.
  unfold roundDownloads, removePartialDownloadJob. destruct (mapGet _ _) as [rounds|]; [| done]. cbn. by intros ->.
Qed.

Lemma remove_entry job d x n r :
  roundDownloads d (mj_blockNumber job) (mj_round job) = Some x →
  entry (removePartialDownloadJob job d) n r =
    if decide (mj_blockNumber job = n ∧ mj_round job = r)
    then (if gone (markAll false job x) then newDownloads rv n else markAll false job x) else entry d n r.
Proof.
  unfold roundDownloads, removePartialDownloadJob. destruct (mapGet (md_downloads d) (mj_blockNumber job)) as [rounds|] eqn:Hrounds; [| done].
  cbn. intros Hx. rewrite Hx. set (x' := markAll false job x). set (rounds' := if gone x' then mapDelete rounds (mj_round job) else mapSet rounds (mj_round job) x').
  set (d' := d <| md_downloads ::= _ |>). unfold entry, roundDownloads. subst d'. cbn -[gone].
  assert (∀ r2, mapGet rounds' r2 = if decide (mj_round job = r2) then (if gone x' then None else Some x') else mapGet rounds r2) as Hr'.
  { intros r2. unfold rounds'. destruct (gone x'); [rewrite mapGet_delete | rewrite mapGet_set]; by case_decide. }
  destruct (decide (mj_blockNumber job = n)) as [<-|Hne].
  - assert ((mapGet (if bool_decide (rounds' = []) then mapDelete (md_downloads d) (mj_blockNumber job)
                     else mapSet (md_downloads d) (mj_blockNumber job) rounds') (mj_blockNumber job) ≫= λ m, mapGet m r) = mapGet rounds' r) as ->.
    { case_bool_decide as Hnil; [rewrite mapGet_delete, decide_True by done; by rewrite Hnil | by rewrite mapGet_set_eq]. }
    rewrite Hr', Hrounds. cbn. destruct (decide (mj_round job = r)) as [<-|]; [rewrite decide_True by done; by destruct (gone x') |].
    by rewrite decide_False by naive_solver.
  - rewrite (decide_False (P := mj_blockNumber job = n ∧ mj_round job = r)) by naive_solver.
    case_bool_decide; [rewrite mapGet_delete, decide_False by done | rewrite mapGet_set_ne by done]; done.
Qed.

Lemma entry_remove_ne job d n r :
  ¬ (mj_blockNumber job = n ∧ mj_round job = r) → entry (removePartialDownloadJob job d) n r = entry d n r.
Proof.
  intros Hne. destruct (roundDownloads d (mj_blockNumber job) (mj_round job)) as [x|] eqn:Hx; [| by rewrite remove_nothing].
  by rewrite (remove_entry job d x), decide_False.
Qed.

Lemma isSet_gone k x i : gone x = true → isSet (votes k x) i = false.
Proof.
  intros [H1 H2]%andb_true_iff. apply not_true_iff_false. unfold isSet. destruct (i <? 0); [done |].
  destruct (votes k x !! Z.to_nat i) as [b|] eqn:Hb; [| done]. apply list_elem_of_lookup_2, list_elem_of_In in Hb.
  assert (forallb negb (votes k x) = true) as Hall by (by destruct k). rewrite forallb_forall in Hall. specialize (Hall b Hb).
  by destruct b.
Qed.

Lemma entry_remove job d n r :
  (∀ k i, i ∈ indexes k job → 0 ≤ i < Z.of_nat (length (votes k (entry d (mj_blockNumber job) (mj_round job))))) →
  (∀ k n r, length (votes k (entry d n r)) = Z.to_nat (rv n)) →
  ∀ k, length (votes k (entry (removePartialDownloadJob job d) n r)) = Z.to_nat (rv n) ∧
       ∀ i, marked k (removePartialDownloadJob job d) n r i = marked k d n r i && negb (holds k n r i job).
Proof.
  intros Hin Hlen k. unfold marked. destruct (decide (mj_blockNumber job = n ∧ mj_round job = r)) as [[<- <-]|Hne]; cycle 1.
  { rewrite entry_remove_ne by done. split; [apply Hlen |]. intros i.
    assert (holds k n r i job = false) as ->; [| by rewrite andb_true_r]. apply not_true_iff_false. rewrite holds_true. tauto. }
  destruct (roundDownloads d (mj_blockNumber job) (mj_round job)) as [x|] eqn:Hx; cycle 1.
  { rewrite remove_nothing by done. split; [apply Hlen |]. intros i. unfold entry. rewrite Hx. cbn [default].
    by rewrite votes_new, isSet_replicate. }
  rewrite (remove_entry job d x), decide_True by done.
  assert (entry d (mj_blockNumber job) (mj_round job) = x) as Hentry by (unfold entry; by rewrite Hx). specialize (Hin k).
  specialize (Hlen k (mj_blockNumber job) (mj_round job)). rewrite Hentry in Hin, Hlen |- *.
  destruct (setAll_spec false (indexes k job) (votes k x) Hin) as [Hl Hs].
  assert (∀ i, isSet (votes k (markAll false job x)) i = isSet (votes k x) i && negb (holds k (mj_blockNumber job) (mj_round job) i job)) as Hset.
  { intros i. rewrite votes_markAll, Hs. unfold holds. rewrite !Z.eqb_refl. cbn [andb].
    case_decide; [rewrite bool_decide_eq_true_2 by done; by rewrite andb_false_r | rewrite bool_decide_eq_false_2 by done; by rewrite andb_true_r]. }
  destruct (gone (markAll false job x)) eqn:Hgone.
  - split; [by rewrite votes_new, length_replicate |]. intros i. rewrite <- Hset, votes_new, isSet_replicate. symmetry. by apply isSet_gone.
  - split; [| exact Hset]. by rewrite votes_markAll, Hl.
Qed.

Lemma asking_delete k n r i l1 job l2 :
  asking k n r i (l1 ++ job :: l2) = (asking k n r i (l1 ++ l2) + Nat.b2n (holds k n r i job))%nat.
Proof. change (job :: l2) with ([job] ++ l2). rewrite !asking_app, asking_one. lia. Qed.

Lemma remove_full_entry job d n r : entry (removeFullDownloadJob job d) n r = entry d n r.
Proof. unfold removeFullDownloadJob. by destruct (mapGet _ _). Qed.
Lemma remove_jobs job d : md_jobs (removeDownloadJob job d) = md_jobs d.
Proof.
  unfold removeDownloadJob, removeFullDownloadJob, removePartialDownloadJob. destruct (mj_isFullDownload job).
  - by destruct (mapGet _ _).
  - destruct (mapGet _ _) as [rounds|]; [| done]. by destruct (mapGet rounds _).
Qed.
Lemma remove_banned job d : md_banned (removeDownloadJob job d) = md_banned d.
Proof.
  unfold removeDownloadJob, removeFullDownloadJob, removePartialDownloadJob. destruct (mj_isFullDownload job).
  - by destruct (mapGet _ _).
  - destruct (mapGet _ _) as [rounds|]; [| done]. by destruct (mapGet rounds _).
Qed.

(** The marks of the job that ends are taken back, and no other. *)
Lemma marksOk_removed applied l1 job l2 d :
  md_jobs d = l1 ++ job :: l2 → marksOk applied d →
  marksOk applied (removeDownloadJob job (d <| md_jobs := l1 ++ l2 |>)).
Proof.
  intros Hl [H1 H2 H3 H4]. set (d0 := d <| md_jobs := l1 ++ l2 |>).
  assert (job ∈ md_jobs d) as Hjob by (rewrite Hl; apply elem_of_app; right; left).
  assert (∀ j, j ∈ l1 ++ l2 → j ∈ md_jobs d) as Hsub by (intros j; rewrite Hl, !elem_of_app, elem_of_cons; tauto).
  assert (∀ k n r i, n ∉ applied → asking k n r i (l1 ++ l2) = Nat.b2n (marked k d n r i && negb (holds k n r i job))) as Hcount.
  { intros k n r i Hn. pose proof (H4 k n r i Hn) as Hc. rewrite Hl, asking_delete in Hc.
    destruct (marked k d n r i), (holds k n r i job); cbn in *; lia. }
  assert (∀ k n r, length (votes k (entry (removeDownloadJob job d0) n r)) = Z.to_nat (rv n) ∧
    ∀ i, marked k (removeDownloadJob job d0) n r i = marked k d n r i && negb (holds k n r i job)) as Hm.
  { intros k n r. unfold removeDownloadJob. destruct (mj_isFullDownload job) eqn:Hfull.
    - split; [by rewrite remove_full_entry; apply H1 |]. intros i. rewrite holds_none by (by apply H3).
      unfold marked. by rewrite remove_full_entry, andb_true_r.
    - apply (entry_remove job d0 n r); [| done]. intros k' i Hi. change (entry d0) with (entry d). rewrite H1.
      by apply (H2 k'). }
  split; rewrite ?remove_jobs; cbn.
  - intros k n r. apply Hm.
  - intros k j i Hj. apply H2. by apply Hsub.
  - intros k j Hj. apply H3. by apply Hsub.
  - intros k n r i Hn. change (asking k n r i (l1 ++ l2) = Nat.b2n (marked k (removeDownloadJob job d0) n r i)).
    by rewrite Hcount, (proj2 (Hm k n r)).
Qed.

Lemma marksOk_requests applied our peers d d' :
  (∀ p, p ∈ peers → aligned our (pe_header p)) → requests our peers d d' → marksOk applied d → marksOk applied d'.
Proof.
  intros Hal Hreq. induction Hreq as [d|d d1 d' [Hid|(p & Hp & Hask)] _ IH]; [done | |]; intros Hok; apply IH.
  - by eapply marksOk_idle.
  - eapply marksOk_asked; [by apply Hal | done | done].
Qed.

Lemma tryToDownload_run busy pick our peers d :
  ∃ d', tryToDownload rv busy pick our peers d = (Ok tt, d') ∧ requests our peers d d'.
Proof.
  unfold tryToDownload. destruct busy; [exists d; split; [done | apply rtc_refl] |].
  destruct (tryLoop_run (length peers) pick our peers d) as (d' & Hrun & Hreq & _); [apply filter_length_le | by exists d'].
Qed.

Lemma finish_run x job answer counts busy pick our peers d :
  md_jobs d !! x = Some job →
  let d1 := removeDownloadJob job (d <| md_jobs ::= delete x |>) in
  finish rv x answer counts busy pick our peers d =
  match checkAnswer rv job answer counts with
  | Ok _ => (Ok tt, d1)
  | Throw _ => tryToDownload rv busy pick our peers (d1 <| md_banned ::= λ l, l ++ [pe_ip (mj_peer job)] |>)
  end.
Proof. intros Hx. unfold finish, mbind, M_bind, get, modify. rewrite Hx. by destruct (checkAnswer _ _ _ _). Qed.

Lemma marksOk_finish applied x answer counts busy pick our peers d :
  (∀ p, p ∈ peers → aligned our (pe_header p)) → marksOk applied d →
  marksOk applied (finish rv x answer counts busy pick our peers d).2.
Proof.
  intros Hal Hok. destruct (md_jobs d !! x) as [job|] eqn:Hx; cycle 1.
  { unfold finish, mbind, M_bind, get. by rewrite Hx. }
  rewrite (finish_run _ job) by done. cbv zeta. pose proof (take_drop_middle _ _ _ Hx) as Hl.
  assert (marksOk applied (removeDownloadJob job (d <| md_jobs ::= delete x |>))) as Hok1.
  { assert (d <| md_jobs ::= delete x |> = d <| md_jobs := take x (md_jobs d) ++ drop (S x) (md_jobs d) |>) as ->
      by (rewrite <- delete_take_drop; by destruct d).
    by apply marksOk_removed. }
  destruct (checkAnswer _ _ _ _); [done |].
  destruct (tryToDownload_run busy pick our peers ((removeDownloadJob job (d <| md_jobs ::= delete x |>)) <| md_banned ::= λ l, l ++ [pe_ip (mj_peer job)] |>))
    as (d' & -> & Hreq).
  eapply marksOk_requests; [done | exact Hreq |]. by destruct Hok1.
Qed.

Lemma marksOk_applied applied n d : marksOk applied d → marksOk (n :: applied) (onBlockApplied n d).
Proof.
  intros [H1 H2 H3 H4].
  assert (∀ n' r, entry (onBlockApplied n d) n' r = if decide (n = n') then newDownloads rv n' else entry d n' r) as He.
  { intros n' r. unfold entry, roundDownloads, onBlockApplied. cbn. rewrite mapGet_delete. by case_decide. }
  split; [| done | done |].
  - intros k n' r. rewrite He. case_decide; [| apply H1]. by rewrite votes_new, length_replicate.
  - intros k n' r i [Hne Hn]%not_elem_of_cons. unfold marked. rewrite He, decide_False by congruence. by apply H4.
Qed.

Lemma marksOk_new : (∀ n, 0 ≤ rv n) → marksOk [] newMessageDownloader.
Proof.
  intros Hrv. split; cbn; [| by intros ? ? ? ?%elem_of_nil | by intros ? ? ?%elem_of_nil |].
  - intros k n r. unfold entry. cbn. by rewrite votes_new, length_replicate.
  - intros k n r i _. unfold marked, entry. cbn. by rewrite votes_new, isSet_replicate.
Qed.

(** ** A run of the downloader

    With the block numbers applied so far.  The guards: the headers of the peers
    asked are [aligned] with ours, which [stale_marks] shows the code needs. *)
Inductive mdStep : relation (MessageDownloader * list Z) :=
  | mdDownload busy our p d applied :
      aligned our (pe_header p) → mdStep (d, applied) ((download rv busy our p d).2, applied)
  | mdTry busy pick our peers d applied :
      (∀ p, p ∈ peers → aligned our (pe_header p)) → mdStep (d, applied) ((tryToDownload rv busy pick our peers d).2, applied)
  | mdFinish x answer counts busy pick our peers d applied :
      (∀ p, p ∈ peers → aligned our (pe_header p)) →
      mdStep (d, applied) ((finish rv x answer counts busy pick our peers d).2, applied)
  | mdApplied n d applied : mdStep (d, applied) (onBlockApplied n d, n :: applied).

Lemma mdStep_ok s s' : mdStep s s' → marksOk s.2 s.1 → marksOk s'.2 s'.1.
Proof.
  intros [busy our p d applied Hal|busy pick our peers d applied Hal|x answer counts busy pick our peers d applied Hal|n d applied] Hok; cbn in *.
  - destruct busy; [done |]. destruct (download_asked our p d) as (d' & -> & Hask). by eapply marksOk_asked.
  - destruct (tryToDownload_run busy pick our peers d) as (d' & -> & Hreq). by eapply marksOk_requests.
  - by apply marksOk_finish.
  - by apply marksOk_applied.
Qed.

Lemma reached_ok d applied : (∀ n, 0 ≤ rv n) → rtc mdStep (newMessageDownloader, []) (d, applied) → marksOk applied d.
Proof.
  intros Hrv Hrun. assert (∀ s s', rtc mdStep s s' → marksOk s.2 s.1 → marksOk s'.2 s'.1) as Hall.
  { intros s s'. induction 1 as [|s s1 s' Hstep _ IH]; [done |]. intros Hok. by apply IH, (mdStep_ok s). }
  apply (Hall _ _ Hrun). by apply marksOk_new.
Qed.

(** What was marked stays marked while peers are asked, and no job is added for a
    later round than ours. *)
Lemma asked_marked our p d d' k n r i : asked our p d d' → marked k d n r i = true → marked k d' n r i = true.
Proof.
  intros [_ Hid|_ Hn Hr He Hf Hj|_ _ _ _ He Hj]; unfold marked.
  - by rewrite (id_entry _ _ Hid).
  - intros Hm. rewrite (proj2 (marked_partial our p d d' k n r i Hn He) : isSet _ _ = _). unfold marked. by rewrite Hm.
  - by rewrite He.
Qed.

Lemma asked_later our p d d' k n r i : asked our p d d' → hd_round our < r → asking k n r i (md_jobs d') = asking k n r i (md_jobs d).
Proof.
  intros [_ Hid|_ Hn Hr He Hf Hj|_ _ _ _ He Hj] Hlt; [by rewrite (id_jobs _ _ Hid) | |]; rewrite Hj, asking_app, asking_one.
  - assert (holds k n r i (partialJob our p d) = false) as ->; [| cbn; lia]. apply not_true_iff_false. rewrite holds_true.
    intros (_ & Hr' & _). cbn in Hr'. lia.
  - rewrite holds_none by apply indexes_full. cbn. lia.
Qed.

Lemma requests_later our peers d d' k n r i : requests our peers d d' → hd_round our < r →
  asking k n r i (md_jobs d') = asking k n r i (md_jobs d) ∧ (marked k d n r i = true → marked k d' n r i = true).
Proof.
  intros Hreq Hlt. induction Hreq as [d|d d1 d' [Hid|(p & Hp & Hask)] _ [IH1 IH2]]; [done | |].
  - rewrite IH1, (id_jobs _ _ Hid). split; [done |]. intros Hm. apply IH2. unfold marked. by rewrite (id_entry _ _ Hid).
  - rewrite IH1, (asked_later our p d d1) by done. split; [done |]. intros Hm. by apply IH2, (asked_marked our p d).
Qed.

Lemma partial_unmarked our p d k i :
  i ∈ indexes k (partialJob our p d) → marked k d (hd_blockNumber (pe_header p)) (hd_round (pe_header p)) i = false.
Proof. rewrite indexes_partial. by intros (_ & ? & _)%elem_getIndexes. Qed.

(** While the headers of the peers asked are aligned with the node's own, in
    whatever order requests, answers, failures and applied blocks interleave, a vote
    of the current block is marked as being downloaded exactly when a job asks for
    it, and never does more than one. *)
Theorem message_requests_exclusive d applied :
  (∀ n, 0 ≤ rv n) → rtc mdStep (newMessageDownloader, []) (d, applied) →
  ∀ k n r i, n ∉ applied →
    asking k n r i (md_jobs d) = Nat.b2n (marked k d n r i) ∧ (asking k n r i (md_jobs d) ≤ 1)%nat ∧
    (md_jobs d = [] → ∀ our p, hd_blockNumber (pe_header p) = n → hd_round (pe_header p) = r →
      isSet (signedBy k (pe_header p)) i = true → isSet (signedBy k our) i = false → 0 ≤ i < rv n →
      i ∈ indexes k (partialJob our p d)).
Proof.
  intros Hrv Hrun k n r i Hn. pose proof (reached_ok d applied Hrv Hrun) as Hok.
  pose proof (mo_count _ _ Hok k n r i Hn) as Hc. split; [done |]. split; [rewrite Hc; destruct (marked _ _ _ _ _); cbn; lia |].
  intros Hnone our p Hpn Hpr Hs Ho Hi. rewrite indexes_partial, Hpn, Hpr. apply elem_getIndexes.
  rewrite (mo_length _ _ Hok). split; [specialize (Hrv n); lia |]. split_and!; [| done | done].
  rewrite Hnone in Hc. unfold marked in Hc. by destruct (isSet _ i).
Qed.

(** Marks that are never taken back.  A peer one round ahead, with too few
    prevotes there, is asked for the votes of our round, but the votes are looked up
    and marked under the peer's round.  Whatever the answer, the marks stay when the
    job is over, with no job behind them; when the node reaches that round, nobody
    is asked for those votes. *)
Theorem stale_marks our p d k i answer counts busy pick our2 peers :
  let n := hd_blockNumber our in let r := hd_round our + 1 in
  md_jobs d = [] → hd_blockNumber (pe_header p) = n → hd_round (pe_header p) = r →
  isMinority (countTrue (hd_validatorsSignedPrevote (pe_header p))) (rv n) = false →
  i ∈ indexes k (partialJob our p d) → hd_round our2 = hd_round our →
  let d1 := (download rv false our p d).2 in
  let d2 := (finish rv 0 answer counts busy pick our2 peers d1).2 in
  md_jobs d1 = [partialJob our p d] ∧
  asking k n r i (md_jobs d2) = 0%nat ∧ marked k d2 n r i = true ∧
  ∀ our' q, hd_blockNumber (pe_header q) = n → hd_round (pe_header q) = r → i ∉ indexes k (partialJob our' q d2).
Proof.
  intros n r Hidle Hpn Hpr Hmin Hi Hr2 d1 d2. set (job := partialJob our p d) in *.
  assert (getHighestRoundToDownload rv our (pe_header p) = hd_round our) as Hhigh.
  { unfold getHighestRoundToDownload. rewrite Hpr, (proj2 (Z.leb_gt _ _)) by lia. fold n. rewrite Hmin. lia. }
  destruct (download_asked our p d) as (d1' & Hrun & Hask). assert (d1 = d1') as -> by (unfold d1; by rewrite Hrun).
  assert (able our (pe_header p) d = true) as Hable.
  { unfold able. fold n. rewrite Hpn, Z.eqb_refl, (proj2 (Z.ltb_ge _ _)) by lia. cbn [negb orb]. rewrite Hhigh, Z.eqb_refl.
    apply negb_true_iff, andb_false_iff. unfold job in Hi. rewrite indexes_partial, Hpn in Hi.
    unfold prevotesToDownload, precommitsToDownload. fold n.
    destruct k; [left | right]; apply bool_decide_eq_false_2; intros Hnil; cbn [signedBy votes] in Hi; rewrite Hnil in Hi; by apply elem_of_nil in Hi. }
  destruct Hask as [Hno _|_ Hn Hr He Hf Hj|_ _ _ Hno _ _]; [congruence | | congruence]. rewrite Hidle in Hj. fold job in Hj.
  assert (marked k d1' n r i = true) as Hmark.
  { rewrite (proj2 (marked_partial our p d d1' k n r i Hn He)), Hpr. fold job n r. rewrite !bool_decide_eq_true_2 by done. by rewrite orb_true_r. }
  assert (asking k n r i (md_jobs d2) = 0%nat ∧ marked k d2 n r i = true) as [Hzero Hmark2].
  { unfold d2. rewrite (finish_run 0 job) by (by rewrite Hj). cbv zeta.
    set (d3 := removeDownloadJob job _). assert (md_jobs d3 = []) as Hj3 by (unfold d3; rewrite remove_jobs; cbn; by rewrite Hj).
    assert (marked k d3 n r i = true) as Hm3.
    { unfold marked, d3. change (removeDownloadJob job) with (removePartialDownloadJob job). rewrite entry_remove_ne; [exact Hmark |].
      intros [_ Hbad]. unfold job in Hbad. cbn in Hbad. rewrite Hhigh in Hbad. unfold r in Hbad. lia. }
    destruct (checkAnswer _ _ _ _); [cbn [snd]; split; [by rewrite Hj3 | done] |].
    destruct (tryToDownload_run busy pick our2 peers (d3 <| md_banned ::= λ l, l ++ [pe_ip (mj_peer job)] |>)) as (d4 & -> & Hreq).
    destruct (requests_later our2 peers _ d4 k n r i Hreq) as [H1 H2]; [unfold r; lia |].
    cbn [snd]. split; [rewrite H1; change (asking k n r i (md_jobs d3) = 0%nat); by rewrite Hj3 | by apply H2]. }
  split_and!; [done | done | done |]. intros our' q Hqn Hqr Hin. apply partial_unmarked in Hin. rewrite Hqn, Hqr in Hin. congruence.
Qed.
End marks.

(** Looking for peers to ask ends: whatever the headers of the peers claim and
    whichever the random choices are, the loop of [tryToDownload] asks each peer
    at most once and returns. *)
Theorem tryToDownload_terminates roundValidatorsAt busy pick ourHeader peers d :
  (tryToDownload roundValidatorsAt busy pick ourHeader peers d).1 = Ok tt ∧
  (length (md_jobs (tryToDownload roundValidatorsAt busy pick ourHeader peers d).2) ≤ length (md_jobs d) + length peers)%nat.
Proof.
  unfold tryToDownload. destruct busy; [split; [done | cbn; lia] |].
  destruct (tryLoop_run roundValidatorsAt (length peers) pick ourHeader peers d) as (d' & -> & _ & Hjobs); [apply filter_length_le | done].
Qed.
