(* ===== verification/MessageExchange.v ===== *)
(** * Messages between a node and its peers

    The header a node shows (packages/p2p/source/header.ts), the answer of a peer
    to a request for messages (socket-server/controllers/get-messages.ts), and what
    [MessageDownloader] makes of the answer of a peer that follows the protocol. *)
From S2P Require Import Prelude Bytes Serializer Messages Blocks Proposals JsMap Quorum ValidatorSet RoundState RoundStateFacts Processors.
From S2P Require Import MessageDownloader.

(** ** header.ts

    [roundState] is that of the block number and the round of the consensus. *)
Definition headerOf (roundState : RoundState) : HeaderData :=
  mkHeaderData (rs_blockNumber roundState) (rs_round roundState)
    (rs_validatorsSignedPrevote roundState) (rs_validatorsSignedPrecommit roundState)
    (p_hash <$> rs_proposal roundState).

Definition getValidatorsSignedPrevoteCount (h : HeaderData) : Z := countTrue (hd_validatorsSignedPrevote h).
Definition getValidatorsSignedPrecommitCount (h : HeaderData) : Z := countTrue (hd_validatorsSignedPrecommit h).

Section exchange.
Context (roundValidatorsAt : Z → Z).

(** ** get-messages.ts: the messages a peer answers with

    The peer is at [blockNumber] and [round], [stateOf] are its round states. *)
Definition missingMessages (signed : list bool) (get : Z → option Message) : list Message :=
  omap (λ index, if isSet signed index then None else get index) (seqZ 0 (Z.of_nat (length signed))).

Definition getMessagesFor (blockNumber round : Z) (stateOf : Z → RoundState) (request : HeaderData) : list Message * list Message :=
  if negb (hd_blockNumber request =? blockNumber) || (round <? hd_round request) then ([], [])
  else
    let roundState :=
      let current := stateOf round in
      if (1 <=? rs_round current) && (hd_round request <? rs_round current) && negb (hasMinorityPrevotesOrPrecommits roundValidatorsAt current)
      then stateOf (round - 1) else current in
    if hd_round request =? rs_round roundState then
      (missingMessages (hd_validatorsSignedPrevote request) (getPrevote roundState),
       missingMessages (hd_validatorsSignedPrecommit request) (getPrecommit roundState))
    else (getPrevotes roundState, getPrecommits roundState).

(** ** Peers that follow the protocol *)
Definition ballots (k : Kind) (st : RoundState) : JsMap Z Message :=
  match k with Prevotes => rs_prevotes st | Precommits => rs_precommits st end.
Definition sideOf {A} (k : Kind) (answer : A * A) : A := match k with Prevotes => answer.1 | Precommits => answer.2 end.

(** The round state holds votes of its own block number and round only. *)
Definition ownVotes (st : RoundState) : Prop :=
  ∀ k i m, (i, m) ∈ ballots k st → msg_blockNumber m = rs_blockNumber st ∧ msg_round m = rs_round st.

(** [st] is [st0], some messages later. *)
Record later (st0 st : RoundState) : Prop := {
  later_blockNumber : rs_blockNumber st = rs_blockNumber st0;
  later_round : rs_round st = rs_round st0;
  later_votes : ∀ k i, i ∈ mapKeys (ballots k st0) → i ∈ mapKeys (ballots k st);
}.

(** Bytes the factory parses, of messages the processor does not find invalid. *)
Definition delivered (respond : Message → ProcessorResult) (messages : list Message) :
    list (result Message * result ProcessorResult) :=
  (λ m, (Ok m, Ok (respond m))) <$> messages.
Definition honest (respond : Message → ProcessorResult) (sent : list Message * list Message) : Answer :=
  Ok (delivered respond sent.1, delivered respond sent.2).

Lemma ballots_tally st n k : wfRoundState n st →
  ∃ counts, tallyOk n (ballots k st) counts (signedBy k (headerOf st)).
Proof. intros [H1 H2]. destruct k; eexists; [exact H1 | exact H2]. Qed.

Lemma isSet_signed st n k i : wfRoundState n st → isSet (signedBy k (headerOf st)) i = true → i ∈ mapKeys (ballots k st).
Proof.
  intros Hwf Hs. destruct (ballots_tally st n k Hwf) as (counts & Ht). pose proof (isSet_range _ _ Hs) as Hr. revert Hs. unfold isSet.
  destruct (Z.ltb_spec i 0); [lia |]. destruct (_ !! Z.to_nat i) as [b|] eqn:Hb; [| done]. cbn. intros ->.
  apply (tally_signed _ _ _ _ Ht) in Hb. rewrite Z2Nat.id in Hb by lia. symmetry in Hb. by apply mapHas_true.
Qed.

(** ** Receiving an honest answer *)
Definition keyed (messages : list Message) : JsMap Z Message := (λ m, (msg_validatorIndex m, m)) <$> messages.

Lemma keyed_keys messages : mapKeys (keyed messages) = msg_validatorIndex <$> messages.
Proof. unfold mapKeys, keyed. by rewrite <- list_fmap_compose. Qed.
Lemma keyed_values messages : mapValues (keyed messages) = messages.
Proof. unfold mapValues, keyed. rewrite <- list_fmap_compose. apply list_fmap_id. Qed.

Lemma receive_honest job respond first received messages :
  (∀ m, respond m ≠ Invalid) →
  NoDup (mapKeys received ++ (msg_validatorIndex <$> messages)) → ∀ r, mj_round job ≤ r →
  (∀ m, m ∈ messages → msg_blockNumber m = mj_blockNumber job ∧ msg_round m = r) →
  (∀ m, first = Some m → msg_blockNumber m = mj_blockNumber job ∧ msg_round m = r) →
  receive job first received (delivered respond messages) = Ok (received ++ keyed messages).
Proof.
  intros Hresp. revert first received. induction messages as [|m messages IH]; intros first received Hnd r Hr Hms Hfirst; cbn.
  { by rewrite app_nil_r. }
  destruct (Hms m) as [Hn Hrm]; [by left |].
  assert (msg_blockNumber (default m first) = mj_blockNumber job ∧ msg_round (default m first) = r) as [Hfn Hfr].
  { destruct first as [f|]; [by apply Hfirst | done]. }
  unfold checkMessage. rewrite Hn, Hrm, Hfn, Hfr, !Z.eqb_refl, (proj2 (Z.leb_le _ _)) by done. cbn.
  rewrite bool_decide_eq_false_2 by apply Hresp. cbn.
  assert (mapSet received (msg_validatorIndex m) m = received ++ [(msg_validatorIndex m, m)]) as ->.
  { apply mapSet_fresh, mapGet_None. intros Hin. cbn in Hnd. apply NoDup_app in Hnd as (_ & Hd & _). apply (Hd _ Hin). left. }
  rewrite (IH _ _) with (r := r); [by rewrite <- app_assoc | | done | intros m' ?; apply Hms; by right |].
  - unfold mapKeys in *. rewrite fmap_app, <- app_assoc. exact Hnd.
  - intros f [= <-]. done.
Qed.

Lemma missing_spec st k signed get :
  (∀ i m, get i = Some m → (i, m) ∈ ballots k st) → (∀ i m, (i, m) ∈ ballots k st → msg_validatorIndex m = i) →
  NoDup (msg_validatorIndex <$> missingMessages signed get) ∧
  (∀ m, m ∈ missingMessages signed get → (msg_validatorIndex m, m) ∈ ballots k st) ∧
  (∀ i, i ∈ msg_validatorIndex <$> missingMessages signed get ↔
    0 ≤ i < Z.of_nat (length signed) ∧ isSet signed i = false ∧ is_Some (get i)).
Proof.
  intros Hget Hidx. unfold missingMessages. set (f := λ index, if isSet signed index then None else get index).
  assert (∀ i m, f i = Some m → isSet signed i = false ∧ get i = Some m) as Hf.
  { unfold f. intros i m. by destruct (isSet signed i). }
  assert (∀ i, i ∈ msg_validatorIndex <$> omap f (seqZ 0 (Z.of_nat (length signed))) ↔
    0 ≤ i < Z.of_nat (length signed) ∧ isSet signed i = false ∧ is_Some (get i)) as Hin.
  { intros i. rewrite list_elem_of_fmap. setoid_rewrite list_elem_of_omap. setoid_rewrite elem_of_seqZ. split.
    - intros (m & -> & j & Hj & [Hs Hg]%Hf). pose proof (Hidx _ _ (Hget _ _ Hg)) as ->. split; [lia |]. by eauto.
    - intros (Hi & Hs & m & Hg). exists m. split; [symmetry; by apply Hidx, Hget |]. exists i. split; [lia |]. unfold f. by rewrite Hs. }
  split; [| split; [| exact Hin]].
  - clear Hin. pose proof (NoDup_seqZ 0 (Z.of_nat (length signed))) as Hnd. induction Hnd as [|x l Hx _ IH]; [constructor |].
    cbn. destruct (f x) as [m|] eqn:Hm; [| exact IH]. cbn. apply NoDup_cons. split; [| exact IH].
    intros (m' & Heq & (y & Hy & [_ Hg]%Hf)%list_elem_of_omap)%list_elem_of_fmap. apply Hf in Hm as [_ Hm].
    apply Hget, Hidx in Hm, Hg. congruence.
  - intros m (j & Hj & [_ Hg]%Hf)%list_elem_of_omap. apply Hget in Hg. by rewrite (Hidx _ _ Hg).
Qed.

Definition ballotOf (k : Kind) (st : RoundState) (i : Z) : option Message := mapGet (ballots k st) i.

Lemma sent_missing k st n signed : wfRoundState n st →
  let messages := missingMessages signed (ballotOf k st) in
  NoDup (msg_validatorIndex <$> messages) ∧
  (∀ m, m ∈ messages → (msg_validatorIndex m, m) ∈ ballots k st) ∧
  (∀ i, i ∈ msg_validatorIndex <$> messages ↔
    0 ≤ i < Z.of_nat (length signed) ∧ isSet signed i = false ∧ i ∈ mapKeys (ballots k st)).
Proof.
  intros Hwf. destruct (ballots_tally st n k Hwf) as (counts & Ht).
  destruct (missing_spec st k signed (ballotOf k st)) as (H1 & H2 & H3).
  - intros i m. apply mapGet_elem.
  - intros i m Hm. by apply (tally_index _ _ _ _ Ht).
  - split_and!; [done | done |]. intros i. rewrite H3. unfold ballotOf.
    assert (is_Some (mapGet (ballots k st) i) ↔ i ∈ mapKeys (ballots k st)) as ->; [| done].
    rewrite <- not_eq_None_Some, mapGet_None. split; [apply dec_stable | tauto].
Qed.

(** A peer in our round sends what the request says is missing. *)
Lemma sent_same_round stateOf st req :
  stateOf (rs_round st) = st → hd_blockNumber req = rs_blockNumber st → hd_round req = rs_round st →
  getMessagesFor (rs_blockNumber st) (rs_round st) stateOf req =
    (missingMessages (signedBy Prevotes req) (ballotOf Prevotes st), missingMessages (signedBy Precommits req) (ballotOf Precommits st)).
Proof.
  intros Hst Hn Hr. unfold getMessagesFor. cbv zeta. rewrite Hst, Hn, Hr, !Z.eqb_refl, Z.ltb_irrefl. cbn [negb orb].
  rewrite andb_false_r. cbn [andb]. by rewrite Z.eqb_refl.
Qed.

Lemma checkAnswer_honest respond job sent r :
  (∀ m, respond m ≠ Invalid) → mj_round job ≤ r →
  (∀ k, NoDup (msg_validatorIndex <$> sideOf k sent)) →
  (∀ k m, m ∈ sideOf k sent → msg_blockNumber m = mj_blockNumber job ∧ msg_round m = r) → ∀ counts,
  checkAnswer roundValidatorsAt job (honest respond sent) counts =
    checkResponse roundValidatorsAt (keyed sent.1) (keyed sent.2) job counts.
Proof.
  intros Hresp Hr Hnd Hms counts. unfold checkAnswer, honest. destruct sent as [prevotes precommits]. cbn -[delivered receive checkResponse].
  rewrite (receive_honest job respond None [] prevotes Hresp (Hnd Prevotes) r) by (done || apply (Hms Prevotes)). cbn -[delivered receive checkResponse].
  by rewrite (receive_honest job respond None [] precommits Hresp (Hnd Precommits) r) by (done || apply (Hms Precommits)).
Qed.

Lemma is_ok_guard b e : guardR b e = Ok tt ↔ b = true.
Proof. by destruct b. Qed.

Lemma checkPartial_spec prevotes precommits job :
  checkPartialRoundResponse (keyed prevotes) (keyed precommits) job = Ok tt ↔
  ∀ k i, i ∈ indexes k job → i ∈ msg_validatorIndex <$> sideOf k (prevotes, precommits).
Proof.
  assert (∀ il ms, forallb (mapHas (keyed ms)) il = true ↔ ∀ i, i ∈ il → i ∈ msg_validatorIndex <$> ms) as Hall.
  { intros il ms. rewrite forallb_forall. setoid_rewrite <- list_elem_of_In. setoid_rewrite mapHas_true.
    by rewrite keyed_keys. }
  unfold checkPartialRoundResponse. destruct (forallb _ (mj_prevoteIndexes job)) eqn:H1; cbn.
  - rewrite is_ok_guard, Hall. rewrite Hall in H1. split; [intros H2 []; [exact H1 | exact H2] | intros Hk; apply (Hk Precommits)].
  - split; [done |]. intros Hk. apply not_true_iff_false in H1. exfalso. apply H1, Hall, (Hk Prevotes).
Qed.
(** ** A peer in our round *)
Lemma wanted_held st0 st n our p d k i :
  wfRoundState n st0 → wfRoundState n st → later st0 st → pe_header p = headerOf st0 →
  i ∈ indexes k (partialJob roundValidatorsAt our p d) → i ∈ mapKeys (ballots k st) ∧ 0 ≤ i < n.
Proof.
  intros Hwf0 Hwf Hlater Hp. rewrite indexes_partial, Hp. intros (_ & _ & Hs & _)%elem_getIndexes.
  assert (i ∈ mapKeys (ballots k st)) as Hi by (by eapply (later_votes st0), isSet_signed).
  split; [done |]. destruct (ballots_tally st n k Hwf) as (counts & Ht).
  apply list_elem_of_fmap in Hi as ([j m] & -> & Hm). by apply (tally_index _ _ _ _ Ht j m).
Qed.

Lemma sent_messages st n k signed m : wfRoundState n st → ownVotes st →
  m ∈ missingMessages signed (ballotOf k st) → msg_blockNumber m = rs_blockNumber st ∧ msg_round m = rs_round st.
Proof. intros Hwf Hown Hm. eapply Hown. by apply (sent_missing k st n signed Hwf). Qed.

(** What becomes of an honest answer in our round.  A peer that shows its
    header, and answers the request from the same round state some messages later,
    passes the checks exactly when it sends nothing at all or when the header sent
    with the request still misses every vote the job asked for.  The request carries
    the header of the moment it leaves, after the throttling, not that of the job: a
    vote that arrived in between gets the honest peer banned. *)
Theorem honest_partial_answer st0 st stateOf our req p d respond counts :
  let n := rs_blockNumber st in let r := rs_round st in
  wfRoundState (roundValidatorsAt n) st0 → wfRoundState (roundValidatorsAt n) st →
  later st0 st → ownVotes st → stateOf r = st → pe_header p = headerOf st0 →
  hd_blockNumber our = n → hd_round our = r → hd_blockNumber req = n → hd_round req = r →
  (∀ k, Z.of_nat (length (signedBy k req)) = roundValidatorsAt n) → (∀ m, respond m ≠ Invalid) →
  let job := partialJob roundValidatorsAt our p d in
  let sent := getMessagesFor n r stateOf req in
  checkAnswer roundValidatorsAt job (honest respond sent) counts = Ok tt ↔
  sent = ([], []) ∨ ∀ k i, i ∈ indexes k job → isSet (signedBy k req) i = false.
Proof.
  intros n r Hwf0 Hwf Hlater Hown Hst Hp Hn Hr Hqn Hqr Hlen Hresp job sent.
  assert (sent = (missingMessages (signedBy Prevotes req) (ballotOf Prevotes st), missingMessages (signedBy Precommits req) (ballotOf Precommits st)))
    as Hsent by (by apply sent_same_round).
  assert (mj_round job = r) as Hjr.
  { change (mj_round job) with (getHighestRoundToDownload roundValidatorsAt our (pe_header p)). unfold getHighestRoundToDownload.
    rewrite Hp. cbn. rewrite <- (later_round st0 st Hlater), Hr. fold r. by rewrite Z.leb_refl. }
  assert (mj_blockNumber job = n) as Hjn by exact Hn.
  assert (∀ k m, m ∈ sideOf k sent → msg_blockNumber m = n ∧ msg_round m = r) as Hms.
  { rewrite Hsent. intros [] m Hm; by eapply sent_messages. }
  rewrite (checkAnswer_honest respond job sent r) by
    (done || lia || (rewrite Hsent; intros []; by eapply sent_missing) || (intros k m Hm; rewrite Hjn; by apply (Hms k))).
  unfold checkResponse. rewrite !keyed_values. destruct (sent.1 ++ sent.2) as [|m rest] eqn:Hall.
  { apply app_eq_nil in Hall as [H1 H2]. split; [intros _; left | done]. by rewrite (surjective_pairing sent), H1, H2. }
  assert (msg_round m = r) as ->.
  { assert (m ∈ sent.1 ++ sent.2) as [Hm|Hm]%elem_of_app by (rewrite Hall; left); [by apply (Hms Prevotes) | by apply (Hms Precommits)]. }
  change (mj_ourHeader job) with our. rewrite Hr, Z.ltb_irrefl, checkPartial_spec, <- surjective_pairing. split.
  - intros Hk. right. intros k i Hi. specialize (Hk k i Hi). rewrite Hsent in Hk.
    destruct k; apply (sent_missing _ st _ _ Hwf) in Hk; tauto.
  - intros [->|Hk]; [done |]. intros k i Hi. specialize (Hk k i Hi). rewrite Hsent.
    destruct (wanted_held st0 st _ our p d k i Hwf0 Hwf Hlater Hp Hi) as [Hheld Hrange].
    specialize (Hlen k). destruct k; apply (sent_missing _ st _ _ Hwf); (split_and!; [lia.. | done | done]).
Qed.

(** ** A peer in a later round *)
Lemma count_positions i l : countTrue l = Z.of_nat (length (positions i l)).
Proof.
  unfold countTrue. f_equal. revert i. induction l as [|[] l IH]; intros i; cbn; [done | f_equal; apply IH | apply IH].
Qed.

Lemma signed_size st n k : wfRoundState n st → countTrue (signedBy k (headerOf st)) ≤ mapSize (ballots k st).
Proof.
  intros Hwf. destruct (ballots_tally st n k Hwf) as (counts & Ht). rewrite (count_positions 0). unfold mapSize.
  apply inj_le. rewrite <- (length_fmap fst (ballots k st)).
  apply submseteq_length, NoDup_submseteq; [apply NoDup_positions |].
  intros j (x & Hx & ->)%elem_of_positions. apply (tally_signed _ _ _ _ Ht) in Hx. symmetry in Hx. by apply mapHas_true.
Qed.

Lemma later_size st0 st n k : wfRoundState n st0 → later st0 st → mapSize (ballots k st0) ≤ mapSize (ballots k st).
Proof.
  intros Hwf Hlater. destruct (ballots_tally st0 n k Hwf) as (counts & Ht). unfold mapSize. apply inj_le.
  rewrite <- (length_fmap fst (ballots k st0)), <- (length_fmap fst (ballots k st)).
  apply submseteq_length, NoDup_submseteq; [apply (tally_keys _ _ _ _ Ht) |]. intros i. by apply (later_votes st0).
Qed.

Lemma keyed_ballots st n k : wfRoundState n st → keyed (mapValues (ballots k st)) = ballots k st.
Proof.
  intros Hwf. destruct (ballots_tally st n k Hwf) as (counts & Ht). pose proof (tally_index _ _ _ _ Ht) as Hidx. clear Ht.
  induction (ballots k st) as [|[i m] l IH]; [done |]. cbn. destruct (Hidx i m) as [-> _]; [left |]. f_equal.
  apply IH. intros j m' ?. apply Hidx. by right.
Qed.

(** What becomes of an honest answer from a later round.  A peer whose header
    shows more than a third of the prevotes of its round, asked by a node in an
    earlier round, answers with all the votes of that round; the node accepts them
    exactly when the prevotes, and also the precommits, received and counted in the
    node's own header of the earlier round, together exceed two thirds. *)
Theorem honest_full_answer st0 st stateOf our req p respond counts :
  let n := rs_blockNumber st in let r := rs_round st in
  wfRoundState (roundValidatorsAt n) st0 → wfRoundState (roundValidatorsAt n) st →
  later st0 st → ownVotes st → stateOf r = st → pe_header p = headerOf st0 →
  hd_blockNumber our = n → hd_round our < r → hd_blockNumber req = n → 0 ≤ hd_round req < r →
  0 ≤ roundValidatorsAt n → isMinority (getValidatorsSignedPrevoteCount (headerOf st0)) (roundValidatorsAt n) = true →
  (∀ m, respond m ≠ Invalid) →
  checkAnswer roundValidatorsAt (fullJob roundValidatorsAt our p) (honest respond (getMessagesFor n r stateOf req)) counts = Ok tt ↔
  isMajority (mapSize (rs_prevotes st) + counts.1) (roundValidatorsAt n) = true ∧
  isMajority (mapSize (rs_precommits st) + counts.2) (roundValidatorsAt n) = true.
Proof.
  intros n r Hwf0 Hwf Hlater Hown Hst Hp Hn Hr Hqn Hqr Hrv Hmin Hresp.
  assert (isMinority (mapSize (rs_prevotes st)) (roundValidatorsAt n) = true) as Hmore.
  { apply isMinority_spec. apply isMinority_spec in Hmin. pose proof (signed_size st0 _ Prevotes Hwf0) as H1.
    pose proof (later_size st0 st _ Prevotes Hwf0 Hlater) as H2. cbn in H1, H2. unfold getValidatorsSignedPrevoteCount in Hmin. cbn in Hmin. lia. }
  assert (getMessagesFor n r stateOf req = (getPrevotes st, getPrecommits st)) as Hsent.
  { unfold getMessagesFor. cbv zeta. rewrite Hst, Hqn, Z.eqb_refl, (proj2 (Z.ltb_ge r _)) by lia. cbn [negb orb].
    unfold hasMinorityPrevotesOrPrecommits, rsIsMinority. fold n. rewrite Hmore. cbn [orb negb]. rewrite andb_false_r.
    fold r. by rewrite (proj2 (Z.eqb_neq _ _)) by lia. }
  assert (mj_round (fullJob roundValidatorsAt our p) = r) as Hjr.
  { cbn. unfold getHighestRoundToDownload. rewrite Hp. unfold getValidatorsSignedPrevoteCount in Hmin. cbn in *.
    rewrite <- (later_round st0 st Hlater). fold r. rewrite (proj2 (Z.leb_gt _ _)) by lia. by rewrite Hn, Hmin. }
  assert (∀ k, sideOf k (getPrevotes st, getPrecommits st) = mapValues (ballots k st)) as Hside by (by intros []).
  rewrite Hsent, (checkAnswer_honest respond _ _ r).
  - unfold checkResponse. rewrite !keyed_values. cbn [fst snd]. unfold getPrevotes, getPrecommits.
    rewrite (keyed_ballots st _ Prevotes Hwf : keyed (mapValues (rs_prevotes st)) = _).
    rewrite (keyed_ballots st _ Precommits Hwf : keyed (mapValues (rs_precommits st)) = _). cbn [ballots].
    destruct (mapValues (rs_prevotes st) ++ mapValues (rs_precommits st)) as [|m rest] eqn:Hall.
    { apply app_eq_nil in Hall as [Hnil%fmap_nil_inv _]. apply isMinority_spec in Hmore. rewrite Hnil in Hmore. unfold mapSize in Hmore.
      cbn in Hmore. lia. }
    assert (msg_round m = r) as ->.
    { assert (m ∈ mapValues (rs_prevotes st) ++ mapValues (rs_precommits st)) as Hm by (rewrite Hall; left).
      apply elem_of_app in Hm as [([i m'] & -> & Hm)%list_elem_of_fmap|([i m'] & -> & Hm)%list_elem_of_fmap];
        [by apply (Hown Prevotes i) | by apply (Hown Precommits i)]. }
    cbn [mj_ourHeader fullJob]. rewrite (proj2 (Z.ltb_lt _ _)) by lia. unfold checkFullRoundResponse.
    cbn [mj_blockNumber fullJob]. rewrite Hn. fold n. destruct (isMajority (mapSize (rs_prevotes st) + _) _); cbn; [| naive_solver].
    rewrite is_ok_guard. tauto.
  - done.
  - lia.
  - intros k. rewrite Hside. destruct (ballots_tally st _ k Hwf) as (cs & Ht).
    rewrite <- keyed_keys, (keyed_ballots st _ k Hwf). apply (tally_keys _ _ _ _ Ht).
  - intros k m. rewrite Hside. intros ([i m'] & -> & Hm)%list_elem_of_fmap. cbn. rewrite Hn. by apply (Hown k i).
Qed.
End exchange.
