(* ===== verification/ProposalDownloader.v ===== *)
(** * packages/p2p/source/downloader/proposal-downloader.ts

    A node without the proposal of its round asks a peer that has it, one at a
    time.  Also modelled: the answering side,
    socket-server/controllers/get-proposal.ts. *)
From S2P Require Import Prelude Bytes Serializer Messages Blocks Proposals JsMap Quorum ValidatorSet RoundState Processors MessageDownloader.

Record ProposalJob := mkProposalJob { pj_peer : Peer; pj_blockNumber : Z; pj_round : Z }.

(** The rounds being asked for, the jobs whose answer is awaited, the peers banned. *)
Record ProposalDownloader := mkProposalDownloader {
  pd_downloads : JsMap Z (list Z);
  pd_jobs : list ProposalJob;
  pd_banned : list string;
}.
#[export] Instance eta_ProposalDownloader : Eta ProposalDownloader := λ d,
  mkProposalDownloader (pd_downloads d) (pd_jobs d) (pd_banned d).
Definition newProposalDownloader : ProposalDownloader := mkProposalDownloader [] [] [].

(** [#downloadsByBlockNumber.get(blockNumber)?.has(round)]. *)
Definition hasSlot (d : ProposalDownloader) (blockNumber round : Z) : bool :=
  match mapGet (pd_downloads d) blockNumber with
  | Some rounds => bool_decide (round ∈ rounds)
  | None => false
  end.

Definition canDownloadProposal (ourHeader peerHeader : HeaderData) (d : ProposalDownloader) : bool :=
  if negb (hd_blockNumber ourHeader =? hd_blockNumber peerHeader) || negb (hd_round ourHeader =? hd_round peerHeader) then false
  else if hasSlot d (hd_blockNumber peerHeader) (hd_round peerHeader) then false
  else negb (isSome (hd_proposedBlockHash ourHeader)) &&
       match hd_proposedBlockHash peerHeader with Some hash => negb (String.eqb hash "") | None => false end.

Definition setDownload (job : ProposalJob) (d : ProposalDownloader) : ProposalDownloader :=
  let rounds := default [] (mapGet (pd_downloads d) (pj_blockNumber job)) in
  d <| pd_downloads ::= λ m, mapSet m (pj_blockNumber job) (if bool_decide (pj_round job ∈ rounds) then rounds else rounds ++ [pj_round job]) |>.

Definition removeDownload (job : ProposalJob) (d : ProposalDownloader) : ProposalDownloader :=
  match mapGet (pd_downloads d) (pj_blockNumber job) with
  | None => d
  | Some rounds =>
      let rounds' := List.filter (λ r, negb (r =? pj_round job)) rounds in
      d <| pd_downloads ::= λ m,
             if bool_decide (rounds' = []) then mapDelete m (pj_blockNumber job) else mapSet m (pj_blockNumber job) rounds' |>
  end.

(** [busy] is [blockDownloader.isDownloading()]; the request is sent. *)
Definition downloadProposal (busy : bool) (ourHeader : HeaderData) (peer : Peer) (d : ProposalDownloader) : ProposalDownloader :=
  if busy then d
  else if negb (canDownloadProposal ourHeader (pe_header peer) d) then d
  else
    let job := mkProposalJob peer (hd_blockNumber (pe_header peer)) (hd_round (pe_header peer)) in
    setDownload job d <| pd_jobs ::= λ l, l ++ [job] |>.

Definition tryToDownloadProposal (busy : bool) (pick : nat) (ourHeader : HeaderData) (peers : list Peer) (d : ProposalDownloader) : ProposalDownloader :=
  if busy then d
  else
    let peers' := List.filter (λ p, canDownloadProposal ourHeader (pe_header p) d) peers in
    match peers' !! (pick mod length peers')%nat with
    | None => d
    | Some peer => downloadProposal busy ourHeader peer d
    end.

Section answer.
Context `{Viem} `{HashFactory} (roundValidatorsAt : option Z → Z) (isAddress : string → bool).

(** The [try] of [#downloadProposalFromPeer]: [response] is what the processor makes
    of the proposal. *)
Definition checkProposal (job : ProposalJob) (answer : result (list byte)) (response : Proposal → result ProcessorResult) : result unit :=
  bytes ← answer;
  if bool_decide (bytes = []) then Ok tt
  else
    proposal ← makeProposalFromBytes roundValidatorsAt isAddress bytes;
    guardR (p_blockNumber proposal =? pj_blockNumber job) (JSError "Received proposal blockNumber does not match expected");;
    guardR (p_round proposal =? pj_round job) (JSError "Received proposal round does not match expected");;
    result ← response proposal;
    guardR (negb (bool_decide (result = Invalid))) (JSError "Received proposal is invalid").

(** The [k]-th job's answer has come; [peers] once the peer may have been banned. *)
Definition onProposal (k : nat) (answer : result (list byte)) (response : Proposal → result ProcessorResult)
    (busy : bool) (pick : nat) (ourHeader : HeaderData) (peers : list Peer) (d : ProposalDownloader) : ProposalDownloader :=
  match pd_jobs d !! k with
  | None => d
  | Some job =>
      let d1 := removeDownload job (d <| pd_jobs ::= delete k |>) in
      match checkProposal job answer response with
      | Ok _ => d1
      | Throw _ => tryToDownloadProposal busy pick ourHeader peers (d1 <| pd_banned ::= λ l, l ++ [pe_ip (pj_peer job)] |>)
      end
  end.
End answer.

(** The listener of [BlockEvent.Applied]. *)
Definition onAppliedProposal (number : Z) (d : ProposalDownloader) : ProposalDownloader :=
  d <| pd_downloads ::= λ m, mapDelete m number |>.

Definition isDownloadingProposal (d : ProposalDownloader) : bool := 0 <? mapSize (pd_downloads d).

(** ** get-proposal.ts

    The peer is at [blockNumber] and [round], [stateOf] are its round states. *)
Definition getProposalFor (blockNumber round : Z) (stateOf : Z → RoundState) (request : HeaderData) : list byte :=
  if negb (hd_blockNumber request =? blockNumber) then []
  else if round <? hd_round request then []
  else match getProposal (stateOf (hd_round request)) with
       | None => []
       | Some proposal => p_serialized proposal
       end.

(** ** One request for a round *)
Definition asksFor (n r : Z) (job : ProposalJob) : bool := (pj_blockNumber job =? n) && (pj_round job =? r).
Definition asks (n r : Z) (jobs : list ProposalJob) : nat := length (List.filter (asksFor n r) jobs).

(** Outside the block numbers [applied], a round has a slot exactly while one job asks for it. *)
Definition slotsOk (applied : list Z) (d : ProposalDownloader) : Prop :=
  ∀ n r, n ∉ applied → asks n r (pd_jobs d) = Nat.b2n (hasSlot d n r).

Lemma asks_app n r l l' : asks n r (l ++ l') = (asks n r l + asks n r l')%nat.
Proof. unfold asks. by rewrite List.filter_app, length_app. Qed.
Lemma asks_one n r job : asks n r [job] = Nat.b2n (asksFor n r job).
Proof. unfold asks. cbn. by destruct (asksFor n r job). Qed.

Lemma asksFor_true n r job : asksFor n r job = true ↔ pj_blockNumber job = n ∧ pj_round job = r.
Proof. unfold asksFor. by rewrite andb_true_iff, !Z.eqb_eq. Qed.

Lemma hasSlot_set job d n r : hasSlot (setDownload job d) n r = hasSlot d n r || asksFor n r job.
Proof.
  unfold hasSlot, setDownload, asksFor. cbn. rewrite mapGet_set. destruct (Z.eqb_spec (pj_blockNumber job) n) as [<-|Hne].
  - rewrite decide_True by done. cbn [andb]. assert (∀ rounds, bool_decide (r ∈ (if bool_decide (pj_round job ∈ rounds) then rounds else rounds ++ [pj_round job])) =
      bool_decide (r ∈ rounds) || (pj_round job =? r)) as Hgen.
    { intros rounds. apply eq_true_iff_eq. rewrite orb_true_iff, !bool_decide_eq_true, Z.eqb_eq.
      case_bool_decide; rewrite ?elem_of_app, ?list_elem_of_singleton; naive_solver. }
    rewrite Hgen. destruct (mapGet (pd_downloads d) (pj_blockNumber job)); done.
  - rewrite decide_False by done. by rewrite orb_false_r.
Qed.

Lemma hasSlot_remove job d n r : hasSlot (removeDownload job d) n r = hasSlot d n r && negb (asksFor n r job).
Proof.
  unfold hasSlot, removeDownload, asksFor. destruct (mapGet (pd_downloads d) (pj_blockNumber job)) as [rounds|] eqn:Hr; cycle 1.
  { destruct (Z.eqb_spec (pj_blockNumber job) n) as [<-|]; [by rewrite Hr | by rewrite andb_true_r]. }
  set (rounds' := List.filter _ rounds). cbn. destruct (Z.eqb_spec (pj_blockNumber job) n) as [<-|Hne]; cbn [andb negb].
  - rewrite Hr. assert (bool_decide (r ∈ rounds') = bool_decide (r ∈ rounds) && negb (pj_round job =? r)) as Hin.
    { apply eq_true_iff_eq. rewrite andb_true_iff, !bool_decide_eq_true, negb_true_iff, Z.eqb_neq. unfold rounds'.
      rewrite !list_elem_of_In, filter_In, negb_true_iff, Z.eqb_neq. naive_solver. }
    rewrite <- Hin. destruct (decide (rounds' = [])) as [Hnil|Hnil];
      [rewrite (bool_decide_eq_true_2 _ Hnil), mapGet_delete, decide_True by done
      | rewrite (bool_decide_eq_false_2 _ Hnil); by rewrite mapGet_set_eq].
    rewrite Hnil. by rewrite bool_decide_eq_false_2 by apply not_elem_of_nil.
  - rewrite andb_true_r. destruct (bool_decide (rounds' = []));
      [rewrite mapGet_delete, decide_False by done | rewrite mapGet_set_ne by done]; done.
Qed.

Lemma slots_download applied busy our peer d : slotsOk applied d → slotsOk applied (downloadProposal busy our peer d).
Proof.
  intros Hok. unfold downloadProposal. destruct busy; [done |]. destruct (canDownloadProposal _ _ _) eqn:Hcan; cbn [negb]; [| done].
  unfold canDownloadProposal in Hcan. destruct (_ || _); [done |]. destruct (hasSlot _ _ _) eqn:Hslot; [done |]. clear Hcan.
  intros n r Hn. set (job := mkProposalJob _ _ _).
  change (asks n r (pd_jobs d ++ [job]) = Nat.b2n (hasSlot (setDownload job d) n r)). rewrite asks_app, asks_one, (Hok n r Hn), hasSlot_set.
  destruct (asksFor n r job) eqn:Ha; [| rewrite orb_false_r; cbn; lia]. apply asksFor_true in Ha as [<- <-]. cbn in Hslot |- *. by rewrite Hslot.
Qed.

Lemma slots_try applied busy pick our peers d : slotsOk applied d → slotsOk applied (tryToDownloadProposal busy pick our peers d).
Proof. intros Hok. unfold tryToDownloadProposal. destruct busy; [done |]. cbv zeta. destruct (_ !! _); [by apply slots_download | done]. Qed.

Lemma slots_finish `{Viem} `{HashFactory} rva isAddr applied k answer response busy pick our peers d :
  slotsOk applied d → slotsOk applied (onProposal rva isAddr k answer response busy pick our peers d).
Proof.
  intros Hok. unfold onProposal. destruct (pd_jobs d !! k) as [job|] eqn:Hk; [| done]. cbv zeta.
  assert (slotsOk applied (removeDownload job (d <| pd_jobs ::= delete k |>))) as Hdone.
  { intros n r Hn. rewrite hasSlot_remove. assert (pd_jobs (removeDownload job (d <| pd_jobs ::= delete k |>)) = delete k (pd_jobs d)) as ->.
    { unfold removeDownload. by destruct (mapGet _ _). }
    specialize (Hok n r Hn). rewrite <- (take_drop_middle _ _ _ Hk) in Hok. change (job :: ?l) with ([job] ++ l) in Hok.
    rewrite !asks_app, asks_one in Hok. rewrite delete_take_drop, asks_app. change (hasSlot (d <| pd_jobs ::= delete k |>) n r) with (hasSlot d n r).
    destruct (hasSlot d n r), (asksFor n r job); cbn in *; lia. }
  destruct (checkProposal _ _ _ _ _); [done |]. apply slots_try. exact Hdone.
Qed.

Lemma slots_applied applied number d : slotsOk applied d → slotsOk (number :: applied) (onAppliedProposal number d).
Proof.
  intros Hok n r [Hne Hn]%not_elem_of_cons. unfold hasSlot, onAppliedProposal. cbn. rewrite mapGet_delete, decide_False by congruence. by apply Hok.
Qed.

(** What becomes of an honest answer: it passes exactly when it is empty or when the
    node was still in the job's round when the request left, since the peer answers
    for the round of the header that the request carries. *)
Theorem honest_proposal_answer `{Viem} `{HashFactory} rva isAddr blockNumber round stateOf req job response :
  (∀ r p, getProposal (stateOf r) = Some p → p_blockNumber p = blockNumber ∧ p_round p = r ∧
    ∃ p', makeProposalFromBytes rva isAddr (p_serialized p) = Ok p' ∧ p_blockNumber p' = blockNumber ∧ p_round p' = r) →
  (∀ p, ∃ result, response p = Ok result ∧ result ≠ Invalid) →
  let sent := getProposalFor blockNumber round stateOf req in
  checkProposal rva isAddr job (Ok sent) response = Ok tt ↔
  sent = [] ∨ pj_blockNumber job = hd_blockNumber req ∧ pj_round job = hd_round req.
Proof.
  intros Hstate Hresp sent. unfold checkProposal. cbn. case_bool_decide as Hempty; [tauto |].
  assert (∃ p, sent = p_serialized p ∧ getProposal (stateOf (hd_round req)) = Some p ∧ hd_blockNumber req = blockNumber) as (p & Hsent & Hp & Hn).
  { unfold sent, getProposalFor in *. destruct (Z.eqb_spec (hd_blockNumber req) blockNumber) as [Hn|]; cbn [negb] in *; [| done].
    destruct (_ <? _); [done |]. destruct (getProposal _) as [p|] eqn:Hp; [by exists p | done]. }
  clearbody sent. destruct (Hstate _ _ Hp) as (_ & _ & p' & Hparse & Hn' & Hr'). rewrite Hsent, Hparse. cbn. rewrite Hn', Hr'.
  destruct (Hresp p') as (res & -> & Hres). rewrite Hn.
  destruct (Z.eqb_spec blockNumber (pj_blockNumber job)) as [Hb|Hb]; cbn; [| split; [done | intros [?|[? _]]; congruence]].
  destruct (Z.eqb_spec (hd_round req) (pj_round job)) as [Hr|Hr]; cbn; [| split; [done | intros [?|[_ ?]]; congruence]].
  rewrite bool_decide_eq_false_2 by done. cbn. split; [intros _; right; by split | done].
Qed.
