(* ===== verification/Consensus.v ===== *)
(** * packages/consensus/source/consensus.ts

    The Tendermint state machine.  Handlers run one at a time behind the handler
    lock; at every [await] of a handler the rest of the process may act, which
    [yield] models by running the next batch of environment actions.  The batches
    are part of the world, so a statement about all worlds is a statement about
    all interleavings. *)
From S2P Require Import Prelude Bytes Serializer Messages Blocks Proposals Commits JsMap Quorum BlockchainUtils.
From S2P Require Import ValidatorSet RoundState ConsensusStorage Node Processors CommitBatch.

Section consensus.
Context `{Services}.

(** ** What runs between two awaits of a handler *)

(** [process] of a processor: it starts unless the commit lock is held
    exclusively, and otherwise waits. *)
Definition startBackground (b : Background) : M World unit :=
  lock ← gets w_commitLock;
  if lock : bool then modify (λ w, w <| w_background ::= λ l, l ++ [b] |>)
  else match b with
       | BMessage m => _ ← messageBegin m; mret tt
       | BProposal p => _ ← proposalBegin p; mret tt
       end.

(** [onTimeoutBlockPrepare] up to its first await, and from there on. *)
Definition blockPrepareBegin : M World unit :=
  c ← gets w_core;
  _ ← scheduleTimeoutPropose (k_blockNumber c) (k_round c);
  match k_proposalPromise c with
  | None => mret tt
  | Some promise => modify (λ w, w <| w_awaiting ::= λ s, {[promise]} ∪ s |>)
  end.

Definition blockPrepareFinish (promise : Z) : M World unit :=
  w ← get;
  if negb (bool_decide (promise ∈ w_awaiting w)) then mret tt
  else
    modify (λ w, w <| w_awaiting ::= λ s, s ∖ {[promise]} |>);;
    c ← gets w_core;
    if k_isDisposed c || negb (bool_decide (k_proposalPromise c = Some promise)) then mret tt
    else
      setCore (λ c, c <| k_proposalPromise := None |>);;
      match w_promises w !! promise with
      | Some (Some proposal) =>
          onStorage (λ ok, saveProposal ok proposal);;
          startBackground (BProposal proposal)
      | _ => mret tt
      end.

Definition fireBlockPrepare : M World unit :=
  s ← gets w_scheduler;
  match sch_timeoutBlockPrepare s with
  | Some _ => onScheduler (modify (λ s, s <| sch_timeoutBlockPrepare := None |>));; blockPrepareBegin
  | None => mret tt
  end.

(** A processor call that has finished verifying leaves the lock. *)
Definition finishInFlight (f : InFlight) : M World unit :=
  match f with
  | FMessage m l => _ ← messageFinish m l; mret tt
  | FProposal p l => _ ← proposalFinish p l; mret tt
  end.

(** [dispose], up to the handler lock. *)
Definition disposeBegin : M World unit :=
  clearTimers;; setCore (λ c, c <| k_isDisposed := true |>).

Definition envAction (a : EnvAction) : M World unit :=
  match a with
  | ADeliverMessage bytes =>
      message ← liftR (makeMessageFromBytes roundValidatorsAt bytes);
      startBackground (BMessage message)
  | ADeliverProposal bytes =>
      chain ← gets w_chain;
      proposal ← liftR (makeProposalFromBytes (roundValidatorsOr chain) isAddress bytes);
      startBackground (BProposal proposal)
  | ABackground =>
      w ← get;
      match w_background w with
      | [] => mret tt
      | b :: rest => modify (λ w, w <| w_background := rest |>);; startBackground b
      end
  | AVerified k =>
      w ← get;
      match w_inFlight w !! k with
      | Some f => modify (λ w, w <| w_inFlight ::= delete k |>);; finishInFlight f
      | None => mret tt
      end
  | AVerifyCommits previousBlockHash batch =>
      w ← get;
      commits ← liftR (traverse (parseCommit (w_chain w)) batch);
      valid ← liftR (traverse (checkSignature w) (withPrevious previousBlockHash commits));
      if forallb id valid && hexOfLength 64 previousBlockHash
      then modify (λ w, w <| w_pendingCommits ::= pendingAdd commits |>) else mret tt
  | ATakeCommit blockNumber =>
      w ← get;
      let '(commit, pending) := pendingTake blockNumber (w_pendingCommits w) in
      modify (λ w, w <| w_pendingCommits := pending |>);;
      match commit with
      | Some commit => _ ← commitBegin commit; mret tt
      | None => mret tt
      end
  | AClearCommits => modify (λ w, w <| w_pendingCommits := [] |>)
  | AFireBlockPrepare => fireBlockPrepare
  | APrepared promise => blockPrepareFinish promise
  | AFirePropose => firePropose
  | AFirePrevote => firePrevote
  | AFirePrecommit => firePrecommit
  | ADispose => disposeBegin
  | AClock time => modify (λ w, w <| w_clock := time |>)
  | ADisk ok => modify (λ w, w <| w_diskOk := ok |>)
  end.

(** Errors of these calls are reported to their own callers. *)
Definition envBatch (l : list EnvAction) (w : World) : World :=
  foldl (λ w a, run_in (envAction a) w) w l.

Definition yield : M World unit := λ w,
  match w_env w with
  | [] => (Ok tt, w)
  | batch :: rest => (Ok tt, envBatch batch (w <| w_env := rest |>))
  end.

(** [await m]: [m], then the others; also when [m] rejects. *)
Definition await {A} (m : M World A) : M World A := λ w,
  let '(r, w1) := m w in (r, (yield w1).2).

(** A call that never returns: it would wait for a lock that it holds itself, or
    goes deeper than the fuel allows. *)
Definition stuck {A} : M World A := emit EvStuck;; throw OutOfFuel.

(** Processor calls in flight when an exclusive section of the commit lock
    begins are waited for; later ones wait for the section.  A section inside
    a section would wait for itself for ever. *)
Definition drain : M World unit := λ w,
  (Ok tt, foldl (λ w f, run_in (finishInFlight f) w) (w <| w_inFlight := [] |>) (w_inFlight w)).

Definition runExclusive {A} (m : M World A) : M World A :=
  lock ← gets w_commitLock;
  if lock : bool then stuck
  else
    modify (λ w, w <| w_commitLock := true |>);;
    tryFinally (yield;; await drain;; m) (λ w, w <| w_commitLock := false |>).

(** ** Getters *)
Definition roundOf (l : option Z) (w : World) : option Z := l ≫= λ l, rs_round <$> w_rounds w !! l.
Definition getStateData (w : World) : StateData :=
  let c := w_core w in
  mkStateData (k_blockNumber c) (k_round c) (k_step c)
    (roundOf (k_lockedValue c) w) (roundOf (k_validValue c) w).

Definition dispatch (name : string) : M World unit :=
  w ← get; await (emit (EvDispatch name (getStateData w))).

(** [EvPersist] tells what the store holds once the write has returned. *)
Definition observeStore : M World unit :=
  stored ← gets (λ w, getState (w_storage w));
  match stored with
  | Some d => emit (EvPersist d)
  | None => mret tt
  end.

Definition persistState : M World unit :=
  w ← get;
  await (onStorage (λ ok, saveState ok (getStateData w));; observeStore).

Definition isCurrentRoundState (c : Core) (r : RoundState) : bool :=
  (rs_blockNumber r =? k_blockNumber c) && (rs_round r =? k_round c).

Definition isFromFuture (b : BlockHeader) : M World bool :=
  now ← gets w_clock;
  timeouts ← milestoneTimeouts;
  mret (now + to_tolerance timeouts <? bh_timestamp (bh_raw b)).

(** ** Voting *)

(** [#getValidators]: the registered validators of the round without a vote. *)
Fixpoint collectValidators (vs : ValidatorSet) (hasVote : Z → bool) (l : list ValidatorWallet)
    : result (list (string * Z)) :=
  match l with
  | [] => Ok []
  | w :: rest =>
      match validatorKey (vw_blsPublicKey w) with
      | None => collectValidators vs hasVote rest
      | Some key =>
          index ← getValidatorIndexByWalletAddress vs (vw_address w);
          others ← collectValidators vs hasVote rest;
          Ok (if hasVote index then others else (key, index) :: others)
      end
  end.

Definition getValidators (hasVote : Z → bool) : M World (list (string * Z)) :=
  n ← milestoneValidators;
  vs ← gets (λ w, ch_validatorSet (w_chain w));
  validators ← liftR (getRoundValidators n vs);
  liftR (collectValidators vs hasVote validators).

(** validator.ts: [prevote] and [precommit].  The trace records what is signed
    when the bytes to sign are handed to the key. *)
Definition signVote (type : Z) (key : string) (index blockNumber round : Z) (value : option string)
    : M World Message :=
  context ← signatureContext;
  let data := mkSignatureMessageData type blockNumber round value in
  _ ← liftR (serializeMessageForSignature data context);
  emit (EvSign index data);;
  liftR (makeMessage roundValidatorsAt blsSign type blockNumber round value index key context).

Definition vote (type : Z) (hasVote : RoundState → Z → bool) (value : option string) : M World unit :=
  c ← gets w_core;
  roundState ← getRoundState (k_blockNumber c) (k_round c);
  r ← getRS roundState;
  validators ← getValidators (hasVote r);
  forEach validators (λ '(key, index),
    c ← gets w_core;
    vote ← await (signVote type key index (k_blockNumber c) (k_round c) value);
    await (onStorage (λ ok, saveMessage ok vote));;
    modify (λ w, w <| w_background ::= λ l, l ++ [BMessage vote] |>)).

Definition prevote (value : option string) : M World unit := vote MessageType_Prevote hasPrevote value.
Definition precommit (value : option string) : M World unit := vote MessageType_Precommit hasPrecommit value.

(** ** Proposing *)
Definition createProposal (roundState : Z) (key : string) : M World Proposal :=
  c ← gets w_core;
  r ← getRS roundState;
  proposer ← liftR (assert_defined (rs_proposer r));
  chain ← gets w_chain;
  validatorIndex ← liftR (getValidatorIndexByWalletAddress (ch_validatorSet chain) (vw_address proposer));
  let propose validRound block lockProof :=
    payload ← serializePayload block lockProof;
    makeProposal (roundValidatorsOr chain) isAddress blsSign (k_round c) validRound
      (hexEncode payload) validatorIndex key in
  match k_validValue c with
  | Some validValue =>
      v ← getRS validValue;
      block ← liftR (getBlock v);
      lockProof ← liftR (aggregatePrevotes roundValidatorsAt v);
      liftR (propose (Some (rs_round v)) block (Some lockProof))
  | None =>
      timestamp ← getNextBlockTimestamp (k_roundStartTime c) (k_round c);
      genesis ← liftR (getGenesisCommit chain);
      last ← liftR (getLastBlock chain);
      message ← liftR (randaoMessage (b_hash (c_block genesis))
                         (bh_randaoReveal (b_raw last)) (k_blockNumber c));
      let reveal := blsSign message (hexDecode key) in
      block ← liftR (forgeBlock chain (vw_address proposer) (k_round c) timestamp reveal);
      liftR (propose None block None)
  end.

(** [prepareProposal]: the pending proposal is a promise; an error becomes the
    result [undefined] in [#makeProposal]. *)
Definition prepareProposal (roundState : Z) : M World unit :=
  r ← getRS roundState;
  if hasProposal r then mret tt
  else
    proposer ← liftR (assert_defined (rs_proposer r));
    match validatorKey (vw_blsPublicKey proposer) with
    | None => mret tt
    | Some key =>
        proposal ← tryCatch (p ← createProposal roundState key; mret (Some p)) (λ _, mret None);
        promise ← gets w_next;
        modify (λ w, w <| w_next := promise + 1 |> <| w_promises ::= <[promise := proposal]> |>);;
        setCore (λ c, c <| k_proposalPromise := Some promise |>)
    end.

Definition beginRound : M World unit :=
  now ← gets w_clock;
  setCore (λ c, c <| k_roundStartTime := now |> <| k_proposalPromise := None |>);;
  clearTimers;;
  c ← gets w_core;
  if k_isDisposed c then mret tt
  else
    roundState ← getRoundState (k_blockNumber c) (k_round c);
    r ← getRS roundState;
    _ ← liftR (assert_defined (rs_proposer r));
    dispatch "RoundStarted";;
    c ← gets w_core;
    if negb (bool_decide (k_step c = Propose)) then mret tt
    else
      timestamp ← getNextBlockTimestamp (k_roundStartTime c) (k_round c);
      _ ← scheduleTimeoutBlockPrepare timestamp;
      pending ← gets w_pendingCommits;
      if pendingHas (k_blockNumber c) pending then mret tt
      else await (prepareProposal roundState).

(** ** Processing the block of a round state *)
Definition deserializeProposal (roundState : Z) (proposal : Proposal) : M World unit :=
  chain ← gets w_chain;
  proposal' ← liftR (deserializePayload (roundValidatorsOr chain) isAddress txSchemaValid proposal);
  onRound roundState (modify (λ r, r <| rs_proposal := Some proposal' |>)).

Definition processProposal (roundState : Z) : M World unit :=
  r ← getRS roundState;
  match hasProcessorResult r, getProposal r with
  | false, Some proposal =>
      tryCatch
        (await (deserializeProposal roundState proposal);;
         valid ← await (hasValidLockProof proposal);
         if negb valid then onRound roundState (setProcessorResult failedProcessorResult)
         else
           r ← getRS roundState;
           block ← liftR (getBlock r);
           chain ← gets w_chain;
           result ← await (mret (processBlock chain block));
           onRound roundState (setProcessorResult result))
        (λ _, onRound roundState (setProcessorResult failedProcessorResult))
  | _, _ => mret tt
  end.

(** ** Rules that stay within the round *)
Definition onProposal (roundState : Z) : M World unit :=
  r ← getRS roundState;
  c ← gets w_core;
  match getProposal r with
  | None => mret tt
  | Some proposal =>
      if negb (bool_decide (k_step c = Propose) && isCurrentRoundState c r &&
               negb (isSome (p_validRound proposal)) && hasProcessorResult r) then mret tt
      else
        setCore (λ c, c <| k_step := Prevote |>);;
        persistState;;
        dispatch "ProposalAccepted";;
        locked ← core k_lockedValue;
        if isSome locked then await (prevote None)
        else
          future ← isFromFuture (p_blockHeader proposal);
          if future : bool then await (prevote None)
          else
            r ← getRS roundState;
            result ← liftR (getProcessorResult r);
            await (prevote (if bpr_success result then Some (p_hash proposal) else None))
  end.

(** [lockedValue === undefined || lockedValue.round <= validRound ||
    lockedValue.getProposal()?.blockHeader.hash === hash] *)
Definition isAllowedByLock (w : World) (locked : option Z) (validRound : Z) (hash : string) : bool :=
  match locked with
  | None => true
  | Some l =>
      match w_rounds w !! l with
      | None => false
      | Some r =>
          (rs_round r <=? validRound) ||
          match rs_proposal r with Some p => String.eqb (p_hash p) hash | None => false end
      end
  end.

Definition onProposalLocked (roundState : Z) : M World unit :=
  r ← getRS roundState;
  c ← gets w_core;
  match getProposal r with
  | None => mret tt
  | Some proposal =>
      match p_lockProof proposal, p_validRound proposal with
      | Some _, Some validRound =>
          if negb (bool_decide (k_step c = Propose) && isCurrentRoundState c r &&
                   (validRound <? k_round c) && hasProcessorResult r) then mret tt
          else
            setCore (λ c, c <| k_step := Prevote |>);;
            persistState;;
            dispatch "ProposalAccepted";;
            locked ← core k_lockedValue;
            w ← get;
            r ← getRS roundState;
            let allowed := isAllowedByLock w locked validRound (p_hash proposal) in
            success ← (if allowed then result ← liftR (getProcessorResult r); mret (bpr_success result)
                       else mret false);
            if success : bool then await (prevote (Some (p_hash proposal)))
            else await (prevote None)
      | _, _ => mret tt
      end
  end.

Definition onMajorityPrevote (roundState : Z) : M World unit :=
  r ← getRS roundState;
  c ← gets w_core;
  match getProposal r with
  | None => mret tt
  | Some proposal =>
      if negb (negb (k_didMajorityPrevote c) && (stepZ Prevote <=? stepZ (k_step c)) &&
               isCurrentRoundState c r) then mret tt
      else
        result ← liftR (getProcessorResult r);
        if negb (bpr_success result) then mret tt
        else
          setCore (λ c, c <| k_didMajorityPrevote := true |>);;
          if bool_decide (k_step c = Prevote) then
            setCore (λ c, c <| k_lockedValue := Some roundState |> <| k_validValue := Some roundState |>
                            <| k_step := Precommit |>);;
            persistState;;
            dispatch "PrevotedProposal";;
            await (precommit (Some (p_hash proposal)))
          else
            setCore (λ c, c <| k_validValue := Some roundState |>);;
            persistState;;
            dispatch "PrevotedProposal"
  end.

Definition onMajorityPrevoteAny (roundState : Z) : M World unit :=
  r ← getRS roundState;
  c ← gets w_core;
  if negb (bool_decide (k_step c = Prevote) && isCurrentRoundState c r) then mret tt
  else
    scheduled ← scheduleTimeoutPrevote (k_blockNumber c) (k_round c);
    when scheduled (dispatch "PrevotedAny").

Definition onMajorityPrevoteNull (roundState : Z) : M World unit :=
  r ← getRS roundState;
  c ← gets w_core;
  if negb (bool_decide (k_step c = Prevote) && isCurrentRoundState c r) then mret tt
  else
    setCore (λ c, c <| k_step := Precommit |>);;
    persistState;;
    dispatch "PrevotedNull";;
    await (precommit None).

Definition onMajorityPrecommitAny (roundState : Z) : M World unit :=
  r ← getRS roundState;
  c ← gets w_core;
  if negb (isCurrentRoundState c r) then mret tt
  else
    scheduled ← scheduleTimeoutPrecommit (k_blockNumber c) (k_round c);
    when scheduled (dispatch "PrecommittedAny").

Definition onMajorityPrecommitWithoutProposal (roundState : Z) : M World unit :=
  r ← getRS roundState;
  c ← gets w_core;
  if negb (negb (k_didMajorityPrecommitWithoutProposal c) && isCurrentRoundState c r) then mret tt
  else setCore (λ c, c <| k_didMajorityPrecommitWithoutProposal := true |>).

(** ** Rules that leave the round

    [rules] stands for the recursive call of [applyRules]. *)
Definition startRound (rules : Z → M World unit) (round : Z) : M World unit :=
  setCore (λ c, c <| k_round := round |> <| k_step := Propose |> <| k_didMajorityPrevote := false |>
                  <| k_didMajorityPrecommit := false |>
                  <| k_didMajorityPrecommitWithoutProposal := false |>);;
  when (0 <? round) persistState;;
  await beginRound;;
  c ← gets w_core;
  if k_isDisposed c then mret tt
  else
    roundState ← getRoundState (k_blockNumber c) (k_round c);
    await (rules roundState).

(** [Contracts.Processor.ProcessableUnit]: a round state or a commit state. *)
Inductive ProcessableUnit :=
  | URound (roundState : Z)
  | UCommit (commitState : Z).

Definition unitBlockNumber (u : ProcessableUnit) : M World Z :=
  match u with
  | URound l => r ← getRS l; mret (rs_blockNumber r)
  | UCommit l => c ← getCS l; mret (cs_blockNumber c)
  end.
Definition unitRound (u : ProcessableUnit) : M World Z :=
  match u with
  | URound l => r ← getRS l; mret (rs_round r)
  | UCommit l => c ← getCS l; mret (cs_round c)
  end.
Definition unitBlock (u : ProcessableUnit) : M World Block :=
  match u with
  | URound l => r ← getRS l; liftR (getBlock r)
  | UCommit l => c ← getCS l; mret (c_block (cs_commit c))
  end.
Definition unitResult (u : ProcessableUnit) : M World BlockProcessorResult :=
  match u with
  | URound l => r ← getRS l; liftR (getProcessorResult r)
  | UCommit l =>
      c ← getCS l;
      match cs_processorResult c with
      | Some r => mret r
      | None => throw (JSError "Processor result is undefined.")
      end
  end.
Definition unitCommit (u : ProcessableUnit) : M World Commit :=
  match u with
  | URound l => onRound l (getCommit roundValidatorsAt)
  | UCommit l => c ← getCS l; mret (cs_commit c)
  end.

(** processor/source/block-processor.ts: [commit], its effects on the node. *)
Definition accepted (ok : bool) (what : string) : M World unit :=
  if ok then mret tt else throw (JSError what).

Definition commitUnit (u : ProcessableUnit) : M World unit :=
  commit ← await (unitCommit u);
  await (accepted (evmOnCommit commit) "evm");;
  block ← unitBlock u;
  round ← unitRound u;
  await (onChain (storeOnCommit block round));;
  await (accepted (databaseOnCommit commit) "database");;
  blockNumber ← unitBlockNumber u;
  n ← milestoneValidators;
  await (onChain (zoomM ch_validatorSet (λ v c, c <| ch_validatorSet := v |>)
           (@onCommit (consensusContract blockNumber) n (isNewRoundAt (blockNumber + 1)) false)));;
  await (accepted (workersOnCommit commit) "one or more commit handlers failed");;
  emit (EvCommit blockNumber round (b_hash block)).

Definition onMajorityPrecommit (rules : Z → M World unit) (u : ProcessableUnit) (isRoundState : bool)
    : M World unit :=
  blockNumber ← unitBlockNumber u;
  c ← gets w_core;
  if negb ((blockNumber =? k_blockNumber c) && (negb isRoundState || negb (k_didMajorityPrecommit c)))
  then mret tt
  else
    when isRoundState (setCore (λ c, c <| k_didMajorityPrecommit := true |>));;
    _ ← unitBlock u;
    result ← unitResult u;
    if negb (bpr_success result) then mret tt
    else
      dispatch "PrecommittedProposal";;
      await (runExclusive (
        tryCatch (await (commitUnit u)) (λ _, throw (FatalError "Failed to commit block"));;
        clearRoundStates;;
        setCore (λ c, c <| k_blockNumber ::= Z.succ |> <| k_lockedValue := None |> <| k_validValue := None |>);;
        await (startRound rules 0))).

Definition onMinorityWithHigherRound (rules : Z → M World unit) (roundState : Z) : M World unit :=
  r ← getRS roundState;
  c ← gets w_core;
  if negb ((rs_blockNumber r =? k_blockNumber c) && (k_round c <? rs_round r)) then mret tt
  else await (startRound rules (rs_round r)).

Definition ifRS (roundState : Z) (test : RoundState → bool) (m : M World unit) : M World unit :=
  r ← getRS roundState; when (test r) (await m).

Fixpoint applyRules (fuel : nat) (roundState : Z) : M World unit :=
  match fuel with
  | O => stuck
  | S fuel' =>
      r ← getRS roundState;
      c ← gets w_core;
      if negb (rs_blockNumber r =? k_blockNumber c) then mret tt
      else
        await (processProposal roundState);;
        await (onProposal roundState);;
        await (onProposalLocked roundState);;
        ifRS roundState (hasMajorityPrevotes roundValidatorsAt) (onMajorityPrevote roundState);;
        ifRS roundState (hasMajorityPrevotesAny roundValidatorsAt) (onMajorityPrevoteAny roundState);;
        ifRS roundState (hasMajorityPrevotesNull roundValidatorsAt) (onMajorityPrevoteNull roundState);;
        ifRS roundState (hasMajorityPrecommitsAny roundValidatorsAt) (onMajorityPrecommitAny roundState);;
        ifRS roundState (hasMajorityPrecommits roundValidatorsAt)
          (onMajorityPrecommit (applyRules fuel') (URound roundState) true);;
        r ← getRS roundState;
        when (hasMajorityPrecommitsWithoutProposal roundValidatorsAt r)
          (onMajorityPrecommitWithoutProposal roundState);;
        ifRS roundState (hasMinorityPrevotesOrPrecommits roundValidatorsAt)
          (onMinorityWithHigherRound (applyRules fuel') roundState)
  end.

(** ** The handlers behind the handler lock *)
Definition processCommitState (l : Z) : M World unit :=
  c ← getCS l;
  if isSome (cs_processorResult c) then mret tt
  else
    chain ← gets w_chain;
    result ← await (mret (processBlock chain (c_block (cs_commit c))));
    modify (λ w, w <| w_commits ::= alter (λ c, c <| cs_processorResult := Some result |>) l |>).

Definition whenRunning (m : M World unit) : M World unit :=
  c ← gets w_core; if k_isDisposed c then mret tt else m.

Definition isAt (c : Core) (blockNumber round : Z) : bool :=
  (k_blockNumber c =? blockNumber) && (k_round c =? round).

Definition handle (fuel : nat) (l : Z) : M World unit :=
  setCore (λ c, c <| k_pendingJobs ::= λ s, s ∖ {[l]} |>);;
  whenRunning (await (applyRules fuel l)).

Definition handleCommitState (fuel : nat) (l : Z) : M World unit :=
  whenRunning (
    cs ← getCS l;
    c ← gets w_core;
    if negb (cs_blockNumber cs =? k_blockNumber c) then mret tt
    else
      await (processCommitState l);;
      await (onMajorityPrecommit (applyRules fuel) (UCommit l) false)).

Definition onTimeoutPropose (blockNumber round : Z) : M World unit :=
  whenRunning (
    c ← gets w_core;
    if negb (bool_decide (k_step c = Propose) && isAt c blockNumber round) then mret tt
    else
      setCore (λ c, c <| k_step := Prevote |>);;
      persistState;;
      await (prevote None)).

Definition onTimeoutPrevote (blockNumber round : Z) : M World unit :=
  whenRunning (
    c ← gets w_core;
    if negb (bool_decide (k_step c = Prevote) && isAt c blockNumber round) then mret tt
    else
      roundState ← getRoundState (k_blockNumber c) (k_round c);
      logPrevotes roundState;;
      setCore (λ c, c <| k_step := Precommit |>);;
      persistState;;
      await (precommit None)).

Definition onTimeoutPrecommit (fuel : nat) (blockNumber round : Z) : M World unit :=
  whenRunning (
    c ← gets w_core;
    if negb (isAt c blockNumber round) then mret tt
    else
      roundState ← getRoundState (k_blockNumber c) (k_round c);
      logPrevotes roundState;;
      logPrecommits roundState;;
      await (startRound (applyRules fuel) (k_round c + 1))).

(** The job that has the handler lock. *)
Definition runJob (fuel : nat) (j : Job) : M World unit :=
  match j with
  | JHandle l => handle fuel l
  | JCommitState l => handleCommitState fuel l
  | JTimeoutPropose blockNumber round => onTimeoutPropose blockNumber round
  | JTimeoutPrevote blockNumber round => onTimeoutPrevote blockNumber round
  | JTimeoutPrecommit blockNumber round => onTimeoutPrecommit fuel blockNumber round
  end.

(** [run]: start from the state that the bootstrapper restored. *)
Record State := mkState {
  s_blockNumber : Z;
  s_round : Z;
  s_step : Step;
  s_lockedValue : option Z;
  s_validValue : option Z;
}.

Definition runFrom (fuel : nat) : M World unit :=
  dispatch "Bootstrapped";;
  await beginRound;;
  c ← gets w_core;
  if k_isDisposed c then mret tt
  else
    roundState ← getRoundState (k_blockNumber c) (k_round c);
    await (applyRules fuel roundState).

Definition enter (state : State) (c : Core) : Core :=
  c <| k_blockNumber := s_blockNumber state |> <| k_round := s_round state |>
    <| k_step := s_step state |> <| k_lockedValue := s_lockedValue state |>
    <| k_validValue := s_validValue state |>.

Definition run (fuel : nat) (state : State) : M World unit :=
  setCore (enter state);; runFrom fuel.
End consensus.
