(* ===== verification/BlockDownloader.v ===== *)
(** * packages/p2p/source/downloader/block-downloader.ts

    A node that is behind downloads ranges of blocks from its peers, several at
    once, and hands them to the commit processor in order.

    The calls of the class that await are split at their awaits: a request for
    blocks, the parsing of a batch, the verification of its signatures and the
    processing of a commit each end in a handler of their own, run in the world
    the rest of the node has reached by then. *)
From S2P Require Import Prelude Bytes Serializer Messages Blocks Proposals Commits JsMap Quorum BlockchainUtils.
From S2P Require Import Configuration RoundCalculator ValidatorSet RoundState ConsensusStorage Node Processors CommitBatch MessageDownloader.

(** ** constants.ts *)
Definition MAX_DOWNLOAD_BLOCKS : Z := 400.
Definition MAX_DOWNLOAD_BLOCKS_JOBS : Z := 10.
Definition MEGABYTE : Z := 1024 * 1024.
Definition MAX_PAYLOAD_CLIENT : Z := 5 * MEGABYTE.
Definition PROTO_BLOCK_OVERHEAD : Z := 5.
Definition RESPONSE_ENVELOPE_RESERVE : Z := 512.

(** ** The jobs *)
Inductive JobStatus := Downloading | ReadyToProcess | Processing.
#[export] Instance JobStatus_eq_dec : EqDecision JobStatus.
Proof. solve_decision. Defined.

(** [bj_id] is the identity of the object. *)
Record BlockJob := mkBlockJob {
  bj_id : nat;
  bj_peer : Peer;
  bj_blockNumberFrom : Z;
  bj_blockNumberTo : Z;
  bj_blocks : list (list byte);
  bj_status : JobStatus;
}.
#[export] Instance eta_BlockJob : Eta BlockJob := λ j,
  mkBlockJob (bj_id j) (bj_peer j) (bj_blockNumberFrom j) (bj_blockNumberTo j) (bj_blocks j) (bj_status j).

(** What a call of [#processBlocks] awaits. *)
Inductive Phase :=
  | Parsing (batch : list (list byte))
  | Verifying (commits : list Commit)
  | Handing (commit : Commit) (rest : list Commit).

(** Such a call, with its local variables. *)
Record Run := mkRun {
  ru_job : BlockJob;
  ru_bytesForProcess : list (list byte);
  ru_number : Z;
  ru_previousBlockHash : string;
  ru_phase : Phase;
}.
#[export] Instance eta_Run : Eta Run := λ r,
  mkRun (ru_job r) (ru_bytesForProcess r) (ru_number r) (ru_previousBlockHash r) (ru_phase r).

Record BlockDownloader := mkBlockDownloader {
  bd_jobs : list BlockJob;
  bd_next : nat;
  bd_waiting : list nat;
  bd_runs : list Run;
  bd_pending : PendingCommits;
  bd_banned : list string;
  bd_handed : list Handed;
}.
#[export] Instance eta_BlockDownloader : Eta BlockDownloader := λ d,
  mkBlockDownloader (bd_jobs d) (bd_next d) (bd_waiting d) (bd_runs d) (bd_pending d) (bd_banned d) (bd_handed d).
Definition newBlockDownloader : BlockDownloader := mkBlockDownloader [] 0 [] [] [] [] [].

(** What a handler reads of the rest of the node: the consensus' world, with the
    state store and the validator set; the peers of the repository, once the peer
    it bans is gone, and the random number of [getRandomPeer]. *)
Record Surroundings := mkSurroundings { su_world : World; su_peers : list Peer; su_pick : nat }.

Section downloader.
Context `{Services}.
(** The milestones, and [block.maxPayload] of that of a height. *)
Context (configuration : Configuration) (maxPayloadAt : Z → Z).

Definition storeBlockNumber (s : Surroundings) : Z := ch_blockNumber (w_chain (su_world s)).

Definition getLastRequestedBlockNumber (s : Surroundings) (d : BlockDownloader) : Z :=
  match last (bd_jobs d) with
  | None => storeBlockNumber s
  | Some latestJob => bj_blockNumberTo latestJob
  end.

Definition calculateBlockNumberTo (peer : Peer) (lastRequestedBlockNumber : Z) : Z :=
  if MAX_DOWNLOAD_BLOCKS <? hd_blockNumber (pe_header peer) - lastRequestedBlockNumber
  then lastRequestedBlockNumber + MAX_DOWNLOAD_BLOCKS
  else hd_blockNumber (pe_header peer) - 1.

(** A new job object. *)
Definition newJob (peer : Peer) (blockNumberFrom blockNumberTo : Z) : M BlockDownloader BlockJob :=
  d ← get;
  modify (λ d, d <| bd_next ::= S |>);;
  mret (mkBlockJob (bd_next d) peer blockNumberFrom blockNumberTo [] Downloading).

(** [#downloadBlocksFromPeer] up to its await. *)
Definition requestBlocks (job : BlockJob) : M BlockDownloader unit :=
  modify (λ d, d <| bd_waiting ::= λ l, l ++ [bj_id job] |>).

Definition downloadBlocks (s : Surroundings) (peer : Peer) : M BlockDownloader unit :=
  d ← get;
  let lastRequested := getLastRequestedBlockNumber s d in
  if (hd_blockNumber (pe_header peer) - 1 <=? lastRequested) ||
     (MAX_DOWNLOAD_BLOCKS_JOBS <=? Z.of_nat (length (bd_jobs d))) then mret tt
  else
    job ← newJob peer (lastRequested + 1) (calculateBlockNumberTo peer lastRequested);
    modify (λ d, d <| bd_jobs ::= λ l, l ++ [job] |>);;
    requestBlocks job.

Definition isDownloadingBlocks (d : BlockDownloader) : bool := 0 <? Z.of_nat (length (bd_jobs d)).

(** [#downloadJobs.indexOf(job)]. *)
Definition indexOfJob (id : nat) (jobs : list BlockJob) : option nat := fst <$> list_find (λ j, bj_id j = id) jobs.

Definition banPeer (ip : string) : M BlockDownloader unit := modify (λ d, d <| bd_banned ::= λ l, l ++ [ip] |>).

Definition replayJob (s : Surroundings) (job : BlockJob) : M BlockDownloader unit :=
  d ← get;
  match indexOfJob (bj_id job) (bd_jobs d) with
  | None => mret tt
  | Some index =>
      let isFirstJob := bool_decide (index = 0%nat) in
      let isSoleJob := bool_decide (length (bd_jobs d) = 1%nat) in
      let blockNumberFrom := if isFirstJob then storeBlockNumber s + 1 else bj_blockNumberFrom job in
      let requiredBlockNumber := if isSoleJob then blockNumberFrom else Z.max blockNumberFrom (bj_blockNumberTo job) in
      let peers := List.filter (λ p, requiredBlockNumber <? hd_blockNumber (pe_header p)) (su_peers s) in
      match peers !! (su_pick s mod length peers)%nat with
      | None => modify (λ d, d <| bd_jobs ::= take index |>)
      | Some peer =>
          let blockNumberTo := if isSoleJob then calculateBlockNumberTo peer (blockNumberFrom - 1) else bj_blockNumberTo job in
          if isFirstJob && (blockNumberTo <? blockNumberFrom) then modify (λ d, d <| bd_jobs ::= tail |>)
          else
            job' ← newJob peer blockNumberFrom blockNumberTo;
            modify (λ d, d <| bd_jobs ::= <[index := job']> |>);;
            requestBlocks job'
      end
  end.

Definition handleJobError (s : Surroundings) (job : BlockJob) : M BlockDownloader unit :=
  d ← get;
  match indexOfJob (bj_id job) (bd_jobs d) with
  | None => mret tt
  | Some _ => banPeer (pe_ip (bj_peer job));; replayJob s job
  end.

Definition sizeOfBlocks (blocks : list (list byte)) : Z := foldl (λ size block, size + Z.of_nat (length block)) 0 blocks.

Definition handleMissingBlocks (s : Surroundings) (job : BlockJob) : M BlockDownloader unit :=
  (if sizeOfBlocks (bj_blocks job) + maxPayloadAt (storeBlockNumber s + 1) <? MAX_PAYLOAD_CLIENT
   then banPeer (pe_ip (bj_peer job)) else mret tt);;
  replayJob s job.

(** [#skipAppliedBlocks]: what is left of the bytes, and its first number. *)
Definition skipAppliedBlocks (bytesForProcess : list (list byte)) (fromBlockNumber storedBlockNumber : Z) : list (list byte) * Z :=
  if storedBlockNumber <? fromBlockNumber then (bytesForProcess, fromBlockNumber)
  else
    let skipCount := Z.min (Z.of_nat (length bytesForProcess)) (storedBlockNumber - fromBlockNumber + 1) in
    (drop (Z.to_nat skipCount) bytesForProcess, fromBlockNumber + skipCount).

Definition clearPending : M BlockDownloader unit := modify (λ d, d <| bd_pending := [] |>).

(** The [catch] and the [finally] of [#processBlocks]. *)
Definition failRun (s : Surroundings) (job : BlockJob) : M BlockDownloader unit := handleJobError s job;; clearPending.

Definition awaitRun (run : Run) : M BlockDownloader unit := modify (λ d, d <| bd_runs ::= λ l, l ++ [run] |>).

Definition setJob (job : BlockJob) (f : BlockJob → BlockJob) (d : BlockDownloader) : BlockDownloader :=
  d <| bd_jobs ::= λ l, (λ j, if bool_decide (bj_id j = bj_id job) then f j else j) <$> l |>.

(** The head of the loop of [#processBlocks], and what follows it: [next] is
    [#processNextJob]. *)
Definition processLoop (next : M BlockDownloader unit) (s : Surroundings) (run : Run) : M BlockDownloader unit :=
  let job := ru_job run in
  match ru_bytesForProcess run with
  | [] =>
      clearPending;;
      if negb (bj_blockNumberTo job =? ru_number run - 1) then handleMissingBlocks s job
      else modify (λ d, d <| bd_jobs ::= tail |>);; next
  | bytesForProcess =>
      match (calculateRound (ru_number run) configuration).1 with
      | Throw _ => failRun s job
      | Ok roundInfo =>
          let count := Z.to_nat (ri_roundHeight roundInfo + ri_maxValidators roundInfo - ru_number run) in
          awaitRun (run <| ru_bytesForProcess := drop count bytesForProcess |> <| ru_phase := Parsing (take count bytesForProcess) |>)
      end
  end.

(** [#processBlocks] up to its first await, and [#processNextJob]; [fuel] counts the
    jobs. *)
Definition processBlocks (next : M BlockDownloader unit) (s : Surroundings) (job : BlockJob) : M BlockDownloader unit :=
  if negb (bool_decide (bj_status job = ReadyToProcess)) then mret tt
  else
    modify (setJob job (λ j, j <| bj_status := Processing |>));;
    match getLastBlock (w_chain (su_world s)) with
    | Throw _ => failRun s job
    | Ok lastBlock =>
        let '(bytesForProcess, number) := skipAppliedBlocks (bj_blocks job) (bj_blockNumberFrom job) (storeBlockNumber s) in
        processLoop next s (mkRun job bytesForProcess number (b_hash lastBlock) (Parsing []))
    end.

Fixpoint processNextJob (fuel : nat) (s : Surroundings) : M BlockDownloader unit :=
  d ← get;
  match bd_jobs d with
  | [] => mret tt
  | job :: _ =>
      match fuel with
      | O => throw OutOfFuel
      | S fuel' => processBlocks (processNextJob fuel' s) s job
      end
  end.
Definition processNext (s : Surroundings) : M BlockDownloader unit :=
  d ← get; processNextJob (length (bd_jobs d)) s.

(** [#downloadBlocksFromPeer] from the answer on. *)
Definition onBlocks (s : Surroundings) (id : nat) (answer : result (list (list byte))) : M BlockDownloader unit :=
  d ← get;
  if negb (bool_decide (id ∈ bd_waiting d)) then mret tt
  else
    modify (λ d, d <| bd_waiting ::= List.filter (λ i, negb (bool_decide (i = id))) |>);;
    match indexOfJob id (bd_jobs d) ≫= λ i, bd_jobs d !! i with
    | None => mret tt
    | Some job =>
        match answer with
        | Ok blocks => modify (setJob job (λ j, j <| bj_blocks := blocks |> <| bj_status := ReadyToProcess |>))
        | Throw _ => handleJobError s job
        end
    end;;
    processNext s.

(** ** The awaits of [#processBlocks]

    [withRun k f]: the [k]-th call goes on. *)
Definition withRun (k : nat) (f : Run → M BlockDownloader unit) : M BlockDownloader unit :=
  d ← get;
  match bd_runs d !! k with
  | None => mret tt
  | Some run => modify (λ d, d <| bd_runs ::= delete k |>);; f run
  end.

(** The commits of the batch are parsed. *)
Definition onParsed (s : Surroundings) (k : nat) : M BlockDownloader unit :=
  withRun k (λ run,
    match ru_phase run with
    | Parsing batch =>
        match traverse (parseCommit (w_chain (su_world s))) batch with
        | Throw _ => failRun s (ru_job run)
        | Ok commits =>
            if negb (numbersMatch (ru_number run) commits) then failRun s (ru_job run)
            else awaitRun (run <| ru_phase := Verifying commits |>)
        end
    | _ => awaitRun run
    end).

(** The loop over the commits of a verified batch. *)
Definition handNext (s : Surroundings) (run : Run) (commits : list Commit) : M BlockDownloader unit :=
  match commits with
  | [] => processLoop (processNext s) s run
  | c :: rest =>
      modify (λ d, d <| bd_pending ::= λ p, (pendingTake (b_number (c_block c)) p).2 |>);;
      modify (λ d, d <| bd_handed ::= λ l, l ++ [mkHanded c (ru_previousBlockHash run)] |>);;
      awaitRun (run <| ru_phase := Handing c rest |>)
  end.

Definition onVerified (s : Surroundings) (k : nat) : M BlockDownloader unit :=
  withRun k (λ run,
    match ru_phase run with
    | Verifying commits =>
        match traverse (checkSignature (su_world s)) (withPrevious (ru_previousBlockHash run) commits) with
        | Throw _ => failRun s (ru_job run)
        | Ok hasValidSignatures =>
            if negb (forallb id hasValidSignatures) then failRun s (ru_job run)
            else modify (λ d, d <| bd_pending ::= pendingAdd commits |>);; handNext s run commits
        end
    | _ => awaitRun run
    end).

(** The commit processor has answered. *)
Definition onProcessed (s : Surroundings) (k : nat) (response : result ProcessorResult) : M BlockDownloader unit :=
  withRun k (λ run,
    match ru_phase run with
    | Handing commit rest =>
        match response with
        | Throw _ | Ok Invalid => failRun s (ru_job run)
        | Ok _ => handNext s (run <| ru_number ::= λ n, n + 1 |> <| ru_previousBlockHash := b_hash (c_block commit) |>) rest
        end
    | _ => awaitRun run
    end).
End downloader.
