(* ===== verification/BlockSync.v ===== *)
(** * What the block downloader guarantees

    In every interleaving of headers, answers, verifications and processed commits:
    the ranges asked for are contiguous, only the first is being processed, a commit
    is handed over only after its signature was verified, and every handler ends. *)
From S2P Require Import Prelude Bytes Serializer Messages Blocks Proposals Commits JsMap Quorum BlockchainUtils.
From S2P Require Import Configuration RoundCalculator ValidatorSet RoundState ConsensusStorage Node Processors CommitBatch.
From S2P Require Import MessageDownloader BlockDownloader Consensus.

(** ** Handlers that end *)
Definition ends (m : M BlockDownloader unit) (d : BlockDownloader) (Q : BlockDownloader → Prop) : Prop :=
  ∃ d', m d = (Ok tt, d') ∧ Q d'.

Lemma ends_ret d (Q : BlockDownloader → Prop) : Q d → ends (mret tt) d Q.
Proof. intros HQ. by exists d. Qed.
Lemma ends_modify f d (Q : BlockDownloader → Prop) : Q (f d) → ends (modify f) d Q.
Proof. intros HQ. by exists (f d). Qed.
Lemma ends_bind m k d Q R : ends m d Q → (∀ d1, Q d1 → ends k d1 R) → ends (m;; k) d R.
Proof. intros (d1 & Hm & HQ) Hk. destruct (Hk d1 HQ) as (d2 & Hk2 & HR). exists d2. split; [| done]. unfold mbind, M_bind. by rewrite Hm. Qed.
Lemma ends_then f k d Q : ends k (f d) Q → ends (modify f;; k) d Q.
Proof. intros (d' & Hk & HQ). by exists d'. Qed.
Lemma ends_get (k : BlockDownloader → M BlockDownloader unit) d Q : ends (k d) d Q → ends (x ← get; k x) d Q.
Proof. intros (d' & Hk & HQ). by exists d'. Qed.
Lemma ends_mono m d (Q R : BlockDownloader → Prop) : ends m d Q → (∀ d', Q d' → R d') → ends m d R.
Proof. intros (d' & Hm & HQ) HQR. exists d'. auto. Qed.

(** ** The jobs

    [x] is a job whose answer has just come. *)
Record jobsOk (x : option nat) (d : BlockDownloader) : Prop := {
  jo_nodup : NoDup (bj_id <$> bd_jobs d);
  jo_next : ∀ j, j ∈ bd_jobs d → (bj_id j < bd_next d)%nat;
  jo_known : ∀ i, i ∈ bd_waiting d → (i < bd_next d)%nat;
  jo_waiting : ∀ j, j ∈ bd_jobs d → x ≠ Some (bj_id j) → bj_status j = Downloading ↔ bj_id j ∈ bd_waiting d;
  jo_range : ∀ j, j ∈ bd_jobs d → bj_blockNumberFrom j ≤ bj_blockNumberTo j;
  jo_contiguous : ∀ i a b, bd_jobs d !! i = Some a → bd_jobs d !! S i = Some b → bj_blockNumberFrom b = bj_blockNumberTo a + 1;
  jo_length : Z.of_nat (length (bd_jobs d)) ≤ MAX_DOWNLOAD_BLOCKS_JOBS;
  jo_tail : ∀ i j, bd_jobs d !! S i = Some j → bj_status j ≠ Processing;
}.

(** What a change of the jobs leaves alone. *)
Record untouched (d d' : BlockDownloader) : Prop := {
  un_runs : bd_runs d' = bd_runs d;
  un_pending : bd_pending d' = bd_pending d;
  un_handed : bd_handed d' = bd_handed d;
}.
#[export] Instance untouched_preorder : PreOrder untouched.
Proof. split; [by split |]. intros d1 d2 d3 [] []. split; congruence. Qed.

Lemma jobsOk_weaken x d : jobsOk None d → jobsOk x d.
Proof. intros []. split; try done. intros j Hj _. by apply jo_waiting0. Qed.

(** Part of the jobs, from the [k]-th on. *)
Lemma jobsOk_part x d k jobs' :
  jobsOk x d → sublist jobs' (bd_jobs d) → (∀ i j, jobs' !! i = Some j → bd_jobs d !! (k + i)%nat = Some j) →
  (∀ j, j ∈ jobs' → x ≠ Some (bj_id j)) → jobsOk None (d <| bd_jobs := jobs' |>).
Proof.
  intros [H1 H2 H3 H4 H5 H6 H7 H8] Hsub Hk Hx.
  assert (∀ j, j ∈ jobs' → j ∈ bd_jobs d) as Hin by (intros j Hj; eapply elem_of_submseteq; [exact Hj | by apply sublist_submseteq]).
  split; cbn.
  - eapply sublist_NoDup; [exact H1 | by apply fmap_sublist].
  - auto.
  - done.
  - intros j Hj _. apply H4; auto.
  - auto.
  - intros i a b Ha Hb. apply Hk in Ha, Hb. rewrite Nat.add_succ_r in Hb. by apply (H6 (k + i)%nat).
  - pose proof (sublist_length _ _ Hsub). lia.
  - intros i j Hj. apply Hk in Hj. rewrite Nat.add_succ_r in Hj. by eapply H8.
Qed.

Lemma jobs_take x d index : jobsOk x d → (∀ j, j ∈ take index (bd_jobs d) → x ≠ Some (bj_id j)) →
  jobsOk None (d <| bd_jobs ::= take index |>).
Proof.
  intros Hok Hx. apply (jobsOk_part x d 0); [done | apply sublist_take | | done].
  intros i j Hj. by apply lookup_take_Some in Hj as [Hj _].
Qed.

Lemma jobs_tail x d : jobsOk x d → (∀ j, j ∈ tail (bd_jobs d) → x ≠ Some (bj_id j)) →
  jobsOk None (d <| bd_jobs ::= tail |>).
Proof.
  intros Hok Hx. apply (jobsOk_part x d 1); [done | | | done].
  - destruct (bd_jobs d); cbn; [apply sublist_nil_l | by apply sublist_cons].
  - intros i j. by destruct (bd_jobs d).
Qed.

Definition added (j : BlockJob) (jobs : list BlockJob) (d : BlockDownloader) : BlockDownloader :=
  d <| bd_next ::= S |> <| bd_jobs := jobs |> <| bd_waiting ::= λ l, l ++ [bj_id j] |>.

(** A new job, in the place of [x] or at the end. *)
Lemma jobsOk_added x d j jobs' :
  jobsOk x d → bj_id j = bd_next d → bj_status j = Downloading → bj_blockNumberFrom j ≤ bj_blockNumberTo j →
  (∀ j', j' ∈ jobs' → j' = j ∨ j' ∈ bd_jobs d ∧ x ≠ Some (bj_id j')) → NoDup (bj_id <$> jobs') →
  (∀ i a b, jobs' !! i = Some a → jobs' !! S i = Some b → bj_blockNumberFrom b = bj_blockNumberTo a + 1) →
  Z.of_nat (length jobs') ≤ MAX_DOWNLOAD_BLOCKS_JOBS →
  (∀ i j', jobs' !! S i = Some j' → bj_status j' ≠ Processing) → jobsOk None (added j jobs' d).
Proof.
  intros [H1 H2 H3 H4 H5 H6 H7 H8] Hid Hst Hr Hin Hnd Hc Hl Ht. split; cbn; try done.
  - intros j' [->|[Hj' _]]%Hin; [lia |]. specialize (H2 j' Hj'). lia.
  - intros i [Hi%H3| ->%list_elem_of_singleton]%elem_of_app; lia.
  - intros j' Hj' _. rewrite elem_of_app, list_elem_of_singleton. destruct (Hin j' Hj') as [->|[Hj Hx]]; [tauto |].
    rewrite (H4 j' Hj Hx). specialize (H2 j' Hj). split; [tauto |]. intros [?|?]; [done | lia].
  - intros j' [->|[Hj' _]]%Hin; [done | by apply H5].
Qed.

Lemma indexOfJob_Some id jobs index : indexOfJob id jobs = Some index →
  ∃ j, jobs !! index = Some j ∧ bj_id j = id.
Proof.
  unfold indexOfJob. intros ([i j] & Hi & ->)%fmap_Some. apply list_find_Some in Hi as (Hi & Hid & _). by exists j.
Qed.
Lemma indexOfJob_None id jobs : indexOfJob id jobs = None → ∀ j, j ∈ jobs → bj_id j ≠ id.
Proof.
  unfold indexOfJob. intros Hn%fmap_None%list_find_None j Hj. rewrite Forall_forall in Hn. by apply Hn.
Qed.

Lemma same_id d x i j i' j' : jobsOk x d → bd_jobs d !! i = Some j → bd_jobs d !! i' = Some j' → bj_id j = bj_id j' → i = i'.
Proof.
  intros Hok Hi Hi' Heq. eapply (NoDup_lookup (bj_id <$> bd_jobs d) i i' (bj_id j)); [apply Hok | |].
  - by rewrite list_lookup_fmap, Hi.
  - rewrite list_lookup_fmap, Hi', Heq. done.
Qed.

(** The fields that do not change while a job is in the list. *)
Definition sameJob (j job : BlockJob) : Prop :=
  bj_id j = bj_id job ∧ bj_blockNumberFrom j = bj_blockNumberFrom job ∧ bj_blockNumberTo j = bj_blockNumberTo job ∧
  bj_blocks j = bj_blocks job.

Lemma sameJob_refl j : sameJob j j.
Proof. by split_and!. Qed.

Section sync.
Context `{Services} (configuration : Configuration) (maxPayloadAt : Z → Z).

(** [exact]: the rest of the node keeps its chain as it should; the number of the
    last block of its store is then [stored]. *)
Context (exact : bool) (stored : Z).
Definition within (n : Z) : Prop := exact = true → n ≤ stored + 1.
Definition sees (s : Surroundings) : Prop := exact = true →
  storeBlockNumber s = stored ∧ ∀ b, getLastBlock (w_chain (su_world s)) = Ok b → b_number b = stored.
(** The first job begins no later than behind the store. *)
Definition headWithin (d : BlockDownloader) : Prop := ∀ j, head (bd_jobs d) = Some j → within (bj_blockNumberFrom j).

Definition noneProcessing (d : BlockDownloader) : Prop := ∀ j, j ∈ bd_jobs d → bj_status j ≠ Processing.

(** A job is given up: it is asked for again, or dropped. *)
Definition replayed (index : nat) (d d' : BlockDownloader) : Prop :=
  jobsOk None d' ∧ untouched d d' ∧ (index = 0%nat → noneProcessing d' ∧ headWithin d') ∧
  ((0 < index)%nat → head (bd_jobs d') = head (bd_jobs d)).

Lemma replay_insert d job j index peer from to :
  jobsOk (Some (bj_id job)) d → bd_jobs d !! index = Some j → sameJob j job →
  from ≤ to → ((0 < index)%nat → from = bj_blockNumberFrom j) →
  (length (bd_jobs d) ≠ 1%nat → to = bj_blockNumberTo j) → (index = 0%nat → within from) →
  ends (job' ← newJob peer from to; modify (λ d, d <| bd_jobs ::= <[index := job']> |>);; requestBlocks job') d (replayed index d).
Proof.
  intros Hok Hj Hsame Hle Hfrom Hto Hwithin. set (job' := mkBlockJob (bd_next d) peer from to [] Downloading).
  exists (added job' (<[index := job']> (bd_jobs d)) d). split; [done |].
  pose proof (lookup_lt_Some _ _ _ Hj) as Hlt.
  assert (∀ i, <[index := job']> (bd_jobs d) !! i = if decide (i = index) then Some job' else bd_jobs d !! i) as Hlook.
  { intros i. destruct (decide (i = index)) as [->|]; [by apply list_lookup_insert_eq | by apply list_lookup_insert_ne]. }
  assert (∀ i j', i ≠ index → bd_jobs d !! i = Some j' → Some (bj_id job) ≠ Some (bj_id j')) as Hother.
  { intros i j' Hi Hj' [= Heq]. destruct Hsame as (Hid & _). apply Hi. by eapply (same_id d _ i j' index j); [| | | congruence]. }
  split; [| split; [by split | split]].
  - apply (jobsOk_added (Some (bj_id job))); try done; cbn.
    + intros j' (i & Hi)%list_elem_of_lookup. rewrite Hlook in Hi. case_decide; [left; congruence | right].
      split; [by eapply list_elem_of_lookup_2 | by eapply Hother].
    + rewrite list_fmap_insert. apply NoDup_alt. intros i1 i2 y H1 H2. pose proof (jo_nodup _ _ Hok) as Hnd. rewrite NoDup_alt in Hnd.
      assert (∀ i z, i ≠ index → <[index := bj_id job']> (bj_id <$> bd_jobs d) !! i = Some z → (bj_id <$> bd_jobs d) !! i = Some z ∧ (z < bd_next d)%nat) as Hold.
      { intros i z Hi Hz. rewrite list_lookup_insert_ne in Hz by done. split; [done |].
        rewrite list_lookup_fmap in Hz. apply fmap_Some in Hz as (j' & Hj' & ->). by eapply jo_next, list_elem_of_lookup_2. }
      assert (<[index := bj_id job']> (bj_id <$> bd_jobs d) !! index = Some (bd_next d)) as Hnew
        by (apply list_lookup_insert_eq; by rewrite length_fmap).
      destruct (decide (i1 = index)) as [->|Hi1], (decide (i2 = index)) as [->|Hi2]; [done | | |].
      * apply Hold in H2 as [_ ?]; [| done]. rewrite Hnew in H1. injection H1 as <-. lia.
      * apply Hold in H1 as [_ ?]; [| done]. rewrite Hnew in H2. injection H2 as <-. lia.
      * apply Hold in H1 as [H1 _], H2 as [H2 _]; [| done..]. by eapply Hnd.
    + intros i a b. rewrite !Hlook. repeat case_decide; [lia | | |].
      * intros [= <-] Hb. cbn. rewrite Hto by (apply lookup_lt_Some in Hb; lia). subst. by apply (jo_contiguous _ _ Hok index).
      * intros Ha [= <-]. cbn. rewrite Hfrom by lia. apply (jo_contiguous _ _ Hok i); [done | congruence].
      * by apply (jo_contiguous _ _ Hok).
    + rewrite length_insert. apply Hok.
    + intros i j'. rewrite Hlook. case_decide; [by intros [= <-] | by apply (jo_tail _ _ Hok)].
  - intros ->. split.
    + intros j' (i & Hi)%list_elem_of_lookup. cbn in Hi. rewrite Hlook in Hi. case_decide; [by injection Hi as <- |].
      destruct i; [done |]. by apply (jo_tail _ _ Hok i).
    + intros j'. cbn. destruct (bd_jobs d); [done |]. intros [= <-]. by apply Hwithin.
  - intros Hpos. destruct index; [lia |]. cbn. by destruct (bd_jobs d).
Qed.

Lemma replayJob_ends s d job j index :
  sees s → jobsOk (Some (bj_id job)) d → indexOfJob (bj_id job) (bd_jobs d) = Some index → bd_jobs d !! index = Some j → sameJob j job →
  ends (replayJob s job) d (replayed index d).
Proof.
  intros Hsees Hok Hindex Hj Hsame. unfold replayJob. apply ends_get. rewrite Hindex. cbv zeta.
  assert (∀ i j', i ≠ index → bd_jobs d !! i = Some j' → Some (bj_id job) ≠ Some (bj_id j')) as Hother.
  { intros i j' Hi Hj' [= Heq]. destruct Hsame as (Hid & _). apply Hi. by eapply (same_id d _ i j' index j); [| | | congruence]. }
  set (from := if bool_decide (index = 0%nat) then _ else _). set (peers := List.filter _ _).
  destruct (peers !! _) as [peer|] eqn:Hpeer.
  2: { apply ends_modify. split; [| split; [by split |]].
    - eapply jobs_take; [exact Hok |]. intros j' (i & Hi)%list_elem_of_lookup. apply lookup_take_Some in Hi as [Hi Hlt].
      eapply (Hother i); [lia | done].
    - split; [intros ->; split; [by intros j' ?%elem_of_nil | done] |]. intros Hpos. destruct index; [lia |]. cbn. by destruct (bd_jobs d). }
  destruct (bool_decide (index = 0%nat) && _) eqn:Hskip.
  { apply andb_true_iff in Hskip as [Hzero%bool_decide_eq_true Hto%Z.ltb_lt]. subst index. apply ends_modify. split; [| split; [by split |]].
    - eapply jobs_tail; [exact Hok |]. intros j' (i & Hi)%list_elem_of_lookup. eapply (Hother (S i)); [done |]. by destruct (bd_jobs d).
    - split; [| lia]. intros _. split; [intros j' (i & Hi)%list_elem_of_lookup; eapply (jo_tail _ _ Hok i); cbn in Hi; by destruct (bd_jobs d) |].
      intros j' Hj' Hexact. destruct (Hsees Hexact) as [Hstored _]. destruct Hsame as (_ & _ & Hjto & _).
      cbn in Hj'. destruct (bd_jobs d) as [|j0 [|j1 rest]] eqn:Hjobs; [done | done |]. cbn in Hj. injection Hj' as ->. injection Hj as ->.
      rewrite (jo_contiguous _ _ Hok 0 j j' ltac:(by rewrite Hjobs) ltac:(by rewrite Hjobs)). 
      rewrite bool_decide_eq_false_2 in Hto by done. unfold from in Hto. rewrite bool_decide_eq_true_2 in Hto by done. lia. }
  pose proof Hsame as (Hid & Hfrom & Hto & _). apply (replay_insert d job j); try done.
  - destruct (bool_decide_reflect (index = 0%nat)) as [Hz|Hz]; cbn [andb] in Hskip; [apply Z.ltb_ge in Hskip; exact Hskip |].
    unfold from. rewrite (bool_decide_eq_false_2 (length _ = _)) by (apply lookup_lt_Some in Hj; lia).
    rewrite <- Hfrom, <- Hto. by eapply (jo_range _ _ Hok), list_elem_of_lookup_2.
  - intros Hpos. unfold from. rewrite bool_decide_eq_false_2 by lia. done.
  - intros Hsole. by rewrite bool_decide_eq_false_2.
  - intros Hz Hexact. unfold from. rewrite bool_decide_eq_true_2 by done. destruct (Hsees Hexact) as [-> _]. lia.
Qed.

(** ** What a call of [processBlocks] holds *)
Definition pendingOf (commits : list Commit) : PendingCommits := (λ c, (b_number (c_block c), c)) <$> commits.

Context (worlds : list World).

(** The signature was verified in one of the worlds gone through. *)
Definition verifiedIn (h : Handed) : Prop := ∃ w, w ∈ worlds ∧ checkSignature w h = Ok true.

(** The hash of the block before [number]: that of the last block of the store at
    some moment, or of the commit handed over for it. *)
Definition anchored (handed : list Handed) (number : Z) (previous : string) : Prop :=
  (∃ w b, w ∈ worlds ∧ getLastBlock (w_chain w) = Ok b ∧ previous = b_hash b) ∨
  ∃ h, h ∈ handed ∧ b_number (c_block (hc_commit h)) = number - 1 ∧ previous = b_hash (c_block (hc_commit h)).

(** The same, of the block whose number is one less. *)
Definition follows (handed : list Handed) (number : Z) (previous : string) : Prop :=
  (∃ w b, w ∈ worlds ∧ getLastBlock (w_chain w) = Ok b ∧ previous = b_hash b ∧ b_number b = number - 1) ∨
  ∃ h, h ∈ handed ∧ b_number (c_block (hc_commit h)) = number - 1 ∧ previous = b_hash (c_block (hc_commit h)).

Definition parsed (commits : list Commit) : Prop := ∃ chain batch, traverse (parseCommit chain) batch = Ok commits.

Record handedOk (handed : list Handed) (h : Handed) : Prop := {
  ha_verified : verifiedIn h;
  ha_anchored : anchored handed (b_number (c_block (hc_commit h))) (hc_previous h);
  ha_follows : exact = true → follows handed (b_number (c_block (hc_commit h))) (hc_previous h);
  ha_hash : hexOfLength 64 (b_hash (c_block (hc_commit h))) = true;
}.

(** Blocks of the run's batch that are not processed. *)
Definition phaseCount (p : Phase) : nat :=
  match p with Parsing batch => length batch | Verifying commits => length commits | Handing _ rest => S (length rest) end.

Definition phaseOk (number : Z) (previous : string) (pending : PendingCommits) (p : Phase) : Prop :=
  match p with
  | Parsing _ => pending = []
  | Verifying commits => pending = [] ∧ numbersMatch number commits = true ∧ parsed commits
  | Handing c rest =>
      pending = pendingOf rest ∧ numbersMatch number (c :: rest) = true ∧
      (∀ c', c' ∈ c :: rest → hexOfLength 64 (b_hash (c_block c')) = true) ∧
      ∀ h, h ∈ withPrevious previous (c :: rest) → verifiedIn h
  end.

(** Where a call is between two commits. *)
Record loopOk (handed : list Handed) (left : nat) (run : Run) : Prop := {
  lo_anchored : anchored handed (ru_number run) (ru_previousBlockHash run);
  lo_count : ru_number run + Z.of_nat (left + length (ru_bytesForProcess run)) =
             bj_blockNumberFrom (ru_job run) + Z.of_nat (length (bj_blocks (ru_job run)));
  lo_within : within (ru_number run);
  lo_follows : exact = true → (0 < left + length (ru_bytesForProcess run))%nat → follows handed (ru_number run) (ru_previousBlockHash run);
}.

Record runOk (handed : list Handed) (pending : PendingCommits) (run : Run) : Prop := {
  ru_loop : loopOk handed (phaseCount (ru_phase run)) run;
  ru_phaseOk : phaseOk (ru_number run) (ru_previousBlockHash run) pending (ru_phase run);
  ru_inHanding : ∀ c rest, ru_phase run = Handing c rest → mkHanded c (ru_previousBlockHash run) ∈ handed;
}.

(** ** The states between handlers *)
Definition isRunning (run : Run) (d : BlockDownloader) : Prop :=
  ∃ j rest, bd_jobs d = j :: rest ∧ sameJob j (ru_job run) ∧ bj_status j = Processing.

Definition idle (d : BlockDownloader) : Prop := bd_runs d = [] ∧ bd_pending d = [] ∧ noneProcessing d.

Record settled (x : option nat) (d : BlockDownloader) : Prop := {
  se_jobs : jobsOk x d;
  se_head : headWithin d;
  se_handed : ∀ h, h ∈ bd_handed d → handedOk (bd_handed d) h;
  se_run : idle d ∨ ∃ run, bd_runs d = [run] ∧ isRunning run d ∧ runOk (bd_handed d) (bd_pending d) run ∧ x ≠ Some (bj_id (ru_job run));
}.

(** Inside a handler: the call has been taken up. *)
Record busy (run : Run) (d : BlockDownloader) : Prop := {
  bu_jobs : jobsOk None d;
  bu_head : headWithin d;
  bu_handed : ∀ h, h ∈ bd_handed d → handedOk (bd_handed d) h;
  bu_runs : bd_runs d = [];
  bu_running : isRunning run d;
}.

Lemma jobsOk_same x d d' : jobsOk x d → bd_jobs d' = bd_jobs d → bd_next d' = bd_next d → bd_waiting d' = bd_waiting d → jobsOk x d'.
Proof. intros [] Hj Hn Hw. split; rewrite ?Hj, ?Hn, ?Hw; done. Qed.

Lemma running_index run d : isRunning run d → indexOfJob (bj_id (ru_job run)) (bd_jobs d) = Some 0%nat.
Proof. intros (j & rest & Hj & (Hid & _) & _). unfold indexOfJob. rewrite Hj. cbn. by rewrite decide_True. Qed.

Lemma handleJobError_ends s d job j index :
  sees s → jobsOk (Some (bj_id job)) d → indexOfJob (bj_id job) (bd_jobs d) = Some index → bd_jobs d !! index = Some j → sameJob j job →
  ends (handleJobError s job) d (replayed index d).
Proof.
  intros Hsees Hok Hindex Hj Hsame. unfold handleJobError. apply ends_get. rewrite Hindex. apply ends_then.
  eapply ends_mono; [eapply (replayJob_ends s (d <| bd_banned ::= λ l, l ++ [pe_ip (bj_peer job)] |>)); try done; by eapply jobsOk_same |].
  intros d' (H1 & [] & H3 & H4). split; [done | split; [by split | by split]].
Qed.

(** The call is over, and its job given up. *)
Lemma replayed_settled run d d' : busy run d → replayed 0 d d' → settled None (d' <| bd_pending := [] |>).
Proof.
  intros [Hj Hhead Hh Hr _] (Hok & [Hruns Hpend Hhanded] & Hnone & _). destruct (Hnone eq_refl) as [Hnone' Hhead'].
  split; cbn; rewrite ?Hhanded; [by eapply jobsOk_same | exact Hhead' | done |].
  left. split; [by cbn; rewrite Hruns | by split; [| exact Hnone']].
Qed.

Lemma failRun_ends s run d : sees s → busy run d → ends (failRun s (ru_job run)) d (settled None).
Proof.
  intros Hsees Hb. pose proof (bu_running _ _ Hb) as (j & rest & Hj & Hsame & _). unfold failRun.
  eapply ends_bind; [| intros d1 Hd1; apply ends_modify; exact (replayed_settled run d d1 Hb Hd1)].
  apply (handleJobError_ends s d (ru_job run) j 0); [done | apply jobsOk_weaken, Hb | by apply running_index, Hb | by rewrite Hj | done].
Qed.

Lemma missing_ends s run d : sees s → busy run d → bd_pending d = [] → ends (handleMissingBlocks maxPayloadAt s (ru_job run)) d (settled None).
Proof.
  intros Hsees Hb Hpend. pose proof (bu_running _ _ Hb) as (j & rest & Hj & Hsame & _). unfold handleMissingBlocks.
  apply (ends_bind _ _ _ (λ d1, bd_jobs d1 = bd_jobs d ∧ bd_next d1 = bd_next d ∧ bd_waiting d1 = bd_waiting d ∧ untouched d d1)).
  { destruct (_ <? _); [by apply ends_modify | by apply ends_ret]. }
  intros d1 (Hjobs & Hnext & Hwait & Hun). pose proof (bu_jobs _ _ Hb) as Hok. apply (jobsOk_same _ _ d1) in Hok; try done.
  eapply ends_mono; [apply (replayJob_ends s d1 (ru_job run) j 0); [done | by apply jobsOk_weaken | | by rewrite Hjobs, Hj | done] |].
  { rewrite Hjobs. by apply running_index, Hb. }
  intros d2 (H1 & Hun2 & H3 & H4). assert (replayed 0 d d2) as Hrep.
  { split; [done |]. split; [by etransitivity |]. split; [done |]. lia. }
  pose proof (replayed_settled run d d2 Hb Hrep) as [Hs1 Hs0 Hs2 Hs3]. split; [by eapply jobsOk_same | exact Hs0 | exact Hs2 |].
  assert (bd_pending d2 = []) as Hp2 by (destruct Hun, Hun2; congruence).
  destruct Hs3 as [(H5 & _ & H6)|(r & H5 & _)]; [left; split; [done | by split] |]. destruct Hun, Hun2. cbn in H5. rewrite un_runs1, un_runs0, (bu_runs _ _ Hb) in H5. done.
Qed.

Lemma processLoop_ends next s run d :
  sees s → busy run d → bd_pending d = [] → loopOk (bd_handed d) 0 run →
  (∀ d1, settled None d1 → (length (bd_jobs d1) < length (bd_jobs d))%nat → ends next d1 (settled None)) →
  ends (processLoop configuration maxPayloadAt next s run) d (settled None).
Proof.
  intros Hsees Hb Hpend Hloop Hnext. unfold processLoop. destruct (ru_bytesForProcess run) as [|b bytes] eqn:Hbytes.
  - apply ends_then. set (d0 := d <| bd_pending := [] |>).
    assert (busy run d0) as Hb0 by (destruct Hb; split; try done; by eapply jobsOk_same).
    destruct (Z.eqb_spec (bj_blockNumberTo (ru_job run)) (ru_number run - 1)) as [Hto|_]; cbn [negb]; [| by apply missing_ends]. apply ends_then.
    pose proof (bu_running _ _ Hb) as (j & rest & Hj & (_ & _ & Hjto & _) & _). apply Hnext; [| cbn; rewrite Hj; cbn; lia].
    split; [by eapply jobs_tail; [apply Hb0 |] | | apply Hb |].
    { intros j' Hj' Hexact. cbn in Hj'. rewrite Hj in Hj'. destruct rest as [|j1 rest]; [done |]. injection Hj' as ->.
      rewrite (jo_contiguous _ _ (bu_jobs _ _ Hb) 0 j j' ltac:(by rewrite Hj) ltac:(by rewrite Hj)). pose proof (lo_within _ _ _ Hloop Hexact). lia. }
    left. split; [apply Hb |]. split; [done |].
    intros j' (i & Hi)%list_elem_of_lookup. apply (jo_tail _ _ (bu_jobs _ _ Hb) i). cbn in Hi. by rewrite Hj in *.
  - destruct (calculateRound _ _).1 as [roundInfo|e]; [| by apply failRun_ends].
    set (count := Z.to_nat _). apply ends_modify. split; cbn; [destruct Hb; by eapply jobsOk_same | apply Hb | apply Hb |]. right.
    eexists. split; [by rewrite (bu_runs _ _ Hb) |]. split; [exact (bu_running _ _ Hb) |]. split; [| done].
    split; cbn; [| done | done]. destruct Hloop as [Ha Hc Hwi Hfo]. rewrite Hbytes in Hc, Hfo. split; [exact Ha | | exact Hwi |]; cbn in *.
    + rewrite length_take, length_drop. cbn in *. lia.
    + intros Hexact _. apply (Hfo Hexact). lia.
Qed.

(** ** Changing a job in place *)
Lemma setJob_jobs x d job f :
  jobsOk x d → (∀ j, bj_id (f j) = bj_id j ∧ bj_blockNumberFrom (f j) = bj_blockNumberFrom j ∧ bj_blockNumberTo (f j) = bj_blockNumberTo j) →
  (∀ i, x = Some i → i = bj_id job) →
  (∀ i j, bd_jobs d !! i = Some j → bj_id j = bj_id job →
    (bj_status (f j) = Downloading ↔ bj_id j ∈ bd_waiting d) ∧ (i ≠ 0%nat → bj_status (f j) ≠ Processing)) →
  jobsOk None (setJob job f d).
Proof.
  intros [H1 H2 H3 H4 H5 H6 H7 H8] Hf Hx Hst. unfold setJob. set (g := λ j, if bool_decide (bj_id j = bj_id job) then f j else j).
  assert (∀ j, bj_id (g j) = bj_id j ∧ bj_blockNumberFrom (g j) = bj_blockNumberFrom j ∧ bj_blockNumberTo (g j) = bj_blockNumberTo j) as Hg.
  { intros j. unfold g. destruct (bool_decide _); [apply Hf | done]. }
  split; cbn; try done.
  - rewrite <- list_fmap_compose. assert (bj_id ∘ g <$> bd_jobs d = bj_id <$> bd_jobs d) as ->; [| done].
    apply list_fmap_ext. intros _ j _. apply Hg.
  - intros j (j' & -> & Hj')%list_elem_of_fmap. rewrite (proj1 (Hg j')). by apply H2.
  - intros j (j' & -> & Hj')%list_elem_of_fmap _. unfold g. destruct (bool_decide_reflect (bj_id j' = bj_id job)) as [Heq|Hne].
    + rewrite (proj1 (Hf j')). apply list_elem_of_lookup in Hj' as (i & Hi). by apply (Hst i).
    + apply H4; [done |]. intros Hxj. by apply Hx in Hxj.
  - intros j (j' & -> & Hj')%list_elem_of_fmap. destruct (Hg j') as (_ & -> & ->). by apply H5.
  - intros i a b. rewrite !list_lookup_fmap. intros (a' & Ha & ->)%fmap_Some (b' & Hb & ->)%fmap_Some.
    rewrite (proj1 (proj2 (Hg b'))), (proj2 (proj2 (Hg a'))). by apply (H6 i).
  - by rewrite length_fmap.
  - intros i j. rewrite list_lookup_fmap. intros (j' & Hj & ->)%fmap_Some. unfold g.
    destruct (bool_decide_reflect (bj_id j' = bj_id job)) as [Heq|_]; [by apply (Hst (S i)) | by apply (H8 i)].
Qed.

Lemma skip_count bytes from stored' :
  let '(bytes', number) := skipAppliedBlocks bytes from stored' in
  number + Z.of_nat (length bytes') = from + Z.of_nat (length bytes).
Proof.
  unfold skipAppliedBlocks. destruct (Z.ltb_spec stored' from); [done |]. rewrite length_drop. lia.
Qed.

(** The first number left is at most the one behind the store or the job's first, and
    exactly the greater of the two if something is left. *)
Lemma skip_number bytes from stored' :
  let '(bytes', number) := skipAppliedBlocks bytes from stored' in
  number ≤ Z.max from (stored' + 1) ∧ ((0 < length bytes')%nat → number = Z.max from (stored' + 1)).
Proof.
  unfold skipAppliedBlocks. destruct (Z.ltb_spec stored' from); [lia |]. rewrite length_drop. lia.
Qed.

(** ** Starting on the next job *)
Lemma processNextJob_ends fuel s d :
  su_world s ∈ worlds → sees s → settled None d → (length (bd_jobs d) ≤ fuel)%nat →
  ends (processNextJob configuration maxPayloadAt fuel s) d (settled None).
Proof.
  intros Hw Hsees. revert d. induction fuel as [|fuel IH]; intros d Hs Hlen; cbn [processNextJob]; apply ends_get;
    (destruct (bd_jobs d) as [|job rest] eqn:Hjobs; [by apply ends_ret |]); [cbn in Hlen; lia |].
  unfold processBlocks. destruct (bool_decide_reflect (bj_status job = ReadyToProcess)) as [Hready|]; cbn [negb]; [| by apply ends_ret].
  destruct Hs as [Hok Hhead Hhanded [(Hruns & Hpend & Hnone)|(run & _ & (j & rest' & Hj & _ & Hproc) & _)]].
  2: { rewrite Hjobs in Hj. injection Hj as -> _. congruence. }
  apply ends_then. set (f := λ j, j <| bj_status := Processing |>). set (d1 := setJob job f d).
  assert (∀ bytes number previous, busy (mkRun job bytes number previous (Parsing [])) d1) as Hbusy.
  { intros bytes number previous. split; [| | exact Hhanded | exact Hruns |].
    2: { intros j'. cbn. rewrite Hjobs. cbn. rewrite bool_decide_eq_true_2 by done. intros [= <-]. cbn. apply Hhead. by rewrite Hjobs. }
    - apply (setJob_jobs None); try done. intros i j Hj Hid. cbn.
      assert (i = 0%nat) as -> by (eapply (same_id d None i j 0 job); [done | done | by rewrite Hjobs | done]).
      split; [| done]. rewrite Hjobs in Hj. injection Hj as <-. rewrite <- (jo_waiting _ _ Hok job) by (rewrite ?Hjobs; by left || done).
      rewrite Hready. done.
    - exists (f job). eexists. split; [cbn; rewrite Hjobs; cbn; by rewrite bool_decide_eq_true_2 |]. by split. }
  destruct (getLastBlock (w_chain (su_world s))) as [lastBlock|e] eqn:Hlast.
  2: { exact (failRun_ends s (mkRun job [] 0 "" (Parsing [])) d1 Hsees (Hbusy _ _ _)). }
  pose proof (skip_count (bj_blocks job) (bj_blockNumberFrom job) (storeBlockNumber s)) as Hcount.
  pose proof (skip_number (bj_blocks job) (bj_blockNumberFrom job) (storeBlockNumber s)) as Hnumber.
  assert (within (bj_blockNumberFrom job)) as Hfrom by (apply Hhead; by rewrite Hjobs).
  destruct (skipAppliedBlocks _ _ _) as [bytes number]. apply processLoop_ends; [done | by apply Hbusy | done | |].
  - split; cbn; [left; by exists (su_world s), lastBlock | exact Hcount | |].
    + intros Hexact. specialize (Hfrom Hexact). destruct (Hsees Hexact) as [Heq _]. lia.
    + intros Hexact Hbytes. specialize (Hfrom Hexact). destruct (Hsees Hexact) as [Heq Hb].
      left. exists (su_world s), lastBlock. split_and!; [done.. |]. rewrite (Hb _ Hlast). destruct Hnumber as [_ Hnumber]. specialize (Hnumber Hbytes). lia.
  - intros d2 Hs2 Hlt. apply IH; [done |]. unfold d1, setJob in Hlt. cbn in Hlt. rewrite length_fmap, Hjobs in Hlt. cbn in *. lia.
Qed.

Lemma processNext_ends s d : su_world s ∈ worlds → sees s → settled None d → ends (processNext configuration maxPayloadAt s) d (settled None).
Proof. intros Hw Hsees Hs. unfold processNext. apply ends_get. by apply processNextJob_ends. Qed.

(** ** Headers and answers *)
Lemma download_settled s peer d : sees s → settled None d → ends (downloadBlocks s peer) d (settled None).
Proof.
  intros Hsees [Hok Hhead Hh Hrun]. unfold downloadBlocks. apply ends_get. cbv zeta. set (lst := getLastRequestedBlockNumber s d).
  destruct (_ || _) eqn:Hguard; [by apply ends_ret |]. apply orb_false_iff in Hguard as [Hbehind%Z.leb_gt Hroom%Z.leb_gt].
  set (job := mkBlockJob (bd_next d) peer (lst + 1) (calculateBlockNumberTo peer lst) [] Downloading).
  exists (added job (bd_jobs d ++ [job]) d). split; [done |]. split; [| | exact Hh |].
  2: { intros j. cbn. destruct (bd_jobs d) as [|j0 rest] eqn:Hjobs; cbn; [| intros [= <-]; apply Hhead; by rewrite Hjobs].
    intros [= <-] Hexact. cbn. unfold lst, getLastRequestedBlockNumber. rewrite Hjobs. cbn. destruct (Hsees Hexact) as [-> _]. lia. }
  - apply (jobsOk_added None); try done.
    + cbn. unfold calculateBlockNumberTo. destruct (Z.ltb_spec MAX_DOWNLOAD_BLOCKS (hd_blockNumber (pe_header peer) - lst)); [unfold MAX_DOWNLOAD_BLOCKS; lia | lia].
    + intros j' [Hj'| ->%list_elem_of_singleton]%elem_of_app; [by right | by left].
    + rewrite fmap_app. apply NoDup_app. split; [apply Hok |]. split; [| apply NoDup_singleton].
      intros i (j & -> & Hj)%list_elem_of_fmap. pose proof (jo_next _ _ Hok j Hj). cbn. rewrite list_elem_of_singleton. lia.
    + intros i a b Ha Hb. destruct (decide (S i < length (bd_jobs d))%nat) as [Hi|Hi].
      * rewrite lookup_app_l in Ha, Hb by lia. by apply (jo_contiguous _ _ Hok i).
      * assert (S i = length (bd_jobs d)) as Heq.
        { apply lookup_lt_Some in Hb. rewrite length_app in Hb. cbn in Hb. lia. }
        rewrite lookup_app_l in Ha by lia. rewrite Heq, list_lookup_middle in Hb by done. injection Hb as <-. cbn.
        unfold lst, getLastRequestedBlockNumber. rewrite last_lookup, <- Heq. cbn. by rewrite Ha.
    + rewrite length_app. cbn. lia.
    + intros i j Hj. destruct (decide (S i < length (bd_jobs d))%nat) as [Hi|Hi].
      * rewrite lookup_app_l in Hj by lia. by eapply jo_tail.
      * rewrite lookup_app_r in Hj by lia. by apply list_lookup_singleton_Some in Hj as [_ <-].
  - destruct Hrun as [(Hr & Hp & Hn)|(run & Hr & (j & rest & Hj & Hsame & Hst) & Hrok & Hx)].
    + left. split; [done |]. split; [done |]. intros j [Hj| ->%list_elem_of_singleton]%elem_of_app; [by apply Hn | done].
    + right. exists run. split; [done |]. split; [| done]. exists j, (rest ++ [job]). cbn. rewrite Hj. by split.
Qed.

(** The answer's job is the first only if nothing is being processed. *)
Lemma waiting_idle d job : settled None d → head (bd_jobs d) = Some job → bj_status job = Downloading → idle d.
Proof.
  intros [_ _ _ [Hi|(run & _ & (j & rest & Hj & _ & Hst) & _)]] Hhead Hdown; [done |]. rewrite Hj in Hhead. injection Hhead as ->. congruence.
Qed.

Lemma settled_replayed index d d' : (index = 0%nat → idle d) → (∀ x, settled x d → replayed index d d' → settled None d').
Proof.
  intros Hidle x [Hok Hin Hh Hrun] (Hok' & [Hr Hp Hha] & Hnone & Hhead). split; [done | | by rewrite Hha |].
  { destruct index as [|index]; [by apply Hnone |]. intros j. rewrite Hhead by lia. apply Hin. }
  destruct index as [|index].
  - left. destruct (Hidle eq_refl) as (H1 & H2 & _). split; [congruence | split; [congruence | by apply Hnone]].
  - specialize (Hhead ltac:(lia)). destruct Hrun as [(H1 & H2 & H3)|(run & H1 & (j & rest & Hj & Hsame & Hst) & Hrok & Hx)].
    + left. split; [congruence |]. split; [congruence |]. intros j (i & Hi)%list_elem_of_lookup. destruct i as [|i]; [| by eapply (jo_tail _ _ Hok')].
      rewrite head_lookup, Hi in Hhead. symmetry in Hhead. rewrite head_lookup in Hhead. by eapply H3, list_elem_of_lookup_2.
    + right. exists run. split; [congruence |]. rewrite Hj in Hhead. cbn in Hhead. destruct (bd_jobs d') as [|j' rest'] eqn:Hj'; [done |].
      injection Hhead as ->. split; [exists j, rest'; by rewrite Hj' |]. split; [by rewrite Hha, Hp | done].
Qed.

Lemma answer_jobs id d : settled None d → id ∈ bd_waiting d →
  let d1 := d <| bd_waiting ::= List.filter (λ i, negb (bool_decide (i = id))) |> in
  jobsOk (Some id) d1 ∧ ((∀ j, j ∈ bd_jobs d → bj_id j ≠ id) → settled None d1).
Proof.
  intros [Hok Hhead Hh Hrun] Hid d1.
  assert (∀ i, i ∈ bd_waiting d1 ↔ i ∈ bd_waiting d ∧ i ≠ id) as Hin.
  { intros i. unfold d1. cbn. rewrite list_elem_of_In, filter_In, <- list_elem_of_In, negb_true_iff, bool_decide_eq_false. done. }
  assert (∀ x, (∀ j, j ∈ bd_jobs d → x ≠ Some (bj_id j) → bj_id j ≠ id) → jobsOk x d1) as Hany.
  { intros x Hx. destruct Hok as [H1 H2 H3 H4 H5 H6 H7 H8]. split; try done.
    - intros i [Hi _]%Hin. by apply H3.
    - intros j Hj Hxj. rewrite Hin, <- (H4 j Hj) by done. pose proof (Hx j Hj Hxj). tauto. }
  split; [apply Hany; intros j _ Hne Heq; apply Hne; congruence |].
  intros Hnot. split; [apply Hany; auto | exact Hhead | exact Hh | exact Hrun].
Qed.

Lemma onBlocks_ends s id answer d :
  su_world s ∈ worlds → sees s → settled None d → ends (onBlocks configuration maxPayloadAt s id answer) d (settled None).
Proof.
  intros Hw Hsees Hs. unfold onBlocks. apply ends_get. destruct (bool_decide_reflect (id ∈ bd_waiting d)) as [Hid|]; cbn [negb]; [| by apply ends_ret].
  apply ends_then. set (d1 := d <| bd_waiting ::= _ |>). destruct (answer_jobs id d Hs Hid) as [Hok Hgone]. fold d1 in Hok, Hgone.
  eapply ends_bind; [| intros d2; by apply processNext_ends].
  change (bd_jobs d) with (bd_jobs d1). destruct (indexOfJob id (bd_jobs d1)) as [index|] eqn:Hindex; cbn.
  2: { apply ends_ret, Hgone. by apply indexOfJob_None. }
  destruct (indexOfJob_Some _ _ _ Hindex) as (job & Hjob & <-). change (bd_jobs d !! index = Some job) in Hjob. rewrite Hjob.
  assert (bj_status job = Downloading) as Hdown by (apply (jo_waiting _ _ (se_jobs _ _ Hs) job); [by eapply list_elem_of_lookup_2 | done | done]).
  assert (index = 0%nat → idle d1) as Hidle by (intros ->; apply (waiting_idle d job); [done | by rewrite head_lookup | done]).
  assert (settled (Some (bj_id job)) d1) as Hs1.
  { destruct Hs as [Hok0 Hhead Hh Hrun]. split; [exact Hok | exact Hhead | exact Hh |]. destruct Hrun as [|(run & H1 & H2 & H3 & _)]; [by left | right].
    exists run. split_and!; [done.. |]. intros [= Heq]. destruct H2 as (j & rest & Hj & (Hid' & _) & Hst).
    assert (index = 0%nat) as -> by (eapply (same_id d None index job 0 j); [done | done | by rewrite Hj | congruence]).
    rewrite Hj in Hjob. injection Hjob as ->. congruence. }
  destruct answer as [blocks|e].
  - apply ends_modify. destruct Hs1 as [_ Hhead1 Hh1 Hrun1]. split; [| | exact Hh1 |].
    2: { intros j'. cbn. change (bd_jobs d) with (bd_jobs d1). destruct (bd_jobs d1) as [|j0 rest] eqn:Hjobs1; [done |]. cbn. intros [= <-].
      assert (within (bj_blockNumberFrom j0)) as Hj0 by (apply Hhead1; by rewrite Hjobs1). by case_bool_decide. }
    + apply (setJob_jobs (Some (bj_id job))); try done; [by intros i [= ->] |]. intros i j Hj Heq. cbn.
      split; [| done]. split; [done |]. intros [_ Hne]%list_elem_of_In%filter_In. rewrite Heq, bool_decide_eq_true_2 in Hne by done. done.
    + destruct Hrun1 as [(H1 & H2 & H3)|(run & H1 & (j & rest & Hj & Hsame & Hst) & H3 & Hx)].
      * left. split; [done |]. split; [done |]. intros j (j' & -> & Hj')%list_elem_of_fmap. case_bool_decide; [done | by apply H3].
      * right. exists run. split; [done |]. split; [| done]. exists j. eexists. split; [cbn; change (bd_jobs d) with (bd_jobs d1); rewrite Hj; cbn |].
        { rewrite bool_decide_eq_false_2; [done |]. destruct Hsame as (-> & _). congruence. }
        by split.
  - eapply ends_mono; [by apply (handleJobError_ends s d1 job job index) |]. intros d2 Hrep. by eapply settled_replayed.
Qed.

(** ** Batches *)
Lemma numbersMatch_cons n c l : numbersMatch n (c :: l) = true ↔ b_number (c_block c) = n ∧ numbersMatch (n + 1) l = true.
Proof.
  unfold numbersMatch. rewrite imap_cons. cbn. rewrite andb_true_iff, Z.eqb_eq, Z.add_0_r.
  assert (imap ((λ index commit, b_number (c_block commit) =? n + Z.of_nat index) ∘ S) l =
          imap (λ index commit, b_number (c_block commit) =? n + 1 + Z.of_nat index) l) as ->; [| done].
  apply imap_ext. intros k x _. cbn. f_equal. lia.
Qed.

Lemma numbersMatch_above n l c : numbersMatch n l = true → c ∈ l → n ≤ b_number (c_block c).
Proof.
  revert n. induction l as [|c0 l IH]; intros n; [by intros _ ?%elem_of_nil |].
  intros [Hn Hl]%numbersMatch_cons [->|Hc]%elem_of_cons; [lia |]. specialize (IH _ Hl Hc). lia.
Qed.

Lemma pendingAdd_batch n l : numbersMatch n l = true → pendingAdd l [] = pendingOf l.
Proof.
  intros Hl. assert (∀ p, (∀ k, k ∈ mapKeys p → k < n) → pendingAdd l p = p ++ pendingOf l) as Hgen; [| by apply (Hgen []); intros ? ?%elem_of_nil].
  revert n Hl. induction l as [|c l IH]; intros n Hl p Hp; cbn; [by rewrite app_nil_r |].
  apply numbersMatch_cons in Hl as [Hn Hl]. unfold pendingAdd in *. cbn. rewrite mapSet_fresh.
  - rewrite (IH (n + 1) Hl), <- app_assoc; [done |]. intros k. unfold mapKeys. rewrite fmap_app, elem_of_app. intros [Hk%Hp| ->%list_elem_of_singleton]; cbn; lia.
  - apply mapGet_None. intros Hin%Hp. lia.
Qed.

Lemma pendingTake_head n c l : numbersMatch n (c :: l) = true →
  pendingTake (b_number (c_block c)) (pendingOf (c :: l)) = (Some c, pendingOf l).
Proof.
  intros [Hn Hl]%numbersMatch_cons. unfold pendingTake. cbn. rewrite decide_True by done. f_equal. apply mapDelete_head.
  unfold mapKeys, pendingOf. rewrite <- list_fmap_compose. intros (c' & Heq & Hc)%list_elem_of_fmap. cbn in Heq.
  pose proof (numbersMatch_above _ _ _ Hl Hc). lia.
Qed.

(** ** The processing of a batch *)
Lemma anchored_mono handed handed' n p : (∀ h, h ∈ handed → h ∈ handed') → anchored handed n p → anchored handed' n p.
Proof. intros Hsub [Hw|(h & Hh & ?)]; [by left | right]. exists h. auto. Qed.

Lemma follows_mono handed handed' n p : (∀ h, h ∈ handed → h ∈ handed') → follows handed n p → follows handed' n p.
Proof. intros Hsub [Hw|(h & Hh & ?)]; [by left | right]. exists h. auto. Qed.

Lemma handNext_ends s run commits d :
  su_world s ∈ worlds → sees s → busy run d → bd_pending d = pendingOf commits → numbersMatch (ru_number run) commits = true →
  (∀ c, c ∈ commits → hexOfLength 64 (b_hash (c_block c)) = true) →
  (∀ h, h ∈ withPrevious (ru_previousBlockHash run) commits → verifiedIn h) →
  loopOk (bd_handed d) (length commits) run → ends (handNext configuration maxPayloadAt s run commits) d (settled None).
Proof.
  intros Hw Hsees Hb Hpend Hnum Hhex Hver Hloop. destruct commits as [|c rest]; cbn [handNext].
  { apply processLoop_ends; [done | done | done | done |]. intros d1 Hs1 _. by apply processNext_ends. }
  apply ends_then, ends_then, ends_modify. set (h := mkHanded c (ru_previousBlockHash run)).
  pose proof Hnum as [Hn _]%numbersMatch_cons. destruct Hb as [Hok Hhead Hh Hruns Hrunning].
  assert (∀ h', h' ∈ bd_handed d → h' ∈ bd_handed d ++ [h]) as Hsub by (intros h'; rewrite elem_of_app; by left).
  assert (exact = true → follows (bd_handed d) (ru_number run) (ru_previousBlockHash run)) as Hfollows
    by (intros Hexact; apply (lo_follows _ _ _ Hloop Hexact); cbn; lia).
  split; cbn.
  - by eapply jobsOk_same.
  - exact Hhead.
  - intros h' [Hin| ->%list_elem_of_singleton]%elem_of_app.
    + destruct (Hh h' Hin) as [H1 H2 H2' H3]. split; [done | by eapply anchored_mono | intros Hexact; by eapply follows_mono, H2' | done].
    + split; [apply Hver; by left | | | apply Hhex; by left]; cbn; rewrite Hn; [eapply anchored_mono; [exact Hsub | apply Hloop] |].
      intros Hexact. by eapply follows_mono, Hfollows.
  - right. eexists. split; [by rewrite Hruns |]. split; [exact Hrunning |]. split; [| done]. rewrite Hpend.
    pose proof (pendingTake_head _ _ _ Hnum) as Htake. split; cbn.
    + destruct Hloop as [Ha Hc Hwi _]. split; [by eapply anchored_mono | exact Hc | exact Hwi |]. intros Hexact _. by eapply follows_mono, Hfollows.
    + apply (f_equal snd) in Htake. cbn in Htake. split_and!; [exact Htake | exact Hnum | exact Hhex | exact Hver].
    + intros c' rest' [= <- <-]. apply elem_of_app. right. left.
Qed.

Lemma withRun_ends k f d :
  settled None d →
  (∀ run d1, bd_runs d !! k = Some run → busy run d1 → runOk (bd_handed d1) (bd_pending d1) run → ends (f run) d1 (settled None)) →
  ends (withRun k f) d (settled None).
Proof.
  intros Hs Hf. unfold withRun. apply ends_get. pose proof Hs as [Hok Hhead Hh [(Hr & _)|(run & Hruns & Hrun & Hrok & Hx)]].
  - rewrite Hr. by apply ends_ret.
  - rewrite Hruns. destruct k as [|k]; [| by apply ends_ret]. cbn. apply ends_then. apply Hf; [by rewrite Hruns | | done].
    split; [by eapply jobsOk_same | exact Hhead | done | cbn; by rewrite Hruns | exact Hrun].
Qed.

(** The call still awaits what it awaited. *)
Lemma await_settled run d : busy run d → runOk (bd_handed d) (bd_pending d) run → ends (awaitRun run) d (settled None).
Proof.
  intros [Hok Hhead Hh Hr Hrun] Hrok. apply ends_modify. split; [by eapply jobsOk_same | exact Hhead | done |]. right. exists run. cbn. rewrite Hr. by split_and!.
Qed.

Lemma onParsed_ends s k d : sees s → settled None d → ends (onParsed s k) d (settled None).
Proof.
  intros Hsees Hs. apply withRun_ends; [done |]. intros run d1 Hk Hb Hrok. destruct (ru_phase run) as [batch|commits|c rest] eqn:Hph; [| by apply await_settled..].
  destruct (traverse _ batch) as [commits|e] eqn:Hparse; [| by apply failRun_ends].
  destruct (numbersMatch (ru_number run) commits) eqn:Hnum; cbn [negb]; [| by apply failRun_ends].
  destruct Hrok as [[Ha Hc Hwi Hfo] Hp _]. rewrite Hph in Hc, Hfo, Hp. apply await_settled; [by destruct Hb |].
  pose proof (Forall2_length _ _ _ (traverse_Forall2 _ _ _ Hparse)) as Hlen. split; cbn.
  - split; [done | cbn in *; lia | exact Hwi |]. intros Hexact Hleft. apply (Hfo Hexact). cbn in *. lia.
  - split_and!; [done | done |]. by eexists _, _.
  - done.
Qed.

Lemma parsed_hashes commits c : parsed commits → c ∈ commits → hexOfLength 64 (b_hash (c_block c)) = true.
Proof. intros (chain & batch & Hparse) Hc. destruct (traverse_elem _ _ _ _ Hparse Hc) as (bytes & Hb). by eapply parseCommit_hash. Qed.

Lemma onVerified_ends s k d : su_world s ∈ worlds → sees s → settled None d → ends (onVerified configuration maxPayloadAt s k) d (settled None).
Proof.
  intros Hw Hsees Hs. apply withRun_ends; [done |]. intros run d1 Hk Hb Hrok. destruct (ru_phase run) as [batch|commits|c rest] eqn:Hph; [by apply await_settled | | by apply await_settled].
  destruct (traverse _ _) as [valid|e] eqn:Hsigs; [| by apply failRun_ends].
  destruct (forallb id valid) eqn:Hall; cbn [negb]; [| by apply failRun_ends].
  destruct Hrok as [Hloop Hp _]. rewrite Hph in Hloop, Hp. destruct Hp as (Hpend & Hnum & Hparsed). apply ends_then. apply handNext_ends; try done.
  - destruct Hb. split; try done. by eapply jobsOk_same.
  - cbn. rewrite Hpend. by eapply pendingAdd_batch.
  - intros c. by apply parsed_hashes.
  - intros h Hh. exists (su_world s). split; [done |]. by apply (traverse_true _ _ _ Hsigs Hall).
Qed.

(** A commit that was not found invalid is in the store by now. *)
Definition applied (s : Surroundings) (d : BlockDownloader) (k : nat) (response : result ProcessorResult) : Prop :=
  (response = Ok Accepted ∨ response = Ok Skipped) →
  ∀ run c rest, bd_runs d !! k = Some run → ru_phase run = Handing c rest → b_number (c_block c) ≤ storeBlockNumber s.

Lemma onProcessed_ends s k response d :
  su_world s ∈ worlds → sees s → (exact = true → applied s d k response) → settled None d →
  ends (onProcessed configuration maxPayloadAt s k response) d (settled None).
Proof.
  intros Hw Hsees Happ Hs. apply withRun_ends; [done |]. intros run d1 Hk Hb Hrok. destruct (ru_phase run) as [batch|commits|c rest] eqn:Hph; [by apply await_settled.. |].
  destruct Hrok as [[Ha Hc Hwi Hfo] Hp Hin]. rewrite Hph in Hc, Hp. destruct Hp as (Hpend & Hnum & Hhex & Hver).
  apply numbersMatch_cons in Hnum as [Hn Hnum].
  assert (response = Ok Accepted ∨ response = Ok Skipped →
    ends (handNext configuration maxPayloadAt s (run <| ru_number ::= λ n, n + 1 |> <| ru_previousBlockHash := b_hash (c_block c) |>) rest) d1 (settled None)) as Hok.
  { intros Hresp. apply handNext_ends; try done.
    - by destruct Hb.
    - intros c' ?. apply Hhex. by right.
    - intros h ?. apply Hver. by right.
    - assert (mkHanded c (ru_previousBlockHash run) ∈ bd_handed d1) as Hc' by (by eapply Hin).
      split; cbn in *; [| lia | |].
      + right. exists (mkHanded c (ru_previousBlockHash run)). split; [done |]. cbn. split; [lia | done].
      + intros Hexact. destruct (Hsees Hexact) as [Heq _]. pose proof (Happ Hexact Hresp run c rest Hk Hph). lia.
      + intros _ _. right. exists (mkHanded c (ru_previousBlockHash run)). split; [done |]. cbn. split; [lia | done]. }
  destruct response as [[]|e]; [by apply failRun_ends | apply Hok; auto | apply Hok; auto | by apply failRun_ends].
Qed.
End sync.

(** ** Runs of the downloader

    Each step is taken in the world the node is then in; [worlds] are those gone
    through. *)
Section runs.
Context `{Services} (configuration : Configuration) (maxPayloadAt : Z → Z).

Inductive bdStep (s : Surroundings) (d : BlockDownloader) : BlockDownloader → Prop :=
  | bd_header peer : bdStep s d (downloadBlocks s peer d).2
  | bd_blocks id answer : bdStep s d (onBlocks configuration maxPayloadAt s id answer d).2
  | bd_parsed k : bdStep s d (onParsed s k d).2
  | bd_verified k : bdStep s d (onVerified configuration maxPayloadAt s k d).2
  | bd_processed k response : bdStep s d (onProcessed configuration maxPayloadAt s k response d).2.

Inductive bdReachable : list World → BlockDownloader → Prop :=
  | reach_new : bdReachable [] newBlockDownloader
  | reach_step worlds s d d' : bdReachable worlds d → bdStep s d d' → bdReachable (su_world s :: worlds) d'.

Lemma settled_new exact stored worlds : settled exact stored worlds None newBlockDownloader.
Proof.
  split; [| done | by intros ? ?%elem_of_nil | left; split; [done |]; split; [done | by intros ? ?%elem_of_nil]].
  split; cbn; try (by intros ? ?%elem_of_nil); try done. constructor.
Qed.

Lemma settled_more exact stored stored' worlds w x d :
  (exact = true → stored ≤ stored') → settled exact stored worlds x d → settled exact stored' (w :: worlds) x d.
Proof.
  intros Hgrow. assert (∀ h, verifiedIn worlds h → verifiedIn (w :: worlds) h) as Hver by (intros h (w' & Hw & ?); exists w'; split; [by right | done]).
  assert (∀ l n p, anchored worlds l n p → anchored (w :: worlds) l n p) as Hanc.
  { intros l n p [(w' & b & Hw & ?)|?]; [left; exists w', b; split; [by right | done] | by right]. }
  assert (∀ l n p, follows worlds l n p → follows (w :: worlds) l n p) as Hfol.
  { intros l n p [(w' & b & Hw & ?)|?]; [left; exists w', b; split; [by right | done] | by right]. }
  assert (∀ n, within exact stored n → within exact stored' n) as Hwith by (intros n Hn Hexact; specialize (Hn Hexact); specialize (Hgrow Hexact); lia).
  intros [H1 H0 H2 H3]. split; [done | intros j Hj; by apply Hwith, H0 | |].
  - intros h [Ha Hb Hb' Hc]%H2. split; auto.
  - destruct H3 as [|(run & Hr & Hrun & [[Ha Hc Hwi Hfo] Hp Hin] & Hx)]; [by left | right]. exists run. split_and!; try done. split; [split; auto | | done].
    destruct (ru_phase run); [done.. |]. destruct Hp as (? & ? & ? & ?). split_and!; auto.
Qed.

(** Every handler returns, and the state between handlers is kept. *)
Lemma handlers_settled exact stored worlds s d : settled exact stored worlds None d → su_world s ∈ worlds → sees exact stored s →
  (∀ peer, ends (downloadBlocks s peer) d (settled exact stored worlds None)) ∧
  (∀ id answer, ends (onBlocks configuration maxPayloadAt s id answer) d (settled exact stored worlds None)) ∧
  (∀ k, ends (onParsed s k) d (settled exact stored worlds None)) ∧
  (∀ k, ends (onVerified configuration maxPayloadAt s k) d (settled exact stored worlds None)) ∧
  (∀ k response, (exact = true → applied s d k response) →
    ends (onProcessed configuration maxPayloadAt s k response) d (settled exact stored worlds None)).
Proof.
  intros Hs Hw Hsees. split_and!; intros.
  - by apply download_settled.
  - by apply onBlocks_ends.
  - by apply onParsed_ends.
  - by apply onVerified_ends.
  - by apply onProcessed_ends.
Qed.

(** Whatever the rest of the node does. *)
Notation settledAny := (settled false 0).

Lemma sees_any s : sees false 0 s.
Proof. done. Qed.

Lemma settled_any_more worlds w x d : settledAny worlds x d → settledAny (w :: worlds) x d.
Proof. by apply settled_more. Qed.

Lemma step_settled worlds s d d' : settledAny worlds None d → su_world s ∈ worlds → bdStep s d d' → settledAny worlds None d'.
Proof.
  intros Hs Hw Hstep. destruct (handlers_settled _ _ worlds s d Hs Hw (sees_any s)) as (H1 & H2 & H3 & H4 & H5).
  assert (∀ m, ends m d (settledAny worlds None) → settledAny worlds None (m d).2) as Hend by (intros m (d1 & -> & ?); done).
  destruct Hstep; auto. by apply Hend, H5.
Qed.

Lemma reachable_settled worlds d : bdReachable worlds d → settledAny worlds None d.
Proof.
  induction 1 as [|worlds s d d' _ IH Hstep]; [apply settled_new |].
  eapply step_settled; [by apply settled_any_more | left | done].
Qed.

(** ** Runs in which the rest of the node keeps its chain as it should

    The store's last block has the number that the store says; that number never
    falls; and when the commit processor has answered that a commit was accepted, or
    skipped because it is not the one awaited, its block is in the store. *)
Inductive BdCall :=
  | CallHeader (peer : Peer)
  | CallBlocks (id : nat) (answer : result (list (list byte)))
  | CallParsed (k : nat)
  | CallVerified (k : nat)
  | CallProcessed (k : nat) (response : result ProcessorResult).

Definition bdCall (s : Surroundings) (c : BdCall) : M BlockDownloader unit :=
  match c with
  | CallHeader peer => downloadBlocks s peer
  | CallBlocks id answer => onBlocks configuration maxPayloadAt s id answer
  | CallParsed k => onParsed s k
  | CallVerified k => onVerified configuration maxPayloadAt s k
  | CallProcessed k response => onProcessed configuration maxPayloadAt s k response
  end.

Record keepsChain (worlds : list World) (s : Surroundings) : Prop := {
  kc_last : ∀ b, getLastBlock (w_chain (su_world s)) = Ok b → b_number b = storeBlockNumber s;
  kc_grows : ∀ w, head worlds = Some w → ch_blockNumber (w_chain w) ≤ storeBlockNumber s;
}.

Inductive bdRun : list World → BlockDownloader → Prop :=
  | run_new : bdRun [] newBlockDownloader
  | run_call worlds s d c :
      bdRun worlds d → keepsChain worlds s →
      match c with CallProcessed k response => applied s d k response | _ => True end →
      bdRun (su_world s :: worlds) (bdCall s c d).2.

Definition storedNow (worlds : list World) : Z := match worlds with w :: _ => ch_blockNumber (w_chain w) | [] => 0 end.

Lemma run_settled worlds d : bdRun worlds d → settled true (storedNow worlds) worlds None d.
Proof.
  induction 1 as [|worlds s d c Hrun IH [Hlast Hgrows] Happ]; [apply settled_new |]. cbn [storedNow].
  assert (settled true (storeBlockNumber s) (su_world s :: worlds) None d) as Hs.
  { destruct worlds as [|w worlds]; [inversion Hrun; subst; apply settled_new |]. eapply settled_more; [| exact IH]. intros _. by apply Hgrows. }
  destruct (handlers_settled _ _ _ s d Hs) as (H1 & H2 & H3 & H4 & H5); [left | by split |].
  assert (∀ m, ends m d (settled true (storeBlockNumber s) (su_world s :: worlds) None) →
    settled true (storeBlockNumber s) (su_world s :: worlds) None (m d).2) as Hend by (intros m (d1 & -> & ?); done).
  destruct c; apply Hend; cbn [bdCall]; auto.
Qed.

Lemma run_reachable worlds d : bdRun worlds d → bdReachable worlds d.
Proof.
  induction 1 as [|worlds s d c _ IH _ _]; [apply reach_new |]. eapply reach_step; [exact IH |]. destruct c; constructor.
Qed.

(** The downloads in progress stay in order, however headers, answers,
    failures and the node's own progress interleave: the ranges asked for are not
    empty, each begins where the one before it ends, and there are at most ten; only
    the first job is ever being processed, by a single call; and the pending commits
    are exactly those of its batch that were verified and not yet handed over. *)
Theorem block_jobs_ordered worlds d :
  bdReachable worlds d →
  (∀ i a b, bd_jobs d !! i = Some a → bd_jobs d !! S i = Some b → bj_blockNumberFrom b = bj_blockNumberTo a + 1) ∧
  (∀ j, j ∈ bd_jobs d → bj_blockNumberFrom j ≤ bj_blockNumberTo j) ∧
  Z.of_nat (length (bd_jobs d)) ≤ MAX_DOWNLOAD_BLOCKS_JOBS ∧ (length (bd_runs d) ≤ 1)%nat ∧
  (∀ i j, bd_jobs d !! i = Some j →
    bj_status j = Processing ↔ i = 0%nat ∧ ∃ run, bd_runs d = [run] ∧ bj_id (ru_job run) = bj_id j) ∧
  bd_pending d = match bd_runs d with
                 | [run] => match ru_phase run with Handing _ rest => pendingOf rest | _ => [] end
                 | _ => []
                 end.
Proof.
  intros [Hok _ _ Hrun]%reachable_settled. split_and!; try apply Hok.
  - destruct Hrun as [(-> & _)|(run & -> & _)]; cbn; lia.
  - intros i j Hj. destruct Hrun as [(Hr & _ & Hnone)|(run & Hr & (j0 & rest & Hj0 & (Hid & _) & Hst) & _)].
    + split; [intros Hst; by destruct (Hnone j (list_elem_of_lookup_2 _ _ _ Hj)) |]. intros (_ & run & Hr' & _). by rewrite Hr in Hr'.
    + split; [intros Hp | intros [-> _]; rewrite Hj0 in Hj; by injection Hj as <-].
      assert (i = 0%nat) as -> by (destruct i; [done | by destruct (jo_tail _ _ Hok _ _ Hj)]).
      split; [done |]. exists run. split; [done |]. rewrite Hj0 in Hj. by injection Hj as <-.
  - destruct Hrun as [(-> & -> & _)|(run & -> & _ & [_ Hp _] & _)]; [done |]. destruct (ru_phase run); [done | by destruct Hp | by destruct Hp].
Qed.

(** Nothing the downloader does can get lost in it: from every state it can be
    in, each of its handlers returns without an error, whatever a peer answered.  In
    particular the recursion over jobs whose blocks are already applied ends. *)
Theorem block_handlers_end worlds s d :
  bdReachable worlds d →
  (∀ peer, (downloadBlocks s peer d).1 = Ok tt) ∧
  (∀ id answer, (onBlocks configuration maxPayloadAt s id answer d).1 = Ok tt) ∧
  (∀ k, (onParsed s k d).1 = Ok tt ∧ (onVerified configuration maxPayloadAt s k d).1 = Ok tt) ∧
  (∀ k response, (onProcessed configuration maxPayloadAt s k response d).1 = Ok tt).
Proof.
  intros Hs%reachable_settled. apply (settled_any_more _ (su_world s)) in Hs.
  destruct (handlers_settled _ _ _ s d Hs) as (H1 & H2 & H3 & H4 & H5); [left | apply sees_any |].
  assert (∀ m, ends m d (settledAny (su_world s :: worlds) None) → (m d).1 = Ok tt) as Hend by (intros m (d1 & -> & ?); done).
  split_and!; intros; [| | split |]; auto. by apply Hend, H5.
Qed.

(** C9. No commit reaches the commit processor unverified: for each one handed
    over, in any run, the aggregated signature of its precommits verified, in a world
    the node was in, against the hash recorded as its predecessor's.  When the rest of
    the node keeps its chain as it should ([bdRun]), that is the hash of the block whose
    number is one less: of the commit handed over for it, or of the last block of the
    store at a moment when the store ended with it.  It is never that of a last block
    that has moved on, nor of an older one. *)
Theorem handed_commits_verified worlds d h :
  bdReachable worlds d → h ∈ bd_handed d →
  (∃ w, w ∈ worlds ∧ (hasValidCommitSignature (hc_commit h) (hc_previous h) w).1 = Ok true) ∧
  (bdRun worlds d →
    (∃ w b, w ∈ worlds ∧ getLastBlock (w_chain w) = Ok b ∧ hc_previous h = b_hash b ∧
            b_number b = b_number (c_block (hc_commit h)) - 1) ∨
    ∃ h', h' ∈ bd_handed d ∧ b_number (c_block (hc_commit h')) = b_number (c_block (hc_commit h)) - 1 ∧
          hc_previous h = b_hash (c_block (hc_commit h'))).
Proof.
  intros Hs%reachable_settled Hh. split; [by apply (ha_verified _ _ _ _ (se_handed _ _ _ _ _ Hs h Hh)) |].
  intros Hrun%run_settled. by apply (ha_follows _ _ _ _ (se_handed _ _ _ _ _ Hrun h Hh)).
Qed.
End runs.
