(* ===== verification/BlockExchange.v ===== *)
(** * Blocks between a node and its peers

    What a peer answers to a request for blocks: the controller
    (p2p/source/socket-server/controllers/get-blocks.ts), the database service
    (database/source/database-service.ts) and the range read it calls
    (evm/core/src/db.rs); and what [BlockDownloader] makes of an answer that is
    shorter than what it asked for. *)
From S2P Require Import Prelude Bytes Serializer Messages Blocks Proposals Commits JsMap Quorum BlockchainUtils.
From S2P Require Import Configuration RoundCalculator ValidatorSet RoundState ConsensusStorage Node Processors CommitBatch.
From S2P Require Import MessageDownloader BlockDownloader BlockSync.

(** ** The store

    The blocks in the order of their numbers: the size of the payload that the header
    states, the serialized commit, and whether its proof is there. *)
Record StoredBlock := mkStoredBlock {
  sk_number : Z;
  sk_payloadSize : Z;
  sk_serialized : list byte;
  sk_hasProof : bool;
}.

(** db.rs: [PER_COMMIT_OVERHEAD_BYTES]. *)
Definition PER_COMMIT_OVERHEAD_BYTES : Z := 1024.
Definition estimatedBytes (b : StoredBlock) : Z := sk_payloadSize b + PER_COMMIT_OVERHEAD_BYTES.

Fixpoint readRange (accumulatedBytes maxBytes : Z) (blocks : list StoredBlock) : list StoredBlock :=
  match blocks with
  | [] => []
  | b :: rest =>
      let accumulatedBytes := accumulatedBytes + estimatedBytes b in
      if maxBytes <? accumulatedBytes then []
      else if negb (sk_hasProof b) then []
      else b :: readRange accumulatedBytes maxBytes rest
  end.

Definition inRange (from to : Z) (b : StoredBlock) : bool := (from <=? sk_number b) && (sk_number b <=? to).

Definition getCommitsByBlockRange (store : list StoredBlock) (from to maxBytes : Z) : result (list StoredBlock) :=
  guardR (from <=? to) (JSError "from_block_number must be <= to_block_number");;
  guardR (negb (maxBytes =? 0)) (JSError "max_bytes must be > 0");;
  Ok (readRange 0 maxBytes (List.filter (inRange from to) store)).

(** ** database-service.ts *)
Definition readCommits (store : list StoredBlock) (start end_ maxBytes : Z) : result (list StoredBlock) :=
  guardR (start <=? end_) (JSError "start must be <= end");;
  guardR (0 <? maxBytes) (JSError "maxBytes must be > 0");;
  getCommitsByBlockRange store start end_ maxBytes.

Definition findCommitBuffers (store : list StoredBlock) (start end_ maxBytes : Z) : result (list (list byte)) :=
  commits ← readCommits store start end_ maxBytes; Ok (map sk_serialized commits).

(** ** get-blocks.ts *)
Definition blockBudget (limit : Z) : Z := MAX_PAYLOAD_CLIENT - RESPONSE_ENVELOPE_RESERVE - limit * PROTO_BLOCK_OVERHEAD.

Definition getBlocksFor (store : list StoredBlock) (lastBlockNumber fromBlockNumber limit : Z) : result (list (list byte)) :=
  if lastBlockNumber <? fromBlockNumber then Ok []
  else findCommitBuffers store fromBlockNumber (fromBlockNumber + limit - 1) (blockBudget limit).

(** ** What the peer stored

    The size verifier accepts a block only if its serialized size is that of the header
    and of the payload the header states; a commit adds its proof. *)
Definition wfStored (b : StoredBlock) : Prop :=
  0 ≤ sk_payloadSize b ∧ Z.of_nat (length (sk_serialized b)) = proofSize + headerSize + sk_payloadSize b ∧ sk_hasProof b = true.

Definition estimatedTotal (l : list StoredBlock) : Z := foldr (λ b n, estimatedBytes b + n) 0 l.

Lemma overhead_bound : proofSize + headerSize ≤ PER_COMMIT_OVERHEAD_BYTES.
Proof. by vm_compute. Qed.

Lemma sizeOfBlocks_sum l : sizeOfBlocks l = foldr (λ b n, Z.of_nat (length b) + n) 0 l.
Proof.
  unfold sizeOfBlocks. assert (∀ a, foldl (λ size b, size + Z.of_nat (length b)) a l = a + foldr (λ (b : list byte) n, Z.of_nat (length b) + n) 0 l) as Hgen; [| by rewrite Hgen].
  induction l as [|b l IH]; intros a; cbn; [lia |]. rewrite IH. lia.
Qed.

Lemma stored_size l : Forall wfStored l →
  sizeOfBlocks (sk_serialized <$> l) =
  estimatedTotal l - Z.of_nat (length l) * (PER_COMMIT_OVERHEAD_BYTES - proofSize - headerSize).
Proof.
  rewrite sizeOfBlocks_sum. induction 1 as [|b l (Hp & Hb & _) _ IH]; [done |]. cbn [fmap list_fmap foldr length].
  rewrite IH, Hb. unfold estimatedTotal. cbn [foldr]. unfold estimatedBytes. lia.
Qed.

Lemma total_cons b l : estimatedTotal (b :: l) = estimatedBytes b + estimatedTotal l.
Proof. done. Qed.

(** The blocks read are the first ones, as long as they fit. *)
Lemma readRange_spec acc maxBytes blocks : Forall wfStored blocks → acc ≤ maxBytes →
  let sent := readRange acc maxBytes blocks in
  acc + estimatedTotal sent ≤ maxBytes ∧
  (sent = blocks ∨ ∃ next rest, blocks = sent ++ next :: rest ∧ maxBytes < acc + estimatedTotal sent + estimatedBytes next).
Proof.
  intros Hwf. revert acc. induction Hwf as [|b l (Hp & Hb & Hproof) Hl IH]; intros acc Hacc; cbn [readRange]; [split; [cbn; lia | by left] |].
  destruct (Z.ltb_spec maxBytes (acc + estimatedBytes b)) as [Hbig|Hfit].
  { split; [cbn; lia |]. right. exists b, l. split; [done |]. change (estimatedTotal []) with 0. lia. }
  rewrite Hproof. cbn [negb]. rewrite total_cons. destruct (IH (acc + estimatedBytes b) Hfit) as [Hle Hcase]. split; [lia |].
  destruct Hcase as [->|(next & rest & Heq & Hbig)]; [by left | right]. exists next, rest. split; [cbn; f_equal; exact Heq | lia].
Qed.

Lemma getBlocks_read store last from limit blocks :
  from ≤ last → 1 ≤ limit ≤ MAX_DOWNLOAD_BLOCKS → List.filter (inRange from (from + limit - 1)) store = blocks →
  getBlocksFor store last from limit = Ok (sk_serialized <$> readRange 0 (blockBudget limit) blocks).
Proof.
  intros Hlast Hlimit <-. unfold getBlocksFor, findCommitBuffers, readCommits, getCommitsByBlockRange.
  assert (0 < blockBudget limit) as Hpos.
  { unfold blockBudget, MAX_PAYLOAD_CLIENT, MEGABYTE, RESPONSE_ENVELOPE_RESERVE, PROTO_BLOCK_OVERHEAD, MAX_DOWNLOAD_BLOCKS in *. lia. }
  rewrite (proj2 (Z.ltb_ge last from)) by lia. rewrite (proj2 (Z.leb_le from (from + limit - 1))) by lia.
  rewrite (proj2 (Z.ltb_lt 0 (blockBudget limit))), (proj2 (Z.eqb_neq (blockBudget limit) 0)) by lia. done.
Qed.

Lemma Ok_inj {A} (a b : A) : Ok a = Ok b → a = b.
Proof. congruence. Qed.

(** ** The answer to the request of a job *)
Section answers.
Context `{Services} (maxPayloadAt : Z → Z).

(** C24. An answer fits.  The controller's budget keeps what it sends, with five
    bytes of framing for each block and the reserve for the envelope, within the
    largest frame the client accepts, whatever blocks are stored. *)
Theorem get_blocks_fits store last from limit :
  from ≤ last → 1 ≤ limit ≤ MAX_DOWNLOAD_BLOCKS → Forall wfStored store →
  (length (List.filter (inRange from (from + limit - 1)) store) ≤ Z.to_nat limit)%nat →
  ∃ blocks, getBlocksFor store last from limit = Ok blocks ∧
    sizeOfBlocks blocks + Z.of_nat (length blocks) * PROTO_BLOCK_OVERHEAD + RESPONSE_ENVELOPE_RESERVE ≤ MAX_PAYLOAD_CLIENT.
Proof.
  intros Hlast Hlimit Hwf Hcount. set (l := List.filter _ store) in *. pose proof (getBlocks_read store last from limit l Hlast Hlimit eq_refl) as Hget.
  eexists. split; [exact Hget |]. assert (Forall wfStored l) as Hl.
  { apply Forall_forall. intros b Hb. apply list_elem_of_In, filter_In in Hb as [Hb _]. rewrite Forall_forall in Hwf. by apply Hwf, list_elem_of_In. }
  destruct (readRange_spec 0 (blockBudget limit) l Hl) as [Hfit Hcase].
  { unfold blockBudget, MAX_PAYLOAD_CLIENT, MEGABYTE, RESPONSE_ENVELOPE_RESERVE, PROTO_BLOCK_OVERHEAD, MAX_DOWNLOAD_BLOCKS in *. lia. }
  set (sent := readRange _ _ l) in *. assert (length sent ≤ length l)%nat as Hlen.
  { destruct Hcase as [Hs|(next & rest & Hs & _)]; apply (f_equal length) in Hs; rewrite ?length_app in Hs; lia. }
  assert (Forall wfStored sent) as Hsent by (destruct Hcase as [Hs|(next & rest & Hs & _)]; [by rewrite Hs | rewrite Hs in Hl; by apply Forall_app in Hl as [? _]]).
  rewrite stored_size, length_fmap by done. pose proof overhead_bound.
  unfold blockBudget, RESPONSE_ENVELOPE_RESERVE, PROTO_BLOCK_OVERHEAD in *. nia.
Qed.

Lemma replay_banned s job d : bd_banned (replayJob s job d).2 = bd_banned d.
Proof.
  unfold replayJob, newJob, requestBlocks, mbind, M_bind, get, modify, mret, M_ret. cbv zeta.
  destruct (indexOfJob _ _); [| done]. destruct (_ !! _); [| done]. by destruct (_ && _).
Qed.

(** Whether the peer of a job with missing blocks is banned. *)
Lemma missing_banned s job d :
  bd_banned (handleMissingBlocks maxPayloadAt s job d).2 =
    if sizeOfBlocks (bj_blocks job) + maxPayloadAt (storeBlockNumber s + 1) <? MAX_PAYLOAD_CLIENT
    then bd_banned d ++ [pe_ip (bj_peer job)] else bd_banned d.
Proof.
  unfold handleMissingBlocks. destruct (_ <? _); unfold mbind, M_bind, banPeer, modify, mret, M_ret; by rewrite replay_banned.
Qed.

(** When an honest peer that could not send all blocks is spared.  The next
    block did not fit the controller's budget; the downloader does not ban the peer
    if the payload of that block leaves room, below the largest payload, for the
    reserve, the framing, the fixed charge for a commit, and what the charges for the
    blocks sent exceed their real size by. *)
Theorem honest_truncation_spared s job d store last from limit sent :
  Forall wfStored store → from ≤ last → 1 ≤ limit ≤ MAX_DOWNLOAD_BLOCKS →
  getBlocksFor store last from limit = Ok sent → bj_blocks job = sent →
  (length sent < length (List.filter (inRange from (from + limit - 1)) store))%nat →
  (∀ b, b ∈ store → sk_payloadSize b + PER_COMMIT_OVERHEAD_BYTES + RESPONSE_ENVELOPE_RESERVE + limit * PROTO_BLOCK_OVERHEAD
     + Z.of_nat (length sent) * (PER_COMMIT_OVERHEAD_BYTES - proofSize - headerSize) ≤ maxPayloadAt (storeBlockNumber s + 1)) →
  bd_banned (handleMissingBlocks maxPayloadAt s job d).2 = bd_banned d.
Proof.
  intros Hwf Hlast Hlimit Hget Hjob Hshort Hroom. set (l := List.filter _ store) in *.
  rewrite (getBlocks_read store last from limit l Hlast Hlimit eq_refl) in Hget. injection Hget as Hsent.
  assert (∀ b, b ∈ l → b ∈ store) as Hsub by (intros b; rewrite !list_elem_of_In; unfold l; rewrite filter_In; tauto).
  assert (Forall wfStored l) as Hl by (apply Forall_forall; intros b Hb; rewrite Forall_forall in Hwf; by apply Hwf, Hsub).
  destruct (readRange_spec 0 (blockBudget limit) l Hl) as [_ [Hall|(next & rest & Heq & Hbig)]].
  { unfold blockBudget, MAX_PAYLOAD_CLIENT, MEGABYTE, RESPONSE_ENVELOPE_RESERVE, PROTO_BLOCK_OVERHEAD, MAX_DOWNLOAD_BLOCKS in *. lia. }
  { rewrite <- Hsent, Hall, length_fmap in Hshort. lia. }
  set (first := readRange _ _ l) in *. assert (Forall wfStored first) as Hfirst by (rewrite Heq in Hl; by apply Forall_app in Hl as [? _]).
  assert (next ∈ store) as Hnext by (apply Hsub; rewrite Heq; apply elem_of_app; right; left). specialize (Hroom next Hnext).
  rewrite missing_banned, Hjob, <- Hsent, stored_size by done. rewrite (proj2 (Z.ltb_ge _ _)); [done |].
  rewrite <- Hsent, length_fmap in Hroom. unfold estimatedBytes, blockBudget in Hbig. lia.
Qed.

(** Three full blocks. *)
Definition storedOf (number payloadSize : Z) : StoredBlock :=
  mkStoredBlock number payloadSize (replicate (Z.to_nat (proofSize + headerSize + payloadSize)) Byte.x00) true.
Definition fullBlocks : list StoredBlock := [storedOf 1 1572000; storedOf 2 1572000; storedOf 3 (2097152 - headerSize)].

Lemma storedOf_ok number payloadSize : 0 ≤ payloadSize → wfStored (storedOf number payloadSize).
Proof.
  intros Hp. split; [done |]. split; [| done]. cbn. rewrite length_replicate, Z2Nat.id; [done |].
  assert (0 ≤ proofSize + headerSize) by (by vm_compute). lia.
Qed.

Lemma storedOf_payload number payloadSize : sk_payloadSize (storedOf number payloadSize) = payloadSize.
Proof. done. Qed.
Lemma storedOf_proof number payloadSize : sk_hasProof (storedOf number payloadSize) = true.
Proof. done. Qed.
Lemma storedOf_number number payloadSize : sk_number (storedOf number payloadSize) = number.
Proof. done. Qed.
#[local] Opaque storedOf.

Lemma fullBlocks_ok b : b ∈ fullBlocks → wfStored b ∧ headerSize + sk_payloadSize b ≤ 2097152.
Proof.
  assert (headerSize = 557) as Hsize by (by vm_compute). unfold fullBlocks. rewrite !elem_of_cons.
  intros [->|[->|[->|?%elem_of_nil]]]; [..| done]; rewrite storedOf_payload; (split; [apply storedOf_ok |]); lia.
Qed.

Lemma fullBlocks_range : List.filter (inRange 1 3) fullBlocks = fullBlocks.
Proof. unfold fullBlocks, inRange. cbn [List.filter]. by rewrite !storedOf_number. Qed.

Lemma fullBlocks_sent : readRange 0 (blockBudget 3) fullBlocks = take 2 fullBlocks.
Proof.
  assert (headerSize = 557) as Hsize by (by vm_compute). assert (blockBudget 3 = 5242353) as -> by (by vm_compute).
  unfold fullBlocks, estimatedBytes, PER_COMMIT_OVERHEAD_BYTES. cbn [readRange]. unfold estimatedBytes, PER_COMMIT_OVERHEAD_BYTES.
  rewrite !storedOf_payload, !storedOf_proof, Hsize. done.
Qed.

Lemma fullBlocks_size : sizeOfBlocks (sk_serialized <$> take 2 fullBlocks) = 3145332.
Proof.
  assert (headerSize = 557) as Hsize by (by vm_compute). assert (proofSize = 109) as Hproof by (by vm_compute). rewrite stored_size.
  - unfold fullBlocks. cbn [take length]. rewrite !total_cons. change (estimatedTotal []) with 0.
    unfold estimatedBytes, PER_COMMIT_OVERHEAD_BYTES. rewrite !storedOf_payload, Hsize, Hproof. lia.
  - apply Forall_forall. intros b (i & Hi)%list_elem_of_lookup. apply lookup_take_Some in Hi as [Hi _].
    by apply fullBlocks_ok, (list_elem_of_lookup_2 _ i).
Qed.

(** An honest peer can be banned for a full answer.  A peer stores three
    blocks, none larger than the network allows (two megabytes); asked for them, it
    sends the two that fit the controller's budget, and is banned for the third, because
    the downloader compares against the size of the frame without the reserve, the
    framing and the header of a block. *)
Theorem honest_truncation_banned s job d :
  (∀ n, maxPayloadAt n = 2097152) → Ok (bj_blocks job) = getBlocksFor fullBlocks 3 1 3 →
  (∀ b, b ∈ fullBlocks → wfStored b ∧ headerSize + sk_payloadSize b ≤ 2097152) ∧
  bj_blocks job = sk_serialized <$> take 2 fullBlocks ∧
  bd_banned (handleMissingBlocks maxPayloadAt s job d).2 = bd_banned d ++ [pe_ip (bj_peer job)].
Proof.
  intros Hmax Hjob. rewrite (getBlocks_read fullBlocks 3 1 3 fullBlocks), fullBlocks_sent in Hjob;
    [| lia | unfold MAX_DOWNLOAD_BLOCKS; lia | apply fullBlocks_range].
  apply Ok_inj in Hjob. split; [exact fullBlocks_ok |]. split; [exact Hjob |].
  by rewrite missing_banned, Hjob, Hmax, fullBlocks_size.
Qed.
End answers.
