(* ===== verification/ConsensusHeap.v ===== *)
(** * The shared objects of the consensus, and what the environment may do to them

    While a handler awaits, the processors add votes and proposals to round
    states, create round states, write to the store and fire timers.  The file
    gives the invariant of these objects and shows that every environment action
    keeps it, only ever adds information, and leaves the consensus position, the
    locks, the chain and the trace alone. *)
From S2P Require Import Prelude Bytes Serializer Messages Blocks Proposals Commits JsMap Quorum BlockchainUtils.
From S2P Require Import ValidatorSet RoundState RoundStateFacts ConsensusStorage Node Processors CommitBatch Consensus.

Section heap.
Context `{Services}.
(** [Genuine m]: the validator that [m] names signed it.  [ProofOf n r h]: +2/3
    of the validators of block number [n] prevoted [h] in round [r];
    [CommitOf n r h]: +2/3 precommitted it.  They are what a successful
    signature verification tells. *)
Context (Genuine : Message → Prop) (ProofOf CommitOf : Z → Z → string → Prop).
(** The chains under whose validators verification tells this. *)
Context (Trusted : Chain → Prop).

(** A message from the factory. *)
Definition msgOk (m : Message) : Prop :=
  0 ≤ msg_validatorIndex m < roundValidatorsAt (msg_blockNumber m) ∧
  (msg_type m = MessageType_Prevote ∨ msg_type m = MessageType_Precommit) ∧
  makeMessageFromBytes roundValidatorsAt (msg_serialized m) = Ok m.

(** A proposal from the factory, as yet not deserialized. *)
Definition bare (p : Proposal) : Proposal := p <| p_payload := None |>.
Definition built (p : Proposal) : Prop :=
  ∃ rva, makeProposalFromBytes rva isAddress (p_serialized p) = Ok (bare p).

Record votesOk (t : Z) (r : RoundState) (messages : JsMap Z Message)
    (counts : JsMap (option string) Z) : Prop := {
  vo_keys : wfMap messages;
  vo_counts : ∀ h, default 0 (mapGet counts h) = Z.of_nat (length (votesFor messages h));
  vo_votes : ∀ i m, (i, m) ∈ messages →
    msg_validatorIndex m = i ∧ msg_type m = t ∧ msg_blockNumber m = rs_blockNumber r ∧
    msg_round m = rs_round r ∧ msgOk m ∧ Genuine m;
}.

Record proposalOk (r : RoundState) (p : Proposal) : Prop := {
  po_built : built p;
  po_number : p_blockNumber p = rs_blockNumber r;
  po_round : p_round p = rs_round r;
  po_payload : ∀ pl, p_payload p = Some pl → b_header (pp_block pl) = p_blockHeader p;
}.

Record roundOk (r : RoundState) : Prop := {
  ro_prevotes : votesOk MessageType_Prevote r (rs_prevotes r) (rs_prevotesCount r);
  ro_precommits : votesOk MessageType_Precommit r (rs_precommits r) (rs_precommitsCount r);
  ro_proposal : ∀ p, rs_proposal r = Some p → proposalOk r p;
  ro_result : ∀ res, rs_processorResult r = Some res → bpr_success res = true → is_Some (rs_proposal r);
  ro_proof : ∀ res p v, rs_processorResult r = Some res → bpr_success res = true →
    rs_proposal r = Some p → p_validRound p = Some v → ProofOf (p_blockNumber p) v (p_hash p);
}.

Definition flightOk (w : World) (f : InFlight) : Prop :=
  match f with
  | FMessage m l => msgOk m ∧ ∃ r, w_rounds w !! l = Some r ∧
                              msg_blockNumber m = rs_blockNumber r ∧ msg_round m = rs_round r
  | FProposal p l => built p ∧ p_payload p = None ∧ ∃ r, w_rounds w !! l = Some r ∧
                              p_blockNumber p = rs_blockNumber r ∧ p_round p = rs_round r
  end.

Definition backgroundOk (b : Background) : Prop :=
  match b with
  | BMessage m => msgOk m
  | BProposal p => built p ∧ p_payload p = None
  end.

(** A commit whose signature verified. *)
Definition commitOk (c : Commit) : Prop :=
  CommitOf (b_number (c_block c)) (cp_round (c_proof c)) (b_hash (c_block c)) ∧
  hexOfLength 64 (b_hash (c_block c)) = true.

Record HeapOk (w : World) : Prop := {
  ho_rounds : ∀ l r, w_rounds w !! l = Some r → roundOk r;
  ho_next : ∀ l, is_Some (w_rounds w !! l) → l < w_next w;
  ho_repo : ∀ n rd l, mapGet (w_repo w) (n, rd) = Some l →
    ∃ r, w_rounds w !! l = Some r ∧ rs_blockNumber r = n ∧ rs_round r = rd;
  ho_flight : ∀ f, f ∈ w_inFlight w → flightOk w f;
  ho_background : ∀ b, b ∈ w_background w → backgroundOk b;
  ho_promises : ∀ k p, w_promises w !! k = Some (Some p) → built p ∧ p_payload p = None;
  ho_commits : ∀ l cs, w_commits w !! l = Some cs → l < w_next w ∧
    CommitOf (cs_blockNumber cs) (cs_round cs) (b_hash (c_block (cs_commit cs))) ∧
    hexOfLength 64 (b_hash (c_block (cs_commit cs))) = true;
  ho_trusted : Trusted (w_chain w);
  ho_pending : ∀ n c, mapGet (w_pendingCommits w) n = Some c → commitOk c;
}.

(** ** Growth of a round state *)
Definition votesLe (m m' : JsMap Z Message) : Prop := ∀ i v, mapGet m i = Some v → mapGet m' i = Some v.

Record roundLe (r r' : RoundState) : Prop := {
  rl_number : rs_blockNumber r' = rs_blockNumber r;
  rl_round : rs_round r' = rs_round r;
  rl_proposal : ∀ p, rs_proposal r = Some p → ∃ p', rs_proposal r' = Some p' ∧ bare p' = bare p;
  rl_prevotes : votesLe (rs_prevotes r) (rs_prevotes r');
  rl_precommits : votesLe (rs_precommits r) (rs_precommits r');
  rl_commit : rs_proposer r' = rs_proposer r;
}.

Definition heapLe (w w' : World) : Prop :=
  ∀ l r, w_rounds w !! l = Some r → ∃ r', w_rounds w' !! l = Some r' ∧ roundLe r r'.

(** What the environment leaves alone in a round state. *)
Record roundEnv (r r' : RoundState) : Prop := {
  re_le : roundLe r r';
  re_proposal : ∀ p, rs_proposal r = Some p → rs_proposal r' = Some p;
  re_result : rs_processorResult r' = rs_processorResult r;
  re_payload : ∀ p, rs_proposal r = None → rs_proposal r' = Some p → p_payload p = None;
}.

Record coreEnv (c c' : Core) : Prop := {
  ce_blockNumber : k_blockNumber c' = k_blockNumber c;
  ce_round : k_round c' = k_round c;
  ce_step : k_step c' = k_step c;
  ce_locked : k_lockedValue c' = k_lockedValue c;
  ce_valid : k_validValue c' = k_validValue c;
  ce_did : k_didMajorityPrevote c' = k_didMajorityPrevote c ∧
           k_didMajorityPrecommit c' = k_didMajorityPrecommit c;
}.

Record envR (w w' : World) : Prop := {
  er_core : coreEnv (w_core w) (w_core w');
  er_trace : w_trace w' = w_trace w;
  er_chain : w_chain w' = w_chain w;
  er_lock : w_commitLock w' = w_commitLock w;
  er_rounds : ∀ l r, w_rounds w !! l = Some r → ∃ r', w_rounds w' !! l = Some r' ∧ roundEnv r r';
  er_repo : ∀ k l, mapGet (w_repo w) k = Some l → mapGet (w_repo w') k = Some l;
  er_commits : ∀ l cs, w_commits w !! l = Some cs → w_commits w' !! l = Some cs;
}.

Lemma votesLe_refl m : votesLe m m.
Proof. by intros i v. Qed.

Lemma roundLe_refl r : roundLe r r.
Proof. split; [done | done | eauto | apply votesLe_refl | apply votesLe_refl | done]. Qed.

Lemma roundLe_trans r1 r2 r3 : roundLe r1 r2 → roundLe r2 r3 → roundLe r1 r3.
Proof.
  intros [? ? Hp Hv Hc ?] [? ? Hp' Hv' Hc' ?]. split; [congruence | congruence | | | | congruence].
  - intros p (p' & Hp1 & Hb)%Hp. apply Hp' in Hp1 as (p'' & ? & ?). exists p''. split; [done | congruence].
  - intros i v Hi. auto.
  - intros i v Hi. auto.
Qed.

Lemma roundEnv_refl r : roundEnv r r.
Proof. split; [apply roundLe_refl | done | done | congruence]. Qed.

Lemma roundEnv_trans r1 r2 r3 : roundEnv r1 r2 → roundEnv r2 r3 → roundEnv r1 r3.
Proof.
  intros [Hl Hp Hr Hy] [Hl' Hp' Hr' Hy']. split; [by eapply roundLe_trans | auto | congruence |].
  intros p Hn Hs. destruct (rs_proposal r2) as [p2|] eqn:H2; [| by apply Hy'].
  rewrite (Hp' p2 eq_refl) in Hs. injection Hs as <-. by apply Hy.
Qed.

Lemma coreEnv_refl c : coreEnv c c.
Proof. by split. Qed.

Lemma coreEnv_trans c1 c2 c3 : coreEnv c1 c2 → coreEnv c2 c3 → coreEnv c1 c3.
Proof. intros [????? []] [????? []]. split; try congruence. split; congruence. Qed.

#[local] Instance envR_refl : Reflexive envR.
Proof.
  intros w. split; [apply coreEnv_refl | done | done | done | | done | done].
  intros l r Hr. exists r. split; [done | apply roundEnv_refl].
Qed.

#[local] Instance envR_trans : Transitive envR.
Proof.
  intros w1 w2 w3 [Hc Ht Hch Hl Hr Hp Hm] [Hc' Ht' Hch' Hl' Hr' Hp' Hm'].
  split; [by eapply coreEnv_trans | congruence | congruence | congruence | | auto | auto].
  intros l r (r2 & H2 & He)%Hr. apply Hr' in H2 as (r3 & H3 & He'). exists r3.
  split; [done | by eapply roundEnv_trans].
Qed.

Lemma envR_heapLe w w' : envR w w' → heapLe w w'.
Proof. intros [_ _ _ _ Hr _ _] l r (r' & Hr' & He)%Hr. exists r'. split; [done | apply He]. Qed.

Lemma heapLe_trans w1 w2 w3 : heapLe w1 w2 → heapLe w2 w3 → heapLe w1 w3.
Proof.
  intros Ha Hb l r (r2 & H2 & Hle)%Ha. apply Hb in H2 as (r3 & H3 & Hle').
  exists r3. split; [done | by eapply roundLe_trans].
Qed.

(** ** Environment steps, composed

    [esat P m Q]: from a state with the invariant and [P], [m] keeps the
    invariant, is an environment step, and establishes [Q] when it returns. *)
Definition esat {A} (P : World → Prop) (m : M World A) (Q : A → World → Prop) : Prop :=
  ∀ w, HeapOk w → P w →
  HeapOk (m w).2 ∧ envR w (m w).2 ∧ ∀ a, (m w).1 = Ok a → Q a (m w).2.

Definition any {A} : A → World → Prop := λ _ _, True.

Lemma esat_bind {A B} P (m : M World A) (f : A → M World B) R Q :
  esat P m R → (∀ a, esat (R a) (f a) Q) → esat P (m ≫= f) Q.
Proof.
  intros Hm Hf w Hok HP. destruct (Hm w Hok HP) as (Hok1 & He1 & HR).
  unfold mbind, M_bind. destruct (m w) as [[a|e] w1]; cbn [fst snd] in *; [| done].
  destruct (Hf a w1 Hok1 (HR a eq_refl)) as (Hok2 & He2 & HQ).
  split; [done |]. split; [by etransitivity | done].
Qed.

Lemma esat_ret {A} (P : World → Prop) (a : A) : esat P (mret a) (λ b w, b = a ∧ P w).
Proof. intros w Hok HP. split; [done |]. split; [reflexivity |]. intros b [= <-]. done. Qed.

Lemma esat_read {A} (P : World → Prop) (m : M World A) :
  (∀ w, (m w).2 = w) → esat P m (λ a w, P w ∧ (m w).1 = Ok a).
Proof. intros Hr w Hok HP. rewrite Hr. split; [done |]. split; [reflexivity |]. auto. Qed.

Lemma esat_weaken {A} (P P' : World → Prop) (m : M World A) (Q Q' : A → World → Prop) :
  esat P' m Q' → (∀ w, HeapOk w → P w → P' w) → (∀ a w, HeapOk w → Q' a w → Q a w) → esat P m Q.
Proof.
  intros Hm HP HQ w Hok Hw. destruct (Hm w Hok (HP w Hok Hw)) as (? & ? & ?).
  split; [done |]. split; [done |]. intros a Ha. auto.
Qed.

(** A change outside the objects of the invariant. *)
Record silent (w w' : World) : Prop := {
  si_core : coreEnv (w_core w) (w_core w');
  si_rounds : w_rounds w' = w_rounds w;
  si_next : w_next w' = w_next w;
  si_repo : w_repo w' = w_repo w;
  si_flight : w_inFlight w' = w_inFlight w;
  si_background : w_background w' = w_background w;
  si_promises : w_promises w' = w_promises w;
  si_commits : w_commits w' = w_commits w;
  si_trace : w_trace w' = w_trace w;
  si_chain : w_chain w' = w_chain w;
  si_lock : w_commitLock w' = w_commitLock w;
  si_pending : w_pendingCommits w' = w_pendingCommits w;
}.

Lemma silent_env w w' : silent w w' → envR w w'.
Proof.
  intros Hs. destruct Hs. split; try done; [| by rewrite si_repo0 | by rewrite si_commits0].
  intros l r Hr. rewrite si_rounds0. exists r. split; [done | apply roundEnv_refl].
Qed.

Lemma silent_ok w w' : silent w w' → HeapOk w → HeapOk w'.
Proof.
  intros Hs [Hr Hn Hp Hf Hb Hq Hm Hch Hpc]. destruct Hs.
  split; rewrite ?si_rounds0, ?si_next0, ?si_repo0, ?si_flight0, ?si_background0, ?si_promises0, ?si_commits0, ?si_chain0, ?si_pending0; auto.
  intros f Hin. specialize (Hf f Hin). unfold flightOk in *. by rewrite si_rounds0.
Qed.

Lemma esat_silent {A} (P : World → Prop) (m : M World A) :
  (∀ w, silent w (m w).2) → esat P m any.
Proof.
  intros Hs w Hok _. split; [by eapply silent_ok |]. split; [by apply silent_env | done].
Qed.

(** ** Creating and updating round states *)
Lemma configure_ok n rd validators i : roundOk (configure n rd validators i newRoundState).
Proof.
  assert (∀ t r, votesOk t r [] []) as Hv.
  { intros t r. split; [constructor | done | by intros ? ? ?%elem_of_nil]. }
  split; [apply Hv | apply Hv | done | done | done].
Qed.

Lemma flight_mono w w' f :
  (∀ l r, w_rounds w !! l = Some r → ∃ r', w_rounds w' !! l = Some r' ∧
     rs_blockNumber r' = rs_blockNumber r ∧ rs_round r' = rs_round r) →
  flightOk w f → flightOk w' f.
Proof.
  intros Hm. destruct f as [m l|p l].
  - intros (Hmsg & r & Hr & Hn & Hrd). split; [done |].
    apply Hm in Hr as (r' & Hr' & ? & ?). exists r'. split; [done |]. split; congruence.
  - intros (Hb & Hpl & r & Hr & Hn & Hrd). split; [done |]. split; [done |].
    apply Hm in Hr as (r' & Hr' & ? & ?). exists r'. split; [done |]. split; congruence.
Qed.

Definition alloc (r : RoundState) (w : World) : World :=
  w <| w_next := w_next w + 1 |> <| w_rounds ::= <[w_next w := r]> |>.

Lemma alloc_ok r w : HeapOk w → roundOk r → HeapOk (alloc r w) ∧ envR w (alloc r w).
Proof.
  intros Hok Hr. assert (w_rounds w !! w_next w = None) as Hfresh.
  { destruct (w_rounds w !! w_next w) eqn:Hl; [| done].
    pose proof (ho_next _ Hok (w_next w) (mk_is_Some _ _ Hl)). lia. }
  assert (∀ l r0, w_rounds w !! l = Some r0 → w_rounds (alloc r w) !! l = Some r0) as Hkeep.
  { intros l r0 Hl. cbn. rewrite lookup_insert_ne; [done | by intros <-; rewrite Hfresh in Hl]. }
  split.
  - split; cbn.
    + intros l r0. rewrite lookup_insert. case_decide; [by intros [= <-] | apply Hok].
    + intros l [r0 Hl]. rewrite lookup_insert in Hl. case_decide; [lia |].
      pose proof (ho_next _ Hok l (mk_is_Some _ _ Hl)). lia.
    + intros n rd l Hl. apply (ho_repo _ Hok) in Hl as (r0 & Hr0 & ?). exists r0. split; [by apply Hkeep | done].
    + intros f Hf. eapply flight_mono; [| by apply (ho_flight _ Hok)]. intros l r0 Hl. exists r0.
      split; [by apply Hkeep | done].
    + apply Hok.
    + apply Hok.
    + intros l cs Hl. destruct (ho_commits _ Hok l cs Hl). split; [lia | done].
    + apply Hok.
    + apply Hok.
  - split; cbn; try done. intros l r0 Hl. exists r0.
    split; [by apply Hkeep | apply roundEnv_refl].
Qed.

Definition update (l : Z) (r : RoundState) (w : World) : World := w <| w_rounds ::= <[l := r]> |>.

Lemma update_flight w l r r' :
  w_rounds w !! l = Some r → rs_blockNumber r' = rs_blockNumber r → rs_round r' = rs_round r →
  ∀ l0 r0, w_rounds w !! l0 = Some r0 → ∃ r1, w_rounds (update l r' w) !! l0 = Some r1 ∧
    rs_blockNumber r1 = rs_blockNumber r0 ∧ rs_round r1 = rs_round r0.
Proof.
  intros Hl Hn Hrd l0 r0 Hl0. cbn. rewrite lookup_insert. case_decide; [| eauto].
  subst. exists r'. split; [done |]. split; congruence.
Qed.

Lemma update_heapOk w l r r' :
  HeapOk w → w_rounds w !! l = Some r → rs_blockNumber r' = rs_blockNumber r → rs_round r' = rs_round r →
  roundOk r' → HeapOk (update l r' w).
Proof.
  intros Hok Hl Hn Hrd Hr'. pose proof (update_flight w l r r' Hl Hn Hrd) as Hm. split.
  - cbn. intros l0 r0. rewrite lookup_insert. case_decide; [by intros [= <-] | apply Hok].
  - cbn. intros l0 [r0 Hl0]. apply (ho_next _ Hok). rewrite lookup_insert in Hl0.
    case_decide; [subst; eauto | eauto].
  - intros n rd l0 Hl0. apply (ho_repo _ Hok) in Hl0 as (r0 & Hr0 & <- & <-).
    apply Hm in Hr0 as (r1 & ? & ?). exists r1. done.
  - intros f Hf. eapply flight_mono; [exact Hm | by apply (ho_flight _ Hok)].
  - apply Hok.
  - apply Hok.
  - apply Hok.
  - apply Hok.
  - apply Hok.
Qed.

Lemma update_env w l r r' :
  w_rounds w !! l = Some r → roundEnv r r' → envR w (update l r' w).
Proof.
  intros Hl He. split; cbn; try done. intros l0 r0 Hl0.
  rewrite lookup_insert. case_decide; [subst; exists r' | exists r0; split; [done | apply roundEnv_refl]].
  split; [done |]. congruence.
Qed.

(** ** Adding votes and proposals *)
Lemma votes_add t r r' messages counts m :
  votesOk t r messages counts → mapHas messages (msg_validatorIndex m) = false →
  rs_blockNumber r' = rs_blockNumber r → rs_round r' = rs_round r →
  msg_type m = t → msg_blockNumber m = rs_blockNumber r → msg_round m = rs_round r → msgOk m → Genuine m →
  votesOk t r' (mapSet messages (msg_validatorIndex m) m)
    (mapSet counts (msg_blockHash m) (default 0 (mapGet counts (msg_blockHash m)) + 1)).
Proof.
  intros [Hk Hc Hv] Hnew Hn Hrd Ht Hb Hr Hm Hg.
  assert (mapGet messages (msg_validatorIndex m) = None) as Hnone by (by apply mapGet_None, mapHas_false).
  split; [by apply wfMap_set | |].
  - intros h. rewrite (mapSet_fresh messages), votesFor_app, length_app, mapGet_set by done.
    unfold votesFor at 2. rewrite filter_cons, filter_nil. cbn [snd].
    destruct (decide (msg_blockHash m = h)) as [->|Hne]; simpl; rewrite Hc; lia.
  - intros i m'. rewrite mapSet_fresh by done.
    intros [Hin|[= -> ->]%list_elem_of_singleton]%elem_of_app.
    + destruct (Hv _ _ Hin) as (? & ? & ? & ? & ? & ?). do 4 (split; [congruence |]). done.
    + do 4 (split; [congruence |]). done.
Qed.

Lemma votesOk_same t r r' messages counts :
  votesOk t r messages counts → rs_blockNumber r' = rs_blockNumber r → rs_round r' = rs_round r →
  votesOk t r' messages counts.
Proof.
  intros [Hk Hc Hv] Hn Hrd. split; [done | done |]. intros i m Hin.
  destruct (Hv _ _ Hin) as (? & ? & ? & ? & ? & ?). do 4 (split; [congruence |]). done.
Qed.

Lemma votesLe_add messages i m : mapHas messages i = false → votesLe messages (mapSet messages i m).
Proof.
  intros Hnew j v Hj. rewrite mapGet_set_ne; [done |]. intros <-. unfold mapHas in Hnew. by rewrite Hj in Hnew.
Qed.

Lemma addMessage_env m r :
  roundOk r → msgOk m → Genuine m → msg_blockNumber m = rs_blockNumber r → msg_round m = rs_round r →
  roundOk (addMessage m r).2 ∧ roundEnv r (addMessage m r).2.
Proof.
  intros Hr Hm Hg Hn Hrd. pose proof (roundEnv_refl r) as Hrefl.
  unfold addMessage. destruct (Z.eqb_spec (msg_type m) MessageType_Prevote) as [Ht|_].
  - unfold addPrevote, mbind, M_bind, get. destruct (mapHas _ _) eqn:Hh; [done |].
    destruct Hr as [Hp Hc Hpr Hres Hpf]. split; [split | split]; cbn.
    + by eapply (votes_add _ r).
    + by eapply votesOk_same.
    + intros p Hp'. destruct (Hpr p Hp'). by split.
    + done.
    + done.
    + split; cbn; [done | done | eauto | by apply votesLe_add | apply votesLe_refl | done].
    + done.
    + done.
    + congruence.
  - destruct (Z.eqb_spec (msg_type m) MessageType_Precommit) as [Ht|_]; [| done].
    unfold addPrecommit, mbind, M_bind, get. destruct (mapHas _ _) eqn:Hh; [done |].
    destruct Hr as [Hp Hc Hpr Hres Hpf]. split; [split | split]; cbn.
    + by eapply votesOk_same.
    + by eapply (votes_add _ r).
    + intros p Hp'. destruct (Hpr p Hp'). by split.
    + done.
    + done.
    + split; cbn; [done | done | eauto | apply votesLe_refl | by apply votesLe_add | done].
    + done.
    + done.
    + congruence.
Qed.

Lemma addProposal_env p r :
  roundOk r → built p → p_payload p = None → p_blockNumber p = rs_blockNumber r → p_round p = rs_round r →
  roundOk (addProposal p r).2 ∧ roundEnv r (addProposal p r).2.
Proof.
  intros Hr Hb Hpl Hn Hrd. pose proof (roundEnv_refl r) as Hrefl.
  unfold addProposal, mbind, M_bind, get. destruct (rs_proposal r) as [p0|] eqn:Hp0; [done |].
  destruct Hr as [Hp Hc Hpr Hres Hpf]. split; [split | split]; cbn.
  - by eapply votesOk_same.
  - by eapply votesOk_same.
  - intros p' [= <-]. split; [done | done | done |]. congruence.
  - eauto.
  - intros res p' v Hres' Hsucc _ _. rewrite Hp0 in Hres. destruct (Hres res Hres' Hsucc) as [? [=]].
  - split; cbn; [done | done | congruence | apply votesLe_refl | apply votesLe_refl | done].
  - congruence.
  - done.
  - by intros p' _ [= <-].
Qed.

(** ** Operations that only read *)
Definition ro {A} (m : M World A) : Prop := ∀ w, (m w).2 = w.

Lemma ro_bind {A B} (m : M World A) (f : A → M World B) : ro m → (∀ a, ro (f a)) → ro (m ≫= f).
Proof.
  intros Hm Hf w. specialize (Hm w). unfold mbind, M_bind. destruct (m w) as [[a|e] w1]; cbn in *; subst; [apply Hf | done].
Qed.
Lemma ro_ret {A} (a : A) : ro (mret a).
Proof. done. Qed.
Lemma ro_gets {A} (f : World → A) : ro (gets f).
Proof. done. Qed.
Lemma ro_get : ro get.
Proof. done. Qed.
Lemma ro_lift {A} (r : result A) : ro (liftR r).
Proof. done. Qed.
Lemma ro_throw {A} e : ro (throw e : M World A).
Proof. done. Qed.
Lemma ro_core {A} (f : Core → A) : ro (core f).
Proof. done. Qed.
Lemma ro_forEach {A} (l : list A) (f : A → M World unit) : (∀ x, ro (f x)) → ro (forEach l f).
Proof. intros Hf. induction l; cbn; [apply ro_ret |]. apply ro_bind; auto. Qed.

Ltac ro_tac := repeat first
  [ apply ro_bind | match goal with |- ∀ _, ro _ => intros ? end | apply ro_ret | apply ro_gets | apply ro_get | apply ro_lift | apply ro_throw
  | apply ro_core | apply ro_forEach
  | match goal with |- ro (if ?b then _ else _) => destruct b end
  | match goal with |- ro (match ?x with _ => _ end) => destruct x end ].

Lemma ro_getRS l : ro (getRS l).
Proof. unfold getRS. ro_tac. Qed.
Lemma ro_validNumber n r : ro (hasValidBlockNumberAndRound n r).
Proof. unfold hasValidBlockNumberAndRound. ro_tac. Qed.
Lemma ro_minimal r : ro (minimalTimestamp r).
Proof. unfold minimalTimestamp. ro_tac. Qed.
Lemma ro_ahead r : ro (isRoundAheadOfTime r).
Proof. unfold isRoundAheadOfTime. ro_tac. Qed.
Lemma ro_dupMessage l m : ro (isDuplicateMessage l m).
Proof. unfold isDuplicateMessage. apply ro_bind; [apply ro_getRS |]. ro_tac. Qed.
Lemma ro_dupProposal l : ro (isDuplicateProposal l).
Proof. unfold isDuplicateProposal. apply ro_bind; [apply ro_getRS |]. ro_tac. Qed.
Lemma ro_context : ro signatureContext.
Proof. unfold signatureContext. ro_tac. Qed.
Lemma ro_sigMessage m : ro (hasValidMessageSignature m).
Proof. unfold hasValidMessageSignature. apply ro_bind; [apply ro_context |]. ro_tac. Qed.
Lemma ro_sigProposal p : ro (hasValidProposalSignature p).
Proof. unfold hasValidProposalSignature. ro_tac. Qed.
Lemma ro_index r : ro (getValidatorIndex r).
Proof. unfold getValidatorIndex, milestoneValidators. ro_tac. Qed.
Lemma ro_proposer p : ro (hasValidProposer p).
Proof. unfold hasValidProposer. apply ro_bind; [apply ro_index |]. ro_tac. Qed.
Lemma ro_lockProof p : ro (hasValidLockProof p).
Proof.
  unfold hasValidLockProof. destruct (p_validRound p), (p_lockProof p); try apply ro_ret.
  destruct (_ <=? _); [apply ro_ret |]. apply ro_bind; [apply ro_context |]. ro_tac.
Qed.

Lemma ro_commitSignature c h : ro (hasValidCommitSignature c h).
Proof. unfold hasValidCommitSignature. ro_tac. Qed.

(** ** Rules for the environment's operations *)
Lemma esat_ro {A} (P : World → Prop) (m : M World A) : ro m → esat P m (λ a w, P w ∧ (m w).1 = Ok a).
Proof. apply esat_read. Qed.

(** A read followed by a continuation that keeps the precondition. *)
Lemma esat_ro_bind {A B} (P : World → Prop) (m : M World A) (f : A → M World B) Q :
  ro m → (∀ a, esat (λ w, P w ∧ (m w).1 = Ok a) (f a) Q) → esat P (m ≫= f) Q.
Proof. intros Hm Hf. eapply esat_bind; [by apply esat_ro | done]. Qed.

Lemma esat_drop_bind {A B} (P : World → Prop) (m : M World A) (f : A → M World B) Q :
  ro m → (∀ a, esat P (f a) Q) → esat P (m ≫= f) Q.
Proof.
  intros Hm Hf. apply esat_ro_bind; [done |]. intros a. eapply esat_weaken; [apply Hf | tauto | done].
Qed.

Lemma esat_any_ret {A} (P : World → Prop) (a : A) : esat P (mret a) any.
Proof. intros w Hok _. split; [done |]. split; [reflexivity | done]. Qed.

Lemma silent_refl w : silent w w.
Proof. by split; [apply coreEnv_refl |..]. Qed.

Lemma silent_storage {A} (m : bool → M Storage A) w : silent w (onStorage m w).2.
Proof. unfold onStorage, zoomM. destruct (m _ _). by split; [apply coreEnv_refl |..]. Qed.

Lemma silent_scheduler {A} (m : M Scheduler A) w : silent w (onScheduler m w).2.
Proof. unfold onScheduler, zoomM. destruct (m _). by split; [apply coreEnv_refl |..]. Qed.

Lemma silent_enqueue j w : silent w (enqueue j w).2.
Proof. by split; [apply coreEnv_refl |..]. Qed.

Lemma silent_bind {A B} (m : M World A) (f : A → M World B) :
  (∀ w, silent w (m w).2) → (∀ a w, silent w (f a w).2) → ∀ w, silent w ((m ≫= f) w).2.
Proof.
  intros Hm Hf w. specialize (Hm w). unfold mbind, M_bind. destruct (m w) as [[a|e] w1]; cbn in *; [| done].
  specialize (Hf a w1). destruct Hm, Hf. split; try congruence. by eapply coreEnv_trans.
Qed.

Lemma silent_ro {A} (m : M World A) : ro m → ∀ w, silent w (m w).2.
Proof. intros Hm w. rewrite Hm. apply silent_refl. Qed.

Lemma silent_handle l w : silent w (handleRoundState l w).2.
Proof.
  unfold handleRoundState. apply silent_bind; [apply silent_ro, ro_gets |]. intros c w1.
  case_bool_decide; [apply silent_refl |]. apply silent_bind; [| intros _; apply silent_enqueue].
  intros w2. split; cbn; try done.
Qed.

(** The round state that the repository names. *)
Definition namedAt (n rd l : Z) (w : World) : Prop :=
  ∃ r, w_rounds w !! l = Some r ∧ rs_blockNumber r = n ∧ rs_round r = rd.

Lemma namedAt_env n rd l w w' : envR w w' → namedAt n rd l w → namedAt n rd l w'.
Proof.
  intros He (r & Hr & Hn & Hrd). apply (er_rounds _ _ He) in Hr as (r' & Hr' & [[] _ _ _]).
  exists r'. split; [done |]. split; congruence.
Qed.

Lemma repo_ok w n rd l :
  HeapOk w → namedAt n rd l w → mapGet (w_repo w) (n, rd) = None →
  let w' := w <| w_repo := mapSet (w_repo w) (n, rd) l |> in HeapOk w' ∧ envR w w'.
Proof.
  intros Hok Hnamed Hnone w'. subst w'. split.
  - destruct Hok as [Hr Hn Hp Hf Hb Hq Hm Hch Hpc]. split; cbn; try done.
    intros n' rd' l'. rewrite mapGet_set. case_decide as Heq; [| apply Hp].
    injection Heq as <- <-. intros [= <-]. done.
  - split; cbn; try done; [apply (er_rounds _ _ (envR_refl w)) |].
    intros k l' Hk. rewrite mapGet_set_ne; [done |]. intros <-. congruence.
Qed.

Lemma createRoundState_eq n rd w :
  createRoundState n rd w =
  match getRoundValidators (roundValidatorsAt (ch_height (w_chain w))) (ch_validatorSet (w_chain w)) with
  | Ok validators =>
      (Ok (w_next w),
       alloc (configure n rd validators
                (getValidatorIndexFrom (roundValidatorsAt (ch_height (w_chain w)))
                   (ch_totalRound (w_chain w)) rd) newRoundState) w)
  | Throw e => (Throw e, w)
  end.
Proof.
  unfold createRoundState, mbind, M_bind, milestoneValidators, gets, liftR.
  by destruct (getRoundValidators _ _).
Qed.

Lemma getRoundState_esat (P : World → Prop) n rd : esat P (getRoundState n rd) (λ l w, namedAt n rd l w).
Proof.
  intros w Hok _. unfold getRoundState, mbind, M_bind, get.
  destruct (mapGet (w_repo w) (n, rd)) as [l|] eqn:Hl.
  { split; [done |]. split; [reflexivity |]. intros ? [= <-]. by apply (ho_repo _ Hok). }
  rewrite createRoundState_eq. destruct (getRoundValidators _ _) as [validators|e].
  2: { split; [done |]. split; [reflexivity | done]. }
  set (r := configure _ _ _ _ _). unfold modify, mret, M_ret. cbn [fst snd].
  destruct (alloc_ok r w Hok (configure_ok _ _ _ _)) as [Hok1 He1].
  assert (namedAt n rd (w_next w) (alloc r w)) as Hnamed.
  { exists r. split; [cbn; apply lookup_insert_eq | done]. }
  destruct (repo_ok (alloc r w) n rd (w_next w) Hok1 Hnamed Hl) as [Hok2 He2].
  split; [exact Hok2 |]. split; [by etransitivity |]. intros ? [= <-]. by eapply namedAt_env.
Qed.

(** ** The processors *)
Context (genuine : ∀ w m, Trusted (w_chain w) → msgOk m → (hasValidMessageSignature m w).1 = Ok true → Genuine m).
Context (genuineCommit : ∀ w c h, Trusted (w_chain w) → hexOfLength 64 (b_hash (c_block c)) = true →
  hexOfLength 64 h = true → (hasValidCommitSignature c h w).1 = Ok true →
  CommitOf (b_number (c_block c)) (cp_round (c_proof c)) (b_hash (c_block c))).

Lemma push_flight_ok w f :
  HeapOk w → flightOk w f → let w' := w <| w_inFlight ::= λ l, l ++ [f] |> in HeapOk w' ∧ envR w w'.
Proof.
  intros [Hr Hn Hp Hf Hb Hq Hm Hch Hpc] Hfl w'. subst w'. split.
  - split; cbn; try done. intros f' [Hin|Hin%list_elem_of_singleton]%elem_of_app; [by apply Hf | by subst].
  - split; cbn; try done. intros l r Hl. exists r. split; [done | apply roundEnv_refl].
Qed.

Lemma esat_push (P : World → Prop) f :
  (∀ w, HeapOk w → P w → flightOk w f) →
  esat P (modify (λ w, w <| w_inFlight ::= λ l, l ++ [f] |>);; mret Pending) any.
Proof.
  intros Hf w Hok HP. destruct (push_flight_ok w f Hok (Hf w Hok HP)) as [Hok' He'].
  split; [exact Hok' |]. split; [exact He' | done].
Qed.

Lemma messageBegin_esat (P : World → Prop) m : msgOk m → esat P (messageBegin m) any.
Proof.
  intros Hm. unfold messageBegin. apply esat_drop_bind; [apply ro_core |]. intros disposed.
  destruct disposed; [apply esat_any_ret |].
  apply esat_drop_bind; [apply ro_validNumber |]. intros valid. destruct (negb valid); [apply esat_any_ret |].
  apply esat_drop_bind; [apply ro_ahead |]. intros ahead. destruct ahead; [apply esat_any_ret |].
  eapply esat_bind; [apply getRoundState_esat |]. intros l.
  apply esat_drop_bind; [apply ro_dupMessage |]. intros dup. destruct dup; [apply esat_any_ret |].
  apply esat_drop_bind; [apply ro_get |]. intros w0. destruct (isPendingMessage w0 m); [apply esat_any_ret |].
  apply esat_push. intros w Hok (r & Hr & Hn & Hrd). split; [done |]. exists r. done.
Qed.

Lemma proposalBegin_esat (P : World → Prop) p :
  built p → p_payload p = None → esat P (proposalBegin p) any.
Proof.
  intros Hb Hpl. unfold proposalBegin. apply esat_drop_bind; [apply ro_core |]. intros disposed.
  destruct disposed; [apply esat_any_ret |].
  apply esat_drop_bind; [apply ro_validNumber |]. intros valid. destruct (negb valid); [apply esat_any_ret |].
  apply esat_drop_bind; [apply ro_ahead |]. intros ahead. destruct ahead; [apply esat_any_ret |].
  apply esat_drop_bind; [apply ro_proposer |]. intros pr. destruct (negb pr); [apply esat_any_ret |].
  eapply esat_bind; [apply getRoundState_esat |]. intros l.
  apply esat_drop_bind; [apply ro_dupProposal |]. intros dup. destruct dup; [apply esat_any_ret |].
  apply esat_push. intros w Hok (r & Hr & Hn & Hrd). split; [done |]. split; [done |]. exists r. done.
Qed.

Lemma onRound_esat {A} (P : World → Prop) l (m : M RoundState A) :
  (∀ w r, HeapOk w → P w → w_rounds w !! l = Some r → roundOk (m r).2 ∧ roundEnv r (m r).2) →
  esat P (onRound l m) any.
Proof.
  intros Hm w Hok HP. unfold onRound, getRS, mbind, M_bind, get, liftR.
  destruct (w_rounds w !! l) as [r|] eqn:Hl; cbn [assert_defined]; [| split; [done | split; [reflexivity | done]]].
  destruct (Hm w r Hok HP Hl) as [Hr He]. destruct (m r) as [res r']. cbn in Hr, He.
  pose proof (update_env w l r r' Hl He) as Hue. destruct He as [[] _ _ _].
  pose proof (update_heapOk w l r r' Hok Hl rl_number0 rl_round0 Hr) as Huo.
  split; [exact Huo |]. split; [exact Hue | done].
Qed.

Lemma tail_esat (P : World → Prop) (save : bool → M Storage unit) l :
  esat P (onStorage save;; handleRoundState l;; mret Accepted) any.
Proof.
  apply esat_silent. apply silent_bind; [apply silent_storage |]. intros _.
  apply silent_bind; [apply silent_handle |]. intros _ w. apply silent_refl.
Qed.

Lemma messageFinish_esat m l : esat (λ w, flightOk w (FMessage m l)) (messageFinish m l) any.
Proof.
  unfold messageFinish. apply esat_ro_bind; [apply ro_sigMessage |]. intros valid.
  destruct valid; cbn [negb]; [| apply esat_any_ret].
  apply esat_drop_bind; [apply ro_dupMessage |]. intros dup. destruct dup; [apply esat_any_ret |].
  eapply esat_bind; [| intros ?; apply tail_esat].
  apply onRound_esat. intros w r Hok [(Hm & r0 & Hr0 & Hn & Hrd) Hg] Hr.
  rewrite Hr in Hr0. injection Hr0 as <-. apply addMessage_env; try done; [by apply (ho_rounds _ Hok l) |].
  apply (genuine w); [apply Hok | done | done].
Qed.

Lemma proposalFinish_esat p l : esat (λ w, flightOk w (FProposal p l)) (proposalFinish p l) any.
Proof.
  unfold proposalFinish. apply esat_drop_bind; [apply ro_sigProposal |]. intros valid.
  destruct valid; cbn [negb]; [| apply esat_any_ret].
  apply esat_drop_bind; [apply ro_dupProposal |]. intros dup. destruct dup; [apply esat_any_ret |].
  eapply esat_bind; [| intros ?; apply tail_esat].
  apply onRound_esat. intros w r Hok (Hb & Hpl & r0 & Hr0 & Hn & Hrd) Hr.
  rewrite Hr in Hr0. injection Hr0 as <-. apply addProposal_env; try done. by apply (ho_rounds _ Hok l).
Qed.

Lemma finishInFlight_esat f : esat (λ w, flightOk w f) (finishInFlight f) any.
Proof.
  destruct f as [m l|p l]; (eapply esat_bind; [| intros ?; apply esat_any_ret]).
  - apply messageFinish_esat.
  - apply proposalFinish_esat.
Qed.

(** ** Every action of the environment *)
Lemma background_ok w l :
  HeapOk w → (∀ b, b ∈ l → backgroundOk b) → HeapOk (w <| w_background := l |>) ∧ envR w (w <| w_background := l |>).
Proof.
  intros [Hr Hn Hp Hf Hb Hq Hm Hch Hpc] Hl. split.
  - by split.
  - split; cbn; try done. intros l0 r Hl0. exists r. split; [done | apply roundEnv_refl].
Qed.

Lemma startBackground_esat (P : World → Prop) b : backgroundOk b → esat P (startBackground b) any.
Proof.
  intros Hb. unfold startBackground. apply esat_drop_bind; [apply ro_gets |]. intros lock. destruct lock.
  - intros w Hok _. destruct (background_ok w (w_background w ++ [b]) Hok) as [Hok' He'].
    { intros b' [Hin|Hin%list_elem_of_singleton]%elem_of_app; [by apply (ho_background _ Hok) | by subst]. }
    split; [exact Hok' |]. split; [exact He' | done].
  - destruct b as [m|p]; (eapply esat_bind; [| intros ?; apply esat_any_ret]).
    + by apply messageBegin_esat.
    + destruct Hb. by apply proposalBegin_esat.
Qed.

Lemma factoryMessage_ok bytes m : makeMessageFromBytes roundValidatorsAt bytes = Ok m → msgOk m.
Proof.
  intros Hm. pose proof Hm as (d & _ & Hk)%bind_Ok. destruct (messageSchemaValid _ d) eqn:Hv; [| done].
  injection Hk as <-. unfold messageSchemaValid, isValidatorIndex in Hv. simpl_bool. apply orb_true_iff in H3 as [Ht|Ht];
    apply Z.eqb_eq in Ht; unfold msgOk; cbn; split; auto; done.
Qed.

Lemma factoryProposal_ok rva bytes p :
  makeProposalFromBytes rva isAddress bytes = Ok p → built p ∧ p_payload p = None.
Proof.
  intros Hp. assert (p_payload p = None ∧ p_serialized p = bytes) as [Hpl Hs].
  { apply bind_Ok in Hp as (d & _ & Hk). destruct (negb _); [done |].
    apply bind_Ok in Hk as ([hd lp] & _ & Hk). destruct (negb _); [done |].
    destruct (from_option _ _ _); [done |]. by injection Hk as <-. }
  split; [| done]. exists rva. rewrite Hs, Hp. destruct p; cbn in *. by subst.
Qed.

(** A change of fields that the invariant mentions only weakly. *)
Lemma esat_modify (P : World → Prop) (f : World → World) :
  (∀ w, HeapOk w → P w → HeapOk (f w) ∧ envR w (f w)) → esat P (modify f) any.
Proof. intros Hf w Hok HP. destruct (Hf w Hok HP). done. Qed.

Lemma esat_silent_modify (P : World → Prop) (f : World → World) :
  (∀ w, silent w (f w)) → esat P (modify f) any.
Proof. intros Hf. apply esat_silent. intros w. apply Hf. Qed.

Lemma fresh_commit_ok w cs :
  HeapOk w → CommitOf (cs_blockNumber cs) (cs_round cs) (b_hash (c_block (cs_commit cs))) →
  hexOfLength 64 (b_hash (c_block (cs_commit cs))) = true →
  let w' := w <| w_next := w_next w + 1 |> <| w_commits ::= <[w_next w := cs]> |> in
  HeapOk w' ∧ envR w w'.
Proof.
  intros Hok Hcs Hhex w'. subst w'. split.
  - destruct Hok as [Hr Hn Hp Hf Hb Hq Hm Hch Hpc]. split; cbn; try done.
    + intros l Hl. specialize (Hn l Hl). lia.
    + intros l cs'. rewrite lookup_insert. case_decide; [intros [= <-]; split; [lia | done] |].
      intros Hl. destruct (Hm l cs' Hl). split; [lia | done].
  - split; cbn; try done; [intros l r Hl; exists r; split; [done | apply roundEnv_refl] |].
    intros l cs' Hl. rewrite lookup_insert_ne; [done |]. intros <-. destruct (ho_commits _ Hok _ _ Hl). lia.
Qed.

Lemma commitBegin_esat (P : World → Prop) commit :
  CommitOf (b_number (c_block commit)) (cp_round (c_proof commit)) (b_hash (c_block commit)) →
  hexOfLength 64 (b_hash (c_block commit)) = true →
  esat P (commitBegin commit) any.
Proof.
  intros Hcommit Hhex. unfold commitBegin. apply esat_drop_bind; [apply ro_gets |]. intros c.
  destruct (negb _); [apply esat_any_ret |].
  do 2 (apply esat_drop_bind; [apply ro_gets |]; intros ?). apply esat_drop_bind; [apply ro_lift |]. intros validators.
  apply (esat_ro_bind P (gets w_next)); [apply ro_gets |]. intros l.
  eapply esat_bind; [apply esat_modify | intros ?; eapply esat_bind; [apply esat_silent, silent_enqueue | intros ?; apply esat_any_ret]].
  intros w Hok [_ [= <-]]. by apply fresh_commit_ok.
Qed.

Lemma silent_schedulePropose n r w : silent w (scheduleTimeoutPropose n r w).2.
Proof.
  unfold scheduleTimeoutPropose. apply silent_bind; [apply silent_ro, ro_gets |]. intros sch.
  destruct (isSome _); [intros w1; apply silent_refl |].
  apply silent_bind; [apply silent_ro; unfold stageDelay; ro_tac |]. intros d.
  apply silent_bind; [apply silent_scheduler |]. intros _ w1. apply silent_refl.
Qed.

Ltac silent_fields := intros ?; split; cbn; try done; by split.

Lemma silent_blockPrepareBegin w : silent w (blockPrepareBegin w).2.
Proof.
  unfold blockPrepareBegin. apply silent_bind; [apply silent_ro, ro_gets |]. intros c.
  apply silent_bind; [apply silent_schedulePropose |]. intros _ w1.
  destruct (k_proposalPromise c); [by split | apply silent_refl].
Qed.

Lemma silent_fire (look : Scheduler → option (Z * Z * Z)) (reset : M Scheduler unit) (job : Z → Z → Job) w :
  silent w ((s ← gets w_scheduler;
             match look s with
             | Some (b, r, _) => onScheduler reset;; enqueue (job b r)
             | None => mret tt
             end) w).2.
Proof.
  apply silent_bind; [apply silent_ro, ro_gets |]. intros sch w1.
  destruct (look sch) as [[[b r] d]|]; [| apply silent_refl].
  apply silent_bind; [apply silent_scheduler | intros _; apply silent_enqueue].
Qed.

Lemma silent_dispose w : silent w (disposeBegin w).2.
Proof. unfold disposeBegin. apply silent_bind; [apply silent_scheduler |]. intros _ w1. by split. Qed.

Lemma silent_fireBlockPrepare w : silent w (fireBlockPrepare w).2.
Proof.
  unfold fireBlockPrepare. apply silent_bind; [apply silent_ro, ro_gets |]. intros sch w1.
  destruct (sch_timeoutBlockPrepare sch); [| apply silent_refl].
  apply silent_bind; [apply silent_scheduler | intros _; apply silent_blockPrepareBegin].
Qed.

Lemma blockPrepareFinish_esat (P : World → Prop) k : esat P (blockPrepareFinish k) any.
Proof.
  unfold blockPrepareFinish. apply esat_ro_bind; [apply ro_get |]. intros w0.
  destruct (negb _); [apply esat_any_ret |].
  destruct (w_promises w0 !! k) as [[p|]|] eqn:Hk.
  2, 3: apply esat_silent; apply silent_bind; [by intros w; split |]; intros _;
    apply silent_bind; [apply silent_ro, ro_gets |]; intros c;
    destruct (_ || _); [intros w; apply silent_refl |];
    apply silent_bind; [by intros w; split | intros _ w; apply silent_refl].
  apply (esat_bind _ _ _ (λ _ _, built p ∧ p_payload p = None)).
  - intros w Hok [_ [= ->]]. split; [| split].
    + eapply silent_ok; [| exact Hok]. by split.
    + apply silent_env. by split.
    + intros _ _. by apply (ho_promises _ Hok k).
  - intros []. apply esat_drop_bind; [apply ro_gets |]. intros c. destruct (_ || _); [apply esat_any_ret |].
    intros w Hok [Hb Hp].
    assert (esat (λ _, True) (setCore (λ c, c <| k_proposalPromise := None |>);; onStorage (λ ok, saveProposal ok p);;
      startBackground (BProposal p)) any) as He; [| exact (He w Hok I)].
    eapply esat_bind; [apply esat_silent; by intros w1; split |]. intros ?.
    eapply esat_bind; [apply esat_silent, silent_storage |]. intros ?. by apply startBackground_esat.
Qed.

(** Changing the pending commits. *)
Lemma pending_ok w p :
  HeapOk w → (∀ n c, mapGet p n = Some c → commitOk c) →
  let w' := w <| w_pendingCommits := p |> in HeapOk w' ∧ envR w w'.
Proof.
  intros [Hr Hn Hp Hf Hb Hq Hm Hch Hpc] Hnew w'. subst w'. split.
  - split; cbn; done.
  - split; cbn; try done. intros l r Hl. exists r. split; [done | apply roundEnv_refl].
Qed.

Lemma pendingAdd_ok commits p :
  (∀ n c, mapGet p n = Some c → commitOk c) → (∀ c, c ∈ commits → commitOk c) →
  ∀ n c, mapGet (pendingAdd commits p) n = Some c → commitOk c.
Proof.
  unfold pendingAdd. revert p. induction commits as [|c0 l IH]; intros p Hp Hc; [exact Hp |]. cbn.
  apply IH; [| intros c ?; apply Hc; by right]. intros n c. rewrite mapGet_set. case_decide; [| apply Hp].
  intros [= <-]. apply Hc. by left.
Qed.

Lemma verifyCommits_esat (P : World → Prop) previous batch : esat P (envAction (AVerifyCommits previous batch)) any.
Proof.
  cbn [envAction]. apply esat_ro_bind; [apply ro_get |]. intros w0. apply esat_ro_bind; [apply ro_lift |]. intros commits.
  apply esat_ro_bind; [apply ro_lift |]. intros valid. destruct (_ && _) eqn:Hall; [| apply esat_any_ret].
  apply andb_true_iff in Hall as [Hall Hprev]. intros w Hok [[[_ [= <-]] Hc] Hv]. unfold liftR in Hc, Hv. cbn in Hc, Hv.
  pose proof (batch_checked w previous batch commits valid Hc Hv Hall Hprev) as Hbatch.
  destruct (pending_ok w (pendingAdd commits (w_pendingCommits w)) Hok) as [Hok' He'].
  { apply pendingAdd_ok; [apply (ho_pending _ Hok) |]. intros c (Hhex & h & Hh & Hsig)%Hbatch. split; [| done].
    eapply genuineCommit; [apply Hok | done | exact Hh | done]. }
  split; [exact Hok' |]. split; [exact He' | done].
Qed.

Lemma takeCommit_esat (P : World → Prop) n : esat P (envAction (ATakeCommit n)) any.
Proof.
  cbn [envAction]. apply esat_ro_bind; [apply ro_get |]. intros w0. cbn.
  destruct (mapGet (w_pendingCommits w0) n) as [c|] eqn:Hget.
  - apply (esat_bind _ _ _ (λ _ _, commitOk c)).
    + intros w Hok [_ [= <-]]. destruct (pending_ok w (mapDelete (w_pendingCommits w) n) Hok) as [Hok' He'].
      { intros n' c'. rewrite mapGet_delete. case_decide; [done | apply (ho_pending _ Hok)]. }
      split; [exact Hok' |]. split; [exact He' |]. intros _ _. by apply (ho_pending _ Hok n).
    + intros [] w Hok [Hc Hhex]. assert (esat (λ _, True) (_ ← commitBegin c; mret tt) any) as He; [| exact (He w Hok I)].
      eapply esat_bind; [by apply commitBegin_esat | intros ?; apply esat_any_ret].
  - apply (esat_bind _ _ _ (λ _ _, True)); [| intros ?; apply esat_any_ret].
    intros w Hok [_ [= <-]]. destruct (pending_ok w (mapDelete (w_pendingCommits w) n) Hok) as [Hok' He'].
    { intros n' c'. rewrite mapGet_delete. case_decide; [done | apply (ho_pending _ Hok)]. }
    split; [exact Hok' |]. split; [exact He' | done].
Qed.

Lemma envAction_esat (P : World → Prop) a : esat P (envAction a) any.
Proof.
  destruct a as [bytes|bytes| |k|previous batch|n| | |k| | | | |t|ok]; cbn [envAction].
  - apply esat_ro_bind; [apply ro_lift |]. intros m w Hok [_ Hm].
    apply (startBackground_esat (λ _, True)); [exact (factoryMessage_ok _ _ Hm) | done | done].
  - apply esat_drop_bind; [apply ro_gets |]. intros c.
    apply esat_ro_bind; [apply ro_lift |]. intros p w Hok [_ Hp].
    apply factoryProposal_ok in Hp as [Hb Hpl]. by apply (startBackground_esat (λ _, True)).
  - apply esat_ro_bind; [apply ro_get |]. intros w0.
    destruct (w_background w0) as [|b rest] eqn:Hbg; [apply esat_any_ret |].
    apply (esat_bind _ _ _ (λ _ _, backgroundOk b)).
    + intros w Hok [_ [= ->]]. destruct (background_ok w0 rest Hok) as [Hok' He'].
      { intros b' Hb'. apply (ho_background _ Hok). rewrite Hbg. by right. }
      split; [exact Hok' |]. split; [exact He' |]. intros _ _. apply (ho_background _ Hok). rewrite Hbg. by left.
    + intros [] w Hok Hb. by apply (startBackground_esat (λ _, True)).
  - apply esat_ro_bind; [apply ro_get |]. intros w0.
    destruct (w_inFlight w0 !! k) as [f|] eqn:Hk; [| apply esat_any_ret].
    eapply esat_bind; [| intros ?; apply finishInFlight_esat].
    intros w Hok [_ [= ->]]. pose proof (ho_flight _ Hok f (list_elem_of_lookup_2 _ _ _ Hk)) as Hf.
    split; [| split].
    + destruct Hok as [Hr Hn Hp Hfl Hb Hq Hm Hch Hpc]. split; cbn; try done. intros f' Hf'.
      apply Hfl. by eapply list_elem_of_delete_inv.
    + split; cbn; try done. intros l r Hl. exists r. split; [done | apply roundEnv_refl].
    + intros _ _. destruct f; exact Hf.
  - apply verifyCommits_esat.
  - apply takeCommit_esat.
  - intros w Hok _. destruct (pending_ok w [] Hok) as [Hok' He']; [done |]. by split; [exact Hok' | split; [exact He' |]].
  - apply esat_silent, silent_fireBlockPrepare.
  - apply blockPrepareFinish_esat.
  - apply esat_silent. apply (silent_fire sch_timeoutPropose).
  - apply esat_silent. apply (silent_fire sch_timeoutPrevote).
  - apply esat_silent. apply (silent_fire sch_timeoutPrecommit).
  - apply esat_silent, silent_dispose.
  - apply esat_silent_modify. by intros w; split.
  - apply esat_silent_modify. by intros w; split.
Qed.

Lemma envBatch_ok l w : HeapOk w → HeapOk (envBatch l w) ∧ envR w (envBatch l w).
Proof.
  revert w; induction l as [|a l IH]; intros w Hok; [split; [done | reflexivity] |].
  destruct (envAction_esat (λ _, True) a w Hok I) as (Hok1 & He1 & _).
  destruct (IH _ Hok1) as [Hok2 He2]. split; [exact Hok2 | by etransitivity].
Qed.

Lemma yield_ok w : HeapOk w → HeapOk (yield w).2 ∧ envR w (yield w).2.
Proof.
  intros Hok. unfold yield. destruct (w_env w) as [|batch rest]; [split; [done | reflexivity] |].
  assert (silent w (w <| w_env := rest |>)) as Hs by (by split).
  destruct (envBatch_ok batch (w <| w_env := rest |>)) as [Hok' He']; [by eapply silent_ok |].
  split; [exact Hok' |]. etransitivity; [by apply silent_env | exact He'].
Qed.

Lemma drain_ok w : HeapOk w → HeapOk (drain w).2 ∧ envR w (drain w).2.
Proof.
  intros Hok. unfold drain. cbn [snd].
  assert (∀ l w0, HeapOk w0 → (∀ f, f ∈ l → flightOk w0 f) →
    HeapOk (foldl (λ w f, run_in (finishInFlight f) w) w0 l) ∧
    envR w0 (foldl (λ w f, run_in (finishInFlight f) w) w0 l)) as Hgen.
  { induction l as [|f l IH]; intros w0 Hok0 Hl; [split; [done | reflexivity] |]. cbn [foldl].
    destruct (finishInFlight_esat f w0 Hok0) as (Hok1 & He1 & _); [apply Hl; by left |].
    destruct (IH _ Hok1) as [Hok2 He2]; [| split; [exact Hok2 | by etransitivity]].
    intros f' Hf'. eapply flight_mono; [| apply Hl; by right].
    intros l0 r Hr. apply (er_rounds _ _ He1) in Hr as (r' & Hr' & [[] _ _ _]). eauto. }
  destruct (Hgen (w_inFlight w) (w <| w_inFlight := [] |>)) as [Hok' He'].
  - destruct Hok. split; cbn; try done. by intros f ?%elem_of_nil.
  - intros f Hf. apply (ho_flight _ Hok) in Hf. by destruct f.
  - split; [exact Hok' |]. etransitivity; [| exact He'].
    split; cbn; try done. intros l r Hl. exists r. split; [done | apply roundEnv_refl].
Qed.
End heap.
