(* ===== verification/ConsensusInvariant.v ===== *)
(** * The safety invariant of the consensus

    What every reachable state satisfies about the votes the node has signed:
    they never run ahead of its position, they agree per round, each was
    preceded by the durable record of the step it belongs to, precommits are
    backed by +2/3 prevotes and by the lock, and prevotes respect the lock.
    This file defines the invariant and shows that it survives growth of the
    round states, changes of position, and the signing of a justified vote. *)
From S2P Require Import Prelude Bytes Serializer Messages Blocks Proposals Commits JsMap Quorum BlockchainUtils.
From S2P Require Import ValidatorSet RoundState RoundStateFacts ConsensusStorage Node Processors CommitBatch Consensus.
From S2P Require Import ConsensusHeap.

(** ** Positions, ordered lexicographically: block number, round, step *)
Definition Position : Type := Z * Z * Z.
Definition posLe (a b : Position) : Prop :=
  a.1.1 < b.1.1 ∨ (a.1.1 = b.1.1 ∧ (a.1.2 < b.1.2 ∨ (a.1.2 = b.1.2 ∧ a.2 ≤ b.2))).

#[export] Instance posLe_refl : Reflexive posLe.
Proof. intros [[n r] s]. unfold posLe. cbn. lia. Qed.
#[export] Instance posLe_trans : Transitive posLe.
Proof. intros [[n r] s] [[n' r'] s'] [[n'' r''] s'']. unfold posLe. cbn. lia. Qed.

Definition pos (w : World) : Position :=
  (k_blockNumber (w_core w), k_round (w_core w), stepZ (k_step (w_core w))).

(** The step a vote belongs to has the number of its message type. *)
Definition votePos (d : SignatureMessageData) : Position := (sm_blockNumber d, sm_round d, sm_type d).

(** ** What the trace says *)
Definition signedOf (e : Event) : option SignatureMessageData :=
  match e with EvSign _ d => Some d | _ => None end.
Definition signed (t : list Event) : list SignatureMessageData := omap signedOf t.
Definition persistOf (e : Event) : option StateData :=
  match e with EvPersist d => Some d | _ => None end.
Definition lastPersist (t : list Event) : option StateData := last (omap persistOf t).

(** The position a durable record stands for. *)
Definition recordPos (s : StateData) : Position := (sd_blockNumber s, sd_round s, stepZ (sd_step s)).

Lemma signed_app t t' : signed (t ++ t') = signed t ++ signed t'.
Proof. apply omap_app. Qed.

Lemma elem_of_signed t i d : EvSign i d ∈ t → d ∈ signed t.
Proof. intros Hin. apply list_elem_of_omap. by exists (EvSign i d). Qed.

Lemma signed_snoc_other t e : signedOf e = None → signed (t ++ [e]) = signed t.
Proof. intros He. rewrite signed_app. unfold signed at 2. cbn. rewrite He. apply app_nil_r. Qed.

Lemma lastPersist_snoc_other t e : persistOf e = None → lastPersist (t ++ [e]) = lastPersist t.
Proof. intros He. unfold lastPersist. rewrite omap_app. cbn. rewrite He. by rewrite app_nil_r. Qed.

Lemma lastPersist_snoc t d : lastPersist (t ++ [EvPersist d]) = Some d.
Proof. unfold lastPersist. rewrite omap_app. cbn. apply last_snoc. Qed.

Lemma snoc_split {A} (t : list A) e pre x post :
  t ++ [e] = pre ++ x :: post → (pre = t ∧ x = e ∧ post = []) ∨ ∃ post', t = pre ++ x :: post'.
Proof.
  intros Heq. destruct post as [|y post] using rev_ind.
  - apply app_inj_tail in Heq as [-> ->]. auto.
  - right. exists post. rewrite app_comm_cons, app_assoc in Heq. by apply app_inj_tail in Heq as [-> _].
Qed.

Section invariant.
Context `{Services}.
Context (Genuine : Message → Prop) (ProofOf CommitOf : Z → Z → string → Prop)
  (Trusted : Chain → Prop) (p0 : Position).
#[local] Abbreviation HeapOk := (HeapOk Genuine ProofOf CommitOf Trusted).
#[local] Abbreviation roundOk := (roundOk Genuine ProofOf).

(** ** Evidence held in the heap *)
Definition quorumFor (r : RoundState) (votes : JsMap Z Message) (h : string) : Prop :=
  quorum (roundValidatorsAt (rs_blockNumber r)) (voters votes (Some h)).

Definition prevotedAt (w : World) (n rd : Z) (h : string) : Prop :=
  ∃ l r, w_rounds w !! l = Some r ∧ rs_blockNumber r = n ∧ rs_round r = rd ∧
         quorumFor r (rs_prevotes r) h.
Definition precommittedAt (w : World) (n rd : Z) (h : string) : Prop :=
  ∃ l r, w_rounds w !! l = Some r ∧ rs_blockNumber r = n ∧ rs_round r = rd ∧
         quorumFor r (rs_precommits r) h.
Definition certAt (w : World) (n v : Z) (h : string) : Prop := ProofOf n v h ∨ prevotedAt w n v h.

(** The lock: a round state of the current block, from a round not after the
    current one, with +2/3 prevotes for its proposal [h]. *)
Definition lockedAt (w : World) (l : Z) (rd : Z) (h : string) : Prop :=
  ∃ r p, w_rounds w !! l = Some r ∧ rs_blockNumber r = k_blockNumber (w_core w) ∧ rs_round r = rd ∧
         rs_proposal r = Some p ∧ p_hash p = h ∧ quorumFor r (rs_prevotes r) h.

Definition isVote (t n rd : Z) (d : SignatureMessageData) : Prop :=
  sm_type d = t ∧ sm_blockNumber d = n ∧ sm_round d = rd.

Record TraceOk (w : World) : Prop := {
  tr_type : ∀ d, d ∈ signed (w_trace w) → sm_type d = MessageType_Prevote ∨ sm_type d = MessageType_Precommit;
  tr_pos : ∀ d, d ∈ signed (w_trace w) → posLe (votePos d) (pos w);
  tr_agree : ∀ d d', d ∈ signed (w_trace w) → d' ∈ signed (w_trace w) → votePos d = votePos d' →
    sm_blockHash d = sm_blockHash d';
  tr_precommit : ∀ d h, d ∈ signed (w_trace w) → sm_type d = MessageType_Precommit → sm_blockHash d = Some h →
    prevotedAt w (sm_blockNumber d) (sm_round d) h;
  tr_lock : ∀ d h, d ∈ signed (w_trace w) → sm_type d = MessageType_Precommit → sm_blockHash d = Some h →
    sm_blockNumber d = k_blockNumber (w_core w) →
    ∃ l rd h', k_lockedValue (w_core w) = Some l ∧ lockedAt w l rd h' ∧
      sm_round d ≤ rd ∧ (sm_round d = rd → h' = h);
  tr_locked : ∀ l, k_lockedValue (w_core w) = Some l → ∃ rd h, lockedAt w l rd h ∧
    posLe (k_blockNumber (w_core w), rd, stepZ Precommit) (pos w);
  tr_prevote : ∀ d d' h h', d ∈ signed (w_trace w) → d' ∈ signed (w_trace w) →
    sm_type d = MessageType_Precommit → sm_blockHash d = Some h →
    sm_type d' = MessageType_Prevote → sm_blockHash d' = Some h' →
    sm_blockNumber d' = sm_blockNumber d → sm_round d < sm_round d' →
    h' = h ∨ ∃ v, sm_round d ≤ v < sm_round d' ∧ certAt w (sm_blockNumber d) v h';
  tr_persist : ∀ pre i d post, w_trace w = pre ++ EvSign i d :: post →
    ∃ s, lastPersist pre = Some s ∧ sd_blockNumber s = sm_blockNumber d ∧ sd_round s = sm_round d ∧
         stepZ (sd_step s) = sm_type d;
  tr_start : ∀ d, d ∈ signed (w_trace w) → ¬ posLe (votePos d) p0;
  tr_recorded : ∀ d, d ∈ signed (w_trace w) →
    ∃ s, lastPersist (w_trace w) = Some s ∧ posLe (votePos d) (recordPos s);
  tr_commit : ∀ n rd h, EvCommit n rd h ∈ w_trace w → CommitOf n rd h ∨ precommittedAt w n rd h;
}.

Definition Inv (w : World) : Prop := HeapOk w ∧ TraceOk w ∧ posLe p0 (pos w).

(** ** Evidence survives growth *)
Lemma voters_mono m m' h : wfMap m → votesLe m m' → voters m h ⊆ voters m' h.
Proof.
  intros Hwf Hle i (v & Hin & Hh)%elem_of_voters. apply elem_of_voters. exists v. split; [| done].
  by apply mapGet_elem, Hle, mapGet_wf.
Qed.

Lemma quorum_mono n (s s' : gset Z) : s ⊆ s' → quorum n s → quorum n s'.
Proof. intros Hs%subseteq_size Hq. eapply isMajority_mono; [| exact Hq]. lia. Qed.

Lemma bare_hash p p' : bare p' = bare p → p_hash p' = p_hash p.
Proof. intros Hb. change (p_hash p') with (p_hash (bare p')). by rewrite Hb. Qed.

Lemma quorumFor_mono r r' h :
  roundOk r → roundLe r r' →
  (quorumFor r (rs_prevotes r) h → quorumFor r' (rs_prevotes r') h) ∧
  (quorumFor r (rs_precommits r) h → quorumFor r' (rs_precommits r') h).
Proof.
  intros Hok Hle. unfold quorumFor. rewrite (rl_number _ _ Hle). split; apply quorum_mono, voters_mono.
  - apply (vo_keys _ _ _ _ _ (ro_prevotes _ _ _ Hok)).
  - apply Hle.
  - apply (vo_keys _ _ _ _ _ (ro_precommits _ _ _ Hok)).
  - apply Hle.
Qed.

Lemma prevotedAt_mono w w' n rd h : HeapOk w → heapLe w w' → prevotedAt w n rd h → prevotedAt w' n rd h.
Proof.
  intros Hok Hle (l & r & Hl & Hn & Hrd & Hq). pose proof (ho_rounds _ _ _ _ _ Hok l r Hl) as Hr.
  apply Hle in Hl as (r' & Hl' & Hr'). exists l, r'. destruct (quorumFor_mono r r' h Hr Hr') as [Hm _].
  destruct Hr'. split; [done |]. split; [congruence |]. split; [congruence | auto].
Qed.

Lemma precommittedAt_mono w w' n rd h :
  HeapOk w → heapLe w w' → precommittedAt w n rd h → precommittedAt w' n rd h.
Proof.
  intros Hok Hle (l & r & Hl & Hn & Hrd & Hq). pose proof (ho_rounds _ _ _ _ _ Hok l r Hl) as Hr.
  apply Hle in Hl as (r' & Hl' & Hr'). exists l, r'. destruct (quorumFor_mono r r' h Hr Hr') as [_ Hm].
  destruct Hr'. split; [done |]. split; [congruence |]. split; [congruence | auto].
Qed.

Lemma certAt_mono w w' n v h : HeapOk w → heapLe w w' → certAt w n v h → certAt w' n v h.
Proof. intros Hok Hle [?|?]; [by left | right; by eapply prevotedAt_mono]. Qed.

Lemma lockedAt_mono w w' l rd h :
  HeapOk w → heapLe w w' → k_blockNumber (w_core w') = k_blockNumber (w_core w) →
  lockedAt w l rd h → lockedAt w' l rd h.
Proof.
  intros Hok Hle Hk (r & p & Hl & Hn & Hrd & Hp & Hh & Hq). pose proof (ho_rounds _ _ _ _ _ Hok l r Hl) as Hr.
  apply Hle in Hl as (r' & Hl' & Hr'). destruct (quorumFor_mono r r' h Hr Hr') as [Hm _].
  destruct Hr' as [Hn' Hrd' Hp' _ _ _]. apply Hp' in Hp as (p' & Hp1 & Hb%bare_hash).
  exists r', p'. split; [done |]. split; [congruence |]. split; [congruence |].
  split; [done |]. split; [congruence | auto].
Qed.

Lemma locked_prevoted w l rd h : lockedAt w l rd h → prevotedAt w (k_blockNumber (w_core w)) rd h.
Proof. intros (r & p & Hl & Hn & Hrd & _ & _ & Hq). exists l, r. done. Qed.

(** ** The invariant survives growth with the position unchanged *)
Record samePosition (c c' : Core) : Prop := {
  sp_number : k_blockNumber c' = k_blockNumber c;
  sp_round : k_round c' = k_round c;
  sp_step : k_step c' = k_step c;
  sp_locked : k_lockedValue c' = k_lockedValue c;
}.

Lemma samePosition_pos w w' : samePosition (w_core w) (w_core w') → pos w' = pos w.
Proof. intros []. unfold pos. congruence. Qed.

Lemma trace_mono w w' :
  HeapOk w → heapLe w w' → samePosition (w_core w) (w_core w') → w_trace w' = w_trace w →
  TraceOk w → TraceOk w'.
Proof.
  intros Hok Hle Hsp Ht [Hty Hpos Hag Hpc Hlk Hld Hpv Hps Hst0 Hrec Hcm].
  pose proof (samePosition_pos _ _ Hsp) as Hp. destruct Hsp as [Hn Hrd Hst Hlv].
  split; rewrite ?Ht, ?Hp, ?Hn, ?Hlv; try done.
  - intros d h Hd Hd2 Hd3. eapply prevotedAt_mono; eauto.
  - intros d h Hd Hd2 Hd3 Hd4. destruct (Hlk d h Hd Hd2 Hd3 Hd4) as (l & rd & h' & ? & ? & ?).
    exists l, rd, h'. split; [done |]. split; [by eapply lockedAt_mono | done].
  - intros l Hl. destruct (Hld l Hl) as (rd & h & ? & ?). exists rd, h. split; [by eapply lockedAt_mono | done].
  - intros d d' h h' H1 H2 H3 H4 H5 H6 H7 H8. destruct (Hpv d d' h h') as [?|(v & ? & ?)]; try done; [by left |].
    right. exists v. split; [done | by eapply certAt_mono].
  - intros n rd h Hin. destruct (Hcm n rd h Hin); [by left | right; by eapply precommittedAt_mono].
Qed.

Lemma coreEnv_same c c' : coreEnv c c' → samePosition c c'.
Proof. by intros []. Qed.

Lemma inv_env w w' : Inv w → HeapOk w' → envR w w' → Inv w'.
Proof.
  intros (Hok & Htr & Hp) Hok' He. pose proof (coreEnv_same _ _ (er_core _ _ He)) as Hsp.
  split; [done |]. split.
  - eapply trace_mono; [exact Hok | by apply envR_heapLe | done | apply He | done].
  - by rewrite (samePosition_pos _ _ Hsp).
Qed.

(** ** Events other than votes and commits *)
Lemma trace_emit w e :
  signedOf e = None → (∀ n rd h, e ≠ EvCommit n rd h) → (∀ s, persistOf e = Some s → recordPos s = pos w) →
  TraceOk w →
  TraceOk (w <| w_trace ::= λ t, t ++ [e] |>).
Proof.
  intros Hs Hc Hrc [Hty Hpos Hag Hpc Hlk Hld Hpv Hps Hst0 Hrec Hcm].
  split; cbn; rewrite ?signed_snoc_other by done; try done.
  - intros pre i d post [(-> & <- & ->)|(post' & Ht)]%snoc_split; [done | by eapply Hps].
  - intros d Hd. destruct (persistOf e) as [s|] eqn:He.
    + exists s. destruct e; try done. injection He as ->. rewrite lastPersist_snoc, Hrc by done. auto.
    + rewrite lastPersist_snoc_other by done. auto.
  - intros n rd h [Hin|Hin%list_elem_of_singleton]%elem_of_app; [by apply Hcm |]. by destruct (Hc n rd h).
Qed.

Lemma heap_emit w e : HeapOk w → HeapOk (w <| w_trace ::= λ t, t ++ [e] |>).
Proof. intros []. split; try done. Qed.

(** ** Changes of position *)
Record sameEvidence (w w' : World) : Prop := {
  se_rounds : w_rounds w' = w_rounds w;
  se_trace : w_trace w' = w_trace w;
}.

Lemma prevotedAt_same w w' n rd h : w_rounds w' = w_rounds w → prevotedAt w n rd h → prevotedAt w' n rd h.
Proof. intros Hr. unfold prevotedAt. by rewrite Hr. Qed.

Lemma trace_core w w' :
  TraceOk w → sameEvidence w w' →
  (∀ d, d ∈ signed (w_trace w) → posLe (votePos d) (pos w')) →
  (∀ d h, d ∈ signed (w_trace w) → sm_type d = MessageType_Precommit → sm_blockHash d = Some h →
     sm_blockNumber d = k_blockNumber (w_core w') →
     ∃ l rd h', k_lockedValue (w_core w') = Some l ∧ lockedAt w' l rd h' ∧
       sm_round d ≤ rd ∧ (sm_round d = rd → h' = h)) →
  (∀ l, k_lockedValue (w_core w') = Some l → ∃ rd h, lockedAt w' l rd h ∧
     posLe (k_blockNumber (w_core w'), rd, stepZ Precommit) (pos w')) →
  TraceOk w'.
Proof.
  intros [Hty Hpos Hag Hpc Hlk Hld Hpv Hps Hst0 Hrec Hcm] [Hr Ht] Ha Hb Hc.
  split; rewrite ?Ht; try done.
  - intros d h Hd Hd2 Hd3. eapply prevotedAt_same; eauto.
  - intros d d' h h' H1 H2 H3 H4 H5 H6 H7 H8. destruct (Hpv d d' h h') as [?|(v & ? & [?|?])]; try done; [by left | |];
      right; exists v; (split; [done |]); [by left | right; by eapply prevotedAt_same].
  - intros n rd h Hin. destruct (Hcm n rd h Hin) as [?|Hp]; [by left | right].
    unfold precommittedAt. by rewrite Hr.
Qed.

(** The same block and lock, a later position. *)
Lemma trace_advance w w' :
  TraceOk w → sameEvidence w w' → k_blockNumber (w_core w') = k_blockNumber (w_core w) →
  k_lockedValue (w_core w') = k_lockedValue (w_core w) → posLe (pos w) (pos w') → TraceOk w'.
Proof.
  intros Htr Hse Hn Hl Hp. assert (∀ l rd h, lockedAt w l rd h → lockedAt w' l rd h) as Hlocked.
  { intros l rd h. unfold lockedAt. by rewrite (se_rounds _ _ Hse), Hn. }
  apply (trace_core w); [done | done | | |].
  - intros d Hd. etransitivity; [by apply (tr_pos _ Htr) | done].
  - rewrite Hn, Hl. intros d h Hd Hd2 Hd3 Hd4. destruct (tr_lock _ Htr d h Hd Hd2 Hd3 Hd4) as (l & rd & h' & ? & ? & ?).
    exists l, rd, h'. split; [done |]. split; [auto | done].
  - rewrite Hn, Hl. intros l Hl'. destruct (tr_locked _ Htr l Hl') as (rd & h & ? & ?). exists rd, h.
    split; [auto | by etransitivity].
Qed.

(** No lock, and every vote before the new position's block. *)
Lemma trace_unlocked w w' :
  TraceOk w → sameEvidence w w' → k_lockedValue (w_core w') = None →
  (∀ d, d ∈ signed (w_trace w) → sm_blockNumber d < k_blockNumber (w_core w')) → TraceOk w'.
Proof.
  intros Htr Hse Hl Hn. apply (trace_core w); [done | done | | |].
  - intros d Hd. left. by apply Hn.
  - intros d h Hd _ _ Hd4. specialize (Hn d Hd). lia.
  - rewrite Hl. done.
Qed.

(** The lock moves to the current round, with the step that precommits it. *)
Lemma trace_lock w w' l h :
  TraceOk w → sameEvidence w w' → k_blockNumber (w_core w') = k_blockNumber (w_core w) →
  k_round (w_core w') = k_round (w_core w) → k_step (w_core w) = Prevote → k_step (w_core w') = Precommit →
  k_lockedValue (w_core w') = Some l → lockedAt w' l (k_round (w_core w)) h → TraceOk w'.
Proof.
  intros Htr Hse Hn Hrd Hs Hs' Hl Hlocked.
  assert (pos w = (k_blockNumber (w_core w), k_round (w_core w), 1)) as Hpw by (unfold pos; by rewrite Hs).
  assert (pos w' = (k_blockNumber (w_core w), k_round (w_core w), 2)) as Hpw' by (unfold pos; by rewrite Hs', Hn, Hrd).
  apply (trace_core w); [done | done | | |].
  - intros d Hd. etransitivity; [by apply (tr_pos _ Htr) |]. rewrite Hpw, Hpw'. unfold posLe. cbn. lia.
  - intros d h0 Hd Hd2 Hd3 Hd4. exists l, (k_round (w_core w)), h. split; [done |]. split; [done |].
    pose proof (tr_pos _ Htr d Hd) as Hp. rewrite Hpw in Hp. unfold posLe, votePos in Hp. cbn in Hp.
    rewrite Hd2 in Hp. unfold MessageType_Precommit in Hp. lia.
  - intros l0 Hl0. rewrite Hl in Hl0. injection Hl0 as <-. exists (k_round (w_core w)), h.
    split; [done |]. rewrite Hn, Hpw'. reflexivity.
Qed.

(** ** Signing

    [justified]: the reason the node has for a vote of type [t] for [value] at
    its current position. *)
Definition justified (w : World) (t : Z) (value : option string) : Prop :=
  match value with
  | None => True
  | Some h =>
      (t = MessageType_Precommit → ∃ l, k_lockedValue (w_core w) = Some l ∧ lockedAt w l (k_round (w_core w)) h) ∧
      (t = MessageType_Prevote → ∀ l, k_lockedValue (w_core w) = Some l →
         ∃ rd h', lockedAt w l rd h' ∧
           (h' = h ∨ ∃ v, rd ≤ v < k_round (w_core w) ∧ ProofOf (k_blockNumber (w_core w)) v h))
  end.

(** The durable record of the current step is the last one written. *)
Definition persisted (w : World) (t : Z) : Prop :=
  ∃ s, lastPersist (w_trace w) = Some s ∧ sd_blockNumber s = k_blockNumber (w_core w) ∧
       sd_round s = k_round (w_core w) ∧ stepZ (sd_step s) = t.

(** Votes of this type at the current position, if any, were for [value]. *)
Definition unanimous (w : World) (t : Z) (value : option string) : Prop :=
  ∀ d, d ∈ signed (w_trace w) → votePos d = (k_blockNumber (w_core w), k_round (w_core w), t) →
       sm_blockHash d = value.

Record voting (w : World) (t : Z) (value : option string) : Prop := {
  vt_step : stepZ (k_step (w_core w)) = t;
  vt_start : ¬ posLe (pos w) p0;
  vt_type : t = MessageType_Prevote ∨ t = MessageType_Precommit;
  vt_unanimous : unanimous w t value;
  vt_persisted : persisted w t;
  vt_justified : justified w t value;
}.

Definition signNow (w : World) (i t : Z) (value : option string) : World :=
  w <| w_trace ::= λ tr, tr ++ [EvSign i (mkSignatureMessageData t (k_blockNumber (w_core w)) (k_round (w_core w)) value)] |>.

Lemma lockedAt_fun w l rd h rd' h' : lockedAt w l rd h → lockedAt w l rd' h' → rd = rd' ∧ h = h'.
Proof.
  intros (r & p & Hr0 & _ & <- & Hp0 & <- & _) (r' & p' & Hr1 & _ & <- & Hp1 & <- & _).
  rewrite Hr0 in Hr1. injection Hr1 as <-. rewrite Hp0 in Hp1. by injection Hp1 as <-.
Qed.

(** A precommit seen by a later prevote of the node: the lock rule. *)
Lemma prevote_lockrule w d h h' :
  TraceOk w → justified w MessageType_Prevote (Some h') → stepZ (k_step (w_core w)) = MessageType_Prevote →
  d ∈ signed (w_trace w) → sm_type d = MessageType_Precommit → sm_blockHash d = Some h →
  sm_blockNumber d = k_blockNumber (w_core w) → sm_round d < k_round (w_core w) →
  h' = h ∨ ∃ v, sm_round d ≤ v < k_round (w_core w) ∧ certAt w (k_blockNumber (w_core w)) v h'.
Proof.
  intros Htr [_ Hj] Hs Hd Hty Hh Hn Hr.
  destruct (tr_lock _ Htr d h Hd Hty Hh Hn) as (l & rd & hl & Hl & Hlocked & Hle & Heq).
  destruct (tr_locked _ Htr l Hl) as (rd1 & h1 & Hlocked1 & Hp).
  destruct (lockedAt_fun w l rd1 h1 rd hl) as [-> ->]; [done | done |].
  assert (rd < k_round (w_core w)) as Hlt.
  { unfold posLe, pos in Hp. cbn in Hp. rewrite Hs in Hp. unfold MessageType_Prevote in Hp. lia. }
  destruct (Hj eq_refl l Hl) as (rd2 & h2 & Hlocked2 & Hcase).
  destruct (lockedAt_fun w l rd2 h2 rd hl) as [-> ->]; [done | done |].
  destruct Hcase as [->|(v & Hv & Hproof)].
  - destruct (decide (sm_round d = rd)) as [Hd'|Hd']; [left; auto |].
    right. exists rd. split; [lia |]. right. by eapply locked_prevoted.
  - right. exists v. split; [lia | by left].
Qed.

Lemma elem_of_signNow w i t value d :
  d ∈ signed (w_trace (signNow w i t value)) ↔
  d ∈ signed (w_trace w) ∨ d = mkSignatureMessageData t (k_blockNumber (w_core w)) (k_round (w_core w)) value.
Proof.
  cbn. rewrite signed_app, elem_of_app. split; intros [?|Hd]; auto; right.
  - by apply list_elem_of_singleton in Hd.
  - subst. apply list_elem_of_singleton. done.
Qed.

(** Signing a justified vote keeps the invariant. *)
Lemma sign_trace w i t value : TraceOk w → voting w t value → TraceOk (signNow w i t value).
Proof.
  intros Htr [Hs Hpz Hty Hun Hper Hj]. pose proof Htr as [Hty' Hpos Hag Hpc Hlk Hld Hpv Hps Hst0 Hrec Hcm].
  assert (pos (signNow w i t value) = (k_blockNumber (w_core w), k_round (w_core w), t)) as Hp
    by (unfold pos; cbn; by rewrite Hs).
  assert (pos w = (k_blockNumber (w_core w), k_round (w_core w), t)) as Hpw by (unfold pos; by rewrite Hs).
  split.
  - intros d [Hd| ->]%elem_of_signNow; [by apply Hty' | done].
  - intros d [Hd| ->]%elem_of_signNow; [exact (Hpos d Hd) |]. rewrite Hp. reflexivity.
  - intros d d' [Hd| ->]%elem_of_signNow [Hd'| ->]%elem_of_signNow Heq; [by apply Hag | | | done].
    + by apply Hun.
    + symmetry. by apply Hun.
  - intros d h [Hd| ->]%elem_of_signNow Hd2 Hd3; [by apply Hpc |]. cbn in *. subst value.
    destruct Hj as [Hj _]. destruct (Hj Hd2) as (l & Hl & Hlocked). exact (locked_prevoted w l _ h Hlocked).
  - intros d h [Hd| ->]%elem_of_signNow Hd2 Hd3 Hd4; [by apply Hlk |]. cbn in *. subst value.
    destruct Hj as [Hj _]. destruct (Hj Hd2) as (l & Hl & Hlocked).
    exists l, (k_round (w_core w)), h. done.
  - exact Hld.
  - intros d d' h h' [Hd| ->]%elem_of_signNow [Hd'| ->]%elem_of_signNow H3 H4 H5 H6 H7 H8; cbn in *; subst.
    + by apply (Hpv d d').
    + rewrite H5 in Hj.
      destruct (prevote_lockrule w d h h' Htr Hj H5 Hd H3 H4) as [->|(v & Hv & Hc)]; [done | done | by left |].
      right. exists v. split; [done |]. rewrite <- H7. exact Hc.
    + pose proof (Hpos d' Hd') as Hp'. rewrite Hpw in Hp'. unfold posLe, votePos in Hp'. cbn in Hp'. lia.
    + lia.
  - intros pre i' d post [(-> & Heq & ->)|(post' & Ht)]%snoc_split; [| by eapply Hps].
    injection Heq as -> ->. exact Hper.
  - intros d [Hd| ->]%elem_of_signNow; [by apply Hst0 |]. unfold votePos. cbn. by rewrite <- Hpw.
  - intros d [Hd| ->]%elem_of_signNow; cbn; rewrite lastPersist_snoc_other by done; [by apply Hrec |].
    destruct Hper as (s & Hl & Hn & Hr & Hst). exists s. split; [done |]. unfold recordPos, votePos. cbn.
    rewrite Hn, Hr, Hst. reflexivity.
  - intros n rd h [Hin|Hin%list_elem_of_singleton]%elem_of_app; [by apply Hcm | done].
Qed.

Lemma sign_ok w i t value :
  Inv w → voting w t value → Inv (signNow w i t value) ∧ voting (signNow w i t value) t value.
Proof.
  intros (Hok & Htr & Hp) Hv. split; [split; [| split] |].
  - by apply heap_emit.
  - by apply sign_trace.
  - exact Hp.
  - destruct Hv as [Hs Hpz Hty Hun Hper Hj]. split; try done.
    + intros d [Hd| ->]%elem_of_signNow; [by apply Hun | done].
    + destruct Hper as (s & Hl & Hrest). exists s. split; [| done]. cbn. by rewrite lastPersist_snoc_other.
Qed.
End invariant.
