(* ===== verification/ConsensusSafety.v ===== *)
(** * Every handler of the consensus keeps the safety invariant

    A small program logic over the invariant, one rule per operation, and a
    triple per handler of consensus.ts. *)
From S2P Require Import Prelude Bytes Serializer Messages Blocks Proposals Commits JsMap Quorum BlockchainUtils.
From S2P Require Import ValidatorSet RoundState RoundStateFacts ConsensusStorage Node Processors CommitBatch Consensus.
From S2P Require Import ConsensusHeap ConsensusInvariant.

(** What signature verification tells, as an interface: the consensus relies on
    these laws of the cryptography and on nothing else about it. *)
Class Unforgeable `{Services} (Genuine : Message → Prop) (ProofOf CommitOf : Z → Z → string → Prop)
    (Trusted : Chain → Prop) : Prop := {
  (** a vote, a lock proof and a commit that verify are genuine *)
  genuine_vote : ∀ w m, Trusted (w_chain w) → msgOk m →
    (hasValidMessageSignature m w).1 = Ok true → Genuine m;
  genuine_proof : ∀ w p v, Trusted (w_chain w) → built p →
    (hasValidLockProof p w).1 = Ok true → p_validRound p = Some v → ProofOf (p_blockNumber p) v (p_hash p);
  genuine_commit : ∀ w c h, Trusted (w_chain w) → hexOfLength 64 (b_hash (c_block c)) = true →
    hexOfLength 64 h = true → (hasValidCommitSignature c h w).1 = Ok true →
    CommitOf (b_number (c_block c)) (cp_round (c_proof c)) (b_hash (c_block c));
  (** a trusted chain stays trusted when a block is committed and the validators follow *)
  trusted_store : ∀ c b round, Trusted c → hexOfLength 64 (b_hash b) = true → Trusted (storeOnCommit b round c).2;
  trusted_validators : ∀ c number n newRound, Trusted c →
    Trusted (c <| ch_validatorSet := (@onCommit (consensusContract number) n newRound false (ch_validatorSet c)).2 |>);
}.

Section safety.
Context `{Services} (Genuine : Message → Prop) (ProofOf CommitOf : Z → Z → string → Prop) (Trusted : Chain → Prop).
Context `{!Unforgeable Genuine ProofOf CommitOf Trusted} (p0 : Position).
#[local] Abbreviation HeapOk := (HeapOk Genuine ProofOf CommitOf Trusted).
#[local] Abbreviation roundOk := (roundOk Genuine ProofOf).
#[local] Abbreviation esat := (esat Genuine ProofOf CommitOf Trusted).
#[local] Abbreviation Inv := (Inv Genuine ProofOf CommitOf Trusted p0).
#[local] Abbreviation TraceOk := (TraceOk ProofOf CommitOf p0).

(** ** Quiet steps

    What the environment does, and what a handler does that neither moves its
    position nor signs nor records: everything a handler knows about its
    position, its votes and its evidence survives. *)
Definition isDispatch (e : Event) : Prop := match e with EvDispatch _ _ | EvStuck => True | _ => False end.

Record quiet (w w' : World) : Prop := {
  qu_core : samePosition (w_core w) (w_core w');
  qu_heap : heapLe w w';
  qu_trace : ∃ l, w_trace w' = w_trace w ++ l ∧ Forall isDispatch l;
  qu_commits : ∀ l cs, w_commits w !! l = Some cs → w_commits w' !! l = Some cs;
}.

Lemma env_quiet w w' : envR w w' → quiet w w'.
Proof.
  intros He. split; [apply coreEnv_same, He | by apply envR_heapLe | | apply He].
  exists []. by rewrite app_nil_r, (er_trace _ _ He).
Qed.

Lemma same_quiet w w' :
  samePosition (w_core w) (w_core w') → w_rounds w' = w_rounds w → w_trace w' = w_trace w →
  w_commits w' = w_commits w → quiet w w'.
Proof.
  intros Hc Hr Ht Hm. split; [done | | | by rewrite Hm].
  - intros l r Hl. exists r. rewrite Hr. split; [done | apply roundLe_refl].
  - exists []. by rewrite app_nil_r.
Qed.

Definition stable (P : World → Prop) : Prop := ∀ w w', Inv w → P w → quiet w w' → P w'.

Lemma stable_true : stable (λ _, True).
Proof. by intros w w'. Qed.
Lemma stable_and P Q : stable P → stable Q → stable (λ w, P w ∧ Q w).
Proof. intros HP HQ w w' Hi [Hp Hq] He. split; [by eapply HP | by eapply HQ]. Qed.
Lemma stable_const (A : Prop) : stable (λ _, A).
Proof. by intros w w'. Qed.

(** ** The logic *)
Definition T {A} (P : World → Prop) (m : M World A) (Q : A → World → Prop) : Prop :=
  triple (λ w, Inv w ∧ P w) m (λ a w, Inv w ∧ Q a w) (λ _ w, Inv w).

Lemma T_bind {A B} P (m : M World A) (f : A → M World B) R Q :
  T P m R → (∀ a, T (R a) (f a) Q) → T P (m ≫= f) Q.
Proof. apply triple_bind. Qed.

Lemma T_weaken {A} (P P' : World → Prop) (m : M World A) (Q Q' : A → World → Prop) :
  T P' m Q' → (∀ w, Inv w → P w → P' w) → (∀ a w, Inv w → Q' a w → Q a w) → T P m Q.
Proof.
  intros Hm HP HQ. eapply triple_weaken; [exact Hm | | |]; cbn; [| | done].
  - intros w [? ?]. auto.
  - intros a w [? ?]. auto.
Qed.

Lemma T_pre {A} (P : World → Prop) (m : M World A) (Q : A → World → Prop) : T (λ _, True) m Q → T P m Q.
Proof. intros Hm. eapply T_weaken; [exact Hm | done | done]. Qed.

Lemma T_ret {A} (P : World → Prop) (a : A) (Q : A → World → Prop) : (∀ w, P w → Q a w) → T P (mret a) Q.
Proof. intros HQ w [Hi HP]. split; [done | by apply HQ]. Qed.

Lemma T_throw {A} (P : World → Prop) e (Q : A → World → Prop) : T P (throw e) Q.
Proof. intros w [Hi HP]. done. Qed.

Lemma T_ro {A} (P : World → Prop) (m : M World A) : ro m → T P m (λ a w, P w ∧ (m w).1 = Ok a).
Proof.
  intros Hr w [Hi HP]. specialize (Hr w). destruct (m w) as [[a|e] w'] eqn:Hm; cbn in Hr; subst w'; [| done].
  split; [done |]. split; [done |]. by rewrite Hm.
Qed.

Lemma T_ro_bind {A B} (P : World → Prop) (m : M World A) (f : A → M World B) Q :
  ro m → (∀ a, T (λ w, P w ∧ (m w).1 = Ok a) (f a) Q) → T P (m ≫= f) Q.
Proof. intros Hm Hf. eapply T_bind; [by apply T_ro | done]. Qed.

Lemma T_drop {A B} (P : World → Prop) (m : M World A) (f : A → M World B) Q :
  ro m → (∀ a, T P (f a) Q) → T P (m ≫= f) Q.
Proof.
  intros Hm Hf. apply T_ro_bind; [done |]. intros a. eapply T_weaken; [apply Hf | tauto | done].
Qed.

Lemma T_esat {A} (P : World → Prop) (m : M World A) (Q : A → World → Prop) :
  esat P m Q → stable P → T P m (λ a w, P w ∧ Q a w).
Proof.
  intros Hm Hs w [Hi HP]. destruct (Hm w) as (Hok & He & HQ); [apply Hi | done |].
  assert (Inv (m w).2) as Hi' by (by eapply inv_env).
  destruct (m w) as [[a|e] w']; cbn in *; [| done]. split; [done |]. split; [| by apply HQ].
  eapply Hs; [exact Hi | done | by apply env_quiet].
Qed.

Lemma T_silent {A} (P : World → Prop) (m : M World A) :
  (∀ w, silent w (m w).2) → stable P → T P m (λ _, P).
Proof.
  intros Hm Hs. eapply T_weaken; [apply (T_esat P m any); [by apply esat_silent | done] | done | by intros ? ? ? []].
Qed.

Lemma T_modify (P : World → Prop) (f : World → World) (Q : World → Prop) :
  (∀ w, Inv w → P w → Inv (f w) ∧ Q (f w)) → T P (modify f) (λ _, Q).
Proof. intros Hf w [Hi HP]. by apply Hf. Qed.

Lemma T_when (P : World → Prop) b (m : M World unit) (Q : World → Prop) :
  (b = true → T P m (λ _, Q)) → (b = false → ∀ w, P w → Q w) → T P (when b m) (λ _, Q).
Proof. intros Ht Hf. destruct b; cbn; [by apply Ht | apply T_ret; auto]. Qed.

Lemma T_forEach {A} (P : World → Prop) (l : list A) (f : A → M World unit) :
  (∀ x, T P (f x) (λ _, P)) → T P (forEach l f) (λ _, P).
Proof. intros Hf. apply triple_forEach. intros x _. apply Hf. Qed.

Lemma T_catch {A} P (m : M World A) (h : Error → M World A) Q :
  T P m Q → (∀ e, T (λ _, True) (h e) Q) → T P (tryCatch m h) Q.
Proof.
  intros Hm Hh w Hw. specialize (Hm w Hw). unfold tryCatch. destruct (m w) as [[a|e] w']; [done |].
  destruct e; try done; by apply Hh.
Qed.

Lemma yield_T (P : World → Prop) : stable P → T P yield (λ _, P).
Proof.
  intros Hs w [Hi HP]. destruct (yield_ok Genuine ProofOf CommitOf Trusted genuine_vote genuine_commit w) as [Hok He]; [apply Hi |].
  assert (Inv (yield w).2) as Hi' by (by eapply inv_env).
  assert (P (yield w).2) as HP' by (eapply Hs; [exact Hi | done | by apply env_quiet]).
  unfold yield in *. destruct (w_env w); done.
Qed.

Lemma T_await {A} P (m : M World A) (Q : A → World → Prop) :
  T P m Q → (∀ a, stable (Q a)) → T P (await m) Q.
Proof.
  intros Hm Hs w Hw. specialize (Hm w Hw). unfold await. destruct (m w) as [[a|e] w1]; cbn.
  - pose proof (yield_T (Q a) (Hs a) w1 Hm) as Hy. destruct (yield w1) as [[]?] eqn:Hyd; [exact Hy |].
    unfold yield in Hyd. destruct (w_env w1); done.
  - pose proof (yield_T (λ _, True) stable_true w1 (conj Hm I)) as Hy.
    destruct (yield w1) as [[]?] eqn:Hyd; [apply Hy |]. unfold yield in Hyd. destruct (w_env w1); done.
Qed.

(** ** Facts that survive quiet steps *)
Lemma signed_dispatch t l : Forall isDispatch l → signed (t ++ l) = signed t ∧ lastPersist (t ++ l) = lastPersist t.
Proof.
  intros Hl. induction l as [|e l IH] using rev_ind; [by rewrite app_nil_r |].
  apply Forall_app in Hl as [Hl [He _]%Forall_cons]. destruct (IH Hl) as [H1 H2].
  rewrite app_assoc, signed_snoc_other, lastPersist_snoc_other by (by destruct e). done.
Qed.

Lemma quiet_signed w w' : quiet w w' → signed (w_trace w') = signed (w_trace w).
Proof. intros [_ _ (l & -> & Hl) _]. by apply signed_dispatch. Qed.
Lemma quiet_persist w w' : quiet w w' → lastPersist (w_trace w') = lastPersist (w_trace w).
Proof. intros [_ _ (l & -> & Hl) _]. by apply signed_dispatch. Qed.

Lemma stable_core (φ : Z → Z → Step → option Z → Prop) :
  stable (λ w, φ (k_blockNumber (w_core w)) (k_round (w_core w)) (k_step (w_core w)) (k_lockedValue (w_core w))).
Proof. intros w w' _ Hφ [[-> -> -> ->] _ _ _]. done. Qed.

Lemma stable_locked l rd h : stable (λ w, lockedAt w l rd h).
Proof.
  intros w w' (Hok & _) Hl Hq. eapply lockedAt_mono; [exact Hok | apply Hq | | done]. apply Hq.
Qed.

(** No vote of type [t] at the current position, which is at step [t]. *)
Definition fresh (w : World) (t : Z) : Prop :=
  stepZ (k_step (w_core w)) = t ∧ ¬ posLe (pos w) p0 ∧ (t = MessageType_Prevote ∨ t = MessageType_Precommit) ∧
  ∀ d, d ∈ signed (w_trace w) → votePos d ≠ (k_blockNumber (w_core w), k_round (w_core w), t).

Lemma stable_fresh t : stable (λ w, fresh w t).
Proof.
  intros w w' _ (Hs & Hz & Ht & Hf) Hq. unfold fresh, pos in *. rewrite (quiet_signed _ _ Hq).
  destruct Hq as [[-> -> -> _] _ _ _]. done.
Qed.

Lemma stable_persisted t : stable (λ w, persisted w t).
Proof.
  intros w w' _ Hp Hq. unfold persisted in *. rewrite (quiet_persist _ _ Hq).
  destruct Hq as [[-> -> _ _] _ _ _]. done.
Qed.

Lemma stable_justified t value : stable (λ w, justified ProofOf w t value).
Proof.
  intros w w' (Hok & _) Hj Hq. destruct value as [h|]; [| done]. destruct Hj as [H1 H2].
  pose proof (qu_heap _ _ Hq) as Hle. destruct Hq as [[Hn Hr Hs Hl] _ _ _].
  split; rewrite Hl, ?Hr, ?Hn.
  - intros Ht. destruct (H1 Ht) as (l & ? & ?). exists l. split; [done | by eapply lockedAt_mono].
  - intros Ht l Hl'. destruct (H2 Ht l Hl') as (rd & h' & ? & ?). exists rd, h'.
    split; [by eapply lockedAt_mono | done].
Qed.

Lemma stable_voting t value : stable (λ w, voting ProofOf p0 w t value).
Proof.
  intros w w' Hi [Hs Hz Ht Hu Hp Hj] Hq. split; [| | done | | by eapply stable_persisted | by eapply stable_justified].
  - destruct Hq as [[_ _ -> _] _ _ _]. done.
  - unfold pos in *. destruct Hq as [[-> -> -> _] _ _ _]. done.
  - unfold unanimous. rewrite (quiet_signed _ _ Hq). destruct Hq as [[-> -> _ _] _ _ _]. done.
Qed.

Lemma fresh_voting w t value :
  fresh w t → persisted w t → justified ProofOf w t value → voting ProofOf p0 w t value.
Proof.
  intros (Hs & Hz & Ht & Hf) Hp Hj. split; try done. intros d Hd Heq. by destruct (Hf d Hd).
Qed.

(** The round state at [l] belongs to position [n], [rd] and holds proposal [p]. *)
Definition proposedAt (l n rd : Z) (p : Proposal) (w : World) : Prop :=
  ∃ r p', w_rounds w !! l = Some r ∧ rs_blockNumber r = n ∧ rs_round r = rd ∧
          rs_proposal r = Some p' ∧ bare p' = bare p.

Lemma stable_proposed l n rd p : stable (λ w, proposedAt l n rd p w).
Proof.
  intros w w' _ (r & p' & Hr & Hn & Hrd & Hp & Hb) Hq. apply (qu_heap _ _ Hq) in Hr as (r' & Hr' & [Hn' Hrd' Hp' _ _ _]).
  apply Hp' in Hp as (p'' & ? & ?). exists r', p''. split; [done |]. repeat split; congruence.
Qed.

Lemma stable_named n rd l : stable (λ w, namedAt n rd l w).
Proof.
  intros w w' _ (r & Hr & Hn & Hrd) Hq. apply (qu_heap _ _ Hq) in Hr as (r' & Hr' & [Hn' Hrd' _ _ _ _]).
  exists r'. split; [done |]. split; congruence.
Qed.

(** +2/3 precommits for the proposal of the round state at [l]. *)
Definition decided (l n rd : Z) (h : string) (w : World) : Prop :=
  ∃ r p, w_rounds w !! l = Some r ∧ rs_blockNumber r = n ∧ rs_round r = rd ∧ rs_proposal r = Some p ∧
         p_hash p = h ∧ quorumFor r (rs_precommits r) h.

Lemma stable_decided l n rd h : stable (λ w, decided l n rd h w).
Proof.
  intros w w' (Hok & _) (r & p & Hr & Hn & Hrd & Hp & Hh & Hq) Hqu.
  pose proof (ho_rounds _ _ _ _ _ Hok l r Hr) as Hro. apply (qu_heap _ _ Hqu) in Hr as (r' & Hr' & Hle).
  destruct (quorumFor_mono Genuine ProofOf r r' h Hro Hle) as [_ Hm]. destruct Hle as [Hn' Hrd' Hp' _ _ _].
  apply Hp' in Hp as (p' & ? & ?%bare_hash). exists r', p'. split; [done |]. repeat split; try congruence. auto.
Qed.

Lemma stable_commit l cs : stable (λ w, w_commits w !! l = Some cs).
Proof. intros w w' _ Hl Hq. by apply Hq. Qed.

(** ** Changes that the invariant does not see *)
Lemma inv_same w w' :
  Inv w → HeapOk w' → samePosition (w_core w) (w_core w') → w_rounds w' = w_rounds w →
  w_trace w' = w_trace w → Inv w'.
Proof.
  intros (Hok & Htr & Hp) Hok' Hc Hr Ht. split; [done |]. split.
  - eapply trace_mono; [exact Hok | | done | done | done]. intros l r Hl. exists r. rewrite Hr.
    split; [done | apply roundLe_refl].
  - by rewrite (samePosition_pos _ _ Hc).
Qed.

(** The fields of [HeapOk] are as before. *)
Lemma heap_core w f : HeapOk w → HeapOk (w <| w_core ::= f |>).
Proof. intros []. by split. Qed.

Lemma T_setCore_same (P : World → Prop) (f : Core → Core) :
  (∀ c, samePosition c (f c)) → stable P → T P (setCore f) (λ _, P).
Proof.
  intros Hf Hs. apply T_modify. intros w Hi HP. split.
  - eapply inv_same; [exact Hi | apply heap_core, Hi | apply Hf | done | done].
  - eapply Hs; [exact Hi | done |]. apply same_quiet; try done.
Qed.

Lemma T_emit_dispatch (P : World → Prop) e : isDispatch e → stable P → T P (emit e) (λ _, P).
Proof.
  intros He Hs. apply T_modify. intros w Hi HP. split.
  - destruct Hi as (Hok & Htr & Hp). split; [by apply heap_emit |]. split; [by destruct e; try done; apply trace_emit | done].
  - eapply Hs; [exact Hi | done |]. split; [done | | | done].
    + intros l r Hl. exists r. split; [done | apply roundLe_refl].
    + eexists. split; [done |]. by repeat constructor.
Qed.

Lemma T_stuck {A} (P : World → Prop) (Q : A → World → Prop) : T P stuck Q.
Proof.
  apply (T_bind _ _ _ (λ _ _, True)); [| intros []; apply T_throw].
  eapply T_weaken; [apply (T_emit_dispatch (λ _, True)); [done | apply stable_true] | done | done].
Qed.

Lemma T_dispatch (P : World → Prop) n : stable P → T P (dispatch n) (λ _, P).
Proof.
  intros Hs. unfold dispatch. apply T_drop; [apply ro_get |]. intros w. apply T_await; [| by intros _].
  by apply T_emit_dispatch.
Qed.

(** ** The durable record

    A write that returns has put the state in the store. *)
Lemma saveState_stored d w w' :
  onStorage (λ ok, saveState ok d) w = (Ok tt, w') → getState (w_storage w') = Some d.
Proof.
  unfold onStorage, zoomM, saveState, stWrite, stCommit, mbind, M_bind, get, modify, throw. destruct (w_diskOk w); intros [= <-]. done.
Qed.

Lemma T_saveState (P : World → Prop) d :
  stable P → T P (onStorage (λ ok, saveState ok d)) (λ _ w, P w ∧ getState (w_storage w) = Some d).
Proof.
  intros Hs w Hw. pose proof (T_silent P (onStorage (λ ok, saveState ok d)) (λ w, silent_storage _ w) Hs w Hw) as Hm.
  destruct (onStorage _ w) as [[[]|e] w'] eqn:Hrun; [| exact Hm]. destruct Hm as [Hi HP]. split; [done |]. split; [done |].
  by eapply saveState_stored.
Qed.

Lemma T_observeStore (P : World → Prop) d (Q : World → Prop) :
  T P (emit (EvPersist d)) (λ _, Q) → T (λ w, P w ∧ getState (w_storage w) = Some d) observeStore (λ _, Q).
Proof.
  intros Hm. unfold observeStore. apply T_ro_bind; [apply ro_gets |]. intros stored.
  intros w [Hi ((HP & Hd) & Heq)]. cbn in Heq. rewrite Hd in Heq. injection Heq as <-. apply Hm. done.
Qed.

Lemma T_persist_any : T (λ _, True) persistState (λ _ _, True).
Proof.
  unfold persistState. apply T_ro_bind; [apply ro_get |]. intros w0. apply T_await; [| intros ?; apply stable_true].
  set (s := getStateData w0).
  apply (T_bind _ _ _ (λ _ w, recordPos s = pos w ∧ getState (w_storage w) = Some s)).
  { eapply T_weaken; [apply (T_saveState (λ w, recordPos s = pos w)) | | done].
    - apply (stable_core (λ n r st _, recordPos s = (n, r, stepZ st))).
    - by intros w _ [_ [= ->]]. }
  intros []. apply T_observeStore, T_modify. intros w (Hok & Htr & Hp) Hs. split; [| done]. split; [by apply heap_emit |].
  split; [apply trace_emit; [done | done | by intros ? [= <-] | done] | done].
Qed.

(** A fact about positions and round states only. *)
Definition traceFree (K : World → Prop) : Prop :=
  stable K ∧ ∀ w e, K w → K (w <| w_trace ::= λ t, t ++ [e] |>).

Lemma T_persist t (K : World → Prop) :
  traceFree K →
  T (λ w, fresh w t ∧ K w) persistState (λ _ w, (fresh w t ∧ persisted w t) ∧ K w).
Proof.
  intros [HK HK']. unfold persistState. apply T_ro_bind; [apply ro_get |]. intros w0.
  apply T_await; [| intros _; apply stable_and; [apply stable_and; [apply stable_fresh | apply stable_persisted] | done]].
  set (s := getStateData w0).
  set (J := λ w, (fresh w t ∧ K w) ∧ sd_blockNumber s = k_blockNumber (w_core w) ∧
                 sd_round s = k_round (w_core w) ∧ stepZ (sd_step s) = t).
  apply (T_bind _ _ _ (λ _ w, J w ∧ getState (w_storage w) = Some s)).
  - eapply T_weaken; [apply (T_saveState J) | | done].
    + apply stable_and; [apply stable_and; [apply stable_fresh | done] |].
      apply (stable_core (λ n r _ _, sd_blockNumber s = n ∧ sd_round s = r ∧ stepZ (sd_step s) = t)).
    + intros w _ [[Hf Hk] [= ->]]. split; [done |]. subst s. destruct Hf as [<- _]. done.
  - intros []. apply T_observeStore, T_modify. intros w (Hok & Htr & Hp) ((Hf & Hk) & Hn & Hr & Hs). split; [| split; [split |]].
    + split; [by apply heap_emit |]. split; [| done]. apply trace_emit; [done | done | | done].
      intros ? [= <-]. unfold recordPos, pos. destruct Hf as [-> _]. congruence.
    + destruct Hf as (Hst & Hz & Ht & Hfr). split; [done |]. split; [done |]. split; [done |]. cbn. by rewrite signed_snoc_other.
    + exists s. split; [cbn; apply lastPersist_snoc | done].
    + by apply HK'.
Qed.

(** ** Voting *)
Lemma makeMessage_ok t n rd value i key c m :
  makeMessage roundValidatorsAt blsSign t n rd value i key c = Ok m → msgOk m.
Proof.
  intros (bs & _ & Hk)%bind_Ok. apply bind_Ok in Hk as (ser & _ & Hk). by eapply factoryMessage_ok.
Qed.

Lemma T_signVote t key i c value :
  T (λ w, voting ProofOf p0 w t value ∧ w_core w = c)
    (signVote t key i (k_blockNumber c) (k_round c) value)
    (λ m w, voting ProofOf p0 w t value ∧ msgOk m).
Proof.
  unfold signVote. apply T_drop; [apply ro_context |]. intros ctx.
  apply T_drop; [apply ro_lift |]. intros bytes.
  apply (T_bind _ _ _ (λ _ w, voting ProofOf p0 w t value)).
  - apply T_modify. intros w Hi [Hv <-]. by apply (sign_ok Genuine ProofOf CommitOf Trusted p0 w i t value).
  - intros []. eapply T_weaken; [apply (T_ro (λ w, voting ProofOf p0 w t value)), ro_lift | done |].
    intros m w _ [Hv Hm]. split; [done | exact (makeMessage_ok _ _ _ _ _ _ _ _ Hm)].
Qed.

Lemma T_background (P : World → Prop) b :
  backgroundOk b → stable P → T P (modify (λ w, w <| w_background ::= λ l, l ++ [b] |>)) (λ _, P).
Proof.
  intros Hb Hs. apply T_modify. intros w Hi HP. split.
  - eapply inv_same; [exact Hi | | done | done | done]. destruct Hi as ([Hr Hn Hp Hf Hbg Hq Hm Hch Hpc] & _). split; try done.
    cbn. intros b' [Hin|Hin%list_elem_of_singleton]%elem_of_app; [by apply Hbg | by subst].
  - eapply Hs; [exact Hi | done | by apply same_quiet].
Qed.

Lemma ro_getValidators f : ro (getValidators f).
Proof.
  unfold getValidators, milestoneValidators. apply ro_bind; [apply ro_gets |]. intros n.
  apply ro_bind; [apply ro_gets |]. intros vs. apply ro_bind; [apply ro_lift |]. intros l. apply ro_lift.
Qed.

Lemma T_vote t hasVote value :
  T (λ w, voting ProofOf p0 w t value) (vote t hasVote value) (λ _ w, voting ProofOf p0 w t value).
Proof.
  unfold vote. apply T_drop; [apply ro_gets |]. intros c.
  eapply T_bind; [apply T_esat; [apply (getRoundState_esat _ _ _ _ (λ w, voting ProofOf p0 w t value)) | apply stable_voting] |].
  intros l. apply T_drop; [apply ro_getRS |]. intros r. apply T_drop; [apply ro_getValidators |]. intros vs.
  eapply T_weaken; [apply (T_forEach (λ w, voting ProofOf p0 w t value)) | by intros w _ [] | done].
  intros [key i]. apply T_ro_bind; [apply ro_gets |]. intros c'.
  apply (T_bind _ _ _ (λ m w, voting ProofOf p0 w t value ∧ msgOk m)).
  - apply T_await; [| intros m; apply stable_and; [apply stable_voting | apply stable_const]].
    eapply T_weaken; [apply T_signVote | | done]. by intros w _ [Hv [= <-]].
  - intros m. apply (T_bind _ _ _ (λ _ w, voting ProofOf p0 w t value ∧ msgOk m)).
    + apply T_await; [| intros _; apply stable_and; [apply stable_voting | apply stable_const]].
      apply T_silent; [apply silent_storage | apply stable_and; [apply stable_voting | apply stable_const]].
    + intros [] w [Hi [Hv Hm]]. revert w Hi Hv. intros w Hi Hv.
      exact (T_background _ (BMessage m) Hm (stable_voting t value) w (conj Hi Hv)).
Qed.

(** A vote at a recorded, fresh step. *)
Lemma T_cast t hasVote value :
  T (λ w, fresh w t ∧ persisted w t ∧ justified ProofOf w t value)
    (await (vote t hasVote value)) (λ _ _, True).
Proof.
  apply T_await; [| intros ?; apply stable_true].
  eapply T_weaken; [apply T_vote | | done]. intros w _ (Hf & Hp & Hj). by apply fresh_voting.
Qed.

Lemma T_cast_nil t hasVote (P : World → Prop) :
  (∀ w, P w → fresh w t ∧ persisted w t) → T P (await (vote t hasVote None)) (λ _ _, True).
Proof. intros HP. eapply T_weaken; [apply T_cast | | done]. intros w _ Hw. by destruct (HP w Hw). Qed.

(** ** Moving to the next step of the round *)
Lemma step_fresh w w' t :
  Inv w → sameEvidence w w' → k_blockNumber (w_core w') = k_blockNumber (w_core w) →
  k_round (w_core w') = k_round (w_core w) → stepZ (k_step (w_core w)) < t →
  stepZ (k_step (w_core w')) = t → (t = MessageType_Prevote ∨ t = MessageType_Precommit) → fresh w' t.
Proof.
  intros (_ & Htr & H0) [_ Ht] Hn Hr Hlt Hs Hty. split; [done |]. split.
  { unfold posLe, pos in *. cbn in *. rewrite Hn, Hr, Hs. lia. }
  split; [done |]. rewrite Ht, Hn, Hr.
  intros d Hd Heq. pose proof (tr_pos _ _ _ _ Htr d Hd) as Hp. rewrite Heq in Hp. unfold posLe, pos in Hp. cbn in Hp. lia.
Qed.

Lemma T_setStep (P : World → Prop) s t (Q : World → Prop) :
  stepZ s = t → (t = MessageType_Prevote ∨ t = MessageType_Precommit) →
  (∀ w, P w → stepZ (k_step (w_core w)) < t) →
  (∀ w, Inv w → P w → Q (w <| w_core ::= λ c, c <| k_step := s |> |>)) →
  T P (setCore (λ c, c <| k_step := s |>)) (λ _ w, fresh w t ∧ Q w).
Proof.
  intros Hs Hty Hlt HQ. apply T_modify. intros w Hi HP. specialize (Hlt w HP). set (w' := w <| w_core ::= _ |>).
  assert (posLe (pos w) (pos w')) as Hle by (unfold posLe, pos; cbn; rewrite Hs; lia).
  assert (sameEvidence w w') as Hse by done.
  split; [| split].
  - destruct Hi as (Hok & Htr & Hp). split; [by apply heap_core |]. split; [by apply (trace_advance _ _ _ w) | by etransitivity].
  - by apply (step_fresh w).
  - by apply HQ.
Qed.

(** ** The rules of a round *)
Lemma getRS_inv l r w : (getRS l w).1 = Ok r → w_rounds w !! l = Some r.
Proof. unfold getRS, mbind, M_bind, get, liftR. cbn. destruct (w_rounds w !! l); [by intros [= ->] | done]. Qed.

Lemma T_getRS {B} (P : World → Prop) l (f : RoundState → M World B) Q :
  (∀ r, T (λ w, P w ∧ w_rounds w !! l = Some r) (f r) Q) → T P (r ← getRS l; f r) Q.
Proof.
  intros Hf. apply T_ro_bind; [apply ro_getRS |]. intros r. eapply T_weaken; [apply Hf | | done].
  intros w _ [HP Hr]. split; [done | by apply getRS_inv].
Qed.

Lemma T_core {B} (P : World → Prop) (f : Core → M World B) Q :
  (∀ c, T (λ w, P w ∧ w_core w = c) (f c) Q) → T P (c ← gets w_core; f c) Q.
Proof.
  intros Hf. apply T_ro_bind; [apply ro_gets |]. intros c. eapply T_weaken; [apply Hf | | done].
  intros w _ [HP [= <-]]. done.
Qed.

Lemma T_skip (P : World → Prop) : T P (mret tt) (λ _ _, True).
Proof. by apply T_ret. Qed.

Lemma traceFree_true : traceFree (λ _, True).
Proof. split; [apply stable_true | done]. Qed.

(** The new position is recorded and announced. *)
Lemma T_announce t n (K : World → Prop) :
  traceFree K →
  T (λ w, fresh w t ∧ K w) (persistState;; dispatch n) (λ _ w, (fresh w t ∧ persisted w t) ∧ K w).
Proof.
  intros HK. eapply T_bind; [by apply T_persist |]. intros [].
  apply T_dispatch, stable_and; [apply stable_and; [apply stable_fresh | apply stable_persisted] | apply HK].
Qed.

(** The step moves, is recorded and announced. *)
Lemma T_enterStep (P : World → Prop) s t n :
  stepZ s = t → (t = MessageType_Prevote ∨ t = MessageType_Precommit) →
  (∀ w, P w → stepZ (k_step (w_core w)) < t) →
  T P (setCore (λ c, c <| k_step := s |>);; persistState;; dispatch n) (λ _ w, fresh w t ∧ persisted w t).
Proof.
  intros Hs Hty Hlt.
  eapply T_bind; [apply (T_setStep P s t (λ _, True) Hs Hty Hlt); done |]. intros [].
  eapply T_weaken; [apply (T_announce t n _ traceFree_true) | done | by intros ? w _ []].
Qed.

Lemma M_assoc3 {A B C D} (a : M World A) (b : M World B) (c : M World C) (d : M World D) w :
  (a;; b;; c;; d) w = ((a;; b;; c);; d) w.
Proof.
  unfold mbind, M_bind. destruct (a w) as [[?|?] w1]; [| done]. destruct (b w1) as [[?|?] w2]; [| done].
  by destruct (c w2) as [[?|?] w3].
Qed.

Lemma T_seq2 {A B C} P (a : M World A) (b : M World B) (c : M World C) R Q :
  T P (a;; b) R → (∀ x, T (R x) c Q) → T P (a;; b;; c) Q.
Proof.
  intros H1 H2 w Hw. assert ((a;; b;; c) w = ((a;; b);; c) w) as ->.
  { unfold mbind, M_bind. destruct (a w) as [[?|?] w1]; [| done]. by destruct (b w1) as [[?|?] w2]. }
  revert w Hw. eapply T_bind; [exact H1 | done].
Qed.

Lemma T_seq3 {A B C D} P (a : M World A) (b : M World B) (c : M World C) (d : M World D) R Q :
  T P (a;; b;; c) (λ _, R) → T R d Q → T P (a;; b;; c;; d) Q.
Proof.
  intros H1 H2 w Hw. rewrite M_assoc3. revert w Hw. eapply T_bind; [exact H1 |]. by intros ?.
Qed.

Lemma ro_future b : ro (isFromFuture b).
Proof. done. Qed.

Lemma T_onProposal l : T (λ _, True) (onProposal l) (λ _ _, True).
Proof.
  unfold onProposal, prevote. apply T_getRS. intros r. apply T_core. intros c.
  destruct (getProposal r) as [p|]; [| apply T_skip].
  destruct (negb _) eqn:Hg; [apply T_skip |]. simpl_bool.
  eapply T_seq3; [apply (T_enterStep _ Prevote MessageType_Prevote); [done | by left |] |].
  { intros w [_ ->]. by rewrite H0. }
  apply T_ro_bind; [apply ro_core |]. intros locked.
  destruct locked as [l'|]; cbn [isSome]; [apply T_cast_nil; intros w [Hfp _]; exact Hfp |].
  apply T_drop; [apply ro_future |]. intros future. destruct future; [apply T_cast_nil; intros w [Hfp _]; exact Hfp |].
  apply T_drop; [apply ro_getRS |]. intros r'. apply T_drop; [apply ro_lift |]. intros res.
  eapply T_weaken; [apply T_cast | | done]. intros w _ [[Hf Hp] [= Hl]]. split; [done |]. split; [done |].
  destruct (bpr_success res); [| done]. split; [done |]. intros _ l'. by rewrite Hl.
Qed.

(** A re-proposal that the lock allows is justified. *)
Lemma allowed_justified w l n rd p v res r :
  Inv w → fresh w MessageType_Prevote → proposedAt l n rd p w →
  n = k_blockNumber (w_core w) → v < k_round (w_core w) → p_validRound p = Some v →
  isAllowedByLock w (k_lockedValue (w_core w)) v (p_hash p) = true →
  w_rounds w !! l = Some r → rs_processorResult r = Some res → bpr_success res = true →
  justified ProofOf w MessageType_Prevote (Some (p_hash p)).
Proof.
  intros (Hok & Htr & _) Hf (r' & p' & Hr' & Hn & Hrd & Hp' & Hb) -> Hv Hvr Hall Hr Hres Hsucc. split; [done |].
  intros _ l0 Hl0. destruct (tr_locked _ _ _ _ Htr l0 Hl0) as (rd0 & h0 & Hlocked & _). exists rd0, h0. split; [done |].
  rewrite Hl0 in Hall. unfold isAllowedByLock in Hall. destruct Hlocked as (r0 & q & Hr0 & _ & Hrd0 & Hq & Hh0 & _).
  rewrite Hr0, Hq in Hall. apply orb_true_iff in Hall as [Hle|Heq].
  - right. exists v. apply Z.leb_le in Hle. split; [lia |].
    rewrite Hr in Hr'. injection Hr' as <-. pose proof (ho_rounds _ _ _ _ _ Hok l r Hr) as Hro.
    assert (p_validRound p' = Some v) as Hv' by (change (p_validRound (bare p') = Some v); by rewrite Hb).
    pose proof (ro_proof _ _ _ Hro res p' v Hres Hsucc Hp' Hv') as Hproof.
    rewrite (bare_hash _ _ Hb) in Hproof.
    destruct (ro_proposal _ _ _ Hro p' Hp') as [_ Hpn _ _]. rewrite Hpn, Hn in Hproof. done.
  - left. apply String.eqb_eq in Heq. congruence.
Qed.

Lemma T_onProposalLocked l : T (λ _, True) (onProposalLocked l) (λ _ _, True).
Proof.
  unfold onProposalLocked, prevote. apply T_getRS. intros r. apply T_core. intros c.
  destruct (getProposal r) as [p|] eqn:Hp; [| apply T_skip].
  destruct (p_lockProof p) as [lp|]; [| apply T_skip].
  destruct (p_validRound p) as [v|] eqn:Hv; [| apply T_skip].
  destruct (negb _) eqn:Hg; [apply T_skip |]. simpl_bool. unfold isCurrentRoundState in *. simpl_bool.
  set (K := λ w, proposedAt l (k_blockNumber c) (k_round c) p w ∧
                 k_blockNumber (w_core w) = k_blockNumber c ∧ k_round (w_core w) = k_round c).
  assert (stable K) as HK.
  { apply stable_and; [apply stable_proposed |].
    apply (stable_core (λ n rd _ _, n = k_blockNumber c ∧ rd = k_round c)). }
  apply (T_bind _ _ _ (λ _ w, fresh w MessageType_Prevote ∧ K w)).
  { apply T_setStep; [done | by left | |].
    - intros w [_ ->]. by rewrite H0.
    - intros w _ [[_ Hr] Hc]. unfold K. cbn. rewrite Hc. split; [| done]. exists r, p. split; [exact Hr |].
      repeat split; try congruence. done. }
  intros []. eapply T_seq2; [by apply T_announce |]. intros [].
  apply T_ro_bind; [apply ro_core |]. intros locked. apply T_ro_bind; [apply ro_get |]. intros w0.
  apply T_getRS. intros r'.
  apply T_ro_bind; [destruct (isAllowedByLock _ _ _ _); [| apply ro_ret]; apply ro_bind; [apply ro_lift | intros ?; apply ro_ret] |].
  intros success. destruct success.
  2: { apply T_cast_nil. intros w Hw. exact (proj1 (proj1 (proj1 (proj1 (proj1 Hw))))). }
  eapply T_weaken; [apply T_cast | | done].
  intros w Hi [[[[[[Hf Hper] (Hprop & Hn & Hrd)] Hlk] Hw0] Hr'] Hs].
  injection Hlk as Hlk. injection Hw0 as <-. split; [done |]. split; [done |].
  destruct (isAllowedByLock w locked v (p_hash p)) eqn:Hall; [| done].
  unfold mbind, M_bind, liftR, getProcessorResult in Hs. destruct (rs_processorResult r') as [res|] eqn:Hres; [| done].
  injection Hs as Hs. apply (allowed_justified w l (k_blockNumber c) (k_round c) p v res r'); try done.
  - by rewrite Hrd.
  - by rewrite Hlk.
Qed.

(** A majority by the count is a quorum of distinct voters. *)
Lemma count_quorum t r messages counts h :
  votesOk Genuine t r messages counts →
  rsIsMajority roundValidatorsAt r (default 0 (mapGet counts (Some h))) = true → quorumFor r messages h.
Proof.
  intros [Hk Hc _]. unfold rsIsMajority, quorumFor, quorum. rewrite Hc, size_voters by done. done.
Qed.

Lemma prevotes_quorum r p :
  roundOk r → rs_proposal r = Some p → hasMajorityPrevotes roundValidatorsAt r = true →
  quorumFor r (rs_prevotes r) (p_hash p).
Proof.
  intros Hr Hp (p' & Hp' & _ & Hm)%hasMajorityPrevotes_inv. rewrite Hp in Hp'. injection Hp' as <-.
  eapply count_quorum; [apply Hr | exact Hm].
Qed.

Lemma precommits_quorum r p :
  roundOk r → rs_proposal r = Some p → hasMajorityPrecommits roundValidatorsAt r = true →
  quorumFor r (rs_precommits r) (p_hash p).
Proof.
  intros Hr Hp (p' & Hp' & _ & Hm)%hasMajorityPrecommits_inv. rewrite Hp in Hp'. injection Hp' as <-.
  eapply count_quorum; [apply Hr | exact Hm].
Qed.

(** Locking the current round: the step becomes precommit. *)
Definition lockNow (l : Z) (c : Core) : Core :=
  c <| k_lockedValue := Some l |> <| k_validValue := Some l |> <| k_step := Precommit |>.

Lemma T_lockNow (P : World → Prop) l h :
  (∀ w, Inv w → P w → k_step (w_core w) = Prevote ∧ lockedAt w l (k_round (w_core w)) h) →
  T P (setCore (lockNow l))
    (λ _ w, fresh w MessageType_Precommit ∧ (k_lockedValue (w_core w) = Some l ∧ lockedAt w l (k_round (w_core w)) h)).
Proof.
  intros HP. apply T_modify. intros w Hi HPw. destruct (HP w Hi HPw) as [Hs Hl].
  set (w' := w <| w_core ::= _ |>). assert (sameEvidence w w') as Hse by done.
  assert (lockedAt w' l (k_round (w_core w)) h) as Hl' by exact Hl.
  split; [| split; [| done]].
  - destruct Hi as (Hok & Htr & Hp). split; [by apply heap_core |]. split.
    + by apply (trace_lock ProofOf CommitOf p0 w w' l h).
    + etransitivity; [exact Hp |]. unfold posLe, pos. cbn. rewrite Hs. cbn. lia.
  - apply (step_fresh w); try done; [by rewrite Hs | by right].
Qed.

Lemma T_onMajorityPrevote l :
  T (λ w, ∃ r, w_rounds w !! l = Some r ∧ hasMajorityPrevotes roundValidatorsAt r = true)
    (onMajorityPrevote l) (λ _ _, True).
Proof.
  unfold onMajorityPrevote, precommit. apply T_getRS. intros r. apply T_core. intros c.
  destruct (getProposal r) as [p|] eqn:Hp; [| apply T_skip].
  destruct (negb (_ && _ && _)) eqn:Hg; [apply T_skip |]. simpl_bool. unfold isCurrentRoundState in *. simpl_bool.
  apply T_drop; [apply ro_lift |]. intros res. destruct (negb _); [apply T_skip |].
  apply (T_bind _ _ _ (λ _ w, lockedAt w l (k_round (w_core w)) (p_hash p) ∧ k_step (w_core w) = k_step c)).
  { eapply T_weaken; [apply (T_setCore_same (λ w, lockedAt w l (k_round (w_core w)) (p_hash p) ∧ k_step (w_core w) = k_step c)) | | done].
    - done.
    - apply stable_and; [| apply (stable_core (λ _ _ s _, s = k_step c))].
      intros w w' Hi Hl Hq. rewrite (sp_round _ _ (qu_core _ _ Hq)). by eapply stable_locked.
    - intros w Hi [[(r0 & Hr0 & Hm) Hr] Hc]. rewrite Hr in Hr0. injection Hr0 as <-. rewrite Hc.
      split; [| done]. exists r, p. rewrite Hc.
      pose proof (ho_rounds _ _ _ _ _ (proj1 Hi) l r Hr) as Hro.
      repeat split; try done. by apply prevotes_quorum. }
  intros []. case_bool_decide as Hstep.
  - eapply T_bind; [apply (T_lockNow _ l (p_hash p)); intros w _ [Hl Hs]; split; [congruence | exact Hl] |]. intros [].
    eapply T_seq2; [apply T_announce |].
    { split.
      - intros w w' Hi [Hl Hk] Hq. pose proof (qu_core _ _ Hq) as [_ Hrd _ Hlk]. rewrite Hrd, Hlk.
        split; [done | by eapply stable_locked].
      - done. }
    intros []. eapply T_weaken; [apply T_cast | | done].
    intros w _ [[Hf Hper] [Hl Hk]]. split; [done |]. split; [done |]. split; [intros _; eauto | done].
  - eapply T_bind; [apply T_pre, (T_setCore_same (λ _, True)); [done | apply stable_true] |]. intros [].
    eapply T_bind; [apply T_persist_any |]. intros []. apply T_dispatch, stable_true.
Qed.

Lemma silent_schedulePrevote n r w : silent w (scheduleTimeoutPrevote n r w).2.
Proof.
  unfold scheduleTimeoutPrevote. apply silent_bind; [apply silent_ro, ro_gets |]. intros sch.
  destruct (isSome _); [intros w1; apply silent_refl |]. apply silent_bind; [by apply silent_ro |]. intros d.
  apply silent_bind; [apply silent_scheduler |]. intros _ w1. apply silent_refl.
Qed.

Lemma silent_schedulePrecommit n r w : silent w (scheduleTimeoutPrecommit n r w).2.
Proof.
  unfold scheduleTimeoutPrecommit. apply silent_bind; [apply silent_ro, ro_gets |]. intros sch.
  destruct (isSome _); [intros w1; apply silent_refl |]. apply silent_bind; [by apply silent_ro |]. intros d.
  apply silent_bind; [apply silent_scheduler |]. intros _ w1. apply silent_refl.
Qed.

Lemma T_onMajorityPrevoteAny l : T (λ _, True) (onMajorityPrevoteAny l) (λ _ _, True).
Proof.
  unfold onMajorityPrevoteAny. apply T_getRS. intros r. apply T_core. intros c.
  destruct (negb _); [apply T_skip |].
  eapply T_bind; [apply T_pre, (T_silent (λ _, True)); [apply silent_schedulePrevote | apply stable_true] |].
  intros b. apply T_when; [intros _; apply T_dispatch, stable_true | done].
Qed.

Lemma T_onMajorityPrecommitAny l : T (λ _, True) (onMajorityPrecommitAny l) (λ _ _, True).
Proof.
  unfold onMajorityPrecommitAny. apply T_getRS. intros r. apply T_core. intros c.
  destruct (negb _); [apply T_skip |].
  eapply T_bind; [apply T_pre, (T_silent (λ _, True)); [apply silent_schedulePrecommit | apply stable_true] |].
  intros b. apply T_when; [intros _; apply T_dispatch, stable_true | done].
Qed.

Lemma T_onMajorityPrevoteNull l : T (λ _, True) (onMajorityPrevoteNull l) (λ _ _, True).
Proof.
  unfold onMajorityPrevoteNull, precommit. apply T_getRS. intros r. apply T_core. intros c.
  destruct (negb _) eqn:Hg; [apply T_skip |]. simpl_bool.
  eapply T_seq3; [apply (T_enterStep _ Precommit MessageType_Precommit); [done | by right |] |].
  { intros w [_ ->]. by rewrite H0. }
  by apply T_cast_nil.
Qed.

Lemma T_onMajorityPrecommitWithoutProposal l :
  T (λ _, True) (onMajorityPrecommitWithoutProposal l) (λ _ _, True).
Proof.
  unfold onMajorityPrecommitWithoutProposal. apply T_getRS. intros r. apply T_core. intros c.
  destruct (negb _); [apply T_skip |]. apply T_pre, (T_setCore_same (λ _, True)); [done | apply stable_true].
Qed.

(** ** Processing the proposal of a round state *)
Lemma T_onRound {A} (P K : World → Prop) l (m : M RoundState A) :
  (∀ w r, Inv w → P w → w_rounds w !! l = Some r → roundOk (m r).2 ∧ roundLe r (m r).2) →
  stable K → (∀ w, P w → K w) → T P (onRound l m) (λ _, K).
Proof.
  intros Hm HK HP w [Hi HPw]. unfold onRound, getRS, mbind, M_bind, get, liftR.
  destruct (w_rounds w !! l) as [r|] eqn:Hl; cbn [assert_defined]; [| done].
  destruct (Hm w r Hi HPw Hl) as [Hr Hle]. destruct (m r) as [res r']. cbn in Hr, Hle.
  change (modify (λ w, w <| w_rounds ::= <[l := r']> |>) w) with (Ok tt, update l r' w).
  assert (heapLe w (update l r' w)) as Hheap.
  { intros l0 r0 Hl0. cbn. rewrite lookup_insert. case_decide; [subst; exists r' |
      exists r0; split; [done | apply roundLe_refl]]. split; [done |]. congruence. }
  assert (Inv (update l r' w)) as Hi'.
  { destruct Hi as (Hok & Htr & Hp). split; [| split; [| done]].
    - destruct Hle. by eapply update_heapOk.
    - by eapply (trace_mono Genuine ProofOf CommitOf Trusted p0 w). }
  destruct res; [| done]. split; [done |]. eapply HK; [exact Hi | by apply HP |].
  split; [done | done | | done]. exists []. by rewrite app_nil_r.
Qed.

Lemma bare_idem p : bare (bare p) = bare p.
Proof. done. Qed.

Lemma deserialize_round rva r p p' :
  roundOk r → rs_proposal r = Some p →
  deserializePayload rva isAddress txSchemaValid p = Ok p' →
  let r' := r <| rs_proposal := Some p' |> in roundOk r' ∧ roundLe r r'.
Proof.
  intros Hro Hp Hd r'. destruct (ro_proposal _ _ _ Hro p Hp) as [Hb Hn Hrd Hpl].
  assert (bare p' = bare p ∧ ∀ pl, p_payload p' = Some pl → b_header (pp_block pl) = p_blockHeader p) as [Hbare Hpl'].
  { destruct (p_payload p) as [pl|] eqn:Hpay.
    - unfold deserializePayload in Hd. rewrite Hpay in Hd. injection Hd as <-. split; [done |].
      intros pl' Hpl'. rewrite Hpay in Hpl'. injection Hpl' as <-. by apply Hpl.
    - destruct Hb as [rva0 Hb]. assert (bare p = p) as Hbp by (destruct p; cbn in *; by subst). rewrite Hbp in Hb.
      destruct (deserialize_agrees rva0 isAddress txSchemaValid rva _ p p' Hb Hd) as (pl & -> & Hh & _).
      split; [done |]. by intros pl' [= <-]. }
  assert (p_serialized p' = p_serialized p) as Hser by (change (p_serialized (bare p') = p_serialized (bare p)); by rewrite Hbare).
  assert (p_blockNumber p' = p_blockNumber p ∧ p_round p' = p_round p ∧ p_blockHeader p' = p_blockHeader p) as (Hbn & Hbr & Hbh).
  { change (p_blockNumber (bare p') = p_blockNumber (bare p) ∧ p_round (bare p') = p_round (bare p) ∧
      p_blockHeader (bare p') = p_blockHeader (bare p)). by rewrite Hbare. }
  assert (p_validRound p' = p_validRound p ∧ p_hash p' = p_hash p) as [Hvr Hhs].
  { change (p_validRound (bare p') = p_validRound (bare p) ∧ p_hash (bare p') = p_hash (bare p)). by rewrite Hbare. }
  destruct Hro as [Hv Hc _ Hrs Hpf]. subst r'. split; [split |]; cbn.
  - by eapply votesOk_same.
  - by eapply votesOk_same.
  - intros q [= <-]. split; [| cbn; congruence | cbn; congruence |].
    + destruct Hb as [rva0 Hb]. exists rva0. by rewrite Hser, Hbare.
    + intros pl Hq. rewrite Hbh. by apply Hpl'.
  - eauto.
  - intros res q v Hres Hsucc [= <-] Hq. rewrite Hbn, Hhs. rewrite Hvr in Hq. by apply (Hpf res p).
  - split; cbn; [done | done | | apply votesLe_refl | apply votesLe_refl | done].
    intros q Hq. rewrite Hp in Hq. injection Hq as <-. eauto.
Qed.

Lemma result_round r res :
  roundOk r →
  (bpr_success res = true → ∃ p, rs_proposal r = Some p ∧
     ∀ v, p_validRound p = Some v → ProofOf (p_blockNumber p) v (p_hash p)) →
  let r' := r <| rs_processorResult := Some res |> in roundOk r' ∧ roundLe r r'.
Proof.
  intros Hro Hsucc r'. destruct Hro as [Hv Hc Hp _ _]. subst r'. split; [split |]; cbn.
  - by eapply votesOk_same.
  - by eapply votesOk_same.
  - intros p Hp'. destruct (Hp p Hp'). by split.
  - intros res' [= <-] Hs. destruct (Hsucc Hs) as (p & Hp' & _). eauto.
  - intros res' p v [= <-] Hs Hp' Hvr. destruct (Hsucc Hs) as (p'' & Hp'' & Hproof).
    rewrite Hp' in Hp''. injection Hp'' as <-. by apply Hproof.
  - split; cbn; [done | done | eauto | apply votesLe_refl | apply votesLe_refl | done].
Qed.

Lemma T_setFailed (P : World → Prop) l :
  T P (onRound l (setProcessorResult failedProcessorResult)) (λ _ _, True).
Proof.
  apply T_onRound; [| apply stable_true | done]. intros w r Hi _ Hr. apply result_round; [| done].
  exact (ho_rounds _ _ _ _ _ (proj1 Hi) l r Hr).
Qed.

Lemma proposed_built l n rd p w : Inv w → proposedAt l n rd p w → built p.
Proof.
  intros (Hok & _) (r & p' & Hr & _ & _ & Hp & Hb).
  destruct (ro_proposal _ _ _ (ho_rounds _ _ _ _ _ Hok l r Hr) p' Hp) as [[rva Hm] _ _ _]. exists rva.
  rewrite <- Hb. change (p_serialized p) with (p_serialized (bare p)). by rewrite <- Hb.
Qed.

Lemma T_processProposal l : T (λ _, True) (processProposal l) (λ _ _, True).
Proof.
  unfold processProposal. apply T_getRS. intros r.
  destruct (hasProcessorResult r) eqn:Hres; [apply T_skip |].
  destruct (getProposal r) as [p|] eqn:Hp; [| apply T_skip].
  apply T_catch; [| intros e; apply T_setFailed].
  set (K := proposedAt l (rs_blockNumber r) (rs_round r) p).
  apply (T_bind _ _ _ (λ _, K)).
  { apply T_await; [| intros _; apply stable_proposed]. unfold deserializeProposal.
    apply T_drop; [apply ro_gets |]. intros chain. apply T_ro_bind; [apply ro_lift |]. intros p'.
    apply (T_onRound _ K); [| apply stable_proposed |].
    - intros w r' Hi [[_ Hr] Hd] Hr'. rewrite Hr in Hr'. injection Hr' as <-.
      apply (deserialize_round (roundValidatorsOr chain) r p p'); try done.
      exact (ho_rounds _ _ _ _ _ (proj1 Hi) l r Hr).
    - intros w [[_ Hr] _]. exists r, p. done. }
  intros [].
  set (V := λ valid : bool, valid = true → ∀ v, p_validRound p = Some v → ProofOf (p_blockNumber p) v (p_hash p)).
  apply (T_bind _ _ _ (λ valid w, K w ∧ V valid)).
  { apply T_await; [| intros valid; apply stable_and; [apply stable_proposed | apply stable_const]].
    eapply T_weaken; [apply (T_ro K), ro_lockProof | done |].
    intros valid w Hi [HK Hv]. split; [done |]. intros -> v Hvr.
    apply (genuine_proof w); [apply Hi | by eapply proposed_built | done | done]. }
  intros valid. destruct valid; cbn [negb]; [| apply T_setFailed].
  apply T_drop; [apply ro_getRS |]. intros r1. apply T_drop; [apply ro_lift |]. intros block.
  apply T_drop; [apply ro_gets |]. intros chain.
  apply (T_bind _ _ _ (λ _ w, K w ∧ V true)).
  { apply T_await; [by apply T_ret | intros _; apply stable_and; [apply stable_proposed | apply stable_const]]. }
  intros res. apply T_onRound; [| apply stable_true | done].
  intros w r2 Hi [(r3 & p3 & Hr3 & _ & _ & Hp3 & Hb3) HV] Hr2. rewrite Hr2 in Hr3. injection Hr3 as <-.
  apply result_round; [exact (ho_rounds _ _ _ _ _ (proj1 Hi) l r2 Hr2) |]. intros _. exists p3. split; [done |].
  intros v Hv. assert (p_validRound p = Some v) as Hv' by (change (p_validRound (bare p) = Some v); by rewrite <- Hb3).
  change (p_blockNumber p3) with (p_blockNumber (bare p3)). change (p_hash p3) with (p_hash (bare p3)).
  rewrite Hb3. by apply HV.
Qed.

(** ** Starting a round *)
Lemma ro_catch {A} (m : M World A) h : ro m → (∀ e, ro (h e)) → ro (tryCatch m h).
Proof.
  intros Hm Hh w. specialize (Hm w). unfold tryCatch. destruct (m w) as [[a|e] w1]; cbn in *; subst; [done |].
  destruct e; try apply Hh. done.
Qed.

Lemma ro_nextTimestamp t r : ro (getNextBlockTimestamp t r).
Proof. unfold getNextBlockTimestamp. apply ro_bind; [done |]. intros ?. apply ro_bind; [apply ro_minimal | done]. Qed.

Lemma ro_createProposal l key : ro (createProposal l key).
Proof.
  unfold createProposal. apply ro_bind; [apply ro_gets |]. intros c. apply ro_bind; [apply ro_getRS |]. intros r.
  apply ro_bind; [apply ro_lift |]. intros proposer. apply ro_bind; [apply ro_gets |]. intros chain.
  apply ro_bind; [apply ro_lift |]. intros i. cbv zeta. destruct (k_validValue c).
  - apply ro_bind; [apply ro_getRS |]. intros v. do 2 (apply ro_bind; [apply ro_lift |]; intros ?). apply ro_lift.
  - apply ro_bind; [apply ro_nextTimestamp |]. intros t. do 4 (apply ro_bind; [apply ro_lift |]; intros ?). apply ro_lift.
Qed.

Lemma makeProposal_ok rva bls rd v ser i key p :
  makeProposal rva isAddress bls rd v ser i key = Ok p → built p ∧ p_payload p = None.
Proof.
  unfold makeProposal. destruct (negb _); [done |]. intros (bs & _ & Hk)%bind_Ok. by eapply factoryProposal_ok.
Qed.

Lemma createProposal_ok l key w p : (createProposal l key w).1 = Ok p → built p ∧ p_payload p = None.
Proof.
  unfold createProposal. intros (c & w1 & _ & Hk)%M_bind_Ok. apply M_bind_Ok in Hk as (r & w2 & _ & Hk).
  apply M_bind_Ok in Hk as (pr & w3 & _ & Hk). apply M_bind_Ok in Hk as (ch & w4 & _ & Hk).
  apply M_bind_Ok in Hk as (i & w5 & _ & Hk). cbv zeta in Hk. destruct (k_validValue c).
  - do 3 (apply M_bind_Ok in Hk as (? & ? & _ & Hk)). cbn in Hk. apply bind_Ok in Hk as (? & _ & Hk).
    by eapply makeProposal_ok.
  - do 5 (apply M_bind_Ok in Hk as (? & ? & _ & Hk)). exact (makeProposal_ok _ _ _ _ _ _ _ _ Hk).
Qed.

Lemma T_prepareProposal l : T (λ _, True) (prepareProposal l) (λ _ _, True).
Proof.
  unfold prepareProposal. apply T_drop; [apply ro_getRS |]. intros r. destruct (hasProposal r); [apply T_skip |].
  apply T_drop; [apply ro_lift |]. intros proposer. destruct (validatorKey _) as [key|]; [| apply T_skip].
  apply T_ro_bind.
  { apply ro_catch; [apply ro_bind; [apply ro_createProposal | intros ?; apply ro_ret] | intros e; apply ro_ret]. }
  intros proposal.
  assert (∀ w, (tryCatch (p ← createProposal l key; mret (Some p)) (λ _, mret None) w).1 = Ok proposal →
    ∀ p, proposal = Some p → built p ∧ p_payload p = None) as Hprop.
  { intros w Hc p ->. unfold tryCatch, mbind, M_bind in Hc. destruct (createProposal l key w) as [[q|e] w1] eqn:Hq.
    - injection Hc as ->. apply (createProposal_ok l key w). by rewrite Hq.
    - by destruct e. }
  apply (T_bind _ _ _ (λ k w, w_next w = k ∧ ∀ p, proposal = Some p → built p ∧ p_payload p = None)).
  { intros w [Hi [_ Hc]]. split; [done |]. split; [done |]. by eapply Hprop. }
  intros k. eapply T_bind; [| intros []; apply T_pre, (T_setCore_same (λ _, True)); [done | apply stable_true]].
  apply (T_modify _ _ (λ _, True)). intros w Hi [Hk Hp]. split; [| done].
  eapply inv_same; [exact Hi | | done | done | done]. destruct Hi as ([Hr Hn Hre Hf Hb Hq Hm Hch Hpc] & _).
  split; try done; cbn.
  - intros l0 Hl0. specialize (Hn l0 Hl0). lia.
  - intros k' p'. rewrite lookup_insert. case_decide; [intros [= ->]; by apply Hp | apply Hq].
  - intros l0 cs Hl0. destruct (Hm l0 cs Hl0). split; [lia | done].
Qed.

Lemma silent_scheduleBlockPrepare t w : silent w (scheduleTimeoutBlockPrepare t w).2.
Proof.
  unfold scheduleTimeoutBlockPrepare. apply silent_bind; [apply silent_ro, ro_gets |]. intros sch.
  destruct (isSome _); [intros w1; apply silent_refl |]. apply silent_bind; [apply silent_ro, ro_gets |]. intros d.
  apply silent_bind; [apply silent_scheduler |]. intros _ w1. apply silent_refl.
Qed.

Lemma T_getRoundState n rd (P : World → Prop) :
  stable P → T P (getRoundState n rd) (λ l w, P w ∧ namedAt n rd l w).
Proof. intros Hs. apply T_esat; [apply getRoundState_esat | done]. Qed.

Lemma T_beginRound : T (λ _, True) beginRound (λ _ _, True).
Proof.
  unfold beginRound. apply T_drop; [apply ro_gets |]. intros now.
  eapply T_bind; [apply (T_setCore_same (λ _, True)); [done | apply stable_true] |]. intros [].
  eapply T_bind; [apply (T_silent (λ _, True)); [apply silent_scheduler | apply stable_true] |]. intros [].
  apply T_drop; [apply ro_gets |]. intros c. destruct (k_isDisposed c); [apply T_skip |].
  eapply T_bind; [apply T_getRoundState, stable_true |]. intros l.
  apply T_drop; [apply ro_getRS |]. intros r. apply T_drop; [apply ro_lift |]. intros pr.
  eapply T_bind; [apply T_pre, (T_dispatch (λ _, True)), stable_true |]. intros [].
  apply T_drop; [apply ro_gets |]. intros c'. destruct (negb _); [apply T_skip |].
  apply T_drop; [apply ro_nextTimestamp |]. intros t.
  eapply T_bind; [apply (T_silent (λ _, True)); [apply silent_scheduleBlockPrepare | apply stable_true] |]. intros b.
  apply T_drop; [apply ro_gets |]. intros pend. destruct (pendingHas _ _); [apply T_skip |].
  apply T_await; [apply T_prepareProposal | intros ?; apply stable_true].
Qed.

(** A round may start when every vote, and the lock, lie before it. *)
Record startable (w : World) (round : Z) : Prop := {
  sb_votes : ∀ d, d ∈ signed (w_trace w) → posLe (votePos d) (k_blockNumber (w_core w), round, 0);
  sb_lock : ∀ l, k_lockedValue (w_core w) = Some l → ∃ rd h, lockedAt w l rd h ∧ rd < round;
  sb_pos : posLe p0 (k_blockNumber (w_core w), round, 0);
}.

Lemma T_startRound rules round :
  (∀ l, T (λ _, True) (rules l) (λ _ _, True)) →
  T (λ w, startable w round) (startRound rules round) (λ _ _, True).
Proof.
  intros Hrules. unfold startRound. eapply T_bind.
  { apply (T_modify _ _ (λ _, True)). intros w (Hok & Htr & Hp) [Hv Hl Hp']. split; [| done].
    split; [by apply heap_core |]. split; [| exact Hp'].
    apply (trace_core ProofOf CommitOf p0 w); [done | done | exact Hv | |].
    - intros d h Hd Hd2 Hd3 Hd4. by apply (tr_lock _ _ _ _ Htr).
    - intros l Hl'. destruct (Hl l Hl') as (rd & h & Hlk & Hlt). exists rd, h. split; [exact Hlk |].
      unfold posLe, pos. cbn. lia. }
  intros []. eapply T_bind; [apply T_when; [intros _; apply T_persist_any | done] |]. intros [].
  eapply T_bind; [apply T_await; [apply T_beginRound | intros ?; apply stable_true] |]. intros [].
  apply T_drop; [apply ro_gets |]. intros c. destruct (k_isDisposed c); [apply T_skip |].
  eapply T_bind; [apply T_getRoundState, stable_true |]. intros l. apply T_pre.
  apply T_await; [apply Hrules | intros ?; apply stable_true].
Qed.

(** A later round of the same block may start. *)
Lemma later_startable w round : Inv w → k_round (w_core w) < round → startable w round.
Proof.
  intros (Hok & Htr & Hp) Hlt. assert (posLe (pos w) (k_blockNumber (w_core w), round, 0)) as Hle.
  { unfold posLe, pos. cbn. lia. }
  split; [| | by etransitivity].
  - intros d Hd. etransitivity; [by apply (tr_pos _ _ _ _ Htr) | done].
  - intros l Hl. destruct (tr_locked _ _ _ _ Htr l Hl) as (rd & h & Hlk & Hpos). exists rd, h. split; [done |].
    unfold posLe, pos in Hpos. cbn in Hpos. lia.
Qed.

Lemma T_onMinorityWithHigherRound rules l :
  (∀ l, T (λ _, True) (rules l) (λ _ _, True)) →
  T (λ _, True) (onMinorityWithHigherRound rules l) (λ _ _, True).
Proof.
  intros Hrules. unfold onMinorityWithHigherRound. apply T_getRS. intros r. apply T_core. intros c.
  destruct (negb _) eqn:Hg; [apply T_skip |]. simpl_bool.
  apply T_await; [| intros ?; apply stable_true].
  eapply T_weaken; [by apply T_startRound | | done]. intros w Hi [_ Hc]. apply later_startable; [done |]. by rewrite Hc.
Qed.

(** ** Committing *)
Lemma T_exists {A B} (P : B → World → Prop) (m : M World A) Q :
  (∀ x, T (P x) m Q) → T (λ w, ∃ x, P x w) m Q.
Proof. intros Hm w [Hi [x Hx]]. exact (Hm x w (conj Hi Hx)). Qed.

(** The unit is of block [n] and round [rd], its block has hash [h], and +2/3
    precommitted that. *)
Definition Just (u : ProcessableUnit) (n rd : Z) (h : string) (w : World) : Prop :=
  match u with
  | URound l => decided l n rd h w
  | UCommit l => ∃ cs, w_commits w !! l = Some cs ∧ cs_blockNumber cs = n ∧ cs_round cs = rd ∧
                       b_hash (c_block (cs_commit cs)) = h
  end.

Lemma stable_just u n rd h : stable (Just u n rd h).
Proof.
  destruct u as [l|l]; [apply stable_decided |].
  intros w w' Hi (cs & Hcs & Hrest) Hq. exists cs. split; [by apply Hq | done].
Qed.

Lemma just_evidence u n rd h w : Inv w → Just u n rd h w → CommitOf n rd h ∨ precommittedAt w n rd h.
Proof.
  intros (Hok & _) Hj. destruct u as [l|l].
  - right. destruct Hj as (r & p & Hr & Hn & Hrd & Hp & Hh & Hq). exists l, r. done.
  - left. destruct Hj as (cs & Hcs & <- & <- & <-). by destruct (ho_commits _ _ _ _ _ Hok l cs Hcs) as (_ & ? & _).
Qed.

Lemma getCS_inv l cs w : (getCS l w).1 = Ok cs → w_commits w !! l = Some cs.
Proof. unfold getCS, mbind, M_bind, get, liftR. cbn. destruct (w_commits w !! l); [by intros [= ->] | done]. Qed.

Lemma ro_getCS l : ro (getCS l).
Proof. unfold getCS. apply ro_bind; [apply ro_get | intros ?; apply ro_lift]. Qed.

Lemma ro_unitBlock u : ro (unitBlock u).
Proof. destruct u; (apply ro_bind; [apply ro_getRS || apply ro_getCS |]); intros ?; [apply ro_lift | apply ro_ret]. Qed.
Lemma ro_unitRound u : ro (unitRound u).
Proof. destruct u; (apply ro_bind; [apply ro_getRS || apply ro_getCS |]); intros ?; apply ro_ret. Qed.
Lemma ro_unitBlockNumber u : ro (unitBlockNumber u).
Proof. destruct u; (apply ro_bind; [apply ro_getRS || apply ro_getCS |]); intros ?; apply ro_ret. Qed.
Lemma ro_unitResult u : ro (unitResult u).
Proof.
  destruct u; (apply ro_bind; [apply ro_getRS || apply ro_getCS |]); intros x; [apply ro_lift |].
  destruct (cs_processorResult x); [apply ro_ret | apply ro_throw].
Qed.

Lemma just_block u n rd h w b : Inv w → Just u n rd h w → (unitBlock u w).1 = Ok b → b_hash b = h.
Proof.
  intros (Hok & _) Hj Hb. destruct u as [l|l]; apply M_bind_Ok in Hb as (x & w1 & Hx & Hb).
  - destruct Hj as (r & p & Hr & Hn & Hrd & Hp & Hh & Hq).
    assert (w_rounds w !! l = Some x) as Hx' by (apply getRS_inv; by rewrite Hx). rewrite Hr in Hx'. injection Hx' as <-.
    unfold liftR, getBlock in Hb. rewrite Hp in Hb. cbn in Hb. destruct (isDataDeserialized p) eqn:Hd; [| done].
    unfold getPayload in Hb. destruct (p_payload p) as [pl|] eqn:Hpl; [| done]. injection Hb as <-.
    destruct (ro_proposal _ _ _ (ho_rounds _ _ _ _ _ Hok l r Hr) p Hp) as [_ _ _ Hhead].
    unfold b_hash. rewrite (Hhead pl Hpl). exact Hh.
  - destruct Hj as (cs & Hcs & _ & _ & Hh).
    assert (w_commits w !! l = Some x) as Hx' by (apply getCS_inv; by rewrite Hx). rewrite Hcs in Hx'. injection Hx' as <-.
    by injection Hb as <-.
Qed.

Lemma just_round u n rd h w x : Just u n rd h w → (unitRound u w).1 = Ok x → x = rd.
Proof.
  intros Hj Hb. destruct u as [l|l]; apply M_bind_Ok in Hb as (y & w1 & Hy & Hb); injection Hb as <-.
  - destruct Hj as (r & p & Hr & Hn & <- & _). assert (w_rounds w !! l = Some y) as Hy' by (apply getRS_inv; by rewrite Hy).
    congruence.
  - destruct Hj as (cs & Hcs & _ & <- & _). assert (w_commits w !! l = Some y) as Hy' by (apply getCS_inv; by rewrite Hy).
    congruence.
Qed.

Lemma just_number u n rd h w x : Just u n rd h w → (unitBlockNumber u w).1 = Ok x → x = n.
Proof.
  intros Hj Hb. destruct u as [l|l]; apply M_bind_Ok in Hb as (y & w1 & Hy & Hb); injection Hb as <-.
  - destruct Hj as (r & p & Hr & <- & _). assert (w_rounds w !! l = Some y) as Hy' by (apply getRS_inv; by rewrite Hy).
    congruence.
  - destruct Hj as (cs & Hcs & <- & _). assert (w_commits w !! l = Some y) as Hy' by (apply getCS_inv; by rewrite Hy).
    congruence.
Qed.

Lemma getCommit_round r :
  roundOk r → roundOk (getCommit roundValidatorsAt r).2 ∧ roundLe r (getCommit roundValidatorsAt r).2.
Proof.
  intros Hr. pose proof (roundLe_refl r) as Hrefl.
  assert (∀ c, roundOk (r <| rs_commit := c |>) ∧ roundLe r (r <| rs_commit := c |>)) as Hset.
  { intros c. destruct Hr as [Hv Hc Hp Hrs Hpf]. split; [split |]; cbn; try done.
    - by eapply votesOk_same.
    - by eapply votesOk_same.
    - intros p Hp'. destruct (Hp p Hp'). by split.
    - split; cbn; [done | done | eauto | apply votesLe_refl | apply votesLe_refl | done]. }
  unfold getCommit, mbind, M_bind, get, liftR. destruct (rs_commit r); [done |].
  destruct (assert_defined (getProposal r)); [| done]. destruct (aggregatePrecommits _ _); [| done].
  destruct (getPayload _); [| done]. destruct (serializeCommit _ _); [| done]. apply Hset.
Qed.

Lemma T_unitCommit u (K : World → Prop) : stable K → T K (unitCommit u) (λ _, K).
Proof.
  intros HK. destruct u as [l|l]; cbn [unitCommit].
  - apply T_onRound; [| done | done]. intros w r Hi _ Hr. apply getCommit_round.
    exact (ho_rounds _ _ _ _ _ (proj1 Hi) l r Hr).
  - apply T_drop; [apply ro_getCS |]. intros cs. by apply T_ret.
Qed.

Lemma built_hash p : built p → hexOfLength 64 (p_hash p) = true.
Proof.
  intros [rva Hm]. apply bind_Ok in Hm as (d & _ & Hk). destruct (negb _); [done |].
  apply bind_Ok in Hk as ([hd lp] & Hhd & Hk). destruct (negb _); [done |].
  destruct (from_option _ _ _); [done |].
  apply (f_equal (λ r, match r with Ok q => p_hash q | Throw _ => EmptyString end)) in Hk.
  change (bh_hash hd = p_hash p) in Hk. rewrite <- Hk.
  apply M_bind_Ok in Hhd as (l & s1 & _ & Hhd). apply M_bind_Ok in Hhd as (rest & s2 & _ & Hhd).
  apply M_bind_Ok in Hhd as (hd' & s3 & Hf & Hhd). unfold liftR in Hf. injection Hf as Hf _.
  assert (hd' = hd) as -> by (repeat (case_match; try done); by injection Hhd as <- _).
  apply bind_Ok in Hf as (hd'' & _ & Hf). destruct (blockHeaderSchemaValid _ _) eqn:Hv; [| done].
  injection Hf as ->. unfold blockHeaderSchemaValid in Hv. by simpl_bool.
Qed.

Lemma just_hash u n rd h w : Inv w → Just u n rd h w → hexOfLength 64 h = true.
Proof.
  intros (Hok & _) Hj. destruct u as [l|l].
  - destruct Hj as (r & p & Hr & _ & _ & Hp & <- & _). apply built_hash.
    apply (ro_proposal _ _ _ (ho_rounds _ _ _ _ _ Hok l r Hr) p Hp).
  - destruct Hj as (cs & Hcs & _ & _ & <-). apply (ho_commits _ _ _ _ _ Hok l cs Hcs).
Qed.

Lemma T_onChain {A} (P : World → Prop) (m : M Chain A) :
  stable P → (∀ w, Inv w → P w → Trusted (m (w_chain w)).2) → T P (onChain m) (λ _, P).
Proof.
  intros Hs Htr w [Hi HP]. unfold onChain, zoomM.
  assert (Inv (w <| w_chain := (m (w_chain w)).2 |>)) as Hi'.
  { eapply inv_same; [exact Hi | | done | done | done]. pose proof (Htr w Hi HP).
    destruct Hi as ([] & _). by split. }
  destruct (m (w_chain w)) as [res c].
  destruct res; [| done]. split; [done |]. eapply Hs; [exact Hi | done | by apply same_quiet].
Qed.

Lemma T_accepted (P : World → Prop) ok what : T P (accepted ok what) (λ _, P).
Proof. destruct ok; [by apply T_ret | apply T_throw]. Qed.

Lemma T_emitCommit (P : World → Prop) n rd h :
  (∀ w, Inv w → P w → CommitOf n rd h ∨ precommittedAt w n rd h) → T P (emit (EvCommit n rd h)) (λ _ _, True).
Proof.
  intros Hev. apply T_modify. intros w Hi HP. split; [| done]. specialize (Hev w Hi HP).
  destruct Hi as (Hok & Htr & Hp). split; [by apply heap_emit |]. split; [| exact Hp].
  destruct Htr as [Hty Hpos Hag Hpc Hlk Hld Hpv Hps Hst0 Hrec Hcm].
  split; cbn; rewrite ?signed_snoc_other, ?lastPersist_snoc_other by done; try done.
  - intros pre i d post [(-> & Heq & ->)|(post' & Ht)]%snoc_split; [done | by eapply Hps].
  - intros n' rd' h' [Hin|Hin%list_elem_of_singleton]%elem_of_app; [by apply Hcm |]. by injection Hin as -> -> ->.
Qed.

Lemma T_commitUnit u n rd h : T (Just u n rd h) (commitUnit u) (λ _ _, True).
Proof.
  pose proof (stable_just u n rd h) as HJ. unfold commitUnit.
  eapply T_bind; [apply T_await; [by apply T_unitCommit | by intros ?] |]. intros commit.
  eapply T_bind; [apply T_await; [apply T_accepted | by intros ?] |]. intros ?.
  apply T_ro_bind; [apply ro_unitBlock |]. intros block.
  apply T_ro_bind; [apply ro_unitRound |]. intros round.
  set (J := λ w, Just u n rd h w ∧ b_hash block = h ∧ round = rd).
  assert (stable J) as HJ' by (apply stable_and; [done | apply stable_const]).
  apply (T_bind _ _ _ (λ _, J)).
  { eapply T_weaken; [apply T_await; [apply (T_onChain J); [done |] | by intros ?] | | done].
    { intros w Hi (Hj & Hh & _). apply trusted_store; [apply Hi | rewrite Hh; by eapply just_hash]. }
    intros w Hi [[Hj Hb] Hr]. split; [done |]. split; [by eapply just_block | by eapply just_round]. }
  intros ?. eapply T_bind; [apply T_await; [apply T_accepted | by intros ?] |]. intros ?.
  apply T_ro_bind; [apply ro_unitBlockNumber |]. intros blockNumber. apply T_drop; [apply ro_gets |]. intros m.
  set (J2 := λ w, J w ∧ blockNumber = n).
  assert (stable J2) as HJ2 by (apply stable_and; [done | apply stable_const]).
  apply (T_bind _ _ _ (λ _, J2)).
  { eapply T_weaken; [apply T_await; [apply (T_onChain J2); [done |] | by intros ?] | | done].
    { intros w Hi _. pose proof (trusted_validators (w_chain w) blockNumber m (isNewRoundAt (blockNumber + 1))) as Htv.
      unfold zoomM. destruct (@onCommit _ _ _ _ _) as [res v]. apply Htv, Hi. }
    intros w Hi [Hj Hb]. split; [done |]. eapply just_number; [apply Hj | done]. }
  intros ?. eapply T_bind; [apply T_await; [apply T_accepted | by intros ?] |]. intros ?.
  apply T_emitCommit. intros w Hi [(Hj & -> & ->) ->]. by eapply just_evidence.
Qed.

Lemma inv_lock w b : Inv w → Inv (w <| w_commitLock := b |>).
Proof.
  intros Hi. eapply inv_same; [exact Hi | | done | done | done]. destruct Hi as ([] & _). by split.
Qed.

Lemma T_drain (P : World → Prop) : stable P → T P drain (λ _, P).
Proof.
  intros Hs w [Hi HP]. destruct (drain_ok Genuine ProofOf CommitOf Trusted genuine_vote w) as [Hok He]; [apply Hi |].
  assert (Inv (drain w).2) as Hi' by (by eapply inv_env).
  split; [exact Hi' |]. eapply Hs; [exact Hi | done | by apply env_quiet].
Qed.

Lemma T_runExclusive (P : World → Prop) (m : M World unit) :
  stable P → T P m (λ _ _, True) → T P (runExclusive m) (λ _ _, True).
Proof.
  intros Hs Hm. unfold runExclusive. apply T_drop; [apply ro_gets |]. intros lock.
  destruct lock; [apply T_stuck |].
  apply (T_bind _ _ _ (λ _, P)).
  { apply T_modify. intros w Hi HP. split; [by apply inv_lock |].
    eapply Hs; [exact Hi | done | by apply same_quiet]. }
  intros []. assert (T P (yield;; await drain;; m) (λ _ _, True)) as Hbody.
  { eapply T_bind; [by apply yield_T |]. intros ?.
    eapply T_bind; [apply T_await; [by apply T_drain | by intros ?] |]. intros ?. exact Hm. }
  intros w Hw. specialize (Hbody w Hw). unfold tryFinally. destruct ((yield;; await drain;; m) w) as [[a|e] w'].
  - split; [by apply inv_lock, Hbody | done].
  - by apply inv_lock.
Qed.

(** After a commit: the next block begins without a lock. *)
Definition nextBlock (c : Core) : Core :=
  c <| k_blockNumber ::= Z.succ |> <| k_lockedValue := None |> <| k_validValue := None |>.

Lemma T_nextBlock : T (λ _, True) (setCore nextBlock) (λ _ w, startable w 0).
Proof.
  apply T_modify. intros w (Hok & Htr & Hp) _. set (w' := w <| w_core ::= _ |>).
  assert (∀ d, d ∈ signed (w_trace w) → sm_blockNumber d < k_blockNumber (w_core w')) as Hlt.
  { intros d Hd. pose proof (tr_pos _ _ _ _ Htr d Hd) as Hpos. unfold posLe, pos, votePos in Hpos. cbn in *. lia. }
  assert (posLe (pos w) (k_blockNumber (w_core w'), 0, 0)) as Hle by (unfold posLe, pos; cbn; lia).
  split.
  - split; [by apply heap_core |]. split; [by apply (trace_unlocked ProofOf CommitOf p0 w) |].
    etransitivity; [exact Hp |]. unfold posLe, pos. cbn. lia.
  - split; [| done | by etransitivity]. intros d Hd. left. by apply Hlt.
Qed.

Lemma T_onMajorityPrecommit rules u b n rd h :
  (∀ l, T (λ _, True) (rules l) (λ _ _, True)) →
  T (Just u n rd h) (onMajorityPrecommit rules u b) (λ _ _, True).
Proof.
  intros Hrules. pose proof (stable_just u n rd h) as HJ. unfold onMajorityPrecommit.
  apply T_drop; [apply ro_unitBlockNumber |]. intros bn. apply T_drop; [apply ro_gets |]. intros c.
  destruct (negb _); [apply T_skip |].
  eapply T_bind; [apply T_when; [intros _; by apply T_setCore_same | intros _ w Hw; exact Hw] |]. intros [].
  apply T_drop; [apply ro_unitBlock |]. intros block. apply T_drop; [apply ro_unitResult |]. intros res.
  destruct (negb _); [apply T_skip |].
  eapply T_bind; [by apply T_dispatch |]. intros [].
  apply T_await; [| intros ?; apply stable_true]. apply T_runExclusive; [done |].
  apply (T_bind _ _ _ (λ _ _, True)).
  { apply T_catch; [| intros e; apply T_throw]. apply T_await; [apply T_commitUnit | intros ?; apply stable_true]. }
  intros []. apply (T_bind _ _ _ (λ _ _, True)).
  { apply T_modify. intros w Hi _. split; [| done].
    eapply inv_same; [exact Hi | | done | done | done]. destruct Hi as ([] & _). by split. }
  intros []. eapply T_bind; [apply T_nextBlock |]. intros [].
  apply T_await; [by apply T_startRound | intros ?; apply stable_true].
Qed.

(** ** All rules, all handlers *)
Lemma T_ifRS l test (m : M World unit) :
  T (λ w, ∃ r, w_rounds w !! l = Some r ∧ test r = true) m (λ _ _, True) →
  T (λ _, True) (ifRS l test m) (λ _ _, True).
Proof.
  intros Hm. unfold ifRS. apply T_getRS. intros r. apply T_when; [| done]. intros Ht.
  apply T_await; [| intros ?; apply stable_true]. eapply T_weaken; [exact Hm | | done].
  intros w _ [_ Hr]. eauto.
Qed.

Lemma majority_just l r w :
  Inv w → w_rounds w !! l = Some r → hasMajorityPrecommits roundValidatorsAt r = true →
  ∃ x, Just (URound l) x.1.1 x.1.2 x.2 w.
Proof.
  intros (Hok & _) Hr Hm. pose proof (ho_rounds _ _ _ _ _ Hok l r Hr) as Hro.
  destruct (hasMajorityPrecommits_inv _ _ Hm) as (p & Hp & _).
  exists (rs_blockNumber r, rs_round r, p_hash p). exists r, p. repeat split; try done. by apply precommits_quorum.
Qed.

Lemma T_applyRules fuel l : T (λ _, True) (applyRules fuel l) (λ _ _, True).
Proof.
  revert l; induction fuel as [|fuel IH]; intros l; cbn [applyRules]; [apply T_stuck |].
  apply T_drop; [apply ro_getRS |]. intros r. apply T_drop; [apply ro_gets |]. intros c.
  destruct (negb _); [apply T_skip |].
  eapply T_bind; [apply T_await; [apply T_processProposal | intros ?; apply stable_true] |]. intros [].
  eapply T_bind; [apply T_await; [apply T_onProposal | intros ?; apply stable_true] |]. intros [].
  eapply T_bind; [apply T_await; [apply T_onProposalLocked | intros ?; apply stable_true] |]. intros [].
  eapply T_bind; [apply T_ifRS, T_onMajorityPrevote |]. intros [].
  eapply T_bind; [apply T_ifRS, T_pre, T_onMajorityPrevoteAny |]. intros [].
  eapply T_bind; [apply T_ifRS, T_pre, T_onMajorityPrevoteNull |]. intros [].
  eapply T_bind; [apply T_ifRS, T_pre, T_onMajorityPrecommitAny |]. intros [].
  eapply T_bind; [apply T_ifRS |].
  { eapply T_weaken; [apply (T_exists (λ x, Just (URound l) x.1.1 x.1.2 x.2)); intros x; by apply T_onMajorityPrecommit | | done].
    intros w Hi (r' & Hr' & Hm). by eapply majority_just. }
  intros []. apply T_drop; [apply ro_getRS |]. intros r'.
  eapply T_bind; [apply T_when; [intros _; apply T_onMajorityPrecommitWithoutProposal | done] |]. intros [].
  apply T_ifRS, T_pre. by apply T_onMinorityWithHigherRound.
Qed.

Lemma T_whenRunning (m : M World unit) : T (λ _, True) m (λ _ _, True) → T (λ _, True) (whenRunning m) (λ _ _, True).
Proof.
  intros Hm. unfold whenRunning. apply T_drop; [apply ro_gets |]. intros c. destruct (k_isDisposed c); [apply T_skip | done].
Qed.

Lemma T_processCommitState l n rd h : T (Just (UCommit l) n rd h) (processCommitState l) (λ _, Just (UCommit l) n rd h).
Proof.
  pose proof (stable_just (UCommit l) n rd h) as HJ. unfold processCommitState.
  apply T_drop; [apply ro_getCS |]. intros cs. destruct (isSome _); [by apply T_ret |].
  apply T_drop; [apply ro_gets |]. intros chain.
  apply (T_bind _ _ _ (λ _, Just (UCommit l) n rd h)); [apply T_await; [by apply T_ret | intros ?; exact HJ] |]. intros res.
  apply T_modify. intros w Hi (cs' & Hcs & Hn & Hrd & Hh).
  split.
  - eapply inv_same; [exact Hi | | done | done | done]. destruct Hi as ([Hr Hnx Hre Hf Hb Hq Hm Hch Hpc] & _).
    split; try done. cbn. intros l0 cs0 Hl0. destruct (decide (l = l0)) as [->|Hne].
    + rewrite lookup_alter_eq, Hcs in Hl0. injection Hl0 as <-. exact (Hm l0 cs' Hcs).
    + rewrite lookup_alter_ne in Hl0 by done. by apply Hm.
  - exists (cs' <| cs_processorResult := Some res |>). cbn. by rewrite lookup_alter_eq, Hcs.
Qed.

Lemma ro_logVotes a b : ro (logVotes a b).
Proof.
  unfold logVotes. apply ro_bind; [apply ro_gets |]. intros vs. apply ro_forEach. intros key. apply ro_forEach. intros m.
  case_bool_decide; [| apply ro_ret]. apply ro_bind; [apply ro_lift | intros ?; apply ro_ret].
Qed.
Lemma ro_logPrevotes l : ro (logPrevotes l).
Proof. apply ro_bind; [apply ro_getRS | intros r; apply ro_logVotes]. Qed.
Lemma ro_logPrecommits l : ro (logPrecommits l).
Proof. apply ro_bind; [apply ro_getRS | intros r; apply ro_logVotes]. Qed.

Lemma T_runJob fuel j : T (λ _, True) (runJob fuel j) (λ _ _, True).
Proof.
  destruct j as [l|l|n rd|n rd|n rd]; cbn [runJob];
    unfold handle, handleCommitState, onTimeoutPropose, onTimeoutPrevote, onTimeoutPrecommit.
  - eapply T_bind; [apply (T_setCore_same (λ _, True)); [done | apply stable_true] |]. intros [].
    apply T_whenRunning, T_await; [apply T_applyRules | intros ?; apply stable_true].
  - apply T_whenRunning. apply T_ro_bind; [apply ro_getCS |]. intros cs. apply T_drop; [apply ro_gets |]. intros c.
    destruct (negb _); [apply T_skip |].
    set (J := Just (UCommit l) (cs_blockNumber cs) (cs_round cs) (b_hash (c_block (cs_commit cs)))).
    apply (T_bind _ _ _ (λ _, J)).
    + eapply T_weaken; [apply (T_await _ _ (λ _, J)); [apply T_processCommitState | intros ?; apply stable_just] | | by intros].
      intros w _ [_ Hcs]. exists cs. split; [by apply getCS_inv | done].
    + intros ?. apply T_await; [| intros ?; apply stable_true]. apply T_onMajorityPrecommit. intros l'. apply T_applyRules.
  - apply T_whenRunning, T_core. intros c. destruct (negb _) eqn:Hg; [apply T_skip |]. simpl_bool. unfold prevote.
    eapply T_bind; [apply (T_setStep _ Prevote MessageType_Prevote (λ _, True)); [done | by left | | done] |].
    { intros w [_ ->]. by rewrite H0. }
    intros []. eapply T_bind; [apply T_persist, traceFree_true |]. intros [].
    apply T_cast_nil. by intros w [].
  - apply T_whenRunning, T_core. intros c. destruct (negb _) eqn:Hg; [apply T_skip |]. simpl_bool. unfold precommit.
    eapply T_bind; [eapply T_weaken; [apply (T_getRoundState _ _ (λ w, k_step (w_core w) = k_step c)),
      (stable_core (λ _ _ s _, s = k_step c)) | by intros w _ [_ ->] | intros a w _ Hx; exact Hx] |].
    intros l. apply T_drop; [apply ro_logPrevotes |]. intros _.
    eapply T_bind; [apply (T_setStep _ Precommit MessageType_Precommit (λ _, True)); [done | by right | | done] |].
    { intros w [Hs _]. by rewrite Hs, H0. }
    intros []. eapply T_bind; [apply T_persist, traceFree_true |]. intros [].
    apply T_cast_nil. by intros w [].
  - apply T_whenRunning, T_core. intros c. destruct (negb _) eqn:Hg; [apply T_skip |].
    eapply T_bind; [eapply T_weaken; [apply (T_getRoundState _ _ (λ w, k_round (w_core w) = k_round c)),
      (stable_core (λ _ r _ _, r = k_round c)) | by intros w _ [_ ->] | intros a w _ Hx; exact Hx] |].
    intros l. apply T_drop; [apply ro_logPrevotes |]. intros _. apply T_drop; [apply ro_logPrecommits |]. intros _.
    apply T_await; [| intros ?; apply stable_true].
    eapply T_weaken; [apply T_startRound; intros l'; apply T_applyRules | | done].
    intros w Hi [Hr _]. apply later_startable; [done | lia].
Qed.

(** [run], once the restored state is in place. *)
Lemma T_runFrom fuel : T (λ _, True) (runFrom fuel) (λ _ _, True).
Proof.
  unfold runFrom. eapply T_bind; [apply (T_dispatch (λ _, True)), stable_true |]. intros [].
  eapply T_bind; [apply T_await; [apply T_beginRound | intros ?; apply stable_true] |]. intros [].
  apply T_drop; [apply ro_gets |]. intros c. destruct (k_isDisposed c); [apply T_skip |].
  eapply T_bind; [apply T_getRoundState, stable_true |]. intros l. apply T_pre.
  apply T_await; [apply T_applyRules | intros ?; apply stable_true].
Qed.
End safety.
