(* ===== verification/ConsensusTheorems.v ===== *)
(** * What the consensus guarantees

    The reachable states of a node: it starts from the state the bootstrapper
    restored, and then runs queued handlers and environment actions in any order
    and with any interleaving.  The safety properties of every reachable state. *)
From S2P Require Import Prelude Bytes Serializer Messages Blocks Proposals Commits JsMap Quorum BlockchainUtils.
From S2P Require Import ValidatorSet RoundState RoundStateFacts ConsensusStorage Node Processors CommitBatch Consensus.
From S2P Require Import ConsensusHeap ConsensusInvariant ConsensusSafety.

Section system.
Context `{Services}.

(** One step: an environment action, a queued handler run to completion, or a
    choice of what happens while the next handler awaits.  The rules call
    themselves, through the start of a round; [fuel] bounds how deep, and every
    bound is a step, so that no run is left out. *)
Inductive step : World → World → Prop :=
  | step_env a w : step w (run_in (envAction a) w)
  | step_job fuel j js js' w : w_jobs w = js ++ j :: js' →
      step w (run_in (runJob fuel j) (w <| w_jobs := js ++ js' |>))
  | step_schedule env w : step w (w <| w_env := env |>).

Definition statePos (s : State) : Position := (s_blockNumber s, s_round s, stepZ (s_step s)).

Context (Genuine : Message → Prop) (ProofOf CommitOf : Z → Z → string → Prop) (Trusted : Chain → Prop).

(** The state before [run]: nothing signed in this life of the process, the
    objects in order, and the restored lock backed by stored prevotes. *)
Record restored (s : State) (w : World) : Prop := {
  rt_heap : HeapOk Genuine ProofOf CommitOf Trusted w;
  rt_trace : w_trace w = [];
  rt_lock : ∀ l, s_lockedValue s = Some l → ∃ r p, w_rounds w !! l = Some r ∧
    rs_blockNumber r = s_blockNumber s ∧ rs_proposal r = Some p ∧
    quorumFor r (rs_prevotes r) (p_hash p) ∧ posLe (s_blockNumber s, rs_round r, stepZ Precommit) (statePos s);
}.

(** [reachable s w]: [w] can be reached by a process that started in [s]. *)
Definition reachable (s : State) (w : World) : Prop :=
  ∃ fuel w0, restored s w0 ∧ rtc step (run_in (run fuel s) w0) w.

(** +2/3 of the validators of block number [n] signed a message of type [t]
    for [h] in round [rd]. *)
Definition quorumOf (t n rd : Z) (h : string) : Prop :=
  ∃ S : gset Z, quorum (roundValidatorsAt n) S ∧ ∀ i, i ∈ S → 0 ≤ i < roundValidatorsAt n ∧
    ∃ m, Genuine m ∧ msg_validatorIndex m = i ∧ msg_type m = t ∧ msg_blockNumber m = n ∧ msg_round m = rd ∧
         msg_blockHash m = Some h.

Section proofs.
Context `{!Unforgeable Genuine ProofOf CommitOf Trusted}.
#[local] Abbreviation Inv := (Inv Genuine ProofOf CommitOf Trusted).
#[local] Abbreviation T p := (T Genuine ProofOf CommitOf Trusted p).

(** ** The invariant holds in every reachable state *)
Lemma inv_of_T p (P : World → Prop) (m : M World unit) w :
  T p P m (λ _ _, True) → Inv p w → P w → Inv p (run_in m w).
Proof.
  intros Hm Hi HP. specialize (Hm w (conj Hi HP)). unfold run_in.
  destruct (m w) as [[a|e] w']; [apply Hm | exact Hm].
Qed.

Lemma boot_inv s w :
  restored s w →
  Inv (statePos s) (w <| w_core ::= enter s |>).
Proof.
  intros [Hok Ht Hl]. split; [by apply heap_core |]. split; [| reflexivity].
  split; cbn; rewrite ?Ht; cbn; try (intros; exfalso; by eapply not_elem_of_nil).
  - intros l (r & p & Hr & Hn & Hp & Hq & Hpos)%Hl. exists (rs_round r), (p_hash p). split; [| exact Hpos].
    exists r, p. done.
  - intros pre i d post Heq. by destruct pre.
Qed.

Lemma run_inv fuel s w : restored s w → Inv (statePos s) (run_in (run fuel s) w).
Proof.
  intros Hr. apply boot_inv in Hr. change (run_in (run fuel s) w) with
    (run_in (runFrom fuel) (w <| w_core ::= enter s |>)).
  apply (inv_of_T _ (λ _, True)); [apply T_runFrom; exact _ | exact Hr | exact I].
Qed.

Lemma step_inv p w w' : Inv p w → step w w' → Inv p w'.
Proof.
  intros Hi Hs. destruct Hs as [a w|fuel j js js' w Hj|env w].
  - destruct (envAction_esat Genuine ProofOf CommitOf Trusted genuine_vote genuine_commit (λ _, True) a w) as (Hok & He & _);
      [apply Hi | done |]. by eapply inv_env.
  - apply (inv_of_T _ (λ _, True)); [apply T_runJob; exact _ | | done]. eapply (inv_same Genuine ProofOf CommitOf Trusted p); [exact Hi | | done | done | done].
    destruct Hi as ([] & _). by split.
  - eapply (inv_same Genuine ProofOf CommitOf Trusted p); [exact Hi | | done | done | done]. destruct Hi as ([] & _). by split.
Qed.

Lemma reachable_inv s w : reachable s w → Inv (statePos s) w.
Proof.
  intros (fuel & w0 & Hr & Hs). apply (run_inv fuel) in Hr. induction Hs as [|w1 w2 w3 Hs _ IH]; [done |].
  apply IH. by eapply step_inv.
Qed.

(** ** Evidence in the heap is a set of genuine votes *)
Lemma votes_quorumOf t r messages counts h :
  votesOk Genuine t r messages counts → quorumFor r messages h → quorumOf t (rs_blockNumber r) (rs_round r) h.
Proof.
  intros [_ _ Hv] Hq. exists (voters messages (Some h)). split; [exact Hq |].
  intros i (m & Hin & Hh)%elem_of_voters. destruct (Hv i m Hin) as (Hi & Ht & Hn & Hrd & [Hb _] & Hg).
  split; [by rewrite <- Hi, <- Hn |]. exists m. done.
Qed.

Lemma prevotedAt_quorumOf p w n rd h :
  Inv p w → prevotedAt w n rd h → quorumOf MessageType_Prevote n rd h.
Proof.
  intros (Hok & _) (l & r & Hr & <- & <- & Hq). eapply votes_quorumOf; [| exact Hq].
  exact (ro_prevotes _ _ _ (ho_rounds _ _ _ _ _ Hok l r Hr)).
Qed.

Lemma precommittedAt_quorumOf p w n rd h :
  Inv p w → precommittedAt w n rd h → quorumOf MessageType_Precommit n rd h.
Proof.
  intros (Hok & _) (l & r & Hr & <- & <- & Hq). eapply votes_quorumOf; [| exact Hq].
  exact (ro_precommits _ _ _ (ho_rounds _ _ _ _ _ Hok l r Hr)).
Qed.

Lemma inv_trace s w : reachable s w → TraceOk ProofOf CommitOf (statePos s) w.
Proof. intros (_ & Htr & _)%reachable_inv. exact Htr. Qed.

(** C2. A node never equivocates: in every reachable state, two votes it
    signed for the same block number, round and type are for the same
    value, whichever of its validators signed them. *)
Theorem never_equivocates s w i j d d' :
  reachable s w → EvSign i d ∈ w_trace w → EvSign j d' ∈ w_trace w →
  sm_type d = sm_type d' → sm_blockNumber d = sm_blockNumber d' → sm_round d = sm_round d' →
  sm_blockHash d = sm_blockHash d'.
Proof.
  intros Htr%inv_trace Hi%elem_of_signed Hj%elem_of_signed Ht Hn Hr.
  apply (tr_agree _ _ _ _ Htr); try done. unfold votePos. congruence.
Qed.

(** C3. A restart does not lead to equivocation either: when a second life of
    the process starts at or after the last record of the first, no vote of
    the second is for a block number, round and type voted in the first. *)
Theorem restart_never_equivocates s w s' w' i j d d' r :
  reachable s w → reachable s' w' →
  lastPersist (w_trace w) = Some r → posLe (recordPos r) (statePos s') →
  EvSign i d ∈ w_trace w → EvSign j d' ∈ w_trace w' → votePos d ≠ votePos d'.
Proof.
  intros Htr%inv_trace Htr'%inv_trace Hr Hle Hi%elem_of_signed Hj%elem_of_signed Heq.
  apply (tr_start _ _ _ _ Htr' d' Hj). rewrite <- Heq.
  destruct (tr_recorded _ _ _ _ Htr d Hi) as (r' & Hr' & Hle'). rewrite Hr in Hr'. injection Hr' as <-.
  by etransitivity.
Qed.

(** C6. Write-ahead: before every vote was signed a write of the state had returned
    after which the store was seen to hold ([observeStore]) a state at the vote's block
    number, round and step, and no other write of the state came between. *)
Theorem vote_after_record s w pre i d post :
  reachable s w → w_trace w = pre ++ EvSign i d :: post →
  ∃ r, lastPersist pre = Some r ∧ recordPos r = votePos d.
Proof.
  intros Htr%inv_trace Ht. destruct (tr_persist _ _ _ _ Htr pre i d post Ht) as (r & Hl & Hn & Hr & Hs).
  exists r. split; [done |]. unfold recordPos, votePos. congruence.
Qed.

(** A node precommits a block only on +2/3 prevotes for it in the round
    of the precommit. *)
Theorem precommit_has_quorum s w i d h :
  reachable s w → EvSign i d ∈ w_trace w → sm_type d = MessageType_Precommit → sm_blockHash d = Some h →
  quorumOf MessageType_Prevote (sm_blockNumber d) (sm_round d) h.
Proof.
  intros Hr Hi%elem_of_signed Ht Hh. pose proof (inv_trace s w Hr) as Htr.
  eapply prevotedAt_quorumOf; [by apply reachable_inv |]. by apply (tr_precommit _ _ _ _ Htr).
Qed.

(** C4. The lock: after a precommit for [h], a later prevote of the same block
    number is for [h], or +2/3 prevoted the other value in a round between the
    two, from the precommit's on. *)
Theorem prevote_respects_lock s w i j d d' h h' :
  reachable s w → EvSign i d ∈ w_trace w → EvSign j d' ∈ w_trace w →
  sm_type d = MessageType_Precommit → sm_blockHash d = Some h →
  sm_type d' = MessageType_Prevote → sm_blockHash d' = Some h' →
  sm_blockNumber d' = sm_blockNumber d → sm_round d < sm_round d' →
  h' = h ∨ ∃ v, sm_round d ≤ v < sm_round d' ∧
    (ProofOf (sm_blockNumber d) v h' ∨ quorumOf MessageType_Prevote (sm_blockNumber d) v h').
Proof.
  intros Hr Hi%elem_of_signed Hj%elem_of_signed Ht Hh Ht' Hh' Hn Hlt. pose proof (inv_trace s w Hr) as Htr.
  destruct (tr_prevote _ _ _ _ Htr d d' h h') as [?|(v & Hv & Hc)]; try done; [by left |].
  right. exists v. split; [done |]. destruct Hc as [?|Hp]; [by left | right].
  eapply prevotedAt_quorumOf; [by apply reachable_inv | exact Hp].
Qed.

(** C5. A node commits a block only on +2/3 precommits for it, its own
    tally's or those of a verified commit from a peer. *)
Theorem commit_has_quorum s w n rd h :
  reachable s w → EvCommit n rd h ∈ w_trace w →
  CommitOf n rd h ∨ quorumOf MessageType_Precommit n rd h.
Proof.
  intros Hr Hin. pose proof (inv_trace s w Hr) as Htr.
  destruct (tr_commit _ _ _ _ Htr n rd h Hin) as [?|Hp]; [by left | right].
  eapply precommittedAt_quorumOf; [by apply reachable_inv | exact Hp].
Qed.

(** Progress is monotone: every vote lies strictly after the position the
    process started from and not after its current one. *)
Theorem votes_in_window s w i d :
  reachable s w → EvSign i d ∈ w_trace w →
  ¬ posLe (votePos d) (statePos s) ∧ posLe (votePos d) (pos w) ∧ posLe (statePos s) (pos w).
Proof.
  intros Hr Hi%elem_of_signed. pose proof (inv_trace s w Hr) as Htr.
  split; [by apply (tr_start _ _ _ _ Htr) |]. split; [by apply (tr_pos _ _ _ _ Htr) |].
  by destruct (reachable_inv s w Hr) as (_ & _ & Hp).
Qed.
End proofs.

(** What a node has itself verified is a reading of the three predicates under
    which the laws hold by definition. *)
Definition VerifiedVote (m : Message) : Prop := ∃ w, (hasValidMessageSignature m w).1 = Ok true.
Definition VerifiedProof (n v : Z) (h : string) : Prop :=
  ∃ w p, (hasValidLockProof p w).1 = Ok true ∧ p_blockNumber p = n ∧ p_validRound p = Some v ∧ p_hash p = h.
Definition VerifiedCommit (n rd : Z) (h : string) : Prop :=
  ∃ w c h', (hasValidCommitSignature c h' w).1 = Ok true ∧ b_number (c_block c) = n ∧
            cp_round (c_proof c) = rd ∧ b_hash (c_block c) = h.

End system.

(** The last block has a proper hash. *)
Definition wellHashed (c : Chain) : Prop := ∀ b, getLastBlock c = Ok b → hexOfLength 64 (b_hash b) = true.

Lemma wellHashed_last c b : ch_lastBlock c = Some b → hexOfLength 64 (b_hash b) = true → wellHashed c.
Proof. intros Hl Hb b' Hb'. unfold getLastBlock in Hb'. rewrite Hl in Hb'. by injection Hb' as <-. Qed.

#[export] Instance verified_unforgeable `{Services} : Unforgeable VerifiedVote VerifiedProof VerifiedCommit wellHashed.
Proof.
  split.
  - intros w m _ _ Hm. by exists w.
  - intros w p v _ _ Hp Hv. by exists w, p.
  - intros w c h _ _ _ Hc. by exists w, c, h.
  - intros c b round Hc Hb b' [= <-]. exact Hb.
  - intros c number n newRound Hc b Hb. by apply Hc.
Qed.
