(* ===== verification/BlockRefinement.v ===== *)
(** * The block downloader behind the consensus

    The model of the consensus knows the block downloader only by three actions of
    its environment: a batch is verified, a commit is taken and handed over, the
    pending commits are dropped.  Every step of the downloader is a sequence of
    them.  Also: when the downloader stops short of what it could do. *)
From S2P Require Import Prelude Bytes Serializer Messages Blocks Proposals Commits JsMap Quorum BlockchainUtils.
From S2P Require Import Configuration RoundCalculator ValidatorSet RoundState ConsensusStorage Node Processors CommitBatch.
From S2P Require Import MessageDownloader BlockDownloader Consensus ConsensusHeap ConsensusTheorems BlockSync.

(** ** Operations that hand nothing over *)
Record hushed (d d' : BlockDownloader) : Prop := {
  hu_pending : bd_pending d' = bd_pending d ∨ bd_pending d' = [];
  hu_handed : bd_handed d' = bd_handed d;
}.
#[export] Instance hushed_preorder : PreOrder hushed.
Proof.
  split; [intros d; split; [by left | done] |]. intros d1 d2 d3 [[]] [[]]; (split; [| congruence]); (left; congruence) || (right; congruence).
Qed.

Definition hush {A} (m : M BlockDownloader A) : Prop := ∀ d, hushed d (m d).2.

Lemma hush_ret {A} (a : A) : hush (mret a).
Proof. intros d. reflexivity. Qed.
Lemma hush_throw {A} e : hush (throw e : M BlockDownloader A).
Proof. intros d. reflexivity. Qed.
Lemma hush_get : hush get.
Proof. intros d. reflexivity. Qed.
Lemma hush_bind {A B} (m : M BlockDownloader A) (f : A → M BlockDownloader B) : hush m → (∀ a, hush (f a)) → hush (m ≫= f).
Proof.
  intros Hm Hf d. unfold mbind, M_bind. specialize (Hm d). destruct (m d) as [[a|e] d1]; [| done].
  etransitivity; [exact Hm | apply Hf].
Qed.
Lemma hush_modify f : (∀ d, hushed d (f d)) → hush (modify f).
Proof. intros Hf d. apply Hf. Qed.
Lemma hush_jobs f : (∀ d, bd_pending (f d) = bd_pending d) → (∀ d, bd_handed (f d) = bd_handed d) → hush (modify f).
Proof. intros H1 H2. apply hush_modify. intros d. split; [left; apply H1 | apply H2]. Qed.

Create HintDb hush.
#[export] Hint Resolve hush_ret hush_throw hush_get : hush.
(** Step through a handler. *)
Ltac hush_tac :=
  repeat first [ solve [auto with hush] | (by apply hush_jobs) | apply hush_bind; [| intros ?]
               | match goal with |- hush (match ?x with _ => _ end) => destruct x end ].

Section refinement.
Context `{Services} (configuration : Configuration) (maxPayloadAt : Z → Z).

Lemma hush_newJob peer from to : hush (newJob peer from to).
Proof. unfold newJob. hush_tac. Qed.
Lemma hush_replay s job : hush (replayJob s job).
Proof. unfold replayJob, requestBlocks. pose proof hush_newJob. hush_tac. Qed.
Lemma hush_error s job : hush (handleJobError s job).
Proof. unfold handleJobError, banPeer. pose proof hush_replay. hush_tac. Qed.
Lemma hush_clear : hush clearPending.
Proof. apply hush_modify. intros d. split; [by right | done]. Qed.
Lemma hush_fail s job : hush (failRun s job).
Proof. unfold failRun. pose proof hush_error. pose proof hush_clear. hush_tac. Qed.
Lemma hush_missing s job : hush (handleMissingBlocks maxPayloadAt s job).
Proof. unfold handleMissingBlocks, banPeer. pose proof hush_replay. hush_tac. Qed.
Lemma hush_await run : hush (awaitRun run).
Proof. by apply hush_jobs. Qed.
Lemma hush_loop next s run : hush next → hush (processLoop configuration maxPayloadAt next s run).
Proof.
  intros Hnext. unfold processLoop. pose proof hush_fail. pose proof hush_clear. pose proof hush_missing. pose proof hush_await. cbv zeta. hush_tac.
Qed.
Lemma hush_nextJob fuel s : hush (processNextJob configuration maxPayloadAt fuel s).
Proof.
  pose proof hush_fail. induction fuel as [|fuel IH]; cbn [processNextJob]; [hush_tac |].
  apply hush_bind; [apply hush_get |]. intros d. destruct (bd_jobs d) as [|job rest]; [apply hush_ret |]. unfold processBlocks.
  destruct (negb _); [apply hush_ret |]. apply hush_bind; [by apply hush_jobs |]. intros _.
  destruct (getLastBlock _); [| auto]. destruct (skipAppliedBlocks _ _ _). by apply hush_loop.
Qed.
Lemma hush_next s : hush (processNext configuration maxPayloadAt s).
Proof. unfold processNext. pose proof hush_nextJob. hush_tac. Qed.

Lemma hush_download s peer : hush (downloadBlocks s peer).
Proof. unfold downloadBlocks, requestBlocks. pose proof hush_newJob. cbv zeta. hush_tac. Qed.
Lemma hush_blocks s id answer : hush (onBlocks configuration maxPayloadAt s id answer).
Proof. unfold onBlocks. pose proof hush_error. pose proof hush_next. hush_tac. Qed.
Lemma hush_withRun k f : (∀ run, hush (f run)) → hush (withRun k f).
Proof. intros Hf. unfold withRun. hush_tac. Qed.
Lemma hush_parsed s k : hush (onParsed s k).
Proof. apply hush_withRun. intros run. pose proof hush_fail. pose proof hush_await. hush_tac. Qed.

(** ** The simulation *)
Definition byDownloader (a : EnvAction) : Prop :=
  match a with AVerifyCommits _ _ | ATakeCommit _ | AClearCommits => True | _ => False end.

(** The commits that a sequence of actions hands to the commit processor. *)
Fixpoint takenBy (actions : list EnvAction) (w : World) : list Commit :=
  match actions with
  | [] => []
  | a :: rest =>
      match a with ATakeCommit n => option_list (mapGet (w_pendingCommits w) n) | _ => [] end ++ takenBy rest (run_in (envAction a) w)
  end.

Definition simulated (w : World) (d d' : BlockDownloader) : Prop :=
  ∃ actions begun, Forall byDownloader actions ∧ w_pendingCommits (envBatch actions w) = bd_pending d' ∧
    bd_handed d' = bd_handed d ++ begun ∧ takenBy actions w = hc_commit <$> begun.

Lemma hushed_simulated w d d' : w_pendingCommits w = bd_pending d → hushed d d' → simulated w d d'.
Proof.
  intros Hw [[Hp|Hp] Hh].
  - exists [], []. split; [constructor |]. split; [cbn; congruence |]. by rewrite app_nil_r.
  - exists [AClearCommits], []. split; [by repeat constructor |]. split; [done |]. by rewrite app_nil_r.
Qed.

Lemma commitBegin_pending c w : w_pendingCommits (commitBegin c w).2 = w_pendingCommits w.
Proof.
  unfold commitBegin, milestoneValidators, enqueue, mbind, M_bind, gets, modify, liftR. cbn.
  destruct (negb _); [done |]. by destruct (getRoundValidators _ _).
Qed.

Lemma take_pending n c p w : pendingTake n (w_pendingCommits w) = (Some c, p) →
  mapGet (w_pendingCommits w) n = Some c ∧ w_pendingCommits (run_in (envAction (ATakeCommit n)) w) = p.
Proof.
  intros Htake. pose proof Htake as Ht. unfold pendingTake in Ht. injection Ht as Hget Hdel. split; [done |].
  unfold run_in. cbn [envAction]. unfold mbind, M_bind, get. rewrite Htake. unfold modify at 1.
  pose proof (commitBegin_pending c (w <| w_pendingCommits := p |>)) as Hb.
  destruct (commitBegin c (w <| w_pendingCommits := p |>)) as [[]]; exact Hb.
Qed.

Lemma verify_pending previous batch commits w valid :
  traverse (parseCommit (w_chain w)) batch = Ok commits →
  traverse (checkSignature w) (withPrevious previous commits) = Ok valid → forallb id valid = true → hexOfLength 64 previous = true →
  run_in (envAction (AVerifyCommits previous batch)) w = w <| w_pendingCommits ::= pendingAdd commits |>.
Proof.
  intros Hp Hs Hall Hhex. unfold run_in. cbn [envAction]. unfold mbind, M_bind, get, liftR. rewrite Hp, Hs, Hall, Hhex. done.
Qed.

(** The hash a call verifies against is a proper one. *)
Lemma anchored_hash worlds d n p :
  settled false 0 worlds None d → (∀ w, w ∈ worlds → wellHashed (w_chain w)) → anchored worlds (bd_handed d) n p → hexOfLength 64 p = true.
Proof.
  intros Hs Hwell [(w & b & Hw & Hb & ->)|(h & Hh & _ & ->)]; [by eapply Hwell | by apply (se_handed _ _ _ _ _ Hs h Hh)].
Qed.

Lemma withRun_cases worlds k f d : settled false 0 worlds None d →
  (withRun k f d).2 = d ∨ ∃ run, bd_runs d = [run] ∧ runOk false 0 worlds (bd_handed d) (bd_pending d) run ∧
    withRun k f d = f run (d <| bd_runs := [] |>).
Proof.
  intros [_ _ _ Hrun]. unfold withRun, mbind, M_bind, get. destruct (bd_runs d !! k) as [run|] eqn:Hk; [right | by left].
  destruct Hrun as [(Hr & _)|(run' & Hr & _ & Hrok & _)]; rewrite Hr in Hk; [by rewrite lookup_nil in Hk |].
  apply list_lookup_singleton_Some in Hk as [-> <-]. exists run'. split_and!; [done | done |]. unfold modify.
  assert (d <| bd_runs ::= delete 0%nat |> = d <| bd_runs := [] |>) as ->; [destruct d; cbn in *; by rewrite Hr | done].
Qed.

Lemma handNext_simulated w s run commits n d :
  w_pendingCommits w = bd_pending d → bd_pending d = pendingOf commits → numbersMatch n commits = true →
  simulated w d (handNext configuration maxPayloadAt s run commits d).2.
Proof.
  intros Hw Hp Hnum. destruct commits as [|c rest]; cbn [handNext].
  - apply hushed_simulated; [done |]. apply hush_loop, hush_next.
  - pose proof (pendingTake_head _ _ _ Hnum) as Htake. rewrite <- Hp, <- Hw in Htake.
    destruct (take_pending _ _ _ _ Htake) as [Hget Hpend].
    exists [ATakeCommit (b_number (c_block c))], [mkHanded c (ru_previousBlockHash run)]. split_and!.
    + by repeat constructor.
    + change (envBatch [?a] w) with (run_in (envAction a) w). rewrite Hpend. unfold pendingTake in Htake. injection Htake as _ <-.
      cbn. by rewrite Hw.
    + done.
    + cbn. by rewrite Hget.
Qed.

Lemma verified_simulated w previous batch d0 d d' :
  simulated (run_in (envAction (AVerifyCommits previous batch)) w) d d' → bd_handed d = bd_handed d0 → simulated w d0 d'.
Proof.
  intros (actions & begun & H1 & H2 & H3 & H4) Hh. exists (AVerifyCommits previous batch :: actions), begun.
  split_and!; [by constructor | done | congruence | done].
Qed.

Lemma onVerified_simulated worlds s k d :
  settled false 0 worlds None d → (∀ w, w ∈ worlds → wellHashed (w_chain w)) → w_pendingCommits (su_world s) = bd_pending d →
  simulated (su_world s) d (onVerified configuration maxPayloadAt s k d).2.
Proof.
  intros Hs Hwell Hw. unfold onVerified.
  match goal with |- context [withRun k ?f d] => destruct (withRun_cases worlds k f d Hs) as [->|(run & Hr & Hrok & ->)] end;
    [by apply hushed_simulated |]. set (d1 := d <| bd_runs := [] |>).
  destruct (ru_phase run) as [batch|commits|c rest] eqn:Hph; [apply (hushed_simulated _ d1); [done | apply hush_await] | | apply (hushed_simulated _ d1); [done | apply hush_await]].
  destruct (traverse _ _) as [valid|e] eqn:Hsigs; [| apply (hushed_simulated _ d1); [done | apply hush_fail]].
  destruct (forallb id valid) eqn:Hall; cbn [negb]; [| apply (hushed_simulated _ d1); [done | apply hush_fail]].
  destruct Hrok as [[Ha _ _ _] Hp _]. rewrite Hph in Hp. destruct Hp as (Hpend & Hnum & chain & batch & Hparse).
  rewrite (traverse_ext _ (parseCommit (w_chain (su_world s)))) in Hparse by (intros; apply parseCommit_chain).
  pose proof (verify_pending (ru_previousBlockHash run) batch commits (su_world s) valid Hparse Hsigs Hall (anchored_hash _ _ _ _ Hs Hwell Ha)) as Hver.
  set (d2 := d1 <| bd_pending ::= pendingAdd commits |>).
  apply (verified_simulated _ (ru_previousBlockHash run) batch d d2); [| done].
  apply (handNext_simulated _ s run commits (ru_number run) d2).
  - rewrite Hver. cbn. by rewrite Hw.
  - unfold d2. cbn. rewrite Hpend. by eapply pendingAdd_batch.
  - done.
Qed.

Lemma onProcessed_simulated worlds s k response d :
  settled false 0 worlds None d → w_pendingCommits (su_world s) = bd_pending d →
  simulated (su_world s) d (onProcessed configuration maxPayloadAt s k response d).2.
Proof.
  intros Hs Hw. unfold onProcessed.
  match goal with |- context [withRun k ?f d] => destruct (withRun_cases worlds k f d Hs) as [->|(run & Hr & Hrok & ->)] end;
    [by apply hushed_simulated |]. set (d1 := d <| bd_runs := [] |>).
  destruct (ru_phase run) as [batch|commits|c rest] eqn:Hph; [apply (hushed_simulated _ d1); [done | apply hush_await].. |].
  destruct Hrok as [_ Hp _]. rewrite Hph in Hp. destruct Hp as (Hpend & [_ Hnum]%numbersMatch_cons & _).
  assert (∀ run', simulated (su_world s) d (handNext configuration maxPayloadAt s run' rest d1).2) as Hgo.
  { intros run'. exact (handNext_simulated (su_world s) s run' rest (ru_number run + 1) d1 Hw Hpend Hnum). }
  assert (simulated (su_world s) d (failRun s (ru_job run) d1).2) as Hfail by (apply (hushed_simulated _ d1); [done | apply hush_fail]).
  destruct response as [[]|e]; [done | apply Hgo | apply Hgo | done].
Qed.

(** C10. The consensus sees all the downloader does.  Each step of the block
    downloader, in any state it can reach, changes the pending commits and hands
    commits to the processor exactly as a sequence of the three downloader actions
    of the consensus' environment does in the same world: what the theorems on the
    consensus say of every environment holds for this one. *)
Theorem downloader_refines worlds s d d' :
  bdReachable configuration maxPayloadAt worlds d → bdStep configuration maxPayloadAt s d d' →
  (∀ w, w ∈ worlds → wellHashed (w_chain w)) → w_pendingCommits (su_world s) = bd_pending d →
  ∃ actions begun, Forall byDownloader actions ∧ w_pendingCommits (envBatch actions (su_world s)) = bd_pending d' ∧
    bd_handed d' = bd_handed d ++ begun ∧ takenBy actions (su_world s) = hc_commit <$> begun.
Proof.
  intros Hs%reachable_settled Hstep Hwell Hw. change (simulated (su_world s) d d'). destruct Hstep.
  - apply hushed_simulated, hush_download. done.
  - apply hushed_simulated, hush_blocks. done.
  - apply hushed_simulated, hush_parsed. done.
  - by eapply onVerified_simulated.
  - by eapply onProcessed_simulated.
Qed.

(** ** A job that nobody takes up *)
Lemma random_peer (P : Peer → bool) peers pick p : p ∈ peers → P p = true →
  ∃ q, List.filter P peers !! (pick mod length (List.filter P peers))%nat = Some q.
Proof.
  intros Hp HP. assert (p ∈ List.filter P peers) as Hin by (by apply list_elem_of_In, filter_In; rewrite <- list_elem_of_In).
  apply lookup_lt_is_Some_2, Nat.mod_upper_bound. intros Hnil%length_zero_iff_nil. rewrite Hnil in Hin. by apply elem_of_nil in Hin.
Qed.

Lemma replay_drops s d job j1 j2 rest p :
  bd_jobs d = j1 :: j2 :: rest → bj_id job = bj_id j1 → bj_blockNumberTo job ≤ storeBlockNumber s →
  p ∈ su_peers s → storeBlockNumber s + 1 < hd_blockNumber (pe_header p) →
  replayJob s job d = (Ok tt, d <| bd_jobs := j2 :: rest |>).
Proof.
  intros Hjobs Hid Hto Hp Hahead. unfold replayJob, mbind, M_bind, get.
  assert (indexOfJob (bj_id job) (bd_jobs d) = Some 0%nat) as -> by (unfold indexOfJob; rewrite Hjobs; cbn; by rewrite decide_True).
  rewrite Hjobs. cbn [length]. rewrite (bool_decide_eq_true_2 (0%nat = 0%nat)), (bool_decide_eq_false_2 (S (S _) = _)) by lia. cbv zeta.
  rewrite Z.max_l by lia.
  destruct (random_peer (λ p, storeBlockNumber s + 1 <? hd_blockNumber (pe_header p)) (su_peers s) (su_pick s) p Hp) as (q & ->); [by apply Z.ltb_lt |].
  cbn [andb]. rewrite (proj2 (Z.ltb_lt _ _)) by lia. unfold modify. destruct d; cbn in *. by rewrite Hjobs.
Qed.

(** A job can be left waiting.  When the bytes of the first job cannot be read
    and the node has meanwhile committed all its blocks itself, the job is dropped,
    but the next one is not taken up, even if its blocks are there: with no other
    answer on its way nothing happens until a peer shows a header beyond everything
    already asked for, and until then no messages or proposals are downloaded. *)
Theorem replay_stalls s d run batch j1 j2 rest e p :
  bd_jobs d = j1 :: j2 :: rest → bd_runs d = [run] → bj_id (ru_job run) = bj_id j1 →
  bj_blockNumberTo (ru_job run) ≤ storeBlockNumber s → ru_phase run = Parsing batch →
  traverse (parseCommit (w_chain (su_world s))) batch = Throw e → bd_waiting d = [] →
  p ∈ su_peers s → storeBlockNumber s + 1 < hd_blockNumber (pe_header p) →
  let d' := (onParsed s 0 d).2 in
  bd_jobs d' = j2 :: rest ∧ isDownloadingBlocks d' = true ∧
  ∀ s' d'', bdStep configuration maxPayloadAt s' d' d'' →
    d'' = d' ∨ ∃ peer, getLastRequestedBlockNumber s' d' < hd_blockNumber (pe_header peer) - 1 ∧ d'' = (downloadBlocks s' peer d').2.
Proof.
  intros Hjobs Hruns Hid Hto Hph Hparse Hwait Hp Hahead d'.
  assert (d' = d <| bd_jobs := j2 :: rest |> <| bd_runs := [] |> <| bd_banned ::= λ l, l ++ [pe_ip (bj_peer (ru_job run))] |> <| bd_pending := [] |>) as Hd'.
  { unfold d', onParsed, withRun, mbind, M_bind, get. rewrite Hruns. cbn [lookup list_lookup]. unfold modify at 1. rewrite Hph, Hparse.
    unfold failRun, handleJobError, mbind, M_bind, get.
    match goal with |- context [indexOfJob _ (bd_jobs ?x)] => set (d1 := x) end.
    assert (indexOfJob (bj_id (ru_job run)) (bd_jobs d1) = Some 0%nat) as ->.
    { unfold indexOfJob, d1. cbn. rewrite Hjobs. cbn. by rewrite decide_True. }
    unfold banPeer, modify at 1. rewrite (replay_drops s _ (ru_job run) j1 j2 rest p); [| done..]. unfold d1. destruct d. cbn in *. by rewrite Hruns. }
  rewrite Hd'. split; [done |]. split; [unfold isDownloadingBlocks; cbn; apply Z.ltb_lt; lia |].
  intros s' d'' [peer|id answer|k|k|k response]; [| left..].
  - unfold downloadBlocks at 1, mbind, M_bind, get. cbv zeta.
    destruct (Z.leb_spec (hd_blockNumber (pe_header peer) - 1) (getLastRequestedBlockNumber s' (d <| bd_jobs := j2 :: rest |> <| bd_runs := [] |> <| bd_banned ::= λ l, l ++ [pe_ip (bj_peer (ru_job run))] |> <| bd_pending := [] |>)));
      [by left | right; by exists peer].
  - unfold onBlocks, mbind, M_bind, get. cbn. rewrite Hwait. done.
  - unfold onParsed, withRun, mbind, M_bind, get. done.
  - unfold onVerified, withRun, mbind, M_bind, get. done.
  - unfold onProcessed, withRun, mbind, M_bind, get. done.
Qed.
End refinement.
