(* ===== verification/ConsensusProgress.v ===== *)
(** * No handler gets stuck

    The rules call themselves through the start of a round, and committing a
    block holds the commit lock while the next round starts.  The file shows that
    the calls nest at most three deep and that no handler waits for the commit
    lock while it holds it: inside the exclusive section no vote can arrive, so
    the first round of the next block finds nothing to do. *)
From S2P Require Import Prelude Bytes Serializer Messages Blocks Proposals Commits JsMap Quorum BlockchainUtils.
From S2P Require Import ValidatorSet RoundState RoundStateFacts ConsensusStorage Node Processors CommitBatch Consensus.
From S2P Require Import ConsensusHeap ConsensusInvariant ConsensusSafety ConsensusTheorems.

(** ** Operations that respect a preorder on worlds *)
Definition respects {A} (R : relation World) (m : M World A) : Prop := ∀ w, R w (m w).2.

Section respects.
Context `{Services} (R : relation World) `{!PreOrder R}.

Lemma resp_ro {A} (m : M World A) : ro m → respects R m.
Proof. intros Hm w. rewrite Hm. reflexivity. Qed.
Lemma resp_bind {A B} (m : M World A) (f : A → M World B) :
  respects R m → (∀ a, respects R (f a)) → respects R (m ≫= f).
Proof.
  intros Hm Hf w. specialize (Hm w). unfold mbind, M_bind. destruct (m w) as [[a|e] w1]; [| done].
  etransitivity; [exact Hm | apply Hf].
Qed.
Lemma resp_read {A B} (m : M World A) (f : A → M World B) w :
  ro m → (∀ a, m w = (Ok a, w) → R w (f a w).2) → R w ((m ≫= f) w).2.
Proof.
  intros Hm Hf. specialize (Hm w). unfold mbind, M_bind. destruct (m w) as [[a|e] w1]; cbn in Hm; subst w1; [by apply Hf | reflexivity].
Qed.
Lemma resp_when b (m : M World unit) : respects R m → respects R (when b m).
Proof. intros Hm. destruct b; [done |]. by apply resp_ro, ro_ret. Qed.
Lemma resp_forEach {A} (l : list A) (f : A → M World unit) : (∀ x, respects R (f x)) → respects R (forEach l f).
Proof. intros Hf. induction l; cbn; [apply resp_ro, ro_ret |]. by apply resp_bind. Qed.
Lemma resp_tryCatch {A} (m : M World A) h : respects R m → (∀ e, respects R (h e)) → respects R (tryCatch m h).
Proof.
  intros Hm Hh w. specialize (Hm w). unfold tryCatch. destruct (m w) as [[a|e] w1]; [done |].
  destruct e; try done; (etransitivity; [exact Hm | apply Hh]).
Qed.
Lemma resp_modify (f : World → World) : (∀ w, R w (f w)) → respects R (modify f).
Proof. done. Qed.
Lemma resp_await {A} (m : M World A) : respects R yield → respects R m → respects R (await m).
Proof.
  intros Hy Hm w. specialize (Hm w). unfold await. destruct (m w) as [r w1].
  etransitivity; [exact Hm | apply Hy].
Qed.
Lemma resp_foldl {A} (f : A → M World unit) l w :
  (∀ a, respects R (f a)) → R w (foldl (λ w a, run_in (f a) w) w l).
Proof.
  intros Hf. revert w. induction l as [|a l IH]; intros w; cbn; [reflexivity |].
  etransitivity; [apply (Hf a) | apply IH].
Qed.
Lemma resp_yield : (∀ w env, R w (w <| w_env := env |>)) → (∀ a, respects R (envAction a)) → respects R yield.
Proof.
  intros Henv Ha w. unfold yield. destruct (w_env w) as [|batch rest]; [reflexivity |]. cbn [snd].
  etransitivity; [apply (Henv w rest) | by apply resp_foldl].
Qed.
End respects.

(** ** Changes that do not matter here

    [same]: the commit lock, the calls in flight, the round states and the
    position are as before and nothing got stuck. *)
Record same (w w' : World) : Prop := {
  sm_lock : w_commitLock w' = w_commitLock w;
  sm_flight : w_inFlight w' = w_inFlight w;
  sm_rounds : w_rounds w' = w_rounds w;
  sm_repo : w_repo w' = w_repo w;
  sm_next : w_next w ≤ w_next w';
  sm_stuck : EvStuck ∈ w_trace w' → EvStuck ∈ w_trace w;
  sm_number : k_blockNumber (w_core w') = k_blockNumber (w_core w);
  sm_round : k_round (w_core w') = k_round (w_core w);
}.
#[export] Instance same_preorder : PreOrder same.
Proof.
  split; [by split |]. intros w1 w2 w3 [] []. split; try congruence; [lia | auto].
Qed.

(** A relation that allows them. *)
Class Benign (R : relation World) := { bn_preorder :: PreOrder R; bn_same : subrelation same R }.

Lemma silent_same w w' : silent w w' → same w w'.
Proof. intros [[]]. split; try done; [rewrite si_next; lia | by rewrite si_trace]. Qed.

Lemma emit_same e w : e ≠ EvStuck → same w (emit e w).2.
Proof. intros He. split; try done. cbn. by intros [?|?%list_elem_of_singleton]%elem_of_app. Qed.

Lemma not_elem_snoc (t : list Event) e : e ≠ EvStuck → EvStuck ∈ t ++ [e] → EvStuck ∈ t.
Proof. by intros He [?|?%list_elem_of_singleton]%elem_of_app. Qed.

Create HintDb readonly discriminated.
#[export] Hint Resolve ro_ret ro_gets ro_get ro_lift ro_throw ro_core ro_getRS ro_validNumber ro_minimal ro_ahead ro_dupMessage
  ro_dupProposal ro_context ro_sigMessage ro_sigProposal ro_index ro_proposer ro_lockProof ro_commitSignature ro_getValidators
  ro_future ro_nextTimestamp ro_createProposal ro_getCS ro_unitBlock ro_unitRound ro_unitBlockNumber ro_unitResult
  ro_logPrevotes ro_logPrecommits : readonly.

(** Decomposes an operation; what is left are its writes. *)
Ltac resp_step :=
  match goal with
  | |- respects _ (_ ≫= _) => apply resp_bind; [exact _ | | intros ?]
  | |- respects _ (await _) => apply resp_await; [exact _ | assumption |]
  | |- respects _ (when _ _) => apply resp_when; [exact _ |]
  | |- respects _ (forEach _ _) => apply resp_forEach; [exact _ | intros ?]
  | |- respects _ (tryCatch _ _) => apply resp_tryCatch; [exact _ | | intros ?]
  | |- respects _ (let '(_, _) := ?x in _) => destruct x
  | |- respects _ (if ?b then _ else _) => destruct b
  | |- respects _ (match ?x with _ => _ end) => destruct x
  | |- respects _ _ => first [ assumption | solve [apply resp_ro; [exact _ | auto with readonly]] ]
  end.
Ltac resp := repeat resp_step.
Ltac by_same := apply bn_same; split; cbn; try done; try lia; try (by apply not_elem_snoc).

Section benign.
Context `{Services} (R : relation World) `{!Benign R}.

Lemma resp_silent {A} (m : M World A) : (∀ w, silent w (m w).2) → respects R m.
Proof. intros Hm w. by apply bn_same, silent_same. Qed.
Lemma resp_same (f : World → World) : (∀ w, same w (f w)) → respects R (modify f).
Proof. intros Hf w. apply bn_same, Hf. Qed.
Lemma resp_emit e : e ≠ EvStuck → respects R (emit e).
Proof. intros He w. by apply bn_same, emit_same. Qed.
Lemma resp_storage {A} (m : bool → M Storage A) : respects R (onStorage m).
Proof. apply resp_silent, silent_storage. Qed.
Lemma resp_scheduler {A} (m : M Scheduler A) : respects R (onScheduler m).
Proof. apply resp_silent, silent_scheduler. Qed.
Lemma resp_chain {A} (m : M Chain A) : respects R (onChain m).
Proof. intros w. unfold onChain, zoomM. destruct (m (w_chain w)). by by_same. Qed.
Lemma resp_setCore (f : Core → Core) :
  (∀ c, k_blockNumber (f c) = k_blockNumber c ∧ k_round (f c) = k_round c) → respects R (setCore f).
Proof. intros Hf. apply resp_same. intros w. destruct (Hf (w_core w)). by split; cbn; try lia. Qed.
Lemma resp_enqueue j : respects R (enqueue j).
Proof. apply resp_silent, silent_enqueue. Qed.

Lemma resp_commitBegin commit : respects R (commitBegin commit).
Proof.
  unfold commitBegin, milestoneValidators. do 5 (resp_step; try by resp). intros w. apply bn_same.
  split; unfold mbind, M_bind, gets, modify, enqueue; cbn; try done; lia.
Qed.

(** The environment, as far as it does not start or finish a processor call. *)
Lemma resp_envAction a :
  (∀ b, respects R (startBackground b)) → (∀ k, respects R (envAction (AVerified k))) → respects R (envAction a).
Proof.
  intros Hb Hv. destruct a; try (by apply Hv); cbn [envAction].
  - resp. apply Hb.
  - resp. apply Hb.
  - resp; [apply resp_same; intros w; by split; cbn; try lia | apply Hb].
  - resp. apply resp_same. intros w. by split; cbn; try lia.
  - resp; [apply resp_same; intros w; by split; cbn; try lia | apply resp_commitBegin].
  - apply resp_same. intros w. by split; cbn; try lia.
  - apply resp_silent, silent_fireBlockPrepare.
  - unfold blockPrepareFinish. resp; try apply Hb; try apply resp_storage; try (by apply resp_setCore).
    apply resp_same. intros w. by split; cbn; try lia.
  - unfold firePropose. resp; [apply resp_scheduler | apply resp_enqueue].
  - unfold firePrevote. resp; [apply resp_scheduler | apply resp_enqueue].
  - unfold firePrecommit. resp; [apply resp_scheduler | apply resp_enqueue].
  - apply resp_silent, silent_dispose.
  - apply resp_same. intros w. by split; cbn; try lia.
  - apply resp_same. intros w. by split; cbn; try lia.
Qed.

Context (Hyield : respects R yield) (Hround : ∀ n rd, respects R (getRoundState n rd)).

Lemma resp_dispatch name : respects R (dispatch name).
Proof. unfold dispatch. resp. by apply resp_emit. Qed.
Lemma resp_persist : respects R persistState.
Proof. unfold persistState, observeStore. resp; [apply resp_storage | by apply resp_emit]. Qed.

Lemma resp_vote type f value : respects R (vote type f value).
Proof.
  unfold vote, signVote. resp; try (apply Hround); try (apply resp_emit; done); try apply resp_storage.
  apply resp_same. intros w. by split; cbn; try lia.
Qed.

Lemma resp_prepareProposal l : respects R (prepareProposal l).
Proof.
  unfold prepareProposal. resp_step; [by resp |]. resp_step; [by resp |]. resp_step; [by resp |]. resp_step; [| by resp].
  resp_step; [by resp |]. intros w. apply bn_same. split; unfold mbind, M_bind, gets, modify, setCore; cbn; try done; lia.
Qed.

Lemma resp_beginRound : respects R beginRound.
Proof.
  unfold beginRound. resp.
  - by apply resp_setCore.
  - apply resp_scheduler.
  - apply Hround.
  - apply resp_dispatch.
  - apply resp_silent, silent_scheduleBlockPrepare.
  - apply resp_prepareProposal.
Qed.
End benign.

(** ** The exclusive section *)
Definition sealed (w : World) : Prop := w_commitLock w = true ∧ w_inFlight w = [].

(** In it the environment cannot reach the round states. *)
Definition sealedSame (w w' : World) : Prop := sealed w → same w w'.
#[export] Instance sealedSame_benign : Benign sealedSame.
Proof.
  split; [| by intros w w' Hs _]. split; [by intros w _ |].
  intros w1 w2 w3 H12 H23 Hs. pose proof (H12 Hs) as Hsm. etransitivity; [exact Hsm |]. apply H23.
  destruct Hs. split; [by rewrite (sm_lock _ _ Hsm) | by rewrite (sm_flight _ _ Hsm)].
Qed.

Section sealed.
Context `{Services}.

Lemma sealed_same w w' : same w w' → sealed w → sealed w'.
Proof. intros Hsm []. split; [by rewrite (sm_lock _ _ Hsm) | by rewrite (sm_flight _ _ Hsm)]. Qed.

Lemma sealed_env a : respects sealedSame (envAction a).
Proof.
  apply resp_envAction; [exact _ | |].
  - intros b w [Hl _]. unfold startBackground, mbind, M_bind, gets. rewrite Hl. by split; cbn; try lia.
  - intros k w [_ Hf]. cbn [envAction]. unfold mbind, M_bind, get. by rewrite Hf.
Qed.

Lemma sealed_yield : respects sealedSame yield.
Proof. apply resp_yield; [exact _ | | apply sealed_env]. intros w env _. by split; cbn; try lia. Qed.
End sealed.

(** A round state without votes and proposal gives the rules nothing to do. *)
Record blank (r : RoundState) : Prop := {
  bl_prevotes : rs_prevotes r = [];
  bl_precommits : rs_precommits r = [];
  bl_prevotesCount : rs_prevotesCount r = [];
  bl_precommitsCount : rs_precommitsCount r = [];
  bl_proposal : rs_proposal r = None;
}.
Definition blankAt (l : Z) (w : World) : Prop := ∃ r, w_rounds w !! l = Some r ∧ blank r.

Lemma blankAt_same l w w' : same w w' → blankAt l w → blankAt l w'.
Proof. intros Hsm (r & Hr & Hb). exists r. by rewrite (sm_rounds _ _ Hsm). Qed.

Section blank.
Context `{Services} (Hrv : ∀ n, 0 ≤ roundValidatorsAt n).

Lemma blank_tests r :
  blank r →
  hasMajorityPrevotes roundValidatorsAt r = false ∧ hasMajorityPrevotesAny roundValidatorsAt r = false ∧
  hasMajorityPrevotesNull roundValidatorsAt r = false ∧ hasMajorityPrecommitsAny roundValidatorsAt r = false ∧
  hasMajorityPrecommits roundValidatorsAt r = false ∧ hasMajorityPrecommitsWithoutProposal roundValidatorsAt r = false ∧
  hasMinorityPrevotesOrPrecommits roundValidatorsAt r = false.
Proof.
  intros [H1 H2 H3 H4 H5]. unfold hasMajorityPrevotes, hasMajorityPrevotesAny, hasMajorityPrevotesNull, hasMajorityPrecommitsAny,
    hasMajorityPrecommits, hasMajorityPrecommitsWithoutProposal, hasMinorityPrevotesOrPrecommits, rsIsMajority, rsIsMinority,
    getPrevoteCount. rewrite H1, H2, H3, H4, H5. cbn. change (mapSize []) with 0.
  rewrite isMajority_zero, isMinority_zero by done. done.
Qed.

(** A step that only lets the environment run. *)
Definition idle (l : Z) (w0 : World) (m : M World unit) : Prop :=
  ∀ w, sealed w → blankAt l w → same w0 w → ∃ w', m w = (Ok tt, w') ∧ sealed w' ∧ blankAt l w' ∧ same w0 w'.

Lemma idle_bind l w0 (m m' : M World unit) : idle l w0 m → idle l w0 m' → idle l w0 (m;; m').
Proof. intros Hm Hm' w Hs Hb Hsm. destruct (Hm w Hs Hb Hsm) as (w' & Heq & ?&?&?). rewrite (M_bind_run _ _ _ _ _ Heq). auto. Qed.

Lemma idle_skip l w0 (m : M World unit) : (∀ w, blankAt l w → m w = (Ok tt, w)) → idle l w0 m.
Proof. intros Hm w Hs Hb Hsm. exists w. auto. Qed.

Lemma idle_await l w0 (m : M World unit) : (∀ w, blankAt l w → m w = (Ok tt, w)) → idle l w0 (await m).
Proof.
  intros Hm w Hs Hb Hsm. exists (yield w).2. unfold await. rewrite (Hm w Hb). split; [done |].
  pose proof (sealed_yield w Hs) as Hy. split; [by eapply sealed_same |]. split; [by eapply blankAt_same | by etransitivity].
Qed.

Lemma getRS_run l r w : w_rounds w !! l = Some r → getRS l w = (Ok r, w).
Proof. intros Hr. unfold getRS, mbind, M_bind, get, liftR. by rewrite Hr. Qed.

Lemma read_blank l (f : RoundState → M World unit) :
  (∀ r w, blank r → f r w = (Ok tt, w)) → ∀ w, blankAt l w → (getRS l ≫= f) w = (Ok tt, w).
Proof. intros Hf w (r & Hr & Hb). rewrite (M_bind_run _ _ _ _ _ (getRS_run l r w Hr)). auto. Qed.

Lemma idle_ifRS l w0 test m : (∀ r, blank r → test r = false) → idle l w0 (ifRS l test m).
Proof. intros Ht. apply idle_skip, read_blank. intros r w Hb. by rewrite (Ht r Hb). Qed.

Lemma blank_rules fuel l w : sealed w → blankAt l w → same w (applyRules (S fuel) l w).2.
Proof.
  intros Hs Hb. destruct Hb as (r & Hr & Hb). cbn [applyRules]. rewrite (M_bind_run _ _ _ _ _ (getRS_run l r w Hr)).
  unfold mbind at 1, M_bind at 1, gets at 1. destruct (negb _); [by split; cbn; try lia |].
  assert (∀ m, idle l w m → same w (m w).2) as Hidle.
  { intros m Hm. destruct (Hm w Hs) as (w' & -> & _ & _ & Hsm); [by exists r | reflexivity | exact Hsm]. }
  apply Hidle. repeat apply idle_bind;
    try (by apply idle_ifRS; intros r1 Hb1; apply (blank_tests r1 Hb1));
    try (apply idle_await, read_blank; intros r1 w1 [_ _ _ _ Hp]; unfold mbind, M_bind, gets, getProposal; rewrite Hp;
         by destruct (hasProcessorResult r1)).
  intros w1 Hs1 (r1 & Hr1 & Hb1) Hsm. rewrite (M_bind_run _ _ _ _ _ (getRS_run l r1 w1 Hr1)).
  destruct (blank_tests r1 Hb1) as (_ & _ & _ & _ & _ & -> & _).
  apply (idle_ifRS l w); [| done | by exists r1 | done]. intros r2 Hb2. apply (blank_tests r2 Hb2).
Qed.
End blank.

(** ** Calm changes *)

(** The repository names what it should, and locations are not reused. *)
Record named (w : World) : Prop := {
  nm_next : ∀ l, is_Some (w_rounds w !! l) → l < w_next w;
  nm_repo : ∀ n rd l, mapGet (w_repo w) (n, rd) = Some l → namedAt n rd l w;
}.

(** The commit lock is as before, nothing got stuck, round states keep their
    block number and round, and the block number does not go back. *)
Record calmN (w w' : World) : Prop := {
  cn_named : named w → named w';
  cn_lock : w_commitLock w' = w_commitLock w;
  cn_stuck : EvStuck ∈ w_trace w' → EvStuck ∈ w_trace w;
  cn_number : k_blockNumber (w_core w) ≤ k_blockNumber (w_core w');
  cn_rounds : named w → ∀ l n rd, namedAt n rd l w → namedAt n rd l w';
}.
(** And neither does the round within the block. *)
Definition calm (w w' : World) : Prop :=
  calmN w w' ∧ (k_blockNumber (w_core w') = k_blockNumber (w_core w) → k_round (w_core w) ≤ k_round (w_core w')).

Lemma namedAt_rounds n rd l w w' : w_rounds w' = w_rounds w → namedAt n rd l w → namedAt n rd l w'.
Proof. intros Hr (r & ? & ?). exists r. by rewrite Hr. Qed.

#[export] Instance calmN_benign : Benign calmN.
Proof.
  split; [split |].
  - by intros w; split.
  - intros w1 w2 w3 [] []. split; auto; [congruence | lia].
  - intros w w' []. split; [| done | done | lia |].
    + intros [Hn Hr]. split; [intros l; rewrite sm_rounds0; intros Hl; specialize (Hn l Hl); lia |].
      intros n rd l. rewrite sm_repo0. intros Hl. by eapply namedAt_rounds, Hr.
    + intros _ l n rd. by apply namedAt_rounds.
Qed.

#[export] Instance calm_benign : Benign calm.
Proof.
  split; [split |].
  - intros w. split; [reflexivity | lia].
  - intros w1 w2 w3 [H12 P12] [H23 P23]. split; [by etransitivity |]. intros Heq.
    pose proof (cn_number _ _ H12). pose proof (cn_number _ _ H23). specialize (P12 ltac:(lia)). specialize (P23 ltac:(lia)). lia.
  - intros w w' Hs. split; [by apply bn_same |]. destruct Hs. lia.
Qed.

(** Writing to a round state. *)
Lemma update_calm l (r' : RoundState) w :
  (∀ r, w_rounds w !! l = Some r → rs_blockNumber r' = rs_blockNumber r ∧ rs_round r' = rs_round r) →
  is_Some (w_rounds w !! l) → calm w (w <| w_rounds ::= <[l := r']> |>).
Proof.
  intros Hsame [r0 Hr0]. assert (∀ l1 n rd, namedAt n rd l1 w → namedAt n rd l1 (w <| w_rounds ::= <[l := r']> |>)) as Hmono.
  { intros l1 n rd (r & Hr & Hn & Hrd). unfold namedAt. cbn. destruct (decide (l = l1)) as [<-|Hne].
    - exists r'. rewrite lookup_insert_eq. destruct (Hsame r Hr). split; [done | split; congruence].
    - exists r. by rewrite lookup_insert_ne. }
  split; [split; try done | done]. intros [Hn Hp]. split; cbn; [| intros n rd l1 Hl; by apply Hmono, Hp].
  intros l1 [r1 Hr1]. apply Hn. destruct (decide (l = l1)) as [<-|Hne]; [by exists r0 |].
  rewrite lookup_insert_ne in Hr1 by done. by exists r1.
Qed.

Lemma onRound_calm {A} l (m : M RoundState A) :
  (∀ r, rs_blockNumber (m r).2 = rs_blockNumber r ∧ rs_round (m r).2 = rs_round r) → respects calm (onRound l m).
Proof.
  intros Hm w. unfold onRound, mbind, M_bind, getRS, mbind, M_bind, get, liftR.
  destruct (w_rounds w !! l) as [r|] eqn:Hr; [| cbn; reflexivity]. cbn. specialize (Hm r). destruct (m r) as [res r']. cbn in *.
  apply update_calm; [| by exists r]. intros r0. rewrite Hr. by intros [= <-].
Qed.

Section calm.
Context `{Services}.

Lemma alloc_calm r w : named w → calm w (alloc r w) ∧ named (alloc r w) ∧ w_rounds (alloc r w) !! w_next w = Some r.
Proof.
  intros Hnm. assert (∀ l n rd, namedAt n rd l w → namedAt n rd l (alloc r w)) as Hmono.
  { intros l n rd (r0 & Hr0 & ?). exists r0. unfold alloc. cbn. rewrite lookup_insert_ne; [done |].
    pose proof (nm_next _ Hnm l (mk_is_Some _ _ Hr0)). lia. }
  assert (named (alloc r w)) as Hnm'.
  { split; cbn; [| intros n rd l Hl; by apply Hmono, (nm_repo _ Hnm)]. intros l [r1 Hr1].
    destruct (decide (w_next w = l)) as [<-|Hne]; [lia |]. rewrite lookup_insert_ne in Hr1 by done.
    pose proof (nm_next _ Hnm l (mk_is_Some _ _ Hr1)). lia. }
  split; [| split; [done | by unfold alloc; cbn; rewrite lookup_insert_eq]].
  split; [by split | done].
Qed.

(** The round state that [getRoundState] gives is the one asked for, and blank
    when it is new. *)
Lemma getRoundState_calm n rd w :
  named w →
  calm w (getRoundState n rd w).2 ∧
  ∀ l, (getRoundState n rd w).1 = Ok l →
    namedAt n rd l (getRoundState n rd w).2 ∧
    (mapGet (w_repo w) (n, rd) = Some l ∧ (getRoundState n rd w).2 = w ∨ blankAt l (getRoundState n rd w).2).
Proof.
  intros Hnm. unfold getRoundState, mbind, M_bind, get. destruct (mapGet (w_repo w) (n, rd)) as [l|] eqn:Hl.
  { split; [reflexivity |]. intros ? [= <-]. split; [by apply (nm_repo _ Hnm) | by left]. }
  rewrite createRoundState_eq. destruct (getRoundValidators _ _) as [validators|e]; [| split; [reflexivity | done]].
  set (r := configure _ _ _ _ _). destruct (alloc_calm r w Hnm) as (Hc & Hnm' & Hr). cbn.
  set (w1 := (alloc r w) <| w_repo := _ |>). assert (calm (alloc r w) w1) as Hc1.
  { split; [split; try done | done]. intros [Hn Hp]. split; [done |]. intros n' rd' l'. cbn. rewrite mapGet_set.
    case_decide as Heq; [| apply Hp]. injection Heq as <- <-. intros [= <-]. by exists r. }
  split; [by etransitivity |]. intros ? [= <-]. split; [by exists r |]. right. by exists r.
Qed.
End calm.

(** ** Calm as long as a condition holds *)
Definition under (P : World → Prop) (w w' : World) : Prop := P w → calm w w' ∧ P w'.
Class Kept (P : World → Prop) := kept : ∀ w w', same w w' → P w → P w'.
#[export] Instance under_benign P `{!Kept P} : Benign (under P).
Proof.
  split; [split |].
  - by intros w HP.
  - intros w1 w2 w3 H12 H23 HP. destruct (H12 HP) as [? HP2]. destruct (H23 HP2). split; [by etransitivity | done].
  - intros w w' Hs HP. split; [by apply bn_same | by eapply kept].
Qed.

(** Between handlers, and in a handler outside the section. *)
Definition free (w : World) : Prop := named w ∧ w_commitLock w = false.
(** In the section; and once it has emptied the repository. *)
Definition inside (w : World) : Prop := named w ∧ sealed w.
Definition fresh (w : World) : Prop := inside w ∧ ∀ k l, mapGet (w_repo w) k = Some l → blankAt l w.

#[export] Instance named_kept : Kept named.
Proof. intros w w' Hs. exact (cn_named _ _ (bn_same w w' Hs : calmN w w')). Qed.
#[export] Instance free_kept : Kept free.
Proof. intros w w' Hs [Hn Hl]. split; [by eapply kept | by rewrite (sm_lock _ _ Hs)]. Qed.
#[export] Instance inside_kept : Kept inside.
Proof. intros w w' Hs [Hn Hl]. split; [by eapply kept | by eapply sealed_same]. Qed.
#[export] Instance fresh_kept : Kept fresh.
Proof.
  intros w w' Hs [Hi Hb]. split; [by eapply kept |]. intros k l. rewrite (sm_repo _ _ Hs). intros Hl.
  by eapply blankAt_same, Hb.
Qed.

Section under.
Context `{Services}.

Lemma free_of_named {A} (m : M World A) : respects (under named) m → respects (under free) m.
Proof.
  intros Hm w [Hn Hl]. destruct (Hm w Hn) as [Hc Hn']. split; [done |]. split; [done |].
  by rewrite (cn_lock _ _ (proj1 Hc)).
Qed.

Lemma named_calm {A} (m : M World A) : (∀ w, named w → calm w (m w).2) → respects (under named) m.
Proof. intros Hm w Hn. pose proof (Hm w Hn) as Hc. split; [done |]. by apply (cn_named _ _ (proj1 Hc)). Qed.

Lemma named_getRoundState n rd : respects (under named) (getRoundState n rd).
Proof. apply named_calm. intros w Hn. by apply getRoundState_calm. Qed.

Lemma named_onRound {A} l (m : M RoundState A) :
  (∀ r, rs_blockNumber (m r).2 = rs_blockNumber r ∧ rs_round (m r).2 = rs_round r) → respects (under named) (onRound l m).
Proof. intros Hm. apply named_calm. intros w _. by apply onRound_calm. Qed.

Lemma named_push f : respects (under named) (modify (λ w, w <| w_inFlight ::= λ l, l ++ [f] |>)).
Proof. apply named_calm. intros w [Hn Hp]. by split; [split; try done |]. Qed.

Lemma addMessage_place m r : rs_blockNumber (addMessage m r).2 = rs_blockNumber r ∧ rs_round (addMessage m r).2 = rs_round r.
Proof.
  unfold addMessage, addPrevote, addPrecommit, increasePrevoteCount, increasePrecommitCount, mbind, M_bind, get, modify, throw.
  by repeat case_match; simplify_eq/=.
Qed.

Lemma addProposal_place p r : rs_blockNumber (addProposal p r).2 = rs_blockNumber r ∧ rs_round (addProposal p r).2 = rs_round r.
Proof. unfold addProposal, mbind, M_bind, get, modify, throw. by destruct (isSome (rs_proposal r)). Qed.

Lemma getCommit_place r : rs_blockNumber (getCommit roundValidatorsAt r).2 = rs_blockNumber r ∧ rs_round (getCommit roundValidatorsAt r).2 = rs_round r.
Proof.
  unfold getCommit, mbind, M_bind, get, liftR, modify, mret, M_ret. by repeat case_match; simplify_eq/=.
Qed.

Lemma named_handleRoundState l : respects (under named) (handleRoundState l).
Proof. apply resp_silent; [exact _ |]. apply silent_handle. Qed.

Lemma named_finish f : respects (under named) (finishInFlight f).
Proof.
  destruct f; cbn [finishInFlight]; unfold messageFinish, proposalFinish; resp;
    try apply named_handleRoundState; try (apply resp_storage; exact _); apply named_onRound;
    [apply addMessage_place | apply addProposal_place].
Qed.

Lemma named_start b : respects (under named) (startBackground b).
Proof.
  unfold startBackground, messageBegin, proposalBegin. resp; try apply named_getRoundState; try apply named_push.
  apply resp_same; [exact _ |]. intros w. by split; cbn; try lia.
Qed.

Lemma named_env a : respects (under named) (envAction a).
Proof.
  apply resp_envAction; [exact _ | apply named_start |]. intros k. cbn [envAction]. resp; [| apply named_finish].
  apply named_calm. intros w Hn. by split; [split; try done; by destruct Hn |].
Qed.

Lemma named_yield : respects (under named) yield.
Proof.
  apply resp_yield; [exact _ | | apply named_env]. intros w env. apply bn_same. by split; cbn; try lia.
Qed.
End under.

(** ** Committing a block *)
Section commit.
Context `{Services} (Hrv : ∀ n, 0 ≤ roundValidatorsAt n).

Lemma inside_yield : respects (under inside) yield.
Proof. intros w Hi. apply (bn_same (R := under inside)); [apply sealed_yield, Hi | done]. Qed.
Lemma fresh_yield : respects (under fresh) yield.
Proof. intros w Hf. apply (bn_same (R := under fresh)); [apply sealed_yield, Hf | done]. Qed.

Lemma getRoundState_sealed n rd w : sealed w → sealed (getRoundState n rd w).2.
Proof.
  unfold getRoundState, mbind, M_bind, get. destruct (mapGet _ _); [done |]. rewrite createRoundState_eq.
  by destruct (getRoundValidators _ _).
Qed.

(** A round state created in the section is blank. *)
Lemma fresh_getRoundState n rd w :
  fresh w → fresh (getRoundState n rd w).2 ∧ ∀ l, (getRoundState n rd w).1 = Ok l → blankAt l (getRoundState n rd w).2.
Proof.
  intros [[Hn Hs] Hb]. destruct (getRoundState_calm n rd w Hn) as [Hc Hl]. pose proof (getRoundState_sealed n rd w Hs) as Hs'.
  assert (∀ l, (getRoundState n rd w).1 = Ok l → blankAt l (getRoundState n rd w).2) as Hblank.
  { intros l Hok. destruct (Hl l Hok) as [_ [[Hrep ->]|Hnew]]; [by eapply Hb | done]. }
  split; [| done]. split; [split; [by apply (cn_named _ _ (proj1 Hc)) | done] |]. revert Hblank. clear Hl Hc Hs'.
  unfold getRoundState, mbind, M_bind, get. destruct (mapGet (w_repo w) (n, rd)) as [l0|] eqn:Hrep; [by intros _ |].
  rewrite createRoundState_eq. destruct (getRoundValidators _ _) as [validators|e]; [| by intros _].
  cbn. intros Hblank k l. rewrite mapGet_set. case_decide; [intros [= <-]; by apply Hblank |]. intros Hk.
  destruct (Hb k l Hk) as (r & Hr & Hbl). exists r. split; [| done]. cbn. rewrite lookup_insert_ne; [done |].
  pose proof (nm_next _ Hn l (mk_is_Some _ _ Hr)). lia.
Qed.

Lemma fresh_round n rd : respects (under fresh) (getRoundState n rd).
Proof.
  intros w Hf. split; [apply getRoundState_calm, Hf | by apply fresh_getRoundState].
Qed.

(** The next block's first round: nothing to do. *)
Lemma fresh_enter fuel n rd : respects (under fresh) (l ← getRoundState n rd; await (applyRules (S fuel) l)).
Proof.
  intros w Hf. destruct (fresh_getRoundState n rd w Hf) as [Hf1 Hblank]. destruct (fresh_round n rd w Hf) as [H01 _].
  unfold mbind, M_bind. destruct (getRoundState n rd w) as [[l|e] w1]; cbn [fst snd] in *; [| done].
  assert (same w1 (await (applyRules (S fuel) l) w1).2) as H12.
  { pose proof (blank_rules Hrv fuel l w1 (proj2 (proj1 Hf1)) (Hblank l eq_refl)) as Hsm. unfold await.
    destruct (applyRules (S fuel) l w1) as [res w2]. cbn [snd] in *. etransitivity; [exact Hsm |]. apply sealed_yield.
    eapply sealed_same; [exact Hsm | apply Hf1]. }
  split; [etransitivity; [exact H01 | by apply bn_same] | by eapply kept].
Qed.

Lemma firstRound_calm fuel w :
  fresh w → calmN w (startRound (applyRules (S fuel)) 0 w).2 ∧ fresh (startRound (applyRules (S fuel)) 0 w).2.
Proof.
  intros Hf. unfold startRound. change (0 <? 0) with false. cbn [when].
  match goal with |- context [setCore ?f] => set (w1 := w <| w_core ::= f |>) end.
  assert (calmN w w1) as H01 by (split; try done; intros [Hn Hp]; by split).
  assert (fresh w1) as Hf1 by (destruct Hf as [[[Hn Hp] Hs] Hb]; by split; [split; [split |] |]).
  rewrite (M_bind_run (setCore _) _ w tt w1 eq_refl), (M_bind_run (mret tt) _ w1 tt w1 eq_refl).
  match goal with |- calmN _ (?m w1).2 ∧ _ => assert (respects (under fresh) m) as Hm end.
  { pose proof fresh_yield as Hy. resp_step; [resp_step; apply resp_beginRound; [exact _ | exact Hy | exact fresh_round] |].
    resp_step; [by resp |]. resp_step; [by resp |]. apply fresh_enter. }
  destruct (Hm w1 Hf1) as [[H12 _] Hf2]. split; [by etransitivity | done].
Qed.

Lemma inside_onRound l : respects (under inside) (onRound l (getCommit roundValidatorsAt)).
Proof.
  intros w [Hn Hs]. destruct (named_onRound l (getCommit roundValidatorsAt) getCommit_place w Hn) as [Hc Hn'].
  split; [done |]. split; [done |]. unfold onRound, mbind, M_bind, getRS, mbind, M_bind, get, liftR.
  destruct (w_rounds w !! l); [| done]. cbn. by destruct (getCommit roundValidatorsAt _).
Qed.

Lemma inside_commitUnit u : respects (under inside) (await (commitUnit u)).
Proof.
  pose proof inside_yield as Hy. unfold commitUnit, accepted, milestoneValidators. resp; try (apply resp_chain; exact _).
  - unfold unitCommit. resp. apply inside_onRound.
  - apply resp_emit; [exact _ | done].
Qed.

Definition commitSection (rules : Z → M World unit) (u : ProcessableUnit) : M World unit :=
  tryCatch (await (commitUnit u)) (λ _, throw (FatalError "Failed to commit block"));;
  clearRoundStates;;
  setCore (λ c, c <| k_blockNumber ::= Z.succ |> <| k_lockedValue := None |> <| k_validValue := None |>);;
  await (startRound rules 0).

Lemma section_calm fuel u w : inside w → calm w (commitSection (applyRules (S fuel)) u w).2.
Proof.
  intros Hi. unfold commitSection. assert (respects (under inside) (tryCatch (await (commitUnit u))
    (λ _, throw (FatalError "Failed to commit block")))) as Hcommit.
  { resp_step; [apply inside_commitUnit |]. apply resp_ro; [exact _ | apply ro_throw]. }
  destruct (Hcommit w Hi) as [H01 Hi1]. unfold mbind at 1, M_bind at 1.
  destruct (tryCatch _ _ w) as [[[]|e] w1]; cbn [snd] in *; [| done].
  match goal with |- context [setCore ?f] => set (w2 := w1 <| w_repo := [] |> <| w_core ::= f |>) end.
  rewrite (M_bind_run clearRoundStates _ w1 tt (w1 <| w_repo := [] |>) eq_refl), (M_bind_run (setCore _) _ _ tt w2 eq_refl).
  assert (fresh w2) as Hf2 by (destruct Hi1 as [[Hn Hp] Hs]; by split; [split; [split |] |]).
  assert (calmN w1 w2) as H12 by (split; try done; [intros [Hn Hp]; by split | cbn; lia]).
  destruct (firstRound_calm fuel w2 Hf2) as [H23 Hf3]. unfold await.
  destruct (startRound (applyRules (S fuel)) 0 w2) as [res w3]. cbn [snd] in *.
  destruct (fresh_yield w3 Hf3) as [[H34 _] _]. assert (calmN w2 (yield w3).2) as H24 by (by etransitivity).
  split; [etransitivity; [apply H01 | by etransitivity] |]. pose proof (cn_number _ _ H24) as Hle.
  pose proof (cn_number _ _ (proj1 H01)). change (k_blockNumber (w_core w2)) with (Z.succ (k_blockNumber (w_core w1))) in Hle. lia.
Qed.

(** Finishing a processor call starts no other. *)
Definition sameFlight (w w' : World) : Prop := w_inFlight w' = w_inFlight w.
#[export] Instance sameFlight_benign : Benign sameFlight.
Proof. split; [split; [done | unfold sameFlight; congruence] | by intros w w' []]. Qed.

Lemma onRound_flight {A} l (m : M RoundState A) : respects sameFlight (onRound l m).
Proof.
  intros w. unfold onRound, mbind, M_bind, getRS, mbind, M_bind, get, liftR. destruct (w_rounds w !! l); [| done].
  cbn. by destruct (m _).
Qed.

Lemma finish_flight f : respects sameFlight (finishInFlight f).
Proof.
  destruct f; cbn [finishInFlight]; unfold messageFinish, proposalFinish; resp; try apply onRound_flight;
    try (apply resp_storage; exact _); (apply resp_silent; [exact _ | apply silent_handle]).
Qed.

Lemma drain_inside w : named w → w_commitLock w = true → calm w (drain w).2 ∧ inside (drain w).2.
Proof.
  intros Hn Hl. set (w1 := w <| w_inFlight := [] |>). assert (named w1) as Hn1 by (by destruct Hn).
  destruct (resp_foldl (under named) finishInFlight (w_inFlight w) w1 named_finish Hn1) as [Hc Hn2].
  assert (calm w w1) as H01 by (split; [split; try done; by intros [] | done]).
  pose proof (resp_foldl sameFlight finishInFlight (w_inFlight w) w1 finish_flight) as Hfl.
  split; [by etransitivity |]. split; [done |]. split; [| exact Hfl].
  change (w_commitLock (foldl (λ w f, run_in (finishInFlight f) w) w1 (w_inFlight w)) = true).
  by rewrite (cn_lock _ _ (proj1 Hc)).
Qed.

Lemma exclusive_run (m : M World unit) w :
  w_commitLock w = false →
  runExclusive m w = let '(r, w') := (yield;; await drain;; m) (w <| w_commitLock := true |>) in (r, w' <| w_commitLock := false |>).
Proof. intros Hl. unfold runExclusive, mbind at 1, M_bind at 1, gets. by rewrite Hl. Qed.

(** Taking the lock, waiting for the calls in flight, the section, releasing it. *)
Lemma exclusive_calm (m : M World unit) :
  (∀ w, inside w → calm w (m w).2) → respects (under free) (runExclusive m).
Proof.
  intros Hm w [Hn Hl]. rewrite (exclusive_run m w Hl). set (w1 := w <| w_commitLock := true |>).
  assert (named w1) as Hn1 by (by destruct Hn). destruct (named_yield w1 Hn1) as [H12 Hn2].
  assert (calm w1 ((yield;; await drain;; m) w1).2) as Hbody.
  { unfold mbind, M_bind. destruct (yield w1) as [[[]|e] w2]; cbn [snd] in *; [| done].
    destruct (drain_inside w2 Hn2) as [H23 Hi3]; [by rewrite (cn_lock _ _ (proj1 H12)) |].
    unfold await. destruct (drain w2) as [res w3]. cbn [snd] in *. destruct (inside_yield w3 Hi3) as [H34 Hi4].
    assert (calm w1 (yield w3).2) as H14 by (etransitivity; [exact H12 | by etransitivity]).
    destruct res as [[]|e]; [| done]. etransitivity; [exact H14 | by apply Hm]. }
  destruct ((yield;; await drain;; m) w1) as [res w5]. cbn [snd] in *.
  destruct Hbody as [[Hnm _ Hst Hnu Hro] Hrd]. split.
  - split; [| exact Hrd]. split; [intros _; destruct (Hnm Hn1); by split | done | exact Hst | exact Hnu |].
    intros _ l n rd Hnamed. by apply (Hro Hn1).
  - split; [destruct (Hnm Hn1); by split | done].
Qed.
End commit.

(** ** The rules *)
Section rules.
Context `{Services} (Hrv : ∀ n, 0 ≤ roundValidatorsAt n).

Lemma free_yield : respects (under free) yield.
Proof. apply free_of_named, named_yield. Qed.
Lemma free_round n rd : respects (under free) (getRoundState n rd).
Proof. apply free_of_named, named_getRoundState. Qed.
Lemma free_onRound {A} l (m : M RoundState A) :
  (∀ r, rs_blockNumber (m r).2 = rs_blockNumber r ∧ rs_round (m r).2 = rs_round r) → respects (under free) (onRound l m).
Proof. intros Hm. by apply free_of_named, named_onRound. Qed.

#[local] Hint Resolve free_yield free_round : core.
Ltac free_leaf :=
  first [ apply resp_vote; [exact _ | done | done] | apply resp_persist; [exact _ | done] | apply resp_dispatch; [exact _ | done]
        | apply resp_setCore; [exact _ | done] | apply free_onRound; done ].

Lemma free_processProposal l : respects (under free) (processProposal l).
Proof. pose proof free_yield. unfold processProposal, deserializeProposal. resp; free_leaf. Qed.
Lemma free_onProposal l : respects (under free) (onProposal l).
Proof. pose proof free_yield. unfold onProposal, prevote. resp; free_leaf. Qed.
Lemma free_onProposalLocked l : respects (under free) (onProposalLocked l).
Proof. pose proof free_yield. unfold onProposalLocked, prevote. resp; free_leaf. Qed.
Lemma free_onMajorityPrevote l : respects (under free) (onMajorityPrevote l).
Proof. pose proof free_yield. unfold onMajorityPrevote, precommit. resp; free_leaf. Qed.
Lemma free_onMajorityPrevoteAny l : respects (under free) (onMajorityPrevoteAny l).
Proof.
  pose proof free_yield. unfold onMajorityPrevoteAny. resp; [| free_leaf]. apply resp_silent; [exact _ |]. apply silent_schedulePrevote.
Qed.
Lemma free_onMajorityPrevoteNull l : respects (under free) (onMajorityPrevoteNull l).
Proof. pose proof free_yield. unfold onMajorityPrevoteNull, precommit. resp; free_leaf. Qed.
Lemma free_onMajorityPrecommitAny l : respects (under free) (onMajorityPrecommitAny l).
Proof.
  pose proof free_yield. unfold onMajorityPrecommitAny. resp; [| free_leaf]. apply resp_silent; [exact _ |]. apply silent_schedulePrecommit.
Qed.
Lemma free_withoutProposal l : respects (under free) (onMajorityPrecommitWithoutProposal l).
Proof. unfold onMajorityPrecommitWithoutProposal. resp; free_leaf. Qed.
Lemma free_beginRound : respects (under free) beginRound.
Proof. by apply resp_beginRound; [exact _ | |]. Qed.

(** Committing nests one level. *)
Lemma free_onMajorityPrecommit fuel u b : respects (under free) (onMajorityPrecommit (applyRules (S fuel)) u b).
Proof.
  pose proof free_yield. unfold onMajorityPrecommit. resp; try free_leaf.
  apply exclusive_calm. intros w Hi. by apply (section_calm Hrv fuel u).
Qed.

(** The rules of one round state, given what its last one does. *)
Lemma rules_calm P `{!Kept P} fuel l :
  (∀ A (m : M World A), respects (under free) m → respects (under P) m) →
  respects (under P) (onMinorityWithHigherRound (applyRules (S fuel)) l) → respects (under P) (applyRules (S (S fuel)) l).
Proof.
  intros HP Hlast. pose proof (HP _ _ free_yield) as Hy.
  remember (S fuel) as f eqn:Hf. cbn [applyRules]. unfold ifRS. resp; apply HP; subst f.
  - apply free_processProposal.
  - apply free_onProposal.
  - apply free_onProposalLocked.
  - apply free_onMajorityPrevote.
  - apply free_onMajorityPrevoteAny.
  - apply free_onMajorityPrevoteNull.
  - apply free_onMajorityPrecommitAny.
  - apply free_onMajorityPrecommit.
  - apply free_withoutProposal.
Qed.

(** A round state that is not ahead of the position never is. *)
Definition notAhead (l : Z) (w : World) : Prop :=
  ∃ n rd, namedAt n rd l w ∧ (n < k_blockNumber (w_core w) ∨ n = k_blockNumber (w_core w) ∧ rd ≤ k_round (w_core w)).
Definition settled (l : Z) (w : World) : Prop := free w ∧ notAhead l w.

Lemma notAhead_calm l w w' : named w → calm w w' → notAhead l w → notAhead l w'.
Proof.
  intros Hn [Hc Hp] (n & rd & Hat & Hle). exists n, rd. split; [by apply (cn_rounds _ _ Hc Hn) |].
  pose proof (cn_number _ _ Hc). destruct (decide (k_blockNumber (w_core w') = k_blockNumber (w_core w))) as [Heq|]; [| lia].
  specialize (Hp Heq). lia.
Qed.

#[local] Instance settled_kept l : Kept (settled l).
Proof.
  intros w w' Hs [Hf Ha]. split; [by eapply kept |]. eapply notAhead_calm; [apply Hf | by apply bn_same | done].
Qed.

Lemma settled_free l {A} (m : M World A) : respects (under free) m → respects (under (settled l)) m.
Proof.
  intros Hm w [Hf Ha]. destruct (Hm w Hf) as [Hc Hf']. split; [done |]. split; [done |].
  eapply notAhead_calm; [apply Hf | done | done].
Qed.

Lemma settled_rules fuel l : respects (under (settled l)) (applyRules (S (S fuel)) l).
Proof.
  apply rules_calm; [exact _ | intros A m; apply settled_free |]. intros w Hs.
  pose proof Hs as [_ (n & rd & (r & Hr & Hn & Hrd) & Hle)]. unfold onMinorityWithHigherRound.
  rewrite (M_bind_run _ _ _ _ _ (getRS_run l r w Hr)). unfold mbind, M_bind, gets.
  assert ((rs_blockNumber r =? k_blockNumber (w_core w)) && (k_round (w_core w) <? rs_round r) = false) as ->; [| by split].
  apply andb_false_iff. rewrite Z.eqb_neq, Z.ltb_ge. lia.
Qed.

(** The current round is not ahead. *)
Lemma free_enter fuel :
  respects (under free)
    (c ← gets w_core;
     if k_isDisposed c then mret tt
     else l ← getRoundState (k_blockNumber c) (k_round c); await (applyRules (S (S fuel)) l)).
Proof.
  intros w Hf. unfold mbind, M_bind, gets. destruct (k_isDisposed _); [by split |].
  set (n := k_blockNumber (w_core w)). set (rd := k_round (w_core w)).
  destruct (getRoundState_calm n rd w (proj1 Hf)) as [_ Hl]. destruct (free_round n rd w Hf) as [H01 Hf1].
  destruct (getRoundState n rd w) as [[l|e] w1]; cbn [fst snd] in *; [| done]. destruct (Hl l eq_refl) as [Hat _].
  assert (settled l w1) as Hs.
  { split; [done |]. exists n, rd. split; [done |]. destruct H01 as [Hc Hp]. pose proof (cn_number _ _ Hc) as Hn.
    destruct (decide (k_blockNumber (w_core w1) = k_blockNumber (w_core w))) as [Heq|]; [specialize (Hp Heq) |]; subst n rd; lia. }
  assert (respects (under (settled l)) (await (applyRules (S (S fuel)) l))) as Hrules.
  { apply resp_await; [exact _ | apply settled_free, free_yield | apply settled_rules]. }
  destruct (Hrules w1 Hs) as [H12 [Hf2 _]]. split; [by etransitivity | done].
Qed.

(** Starting a later round nests two levels. *)
Lemma free_startRound fuel round w :
  free w → k_round (w_core w) ≤ round →
  calm w (startRound (applyRules (S (S fuel))) round w).2 ∧ free (startRound (applyRules (S (S fuel))) round w).2.
Proof.
  intros Hf Hle. unfold startRound.
  match goal with |- context [setCore ?f] => set (w1 := w <| w_core ::= f |>) end.
  rewrite (M_bind_run (setCore _) _ w tt w1 eq_refl).
  assert (calm w w1) as H01 by (split; [split; try done; by intros [] | done]).
  assert (free w1) as Hf1 by (destruct Hf as [[] Hl]; split; [by split | exact Hl]).
  match goal with |- calm _ (?m w1).2 ∧ _ => assert (respects (under free) m) as Hm end.
  { pose proof free_yield as Hy. resp_step; [resp_step; apply resp_persist; [exact _ | exact Hy] |].
    resp_step; [resp_step; exact free_beginRound | apply free_enter]. }
  destruct (Hm w1 Hf1) as [H12 Hf2]. split; [by etransitivity | done].
Qed.

Lemma free_rules fuel l : respects (under free) (applyRules (S (S (S fuel))) l).
Proof.
  apply rules_calm; [exact _ | done |]. intros w. unfold onMinorityWithHigherRound.
  apply (resp_read (under free)); [apply ro_getRS |]. intros r _ Hf. unfold mbind, M_bind, gets. destruct (rs_blockNumber r =? _); [| by split].
  destruct (Z.ltb_spec (k_round (w_core w)) (rs_round r)) as [Hlt|]; [| by split]. cbn [andb negb].
  destruct (free_startRound fuel (rs_round r) w Hf) as [H01 Hf1]; [lia |]. unfold await.
  destruct (startRound _ _ w) as [res w1]. cbn [snd] in *. destruct (free_yield w1 Hf1) as [H12 Hf2].
  split; [by etransitivity | done].
Qed.

(** ** The handlers *)
Lemma free_running (m : M World unit) : respects (under free) m → respects (under free) (whenRunning m).
Proof. intros Hm. unfold whenRunning. by resp. Qed.

Lemma free_handle fuel l : respects (under free) (handle (S (S (S fuel))) l).
Proof.
  pose proof free_yield. unfold handle. resp_step; [free_leaf |]. apply free_running. resp_step. apply free_rules.
Qed.

Lemma free_commitState fuel l : respects (under free) (handleCommitState (S fuel) l).
Proof.
  pose proof free_yield. unfold handleCommitState, processCommitState. apply free_running.
  resp_step; [by resp |]. resp_step; [by resp |]. resp_step; [by resp |]. resp_step; [| resp_step; apply free_onMajorityPrecommit].
  resp. apply resp_same; [exact _ |]. intros w. by split; cbn; try lia.
Qed.

Lemma getRoundState_core n rd w : w_core (getRoundState n rd w).2 = w_core w.
Proof.
  unfold getRoundState, mbind, M_bind, get. destruct (mapGet _ _); [done |]. rewrite createRoundState_eq.
  by destruct (getRoundValidators _ _).
Qed.

Lemma free_timeoutPrecommit fuel n rd : respects (under free) (onTimeoutPrecommit (S (S fuel)) n rd).
Proof.
  apply free_running. intros w. apply (resp_read (under free)); [apply ro_gets |]. intros c [= <-].
  destruct (negb _); [by intros Hf |]. set (c := w_core w).
  assert (∀ l w1, w_core w1 = c →
    under free w1 ((logPrevotes l;; logPrecommits l;; await (startRound (applyRules (S (S fuel))) (k_round c + 1))) w1).2) as Hrest.
  { intros l w1 Hc. apply (resp_read (under free)); [apply ro_logPrevotes |]. intros _ _.
    apply (resp_read (under free)); [apply ro_logPrecommits |]. intros _ _ Hf1. unfold await.
    destruct (free_startRound fuel (k_round c + 1) w1 Hf1) as [H12 Hf2]; [rewrite Hc; lia |].
    destruct (startRound _ _ w1) as [res w2]. cbn [snd] in *. destruct (free_yield w2 Hf2) as [H23 Hf3].
    split; [by etransitivity | done]. }
  pose proof (free_round (k_blockNumber c) (k_round c) w) as Hround.
  pose proof (getRoundState_core (k_blockNumber c) (k_round c) w) as Hcore.
  unfold mbind at 1, M_bind at 1. destruct (getRoundState _ _ w) as [[l|e] w1]; cbn [snd] in *; [| done].
  etransitivity; [exact Hround | by apply Hrest].
Qed.

Lemma free_job fuel j : respects (under free) (runJob (S (S (S fuel))) j).
Proof.
  pose proof free_yield. destruct j; cbn [runJob].
  - apply free_handle.
  - apply free_commitState.
  - unfold onTimeoutPropose, prevote. apply free_running. resp; free_leaf.
  - unfold onTimeoutPrevote, precommit. apply free_running. resp; try free_leaf. apply free_round.
  - apply free_timeoutPrecommit.
Qed.

Lemma free_runFrom fuel : respects (under free) (runFrom (S (S fuel))).
Proof.
  pose proof free_yield as Hy. unfold runFrom. resp_step; [free_leaf |]. resp_step; [resp_step; exact free_beginRound |].
  apply free_enter.
Qed.
End rules.

(** ** The system *)

(** The steps of a node whose handlers may nest three levels or more. *)
Inductive deepStep `{Services} : World → World → Prop :=
  | deep_env a w : deepStep w (run_in (envAction a) w)
  | deep_job fuel j js js' w : (3 ≤ fuel)%nat → w_jobs w = js ++ j :: js' →
      deepStep w (run_in (runJob fuel j) (w <| w_jobs := js ++ js' |>))
  | deep_schedule env w : deepStep w (w <| w_env := env |>).

Lemma deepStep_free `{Services} w w' :
  (∀ n, 0 ≤ roundValidatorsAt n) → deepStep w w' → under free w w'.
Proof.
  intros Hrv [a w1|fuel j js js' w1 Hfuel Hjobs|env w1].
  - apply free_of_named, named_env.
  - destruct fuel as [|[|[|fuel]]]; [lia.. |]. etransitivity; [| by apply (free_job Hrv fuel j)].
    apply bn_same. by split; cbn; try lia.
  - apply bn_same. by split; cbn; try lia.
Qed.

(** C8. Handlers complete: in a process that started from a restored state, with
    any interleaving of handlers, timers, deliveries and commits, the rules never
    nest deeper than three calls, and no handler ever waits for the commit lock
    while it holds it, although the next round starts inside the exclusive
    section; between two handlers the lock is free. *)
Theorem handlers_complete `{Services} Genuine ProofOf CommitOf Trusted s w0 w fuel :
  (∀ n, 0 ≤ roundValidatorsAt n) → restored Genuine ProofOf CommitOf Trusted s w0 → w_commitLock w0 = false →
  (3 ≤ fuel)%nat → rtc deepStep (run_in (run fuel s) w0) w →
  (EvStuck ∉ w_trace w) ∧ w_commitLock w = false.
Proof.
  intros Hrv Hr Hl Hfuel Hsteps. destruct fuel as [|[|fuel]]; [lia.. |].
  set (w1 := w0 <| w_core ::= enter s |>). assert (free w1) as Hf1.
  { pose proof (rt_heap _ _ _ _ _ _ Hr) as Hok. split; [split; [apply (ho_next _ _ _ _ _ Hok) | apply (ho_repo _ _ _ _ _ Hok)] | done]. }
  destruct (free_runFrom Hrv fuel w1 Hf1) as [[H12 _] Hf2]. change (runFrom (S (S fuel)) w1).2 with (run_in (run (S (S fuel)) s) w0) in *.
  assert (EvStuck ∉ w_trace (run_in (run (S (S fuel)) s) w0)) as Hns2.
  { intros Hin%(cn_stuck _ _ H12). change (w_trace w1) with (w_trace w0) in Hin. rewrite (rt_trace _ _ _ _ _ _ Hr) in Hin.
    by apply elem_of_nil in Hin. }
  clear H12. induction Hsteps as [w|w2 w3 w Hstep _ IH]; [split; [done | apply Hf2] |].
  destruct (deepStep_free _ _ Hrv Hstep Hf2) as [[Hc _] Hf3]. apply IH; [done |]. intros Hin%(cn_stuck _ _ Hc). done.
Qed.
