(* ===== verification/Bootstrapper.v ===== *)
(** * packages/consensus/source/bootstrapper.ts

    What a process does before [run]: it reads the records of the consensus
    store, loads the votes and proposals of the current block into round states
    and restores its position and its lock.  A restored lock is backed by stored
    prevotes, so the process starts in a state from which the safety theorems
    apply. *)
From S2P Require Import Prelude Bytes Serializer Messages Blocks Proposals Commits JsMap Quorum BlockchainUtils.
From S2P Require Import ValidatorSet RoundState RoundStateFacts ConsensusStorage Node Processors CommitBatch Consensus.
From S2P Require Import ConsensusHeap ConsensusInvariant ConsensusSafety ConsensusTheorems.

Section bootstrapper.
Context `{Services}.

(** [type Records]. *)
Record Records := mkRecords {
  rc_state : option StateData;
  rc_proposals : list Proposal;
  rc_messages : list Message;
}.

Definition initialState (blockNumber : Z) : State := mkState blockNumber 0 Propose None None.

(** [#readRecords]: an unreadable store is cleared. *)
Definition readRecords : M World (option Records) :=
  tryCatch
    (w ← get;
     let rva := roundValidatorsOr (w_chain w) in
     messages ← liftR (getMessages rva (w_storage w));
     proposals ← liftR (getProposals rva isAddress (w_storage w));
     mret (Some (mkRecords (getState (w_storage w)) proposals messages)))
    (λ _, onStorage clear;; mret None).

(** [#loadRounds]: records of another block are dropped. *)
Definition loadRounds (blockNumber : Z) (records : Records) : M World unit :=
  let proposalsOfBlock := List.filter (λ p, p_blockNumber p =? blockNumber) (rc_proposals records) in
  let messagesOfBlock := List.filter (λ m, msg_blockNumber m =? blockNumber) (rc_messages records) in
  forEach proposalsOfBlock (λ p,
    l ← getRoundState blockNumber (p_round p); onRound l (addProposal p));;
  forEach messagesOfBlock (λ m,
    l ← getRoundState blockNumber (msg_round m); onRound l (addMessage m)).

(** [#getProvenRoundState]. *)
Definition getProvenRoundState (blockNumber round : Z) : M World Z :=
  l ← getRoundState blockNumber round;
  r ← getRS l;
  match getProposal r with
  | None => throw (JSError "refusing to start on an inconsistent consensus store: the proposal is not stored")
  | Some proposal =>
      Consensus.deserializeProposal l proposal;;
      r ← getRS l;
      if negb (hasMajorityPrevotes roundValidatorsAt r) then
        throw (JSError "refusing to start on an inconsistent consensus store: the +2/3 prevotes are not stored")
      else mret l
  end.

Definition getProven (blockNumber : Z) (round : option Z) : M World (option Z) :=
  match round with
  | None => mret None
  | Some r => l ← getProvenRoundState blockNumber r; mret (Some l)
  end.

(** [#restoreState]. *)
Definition restoreState (blockNumber : Z) (stored : StateData) : M World State :=
  valid ← getProven blockNumber (sd_validRound stored);
  locked ← getProven blockNumber (sd_lockedRound stored);
  mret (mkState (sd_blockNumber stored) (sd_round stored) (sd_step stored) locked valid).

Definition bootstrap : M World State :=
  chain ← gets w_chain;
  last ← liftR (getLastBlock chain);
  let blockNumber := b_number last + 1 in
  if negb (blockNumber =? ch_height chain) then
    throw (JSError "bootstrapped block number does not match configuration block number")
  else
    records ← readRecords;
    match records with
    | None => mret (initialState blockNumber)
    | Some records =>
        loadRounds blockNumber records;;
        match rc_state records with
        | Some state =>
            if sd_blockNumber state =? blockNumber then restoreState blockNumber state
            else
              when (blockNumber <? sd_blockNumber state) (onStorage clear);;
              mret (initialState blockNumber)
        | None => mret (initialState blockNumber)
        end
    end.
End bootstrapper.

(** ** Correctness *)
Section correctness.
Context `{Services}.
Context (Genuine : Message → Prop) (ProofOf CommitOf : Z → Z → string → Prop) (Trusted : Chain → Prop).
#[local] Abbreviation HeapOk := (HeapOk Genuine ProofOf CommitOf Trusted).
#[local] Abbreviation esat := (esat Genuine ProofOf CommitOf Trusted).

(** Before [run] nothing is signed: runs that keep the objects in order, forget no
    round state and nothing in one, and do not touch the store. *)
Definition silentHeap (w : World) : Prop := HeapOk w ∧ w_trace w = [].

Record keeps (w w' : World) : Prop := {
  kp_repo : ∀ k l, mapGet (w_repo w) k = Some l → mapGet (w_repo w') k = Some l;
  kp_heap : heapLe w w';
  kp_storage : w_storage w' = w_storage w;
}.
#[local] Instance keeps_preorder : PreOrder keeps.
Proof.
  split.
  - intros w. split; [done | | done]. intros l r Hl. exists r. split; [done | apply roundLe_refl].
  - intros w1 w2 w3 [H1 H2 H3] [H4 H5 H6]. split; [auto | | congruence].
    intros l r (r2 & Hr2 & Hle)%H2. apply H5 in Hr2 as (r3 & Hr3 & Hle'). exists r3. split; [done | by eapply roundLe_trans].
Qed.

Definition B {A} (P : World → Prop) (m : M World A) (Q : A → World → Prop) : Prop :=
  ∀ w, silentHeap w → P w →
    match m w with (Ok a, w') => silentHeap w' ∧ keeps w w' ∧ Q a w' | (Throw _, _) => True end.

Lemma B_bind {A C} P (m : M World A) (f : A → M World C) R Q :
  B P m R → (∀ a, B (R a) (f a) Q) → B P (m ≫= f) Q.
Proof.
  intros Hm Hf w Hs HP. specialize (Hm w Hs HP). unfold mbind, M_bind. destruct (m w) as [[a|e] w1]; [| done].
  destruct Hm as (Hs1 & Hk & HR). specialize (Hf a w1 Hs1 HR). destruct (f a w1) as [[c|e] w2]; [| done].
  destruct Hf as (Hs2 & Hk' & HQ). split; [done |]. split; [by etransitivity | done].
Qed.

Lemma B_ret {A} (P : World → Prop) (a : A) (Q : A → World → Prop) : (∀ w, P w → Q a w) → B P (mret a) Q.
Proof. intros HQ w Hs HP. split; [done |]. split; [reflexivity | by apply HQ]. Qed.

Lemma B_throw {A} (P : World → Prop) e (Q : A → World → Prop) : B P (throw e) Q.
Proof. by intros w _ _. Qed.

Lemma B_weaken {A} (P P' : World → Prop) (m : M World A) (Q Q' : A → World → Prop) :
  B P' m Q' → (∀ w, silentHeap w → P w → P' w) → (∀ a w, Q' a w → Q a w) → B P m Q.
Proof.
  intros Hm HP HQ w Hs HPw. specialize (Hm w Hs (HP w Hs HPw)). destruct (m w) as [[a|e] w']; [| done].
  destruct Hm as (? & ? & ?). auto.
Qed.

Lemma B_ro {A C} (P : World → Prop) (m : M World A) (f : A → M World C) Q :
  ro m → (∀ a, B (λ w, P w ∧ (m w).1 = Ok a) (f a) Q) → B P (m ≫= f) Q.
Proof.
  intros Hr Hf. eapply B_bind; [| exact Hf]. intros w Hs HP. specialize (Hr w).
  destruct (m w) as [[a|e] w'] eqn:Hm; cbn in Hr; subst w'; [| done]. split; [done |]. split; [reflexivity |]. by rewrite Hm.
Qed.

Lemma B_esat {A} (P : World → Prop) (m : M World A) (Q : A → World → Prop) :
  (∀ w, w_storage (m w).2 = w_storage w) → esat P m Q → B P m Q.
Proof.
  intros Hst Hm w [Hok Ht] HP. destruct (Hm w Hok HP) as (Hok' & He & HQ). specialize (Hst w).
  destruct (m w) as [[a|e] w']; cbn in *; [| done]. split; [split; [done |] | split; [| by apply HQ]].
  - by rewrite (er_trace _ _ He).
  - split; [apply He | by apply envR_heapLe | done].
Qed.

(** What every run of an operation establishes, and what it keeps. *)
Lemma B_also {A} P (m : M World A) (Q R : A → World → Prop) :
  B P m Q → (∀ w a w', m w = (Ok a, w') → R a w') → B P m (λ a w, Q a w ∧ R a w).
Proof.
  intros Hm HR w Hs HP. specialize (Hm w Hs HP). destruct (m w) as [[a|e] w'] eqn:Hrun; [| done].
  destruct Hm as (? & ? & ?). split; [done |]. split; [done |]. split; [done | by eapply HR].
Qed.

Definition lasting (F : World → Prop) : Prop := ∀ w w', silentHeap w → keeps w w' → F w → F w'.

Lemma B_frame {A} P (m : M World A) (Q : A → World → Prop) F :
  lasting F → B P m Q → B (λ w, P w ∧ F w) m (λ a w, Q a w ∧ F w).
Proof.
  intros HF Hm w Hs [HP HFw]. specialize (Hm w Hs HP). destruct (m w) as [[a|e] w']; [| done].
  destruct Hm as (? & Hk & ?). split; [done |]. split; [done |]. split; [done | by eapply HF].
Qed.

Lemma B_forEach {A} (l : list A) (f : A → M World unit) (F : A → World → Prop) :
  (∀ x, lasting (F x)) → (∀ x, x ∈ l → B (λ _, True) (f x) (λ _, F x)) →
  B (λ _, True) (forEach l f) (λ _ w, ∀ x, x ∈ l → F x w).
Proof.
  intros HF. induction l as [|x l IH]; intros Hf; cbn [forEach]; [apply B_ret; by intros w _ y ?%elem_of_nil |].
  eapply B_bind; [apply Hf; left |]. intros []. eapply B_weaken; [apply (B_frame (λ _, True) (forEach l f) (λ _ w, ∀ y, y ∈ l → F y w) (F x)); [done | apply IH] | done |].
  - intros y Hy. apply Hf. by right.
  - intros [] w [Hall Hx] y [->|Hy]%elem_of_cons; auto.
Qed.

(** ** Round states by their number *)
Definition holdsAt (n rd : Z) (φ : RoundState → Prop) (w : World) : Prop :=
  ∃ l r, mapGet (w_repo w) (n, rd) = Some l ∧ w_rounds w !! l = Some r ∧ φ r.

Definition heldMessage (n : Z) (m : Message) : World → Prop :=
  holdsAt n (msg_round m) (λ r, getMessage r (msg_validatorIndex m) (msg_type m) = Ok (Some m)).
Definition heldProposal (n : Z) (p : Proposal) : World → Prop :=
  holdsAt n (p_round p) (λ r, ∃ p', getProposal r = Some p' ∧ bare p' = bare p).

Lemma lasting_holds n rd (φ : RoundState → Prop) :
  (∀ r r', roundLe r r' → φ r → φ r') → lasting (holdsAt n rd φ).
Proof.
  intros Hφ w w' _ Hk (l & r & Hl & (r' & Hr' & Hle)%(kp_heap _ _ Hk) & Hp). exists l, r'.
  split; [by apply Hk | split; [done | by eapply Hφ]].
Qed.

Lemma lasting_message n m : lasting (heldMessage n m).
Proof.
  apply lasting_holds. intros r r' Hle. unfold getMessage.
  destruct (_ =? _); [| destruct (_ =? _); [| done]]; intros [= Hm]; f_equal; by apply Hle.
Qed.
Lemma lasting_proposal n p : lasting (heldProposal n p).
Proof.
  apply lasting_holds. intros r r' Hle (p' & Hp & Hb). apply (rl_proposal _ _ Hle) in Hp as (p2 & Hp2 & Hb2).
  exists p2. split; [done | congruence].
Qed.

Lemma storage_getRoundState n rd w : w_storage (getRoundState n rd w).2 = w_storage w.
Proof.
  unfold getRoundState, mbind, M_bind, get. destruct (mapGet _ _); [done |]. rewrite createRoundState_eq.
  by destruct (getRoundValidators _ _).
Qed.
Lemma repo_getRoundState n rd w l w' : getRoundState n rd w = (Ok l, w') → mapGet (w_repo w') (n, rd) = Some l.
Proof.
  unfold getRoundState, mbind, M_bind, get. destruct (mapGet (w_repo w) (n, rd)) as [l0|] eqn:Hl; [by intros [= <- <-] |].
  rewrite createRoundState_eq. destruct (getRoundValidators _ _); [| done]. unfold modify, mret, M_ret. cbn.
  intros [= <- <-]. cbn. apply mapGet_set_eq.
Qed.
Lemma storage_onRound {A} l (m : M RoundState A) w : w_storage (onRound l m w).2 = w_storage w.
Proof.
  unfold onRound, getRS, mbind, M_bind, get, liftR. destruct (w_rounds w !! l) as [r|]; [| done]. cbn. by destruct (m r).
Qed.

Lemma B_getRoundState n rd :
  B (λ _, True) (getRoundState n rd) (λ l w, namedAt n rd l w ∧ mapGet (w_repo w) (n, rd) = Some l).
Proof. apply B_also; [apply B_esat; [apply storage_getRoundState | apply getRoundState_esat] | apply repo_getRoundState]. Qed.

(** ** Loading the records *)
Definition storedGenuine (w : World) : Prop :=
  ∀ ms, getMessages (roundValidatorsOr (w_chain w)) (w_storage w) = Ok ms → ∀ m, m ∈ ms → Genuine m.

Record recordsOk (rs : Records) : Prop := {
  rk_proposals : ∀ p, p ∈ rc_proposals rs → built p ∧ p_payload p = None;
  rk_messages : ∀ m, m ∈ rc_messages rs → msgOk m ∧ Genuine m;
}.

Lemma B_load (add : M RoundState unit) n rd (φ : RoundState → Prop) :
  (∀ r, rs_blockNumber r = n → rs_round r = rd → roundOk Genuine ProofOf r →
     roundOk Genuine ProofOf (add r).2 ∧ roundEnv r (add r).2 ∧ ((add r).1 = Ok tt → φ (add r).2)) →
  B (λ _, True) (l ← getRoundState n rd; onRound l add) (λ _, holdsAt n rd φ).
Proof.
  intros Hadd. eapply B_bind; [apply B_getRoundState |]. intros l w Hs [(r & Hr & Hn & Hrd) Hl].
  destruct (Hadd r Hn Hrd (ho_rounds _ _ _ _ _ (proj1 Hs) l r Hr)) as (Hro & He & Hφ).
  assert (B (eq w) (onRound l add) any) as HB.
  { apply B_esat; [apply storage_onRound |]. apply onRound_esat. intros w0 r0 _ <- Hr0. rewrite Hr in Hr0. by injection Hr0 as <-. }
  specialize (HB w Hs eq_refl). unfold onRound, getRS, mbind, M_bind, get, liftR in HB |- *. rewrite Hr in HB |- *. cbn [assert_defined] in HB |- *.
  destruct (add r) as [[[]|e] r']; [| done]. destruct HB as (? & ? & _). split; [done |]. split; [done |].
  exists l, r'. split; [done |]. split; [cbn; apply lookup_insert_eq | by apply Hφ].
Qed.

Lemma addProposal_holds p r : (addProposal p r).1 = Ok tt → getProposal (addProposal p r).2 = Some p.
Proof. unfold addProposal, mbind, M_bind, get. by destruct (isSome _). Qed.
Lemma addMessage_holds m r : (addMessage m r).1 = Ok tt →
  getMessage (addMessage m r).2 (msg_validatorIndex m) (msg_type m) = Ok (Some m).
Proof.
  unfold addMessage, getMessage. destruct (_ =? _); [| destruct (_ =? _); [| done]].
  - unfold addPrevote, mbind, M_bind, get. destruct (mapHas _ _); [done |]. intros _. cbn. by rewrite mapGet_set_eq.
  - unfold addPrecommit, mbind, M_bind, get. destruct (mapHas _ _); [done |]. intros _. cbn. by rewrite mapGet_set_eq.
Qed.

(** Every record of the block is in its round state. *)
Definition loaded (n : Z) (rs : Records) (w : World) : Prop :=
  (∀ p, p ∈ rc_proposals rs → p_blockNumber p = n → heldProposal n p w) ∧
  (∀ m, m ∈ rc_messages rs → msg_blockNumber m = n → heldMessage n m w).

Lemma lasting_loaded n rs : lasting (loaded n rs).
Proof.
  intros w w' Hs Hk [Hp Hm]. split.
  - intros p Hin Hn. eapply lasting_proposal; eauto.
  - intros m Hin Hn. eapply lasting_message; eauto.
Qed.

Lemma elem_of_filter_eqb {A} (f : A → Z) n l x : x ∈ List.filter (λ x, f x =? n) l ↔ x ∈ l ∧ f x = n.
Proof. by rewrite list_elem_of_In, filter_In, <- list_elem_of_In, Z.eqb_eq. Qed.

Lemma B_loadRounds n rs : recordsOk rs → B (λ _, True) (loadRounds n rs) (λ _, loaded n rs).
Proof.
  intros [Hp Hm]. unfold loadRounds. eapply B_bind; [apply (B_forEach _ _ (heldProposal n)); [apply lasting_proposal |] |].
  - intros p [Hin Hn]%elem_of_filter_eqb. destruct (Hp p Hin) as [Hb Hpl]. apply B_load. intros r Hrn Hrr Hr.
    destruct (addProposal_env Genuine ProofOf p r) as [H1 H2]; try done; [congruence.. |]. split; [done |]. split; [done |].
    intros Hok%addProposal_holds. by exists p.
  - intros []. set (Held := λ w, ∀ p, p ∈ List.filter (λ p, p_blockNumber p =? n) (rc_proposals rs) → heldProposal n p w).
    eapply B_weaken; [apply (B_frame (λ _, True) _ (λ _ w, ∀ m, m ∈ List.filter (λ m, msg_blockNumber m =? n) (rc_messages rs) → heldMessage n m w) Held) | done |].
    + intros w w' Hs Hk Hall p Hin. eapply lasting_proposal; eauto.
    + apply (B_forEach _ _ (heldMessage n)); [apply lasting_message |].
      intros m [Hin Hn]%elem_of_filter_eqb. destruct (Hm m Hin) as [Hmok Hg]. apply B_load. intros r Hrn Hrr Hr.
      destruct (addMessage_env Genuine ProofOf m r) as [H1 H2]; try done; [congruence.. |]. split; [done |]. split; [done |].
      apply addMessage_holds.
    + intros [] w [Hms Hps]. split; [intros p ? ?; by apply Hps, elem_of_filter_eqb | intros m ? ?; by apply Hms, elem_of_filter_eqb].
Qed.

(** ** Restoring what was locked *)

(** A round state of block [n] and round [rd] that holds +2/3 prevotes for its proposal. *)
Definition provenAt (n rd l : Z) (w : World) : Prop :=
  ∃ r p, w_rounds w !! l = Some r ∧ rs_blockNumber r = n ∧ rs_round r = rd ∧ rs_proposal r = Some p ∧
         quorumFor r (rs_prevotes r) (p_hash p).

(** The stored round [o] has become [ol]: nothing for nothing, and else the round
    state of that round, with its proof. *)
Definition carries (n : Z) (o ol : option Z) (w : World) : Prop :=
  match o, ol with
  | None, None => True
  | Some rd, Some l => mapGet (w_repo w) (n, rd) = Some l ∧ provenAt n rd l w
  | _, _ => False
  end.

Lemma lasting_carries n o ol : lasting (carries n o ol).
Proof.
  intros w w' Hs Hk. destruct o as [rd|], ol as [l|]; try done. intros [Hl (r & p & Hr & Hn & Hrd & Hp & Hq)].
  split; [by apply Hk |]. pose proof (ho_rounds _ _ _ _ _ (proj1 Hs) l r Hr) as Hro.
  apply (kp_heap _ _ Hk) in Hr as (r' & Hr' & Hle). destruct (quorumFor_mono Genuine ProofOf r r' (p_hash p) Hro Hle) as [Hm _].
  destruct Hle as [Hn' Hrd' Hp' _ _ _]. apply Hp' in Hp as (p' & ? & Hb%bare_hash). exists r', p'. rewrite Hb. repeat split; try congruence. auto.
Qed.

Lemma B_deserialize l p n rd :
  B (λ w, (namedAt n rd l w ∧ mapGet (w_repo w) (n, rd) = Some l) ∧ ∃ r, w_rounds w !! l = Some r ∧ rs_proposal r = Some p)
    (Consensus.deserializeProposal l p) (λ _ w, namedAt n rd l w ∧ mapGet (w_repo w) (n, rd) = Some l).
Proof.
  unfold Consensus.deserializeProposal. apply B_ro; [apply ro_gets |]. intros chain.
  apply B_ro; [apply ro_lift |]. intros p'. intros w [Hok Ht] [[[[(r & Hr & Hn & Hrd) Hl] (r' & Hr' & Hp)] _] Hd].
  rewrite Hr in Hr'. injection Hr' as <-. unfold liftR in Hd. cbn in Hd.
  destruct (deserialize_round Genuine ProofOf _ r p p' (ho_rounds _ _ _ _ _ Hok l r Hr) Hp Hd) as [Hro Hle].
  pose proof (update_heapOk _ _ _ _ w l r _ Hok Hr (rl_number _ _ Hle) (rl_round _ _ Hle) Hro) as Hok'.
  unfold onRound, getRS, mbind, M_bind, get, liftR, modify. rewrite Hr. cbn [assert_defined].
  split; [split; [exact Hok' | exact Ht] |]. split; [split; [done | | done] |].
  - intros l0 r0. cbn. rewrite lookup_insert. case_decide as Heq; [subst l0; rewrite Hr; intros [= <-]; eauto |].
    intros Hr0. exists r0. split; [done | apply roundLe_refl].
  - split; [| done]. exists (r <| rs_proposal := Some p' |>). cbn. rewrite lookup_insert_eq. done.
Qed.

Lemma B_getProvenRoundState n rd :
  B (λ _, True) (getProvenRoundState n rd) (λ l w, mapGet (w_repo w) (n, rd) = Some l ∧ provenAt n rd l w).
Proof.
  unfold getProvenRoundState. eapply B_bind; [apply B_getRoundState |]. intros l.
  apply B_ro; [apply ro_getRS |]. intros r. destruct (getProposal r) as [p|] eqn:Hp; [| apply B_throw].
  eapply B_bind; [eapply B_weaken; [apply (B_deserialize l p n rd) | | by intros a w Hx; exact Hx] |].
  { intros w _ [Hn Hr%getRS_inv]. split; [done |]. eauto. }
  intros []. apply B_ro; [apply ro_getRS |]. intros r'. destruct (negb _) eqn:Hm; [apply B_throw |]. simpl_bool.
  intros w [Hok Ht] [[(r2 & Hr2 & Hn & Hrd) Hl] Hr'%getRS_inv]. rewrite Hr2 in Hr'. injection Hr' as ->.
  split; [done |]. split; [reflexivity |]. split; [done |]. destruct (hasMajorityPrevotes_inv _ _ Hm) as (p' & Hp' & _). exists r', p'.
  repeat split; try done. eapply prevotes_quorum; [| done | done]. exact (ho_rounds _ _ _ _ _ Hok l r' Hr2).
Qed.

Lemma B_getProven n o : B (λ _, True) (getProven n o) (λ ol, carries n o ol).
Proof.
  destruct o as [r|]; cbn [getProven]; [| by apply B_ret].
  eapply B_bind; [apply B_getProvenRoundState |]. intros l. by apply B_ret.
Qed.

(** The stored lock lies at or before the stored position. *)
Definition storedLock (w : World) : Prop :=
  ∀ d r, st_state (w_storage w) = Some d → sd_lockedRound d = Some r →
         posLe (sd_blockNumber d, r, stepZ Precommit) (recordPos d).

Lemma restored_unlocked s w : silentHeap w → s_lockedValue s = None → restored Genuine ProofOf CommitOf Trusted s w.
Proof. intros [Hok Ht] Hl. split; [done | done |]. by rewrite Hl. Qed.

(** The state is the stored one, with its lock and its valid value. *)
Definition isStored (n : Z) (d : StateData) (s : State) (w : World) : Prop :=
  s_blockNumber s = n ∧ s_round s = sd_round d ∧ s_step s = sd_step d ∧
  carries n (sd_lockedRound d) (s_lockedValue s) w ∧ carries n (sd_validRound d) (s_validValue s) w.

Lemma B_restore n d : sd_blockNumber d = n → B (λ _, True) (restoreState n d) (isStored n d).
Proof.
  intros <-. unfold restoreState. eapply B_bind; [apply B_getProven |]. intros valid.
  eapply B_bind; [eapply B_weaken; [apply (B_frame (λ _, True) _ (λ ol, carries (sd_blockNumber d) (sd_lockedRound d) ol) (carries (sd_blockNumber d) (sd_validRound d) valid)) | done | by intros a w Hx; exact Hx] |].
  - apply lasting_carries.
  - apply (B_getProven _ (sd_lockedRound d)).
  - intros locked. apply B_ret. intros w [Hl Hv]. by split_and!.
Qed.

Lemma stored_restored n d s w :
  silentHeap w → sd_blockNumber d = n → isStored n d s w →
  (∀ r, sd_lockedRound d = Some r → posLe (n, r, stepZ Precommit) (recordPos d)) →
  restored Genuine ProofOf CommitOf Trusted s w.
Proof.
  intros [Hok Ht] Hd (Hn & Hr & Hst & Hl & _) Hlock. split; [done | done |]. intros l Hs. rewrite Hs in Hl.
  destruct (sd_lockedRound d) as [rd|] eqn:Hrd; [| done]. destruct Hl as [_ (r & p & Hrl & Hrn & <- & Hp & Hq)].
  exists r, p. repeat split; try done; [congruence |]. specialize (Hlock _ eq_refl).
  assert (statePos s = recordPos d) as -> by (unfold statePos, recordPos; congruence). by rewrite Hn.
Qed.

(** ** The whole *)
Definition readable (w : World) (ms : list Message) (ps : list Proposal) : Prop :=
  getMessages (roundValidatorsOr (w_chain w)) (w_storage w) = Ok ms ∧
  getProposals (roundValidatorsOr (w_chain w)) isAddress (w_storage w) = Ok ps.

Lemma readRecords_ok w ms ps : readable w ms ps → storedGenuine w →
  readRecords w = (Ok (Some (mkRecords (st_state (w_storage w)) ps ms)), w) ∧
  recordsOk (mkRecords (st_state (w_storage w)) ps ms).
Proof.
  intros [Hms Hps] Hg. split.
  - unfold readRecords, tryCatch, mbind, M_bind, get, liftR, mret, M_ret. by rewrite Hms, Hps.
  - split; cbn.
    + intros p Hin. destruct (traverse_elem _ _ _ _ Hps Hin) as [bs Hp]. by eapply factoryProposal_ok.
    + intros m Hin. split; [| by eapply Hg].
      destruct (traverse_elem _ _ _ _ Hms Hin) as [bs Hm]. by eapply factoryMessage_ok.
Qed.

(** What is to be restored: the state of the next block that the store holds, or a
    start at its round 0. *)
Definition restoredFrom (n : Z) (st : Storage) (s : State) (w : World) : Prop :=
  match st_state st with
  | Some d => if sd_blockNumber d =? n then isStored n d s w else s = initialState n
  | None => s = initialState n
  end.
(** What becomes of the store: it is cleared if its state is ahead of the chain. *)
Definition storeAfter (n : Z) (st : Storage) : Storage :=
  match st_state st with
  | Some d => if n <? sd_blockNumber d then emptyStorage else st
  | None => st
  end.

Lemma clear_run w w' : onStorage clear w = (Ok tt, w') → w' = w <| w_storage := run_in (clear true) (w_storage w) |>.
Proof.
  unfold onStorage, zoomM, clear, stCommit, mbind, M_bind, modify, throw, run_in. destruct (w_diskOk w); by intros [= <-].
Qed.
End correctness.

(** C7. Bootstrapping restores what the store holds.  From a process with nothing
    in memory over a readable store of genuine votes, whenever [bootstrap] returns: if
    the stored state is of the next block, the process is at its round and step, its
    locked value is the round state of the stored locked round and its valid value
    that of the stored valid round, each holding +2/3 prevotes for its proposal, and
    there is none exactly where none is stored; otherwise it is at the start of the
    next block.  Every stored proposal and vote of that block is in its round state.
    The store is as before, or cleared if its state was ahead of the chain.  And the
    process is in a state from which the safety theorems apply. *)
Theorem bootstrap_restores `{Services} Genuine ProofOf CommitOf Trusted w last ms ps s w' :
  HeapOk Genuine ProofOf CommitOf Trusted w → w_trace w = [] → getLastBlock (w_chain w) = Ok last →
  readable w ms ps → storedGenuine Genuine w → storedLock w →
  bootstrap w = (Ok s, w') →
  restoredFrom (b_number last + 1) (w_storage w) s w' ∧
  (∀ p, p ∈ ps → p_blockNumber p = b_number last + 1 → heldProposal (b_number last + 1) p w') ∧
  (∀ m, m ∈ ms → msg_blockNumber m = b_number last + 1 → heldMessage (b_number last + 1) m w') ∧
  w_storage w' = storeAfter (b_number last + 1) (w_storage w) ∧
  restored Genuine ProofOf CommitOf Trusted s w'.
Proof.
  intros Hok Ht Hlast Hread Hg Hlock. unfold bootstrap, mbind at 1, M_bind at 1, gets.
  unfold mbind at 1, M_bind at 1, liftR at 1. rewrite Hlast. destruct (negb _); [done |].
  set (n := b_number last + 1). destruct (readRecords_ok Genuine w ms ps Hread Hg) as [Hrs Hrk].
  rewrite (M_bind_run _ _ _ _ _ Hrs). cbn [rc_state]. set (rs := mkRecords _ ps ms) in *.
  pose proof (B_loadRounds Genuine ProofOf CommitOf Trusted n rs Hrk w (conj Hok Ht) I) as Hload.
  unfold mbind at 1, M_bind at 1. destruct (loadRounds n rs w) as [[[]|e] w1]; [| done]. destruct Hload as (Hs1 & [_ _ Hst1] & Hl1).
  unfold restoredFrom, storeAfter. destruct (st_state (w_storage w)) as [d|] eqn:Hd.
  2: { intros [= <- <-]. destruct Hl1. split_and!; try done. by apply restored_unlocked. }
  destruct (Z.eqb_spec (sd_blockNumber d) n) as [Heq|Hne].
  - intros Hrun. pose proof (B_restore Genuine ProofOf CommitOf Trusted n d Heq w1 Hs1 I) as Hr. rewrite Hrun in Hr. destruct Hr as (Hs2 & Hk & Hr).
    destruct (lasting_loaded Genuine ProofOf CommitOf Trusted n rs w1 w' Hs1 Hk Hl1) as [Hp Hm].
    rewrite (proj2 (Z.ltb_ge _ _)) by lia. destruct Hk as [_ _ Hst2]. split_and!; try done; [congruence |].
    eapply stored_restored; [done | exact Heq | exact Hr |]. intros r Hrd. rewrite <- Heq. by apply (Hlock d r).
  - destruct (n <? sd_blockNumber d) eqn:Hahead; cbn [when].
    + unfold mbind, M_bind. destruct (onStorage clear w1) as [[[]|e] w2] eqn:Hc; [| done]. pose proof (clear_run _ _ Hc) as Heq2.
      pose proof (silent_ok Genuine ProofOf CommitOf Trusted w1 w2) as Hok2. pose proof (silent_storage clear w1) as Hsil. rewrite Hc in Hsil.
      intros [= <- <-]. destruct Hl1 as [Hp Hm]. split_and!; [done | | | |].
      * intros p Hin Hn. rewrite Heq2. exact (Hp p Hin Hn).
      * intros m Hin Hn. rewrite Heq2. exact (Hm m Hin Hn).
      * rewrite Heq2. cbn. by rewrite Hst1.
      * apply restored_unlocked; [| done]. split; [by apply Hok2, Hs1 |]. cbn in Hsil. rewrite (si_trace _ _ Hsil). apply Hs1.
    + intros [= <- <-]. destruct Hl1. split_and!; try done. by apply restored_unlocked.
Qed.
