(* ===== verification/Agreement.v ===== *)
(** * Agreement

    An abstract account of Tendermint, as an interface of three rules for the
    votes of correct validators, with the proof that the rules imply agreement;
    and the refinement: nodes that run the modelled program follow the rules, so
    two correct nodes never commit different blocks for a block number. *)
From S2P Require Import Prelude Bytes Serializer Messages Blocks Proposals Commits JsMap Quorum BlockchainUtils.
From S2P Require Import ValidatorSet RoundState RoundStateFacts ConsensusStorage Node Processors CommitBatch Consensus.
From S2P Require Import ConsensusHeap ConsensusInvariant ConsensusSafety ConsensusTheorems.

(** ** The abstract protocol, for one block number *)

(** What validators voted: [prevoted i r h], [precommitted i r h]. *)
Record Votes := mkVotes {
  prevoted : Z → Z → string → Prop;
  precommitted : Z → Z → string → Prop;
}.

Section protocol.
Context (n : Z) (faulty : gset Z) (V : Votes).

(** +2/3 of the validators voted; nothing is known of the faulty ones. *)
Definition certified (voted : Z → Prop) : Prop :=
  ∃ S : gset Z, inRange n S ∧ quorum n S ∧ ∀ i, i ∈ S → i ∉ faulty → voted i.
Definition polka (r : Z) (h : string) : Prop := certified (λ i, prevoted V i r h).
Definition decision (r : Z) (h : string) : Prop := certified (λ i, precommitted V i r h).

(** The rules of Tendermint for correct validators. *)
Class TendermintRules : Prop := {
  rule_once : ∀ i r h h', i ∉ faulty → prevoted V i r h → prevoted V i r h' → h = h';
  rule_polka : ∀ i r h, i ∉ faulty → precommitted V i r h → polka r h;
  rule_lock : ∀ i r h r' h', i ∉ faulty → precommitted V i r h → prevoted V i r' h' → r < r' →
    h' = h ∨ ∃ v, r ≤ v < r' ∧ polka v h';
}.

Context (Hn : 0 ≤ n) (Hf : 3 * Z.of_nat (size faulty) < n).

(** Two certificates share a correct validator. *)
Lemma certified_common P Q : certified P → certified Q → ∃ i, (i ∉ faulty) ∧ P i ∧ Q i.
Proof.
  intros (S & HS & HqS & HP) (T & HT & HqT & HQ).
  destruct (quorum_intersection n faulty S T) as (i & HiS & HiT & Hif); try done.
  exists i. auto.
Qed.

Context `{!TendermintRules}.

Lemma decision_polka r h : decision r h → polka r h.
Proof. intros Hd. destruct (certified_common _ _ Hd Hd) as (i & Hi & Hp & _). by eapply rule_polka. Qed.

Lemma polka_unique r h h' : polka r h → polka r h' → h = h'.
Proof. intros Hp Hp'. destruct (certified_common _ _ Hp Hp') as (i & Hi & H1 & H2). by eapply rule_once. Qed.

(** Once a value is decided, no later round has a polka for another. *)
Lemma decision_persists r h r' h' : decision r h → r ≤ r' → polka r' h' → h' = h.
Proof.
  intros Hd. revert h'. induction (Z.lt_wf r r') as [r' _ IH]. intros h' Hle Hp.
  destruct (decide (r = r')) as [<-|Hne]; [by eapply polka_unique, decision_polka |].
  destruct (certified_common _ _ Hd Hp) as (i & Hi & Hpc & Hpv).
  destruct (rule_lock i r h r' h' Hi Hpc Hpv) as [?|(v & Hv & Hpv')]; [lia | done |].
  apply (IH v); [lia | lia | done].
Qed.

Lemma decisions_agree r h r' h' : decision r h → decision r' h' → h = h'.
Proof.
  intros Hd Hd'. destruct (Z.le_ge_cases r r') as [Hle|Hle].
  - symmetry. eapply decision_persists; [exact Hd | exact Hle | by apply decision_polka].
  - eapply decision_persists; [exact Hd' | exact Hle | by apply decision_polka].
Qed.
End protocol.

(** ** A network of nodes

    [node i] is the world of the node that holds validator [i], which started
    in [start i].  Verification of a vote of a correct validator tells that its
    node signed that vote; a verified aggregate tells it of a quorum. *)
Section network.
Context `{Services} (faulty : gset Z) (node : Z → World) (start : Z → State) (Trusted : Chain → Prop).

Definition signedBy (i : Z) (d : SignatureMessageData) : Prop := EvSign i d ∈ w_trace (node i).

Definition NetworkVote (m : Message) : Prop :=
  msg_validatorIndex m ∉ faulty → signedBy (msg_validatorIndex m) (toSignatureData (msg_data m)).
Definition votesOf (n : Z) : Votes :=
  mkVotes (λ i r h, signedBy i (mkSignatureMessageData MessageType_Prevote n r (Some h)))
          (λ i r h, signedBy i (mkSignatureMessageData MessageType_Precommit n r (Some h))).
Definition NetworkProof (n r : Z) (h : string) : Prop := polka (roundValidatorsAt n) faulty (votesOf n) r h.
Definition NetworkCommit (n r : Z) (h : string) : Prop := decision (roundValidatorsAt n) faulty (votesOf n) r h.

Definition networkReachable : Prop :=
  ∀ i, i ∉ faulty → reachable NetworkVote NetworkProof NetworkCommit Trusted (start i) (node i).

Context `{!Unforgeable NetworkVote NetworkProof NetworkCommit Trusted} (Hreach : networkReachable).

Lemma quorumOf_certified t n r h :
  quorumOf NetworkVote t n r h →
  certified (roundValidatorsAt n) faulty (λ i, signedBy i (mkSignatureMessageData t n r (Some h))).
Proof.
  intros (S & HS & HV). exists S. split; [intros i Hi; by apply HV |]. split; [done |].
  intros i Hi Hf. destruct (HV i Hi) as (_ & m & Hg & Hidx & Ht & Hn & Hr & Hh). rewrite <- Hidx in Hf.
  specialize (Hg Hf). rewrite Hidx in Hg. unfold toSignatureData in Hg.
  destruct m as [[]]. cbn in *. by subst.
Qed.

(** Nodes that run the program follow the rules. *)
Lemma network_rules n : TendermintRules (roundValidatorsAt n) faulty (votesOf n).
Proof.
  split.
  - intros i r h h' Hi Hs Hs'. pose proof (inv_trace _ _ _ _ _ _ (Hreach i Hi)) as Htr.
    assert (Some h = Some h') as Heq; [| congruence].
    apply (tr_agree _ _ _ _ Htr _ _ (elem_of_signed _ _ _ Hs) (elem_of_signed _ _ _ Hs')). done.
  - intros i r h Hi Hs. pose proof (inv_trace _ _ _ _ _ _ (Hreach i Hi)) as Htr.
    apply quorumOf_certified. eapply prevotedAt_quorumOf; [by apply reachable_inv, Hreach |].
    by apply (tr_precommit _ _ _ _ Htr _ h (elem_of_signed _ _ _ Hs)).
  - intros i r h r' h' Hi Hs Hs' Hlt. pose proof (inv_trace _ _ _ _ _ _ (Hreach i Hi)) as Htr.
    destruct (tr_prevote _ _ _ _ Htr _ _ h h' (elem_of_signed _ _ _ Hs) (elem_of_signed _ _ _ Hs'))
      as [?|(v & Hv & Hc)]; try done; [by left | right]. exists v. split; [done |].
    destruct Hc as [?|Hp]; [done |]. apply quorumOf_certified.
    eapply prevotedAt_quorumOf; [by apply reachable_inv, Hreach | exact Hp].
Qed.

Lemma commit_decision i n r h :
  i ∉ faulty → EvCommit n r h ∈ w_trace (node i) → NetworkCommit n r h.
Proof.
  intros Hi Hin. pose proof (inv_trace _ _ _ _ _ _ (Hreach i Hi)) as Htr.
  destruct (tr_commit _ _ _ _ Htr n r h Hin) as [?|Hp]; [done |]. apply quorumOf_certified.
  eapply precommittedAt_quorumOf; [by apply reachable_inv, Hreach | exact Hp].
Qed.
End network.

(** C1. Agreement of the network: when verified signatures are those of the
    validators they name and fewer than a third of the validators of a block
    number are faulty, two correct nodes that each commit a block of that number
    commit the same one, whatever the rounds, the order of messages and timers,
    the interleaving of handlers, and the behaviour of the faulty nodes. *)
Theorem network_agreement `{Services} faulty node start Trusted i j n r h r' h' :
  Unforgeable (NetworkVote faulty node) (NetworkProof faulty node) (NetworkCommit faulty node) Trusted →
  networkReachable faulty node start Trusted →
  0 ≤ roundValidatorsAt n → 3 * Z.of_nat (size faulty) < roundValidatorsAt n →
  i ∉ faulty → j ∉ faulty →
  EvCommit n r h ∈ w_trace (node i) → EvCommit n r' h' ∈ w_trace (node j) → h = h'.
Proof.
  intros HU HR Hn Hf Hi Hj Hci Hcj. pose proof (network_rules faulty node start Trusted HR n).
  eapply (decisions_agree (roundValidatorsAt n) faulty (votesOf node n)); try done.
  - eapply commit_decision; [exact HU | exact HR | exact Hi | exact Hci].
  - eapply commit_decision; [exact HU | exact HR | exact Hj | exact Hcj].
Qed.
