(* ===== verification/Scenario.v ===== *)
(** * A concrete network

    Instances of every service that the development takes as a parameter, simple
    enough to compute with, and a run of a node of a four-validator network in
    which the node proposes, precommits, loses the round, prevotes the
    re-proposal of the next round and commits.  The runs show that the
    hypotheses of the theorems can hold, and that the model executes. *)
From S2P Require Import Prelude Bytes ByteBuffer Serializer Messages Blocks Proposals Commits JsMap Quorum.
From S2P Require Import BlockchainUtils ValidatorSet RoundState RoundStateFacts ConsensusStorage Node.
From S2P Require Import Processors Consensus ConsensusHeap ConsensusInvariant ConsensusSafety ConsensusTheorems.

(** ** Playing a script *)

(** The depth to which the rules call themselves: a higher round, then a commit,
    then the first round of the next block. *)
Definition rulesDepth : nat := 3.

Inductive Move := MEnv (a : EnvAction) | MJob.

Section play.
Context `{Services}.

Definition move (w : World) (m : Move) : World :=
  match m with
  | MEnv a => run_in (envAction a) w
  | MJob => match w_jobs w with
            | [] => w
            | j :: js => run_in (runJob rulesDepth j) (w <| w_jobs := js |>)
            end
  end.
Definition play (script : list Move) (w : World) : World := foldl move w script.

Lemma play_steps script w : rtc step w (play script w).
Proof.
  revert w; induction script as [|m script IH]; intros w; [done |]. cbn [play foldl].
  etransitivity; [| apply IH]. destruct m as [a|]; cbn [move]; [apply rtc_once, step_env |].
  destruct (w_jobs w) as [|j js] eqn:Hj; [done |]. apply rtc_once. by apply (step_job rulesDepth j [] js).
Qed.

(** A node with nothing in memory starts at a block's first round. *)
Definition newNode (c : Chain) (clock : Z) : World :=
  mkWorld newCore ∅ ∅ 0 [] newScheduler emptyStorage c clock false true ∅ ∅ [] [] [] [] [] [].
Definition firstRound (blockNumber : Z) : State := mkState blockNumber 0 Propose None None.

Lemma new_restored (G : Message → Prop) (P C : Z → Z → string → Prop) (R : Chain → Prop) c clock n :
  R c → restored G P C R (firstRound n) (newNode c clock).
Proof.
  intros HR. split; [split | done | done]; cbn; [| | | | | | | exact HR | done].
  - intros l r Hl. by rewrite lookup_empty in Hl.
  - intros l [? Hl]. by rewrite lookup_empty in Hl.
  - done.
  - intros f Hf. by apply not_elem_of_nil in Hf.
  - intros f Hf. by apply not_elem_of_nil in Hf.
  - intros l r Hl. by rewrite lookup_empty in Hl.
  - intros l r Hl. by rewrite lookup_empty in Hl.
Qed.

Definition playFrom (n : Z) (c : Chain) (clock : Z) (script : list Move) : World :=
  play script (run_in (run rulesDepth (firstRound n)) (newNode c clock)).

Lemma play_reachable G P C R n c clock script :
  R c → reachable G P C R (firstRound n) (playFrom n c clock script).
Proof. intros HR. exists rulesDepth, (newNode c clock). split; [by apply new_restored | apply play_steps]. Qed.
End play.

(** ** The services *)

(** A byte that depends on every byte of the input. *)
Definition checksum (l : list byte) : byte :=
  byte_of_Z (foldl (λ a b, (31 * a + Z.of_N (Byte.to_N b)) mod 251) 7 l).

(** Text after the prefix [0x]. *)
Definition after0x (s : string) : string := String.substring 2 (String.length s - 2) s.

#[export] Instance toyViem : Viem := {|
  viem_getAddress s := Ok s;
  viem_toBytes s := Ok (hexDecode (after0x s));
|}.
#[export] Instance toyCodec : TransactionCodec := {|
  txFromBytes _ := Throw (JSError "no transactions");
|}.
#[export] Instance toyHash : HashFactory := {|
  sha256 l := replicate 32 (checksum l);
  keccak256 l := replicate 32 (checksum l);
|}.
(** A signature identifies the signed bytes; any key verifies it. *)
#[export] Instance toyBls : BlsWorker := {|
  blsSign data _ := hexEncode (replicate 96 (checksum data));
  blsAggregate l := hexEncode (default [] (head l));
  blsVerify signature data _ := bool_decide (signature = replicate 96 (checksum data));
  blsAggregatePublicKeys l := hexEncode (default [] (head l));
|}.

Definition toyHashOf (b : byte) : string := hexEncode (replicate 32 b).
Definition toyAddress (i : Z) : string := "0x" +:+ hexEncode (replicate 20 (byte_of_Z (16 + i))).
Definition toyPublicKey (i : Z) : string := hexEncode (replicate 48 (byte_of_Z (32 + i))).
Definition toyWallet (i : Z) : ValidatorWallet := mkValidatorWallet (toyAddress i) (toyPublicKey i) 1 1 0 false.
Definition toyWallets : list ValidatorWallet := toyWallet <$> seqZ 0 4.

#[export] Instance toyContract : ConsensusContract := {|
  contractRoundValidators := Ok toyWallets;
  contractAllValidators := Ok toyWallets;
|}.

Definition toyHeader (number round timestamp : Z) (parent proposer reveal : string) : BlockHeaderRaw :=
  mkBlockHeaderRaw 1 timestamp number round parent (toyHashOf Byte.x01) (hexEncode (replicate 256 Byte.x00))
    0 0 0 0 0 (toyHashOf Byte.x02) proposer reveal.

Definition toyBlock (h : BlockHeaderRaw) : Block :=
  match makeBlock (λ _, true) (λ _, true) h [] with Ok b => b | Throw _ => newBlock (mkBlockHeader h "") "" [] end.

Definition toyTimeouts : Timeouts := mkTimeouts 4000 8000 2000 2000 1000.

(** Four validators; the node holds the key of validator 0. *)
#[export] Instance toyServices : Services := {|
  roundValidatorsAt _ := 4;
  timeoutsAt _ := toyTimeouts;
  isNewRoundAt _ := false;
  isAddress _ := true;
  txSchemaValid _ := true;
  validatorKey k := if String.eqb k (toyPublicKey 0) then Some "aa" else None;
  consensusContract _ := toyContract;
  processBlock _ _ := mkBlockProcessorResult true [] 0 0;
  forgeBlock chain address round timestamp reveal :=
    last ← getLastBlock chain;
    Ok (toyBlock (toyHeader (b_number last + 1) round timestamp (b_hash last) address reveal));
  evmOnCommit _ := true;
  databaseOnCommit _ := true;
  workersOnCommit _ := true;
|}.

(** ** The node before it runs *)
Definition toyGenesis : Block :=
  toyBlock (toyHeader 0 0 1000000 (toyHashOf Byte.x00) (toyAddress 0) (hexEncode (replicate 96 Byte.x00))).
Definition toyGenesisCommit : Commit :=
  mkCommit toyGenesis (mkCommitProof 0 (hexEncode (replicate 96 Byte.x00)) [true; true; true; true]) "00".
Definition toyValidatorSet : ValidatorSet := (restore 4 newValidatorSet).2.
Definition toyChain : Chain := mkChain (Some toyGenesisCommit) (Some toyGenesis) 0 0 1 toyValidatorSet.

(** ** The script

    What the other validators send. *)
Definition toyContext : SignatureMessageContext := mkSignatureMessageContext (b_hash toyGenesis) (b_hash toyGenesis).
Definition voteBytes (ty round : Z) (hash : option string) (i : Z) : list byte :=
  match makeMessage roundValidatorsAt blsSign ty 1 round hash i "bb" toyContext with
  | Ok m => msg_serialized m
  | Throw _ => []
  end.

(** The block that the node itself proposes in round 0, and its re-proposal in
    round 1 by validator 1 with the proof of the prevotes of round 0. *)
Definition toyReveal : string :=
  match randaoMessage (b_hash toyGenesis) (bh_randaoReveal (b_raw toyGenesis)) 1 with
  | Ok m => blsSign m (hexDecode "aa")
  | Throw _ => ""
  end.
Definition proposedBlock : Block :=
  toyBlock (toyHeader 1 0 1008000 (b_hash toyGenesis) (toyAddress 0) toyReveal).
Definition proposedHash : string := b_hash proposedBlock.

Definition toyLockProof : AggregatedSignature :=
  match serializeMessageForSignature (mkSignatureMessageData MessageType_Prevote 1 0 (Some proposedHash)) toyContext with
  | Ok data => mkAggregatedSignature (blsSign data []) [true; true; true; false]
  | Throw _ => mkAggregatedSignature "" []
  end.
Definition reproposalBytes : list byte :=
  match (payload ← serializePayload proposedBlock (Some toyLockProof);
         makeProposal (λ _, 4) (λ _, true) blsSign 1 (Some 0) (hexEncode payload) 1 "bb") with
  | Ok p => p_serialized p
  | Throw _ => []
  end.

(** A message arrives, its signature is verified, the rules run. *)
Definition deliver (bytes : list byte) : list Move := [MEnv (ADeliverMessage bytes); MEnv (AVerified 0); MJob].
(** The node's own vote, once signed, goes the same way. *)
Definition ownVote : list Move := [MEnv ABackground; MEnv (AVerified 0); MJob].

Definition round0 : list Move :=
  [MEnv AFireBlockPrepare; MEnv (APrepared 1); MEnv (AVerified 0); MEnv (AClock 1009000); MJob] ++ ownVote ++
  deliver (voteBytes MessageType_Prevote 0 (Some proposedHash) 1) ++
  deliver (voteBytes MessageType_Prevote 0 (Some proposedHash) 2) ++ ownVote ++
  deliver (voteBytes MessageType_Precommit 0 None 1) ++
  deliver (voteBytes MessageType_Precommit 0 None 2) ++ [MEnv AFirePrecommit; MJob].
Definition round1 : list Move :=
  [MEnv (AClock 1020000); MEnv (ADeliverProposal reproposalBytes); MEnv (AVerified 0); MJob] ++ ownVote ++
  deliver (voteBytes MessageType_Prevote 1 (Some proposedHash) 1) ++
  deliver (voteBytes MessageType_Prevote 1 (Some proposedHash) 2) ++ ownVote ++
  deliver (voteBytes MessageType_Precommit 1 (Some proposedHash) 1) ++
  deliver (voteBytes MessageType_Precommit 1 (Some proposedHash) 2).

Definition scenario : World := playFrom 1 toyChain 1004000 (round0 ++ round1).

(** What it did: the votes and the commit, in order. *)
Definition isVoteOrCommit (e : Event) : bool :=
  match e with EvSign _ _ | EvCommit _ _ _ => true | _ => false end.
Definition eventsOf (w : World) : list Event := List.filter isVoteOrCommit (w_trace w).

Definition prevoteAt (round : Z) : SignatureMessageData :=
  mkSignatureMessageData MessageType_Prevote 1 round (Some proposedHash).
Definition precommitAt (round : Z) : SignatureMessageData :=
  mkSignatureMessageData MessageType_Precommit 1 round (Some proposedHash).

Lemma scenario_events :
  eventsOf scenario = [EvSign 0 (prevoteAt 0); EvSign 0 (precommitAt 0); EvSign 0 (prevoteAt 1);
                       EvSign 0 (precommitAt 1); EvCommit 1 1 proposedHash].
Proof. vm_compute. reflexivity. Qed.

Lemma eventsOf_trace w k e : eventsOf w !! k = Some e → e ∈ w_trace w.
Proof.
  intros Hk%list_elem_of_lookup_2%list_elem_of_In. apply filter_In in Hk as [Hk _]. by apply list_elem_of_In.
Qed.

Lemma scenario_event k e :
  [EvSign 0 (prevoteAt 0); EvSign 0 (precommitAt 0); EvSign 0 (prevoteAt 1);
   EvSign 0 (precommitAt 1); EvCommit 1 1 proposedHash] !! k = Some e → e ∈ w_trace scenario.
Proof. rewrite <- scenario_events. apply eventsOf_trace. Qed.

Lemma scenario_pos : pos scenario = (2, 0, stepZ Propose).
Proof. vm_compute. reflexivity. Qed.

Lemma toyChain_wellHashed : wellHashed toyChain.
Proof. apply (wellHashed_last _ toyGenesis); [reflexivity |]. vm_compute. reflexivity. Qed.

Lemma scenario_reachable G P C : reachable G P C wellHashed (firstRound 1) scenario.
Proof. exact (play_reachable G P C wellHashed 1 toyChain 1004000 (round0 ++ round1) toyChain_wellHashed). Qed.
