(* ===== verification/Solo.v ===== *)
(** * A network in which signatures cannot be forged

    A one-validator network whose signature scheme accepts exactly the votes that
    its node signs in a run that ends in a commit: the hypotheses of the
    agreement theorem hold for it. *)
From S2P Require Import Prelude Bytes ByteBuffer Serializer Messages Blocks Proposals Commits JsMap Quorum.
From S2P Require Import BlockchainUtils ValidatorSet RoundState RoundStateFacts ConsensusStorage Node.
From S2P Require Import Processors Consensus ConsensusHeap ConsensusInvariant ConsensusSafety ConsensusTheorems.
From S2P Require Import Agreement Scenario.

Definition soloVote (t : Z) : SignatureMessageData := mkSignatureMessageData t 1 0 (Some proposedHash).
Definition soloBytes (t : Z) : list byte := signatureBytes (soloVote t) toyContext.

(** Signatures of votes verify for the two votes alone; those of proposals,
    recognised by their length, always do. *)
#[local] Instance soloBls : BlsWorker := {|
  blsSign data _ := hexEncode (replicate 96 (checksum data));
  blsAggregate l := hexEncode (default [] (head l));
  blsVerify signature data _ :=
    bool_decide (data = soloBytes MessageType_Prevote) || bool_decide (data = soloBytes MessageType_Precommit) ||
    (200 <? Z.of_nat (length data));
  blsAggregatePublicKeys l := hexEncode (default [] (head l));
|}.

#[local] Instance soloServices : Services := {|
  sv_bls := soloBls;
  roundValidatorsAt _ := 1;
  timeoutsAt _ := toyTimeouts;
  isNewRoundAt _ := false;
  isAddress _ := true;
  txSchemaValid _ := true;
  validatorKey k := if String.eqb k (toyPublicKey 0) then Some "aa" else None;
  consensusContract _ := toyContract;
  processBlock _ _ := mkBlockProcessorResult true [] 0 0;
  forgeBlock chain address round timestamp reveal :=
    last ← getLastBlock chain;
    Ok (toyBlock (toyHeader (b_number last + 1) round timestamp (b_hash last) address reveal));
  evmOnCommit _ := true;
  databaseOnCommit _ := true;
  workersOnCommit _ := true;
|}.

Definition soloChain : Chain := toyChain <| ch_validatorSet := (restore 1 newValidatorSet).2 |>.
Definition soloScript : list Move :=
  [MEnv AFireBlockPrepare; MEnv (APrepared 1); MEnv (AVerified 0); MEnv (AClock 1009000); MJob] ++ ownVote ++ ownVote.
Definition solo : World := playFrom 1 soloChain 1004000 soloScript.

Lemma solo_events :
  eventsOf solo = [EvSign 0 (soloVote MessageType_Prevote); EvSign 0 (soloVote MessageType_Precommit);
                   EvCommit 1 0 proposedHash].
Proof. vm_compute. reflexivity. Qed.

Lemma solo_event k e :
  [EvSign 0 (soloVote MessageType_Prevote); EvSign 0 (soloVote MessageType_Precommit);
   EvCommit 1 0 proposedHash] !! k = Some e → e ∈ w_trace solo.
Proof. rewrite <- solo_events. apply eventsOf_trace. Qed.

(** ** The laws hold *)
Definition hashesOk (c : Chain) : Prop :=
  (∀ g, getGenesisCommit c = Ok g → hexOfLength 64 (b_hash (c_block g)) = true) ∧ wellHashed c.

Lemma proposedHash_hex : hexOfLength 64 proposedHash = true.
Proof. vm_compute. reflexivity. Qed.
Lemma genesisHash_hex : hexOfLength 64 (b_hash toyGenesis) = true.
Proof. vm_compute. reflexivity. Qed.

Lemma soloVote_wf t : t = MessageType_Prevote ∨ t = MessageType_Precommit → wfSignatureData (soloVote t).
Proof.
  intros [-> | ->]; (split; [by split; vm_compute |]); (split; [by split; vm_compute |]); (split; [by split; vm_compute |]);
    apply (hexOfLength_isHexOf 32), proposedHash_hex.
Qed.

Lemma toyContext_wf : wfContext toyContext.
Proof. split; apply (hexOfLength_isHexOf 32), genesisHash_hex. Qed.

Lemma length_signatureBytes d c :
  wfSignatureData d → wfContext c → (length (signatureBytes d c) ≤ 106)%nat.
Proof.
  intros (_ & _ & _ & Hb) [Hg Hp]. unfold signatureBytes.
  rewrite !length_app, !length_le_encode, (length_hexOf _ _ Hg), (length_hexOf _ _ Hp).
  destruct (sm_blockHash d); cbn [blockHashBytes length from_option] in *; [rewrite (length_hexOf _ _ Hb) |];
    unfold hashSize; lia.
Qed.

Lemma vote_inv t n r h t' n' r' h' :
  mkSignatureMessageData t n r (Some h) = mkSignatureMessageData t' n' r' (Some h') →
  t = t' ∧ n = n' ∧ r = r' ∧ h = h'.
Proof. by intros [= -> -> -> ->]. Qed.

(** A vote that verifies is one of the two. *)
Lemma verified_vote d c data s k :
  wfContext c → from_option (hexOfLength 64) true (sm_blockHash d) = true →
  serializeMessageForSignature d c = Ok data → blsVerify s data k = true →
  ∃ t, (t = MessageType_Prevote ∨ t = MessageType_Precommit) ∧ d = soloVote t.
Proof.
  intros Hc Hh Hs Hv. pose proof (serializeForSignature_wf d c data Hs Hh) as Hd.
  assert (∀ t, (t = MessageType_Prevote ∨ t = MessageType_Precommit) → data = soloBytes t → d = soloVote t) as Hinj.
  { intros t Ht ->. pose proof (soloVote_wf t Ht) as Hwf.
    eapply signing_inj; [done | exact Hc | done | exact toyContext_wf | exact Hs |].
    by apply serializeForSignature_bytes, toyContext_wf. }
  rewrite serializeForSignature_bytes in Hs by done. injection Hs as Hs.
  pose proof (length_signatureBytes d c Hd Hc) as Hl. rewrite Hs in Hl.
  cbn [blsVerify soloBls sv_bls soloServices] in Hv. apply orb_true_iff in Hv as [Hv|Hv]; [| apply Z.ltb_lt in Hv; lia].
  apply orb_true_iff in Hv as [Hv|Hv]; apply bool_decide_eq_true_1 in Hv;
    [exists MessageType_Prevote | exists MessageType_Precommit]; auto.
Qed.

Lemma verified_aggregate vs a data n :
  @verifyAggregate soloBls vs a data n = Ok true → ∃ s k, @blsVerify soloBls s data k = true.
Proof.
  unfold verifyAggregate. destruct (negb _); [done |]. intros (keys & _ & Hk)%bind_Ok.
  destruct (negb _); [done |]. injection Hk as Hk. by exists [], [].
Qed.

Lemma context_wf w ctx : hashesOk (w_chain w) → (signatureContext w).1 = Ok ctx → wfContext ctx.
Proof.
  intros [Hg Hl] (c & w1 & Hc & Hk)%M_bind_Ok. injection Hc as <- <-.
  apply M_bind_Ok in Hk as (g & w2 & Hg' & Hk). injection Hg' as Hg' <-.
  apply M_bind_Ok in Hk as (b & w3 & Hb & Hk). injection Hb as Hb <-. injection Hk as <-.
  split; apply (hexOfLength_isHexOf 32); [by apply Hg | by apply Hl].
Qed.

Lemma solo_signed t : t = MessageType_Prevote ∨ t = MessageType_Precommit → EvSign 0 (soloVote t) ∈ w_trace solo.
Proof. intros [-> | ->]; [by apply (solo_event 0) | by apply (solo_event 1)]. Qed.

Lemma solo_certified t :
  t = MessageType_Prevote ∨ t = MessageType_Precommit →
  certified 1 ∅ (λ i, signedBy (λ _, solo) i (soloVote t)).
Proof.
  intros Ht. exists {[0]}. split; [intros i ->%elem_of_singleton; lia |]. split; [unfold quorum; by rewrite size_singleton |].
  intros i ->%elem_of_singleton _. by apply solo_signed.
Qed.

#[local] Instance solo_unforgeable :
  Unforgeable (NetworkVote ∅ (λ _, solo)) (NetworkProof ∅ (λ _, solo)) (NetworkCommit ∅ (λ _, solo)) hashesOk.
Proof.
  split.
  - intros w m Hw (Hidx & _ & Hm) (ctx & w1 & Hctx & Hk)%M_bind_Ok _.
    assert (wfContext ctx) as Hwf by (eapply context_wf; [exact Hw | by rewrite Hctx]).
    apply M_bind_Ok in Hk as (data & w2 & Hd & Hk). injection Hd as Hd <-.
    apply M_bind_Ok in Hk as (vs & w3 & _ & Hk). apply M_bind_Ok in Hk as (v & w4 & _ & Hk). injection Hk as Hk.
    change (0 ≤ msg_validatorIndex m < 1) in Hidx. assert (msg_validatorIndex m = 0) as -> by lia.
    apply bind_Ok in Hm as (d & _ & Hm). destruct (messageSchemaValid _ d) eqn:Hv; [| done].
    assert (msg_data m = d) as Hmd by (injection Hm as Hm; by rewrite <- Hm). rewrite Hmd in Hd.
    unfold messageSchemaValid in Hv. simpl_bool.
    destruct (verified_vote (toSignatureData d) ctx data [] [] Hwf) with (2 := Hd) (3 := Hk) as (t & Ht & Heq); [done |].
    unfold signedBy. rewrite Hmd, Heq. by apply solo_signed.
  - intros w p v Hw Hb Hk Hv. unfold hasValidLockProof in Hk. rewrite Hv in Hk.
    destruct (p_lockProof p) as [lp|]; [| done]. destruct (p_round p <=? v); [done |].
    apply M_bind_Ok in Hk as (ctx & w1 & Hctx & Hk).
    assert (wfContext ctx) as Hwf by (eapply context_wf; [exact Hw | by rewrite Hctx]).
    apply M_bind_Ok in Hk as (data & w2 & Hd & Hk). injection Hd as Hd <-.
    apply M_bind_Ok in Hk as (vs & w3 & _ & Hk). apply verified_aggregate in Hk as (s & k & Hk).
    destruct (verified_vote (mkSignatureMessageData MessageType_Prevote (p_blockNumber p) v (Some (p_hash p)))
      ctx data s k Hwf (built_hash p Hb) Hd Hk) as (t & Ht & Heq).
    apply vote_inv in Heq as (<- & -> & -> & ->). by apply (solo_certified MessageType_Prevote).
  - intros w c h Hw Hc Hh Hk. unfold hasValidCommitSignature in Hk.
    apply M_bind_Ok in Hk as (ch & w1 & Hch & Hk). injection Hch as <- <-.
    apply M_bind_Ok in Hk as (g & w2 & Hg & Hk). injection Hg as Hg <-.
    apply M_bind_Ok in Hk as (data & w3 & Hd & Hk). injection Hd as Hd <-.
    apply verified_aggregate in Hk as (s & k & Hk).
    assert (wfContext (mkSignatureMessageContext (b_hash (c_block g)) h)) as Hwf.
    { destruct Hw as [Hwg _]. split; apply (hexOfLength_isHexOf 32); [exact (Hwg g Hg) | exact Hh]. }
    destruct (verified_vote (mkSignatureMessageData MessageType_Precommit (b_number (c_block c))
      (cp_round (c_proof c)) (Some (b_hash (c_block c)))) _ data s k Hwf Hc Hd Hk) as (t & Ht & Heq).
    apply vote_inv in Heq as (<- & -> & -> & ->). by apply (solo_certified MessageType_Precommit).
  - intros c b round [Hg _] Hb. split; [exact Hg |]. by apply (wellHashed_last _ b).
  - intros c number n newRound Hc. exact Hc.
Qed.

Lemma soloChain_ok : hashesOk soloChain.
Proof.
  split; [| apply (wellHashed_last _ toyGenesis); [reflexivity | exact genesisHash_hex]].
  intros g Hg. change (Ok toyGenesisCommit = Ok g) in Hg.
  assert (∀ g', Ok g' = Ok g → hexOfLength 64 (b_hash (c_block g')) = true → hexOfLength 64 (b_hash (c_block g)) = true)
    as Heq by (intros g' [= <-]; done).
  apply (Heq _ Hg), genesisHash_hex.
Qed.

Lemma solo_reachable :
  networkReachable ∅ (λ _, solo) (λ _, firstRound 1) hashesOk.
Proof. intros i _. exact (play_reachable _ _ _ hashesOk 1 soloChain 1004000 soloScript soloChain_ok). Qed.

Lemma network_agreement_witness : proposedHash = proposedHash.
Proof.
  apply (network_agreement ∅ (λ _, solo) (λ _, firstRound 1) hashesOk 0 0 1 0 proposedHash 0 proposedHash).
  - exact solo_unforgeable.
  - exact solo_reachable.
  - done.
  - done.
  - by apply not_elem_of_empty.
  - by apply not_elem_of_empty.
  - by apply (solo_event 2).
  - by apply (solo_event 2).
Defined.
