(* ===== verification/SenderState.v ===== *)
(** * packages/transaction-pool-service: a sender's admission checks and queue

    state/wallets/wallet.ts, sender-state.ts and sender-mempool.ts.  A sender's
    queue holds transactions with consecutive nonces that the sender can pay for
    together; every operation keeps that, whichever way it ends.  Calls run to
    completion one after the other. *)
From S2P Require Import Prelude Bytes Serializer Messages Blocks Proposals BlockchainUtils BlockProcessor.

(** What the EVM knows of an account: [getAccountInfoExtended]. *)
Record Account := mkAccount {
  ac_balance : Z;
  ac_nonce : Z;
  ac_legacySecondPublicKey : option string;
}.

(** wallet.ts. *)
Record Wallet := mkWallet {
  wa_address : string;
  wa_legacyAddress : string;
  wa_balance : Z;
  wa_nonce : Z;
  wa_legacySecondPublicKey : option string;
}.
#[export] Instance eta_Wallet : Eta Wallet := λ w,
  mkWallet (wa_address w) (wa_legacyAddress w) (wa_balance w) (wa_nonce w) (wa_legacySecondPublicKey w).

(** The argument of [evm.preverifyTransaction]. *)
Record PreverifyCall := mkPreverifyCall {
  pc_blockGasLimit : Z;
  pc_data : list byte;
  pc_from : string;
  pc_gasLimit : Z;
  pc_gasPrice : Z;
  pc_legacyAddress : string;
  pc_nonce : Z;
  pc_specId : string;
  pc_to : option string;
  pc_txHash : string;
  pc_value : Z;
}.

(** What the pool sees of the chain at a moment. *)
Record ChainView := mkChainView {
  cv_account : string → string → Account;
  cv_preverify : PreverifyCall → bool;
  cv_blockNumber : Z;
  cv_maxGasLimit : Z;
  cv_evmSpec : string;
}.

(** The plugin's configuration (defaults.ts), and the network's chain id. *)
Record PoolConfig := mkPoolConfig {
  pl_chainId : Z;
  pl_allowedSenders : list string;
  pl_maxTransactionAge : Z;
  pl_maxTransactionBytes : Z;
  pl_maxTransactionsInPool : Z;
  pl_maxTransactionsPerRequest : Z;
  pl_maxTransactionsPerSender : Z;
  pl_rebroadcastCooldownBlocks : Z;
  pl_rebroadcastThreshold : Z;
}.

Section senderState.
Context `{LegacySignature} (config : PoolConfig) (view : ChainView).

(** ** wallet.ts *)
Definition walletInit (address legacyAddress : string) : Wallet :=
  let info := cv_account view address legacyAddress in
  mkWallet address legacyAddress (ac_balance info) (ac_nonce info) (ac_legacySecondPublicKey info).
Definition increaseBalance (n : Z) : M Wallet unit := modify (λ w, w <| wa_balance ::= λ b, b + n |>).
Definition decreaseBalance (n : Z) : M Wallet unit := modify (λ w, w <| wa_balance ::= λ b, b - n |>).
Definition increaseNonce : M Wallet unit := modify (λ w, w <| wa_nonce ::= λ n, n + 1 |>).
Definition decreaseNonce : M Wallet unit := modify (λ w, w <| wa_nonce ::= λ n, n - 1 |>).
Definition hasLegacySecondPublicKey (w : Wallet) : bool :=
  match wa_legacySecondPublicKey w with None | Some EmptyString => false | _ => true end.

(** ** sender-state.ts *)
Definition cost (tx : Transaction) : Z := tx_value tx + calculateFee tx.

Definition preverifyCall (tx : Transaction) : PreverifyCall :=
  mkPreverifyCall (cv_maxGasLimit view) (hexDecode (slice (tx_data tx) 2 (String.length (tx_data tx))))
    (tx_from tx) (tx_gasLimit tx) (tx_gasPrice tx) (tx_senderLegacyAddress tx) (tx_nonce tx) (cv_evmSpec view)
    (tx_to tx) (tx_hash tx) (tx_value tx).

Definition preverify (tx : Transaction) : result unit :=
  if negb (cv_preverify view (preverifyCall tx)) then Throw (PoolError "ERR_PREVERIFY") else Ok tt.

Definition validateTransaction (w : Wallet) (tx : Transaction) (nonceOffset refund : Z) : result unit :=
  if pl_maxTransactionBytes config <? Z.of_nat (length (tx_serialized tx)) then Throw (PoolError "ERR_TOO_LARGE")
  else if negb (tx_network tx =? 0) && negb (tx_network tx =? pl_chainId config) then Throw (PoolError "ERR_WRONG_NETWORK")
  else if negb (wa_nonce w + nonceOffset =? tx_nonce tx) then Throw (NamedError "UnexpectedNonceError")
  else if wa_balance w + refund - tx_value tx - calculateFee tx <? 0 then Throw (NamedError "InsufficientBalanceError")
  else
    _ ← (if hasLegacySecondPublicKey w
         then verifyLegacySecondSignature tx (default "" (wa_legacySecondPublicKey w))
         else match tx_legacySecondSignature tx with
              | None | Some EmptyString => Ok true
              | _ => Throw (NamedError "UnexpectedLegacySecondSignatureError")
              end);
    preverify tx.

Definition senderReset : M Wallet unit := modify (λ w, walletInit (wa_address w) (wa_legacyAddress w)).

Definition senderApply (tx : Transaction) : M Wallet unit :=
  w ← get;
  _ ← liftR (validateTransaction w tx 0 0);
  increaseNonce;;
  decreaseBalance (tx_value tx + calculateFee tx).

Definition senderReplace (oldTransaction newTransaction : Transaction) (currentNonce : Z) : M Wallet bool :=
  if negb (tx_nonce oldTransaction =? tx_nonce newTransaction)
  then throw (JSError "cannot replace transaction with mismatching nonce")
  else
    let oldTransactionCost := tx_value oldTransaction + calculateFee oldTransaction in
    let newTransactionCost := tx_value newTransaction + calculateFee newTransaction in
    w ← get;
    if wa_balance w + oldTransactionCost <? newTransactionCost then mret false
    else
      let nonceOffset := (currentNonce - tx_nonce newTransaction) * -1 in
      _ ← liftR (validateTransaction w newTransaction nonceOffset oldTransactionCost);
      increaseBalance oldTransactionCost;;
      decreaseBalance newTransactionCost;;
      mret true.

Definition senderRevert (tx : Transaction) : M Wallet unit :=
  decreaseNonce;;
  increaseBalance (tx_value tx + calculateFee tx).

(** ** sender-mempool.ts *)
Record SenderMempool := mkSenderMempool {
  sq_senderState : Wallet;
  sq_concurrency : Z;
  sq_transactions : list Transaction;
}.
#[export] Instance eta_SenderMempool : Eta SenderMempool := λ s,
  mkSenderMempool (sq_senderState s) (sq_concurrency s) (sq_transactions s).

Definition newSenderMempool (address legacyAddress : string) : SenderMempool :=
  mkSenderMempool (walletInit address legacyAddress) 0 [].

Definition onWallet {A} (m : M Wallet A) : M SenderMempool A := λ s,
  let '(r, w) := m (sq_senderState s) in (r, s <| sq_senderState := w |>).

Definition isDisposable (s : SenderMempool) : bool :=
  bool_decide (sq_transactions s = []) && (sq_concurrency s =? 0).
Definition sqGetSize (s : SenderMempool) : Z := Z.of_nat (length (sq_transactions s)).
Definition getFromEarliest (s : SenderMempool) : list Transaction := sq_transactions s.
Definition getFromLatest (s : SenderMempool) : list Transaction := reverse (sq_transactions s).
Definition sqGetNonce (s : SenderMempool) : Z := wa_nonce (sq_senderState s).

Definition sqAddTransaction (tx : Transaction) : M SenderMempool unit :=
  modify (λ s, s <| sq_concurrency ::= λ c, c + 1 |>);;
  tryFinally
    (s ← get;
     if (pl_maxTransactionsPerSender config <=? sqGetSize s) && negb (bool_decide (tx_from tx ∈ pl_allowedSenders config))
     then throw (PoolError "ERR_EXCEEDS_MAX_COUNT")
     else
       onWallet (senderApply tx);;
       modify (λ s, s <| sq_transactions ::= λ l, l ++ [tx] |>))
    (λ s, s <| sq_concurrency ::= λ c, c - 1 |>).

(** [findIndex], [splice(index, length - index)]: the transactions from the first
    match on. *)
Fixpoint findIndex {A} (p : A → bool) (l : list A) : option nat :=
  match l with
  | [] => None
  | x :: l' => if p x then Some O else S <$> findIndex p l'
  end.

Definition spliceFrom (index : nat) : M SenderMempool (list Transaction) :=
  s ← get;
  modify (λ s, s <| sq_transactions ::= take index |>);;
  mret (drop index (sq_transactions s)).

Definition sqRemoveTransaction (hash : string) : M SenderMempool (list Transaction) :=
  s ← get;
  match findIndex (λ t, String.eqb (tx_hash t) hash) (sq_transactions s) with
  | None => mret []
  | Some index =>
      suffix ← spliceFrom index;
      let transactions := reverse suffix in
      forEach transactions (λ t, onWallet (senderRevert t));;
      mret transactions
  end.

(** Each in turn; those that cannot be added are collected. *)
Fixpoint addAll (l : list Transaction) : M SenderMempool (list Transaction) :=
  match l with
  | [] => mret []
  | tx :: l' =>
      kept ← tryCatch (sqAddTransaction tx;; mret true) (λ _, mret false);
      removed ← addAll l';
      mret (if kept : bool then removed else tx :: removed)
  end.

(** The latest transactions down to the nonce, latest first. *)
Fixpoint takeAffected (nonce : Z) (latest : list Transaction) : list Transaction :=
  match latest with
  | [] => []
  | t :: rest => if tx_nonce t <? nonce then [] else t :: takeAffected nonce rest
  end.

Definition replaceTransaction (newTransaction : Transaction) : M SenderMempool (list Transaction) :=
  s ← get;
  let affectedTransactions := takeAffected (tx_nonce newTransaction) (getFromLatest s) in
  match last affectedTransactions with
  | None => mret []
  | Some sameNonceTransaction =>
      if negb (tx_nonce sameNonceTransaction =? tx_nonce newTransaction) then throw (JSError "transaction nonce mismatch")
      else if tx_gasPrice newTransaction <=? tx_gasPrice sameNonceTransaction then mret []
      else
        index ← liftR (assert_defined (findIndex (λ t, tx_nonce t =? tx_nonce newTransaction) (sq_transactions s)));
        replaced ← onWallet (senderReplace sameNonceTransaction newTransaction (sqGetNonce s));
        if replaced : bool then
          s ← get;
          current ← liftR (assert_defined (sq_transactions s !! index));
          if negb (tx_nonce sameNonceTransaction =? tx_nonce current) then throw (JSError "expected same transaction nonce")
          else
            modify (λ s, s <| sq_transactions ::= λ l, <[index := newTransaction]> l |>);;
            mret [sameNonceTransaction]
        else
          suffix ← spliceFrom index;
          forEach (reverse suffix) (λ t, onWallet (senderRevert t));;
          first ← liftR (assert_defined (head suffix));
          if negb (tx_nonce first =? tx_nonce newTransaction)
          then throw (JSError "expected to replace same transaction nonce")
          else
            removed ← addAll (newTransaction :: tail suffix);
            mret (sameNonceTransaction :: removed)
  end.

Definition sqReAddTransactions : M SenderMempool (list Transaction) :=
  onWallet senderReset;;
  transactions ← spliceFrom 0;
  addAll transactions.

(** ** The invariant of a sender's queue

    With the account at nonce [n0] and balance [b0] on the chain, the queue holds
    the nonces from [n0] on without a gap, and the wallet is the account after all
    of it, with nothing overdrawn. *)
Definition totalCost (l : list Transaction) : Z := foldr (λ t n, cost t + n) 0 l.

Record queueOk (n0 b0 : Z) (s : SenderMempool) : Prop := {
  qo_nonces : ∀ i t, sq_transactions s !! i = Some t → tx_nonce t = n0 + Z.of_nat i;
  qo_nonce : wa_nonce (sq_senderState s) = n0 + Z.of_nat (length (sq_transactions s));
  qo_balance : wa_balance (sq_senderState s) = b0 - totalCost (sq_transactions s);
  qo_funds : 0 ≤ wa_balance (sq_senderState s);
  qo_costs : Forall (λ t, 0 ≤ cost t) (sq_transactions s);
  qo_idle : sq_concurrency s = 0;
}.

Lemma totalCost_app l l' : totalCost (l ++ l') = totalCost l + totalCost l'.
Proof. induction l as [|t l IH]; simpl; [done |]. rewrite IH. lia. Qed.

Lemma totalCost_reverse l : totalCost (reverse l) = totalCost l.
Proof. induction l as [|t l IH]; [done |]. rewrite reverse_cons, totalCost_app, IH. simpl. lia. Qed.

Lemma validate_Ok w tx offset refund :
  validateTransaction w tx offset refund = Ok tt →
  wa_nonce w + offset = tx_nonce tx ∧ cost tx ≤ wa_balance w + refund.
Proof.
  unfold validateTransaction, cost. destruct (_ <? _); [done |]. destruct (_ && _); [done |].
  destruct (Z.eqb_spec (wa_nonce w + offset) (tx_nonce tx)); [| done]. cbn [negb].
  destruct (Z.ltb_spec (wa_balance w + refund - tx_value tx - calculateFee tx) 0); [done |]. intros _. lia.
Qed.

Lemma senderApply_run tx w :
  match senderApply tx w with
  | (Ok _, w') => w' = w <| wa_nonce ::= λ n, n + 1 |> <| wa_balance ::= λ b, b - cost tx |> ∧
                  tx_nonce tx = wa_nonce w ∧ cost tx ≤ wa_balance w
  | (Throw _, w') => w' = w
  end.
Proof.
  unfold senderApply, mbind, M_bind, get, liftR. destruct (validateTransaction w tx 0 0) as [[]|] eqn:Hv; [| done].
  apply validate_Ok in Hv as [Hn Hc]. cbn. split; [done |]. lia.
Qed.

(** Adding appends, or changes nothing. *)
Lemma sqAdd_run tx s :
  match sqAddTransaction tx s with
  | (Ok _, s') => s' = s <| sq_senderState ::= λ w, w <| wa_nonce ::= λ n, n + 1 |> <| wa_balance ::= λ b, b - cost tx |> |>
                         <| sq_transactions ::= λ l, l ++ [tx] |> ∧
                  tx_nonce tx = wa_nonce (sq_senderState s) ∧ cost tx ≤ wa_balance (sq_senderState s)
  | (Throw _, s') => s' = s
  end.
Proof.
  unfold sqAddTransaction, tryFinally, mbind, M_bind, modify, get. cbn.
  destruct (_ && _); cbn; [destruct s; unfold set_field; cbn; f_equal; lia |].
  unfold onWallet. cbn. pose proof (senderApply_run tx (sq_senderState s)) as Ha.
  destruct (senderApply tx (sq_senderState s)) as [[[]|] w]; cbn.
  - destruct Ha as (-> & Hn & Hc). split; [| done]. destruct s. unfold set_field. cbn. f_equal. lia.
  - subst w. destruct s. unfold set_field. cbn. f_equal. lia.
Qed.

Lemma sqAdd_ok n0 b0 tx s : 0 ≤ cost tx → queueOk n0 b0 s → queueOk n0 b0 (run_in (sqAddTransaction tx) s).
Proof.
  intros Hpos [Hns Hn Hb Hf Hc0 Hi]. unfold run_in. pose proof (sqAdd_run tx s) as Ha.
  destruct (sqAddTransaction tx s) as [[[]|] s']; [| by subst s'].
  destruct Ha as (-> & Htx & Hc). split; cbn.
  - intros i t Ht. apply lookup_app_Some in Ht as [Ht|[Hlen Ht]]; [by apply Hns |].
    apply list_lookup_singleton_Some in Ht as [Hi0 <-]. lia.
  - rewrite length_app. simpl. lia.
  - rewrite totalCost_app. simpl. lia.
  - lia.
  - apply Forall_app. by split; [| apply Forall_singleton].
  - done.
Qed.

(** Reverting is exact. *)
Definition refunded (l : list Transaction) (s : SenderMempool) : SenderMempool :=
  s <| sq_senderState ::= λ w, w <| wa_nonce ::= λ n, n - Z.of_nat (length l) |> <| wa_balance ::= λ b, b + totalCost l |> |>.

Lemma revertAll_run l : ∀ s, forEach l (λ t, onWallet (senderRevert t)) s = (Ok tt, refunded l s).
Proof.
  induction l as [|t l IH]; intros s.
  - unfold refunded, set_field. cbn. destruct s as [[] ? ?]. cbn. unfold mret, M_ret. by rewrite Z.sub_0_r, Z.add_0_r.
  - cbn [forEach]. erewrite M_bind_run by reflexivity. rewrite IH. f_equal.
    unfold refunded, set_field. cbn [length]. destruct s as [[] ? ?]. unfold totalCost. cbn -[Z.of_nat Z.add Z.sub].
    do 2 f_equal; unfold cost; lia.
Qed.

(** The state after the transactions from an index on were taken out and reverted. *)
Lemma spliced_ok n0 b0 s i :
  queueOk n0 b0 s →
  queueOk n0 b0 (refunded (reverse (drop i (sq_transactions s))) (s <| sq_transactions ::= take i |>)).
Proof.
  intros [Hns Hn Hb Hf Hc Hi].
  assert (length (sq_transactions s) = length (take i (sq_transactions s)) + length (drop i (sq_transactions s)))%nat as Hlen
    by (rewrite <- length_app, take_drop; done).
  pose proof (totalCost_app (take i (sq_transactions s)) (drop i (sq_transactions s))) as Htotal. rewrite take_drop in Htotal.
  assert (0 ≤ totalCost (drop i (sq_transactions s))) as Hpos.
  { apply (Forall_drop _ i) in Hc. clear -Hc. induction Hc; simpl; lia. }
  split; unfold refunded, set_field; cbn -[reverse take drop Z.add Z.sub Z.of_nat totalCost];
    rewrite ?length_reverse, ?totalCost_reverse; [| lia | lia | lia | by apply Forall_take | done].
  intros j t Ht. apply Hns. destruct (decide (j < i)%nat); [by rewrite lookup_take_lt in Ht | by rewrite lookup_take_ge in Ht by lia].
Qed.

Lemma findIndex_Some {A} (f : A → bool) l i :
  findIndex f l = Some i → ∃ x, l !! i = Some x ∧ f x = true ∧ ∀ j y, (j < i)%nat → l !! j = Some y → f y = false.
Proof.
  revert i; induction l as [|a l IH]; intros i; simpl; [done |]. destruct (f a) eqn:Ha.
  - intros [= <-]. exists a. split; [done |]. split; [done |]. intros; lia.
  - destruct (findIndex f l) as [k|]; [| done]. intros [= <-]. destruct (IH k eq_refl) as (x & Hx & Hf & Hmin).
    exists x. split; [done |]. split; [done |]. intros [|j] y Hj Hy; [by injection Hy as <- |]. apply (Hmin j); [lia | done].
Qed.

Lemma findIndex_None {A} (f : A → bool) l : findIndex f l = None ↔ ∀ x, x ∈ l → f x = false.
Proof.
  induction l as [|a l IH]; simpl; [split; [by intros _ x ?%elem_of_nil | done] |].
  destruct (f a) eqn:Ha; [split; [done | intros Hall; specialize (Hall a ltac:(left)); congruence] |].
  rewrite fmap_None, IH. split; [intros Hl x [->|]%elem_of_cons; auto | intros Hl x Hx; apply Hl; by right].
Qed.

(** ** What each operation does to the queue *)
Lemma sqRemove_run hash s :
  sqRemoveTransaction hash s =
  match findIndex (λ t, String.eqb (tx_hash t) hash) (sq_transactions s) with
  | None => (Ok [], s)
  | Some i => (Ok (reverse (drop i (sq_transactions s))),
               refunded (reverse (drop i (sq_transactions s))) (s <| sq_transactions ::= take i |>))
  end.
Proof.
  unfold sqRemoveTransaction, mbind at 1, M_bind at 1, get. destruct (findIndex _ _) as [i|]; [| done].
  erewrite M_bind_run by reflexivity. by rewrite (M_bind_run _ _ _ _ _ (revertAll_run _ _)).
Qed.

Lemma validate_fuel w tx offset refund : validateTransaction w tx offset refund ≠ Throw OutOfFuel.
Proof.
  unfold validateTransaction, preverify, verifyLegacySecondSignature, mbind, result_bind.
  repeat (case_match; simplify_eq; try done).
Qed.

Lemma sqAdd_fuel tx s : (sqAddTransaction tx s).1 ≠ Throw OutOfFuel.
Proof.
  unfold sqAddTransaction, tryFinally, onWallet, senderApply, mbind, M_bind, modify, get, liftR, throw. cbn.
  destruct (_ && _); [done |]. pose proof (validate_fuel (sq_senderState s) tx 0 0).
  destruct (validateTransaction _ _ _ _) as [[]|]; [done |]. cbn. congruence.
Qed.

(** A replacement that the balance covers swaps the costs. *)
Lemma senderReplace_run old new n w :
  match senderReplace old new n w with
  | (Ok true, w') => w' = w <| wa_balance ::= λ b, b + cost old - cost new |> ∧ cost new ≤ wa_balance w + cost old
  | (_, w') => w' = w
  end.
Proof.
  unfold senderReplace. destruct (negb _); [done |]. unfold mbind, M_bind, get, liftR. cbv zeta.
  fold (cost old) (cost new). destruct (Z.ltb_spec (wa_balance w + cost old) (cost new)); [done |].
  destruct (validateTransaction _ _ _ _) as [[]|]; [| done]. cbn. split; [done | lia].
Qed.

Lemma senderReplace_fuel old new n w : (senderReplace old new n w).1 ≠ Throw OutOfFuel.
Proof.
  unfold senderReplace. destruct (negb _); [done |]. unfold mbind, M_bind, get, liftR. cbv zeta.
  destruct (_ <? _); [done |].
  pose proof (validate_fuel w new ((n - tx_nonce new) * -1) (tx_value old + calculateFee old)).
  destruct (validateTransaction _ _ _ _) as [[]|]; [done |]. cbn. congruence.
Qed.

Lemma addAll_spec n0 b0 l : ∀ s,
  Forall (λ t, 0 ≤ cost t) l → queueOk n0 b0 s →
  ∃ removed added s', addAll l s = (Ok removed, s') ∧ queueOk n0 b0 s' ∧
    sq_transactions s' = sq_transactions s ++ added ∧ l ≡ₚ added ++ removed.
Proof.
  induction l as [|t l IH]; intros s Hl Hs.
  { exists [], [], s. by rewrite app_nil_r. }
  apply Forall_cons in Hl as [Ht Hl]. cbn [addAll]. unfold mbind at 1, M_bind at 1, tryCatch.
  pose proof (sqAdd_ok n0 b0 t s Ht Hs) as Hok. pose proof (sqAdd_run t s) as Hrun. unfold run_in in Hok.
  unfold mbind at 1, M_bind at 1. destruct (sqAddTransaction t s) as [[[]|e] s1] eqn:Hadd.
  - destruct Hrun as (Heq & _). cbn in Hok. cbn [mret M_ret].
    destruct (IH s1 Hl Hok) as (removed & added & s' & Hrest & Hs' & Htx & Hperm).
    exists removed, (t :: added), s'. rewrite (M_bind_run _ _ _ _ _ Hrest). split; [done |]. split; [done |].
    split; [rewrite Htx, Heq; cbn; by rewrite <- app_assoc | by rewrite Hperm].
  - cbn in Hrun, Hok. subst s1.
    destruct (IH s Hl Hs) as (removed & added & s' & Hrest & Hs' & Htx & Hperm).
    exists (t :: removed), added, s'.
    assert ((kept ← mret false; removed ← addAll l; mret (if kept : bool then removed else t :: removed)) s = (Ok (t :: removed), s')) as Hr.
    { erewrite M_bind_run by reflexivity. by rewrite (M_bind_run _ _ _ _ _ Hrest). }
    split; [| split; [done | split; [done | by rewrite Hperm, Permutation_middle]]].
    destruct e; try exact Hr. by destruct (sqAdd_fuel t s); rewrite Hadd.
Qed.

Lemma replaced_ok n0 b0 s i same new :
  0 ≤ cost new → queueOk n0 b0 s → sq_transactions s !! i = Some same → tx_nonce same = tx_nonce new →
  cost new ≤ wa_balance (sq_senderState s) + cost same →
  let s' := s <| sq_senderState := (sq_senderState s) <| wa_balance ::= λ b, b + cost same - cost new |> |>
              <| sq_transactions ::= λ l, <[i := new]> l |> in
  queueOk n0 b0 s' ∧ new :: sq_transactions s ≡ₚ [same] ++ sq_transactions s'.
Proof.
  intros Hcost [Hns Hn Hb Hf Hc Hi] Hcur Hnonce Hfunds s'.
  assert (sq_transactions s' = take i (sq_transactions s) ++ new :: drop (S i) (sq_transactions s)) as Htx.
  { apply insert_take_drop. by eapply lookup_lt_Some. }
  pose proof (take_drop_middle _ _ _ Hcur) as Hsplit.
  assert (totalCost (sq_transactions s) = totalCost (sq_transactions s') + cost same - cost new) as Htotal.
  { rewrite Htx. rewrite <- Hsplit at 1. rewrite !totalCost_app. simpl. lia. }
  split.
  - split.
    + intros j t. change (sq_transactions s') with (<[i := new]> (sq_transactions s)).
      destruct (decide (j = i)) as [->|Hne].
      * rewrite list_lookup_insert_eq by (by eapply lookup_lt_Some). intros [= <-]. rewrite <- Hnonce. by apply Hns.
      * rewrite list_lookup_insert_ne by done. apply Hns.
    + subst s'. cbn. by rewrite length_insert.
    + change (wa_balance (sq_senderState s')) with (wa_balance (sq_senderState s) + cost same - cost new). lia.
    + change (wa_balance (sq_senderState s')) with (wa_balance (sq_senderState s) + cost same - cost new). lia.
    + rewrite Htx. rewrite <- Hsplit in Hc. apply Forall_app in Hc as [? Hc]. apply Forall_cons in Hc as [_ ?].
      apply Forall_app. split; [done |]. by apply Forall_cons.
    + done.
  - rewrite Htx. rewrite <- Hsplit at 1. cbn. by rewrite <- !Permutation_middle, Permutation_swap.
Qed.

Lemma elem_of_takeAffected t nonce l : t ∈ takeAffected nonce l → t ∈ l.
Proof.
  induction l as [|a l IH]; simpl; [done |]. destruct (_ <? _); [by intros ?%elem_of_nil |].
  intros [->|]%elem_of_cons; [left | right; auto].
Qed.

(** Replacing leaves the queue as it was, or accounts for every transaction. *)
Lemma replace_spec n0 b0 new s :
  0 ≤ cost new → queueOk n0 b0 s →
  match replaceTransaction new s with
  | (Ok [], s') => s' = s
  | (Ok removed, s') => queueOk n0 b0 s' ∧ new :: sq_transactions s ≡ₚ removed ++ sq_transactions s'
  | (Throw e, s') => s' = s ∧ e ≠ OutOfFuel
  end.
Proof.
  intros Hcost Hs. unfold replaceTransaction, mbind at 1, M_bind at 1, get at 1.
  destruct (last _) as [same|] eqn:Hlast; [| done].
  destruct (Z.eqb_spec (tx_nonce same) (tx_nonce new)) as [Hnonce|]; [| done]. cbn [negb].
  destruct (_ <=? _); [done |]. unfold mbind at 1, M_bind at 1, liftR.
  destruct (findIndex _ _) as [i|] eqn:Hi; [| done]. cbn [assert_defined].
  apply findIndex_Some in Hi as (cur & Hcur & Heq & _). apply Z.eqb_eq in Heq.
  assert (cur = same) as ->.
  { apply last_Some_elem_of, elem_of_takeAffected in Hlast. unfold getFromLatest in Hlast.
    rewrite elem_of_reverse in Hlast. apply list_elem_of_lookup in Hlast as [j Hj].
    pose proof (qo_nonces _ _ _ Hs _ _ Hcur). pose proof (qo_nonces _ _ _ Hs _ _ Hj).
    assert (j = i) as -> by lia. congruence. }
  pose proof (senderReplace_run same new (sqGetNonce s) (sq_senderState s)) as Hrep.
  pose proof (senderReplace_fuel same new (sqGetNonce s) (sq_senderState s)) as Hfuel.
  unfold mbind at 1, M_bind at 1, onWallet at 1.
  destruct (senderReplace same new (sqGetNonce s) (sq_senderState s)) as [[[]|e] w].
  - destruct Hrep as (-> & Hfunds). unfold mbind, M_bind, get, liftR. cbn [sq_transactions set_field assert_defined].
    change (sq_transactions (s <| sq_senderState := _ |>)) with (sq_transactions s). rewrite Hcur. cbn [assert_defined].
    rewrite Hnonce, Z.eqb_refl. cbn [negb]. by apply replaced_ok.
  - subst w. replace (s <| sq_senderState := sq_senderState s |>) with s by (by destruct s).
    erewrite M_bind_run by reflexivity. rewrite (M_bind_run _ _ _ _ _ (revertAll_run _ _)).
    rewrite (drop_S _ _ _ Hcur). cbn [head tail]. unfold mbind at 1, M_bind at 1, liftR. cbn [assert_defined].
    rewrite Hnonce, Z.eqb_refl. cbn [negb].
    pose proof (spliced_ok n0 b0 s i Hs) as Hspliced. rewrite (drop_S _ _ _ Hcur) in Hspliced.
    assert (Forall (λ t, 0 ≤ cost t) (new :: drop (S i) (sq_transactions s))) as Hcosts
      by (apply Forall_cons; split; [done |]; apply Forall_drop, Hs).
    destruct (addAll_spec n0 b0 _ _ Hcosts Hspliced) as (removed & added & s' & Hadd & Hs' & Htx & Hperm).
    rewrite (M_bind_run _ _ _ _ _ Hadd). cbn [mret M_ret]. split; [done |]. rewrite Htx.
    change (sq_transactions (refunded _ _)) with (take i (sq_transactions s)).
    rewrite <- (take_drop_middle _ _ _ Hcur) at 1. rewrite <- Permutation_middle, Permutation_swap.
    cbn. apply Permutation_skip. rewrite (Permutation_middle _ _ new), Hperm. solve_Permutation.
  - subst w. split; [by destruct s |]. intros ->. by apply Hfuel.
Qed.

Lemma remove_ok n0 b0 hash s : queueOk n0 b0 s → queueOk n0 b0 (run_in (sqRemoveTransaction hash) s).
Proof. intros Hs. unfold run_in. rewrite sqRemove_run. destruct (findIndex _ _); [by apply spliced_ok | done]. Qed.

(** Removing takes the transaction and everything after it. *)
Lemma remove_spec hash s :
  match sqRemoveTransaction hash s with
  | (Ok removed, s') => sq_transactions s = sq_transactions s' ++ reverse removed ∧
      (∀ t, t ∈ sq_transactions s → tx_hash t = hash → hash ∈ tx_hash <$> removed) ∧
      (removed ≠ [] → hash ∈ tx_hash <$> removed)
  | (Throw _, _) => False
  end.
Proof.
  rewrite sqRemove_run. destruct (findIndex _ _) as [i|] eqn:Hi.
  - change (sq_transactions (refunded _ _)) with (take i (sq_transactions s)). rewrite reverse_involutive, take_drop.
    apply findIndex_Some in Hi as (x & Hx & Heq & _). apply String.eqb_eq in Heq as <-.
    assert (tx_hash x ∈ tx_hash <$> reverse (drop i (sq_transactions s))) as Hin
      by (apply list_elem_of_fmap_2; rewrite elem_of_reverse, (drop_S _ _ _ Hx); left).
    done.
  - rewrite reverse_nil, app_nil_r. split; [done |]. split; [| done]. intros t Ht Heq. rewrite findIndex_None in Hi.
    specialize (Hi t Ht). by apply String.eqb_neq in Hi.
Qed.

Lemma reAdd_spec n0 b0 s :
  let info := cv_account view (wa_address (sq_senderState s)) (wa_legacyAddress (sq_senderState s)) in
  0 ≤ ac_balance info → queueOk n0 b0 s →
  ∃ removed s', sqReAddTransactions s = (Ok removed, s') ∧ queueOk (ac_nonce info) (ac_balance info) s' ∧
    sq_transactions s ≡ₚ sq_transactions s' ++ removed.
Proof.
  intros info Hfunds Hs. unfold sqReAddTransactions. erewrite M_bind_run by reflexivity.
  erewrite M_bind_run by reflexivity. cbn [drop].
  assert (queueOk (ac_nonce info) (ac_balance info)
    (mkSenderMempool (walletInit (wa_address (sq_senderState s)) (wa_legacyAddress (sq_senderState s))) (sq_concurrency s) []))
    as Hempty.
  { split; cbn; [by intros | subst info; lia | subst info; lia | done | done | apply Hs]. }
  destruct (addAll_spec _ _ _ _ (qo_costs _ _ _ Hs) Hempty) as (removed & added & s' & Hadd & Hs' & Htx & Hperm).
  exists removed, s'. split; [exact Hadd |]. split; [done |]. cbn in Htx. by rewrite Htx.
Qed.

Inductive SenderOp :=
  | OpAdd (tx : Transaction)
  | OpRemove (hash : string)
  | OpReplace (tx : Transaction)
  | OpReAdd.

Definition runSenderOp (op : SenderOp) (s : SenderMempool) : SenderMempool :=
  match op with
  | OpAdd tx => run_in (sqAddTransaction tx) s
  | OpRemove hash => run_in (sqRemoveTransaction hash) s
  | OpReplace tx => run_in (replaceTransaction tx) s
  | OpReAdd => run_in sqReAddTransactions s
  end.

Lemma replace_ok n0 b0 tx s : 0 ≤ cost tx → queueOk n0 b0 s → queueOk n0 b0 (run_in (replaceTransaction tx) s).
Proof.
  intros Hc Hs. pose proof (replace_spec n0 b0 tx s Hc Hs) as Hr. unfold run_in.
  destruct (replaceTransaction tx s) as [[[|r rs]|] s']; [by subst s' | apply Hr | by destruct Hr as [-> _]].
Qed.

(** C26. Whatever is added to, removed from or replaced in a sender's queue, in
    whatever order and whether the call succeeds or throws, the queue holds
    consecutive nonces starting at the account's, and the account can pay for all
    of it: what the wallet shows is the account after the whole queue, and it is
    not negative.  Re-adding the queue after a block establishes the same for the
    account as it is then. *)
Theorem sender_queue_ok n0 b0 op s :
  let info := cv_account view (wa_address (sq_senderState s)) (wa_legacyAddress (sq_senderState s)) in
  match op with OpAdd tx | OpReplace tx => 0 ≤ cost tx | OpRemove _ => True | OpReAdd => 0 ≤ ac_balance info end →
  queueOk n0 b0 s →
  match op with
  | OpReAdd => queueOk (ac_nonce info) (ac_balance info) (runSenderOp op s)
  | _ => queueOk n0 b0 (runSenderOp op s)
  end.
Proof.
  intros info Hop Hs. destruct op as [tx|hash|tx|]; cbn [runSenderOp].
  - by apply sqAdd_ok.
  - by apply remove_ok.
  - by apply replace_ok.
  - destruct (reAdd_spec n0 b0 s Hop Hs) as (removed & s' & Hrun & Hs' & _). unfold run_in. by rewrite Hrun.
Qed.
End senderState.
