(* ===== verification/Mempool.v ===== *)
(** * packages/transaction-pool-service: the pool, its storage and its queries

    mempool.ts, storage.ts and query.ts.  The table of the storage is the list of
    its rows in the order of their automatic keys. *)
From S2P Require Import Prelude Bytes Serializer Messages Blocks JsMap BlockchainUtils BlockProcessor SenderState.
From Stdlib Require Import Sorted.

(** [Contracts.TransactionPool.StoredTransaction]. *)
Record StoredTransaction := mkStoredTransaction {
  sr_blockNumber : Z;
  sr_hash : string;
  sr_senderPublicKey : string;
  sr_serialized : list byte;
}.

(** The pool: the sender mempools, the storage, and the service's own fields;
    [po_broadcast] is what was handed to the broadcaster. *)
Record Pool := mkPool {
  po_mempools : JsMap string SenderMempool;
  po_storage : list StoredTransaction;
  po_cooldowns : JsMap string Z;
  po_disposed : bool;
  po_broadcast : list (list Transaction);
}.
#[export] Instance eta_Pool : Eta Pool := λ p,
  mkPool (po_mempools p) (po_storage p) (po_cooldowns p) (po_disposed p) (po_broadcast p).

Definition newPool (storage : list StoredTransaction) : Pool := mkPool [] storage [] false [].

(** ** storage.ts *)
Definition storageHas (p : Pool) (hash : string) : bool := existsb (λ r, String.eqb (sr_hash r) hash) (po_storage p).
Definition storageAdd (row : StoredTransaction) : M Pool unit :=
  p ← get;
  if storageHas p (sr_hash row) then throw (JSError "UNIQUE constraint failed")
  else modify (λ p, p <| po_storage ::= λ l, l ++ [row] |>).
Definition withoutHash (hash : string) (l : list StoredTransaction) : list StoredTransaction :=
  List.filter (λ r, negb (String.eqb (sr_hash r) hash)) l.
Definition storageRemove (hash : string) : M Pool unit := modify (λ p, p <| po_storage ::= withoutHash hash |>).
Definition getAllTransactions (p : Pool) : list StoredTransaction := po_storage p.
Definition getOldTransactions (blockNumber : Z) (p : Pool) : list StoredTransaction :=
  reverse (List.filter (λ r, sr_blockNumber r <=? blockNumber) (po_storage p)).
Definition storageFlush : M Pool unit := modify (λ p, p <| po_storage := [] |>).

Definition forget (hash : string) : M Pool unit := modify (λ p, p <| po_cooldowns ::= λ m, mapDelete m hash |>).

Section mempool.
Context `{LegacySignature} (config : PoolConfig) (view : ChainView).

(** ** mempool.ts *)
Definition getSize (p : Pool) : Z := foldr (λ s n, sqGetSize s + n) 0 (mapValues (po_mempools p)).
Definition hasSenderMempool (address : string) (p : Pool) : bool := mapHas (po_mempools p) address.
Definition getSenderMempool (address : string) (p : Pool) : result SenderMempool :=
  match mapGet (po_mempools p) address with Some s => Ok s | None => Throw (JSError "Unknown sender") end.

(** A method of the mempool under an address. *)
Definition onSender {A} (address : string) (m : M SenderMempool A) : M Pool A := λ p,
  match mapGet (po_mempools p) address with
  | None => (Throw (JSError "Unknown sender"), p)
  | Some s => let '(r, s') := m s in (r, p <| po_mempools ::= λ l, mapSet l address s' |>)
  end.

Definition removeDisposableMempool (address : string) (p : Pool) : Pool :=
  match mapGet (po_mempools p) address with
  | Some s => if isDisposable s then p <| po_mempools ::= λ l, mapDelete l address |> else p
  | None => p
  end.

(** A removal event reaches the service's listener, which forgets the cooldown. *)
Definition tryReplaceTransaction (tx : Transaction) : M Pool unit :=
  removedTransactions ← onSender (tx_from tx) (replaceTransaction config view tx);
  match removedTransactions with
  | [] => onSender (tx_from tx) (sqAddTransaction config view tx)
  | _ => forEach removedTransactions (λ removed, storageRemove (tx_hash removed);; forget (tx_hash removed))
  end.

Definition mempoolAdd (tx : Transaction) : M Pool unit :=
  p ← get;
  when (negb (hasSenderMempool (tx_from tx) p))
    (modify (λ p, p <| po_mempools ::= λ l, mapSet l (tx_from tx) (newSenderMempool view (tx_from tx) (tx_senderLegacyAddress tx)) |>));;
  tryFinally
    (p ← get;
     senderMempool ← liftR (getSenderMempool (tx_from tx) p);
     if tx_nonce tx <=? sqGetNonce senderMempool then tryReplaceTransaction tx
     else onSender (tx_from tx) (sqAddTransaction config view tx))
    (removeDisposableMempool (tx_from tx)).

Definition mempoolRemove (address hash : string) : M Pool (list Transaction) :=
  p ← get;
  if negb (hasSenderMempool address p) then mret []
  else
    transactions ← onSender address (sqRemoveTransaction hash);
    modify (removeDisposableMempool address);;
    mret transactions.

Fixpoint mempoolReAdd (addresses : list string) : M Pool (list Transaction) :=
  match addresses with
  | [] => mret []
  | address :: rest =>
      p ← get;
      removed ← (if negb (hasSenderMempool address p) then mret []
                 else
                   removed ← onSender address (sqReAddTransactions config view);
                   modify (removeDisposableMempool address);;
                   mret removed);
      others ← mempoolReAdd rest;
      mret (removed ++ others)
  end.

Definition mempoolFlush : M Pool unit := modify (λ p, p <| po_mempools := [] |>).
End mempool.

(** ** query.ts *)
Section query.
Context (before : Transaction → Transaction → bool).

(** [Array.prototype.sort] is stable: an element goes after those that are not
    behind it. *)
Fixpoint insertBy (t : Transaction) (l : list Transaction) : list Transaction :=
  match l with
  | [] => [t]
  | u :: l' => if before t u then t :: l else u :: insertBy t l'
  end.
Definition sortBy (l : list Transaction) : list Transaction := foldl (λ acc t, insertBy t acc) [] l.

(** The loop that takes the best first transaction of all senders; [groups] is
    the object of the remaining transactions by sender. *)
Fixpoint selectLoop (fuel : nat) (groups : JsMap string (list Transaction)) (priorityQueue : list Transaction)
    : result (list Transaction) :=
  match priorityQueue with
  | [] => Ok []
  | transaction :: queue =>
      match fuel with
      | O => Throw OutOfFuel
      | S fuel' =>
          senderMempool ← assert_defined (mapGet groups (tx_from transaction));
          let rest := tail senderMempool in
          let queue' := match rest with [] => queue | t :: _ => queue ++ [t] end in
          selected ← selectLoop fuel' (mapSet groups (tx_from transaction) rest) (sortBy queue');
          Ok (transaction :: selected)
      end
  end.

Definition groupBySender (lists : list (list Transaction)) : JsMap string (list Transaction) :=
  foldl (λ m l, match l with [] => m | t :: _ => mapSet m (tx_from t) l end) [] lists.

Definition getTransactions (selector : SenderMempool → list Transaction) (p : Pool) : result (list Transaction) :=
  let groups := groupBySender (selector <$> mapValues (po_mempools p)) in
  let priorityQueue := omap head (mapValues groups) in
  selectLoop (length (concat (mapValues groups))) groups (sortBy priorityQueue).
End query.

Definition byHighestGasPrice (a b : Transaction) : bool := tx_gasPrice b <? tx_gasPrice a.
Definition byLowestGasPrice (a b : Transaction) : bool := tx_gasPrice a <? tx_gasPrice b.

Definition getAll (p : Pool) : list Transaction := mapValues (po_mempools p) ≫= getFromLatest.
Definition getAllBySender (address : string) (p : Pool) : list Transaction :=
  match mapGet (po_mempools p) address with Some s => getFromEarliest s | None => [] end.
Definition getFromLowestPriority (p : Pool) : result (list Transaction) := getTransactions byLowestGasPrice getFromLatest p.
Definition getFromHighestPriority (p : Pool) : result (list Transaction) := getTransactions byHighestGasPrice getFromEarliest p.

(** [first()]. *)
Definition queryFirst (l : result (list Transaction)) : result Transaction :=
  transactions ← l;
  match transactions with t :: _ => Ok t | [] => Throw (JSError "Transaction not found") end.

(** ** The priority order

    [priorityMerge groups out]: [out] takes, again and again, the first
    transaction of a sender such that no other sender's first one comes before. *)
Section priority.
Context (before : Transaction → Transaction → bool) (key : Transaction → Z).
Context (Hkey : ∀ a b, before a b = (key a <? key b)).

Inductive priorityMerge : JsMap string (list Transaction) → list Transaction → Prop :=
  | merge_nil groups : concat (mapValues groups) = [] → priorityMerge groups []
  | merge_cons groups k t rest out :
      mapGet groups k = Some (t :: rest) →
      (∀ k' u rest', mapGet groups k' = Some (u :: rest') → key t ≤ key u) →
      priorityMerge (mapSet groups k rest) out → priorityMerge groups (t :: out).

Record groupsOk (groups : JsMap string (list Transaction)) : Prop := {
  go_keys : wfMap groups;
  go_from : ∀ k l t, mapGet groups k = Some l → t ∈ l → tx_from t = k;
}.

Lemma insertBy_perm t l : insertBy before t l ≡ₚ t :: l.
Proof. induction l as [|u l IH]; simpl; [done |]. destruct (before t u); [done |]. by rewrite IH, Permutation_swap. Qed.

Lemma sortBy_app acc l : foldl (λ acc t, insertBy before t acc) acc l ≡ₚ acc ++ l.
Proof.
  revert acc; induction l as [|t l IH]; intros acc; simpl; [by rewrite app_nil_r |].
  rewrite IH, insertBy_perm. by rewrite <- Permutation_middle.
Qed.
Lemma sortBy_perm l : sortBy before l ≡ₚ l.
Proof. apply sortBy_app. Qed.

Lemma insertBy_sorted t l :
  StronglySorted (λ a b, key a ≤ key b) l → StronglySorted (λ a b, key a ≤ key b) (insertBy before t l).
Proof.
  induction 1 as [|u l Hl IH Hu]; simpl; [by constructor; constructor |]. rewrite Hkey.
  destruct (Z.ltb_spec (key t) (key u)) as [Hlt|Hge].
  - constructor; [by constructor |]. constructor; [lia |]. eapply Forall_impl; [exact Hu |]. simpl. intros; lia.
  - constructor; [done |]. rewrite insertBy_perm. by constructor.
Qed.

Lemma sortBy_sorted l : StronglySorted (λ a b, key a ≤ key b) (sortBy before l).
Proof.
  unfold sortBy. assert (∀ acc, StronglySorted (λ a b, key a ≤ key b) acc →
    StronglySorted (λ a b, key a ≤ key b) (foldl (λ acc t, insertBy before t acc) acc l)) as Hf; [| by apply Hf; constructor].
  induction l as [|t l IH]; intros acc Hacc; simpl; [done |]. by apply IH, insertBy_sorted.
Qed.

(** A present key splits a map, and setting it keeps the rest. *)
Lemma mapGet_split {V} (m : JsMap string V) k v :
  mapGet m k = Some v → ∃ m1 m2, m = m1 ++ (k, v) :: m2 ∧ ∀ v', mapSet m k v' = m1 ++ (k, v') :: m2.
Proof.
  induction m as [|[k0 v0] m IH]; simpl; [done |]. case_decide as Hk.
  - intros [= ->]. subst k0. exists [], m. split; [done |]. done.
  - intros Hm. destruct (IH Hm) as (m1 & m2 & Heq & Hset). exists ((k0, v0) :: m1), m2. split; [by rewrite Heq |].
    intros v'. by rewrite Hset.
Qed.

Lemma groupsOk_step groups k t rest :
  groupsOk groups → mapGet groups k = Some (t :: rest) → groupsOk (mapSet groups k rest).
Proof.
  intros [Hwf Hfrom] Hk. split; [by apply wfMap_set |]. intros k' l u. rewrite mapGet_set. case_decide as Heq.
  - intros [= <-] Hu. subst k'. apply (Hfrom k (t :: rest)); [done | by right].
  - apply Hfrom.
Qed.

Lemma heads_elem (groups : JsMap string (list Transaction)) t :
  wfMap groups → t ∈ omap head (mapValues groups) → ∃ k rest, mapGet groups k = Some (t :: rest).
Proof.
  intros Hwf (l & Hl & Ht)%list_elem_of_omap. apply list_elem_of_fmap in Hl as ([k l'] & -> & Hin).
  exists k. simpl in Ht. destruct l' as [|t' rest]; [done |]. injection Ht as ->. exists rest. by apply mapGet_wf.
Qed.

Lemma heads_get (groups : JsMap string (list Transaction)) k t rest : mapGet groups k = Some (t :: rest) → t ∈ omap head (mapValues groups).
Proof.
  intros Hk. apply mapGet_elem in Hk. apply list_elem_of_omap. exists (t :: rest). split; [| done].
  apply list_elem_of_fmap. by exists (k, t :: rest).
Qed.

Lemma heads_middle (m1 m2 : JsMap string (list Transaction)) k l :
  omap head (mapValues (m1 ++ (k, l) :: m2)) ≡ₚ option_list (head l) ++ omap head (mapValues m1) ++ omap head (mapValues m2).
Proof.
  unfold mapValues. rewrite fmap_app, omap_app. destruct l as [|t l]; [done |].
  change (omap head ((k, t :: l) :: m2).*2) with (t :: omap head m2.*2). by rewrite <- Permutation_middle.
Qed.

Lemma values_middle (m1 m2 : JsMap string (list Transaction)) k l :
  concat (mapValues (m1 ++ (k, l) :: m2)) ≡ₚ l ++ concat (mapValues m1) ++ concat (mapValues m2).
Proof. unfold mapValues. rewrite fmap_app, concat_app. simpl. solve_Permutation. Qed.

Lemma noHeads_concat (ls : list (list Transaction)) : omap head ls = [] → concat ls = [].
Proof. induction ls as [|[|t l] ls IH]; simpl; [done | done | done]. Qed.

Lemma selectLoop_merges fuel : ∀ groups queue,
  groupsOk groups → StronglySorted (λ a b, key a ≤ key b) queue → queue ≡ₚ omap head (mapValues groups) →
  (length (concat (mapValues groups)) ≤ fuel)%nat →
  ∃ out, selectLoop before fuel groups queue = Ok out ∧ priorityMerge groups out.
Proof.
  induction fuel as [|fuel IH]; intros groups [|t queue] Hok Hsorted Hperm Hfuel;
    try (exists []; split; [done |]; constructor; apply noHeads_concat, Permutation_nil_r; by rewrite <- Hperm).
  - exfalso. destruct (heads_elem groups t (go_keys _ Hok)) as (k & rest & Hk); [rewrite <- Hperm; left |].
    apply mapGet_split in Hk as (m1 & m2 & -> & _). rewrite (Permutation_length (values_middle _ _ _ _)) in Hfuel.
    simpl in Hfuel. lia.
  - destruct (heads_elem groups t (go_keys _ Hok)) as (k & rest & Hk); [rewrite <- Hperm; left |].
    assert (tx_from t = k) as Hfrom by (apply (go_from _ Hok k (t :: rest)); [done | left]).
    cbn [selectLoop]. rewrite Hfrom, Hk. unfold mbind, result_bind. cbn [assert_defined tail].
    pose proof (groupsOk_step _ _ _ _ Hok Hk) as Hok'.
    destruct (mapGet_split _ _ _ Hk) as (m1 & m2 & Hsplit & Hset).
    destruct (IH (mapSet groups k rest)
      (sortBy before match rest with [] => queue | u :: _ => queue ++ [u] end)) as (out & -> & Hout); [done | apply sortBy_sorted | | |].
    + rewrite sortBy_perm, Hset, heads_middle. rewrite Hsplit, heads_middle in Hperm. cbn [head option_list app] in Hperm.
      apply Permutation_cons_inv in Hperm. destruct rest as [|u rest]; [done |].
      rewrite Hperm. by rewrite Permutation_app_comm.
    + rewrite Hset, (Permutation_length (values_middle _ _ _ _)).
      rewrite Hsplit, (Permutation_length (values_middle _ _ _ _)) in Hfuel. simpl in Hfuel. lia.
    + exists (t :: out). split; [done |]. apply (merge_cons _ k _ rest); [done | | done].
      intros k' u rest' Hu%heads_get. rewrite <- Hperm in Hu. apply elem_of_cons in Hu as [->|Hu]; [done |].
      apply StronglySorted_inv in Hsorted as [_ Hall]. rewrite Forall_forall in Hall. by apply Hall.
Qed.

(** ** What the merge gives *)
Lemma merge_perm groups out : priorityMerge groups out → out ≡ₚ concat (mapValues groups).
Proof.
  induction 1 as [groups Hnil|groups k t rest out Hk _ _ IH]; [by rewrite Hnil |].
  destruct (mapGet_split _ _ _ Hk) as (m1 & m2 & -> & Hset). by rewrite IH, Hset, !values_middle.
Qed.

Definition ofSender (k : string) (l : list Transaction) : list Transaction := List.filter (λ t, String.eqb (tx_from t) k) l.

Lemma merge_order groups out k :
  priorityMerge groups out → groupsOk groups → ofSender k out = default [] (mapGet groups k).
Proof.
  induction 1 as [groups Hnil|groups k0 t rest out Hk _ _ IH]; intros Hok.
  - destruct (mapGet groups k) as [l|] eqn:Hk; [| done]. simpl.
    apply mapGet_split in Hk as (m1 & m2 & -> & _). unfold mapValues in Hnil.
    rewrite fmap_app, concat_app in Hnil. simpl in Hnil. by destruct l; [| destruct (concat m1.*2)].
  - specialize (IH (groupsOk_step _ _ _ _ Hok Hk)). rewrite mapGet_set in IH. simpl.
    rewrite (go_from _ Hok k0 (t :: rest) t Hk) by left.
    destruct (String.eqb_spec k0 k) as [->|Hne].
    + rewrite decide_True in IH by done. rewrite IH, Hk. done.
    + by rewrite decide_False in IH by done.
Qed.

Lemma merge_greedy groups out : priorityMerge groups out → groupsOk groups → ∀ pre t post k u,
  out = pre ++ t :: post → k ≠ tx_from t → head (ofSender k post) = Some u → key t ≤ key u.
Proof.
  induction 1 as [|groups k0 t0 rest out Hk Hbest Hmerge IH]; intros Hok pre t post k u Heq Hne Hu; [by destruct pre |].
  pose proof (groupsOk_step _ _ _ _ Hok Hk) as Hok'. destruct pre as [|t1 pre]; injection Heq as <- ->.
  - rewrite (merge_order _ _ k Hmerge Hok'), mapGet_set, decide_False in Hu.
    + destruct (mapGet groups k) as [[|u' rest']|] eqn:Hg; [done | | done]. injection Hu as ->. by eapply Hbest.
    + intros ->. apply Hne. symmetry. apply (go_from _ Hok k (t0 :: rest)); [done | left].
  - by eapply IH.
Qed.
End priority.

(** ** A well-formed pool: every queue in order, under its sender's address *)
Record poolOk (p : Pool) : Prop := {
  pk_keys : wfMap (po_mempools p);
  pk_from : ∀ k s t, mapGet (po_mempools p) k = Some s → t ∈ sq_transactions s → tx_from t = k;
  pk_queues : ∀ k s, mapGet (po_mempools p) k = Some s → ∃ n0 b0, queueOk n0 b0 s;
}.

(** All transactions of the pool. *)
Definition pooled (p : Pool) : list Transaction := concat (sq_transactions <$> mapValues (po_mempools p)).

Section groups.
Context (selector : SenderMempool → list Transaction).

Definition nonEmpty (kl : string * list Transaction) : bool := match kl.2 with [] => false | _ => true end.
Definition selected (m : JsMap string SenderMempool) : JsMap string (list Transaction) :=
  List.filter nonEmpty ((λ ks, (ks.1, selector ks.2)) <$> m).

Lemma selected_cons k s m :
  selected ((k, s) :: m) = match selector s with [] => selected m | l => (k, l) :: selected m end.
Proof. unfold selected. cbn [fmap list_fmap List.filter nonEmpty fst snd]. by destruct (selector s). Qed.

Lemma selected_keys m k : k ∈ mapKeys (selected m) → k ∈ mapKeys m.
Proof.
  unfold mapKeys, selected. intros ([k' l] & -> & Hin)%list_elem_of_fmap.
  apply list_elem_of_In, filter_In in Hin as [Hin _]. apply list_elem_of_In, list_elem_of_fmap in Hin as ([k0 s] & [= -> ->] & Hin).
  apply list_elem_of_fmap. by exists (k0, s).
Qed.

Lemma groupBySender_selected m : ∀ acc,
  NoDup (mapKeys acc ++ mapKeys m) →
  (∀ k s t, (k, s) ∈ m → t ∈ selector s → tx_from t = k) →
  foldl (λ g l, match l with [] => g | t :: _ => mapSet g (tx_from t) l end) acc (selector <$> mapValues m) = acc ++ selected m.
Proof.
  induction m as [|[k s] m IH]; intros acc Hnd Hfrom; [by rewrite app_nil_r |].
  unfold mapValues, selected. cbn [fmap list_fmap foldl List.filter nonEmpty fst snd].
  destruct (selector s) as [|t l] eqn:Hsel.
  - apply IH; [| intros; eapply Hfrom; [by right | done]].
    apply NoDup_app in Hnd as (H1 & H2 & H3). apply NoDup_cons in H3 as [_ H3]. apply NoDup_app. split; [done |].
    split; [| done]. intros x Hx Hx'. apply (H2 x Hx). by right.
  - assert (tx_from t = k) as -> by (apply (Hfrom k s); [left | rewrite Hsel; left]).
    rewrite mapSet_fresh.
    + etrans; [apply (IH (acc ++ [(k, t :: l)])); [| intros; eapply Hfrom; [by right | done]] | by rewrite <- app_assoc].
      unfold mapKeys in *. rewrite fmap_app, <- app_assoc. exact Hnd.
    + apply mapGet_None. apply NoDup_app in Hnd as (_ & H2 & _). intros Hk. apply (H2 k Hk). left.
Qed.

Lemma selected_get m k :
  wfMap m →
  default [] (mapGet (selected m) k) = default [] (selector <$> mapGet m k) ∧
  (∀ l, mapGet (selected m) k = Some l → ∃ s, mapGet m k = Some s ∧ l = selector s).
Proof.
  unfold wfMap. induction m as [|[k0 s] m IH]; intros Hnd; [done |]. apply NoDup_cons in Hnd as [Hk0 Hnd].
  destruct (IH Hnd) as [IH1 IH2]. rewrite selected_cons. cbn [mapGet]. destruct (decide (k0 = k)) as [->|Hne].
  - destruct (selector s) as [|t l] eqn:Hs; cbn [mapGet].
    + assert (mapGet (selected m) k = None) as -> by (apply mapGet_None; by intros Hk%selected_keys).
      cbn. by rewrite Hs.
    + rewrite decide_True by done. cbn. rewrite Hs. split; [done |]. intros ? [= <-]. eauto.
  - destruct (selector s) as [|t l] eqn:Hs; cbn [mapGet]; [done |]. by rewrite decide_False.
Qed.

Lemma selected_concat m : concat (mapValues (selected m)) = concat (selector <$> mapValues m).
Proof.
  induction m as [|[k s] m IH]; [done |]. rewrite selected_cons. unfold mapValues in *. rewrite fmap_cons.
  destruct (selector s) as [|t l] eqn:Hs; cbn; rewrite Hs; cbn; by rewrite IH.
Qed.

Lemma selected_wf m : wfMap m → wfMap (selected m).
Proof.
  unfold wfMap. induction m as [|[k s] m IH]; intros Hnd; [constructor |]. apply NoDup_cons in Hnd as [Hk Hnd].
  rewrite selected_cons. destruct (selector s); [by apply IH |].
  apply NoDup_cons. split; [by intros Hin%selected_keys | by apply IH].
Qed.

(** The query of a well-formed pool is the merge of its queues. *)
Lemma query_merges before key p :
  (∀ a b, before a b = (key a <? key b)) → (∀ s t, t ∈ selector s → t ∈ sq_transactions s) → poolOk p →
  ∃ out groups, getTransactions before selector p = Ok out ∧ priorityMerge key groups out ∧ groupsOk groups ∧
    (∀ k, default [] (mapGet groups k) = default [] (selector <$> mapGet (po_mempools p) k)) ∧
    concat (mapValues groups) = concat (selector <$> mapValues (po_mempools p)).
Proof.
  intros Hkey Hsel [Hwf Hfrom _]. unfold getTransactions.
  assert (groupBySender (selector <$> mapValues (po_mempools p)) = selected (po_mempools p)) as ->.
  { apply (groupBySender_selected _ []); [exact Hwf |]. intros k s t Hin Ht. apply (Hfrom k s); [by apply mapGet_wf | by apply Hsel]. }
  assert (groupsOk (selected (po_mempools p))) as Hok.
  { split; [by apply selected_wf |]. intros k l t Hl Ht.
    destruct (proj2 (selected_get _ k Hwf) l Hl) as (s & Hs & ->). apply (Hfrom k s); [done | by apply Hsel]. }
  destruct (selectLoop_merges before key Hkey (length (concat (mapValues (selected (po_mempools p))))) (selected (po_mempools p))
    (sortBy before (omap head (mapValues (selected (po_mempools p)))))) as (out & Hout & Hmerge);
    [done | by apply sortBy_sorted | apply sortBy_perm | done |].
  exists out, (selected (po_mempools p)). split; [exact Hout |]. split; [done |]. split; [done |].
  split; [intros k; by apply selected_get | apply selected_concat].
Qed.
End groups.

Lemma highest_key a b : byHighestGasPrice a b = (- tx_gasPrice a <? - tx_gasPrice b).
Proof. unfold byHighestGasPrice. destruct (Z.ltb_spec (tx_gasPrice b) (tx_gasPrice a)), (Z.ltb_spec (- tx_gasPrice a) (- tx_gasPrice b)); lia. Qed.

(** Both queries return the whole pool. *)
Lemma highest_perm p : poolOk p → ∃ out, getFromHighestPriority p = Ok out ∧ out ≡ₚ pooled p.
Proof.
  intros Hok. destruct (query_merges getFromEarliest byHighestGasPrice (λ t, - tx_gasPrice t) p) as (out & groups & Hout & Hmerge & _ & _ & Hc);
    [exact highest_key | done | done |].
  exists out. split; [done |]. by rewrite (merge_perm _ _ _ Hmerge), Hc.
Qed.

Lemma lowest_perm p : poolOk p → ∃ out, getFromLowestPriority p = Ok out ∧ out ≡ₚ pooled p.
Proof.
  intros Hok. destruct (query_merges getFromLatest byLowestGasPrice tx_gasPrice p) as (out & groups & Hout & Hmerge & _ & _ & Hc);
    [done | intros s t; unfold getFromLatest; by rewrite elem_of_reverse | done |].
  exists out. split; [done |]. rewrite (merge_perm _ _ _ Hmerge), Hc. unfold pooled. clear.
  induction (mapValues (po_mempools p)) as [|s l IH]; [done |]. cbn. rewrite IH. unfold getFromLatest. by rewrite reverse_Permutation.
Qed.

(** C27. The order in which the pool offers transactions: the query terminates
    and returns every pooled transaction once, each sender's in the order of its
    queue, and at every point the transaction taken has a gas price at least as
    high as the next one of any other sender. *)
Theorem priority_order p :
  poolOk p →
  ∃ out, getFromHighestPriority p = Ok out ∧ out ≡ₚ pooled p ∧
    (∀ k, ofSender k out = default [] (sq_transactions <$> mapGet (po_mempools p) k)) ∧
    ∀ pre t post k u, out = pre ++ t :: post → k ≠ tx_from t → head (ofSender k post) = Some u →
      tx_gasPrice u ≤ tx_gasPrice t.
Proof.
  intros Hok. destruct (query_merges getFromEarliest byHighestGasPrice (λ t, - tx_gasPrice t) p)
    as (out & groups & Hout & Hmerge & Hgroups & Hget & Hconcat); [exact highest_key | done | done |].
  exists out. split; [exact Hout |]. split; [by rewrite (merge_perm _ _ _ Hmerge), Hconcat |].
  split; [intros k; by rewrite (merge_order _ _ _ k Hmerge Hgroups), Hget |].
  intros pre t post k u Heq Hne Hu. pose proof (merge_greedy _ _ _ Hmerge Hgroups pre t post k u Heq Hne Hu). simpl in *. lia.
Qed.
