(* ===== verification/PoolService.v ===== *)
(** * packages/transaction-pool-service: the service and the selector

    service.ts and selector.ts.  The service's lock makes [commit],
    [reAddTransactions] and [flush] exclusive, and lets additions overlap; here
    additions run one after the other too.  The events a call dispatches reach
    the service's own listener at once. *)
From S2P Require Import Prelude Bytes Serializer Messages Blocks JsMap BlockchainUtils BlockProcessor SenderState Mempool.

(** ** service.ts *)
Section service.
Context `{LegacySignature} `{TransactionCodec} (addressFromPublicKey : string → string).
Context (config : PoolConfig) (view : ChainView).

Definition getPoolSize (p : Pool) : Z := getSize p.

(** Deleting from the storage and forgetting the cooldown. *)
Definition discard (hash : string) : M Pool unit := storageRemove hash;; forget hash.

Definition expiredBlockNumber : Z := cv_blockNumber view - pl_maxTransactionAge config.

(** [new Set(hashes).add(hash)]. *)
Definition withHash (hash : string) (hashes : list string) : list string :=
  if bool_decide (hash ∈ hashes) then hashes else hashes ++ [hash].

Definition removeOldTransaction (row : StoredTransaction) : M Pool unit :=
  removedTransactions ← mempoolRemove (addressFromPublicKey (sr_senderPublicKey row)) (sr_hash row);
  forEach (withHash (sr_hash row) (tx_hash <$> removedTransactions)) discard.

Definition removeOldTransactions : M Pool unit :=
  p ← get;
  forEach (getOldTransactions expiredBlockNumber p) removeOldTransaction.

Definition removeLowestPriorityTransaction : M Pool unit :=
  p ← get;
  if getPoolSize p =? 0 then mret tt
  else
    transaction ← liftR (queryFirst (getFromLowestPriority p));
    removedTransactions ← mempoolRemove (tx_from transaction) (tx_hash transaction);
    forEach (tx_hash <$> removedTransactions) discard.

Fixpoint removeLowestLoop (fuel : nat) : M Pool unit :=
  p ← get;
  if pl_maxTransactionsInPool config <? getPoolSize p then
    match fuel with
    | O => throw OutOfFuel
    | S fuel' => removeLowestPriorityTransaction;; removeLowestLoop fuel'
    end
  else mret tt.
Definition removeLowestPriorityTransactions : M Pool unit :=
  p ← get; removeLowestLoop (Z.to_nat (getPoolSize p)).

Definition cleanUp : M Pool unit := removeOldTransactions;; removeLowestPriorityTransactions.

Definition addTransactionToMempool (tx : Transaction) : M Pool unit :=
  p ← get;
  when (pl_maxTransactionsInPool config <=? getPoolSize p) cleanUp;;
  p ← get;
  when (pl_maxTransactionsInPool config <=? getPoolSize p)
    (lowest ← liftR (queryFirst (getFromLowestPriority p));
     if tx_gasPrice tx <=? tx_gasPrice lowest then throw (PoolError "ERR_POOL_FULL")
     else removeLowestPriorityTransaction);;
  mempoolAdd config view tx.

Definition asPoolError (e : Error) : Error := match e with PoolError _ => e | _ => PoolError "ERR_OTHER" end.

Definition whenOpen (m : M Pool unit) : M Pool unit :=
  p ← get; if po_disposed p then mret tt else m.

Definition rowOf (tx : Transaction) : StoredTransaction :=
  mkStoredTransaction (cv_blockNumber view) (tx_hash tx) (tx_senderPublicKey tx) (tx_serialized tx).

Definition addTransaction (tx : Transaction) : M Pool unit :=
  whenOpen (
    p ← get;
    if storageHas p (tx_hash tx) then throw (PoolError "ERR_DUPLICATE")
    else
      storageAdd (rowOf tx);;
      tryCatch
        (addTransactionToMempool tx;;
         modify (λ p, p <| po_cooldowns ::= λ m, mapSet m (tx_hash tx) (cv_blockNumber view) |>))
        (λ e, storageRemove (tx_hash tx);; throw (asPoolError e))).

(** The transactions to announce again, and the cooldowns they get. *)
Fixpoint chooseBroadcast (until : Z) (limit : Z) (chosen : list Transaction) (cooldowns : JsMap string Z)
    (l : list Transaction) : list Transaction * JsMap string Z :=
  match l with
  | [] => (chosen, cooldowns)
  | t :: l' =>
      let cooled := match mapGet cooldowns (tx_hash t) with
                    | Some c => negb (c =? 0) && (cv_blockNumber view <=? c)
                    | None => false
                    end in
      if cooled : bool then chooseBroadcast until limit chosen cooldowns l'
      else
        let chosen' := chosen ++ [t] in
        let cooldowns' := mapSet cooldowns (tx_hash t) until in
        if limit <=? Z.of_nat (length chosen') then (chosen', cooldowns')
        else chooseBroadcast until limit chosen' cooldowns' l'
  end.

(** [cooldownVariance] is the random number; the threshold is compared exactly,
    without the rounding of [threshold / 100]. *)
Definition rebroadcastMempoolTransactions (consumedGas cooldownVariance : Z) : M Pool unit :=
  if cv_maxGasLimit view * pl_rebroadcastThreshold config <? consumedGas * 100 then mret tt
  else
    p ← get;
    all ← liftR (getFromHighestPriority p);
    let '(chosen, cooldowns) :=
      chooseBroadcast (cv_blockNumber view + cooldownVariance) (pl_maxTransactionsPerRequest config) [] (po_cooldowns p) all in
    modify (λ p, p <| po_cooldowns := cooldowns |>
                   <| po_broadcast ::= λ l, match chosen with [] => l | _ => l ++ [chosen] end |>).

Definition commit (sendersAddresses : list string) (consumedGas : Z) (isSyncing : bool) (cooldownVariance : Z) : M Pool unit :=
  whenOpen (
    removedTransactions ← mempoolReAdd config view sendersAddresses;
    forEach (tx_hash <$> removedTransactions) discard;;
    cleanUp;;
    when (negb isSyncing) (rebroadcastMempoolTransactions consumedGas cooldownVariance)).

Definition reAddStored (row : StoredTransaction) : M Pool unit :=
  if expiredBlockNumber <? sr_blockNumber row then
    tryCatch (tx ← liftR (txFromBytes (sr_serialized row)); addTransactionToMempool tx)
      (λ _, discard (sr_hash row))
  else discard (sr_hash row).

Definition reAddTransactions : M Pool unit :=
  whenOpen (
    mempoolFlush;;
    p ← get;
    forEach (getAllTransactions p) reAddStored).

Definition flush : M Pool unit :=
  whenOpen (mempoolFlush;; storageFlush;; modify (λ p, p <| po_cooldowns := [] |>)).

Definition dispose : M Pool unit := modify (λ p, p <| po_disposed := true |>).
End service.

(** ** selector.ts *)
Record Selector := mkSelector {
  sl_transactions : list Transaction;
  sl_currentBlockRound : string;
  sl_index : nat;
}.
#[export] Instance eta_Selector : Eta Selector := λ s,
  mkSelector (sl_transactions s) (sl_currentBlockRound s) (sl_index s).

Definition newSelector : Selector := mkSelector [] "" 0.

Definition prepare (p : Pool) (blockRound : string) : M Selector unit :=
  s ← get;
  if String.eqb (sl_currentBlockRound s) blockRound then mret tt
  else
    modify (λ s, s <| sl_currentBlockRound := blockRound |> <| sl_index := O |>);;
    transactions ← liftR (getFromHighestPriority p);
    modify (λ s, s <| sl_transactions := transactions |>).

(** The loop over the transactions from the index on: what fits. *)
Fixpoint fill (maxSize : Z) (taken bytesLeft : Z) (l : list Transaction) : list Transaction :=
  match l with
  | [] => []
  | t :: l' =>
      let size := Z.of_nat (length (tx_serialized t)) in
      if bytesLeft - 4 - size <? 0 then []
      else if maxSize <=? taken + 1 then [t]
      else t :: fill maxSize (taken + 1) (bytesLeft - 4 - size) l'
  end.

Record GetBatchResult := mkGetBatchResult {
  gb_remaining : Z;
  gb_transactions : list Transaction;
}.

Definition getBatch (p : Pool) (blockRound : string) (maxBytes maxSize : Z) : M Selector GetBatchResult :=
  prepare p blockRound;;
  s ← get;
  let transactions := fill maxSize 0 maxBytes (drop (sl_index s) (sl_transactions s)) in
  modify (λ s, s <| sl_index ::= λ i, (i + length transactions)%nat |>);;
  s ← get;
  mret (mkGetBatchResult (Z.of_nat (length (sl_transactions s)) - Z.of_nat (sl_index s)) transactions).

Definition selectorClear : M Selector unit := modify (λ _, newSelector).
