(* ===== verification/PoolFacts.v ===== *)
(** * What the transaction pool keeps

    The pool and its storage hold the same transactions after every operation of
    the service, the pool respects its limit, and the queues stay well-formed. *)
From S2P Require Import Prelude Bytes Serializer Messages Blocks JsMap BlockchainUtils BlockProcessor SenderState Mempool.
From S2P Require Import PoolService.

Lemma getSize_pooled p : getSize p = Z.of_nat (length (pooled p)).
Proof.
  unfold getSize, pooled. induction (mapValues (po_mempools p)) as [|s l IH]; [done |].
  rewrite fmap_cons. cbn [foldr concat]. rewrite length_app, Nat2Z.inj_add, <- IH. done.
Qed.

(** ** The pool as a bag of queues *)
Definition queuesOf (m : JsMap string SenderMempool) : list Transaction := concat (sq_transactions <$> mapValues m).

Lemma queues_set m k s :
  mapGet m k = Some s →
  ∃ rest, queuesOf m ≡ₚ sq_transactions s ++ rest ∧
    (∀ s', queuesOf (mapSet m k s') ≡ₚ sq_transactions s' ++ rest).
Proof.
  intros (m1 & m2 & -> & Hset)%mapGet_split. exists (queuesOf m1 ++ queuesOf m2).
  assert (∀ s', queuesOf (m1 ++ (k, s') :: m2) ≡ₚ sq_transactions s' ++ queuesOf m1 ++ queuesOf m2) as Hq.
  { intros s'. unfold queuesOf, mapValues. rewrite !fmap_app, concat_app. simpl. solve_Permutation. }
  split; [apply Hq |]. intros s'. by rewrite Hset.
Qed.

Lemma queues_fresh m k s : mapGet m k = None → sq_transactions s = [] → queuesOf (mapSet m k s) = queuesOf m.
Proof.
  intros Hk Hs. rewrite mapSet_fresh by done. unfold queuesOf, mapValues. rewrite !fmap_app, concat_app. simpl.
  by rewrite Hs, !app_nil_r.
Qed.

Lemma queues_delete m k s :
  wfMap m → mapGet m k = Some s → sq_transactions s = [] → queuesOf (mapDelete m k) ≡ₚ queuesOf m.
Proof.
  intros Hwf (m1 & m2 & -> & _)%mapGet_split Hs. unfold wfMap, mapKeys in Hwf. rewrite fmap_app in Hwf.
  apply NoDup_app in Hwf as (_ & H2 & H3). apply NoDup_cons in H3 as [H3 _].
  assert (∀ l : JsMap string SenderMempool, k ∉ l.*1 → mapDelete l k = l) as Hskip.
  { intros l Hl. unfold mapDelete. induction l as [|[k0 v] l IH]; [done |]. rewrite filter_cons.
    rewrite fmap_cons, not_elem_of_cons in Hl. destruct Hl as [Hne Hl]. rewrite decide_True by (simpl in *; congruence).
    f_equal. by apply IH. }
  assert (mapDelete (m1 ++ (k, s) :: m2) k = m1 ++ m2) as ->.
  { unfold mapDelete. rewrite filter_app, filter_cons, decide_False by (simpl; tauto).
    fold (mapDelete m1 k) (mapDelete m2 k). rewrite !Hskip; [done | done |]. intros Hk. apply (H2 k Hk). left. }
  unfold queuesOf, mapValues. rewrite !fmap_app, !concat_app. simpl. by rewrite Hs.
Qed.

Lemma pooled_queues p : pooled p = queuesOf (po_mempools p).
Proof. done. Qed.

(** ** Keeping the queues well-formed *)
Definition mempoolsOk (m : JsMap string SenderMempool) : Prop :=
  wfMap m ∧ (∀ k s t, mapGet m k = Some s → t ∈ sq_transactions s → tx_from t = k) ∧
  (∀ k s, mapGet m k = Some s → ∃ n0 b0, queueOk n0 b0 s).

Lemma poolOk_iff p : poolOk p ↔ mempoolsOk (po_mempools p).
Proof. split; [intros []; done | intros (? & ? & ?); by split]. Qed.

Lemma mempoolsOk_set m k s n0 b0 :
  mempoolsOk m → queueOk n0 b0 s → (∀ t, t ∈ sq_transactions s → tx_from t = k) → mempoolsOk (mapSet m k s).
Proof.
  intros (Hwf & Hfrom & Hq) Hs Hk. split; [by apply wfMap_set |]. split.
  - intros k' s' t. rewrite mapGet_set. case_decide as Heq; [intros [= <-]; subst; auto | by apply Hfrom].
  - intros k' s'. rewrite mapGet_set. case_decide; [intros [= <-]; eauto | by apply Hq].
Qed.

Lemma mempoolsOk_delete m k : mempoolsOk m → mempoolsOk (mapDelete m k).
Proof.
  intros (Hwf & Hfrom & Hq). split; [by apply wfMap_delete |].
  split; intros k' s'; rewrite mapGet_delete; case_decide; try done; [apply Hfrom | apply Hq].
Qed.

Lemma disposable_spec k p :
  poolOk p → poolOk (removeDisposableMempool k p) ∧ pooled (removeDisposableMempool k p) ≡ₚ pooled p ∧
    po_storage (removeDisposableMempool k p) = po_storage p ∧ po_disposed (removeDisposableMempool k p) = po_disposed p.
Proof.
  intros Hok. unfold removeDisposableMempool. destruct (mapGet (po_mempools p) k) as [s|] eqn:Hk; [| done].
  destruct (isDisposable s) eqn:Hd; [| done]. unfold isDisposable in Hd. simpl_bool.
  rewrite poolOk_iff in *. split; [by apply mempoolsOk_delete |]. split; [| done].
  apply (queues_delete _ _ s); [apply Hok | done | done].
Qed.

Section operations.
Context `{LegacySignature} (config : PoolConfig) (view : ChainView).
Context (Hview : ∀ a l, 0 ≤ ac_balance (cv_account view a l)).

Definition discardAll (l : list Transaction) (rows : list StoredTransaction) : list StoredTransaction :=
  foldl (λ rows t, withoutHash (tx_hash t) rows) rows l.

(** What an operation may do to the pool: it keeps the queues, the storage and
    the flag, and [given] turns into what it returns or keeps. *)
Record keeps (p p' : Pool) (given : list Transaction) (gone : list Transaction) (rows : list StoredTransaction) : Prop := {
  kp_ok : poolOk p';
  kp_disposed : po_disposed p' = po_disposed p;
  kp_bag : given ++ pooled p ≡ₚ gone ++ pooled p';
  kp_storage : po_storage p' = rows;
}.

Lemma onSender_run {A} k (m : M SenderMempool A) p s :
  mapGet (po_mempools p) k = Some s →
  onSender k m p = ((m s).1, p <| po_mempools ::= λ l, mapSet l k (m s).2 |>).
Proof. unfold onSender. intros ->. by destruct (m s). Qed.

(** Changing one sender's queue. *)
Lemma keeps_sender p k s s' given gone n0 b0 :
  poolOk p → mapGet (po_mempools p) k = Some s → queueOk n0 b0 s' →
  given ++ sq_transactions s ≡ₚ gone ++ sq_transactions s' →
  (∀ t, t ∈ given → tx_from t = k) →
  keeps p (p <| po_mempools ::= λ l, mapSet l k s' |>) given gone (po_storage p).
Proof.
  intros Hok Hk Hq Hbag Hgiven. destruct (queues_set _ _ _ Hk) as (rest & Hp & Hset). split.
  - apply poolOk_iff, (mempoolsOk_set _ _ _ n0 b0); [by apply poolOk_iff | done |]. intros t Ht.
    assert (t ∈ given ++ sq_transactions s) as Hin by (rewrite Hbag; apply elem_of_app; by right).
    apply elem_of_app in Hin as [Hin|Hin]; [by apply Hgiven | by apply (pk_from _ Hok k s)].
  - done.
  - change (pooled (p <| po_mempools ::= _ |>)) with (queuesOf (mapSet (po_mempools p) k s')). rewrite Hset.
    rewrite pooled_queues, Hp. rewrite !app_assoc. by rewrite Hbag.
  - done.
Qed.

Lemma keeps_refl p : poolOk p → keeps p p [] [] (po_storage p).
Proof. by split. Qed.

Lemma keeps_trans p p1 p2 g1 g2 r1 r2 rows1 rows2 :
  keeps p p1 g1 r1 rows1 → keeps p1 p2 g2 r2 rows2 → keeps p p2 (g1 ++ g2) (r1 ++ r2) rows2.
Proof.
  intros [_ Hd1 Hb1 _] [Hok Hd2 Hb2 Hs]. split; [done | by rewrite Hd2 | | done].
  rewrite <- app_assoc, (Permutation_app_comm g2), app_assoc, Hb1, <- app_assoc, (Permutation_app_comm _ g2), Hb2.
  by rewrite app_assoc.
Qed.

Lemma keeps_dispose p p1 g r rows k : keeps p p1 g r rows → keeps p (removeDisposableMempool k p1) g r rows.
Proof.
  intros [Hok Hd Hb Hs]. destruct (disposable_spec k p1 Hok) as (Hok' & Hp & Hst & Hdis).
  split; [done | by rewrite Hdis | by rewrite Hp | by rewrite Hst].
Qed.

(** The empty queue of a new sender. *)
Lemma newSender_ok a l : queueOk (ac_nonce (cv_account view a l)) (ac_balance (cv_account view a l)) (newSenderMempool view a l).
Proof. split; cbn; [by intros | lia | lia | apply Hview | done | done]. Qed.

Lemma ensureSender p tx :
  poolOk p →
  ∃ p1 s, when (negb (hasSenderMempool (tx_from tx) p))
    (modify (λ p, p <| po_mempools ::= λ l, mapSet l (tx_from tx) (newSenderMempool view (tx_from tx) (tx_senderLegacyAddress tx)) |>)) p
    = (Ok tt, p1) ∧ keeps p p1 [] [] (po_storage p) ∧ mapGet (po_mempools p1) (tx_from tx) = Some s.
Proof.
  intros Hok. unfold hasSenderMempool, mapHas. destruct (mapGet (po_mempools p) (tx_from tx)) as [s|] eqn:Hk; cbn [isSome negb when].
  - exists p, s. split; [done |]. split; [by apply keeps_refl | done].
  - eexists _, (newSenderMempool view (tx_from tx) (tx_senderLegacyAddress tx)). split; [reflexivity |].
    split; [| by apply mapGet_set_eq]. split; [| done | | done].
    + apply poolOk_iff. eapply mempoolsOk_set; [by apply poolOk_iff | apply newSender_ok | by intros t ?%elem_of_nil].
    + rewrite pooled_queues. change (queuesOf (po_mempools p) ≡ₚ queuesOf (mapSet (po_mempools p) (tx_from tx) (newSenderMempool view (tx_from tx) (tx_senderLegacyAddress tx)))).
      by rewrite queues_fresh.
Qed.

Lemma sqAdd_keeps p k s tx :
  poolOk p → mapGet (po_mempools p) k = Some s → tx_from tx = k → 0 ≤ cost tx →
  match onSender k (sqAddTransaction config view tx) p with
  | (Ok _, p') => keeps p p' [tx] [] (po_storage p)
  | (Throw e, p') => keeps p p' [] [] (po_storage p) ∧ e ≠ OutOfFuel
  end.
Proof.
  intros Hok Hk Hfrom Hcost. rewrite (onSender_run _ _ _ _ Hk).
  destruct (pk_queues _ Hok k s Hk) as (n0 & b0 & Hq).
  pose proof (sqAdd_run config view tx s) as Hrun. pose proof (sqAdd_ok config view n0 b0 tx s Hcost Hq) as Hq'.
  pose proof (sqAdd_fuel config view tx s) as Hfuel. unfold run_in in Hq'.
  destruct (sqAddTransaction config view tx s) as [[[]|e] s'] eqn:Hadd; cbn [fst snd] in *.
  - eapply keeps_sender; [done | done | exact Hq' | | by intros t ->%list_elem_of_singleton].
    destruct Hrun as (-> & _). cbn. by rewrite Permutation_app_comm.
  - split; [| congruence]. subst s'. eapply keeps_sender; [done | done | exact Hq | done | by intros t ?%elem_of_nil].
Qed.

Lemma discardAll_run l : ∀ p,
  forEach l (λ removed, storageRemove (tx_hash removed);; forget (tx_hash removed)) p =
  (Ok tt, p <| po_storage := discardAll l (po_storage p) |>
            <| po_cooldowns := foldl (λ m t, mapDelete m (tx_hash t)) (po_cooldowns p) l |>).
Proof.
  induction l as [|t l IH]; intros p; [by destruct p |]. cbn [forEach]. erewrite M_bind_run by reflexivity.
  by rewrite IH.
Qed.

Lemma replace_keeps p k s tx :
  poolOk p → mapGet (po_mempools p) k = Some s → tx_from tx = k → 0 ≤ cost tx →
  match tryReplaceTransaction config view tx p with
  | (Ok _, p') => ∃ removed, keeps p p' [tx] removed (discardAll removed (po_storage p))
  | (Throw e, p') => keeps p p' [] [] (po_storage p) ∧ e ≠ OutOfFuel
  end.
Proof.
  intros Hok Hk Hfrom Hcost. unfold tryReplaceTransaction, mbind, M_bind.
  rewrite Hfrom, (onSender_run _ _ _ _ Hk). destruct (pk_queues _ Hok k s Hk) as (n0 & b0 & Hq).
  pose proof (replace_spec config view n0 b0 tx s Hcost Hq) as Hrep.
  destruct (replaceTransaction config view tx s) as [[[|r rs]|e] s'] eqn:Hr; cbn [fst snd].
  - subst s'. assert (keeps p (p <| po_mempools ::= λ l, mapSet l k s |>) [] [] (po_storage p)) as Hkeep
      by (eapply keeps_sender; [done | done | exact Hq | done | by intros t ?%elem_of_nil]).
    pose proof (sqAdd_keeps (p <| po_mempools ::= λ l, mapSet l k s |>) k s tx (kp_ok _ _ _ _ _ Hkeep)
      ltac:(apply mapGet_set_eq) Hfrom Hcost) as Hadd.
    destruct (onSender k (sqAddTransaction config view tx) _) as [[[]|e] p'].
    + exists []. exact (keeps_trans _ _ _ _ _ _ _ _ _ Hkeep Hadd).
    + destruct Hadd as [Hadd He]. split; [| done]. exact (keeps_trans _ _ _ _ _ _ _ _ _ Hkeep Hadd).
  - destruct Hrep as [Hq' Hbag]. rewrite discardAll_run. exists (r :: rs).
    pose proof (keeps_sender p k s s' [tx] (r :: rs) n0 b0 Hok Hk Hq' Hbag) as [Hok' Hd Hb Hs];
      [by intros t ->%list_elem_of_singleton |]. split; [destruct Hok'; by split | done | exact Hb | done].
  - destruct Hrep as [-> He]. split; [| done]. eapply keeps_sender; [done | done | exact Hq | done | by intros t ?%elem_of_nil].
Qed.

(** Adding to the mempool: the transaction and what the pool held are what it
    holds now and what was replaced, which left the storage. *)
Lemma mempoolAdd_keeps p tx :
  poolOk p → 0 ≤ cost tx →
  match mempoolAdd config view tx p with
  | (Ok _, p') => ∃ removed, keeps p p' [tx] removed (discardAll removed (po_storage p))
  | (Throw e, p') => keeps p p' [] [] (po_storage p) ∧ e ≠ OutOfFuel
  end.
Proof.
  intros Hok Hcost. unfold mempoolAdd, mbind at 1, M_bind at 1, get at 1.
  destruct (ensureSender p tx Hok) as (p1 & s & Hrun & Hkeep & Hs). rewrite (M_bind_run _ _ _ _ _ Hrun).
  unfold tryFinally, mbind at 1, M_bind at 1, get at 1, mbind at 1, M_bind at 1, liftR, getSenderMempool.
  rewrite Hs. pose proof (kp_storage _ _ _ _ _ Hkeep) as Hst. destruct (_ <=? _).
  - pose proof (replace_keeps p1 _ s tx (kp_ok _ _ _ _ _ Hkeep) Hs eq_refl Hcost) as Hrep. rewrite Hst in Hrep.
    destruct (tryReplaceTransaction config view tx p1) as [[[]|e] p2].
    + destruct Hrep as [removed Hrep]. exists removed. apply keeps_dispose.
      exact (keeps_trans _ _ _ _ _ _ _ _ _ Hkeep Hrep).
    + destruct Hrep as [Hrep He]. split; [| done]. apply keeps_dispose. exact (keeps_trans _ _ _ _ _ _ _ _ _ Hkeep Hrep).
  - pose proof (sqAdd_keeps p1 _ s tx (kp_ok _ _ _ _ _ Hkeep) Hs eq_refl Hcost) as Hadd. rewrite Hst in Hadd.
    destruct (onSender _ _ p1) as [[[]|e] p2].
    + exists []. apply keeps_dispose. exact (keeps_trans _ _ _ _ _ _ _ _ _ Hkeep Hadd).
    + destruct Hadd as [Hadd He]. split; [| done]. apply keeps_dispose. exact (keeps_trans _ _ _ _ _ _ _ _ _ Hkeep Hadd).
Qed.

Lemma pooled_sender p t : poolOk p → t ∈ pooled p → ∃ s, mapGet (po_mempools p) (tx_from t) = Some s ∧ t ∈ sq_transactions s.
Proof.
  intros Hok Ht. unfold pooled in Ht. apply list_elem_of_In, in_concat in Ht as (l & Hl & Ht).
  apply list_elem_of_In, list_elem_of_fmap in Hl as (s & -> & Hs). apply list_elem_of_fmap in Hs as ([k s'] & -> & Hin).
  apply list_elem_of_In in Ht. assert (mapGet (po_mempools p) k = Some s') as Hk by (apply mapGet_wf; [apply Hok | done]).
  exists s'. by rewrite (pk_from _ Hok k s' t Hk Ht).
Qed.

Lemma mempoolRemove_keeps p a h :
  poolOk p → ∃ removed p', mempoolRemove a h p = (Ok removed, p') ∧ keeps p p' [] removed (po_storage p) ∧
    (∀ t, t ∈ pooled p → tx_from t = a → tx_hash t = h → h ∈ tx_hash <$> removed) ∧
    (removed ≠ [] → h ∈ tx_hash <$> removed).
Proof.
  intros Hok. unfold mempoolRemove, mbind at 1, M_bind at 1, get at 1, hasSenderMempool, mapHas.
  destruct (mapGet (po_mempools p) a) as [s|] eqn:Hk; cbn [isSome negb].
  - pose proof (remove_spec h s) as Hrem. destruct (pk_queues _ Hok a s Hk) as (n0 & b0 & Hq).
    pose proof (remove_ok n0 b0 h s Hq) as Hq'. unfold run_in in Hq'.
    destruct (sqRemoveTransaction h s) as [[removed|e] s'] eqn:Hr; [| done]. destruct Hrem as (Hbag & Hin & Hne).
    eexists removed, _. unfold mbind at 1, M_bind at 1. rewrite (onSender_run _ _ _ _ Hk), Hr. cbn [fst snd].
    split; [reflexivity |]. split; [| split; [| done]].
    + apply keeps_dispose. eapply keeps_sender; [done | done | exact Hq' | | by intros t ?%elem_of_nil].
      cbn. rewrite Hbag, reverse_Permutation. by rewrite Permutation_app_comm.
    + intros t Ht Hfrom Hhash. destruct (pooled_sender p t Hok Ht) as (s0 & Hs0 & Ht0).
      rewrite Hfrom in Hs0. rewrite Hk in Hs0. injection Hs0 as <-. by apply (Hin t).
  - exists [], p. split; [done |]. split; [by apply keeps_refl |]. split; [| done]. intros t Ht Hfrom _.
    destruct (pooled_sender p t Hok Ht) as (s0 & Hs0 & _). congruence.
Qed.

Lemma mempoolReAdd_keeps addresses : ∀ p,
  poolOk p → ∃ removed p', mempoolReAdd config view addresses p = (Ok removed, p') ∧ keeps p p' [] removed (po_storage p).
Proof.
  induction addresses as [|a addresses IH]; intros p Hok; [exists [], p; split; [done | by apply keeps_refl] |].
  cbn [mempoolReAdd]. unfold mbind at 1, M_bind at 1, get at 1, hasSenderMempool, mapHas.
  assert (∃ r1 p1, (if negb (isSome (mapGet (po_mempools p) a)) then mret []
     else removed ← onSender a (sqReAddTransactions config view); modify (removeDisposableMempool a);; mret removed) p = (Ok r1, p1)
     ∧ keeps p p1 [] r1 (po_storage p)) as (r1 & p1 & Hrun & Hkeep).
  { destruct (mapGet (po_mempools p) a) as [s|] eqn:Hk; cbn [isSome negb]; [| exists [], p; split; [done | by apply keeps_refl]].
    destruct (pk_queues _ Hok a s Hk) as (n0 & b0 & Hq).
    destruct (reAdd_spec config view n0 b0 s (Hview _ _) Hq) as (removed & s' & Hr & Hq' & Hbag).
    eexists removed, _. unfold mbind at 1, M_bind at 1. rewrite (onSender_run _ _ _ _ Hk), Hr. cbn [fst snd].
    split; [reflexivity |]. apply keeps_dispose. eapply keeps_sender; [done | done | exact Hq' | | by intros t ?%elem_of_nil].
    cbn. by rewrite Hbag, Permutation_app_comm. }
  rewrite (M_bind_run _ _ _ _ _ Hrun). destruct (IH p1 (kp_ok _ _ _ _ _ Hkeep)) as (r2 & p2 & Hrun2 & Hkeep2).
  rewrite (M_bind_run _ _ _ _ _ Hrun2). exists (r1 ++ r2), p2. split; [done |].
  rewrite (kp_storage _ _ _ _ _ Hkeep) in Hkeep2. exact (keeps_trans _ _ _ _ _ _ _ _ _ Hkeep Hkeep2).
Qed.
End operations.
