(* ===== verification/PoolInvariant.v ===== *)
(** * The pool and its storage agree

    After every operation of the service the rows of the storage are exactly the
    transactions of the pool, and the pool respects its limit. *)
From S2P Require Import Prelude Bytes Serializer Messages Blocks JsMap BlockchainUtils BlockProcessor SenderState Mempool.
From S2P Require Import PoolService PoolFacts.

(** What a row and a transaction have in common. *)
Definition Id : Type := (string * string * list byte)%type.
Definition rowId (r : StoredTransaction) : Id := (sr_hash r, sr_senderPublicKey r, sr_serialized r).
Definition txId (t : Transaction) : Id := (tx_hash t, tx_senderPublicKey t, tx_serialized t).
Definition idHash (i : Id) : string := i.1.1.

(** Without some hashes. *)
Definition without {A} (hash : A → string) (hashes : list string) (l : list A) : list A :=
  filter (λ x, hash x ∉ hashes) l.

Section without.
Context {A : Type} (hash : A → string).
Implicit Types (l : list A).

Lemma without_nil l : without hash [] l = l.
Proof.
  unfold without. induction l as [|x l IH]; [done |].
  rewrite filter_cons, decide_True by apply not_elem_of_nil. by rewrite IH.
Qed.
Lemma without_none hashes l : (∀ x, x ∈ l → hash x ∉ hashes) → without hash hashes l = l.
Proof.
  unfold without. induction l as [|x l IH]; intros Hall; [done |]. rewrite filter_cons, decide_True by (apply Hall; left).
  f_equal. apply IH. intros y Hy. apply Hall. by right.
Qed.
Lemma without_all hashes l : (∀ x, x ∈ l → hash x ∈ hashes) → without hash hashes l = [].
Proof.
  unfold without. induction l as [|x l IH]; intros Hall; [done |]. rewrite filter_cons, decide_False by (intros Hx; apply Hx, Hall; left).
  apply IH. intros y Hy. apply Hall. by right.
Qed.
Lemma without_app hashes l l' : without hash hashes (l ++ l') = without hash hashes l ++ without hash hashes l'.
Proof. apply filter_app. Qed.
Lemma without_perm hashes l l' : l ≡ₚ l' → without hash hashes l ≡ₚ without hash hashes l'.
Proof. intros Hp. unfold without. by rewrite Hp. Qed.
Lemma elem_of_without hashes l x : x ∈ without hash hashes l ↔ x ∈ l ∧ hash x ∉ hashes.
Proof. unfold without. rewrite list_elem_of_filter. tauto. Qed.
Lemma without_cons h hashes l : without hash hashes (without hash [h] l) = without hash (h :: hashes) l.
Proof.
  unfold without. rewrite list_filter_filter. apply list_filter_iff. intros x. set_solver.
Qed.
Lemma without_without hashes hashes' l : without hash hashes (without hash hashes' l) = without hash (hashes' ++ hashes) l.
Proof. unfold without. rewrite list_filter_filter. apply list_filter_iff. intros x. set_solver. Qed.
Lemma without_map {B} (f : B → A) hashes (l : list B) :
  f <$> without (λ y, hash (f y)) hashes l = without hash hashes (f <$> l).
Proof.
  unfold without. induction l as [|y l IH]; [done |]. rewrite fmap_cons, !filter_cons. case_decide; cbn; by rewrite IH.
Qed.
Lemma without_NoDup hashes l : NoDup (hash <$> l) → NoDup (hash <$> without hash hashes l).
Proof.
  unfold without. intros Hnd. eapply sublist_NoDup; [exact Hnd | apply fmap_sublist, sublist_filter].
Qed.

(** Taking out exactly one part of a list without repeated hashes. *)
Lemma without_part l rest gone kept :
  NoDup (hash <$> l) → l ≡ₚ rest ++ gone ++ kept → without hash (hash <$> gone) l ≡ₚ rest ++ kept.
Proof.
  intros Hnd Hl. rewrite (without_perm _ _ _ Hl). rewrite Hl, (Permutation_app_comm gone), app_assoc, fmap_app in Hnd.
  apply NoDup_app in Hnd as (_ & Hdisj & _).
  rewrite !without_app, (without_all _ gone) by (intros; by apply list_elem_of_fmap_2).
  rewrite app_nil_l, !without_none; [done | |]; intros x Hx; apply Hdisj, list_elem_of_fmap_2, elem_of_app; auto.
Qed.
End without.

Lemma withoutHash_without h rows : withoutHash h rows = without sr_hash [h] rows.
Proof.
  unfold withoutHash, without. induction rows as [|r rows IH]; [done |]. cbn [List.filter]. rewrite filter_cons.
  destruct (String.eqb_spec (sr_hash r) h) as [Heq|Hne]; cbn [negb].
  - rewrite decide_False by set_solver. exact IH.
  - rewrite decide_True by set_solver. by rewrite IH.
Qed.

Lemma discardAll_without l : ∀ rows, discardAll l rows = without sr_hash (tx_hash <$> l) rows.
Proof.
  unfold discardAll. induction l as [|t l IH]; intros rows; [symmetry; apply without_nil |]. cbn [foldl].
  by rewrite IH, withoutHash_without, without_cons.
Qed.

Lemma discard_run hashes : ∀ p,
  ∃ c, forEach hashes discard p = (Ok tt, p <| po_storage ::= without sr_hash hashes |> <| po_cooldowns := c |>).
Proof.
  induction hashes as [|h hashes IH]; intros p.
  - exists (po_cooldowns p). destruct p. unfold set_field. cbn -[without]. rewrite without_nil. reflexivity.
  - cbn [forEach]. erewrite M_bind_run by reflexivity. edestruct IH as [c Hc]. rewrite Hc. exists c.
    unfold set_field. cbn -[without withoutHash]. rewrite withoutHash_without, without_cons. reflexivity.
Qed.

Section invariant.
Context `{TransactionCodec} (addressFromPublicKey : string → string).

(** A transaction as its factory makes it: it costs something non-negative, its
    sender is the address of its key, and its bytes decode to it. *)
Definition wfTx (tx : Transaction) : Prop :=
  0 ≤ cost tx ∧ addressFromPublicKey (tx_senderPublicKey tx) = tx_from tx ∧ txFromBytes (tx_serialized tx) = Ok tx.

(** The rows are those of the pooled transactions, and [rest]. *)
Record synced (rest : list Id) (p : Pool) : Prop := {
  sy_ok : poolOk p;
  sy_rows : rowId <$> po_storage p ≡ₚ rest ++ (txId <$> pooled p);
  sy_hashes : NoDup (sr_hash <$> po_storage p);
  sy_txs : Forall wfTx (pooled p);
}.

Lemma synced_ids rest p : synced rest p → NoDup (idHash <$> rest ++ (txId <$> pooled p)).
Proof. intros [_ Hrows Hnd _]. rewrite <- Hrows, <- list_fmap_compose. exact Hnd. Qed.

(** A hash of the pool is not one of the rest. *)
Lemma synced_rest rest p t : synced rest p → t ∈ pooled p → ∀ i, i ∈ rest → idHash i ≠ tx_hash t.
Proof.
  intros Hs%synced_ids Ht i Hi Heq. rewrite fmap_app in Hs. apply NoDup_app in Hs as (_ & Hdisj & _).
  apply (Hdisj (idHash i)); [by apply list_elem_of_fmap_2 |]. rewrite Heq, <- list_fmap_compose.
  by apply (list_elem_of_fmap_2 (idHash ∘ txId)).
Qed.

Lemma synced_row rest p t : synced rest p → t ∈ pooled p → ∃ r, r ∈ po_storage p ∧ rowId r = txId t.
Proof.
  intros Hs Ht. assert (txId t ∈ rowId <$> po_storage p) as Hin.
  { rewrite (sy_rows _ _ Hs). apply elem_of_app. right. by apply list_elem_of_fmap_2. }
  apply list_elem_of_fmap in Hin as (r & Heq & Hr). eauto.
Qed.

(** Rows of the same hash are the same row. *)
Lemma synced_unique rest p r r' :
  synced rest p → r ∈ po_storage p → r' ∈ po_storage p → sr_hash r = sr_hash r' → r = r'.
Proof.
  intros [_ _ Hnd _] (i & Hi)%list_elem_of_lookup (j & Hj)%list_elem_of_lookup Heq.
  assert (i = j) as ->; [| congruence]. apply (NoDup_lookup _ _ _ (sr_hash r) Hnd).
  - by rewrite list_lookup_fmap, Hi.
  - by rewrite list_lookup_fmap, Hj, Heq.
Qed.

Lemma synced_perm rest rest' p : rest ≡ₚ rest' → synced rest p → synced rest' p.
Proof. intros Hp [? Hrows ? ?]. split; try done. by rewrite Hrows, Hp. Qed.

(** Moving [given] into the pool and [gone] out of the pool and the storage. *)
Lemma synced_move rest given gone p p' :
  synced ((txId <$> given) ++ rest) p → Forall wfTx given → poolOk p' →
  given ++ pooled p ≡ₚ gone ++ pooled p' →
  po_storage p' = without sr_hash (tx_hash <$> gone) (po_storage p) →
  synced rest p'.
Proof.
  intros Hs Hgiven Hok Hbag Hst. pose proof (synced_ids _ _ Hs) as Hids. destruct Hs as [_ Hrows Hnd Htxs].
  assert (rowId <$> po_storage p ≡ₚ rest ++ (txId <$> gone) ++ (txId <$> pooled p')) as Hsplit.
  { rewrite Hrows, (Permutation_app_comm (txId <$> given)), <- app_assoc, <- !fmap_app. by rewrite Hbag. }
  split; [done | | |].
  - rewrite Hst. rewrite (without_map idHash rowId). rewrite Hrows in Hsplit.
    rewrite (without_perm idHash _ _ _ Hrows). apply (without_part idHash _ _ _ _ Hids) in Hsplit.
    rewrite <- list_fmap_compose in Hsplit. exact Hsplit.
  - rewrite Hst. by apply without_NoDup.
  - assert (Forall wfTx (given ++ pooled p)) as Hall by (by apply Forall_app). rewrite Hbag in Hall. by apply Forall_app in Hall as [_ ?].
Qed.

(** Deleting a row that is not in the pool. *)
Lemma synced_discard rest p p' h :
  synced rest p → h ∉ tx_hash <$> pooled p → po_mempools p' = po_mempools p →
  po_storage p' = without sr_hash [h] (po_storage p) → synced (without idHash [h] rest) p'.
Proof.
  intros [Hok Hrows Hnd Htxs] Hh Hmem Hst. unfold pooled in *.
  split; [apply poolOk_iff; rewrite Hmem; by apply poolOk_iff | | rewrite Hst; by apply without_NoDup | unfold pooled; by rewrite Hmem].
  rewrite Hst. rewrite (without_map idHash rowId), (without_perm idHash _ _ _ Hrows), without_app.
  unfold pooled. rewrite Hmem, (without_none idHash [h] (txId <$> _)); [done |].
  intros i (t & -> & Ht)%list_elem_of_fmap Hin. apply Hh. apply list_elem_of_singleton in Hin as <-. exact (list_elem_of_fmap_2 tx_hash _ _ Ht).
Qed.

(** An operation that only takes away. *)
Record shrinks (p p' : Pool) : Prop := {
  sh_pool : ∃ gone, pooled p ≡ₚ gone ++ pooled p';
  sh_rows : ∀ r, r ∈ po_storage p' → r ∈ po_storage p;
}.
#[local] Instance shrinks_preorder : PreOrder shrinks.
Proof.
  split; [intros p; split; [by exists [] | done] |]. intros p1 p2 p3 [[g1 H1] R1] [[g2 H2] R2].
  split; [exists (g1 ++ g2); by rewrite H1, H2, app_assoc | auto].
Qed.
Lemma shrinks_elem p p' t : shrinks p p' → t ∈ pooled p' → t ∈ pooled p.
Proof. intros [[gone Hp] _] Ht. rewrite Hp. apply elem_of_app. by right. Qed.
Lemma shrinks_size p p' : shrinks p p' → getSize p' ≤ getSize p.
Proof. intros [[gone Hp] _]. rewrite !getSize_pooled, Hp, length_app. lia. Qed.

Lemma withHash_elem h hashes : h ∈ hashes → withHash h hashes = hashes.
Proof. intros Hin. unfold withHash. by rewrite bool_decide_true. Qed.

Context `{LegacySignature} (config : PoolConfig) (view : ChainView).
Context (Hview : ∀ a l, 0 ≤ ac_balance (cv_account view a l)).

(** What [mempoolRemove] takes out leaves the storage too. *)
Lemma remove_discard rest p p' p'' removed c :
  synced rest p → keeps p p' [] removed (po_storage p) →
  p'' = p' <| po_storage ::= without sr_hash (tx_hash <$> removed) |> <| po_cooldowns := c |> →
  synced rest p'' ∧ shrinks p p'' ∧ getSize p'' = getSize p - Z.of_nat (length removed).
Proof.
  intros Hs [Hok _ Hbag Hst] ->. cbn [app] in Hbag. split; [| split].
  - eapply (synced_move _ [] removed p); [exact Hs | done | | exact Hbag | by rewrite <- Hst].
    apply poolOk_iff. by apply poolOk_iff in Hok.
  - split; [by exists removed |]. intros r (Hr & _)%elem_of_without. by rewrite Hst in Hr.
  - rewrite !getSize_pooled. change (pooled (p' <| po_storage ::= _ |> <| po_cooldowns := c |>)) with (pooled p').
    rewrite Hbag, length_app. lia.
Qed.

Lemma removeOldTransaction_spec rest p row :
  synced rest p →
  (∀ t, t ∈ pooled p → tx_hash t = sr_hash row → tx_from t = addressFromPublicKey (sr_senderPublicKey row)) →
  ∃ p', removeOldTransaction addressFromPublicKey row p = (Ok tt, p') ∧
    synced (without idHash [sr_hash row] rest) p' ∧ shrinks p p'.
Proof.
  intros Hs Hrow. unfold removeOldTransaction.
  destruct (mempoolRemove_keeps p (addressFromPublicKey (sr_senderPublicKey row)) (sr_hash row) (sy_ok _ _ Hs))
    as (removed & p1 & Hrun & Hkeep & Hhit & Hne).
  rewrite (M_bind_run _ _ _ _ _ Hrun). destruct (decide (removed = [])) as [->|Hsome].
  - assert (sr_hash row ∉ tx_hash <$> pooled p) as Hout.
    { intros (t & Heq & Ht)%list_elem_of_fmap. by destruct (proj1 (elem_of_nil _) (Hhit t Ht (Hrow t Ht (eq_sym Heq)) (eq_sym Heq))). }
    destruct (discard_run [sr_hash row] p1) as [c Hc]. eexists. split; [exact Hc |].
    destruct (remove_discard rest p p1 _ [] (po_cooldowns p1) Hs Hkeep eq_refl) as (Hs1 & Hsh & _).
    pose proof (kp_bag _ _ _ _ _ Hkeep) as Hbag. pose proof (kp_storage _ _ _ _ _ Hkeep) as Hst.
    split; [eapply synced_discard; [exact Hs1 | | done | ] |].
    + change (pooled (p1 <| po_storage ::= _ |> <| po_cooldowns := _ |>)) with (pooled p1). by rewrite <- Hbag.
    + cbn -[without]. rewrite without_nil. done.
    + split; [by exists [] |]. intros r (Hr & _)%elem_of_without. by rewrite Hst in Hr.
  - specialize (Hne Hsome). rewrite withHash_elem by done.
    destruct (discard_run (tx_hash <$> removed) p1) as [c Hc]. eexists. split; [exact Hc |].
    destruct (remove_discard rest p p1 _ removed c Hs Hkeep eq_refl) as (Hs1 & Hsh & _).
    split; [| done]. rewrite without_none; [done |]. intros i Hi Hin%list_elem_of_singleton.
    apply list_elem_of_fmap in Hne as (t & Heq & Ht). eapply (synced_rest rest p t); [done | | exact Hi | congruence].
    pose proof (kp_bag _ _ _ _ _ Hkeep) as Hbag. cbn [app] in Hbag. rewrite Hbag. apply elem_of_app. by left.
Qed.

(** ** Expired rows

    [old] says of a hash whether its row has expired. *)
Definition aged (old : string → bool) (p : Pool) : Prop :=
  ∀ r, r ∈ po_storage p → old (sr_hash r) = (sr_blockNumber r <=? expiredBlockNumber config view).
Definition young (old : string → bool) (l : list Id) : list Id := filter (λ i, old (idHash i) = false) l.

Lemma aged_shrinks old p p' : shrinks p p' → aged old p → aged old p'.
Proof. intros Hsh Ha r Hr. apply Ha. by eapply sh_rows. Qed.

Lemma young_twice old l : young old (young old l) = young old l.
Proof. unfold young. rewrite list_filter_filter. apply list_filter_iff. tauto. Qed.

Lemma removeOldLoop_spec rows : ∀ rest p,
  synced rest p →
  (∀ row t, row ∈ rows → t ∈ pooled p → tx_hash t = sr_hash row → tx_from t = addressFromPublicKey (sr_senderPublicKey row)) →
  ∃ p', forEach rows (removeOldTransaction addressFromPublicKey) p = (Ok tt, p') ∧
    synced (without idHash (sr_hash <$> rows) rest) p' ∧ shrinks p p'.
Proof.
  induction rows as [|row rows IH]; intros rest p Hs Hrows.
  { exists p. split; [done |]. split; [| done]. cbn. by rewrite without_nil. }
  destruct (removeOldTransaction_spec rest p row Hs) as (p1 & Hrun & Hs1 & Hsh); [intros; eapply Hrows; [left | done | done] |].
  cbn [forEach]. rewrite (M_bind_run _ _ _ _ _ Hrun).
  destruct (IH _ p1 Hs1) as (p' & Hloop & Hs' & Hsh'); [intros; eapply Hrows; [by right | by eapply shrinks_elem | done] |].
  exists p'. split; [done |]. rewrite fmap_cons, <- without_cons. split; [done | by etrans].
Qed.

Lemma removeOld_spec old rest p :
  synced rest p → aged old p →
  ∃ p', removeOldTransactions addressFromPublicKey config view p = (Ok tt, p') ∧ synced (young old rest) p' ∧ shrinks p p'.
Proof.
  intros Hs Ha. unfold removeOldTransactions. erewrite M_bind_run by reflexivity.
  set (rows := getOldTransactions _ _).
  assert (∀ r, r ∈ rows ↔ r ∈ po_storage p ∧ old (sr_hash r) = true) as Hold.
  { intros r. subst rows. unfold getOldTransactions. rewrite elem_of_reverse, list_elem_of_In, filter_In, <- list_elem_of_In.
    split; intros [Hr Hb]; split; try done; [by rewrite Ha | by rewrite <- Ha]. }
  destruct (removeOldLoop_spec rows rest p Hs) as (p' & Hrun & Hs' & Hsh).
  { intros row t [Hrow _]%Hold Ht Heq. destruct (synced_row _ _ _ Hs Ht) as (r & Hr & Hid).
    assert (r = row) as -> by (eapply synced_unique; [done | done | done | injection Hid; congruence]).
    injection Hid as _ -> _. pose proof (sy_txs _ _ Hs) as Htxs. rewrite Forall_forall in Htxs. symmetry. by apply Htxs. }
  exists p'. split; [exact Hrun |]. split; [| done]. replace (young old rest) with (without idHash (sr_hash <$> rows) rest); [done |].
  assert (∀ i, i ∈ rest → idHash i ∉ sr_hash <$> rows ↔ old (idHash i) = false) as Hiff.
  { intros i Hi. assert (i ∈ rowId <$> po_storage p) as Hin by (rewrite (sy_rows _ _ Hs); apply elem_of_app; by left).
    apply list_elem_of_fmap in Hin as (r & -> & Hr). change (idHash (rowId r)) with (sr_hash r). rewrite <- not_true_iff_false.
    apply not_iff_compat. split; [| intros Ho; apply list_elem_of_fmap_2; by apply Hold].
    intros (r' & Heq & Hr')%list_elem_of_fmap. rewrite Heq. by apply Hold. }
  clear -Hiff. unfold without, young. induction rest as [|i rest IH]; [done |]. rewrite !filter_cons.
  rewrite IH by (intros; apply Hiff; by right). pose proof (Hiff i ltac:(left)). repeat case_decide; tauto.
Qed.

(** ** Evicting the lowest priority *)
Lemma lowest_spec p :
  poolOk p → 0 < getSize p → ∃ t, queryFirst (getFromLowestPriority p) = Ok t ∧ t ∈ pooled p.
Proof.
  intros Hok Hsize. destruct (lowest_perm p Hok) as (out & -> & Hperm). rewrite getSize_pooled, <- Hperm in Hsize.
  destruct out as [|t out]; [simpl in Hsize; lia |]. exists t. split; [done |]. rewrite <- Hperm. left.
Qed.

Lemma removeLowest_spec rest p :
  synced rest p →
  ∃ p', removeLowestPriorityTransaction p = (Ok tt, p') ∧ synced rest p' ∧ shrinks p p' ∧ (0 < getSize p → getSize p' < getSize p).
Proof.
  intros Hs. unfold removeLowestPriorityTransaction. erewrite M_bind_run by reflexivity. unfold getPoolSize.
  destruct (Z.eqb_spec (getSize p) 0) as [Hz|Hnz]; [exists p; split; [done |]; split; [done |]; split; [done | lia] |].
  assert (0 < getSize p) as Hpos by (rewrite getSize_pooled in *; lia).
  destruct (lowest_spec p (sy_ok _ _ Hs) Hpos) as (t & Hfirst & Ht).
  unfold mbind at 1, M_bind at 1, liftR. rewrite Hfirst.
  destruct (mempoolRemove_keeps p (tx_from t) (tx_hash t) (sy_ok _ _ Hs)) as (removed & p1 & Hrun & Hkeep & Hhit & _).
  rewrite (M_bind_run _ _ _ _ _ Hrun). destruct (discard_run (tx_hash <$> removed) p1) as [c Hc].
  eexists. split; [exact Hc |]. destruct (remove_discard rest p p1 _ removed c Hs Hkeep eq_refl) as (Hs1 & Hsh & Hlen).
  split; [done |]. split; [done |]. intros _. rewrite Hlen.
  specialize (Hhit t Ht eq_refl eq_refl). destruct removed; [by apply elem_of_nil in Hhit | simpl; lia].
Qed.

Context (Hmax : 0 ≤ pl_maxTransactionsInPool config).

(** The loop ends, below the limit. *)
Lemma removeLowestLoop_spec fuel : ∀ rest p,
  synced rest p → getSize p ≤ Z.of_nat fuel →
  ∃ p', removeLowestLoop config fuel p = (Ok tt, p') ∧ synced rest p' ∧ shrinks p p' ∧ getSize p' ≤ pl_maxTransactionsInPool config.
Proof.
  induction fuel as [|fuel IH]; intros rest p Hs Hfuel; cbn [removeLowestLoop]; erewrite M_bind_run by reflexivity; unfold getPoolSize;
    (destruct (Z.ltb_spec (pl_maxTransactionsInPool config) (getSize p)); [| exists p; split; [done |]; split; [done |]; by split]);
    [lia |].
  destruct (removeLowest_spec rest p Hs) as (p1 & Hrun & Hs1 & Hsh & Hlt). rewrite (M_bind_run _ _ _ _ _ Hrun).
  destruct (IH rest p1 Hs1) as (p' & Hloop & Hs' & Hsh' & Hle); [lia |].
  exists p'. split; [done |]. split; [done |]. split; [by etrans | done].
Qed.

Lemma cleanUp_spec old rest p :
  synced rest p → aged old p →
  ∃ p', cleanUp addressFromPublicKey config view p = (Ok tt, p') ∧ synced (young old rest) p' ∧ shrinks p p' ∧
    getSize p' ≤ pl_maxTransactionsInPool config.
Proof.
  intros Hs Ha. unfold cleanUp. destruct (removeOld_spec old rest p Hs Ha) as (p1 & Hrun & Hs1 & Hsh).
  rewrite (M_bind_run _ _ _ _ _ Hrun). unfold removeLowestPriorityTransactions. erewrite M_bind_run by reflexivity.
  destruct (removeLowestLoop_spec (Z.to_nat (getPoolSize p1)) (young old rest) p1 Hs1) as (p' & Hloop & Hs' & Hsh' & Hle).
  { unfold getPoolSize. rewrite getSize_pooled. lia. }
  exists p'. split; [done |]. split; [done |]. split; [by etrans | done].
Qed.

(** Cleaning up when the pool is full. *)
Lemma makeRoom_spec old rest p :
  synced rest p → aged old p →
  ∃ p' rest', when (pl_maxTransactionsInPool config <=? getPoolSize p) (cleanUp addressFromPublicKey config view) p = (Ok tt, p') ∧
    (rest' = rest ∨ rest' = young old rest) ∧ synced rest' p' ∧ shrinks p p' ∧ getSize p' ≤ pl_maxTransactionsInPool config.
Proof.
  intros Hs Ha. destruct (Z.leb_spec (pl_maxTransactionsInPool config) (getPoolSize p)); cbn [when].
  - destruct (cleanUp_spec old rest p Hs Ha) as (p' & Hrun & Hs' & Hsh & Hle). exists p', (young old rest). eauto 6.
  - exists p, rest. unfold getPoolSize in *. split; [done |]. split; [by left |]. split; [done |]. split; [done | lia].
Qed.

(** Evicting one transaction for a better one. *)
Lemma evict_spec rest p tx :
  synced rest p → getSize p ≤ pl_maxTransactionsInPool config →
  match when (pl_maxTransactionsInPool config <=? getPoolSize p)
      (lowest ← liftR (queryFirst (getFromLowestPriority p));
       if tx_gasPrice tx <=? tx_gasPrice lowest then throw (PoolError "ERR_POOL_FULL")
       else removeLowestPriorityTransaction) p with
  | (Ok _, p') => synced rest p' ∧ shrinks p p' ∧ getSize p' < pl_maxTransactionsInPool config
  | (Throw e, p') => p' = p ∧ e ≠ OutOfFuel
  end.
Proof.
  intros Hs Hle. destruct (Z.leb_spec (pl_maxTransactionsInPool config) (getPoolSize p)) as [Hfull|Hfree]; cbn [when];
    unfold getPoolSize in *; [| done].
  unfold mbind at 1, M_bind at 1, liftR. destruct (decide (0 < getSize p)) as [Hpos|Hz].
  - destruct (lowest_spec p (sy_ok _ _ Hs) Hpos) as (t & -> & _). destruct (_ <=? _); [done |].
    destruct (removeLowest_spec rest p Hs) as (p' & -> & Hs' & Hsh & Hlt). specialize (Hlt Hpos). split; [done |]. split; [done | lia].
  - destruct (lowest_perm p (sy_ok _ _ Hs)) as (out & -> & Hperm). rewrite getSize_pooled, <- Hperm in Hz.
    destruct out; [done | simpl in Hz; lia].
Qed.

Lemma young_cons old i rest : old (idHash i) = false → young old (i :: rest) = i :: young old rest.
Proof. intros Hi. unfold young. by rewrite filter_cons, decide_True. Qed.

Lemma aged_discard old h p : aged old p → aged old (run_in (discard h) p).
Proof.
  intros Ha r. change (po_storage (run_in (discard h) p)) with (withoutHash h (po_storage p)).
  rewrite withoutHash_without. intros (Hr & _)%elem_of_without. by apply Ha.
Qed.

(** What adding leaves: nothing new but the transaction, within the limit. *)
Record added (old : string → bool) (tx : Transaction) (p p' : Pool) : Prop := {
  ad_aged : aged old p';
  ad_pooled : ∀ t, t ∈ pooled p' → t = tx ∨ t ∈ pooled p;
  ad_size : getSize p' ≤ pl_maxTransactionsInPool config;
}.

(** Adding to the pool a transaction whose row is stored: it enters the pool, or
    its row is left over. *)
Lemma addToMempool_spec old tx rest p :
  synced (txId tx :: rest) p → aged old p → old (tx_hash tx) = false → wfTx tx →
  ∃ rest', (rest' = rest ∨ rest' = young old rest) ∧
  match addTransactionToMempool addressFromPublicKey config view tx p with
  | (Ok _, p') => synced rest' p' ∧ added old tx p p'
  | (Throw e, p') => synced (txId tx :: rest') p' ∧ added old tx p p' ∧ e ≠ OutOfFuel
  end.
Proof.
  intros Hs Ha Hyoung Hwf. unfold addTransactionToMempool. erewrite M_bind_run by reflexivity.
  destruct (makeRoom_spec old _ p Hs Ha) as (p1 & rest1 & Hrun & Hcase & Hs1 & Hsh1 & Hle1).
  assert (∃ rest', (rest' = rest ∨ rest' = young old rest) ∧ rest1 = txId tx :: rest') as (rest' & Hrest & ->).
  { destruct Hcase as [->| ->]; [eauto |]. rewrite young_cons by done. eauto. }
  exists rest'. split; [done |]. rewrite (M_bind_run _ _ _ _ _ Hrun). erewrite M_bind_run by reflexivity.
  pose proof (aged_shrinks _ _ _ Hsh1 Ha) as Ha1. pose proof (evict_spec _ p1 tx Hs1 Hle1) as Hevict.
  unfold mbind at 1, M_bind at 1.
  match type of Hevict with match ?m with _ => _ end => destruct m as [[[]|e] p2] end;
    [| destruct Hevict as [-> He]; split; [done |]; split; [| done]; split; [done | | done]; right; by eapply shrinks_elem].
  destruct Hevict as (Hs2 & Hsh2 & Hlt). pose proof (aged_shrinks _ _ _ Hsh2 Ha1) as Ha2.
  assert (shrinks p p2) as Hsh by (by etrans).
  pose proof (mempoolAdd_keeps config view Hview p2 tx (sy_ok _ _ Hs2) (proj1 Hwf)) as Hadd.
  destruct (mempoolAdd config view tx p2) as [[[]|e] p3].
  - destruct Hadd as (removed & [Hok3 _ Hbag Hst]). rewrite discardAll_without in Hst. split; [| split].
    + eapply (synced_move _ [tx] removed p2); [exact Hs2 | by apply Forall_singleton | done | done | done].
    + intros r. rewrite Hst. intros (Hr & _)%elem_of_without. by apply Ha2.
    + intros t Ht. assert (t ∈ [tx] ++ pooled p2) as Hin by (rewrite Hbag; apply elem_of_app; by right).
      apply elem_of_cons in Hin as [->|Hin]; [by left | right; by eapply shrinks_elem].
    + apply Permutation_length in Hbag. rewrite !length_app in Hbag. rewrite getSize_pooled in *. simpl in Hbag. lia.
  - destruct Hadd as ([Hok3 _ Hbag Hst] & He). cbn [app] in Hbag. split; [| split; [split |]].
    + eapply (synced_move _ [] [] p2); [exact Hs2 | done | done | exact Hbag | by rewrite without_nil].
    + intros r. rewrite Hst. apply Ha2.
    + intros t Ht. right. eapply shrinks_elem; [exact Hsh |]. by rewrite Hbag.
    + rewrite getSize_pooled, <- Hbag, <- getSize_pooled. lia.
    + done.
Qed.

(** ** The operations of the service *)
Record consistent (p : Pool) : Prop := {
  cs_synced : synced [] p;
  cs_size : getSize p ≤ pl_maxTransactionsInPool config;
}.

Lemma synced_same rest p p' : po_mempools p' = po_mempools p → po_storage p' = po_storage p → synced rest p → synced rest p'.
Proof.
  intros Hmem Hst [Hok Hrows Hnd Htxs]. apply poolOk_iff in Hok. rewrite <- Hmem in Hok. unfold pooled in *. rewrite <- Hmem in *.
  rewrite <- Hst in *. split; [by apply poolOk_iff | done | done | done].
Qed.

Lemma synced_dropped i rest p p' :
  synced (i :: rest) p → po_mempools p' = po_mempools p → po_storage p' = withoutHash (idHash i) (po_storage p) → synced rest p'.
Proof.
  intros Hs Hmem Hst. rewrite withoutHash_without in Hst.
  pose proof (synced_ids _ _ Hs) as Hids. cbn in Hids. apply NoDup_cons in Hids as [Hi Hids].
  assert (synced (without idHash [idHash i] (i :: rest)) p') as Hs'.
  { eapply synced_discard; [exact Hs | | done | done]. intros Hin. apply Hi. rewrite fmap_app, <- list_fmap_compose. apply elem_of_app. by right. }
  change (i :: rest) with ([i] ++ rest) in Hs'. rewrite without_app, without_all in Hs' by (intros ? ->%list_elem_of_singleton; left).
  rewrite without_none in Hs'; [done |]. intros j Hj Hin%list_elem_of_singleton. apply Hi. rewrite <- Hin.
  apply list_elem_of_fmap_2, elem_of_app. by left.
Qed.

(** Which rows have expired, when hashes are unique. *)
Definition expired (p : Pool) (h : string) : bool :=
  existsb (λ r, String.eqb (sr_hash r) h && (sr_blockNumber r <=? expiredBlockNumber config view)) (po_storage p).

Lemma aged_expired rest p : synced rest p → aged (expired p) p.
Proof.
  intros Hs r Hr. unfold expired. apply Bool.eq_iff_eq_true. rewrite existsb_exists. split.
  - intros (r' & Hr'%list_elem_of_In & Hb). simpl_bool. apply String.eqb_eq in H1.
    replace r with r' by (by eapply synced_unique). by apply Z.leb_le.
  - intros Hb. exists r. split; [by apply list_elem_of_In |]. by rewrite String.eqb_refl.
Qed.

Context (Hage : 0 < pl_maxTransactionAge config).

Lemma storageHas_spec p h : storageHas p h = false → h ∉ sr_hash <$> po_storage p.
Proof.
  intros Hb (r & -> & Hr)%list_elem_of_fmap. apply list_elem_of_In in Hr. unfold storageHas in Hb.
  assert (existsb (λ r0, String.eqb (sr_hash r0) (sr_hash r)) (po_storage p) = true) as Ht; [| congruence].
  apply existsb_exists. exists r. by rewrite String.eqb_refl.
Qed.

Lemma addTransaction_spec tx p :
  consistent p → wfTx tx →
  match addTransaction addressFromPublicKey config view tx p with
  | (Ok _, p') => consistent p'
  | (Throw e, p') => consistent p' ∧ ∃ type, e = PoolError type
  end.
Proof.
  intros Hc Hwf. unfold addTransaction, whenOpen. erewrite M_bind_run by reflexivity.
  destruct (po_disposed p); [done |]. erewrite M_bind_run by reflexivity.
  destruct (storageHas p (tx_hash tx)) eqn:Hhas; [split; [done | by eexists] |].
  destruct Hc as [Hs Hsize]. set (p1 := p <| po_storage ::= λ l, l ++ [rowOf view tx] |>).
  assert (storageAdd (rowOf view tx) p = (Ok tt, p1)) as Hrun by (unfold storageAdd; erewrite M_bind_run by reflexivity; cbn; by rewrite Hhas).
  rewrite (M_bind_run _ _ _ _ _ Hrun). pose proof (storageHas_spec _ _ Hhas) as Hfresh.
  assert (synced [txId tx] p1) as Hs1.
  { destruct Hs as [Hok Hrows Hnd Htxs]. split; [apply poolOk_iff; by apply poolOk_iff in Hok | | | done].
    - change (po_storage p1) with (po_storage p ++ [rowOf view tx]). rewrite fmap_app, Hrows. cbn. by rewrite Permutation_app_comm.
    - change (po_storage p1) with (po_storage p ++ [rowOf view tx]). rewrite fmap_app. apply NoDup_app. split; [done |].
      split; [| apply NoDup_singleton]. intros h Hh ->%list_elem_of_singleton. by apply Hfresh. }
  pose proof (aged_expired _ _ Hs1) as Ha.
  assert (expired p1 (tx_hash tx) = false) as Hyoung.
  { assert (rowOf view tx ∈ po_storage p1) as Hin by (apply elem_of_app; right; left).
    change (tx_hash tx) with (sr_hash (rowOf view tx)). rewrite (Ha _ Hin). apply Z.leb_gt. cbn. unfold expiredBlockNumber. lia. }
  destruct (addToMempool_spec _ tx [] p1 Hs1 Ha Hyoung Hwf) as (rest' & Hrest & Hadd).
  assert (rest' = []) as -> by (by destruct Hrest as [->| ->]).
  unfold tryCatch, mbind at 1, M_bind at 1. destruct (addTransactionToMempool _ _ _ _ _) as [[[]|e] p2].
  - destruct Hadd as [Hs2 Hadd]. split; [by eapply synced_same; [| | exact Hs2] | apply Hadd].
  - destruct Hadd as (Hs2 & Hadd & He).
    assert (consistent (p2 <| po_storage ::= withoutHash (tx_hash tx) |>)) as Hc2.
    { split; [by eapply synced_dropped | apply Hadd]. }
    destruct e; try done; (split; [exact Hc2 | by eexists]).
Qed.

Lemma rebroadcast_run p gas variance :
  poolOk p → ∃ p', rebroadcastMempoolTransactions config view gas variance p = (Ok tt, p') ∧
    po_mempools p' = po_mempools p ∧ po_storage p' = po_storage p.
Proof.
  intros Hok. unfold rebroadcastMempoolTransactions. destruct (_ <? _); [by exists p |]. erewrite M_bind_run by reflexivity.
  destruct (highest_perm p Hok) as (out & Hout & _). unfold mbind, M_bind, liftR. rewrite Hout. destruct (chooseBroadcast _ _ _ _ _ _). by eexists.
Qed.

Lemma commit_spec addresses gas syncing variance p :
  consistent p →
  ∃ p', commit addressFromPublicKey config view addresses gas syncing variance p = (Ok tt, p') ∧ consistent p'.
Proof.
  intros [Hs Hsize]. unfold commit, whenOpen. erewrite M_bind_run by reflexivity.
  destruct (po_disposed p); [by exists p |].
  destruct (mempoolReAdd_keeps config view Hview addresses p (sy_ok _ _ Hs)) as (removed & p1 & Hrun & Hkeep).
  rewrite (M_bind_run _ _ _ _ _ Hrun). destruct (discard_run (tx_hash <$> removed) p1) as [c Hc].
  rewrite (M_bind_run _ _ _ _ _ Hc). destruct (remove_discard [] p p1 _ removed c Hs Hkeep eq_refl) as (Hs1 & _ & _).
  destruct (cleanUp_spec _ _ _ Hs1 (aged_expired _ _ Hs1)) as (p2 & Hclean & Hs2 & _ & Hle).
  rewrite (M_bind_run _ _ _ _ _ Hclean). destruct syncing; cbn [negb when]; [by exists p2 |].
  destruct (rebroadcast_run p2 gas variance (sy_ok _ _ Hs2)) as (p3 & -> & Hmem & Hst). exists p3. split; [done |].
  split; [by eapply synced_same |]. unfold getSize. by rewrite Hmem.
Qed.

(** The rows the node starts with: those of well-formed transactions. *)
Definition stocked (rows : list StoredTransaction) : Prop :=
  NoDup (sr_hash <$> rows) ∧ ∀ r, r ∈ rows → ∃ tx, wfTx tx ∧ rowId r = txId tx.

Lemma synced_stocked p : synced [] p → stocked (po_storage p).
Proof.
  intros [_ Hrows Hnd Htxs]. split; [done |]. intros r Hr.
  assert (rowId r ∈ txId <$> pooled p) as Hin by (rewrite <- (app_nil_l (txId <$> _)), <- Hrows; by apply list_elem_of_fmap_2).
  apply list_elem_of_fmap in Hin as (t & -> & Ht). exists t. rewrite Forall_forall in Htxs. auto.
Qed.

(** The loop over the stored rows: [rows] are still to come; the expired ones
    among them may be gone from the storage already. *)
Record loading (old : string → bool) (rows : list StoredTransaction) (rest : list Id) (p : Pool) : Prop := {
  ld_rows : stocked rows;
  ld_old : ∀ r, r ∈ rows → old (sr_hash r) = (sr_blockNumber r <=? expiredBlockNumber config view);
  ld_rest : rest = rowId <$> rows ∨ rest = young old (rowId <$> rows);
  ld_synced : synced rest p;
  ld_aged : aged old p;
  ld_out : ∀ t, t ∈ pooled p → tx_hash t ∉ sr_hash <$> rows;
  ld_size : getSize p ≤ pl_maxTransactionsInPool config;
}.

Lemma stocked_cons row rows :
  stocked (row :: rows) → stocked rows ∧ sr_hash row ∉ sr_hash <$> rows ∧ ∃ tx, wfTx tx ∧ rowId row = txId tx.
Proof.
  intros [Hnd Htx]. apply NoDup_cons in Hnd as [Hnew Hnd]. split; [split; [done |] | split; [done | apply Htx; left]].
  intros r Hr. apply Htx. by right.
Qed.

(** A row that has not expired. *)
Lemma reAddYoung_spec old row rows rest p :
  loading old (row :: rows) rest p → expiredBlockNumber config view < sr_blockNumber row →
  ∃ p' rest', reAddStored addressFromPublicKey config view row p = (Ok tt, p') ∧ loading old rows rest' p'.
Proof.
  intros [Hstock Hrow Hrest Hs Ha Hout Hsize] Hyoung. destruct (stocked_cons _ _ Hstock) as (Hstock' & Hnew & tx & Hwf & Hid).
  assert (Hrow' := λ r Hr, Hrow r (list_elem_of_further r row rows Hr)).
  pose proof (Hrow row ltac:(left)) as Hold. rewrite (proj2 (Z.leb_gt _ _) Hyoung) in Hold.
  assert (∃ rest0, rest = txId tx :: rest0 ∧ (rest0 = rowId <$> rows ∨ rest0 = young old (rowId <$> rows))) as (rest0 & -> & Hrest0).
  { destruct Hrest as [->| ->]; rewrite fmap_cons; [| rewrite young_cons by done]; rewrite Hid; eauto. }
  injection Hid as Hh Hk Hb. rewrite Hh in Hold, Hnew.
  destruct (addToMempool_spec old tx rest0 p Hs Ha Hold Hwf) as (rest' & Hcase & Hadd).
  assert (rest' = rowId <$> rows ∨ rest' = young old (rowId <$> rows)) as Hrest'
    by (destruct Hcase as [->| ->], Hrest0 as [->| ->]; rewrite ?young_twice; auto).
  assert (∀ p', (∀ t, t ∈ pooled p' → t = tx ∨ t ∈ pooled p) → ∀ t, t ∈ pooled p' → tx_hash t ∉ sr_hash <$> rows) as Hout'.
  { intros p' Hp' t Ht. destruct (Hp' t Ht) as [->|Hin]; [done |]. intros Hr. apply (Hout t Hin). by right. }
  unfold reAddStored. rewrite (proj2 (Z.ltb_lt _ _) Hyoung), Hb, Hh.
  unfold tryCatch, mbind, M_bind, liftR. rewrite (proj2 (proj2 Hwf)).
  destruct (addTransactionToMempool _ _ _ tx p) as [[[]|e] p1].
  - destruct Hadd as (Hs1 & [Ha1 Hp1 Hsz1]). exists p1, rest'. split; [done |]. split; try done. by apply Hout'.
  - destruct Hadd as (Hs1 & [Ha1 Hp1 Hsz1] & He). exists (run_in (discard (tx_hash tx)) p1), rest'.
    split; [by destruct e |]. split; try done; [by eapply synced_dropped | by apply aged_discard | by apply Hout'].
Qed.

(** An expired one is deleted, if it is still there. *)
Lemma reAddOld_spec old row rows rest p :
  loading old (row :: rows) rest p → sr_blockNumber row ≤ expiredBlockNumber config view →
  ∃ p' rest', reAddStored addressFromPublicKey config view row p = (Ok tt, p') ∧ loading old rows rest' p'.
Proof.
  intros [Hstock Hrow Hrest Hs Ha Hout Hsize] Hexp. destruct (stocked_cons _ _ Hstock) as (Hstock' & Hnew & _).
  assert (Hrow' := λ r Hr, Hrow r (list_elem_of_further r row rows Hr)).
  pose proof (Hrow row ltac:(left)) as Hold. rewrite (proj2 (Z.leb_le _ _) Hexp) in Hold.
  assert (sr_hash row ∉ tx_hash <$> pooled p) as Hne by (intros (t & Heq & Ht)%list_elem_of_fmap; apply (Hout t Ht); rewrite <- Heq; left).
  assert (without idHash [sr_hash row] (rowId <$> rows) = rowId <$> rows) as Hskip.
  { apply without_none. intros i (r & -> & Hr)%list_elem_of_fmap Hin%list_elem_of_singleton. apply Hnew. rewrite <- Hin. by apply (list_elem_of_fmap_2 sr_hash). }
  unfold reAddStored. rewrite (proj2 (Z.ltb_ge _ _) Hexp).
  exists (run_in (discard (sr_hash row)) p), (without idHash [sr_hash row] rest). split; [done |]. split; try done.
  - destruct Hrest as [->| ->].
    + left. rewrite fmap_cons. change (rowId row :: ?l) with ([rowId row] ++ l). rewrite without_app, Hskip, without_all; [done |].
      intros ? ->%list_elem_of_singleton. left.
    + right. rewrite fmap_cons. unfold young at 1. rewrite filter_cons, decide_False by (change (idHash (rowId row)) with (sr_hash row); congruence).
      apply without_none. intros i [_ Hi]%list_elem_of_filter Hin. rewrite <- Hskip in Hi. by apply elem_of_without in Hi as [_ ?].
  - eapply synced_discard; [exact Hs | done | done |]. rewrite <- withoutHash_without. done.
  - by apply aged_discard.
  - intros t Ht Hin. apply (Hout t Ht). by right.
Qed.

Lemma reAddLoop_spec old rows : ∀ rest p,
  loading old rows rest p →
  ∃ p', forEach rows (reAddStored addressFromPublicKey config view) p = (Ok tt, p') ∧ consistent p'.
Proof.
  induction rows as [|row rows IH]; intros rest p Hl.
  { exists p. split; [done |]. destruct Hl as [_ _ Hrest Hs _ _ Hsize]. split; [| done]. by destruct Hrest as [->| ->]. }
  assert (∃ p1 rest1, reAddStored addressFromPublicKey config view row p = (Ok tt, p1) ∧ loading old rows rest1 p1) as (p1 & rest1 & Hrun & Hl1).
  { destruct (decide (expiredBlockNumber config view < sr_blockNumber row)); [by eapply reAddYoung_spec | eapply reAddOld_spec; [done | lia]]. }
  cbn [forEach]. rewrite (M_bind_run _ _ _ _ _ Hrun). by eapply IH.
Qed.

Lemma reAddTransactions_spec p :
  stocked (po_storage p) → po_disposed p = false →
  ∃ p', reAddTransactions addressFromPublicKey config view p = (Ok tt, p') ∧ consistent p'.
Proof.
  intros Hstock Hopen. unfold reAddTransactions, whenOpen. erewrite M_bind_run by reflexivity. rewrite Hopen.
  erewrite M_bind_run by reflexivity. erewrite M_bind_run by reflexivity.
  set (p1 := p <| po_mempools := [] |>). assert (synced (rowId <$> po_storage p) p1) as Hs.
  { split; [apply poolOk_iff; split; [apply NoDup_nil_2 | by split] | | apply Hstock | apply Forall_nil_2].
    change (pooled p1) with (@nil Transaction). by rewrite app_nil_r. }
  apply (reAddLoop_spec (expired p1) _ (rowId <$> po_storage p)). split; try done; [| by left | by eapply aged_expired | by intros t ?%elem_of_nil].
  by apply (aged_expired _ _ Hs).
Qed.

Lemma flush_spec p : consistent p → ∃ p', flush p = (Ok tt, p') ∧ consistent p'.
Proof.
  intros Hc. unfold flush, whenOpen. erewrite M_bind_run by reflexivity. destruct (po_disposed p); [by exists p |].
  eexists. split; [reflexivity |]. split; [| done].
  split; [apply poolOk_iff; split; [apply NoDup_nil_2 | by split] | done | apply NoDup_nil_2 | apply Forall_nil_2].
Qed.
End invariant.
