(* ===== verification/PoolTheorems.v ===== *)
(** * The transaction pool as a whole

    The life of the service as a sequence of calls, each with the chain as it is
    then; the batches of the selector. *)
From S2P Require Import Prelude Bytes Serializer Messages Blocks JsMap BlockchainUtils BlockProcessor SenderState Mempool.
From S2P Require Import PoolService PoolFacts PoolInvariant.

Section life.
Context `{TransactionCodec} `{LegacySignature} (addressFromPublicKey : string → string) (config : PoolConfig).

Inductive PoolOp :=
  | AddTransaction (tx : Transaction)
  | Commit (sendersAddresses : list string) (consumedGas : Z) (isSyncing : bool) (cooldownVariance : Z)
  | ReAddTransactions
  | Flush
  | Dispose.

Definition runPoolOp (view : ChainView) (op : PoolOp) : M Pool unit :=
  match op with
  | AddTransaction tx => addTransaction addressFromPublicKey config view tx
  | Commit senders gas syncing variance => commit addressFromPublicKey config view senders gas syncing variance
  | ReAddTransactions => reAddTransactions addressFromPublicKey config view
  | Flush => flush
  | Dispose => dispose
  end.

Definition viewOk (view : ChainView) : Prop := ∀ a l, 0 ≤ ac_balance (cv_account view a l).
Definition opOk (op : PoolOp) : Prop :=
  match op with AddTransaction tx => wfTx addressFromPublicKey tx | _ => True end.

(** The states of a service that starts by re-adding the rows of its database. *)
Inductive poolReachable (rows : list StoredTransaction) : Pool → Prop :=
  | pool_start view r p :
      viewOk view → reAddTransactions addressFromPublicKey config view (newPool rows) = (r, p) → poolReachable rows p
  | pool_step view op r p p' :
      poolReachable rows p → viewOk view → opOk op → runPoolOp view op p = (r, p') → poolReachable rows p'.

(** How a call may end: only adding throws, and what it throws is a pool error. *)
Definition endsWell (op : PoolOp) (r : result unit) : Prop :=
  match r with
  | Ok _ => True
  | Throw e => ∃ tx type, op = AddTransaction tx ∧ e = PoolError type
  end.

Context (Hmax : 0 ≤ pl_maxTransactionsInPool config) (Hage : 0 < pl_maxTransactionAge config).

Lemma runPoolOp_spec view op p :
  viewOk view → opOk op → consistent addressFromPublicKey config p →
  consistent addressFromPublicKey config (runPoolOp view op p).2 ∧ endsWell op (runPoolOp view op p).1.
Proof.
  intros Hview Hop Hc. destruct op as [tx|senders gas syncing variance| | |]; cbn [runPoolOp].
  - pose proof (addTransaction_spec addressFromPublicKey config view Hview Hmax Hage tx p Hc Hop) as Hadd.
    destruct (addTransaction _ _ _ _ _) as [[[]|e] p']; [done |]. destruct Hadd as (Hc' & type & ->). split; [done | by exists tx, type].
  - destruct (commit_spec addressFromPublicKey config view Hview Hmax senders gas syncing variance p Hc) as (p' & -> & Hc'). done.
  - destruct (po_disposed p) eqn:Hd.
    + unfold reAddTransactions, whenOpen. erewrite M_bind_run by reflexivity. by rewrite Hd.
    + destruct (reAddTransactions_spec addressFromPublicKey config view Hview Hmax p) as (p' & -> & Hc'); [| done | done].
      eapply synced_stocked, Hc.
  - destruct (flush_spec addressFromPublicKey config Hmax p Hc) as (p' & -> & Hc'). done.
  - split; [| done]. split; [by eapply synced_same; [| | apply Hc] | apply Hc].
Qed.

Lemma reachable_consistent rows p :
  stocked addressFromPublicKey rows → poolReachable rows p → consistent addressFromPublicKey config p.
Proof.
  intros Hstock. induction 1 as [view r p Hview Hrun|view op r p p' _ IH Hview Hop Hrun].
  - destruct (reAddTransactions_spec addressFromPublicKey config view Hview Hmax (newPool rows)) as (p1 & Hrun' & Hc); [done | done |].
    rewrite Hrun in Hrun'. by injection Hrun' as _ ->.
  - replace p' with (runPoolOp view op p).2 by (by rewrite Hrun). by apply runPoolOp_spec.
Qed.

(** C28. However transactions arrive and blocks are committed, whatever the
    chain answers, after every call of the service the database holds exactly the
    transactions of the pool, each once; the queues are well-formed; the pool
    holds at most its limit.  Every call returns: the clean-up loops end, only
    adding throws, and then a pool error. *)
Theorem pool_consistent rows p :
  stocked addressFromPublicKey rows → poolReachable rows p →
  rowId <$> po_storage p ≡ₚ txId <$> pooled p ∧ NoDup (tx_hash <$> pooled p) ∧ poolOk p ∧
  getSize p ≤ pl_maxTransactionsInPool config ∧
  ∀ view op, viewOk view → opOk op → endsWell op (runPoolOp view op p).1.
Proof.
  intros Hstock Hp. pose proof (reachable_consistent rows p Hstock Hp) as Hc.
  split; [exact (sy_rows _ _ _ (cs_synced _ _ _ Hc)) |]. split.
  { pose proof (synced_ids _ _ _ (cs_synced _ _ _ Hc)) as Hids. by rewrite app_nil_l, <- list_fmap_compose in Hids. }
  split; [apply Hc |]. split; [apply Hc |]. intros view op Hview Hop. by apply runPoolOp_spec.
Qed.
End life.

(** ** The batches of the selector *)
Definition batchBytes (l : list Transaction) : Z := foldr (λ t n, 4 + Z.of_nat (length (tx_serialized t)) + n) 0 l.

(** What fits is a prefix within both limits, and the longest such. *)
Lemma fill_spec maxSize l : ∀ taken bytesLeft,
  ∃ rest, l = fill maxSize taken bytesLeft l ++ rest ∧
    (0 ≤ bytesLeft → batchBytes (fill maxSize taken bytesLeft l) ≤ bytesLeft) ∧
    taken + Z.of_nat (length (fill maxSize taken bytesLeft l)) ≤ Z.max maxSize (taken + 1) ∧
    (∀ t rest', rest = t :: rest' →
       bytesLeft < batchBytes (fill maxSize taken bytesLeft l) + 4 + Z.of_nat (length (tx_serialized t)) ∨
       maxSize ≤ taken + Z.of_nat (length (fill maxSize taken bytesLeft l))).
Proof.
  induction l as [|t l IH]; intros taken bytesLeft; cbn [fill].
  { exists []. split; [done |]. split; [done |]. split; [simpl; lia | done]. }
  destruct (Z.ltb_spec (bytesLeft - 4 - Z.of_nat (length (tx_serialized t))) 0) as [Hbig|Hfits].
  { exists (t :: l). split; [done |]. split; [done |]. split; [simpl; lia |]. intros t' rest' [= <- <-]. left. simpl. lia. }
  destruct (Z.leb_spec maxSize (taken + 1)) as [Hfull|Hroom].
  { exists l. split; [done |]. simpl. split; [lia |]. split; [lia |]. intros. right. lia. }
  destruct (IH (taken + 1) (bytesLeft - 4 - Z.of_nat (length (tx_serialized t)))) as (rest & Heq & Hbytes & Hlen & Hmax).
  exists rest. cbn [app length batchBytes foldr]. split; [by f_equal |]. fold (batchBytes (fill maxSize (taken + 1) (bytesLeft - 4 - Z.of_nat (length (tx_serialized t))) l)).
  split; [lia |]. split; [lia |]. intros t' rest' Hrest. destruct (Hmax t' rest' Hrest); [left | right]; lia.
Qed.

(** A request: the pool at the time, and the two limits. *)
Definition Request : Type := (Pool * Z * Z)%type.

Fixpoint getBatches (blockRound : string) (requests : list Request) : M Selector (list GetBatchResult) :=
  match requests with
  | [] => mret []
  | (p, maxBytes, maxSize) :: requests' =>
      r ← getBatch p blockRound maxBytes maxSize;
      rs ← getBatches blockRound requests';
      mret (r :: rs)
  end.

(** A batch keeps its request's limits and is maximal in what was left. *)
Definition batchOk (before : list Transaction) (out : list Transaction) (maxBytes maxSize : Z) (r : GetBatchResult) : Prop :=
  ∃ rest, out = before ++ gb_transactions r ++ rest ∧ gb_remaining r = Z.of_nat (length rest) ∧
    batchBytes (gb_transactions r) ≤ maxBytes ∧ Z.of_nat (length (gb_transactions r)) ≤ maxSize ∧
    (∀ t rest', rest = t :: rest' →
       maxBytes < batchBytes (gb_transactions r) + 4 + Z.of_nat (length (tx_serialized t)) ∨
       maxSize = Z.of_nat (length (gb_transactions r))).

Fixpoint batchesOk (before out : list Transaction) (requests : list Request) (rs : list GetBatchResult) : Prop :=
  match requests, rs with
  | [], [] => True
  | (_, maxBytes, maxSize) :: requests', r :: rs' =>
      batchOk before out maxBytes maxSize r ∧ batchesOk (before ++ gb_transactions r) out requests' rs'
  | _, _ => False
  end.

Definition requestOk (q : Request) : Prop := 0 ≤ q.1.2 ∧ 1 ≤ q.2.

Lemma getBatch_prepared p blockRound maxBytes maxSize s before rest :
  sl_currentBlockRound s = blockRound → sl_transactions s = before ++ rest → sl_index s = length before →
  0 ≤ maxBytes → 1 ≤ maxSize →
  ∃ r rest', getBatch p blockRound maxBytes maxSize s = (Ok r, s <| sl_index ::= λ i, (i + length (gb_transactions r))%nat |>) ∧
    rest = gb_transactions r ++ rest' ∧ batchOk before (before ++ rest) maxBytes maxSize r.
Proof.
  intros Hround Hall Hindex Hb Hn. unfold getBatch, prepare, mbind, M_bind, get, mret, M_ret, modify. rewrite Hround, String.eqb_refl.
  rewrite Hall, Hindex, drop_app_length. destruct (fill_spec maxSize rest 0 maxBytes) as (rest' & Heq & Hbytes & Hlen & Hmore).
  eexists (mkGetBatchResult _ (fill maxSize 0 maxBytes rest)), rest'. cbn [gb_transactions]. split; [reflexivity |]. split; [done |].
  exists rest'. cbn [gb_transactions gb_remaining]. split; [by rewrite <- Heq |]. split; [| split; [auto | split; [lia |]]].
  - cbn. rewrite Hindex, Hall. rewrite Heq at 1. rewrite !length_app. lia.
  - intros t rest'' Hrest. destruct (Hmore t rest'' Hrest); [by left | right; lia].
Qed.

Lemma getBatches_prepared blockRound requests : ∀ s before rest,
  sl_currentBlockRound s = blockRound → sl_transactions s = before ++ rest → sl_index s = length before →
  Forall requestOk requests →
  ∃ rs s', getBatches blockRound requests s = (Ok rs, s') ∧ batchesOk before (before ++ rest) requests rs.
Proof.
  induction requests as [|[[p maxBytes] maxSize] requests IH]; intros s before rest Hround Hall Hindex Hreq; [by exists [], s |].
  apply Forall_cons in Hreq as [[Hb Hn] Hreq]. cbn [getBatches].
  destruct (getBatch_prepared p blockRound maxBytes maxSize s before rest Hround Hall Hindex Hb Hn) as (r & rest' & Hrun & -> & Hok).
  rewrite (M_bind_run _ _ _ _ _ Hrun).
  destruct (IH (s <| sl_index ::= λ i, (i + length (gb_transactions r))%nat |>) (before ++ gb_transactions r) rest')
    as (rs & s' & Hruns & Hoks); [done | by rewrite <- app_assoc | cbn; rewrite length_app; lia | done |].
  rewrite (M_bind_run _ _ _ _ _ Hruns). exists (r :: rs), s'. split; [done |]. split; [done |]. by rewrite app_assoc.
Qed.

(** The batches handed out for one block proposal: the priority order is
    taken once, when the first batch of a new block and round is asked for, and
    the batches cut it into consecutive pieces, whatever happens to the pool in
    between; each keeps its limits on bytes and count and stops only where the
    next transaction would break one, and reports how many are left. *)
Theorem selector_batches blockRound p maxBytes maxSize requests s :
  poolOk p → sl_currentBlockRound s ≠ blockRound → Forall requestOk ((p, maxBytes, maxSize) :: requests) →
  ∃ out rs s', getFromHighestPriority p = Ok out ∧
    getBatches blockRound ((p, maxBytes, maxSize) :: requests) s = (Ok rs, s') ∧
    batchesOk [] out ((p, maxBytes, maxSize) :: requests) rs.
Proof.
  intros Hok Hround Hreq. destruct (highest_perm p Hok) as (out & Hout & _).
  set (s1 := mkSelector out blockRound 0).
  destruct (getBatches_prepared blockRound ((p, maxBytes, maxSize) :: requests) s1 [] out) as (rs & s' & Hrun & Hoks); try done.
  exists out, rs, s'. split; [done |]. split; [| done]. rewrite <- Hrun. cbn [getBatches]. unfold mbind at 1 3, M_bind at 1 3.
  assert (getBatch p blockRound maxBytes maxSize s = getBatch p blockRound maxBytes maxSize s1) as ->; [| done].
  assert (prepare p blockRound s1 = (Ok tt, s1)) as Hagain.
  { unfold prepare. erewrite M_bind_run by reflexivity. change (sl_currentBlockRound s1) with blockRound. by rewrite String.eqb_refl. }
  assert (prepare p blockRound s = (Ok tt, s1)) as Hfirst.
  { unfold prepare. erewrite M_bind_run by reflexivity. destruct (String.eqb_spec (sl_currentBlockRound s) blockRound); [done |].
    erewrite M_bind_run by reflexivity. unfold mbind, M_bind, liftR. by rewrite Hout. }
  unfold getBatch. by rewrite (M_bind_run _ _ _ _ _ Hfirst), (M_bind_run _ _ _ _ _ Hagain).
Qed.

(** ** A replacement the sender cannot pay *)
Section unpaid.
Context `{TransactionCodec} `{LegacySignature} (addressFromPublicKey : string → string) (config : PoolConfig) (view : ChainView).

Lemma addAll_rejects l s :
  (∀ t, t ∈ l → (sqAddTransaction config view t s).1 ≠ Ok tt) → addAll config view l s = (Ok l, s).
Proof.
  induction l as [|t l IH]; intros Hall; [done |]. cbn [addAll].
  pose proof (Hall t ltac:(left)) as Ht. pose proof (sqAdd_run config view t s) as Hrun. pose proof (sqAdd_fuel config view t s) as Hfuel.
  unfold mbind at 1, M_bind at 1, tryCatch, mbind at 1, M_bind at 1.
  destruct (sqAddTransaction config view t s) as [[[]|e] s']; [done |]. cbn in Hrun, Hfuel. subst s'.
  assert ((removed ← addAll config view l; mret (t :: removed)) s = (Ok (t :: l), s)) as Hr.
  { rewrite (M_bind_run _ _ _ _ _ (IH (λ u Hu, Hall u (list_elem_of_further u t l Hu)))). done. }
  destruct e; try exact Hr. by destruct Hfuel.
Qed.

(** What the pool holds of a sender under the nonce [i] places into her queue. *)
Record unpaid (n0 b0 : Z) (s : SenderMempool) (i : nat) (same new : Transaction) : Prop := {
  up_queue : queueOk n0 b0 s;
  up_same : sq_transactions s !! i = Some same;
  up_nonce : tx_nonce new = tx_nonce same;
  up_price : tx_gasPrice same < tx_gasPrice new;
  up_cost : b0 - totalCost (take i (sq_transactions s)) < cost new;
}.

Lemma takeAffected_last nonce l t :
  t ∈ l → tx_nonce t = nonce → (∀ i j a b, l !! i = Some a → l !! j = Some b → (i < j)%nat → tx_nonce b < tx_nonce a) →
  last (takeAffected nonce l) = Some t.
Proof.
  revert t; induction l as [|u l IH]; intros t Ht Hn Hdesc; [by apply elem_of_nil in Ht |]. cbn [takeAffected].
  apply elem_of_cons in Ht as [<-|Ht].
  - rewrite (proj2 (Z.ltb_ge _ _)) by lia. destruct l as [|v l]; [done |]. cbn [takeAffected].
    pose proof (Hdesc 0%nat 1%nat t v eq_refl eq_refl ltac:(lia)). by rewrite (proj2 (Z.ltb_lt _ _)) by lia.
  - assert (tx_nonce t < tx_nonce u) as Hlt.
    { apply list_elem_of_lookup in Ht as [j Hj]. apply (Hdesc 0%nat (S j)); [done | done | lia]. }
    rewrite (proj2 (Z.ltb_ge _ _)) by lia. rewrite last_cons. rewrite (IH t Ht Hn); [done |].
    intros i j a b Ha Hb Hij. apply (Hdesc (S i) (S j)); [done | done | lia].
Qed.

Lemma unpaid_affected n0 b0 s i same new :
  unpaid n0 b0 s i same new → last (takeAffected (tx_nonce new) (getFromLatest s)) = Some same.
Proof.
  intros [[Hns _ _ _ _ _] Hsame Hnonce _ _]. unfold getFromLatest. apply takeAffected_last; [| done |].
  - rewrite elem_of_reverse. by eapply list_elem_of_lookup_2.
  - intros j k a b Ha Hb Hlt. apply reverse_lookup_Some in Ha as [Ha ?]. apply reverse_lookup_Some in Hb as [Hb ?].
    rewrite (Hns _ _ Ha), (Hns _ _ Hb). lia.
Qed.

Lemma unpaid_index n0 b0 s i same new :
  unpaid n0 b0 s i same new → findIndex (λ t, tx_nonce t =? tx_nonce new) (sq_transactions s) = Some i.
Proof.
  intros [[Hns _ _ _ _ _] Hsame Hnonce _ _]. destruct (findIndex _ _) as [j|] eqn:Hj.
  - apply findIndex_Some in Hj as (x & Hx & Heq & _). apply Z.eqb_eq in Heq. f_equal.
    pose proof (Hns _ _ Hx). pose proof (Hns _ _ Hsame). lia.
  - rewrite findIndex_None in Hj. specialize (Hj same (list_elem_of_lookup_2 _ _ _ Hsame)). apply Z.eqb_neq in Hj. lia.
Qed.

(** The queue keeps what comes before the nonce and returns all the rest. *)
Definition cutAt (i : nat) (s : SenderMempool) : SenderMempool :=
  refunded (reverse (drop i (sq_transactions s))) (s <| sq_transactions ::= take i |>).

Lemma unpaid_rejects n0 b0 s i same new t :
  unpaid n0 b0 s i same new → t ∈ new :: drop (S i) (sq_transactions s) → (sqAddTransaction config view t (cutAt i s)).1 ≠ Ok tt.
Proof.
  intros [Hq Hsame Hnonce Hprice Hcost] Ht Hadd. pose proof (spliced_ok n0 b0 s i Hq) as [_ Hn Hb _ _ _]. fold (cutAt i s) in Hn, Hb.
  pose proof (sqAdd_run config view t (cutAt i s)) as Hrun. destruct (sqAddTransaction config view t (cutAt i s)) as [[[]|e] s']; [| done].
  destruct Hrun as (_ & Htx & Hfunds). change (sq_transactions (cutAt i s)) with (take i (sq_transactions s)) in *.
  apply elem_of_cons in Ht as [->|Ht]; [lia |].
  apply list_elem_of_lookup in Ht as [j Hj]. rewrite lookup_drop in Hj. rewrite (qo_nonces _ _ _ Hq _ _ Hj) in Htx.
  rewrite length_take_le in Hn by (apply lookup_lt_Some in Hsame; lia). lia.
Qed.

Lemma unpaid_balance n0 b0 s i same new :
  unpaid n0 b0 s i same new → wa_balance (sq_senderState s) + cost same < cost new.
Proof.
  intros [[_ _ Hb _ Hc _] Hsame _ _ Hcost]. rewrite <- (take_drop_middle _ _ _ Hsame) in Hb, Hc. rewrite totalCost_app in Hb.
  assert (0 ≤ totalCost (drop (S i) (sq_transactions s))) as Hpos.
  { apply Forall_app in Hc as [_ Hc]. apply Forall_cons in Hc as [_ Hc]. clear -Hc. induction Hc; simpl; lia. }
  simpl in Hb. lia.
Qed.

Lemma unpaid_replace n0 b0 s i same new :
  unpaid n0 b0 s i same new →
  replaceTransaction config view new s = (Ok (same :: new :: drop (S i) (sq_transactions s)), cutAt i s).
Proof.
  intros Hu. unfold replaceTransaction. erewrite M_bind_run by reflexivity.
  rewrite (unpaid_affected _ _ _ _ _ _ Hu), (unpaid_index _ _ _ _ _ _ Hu).
  pose proof (unpaid_balance _ _ _ _ _ _ Hu) as Hbal. pose proof Hu as [Hq Hsame Hnonce Hprice Hcost].
  rewrite Hnonce, Z.eqb_refl. cbn [negb]. rewrite (proj2 (Z.leb_gt _ _)) by done.
  unfold mbind at 1, M_bind at 1, liftR at 1. cbn [assert_defined].
  assert (onWallet (senderReplace config view same new (sqGetNonce s)) s = (Ok false, s)) as Hrep.
  { unfold onWallet, senderReplace. rewrite Hnonce, Z.eqb_refl. cbn [negb]. unfold mbind, M_bind, get. cbv zeta.
    fold (cost same) (cost new). rewrite (proj2 (Z.ltb_lt _ _)) by done. cbn. by destruct s. }
  rewrite (M_bind_run _ _ _ _ _ Hrep). erewrite M_bind_run by reflexivity.
  rewrite (M_bind_run _ _ _ _ _ (revertAll_run _ _)). rewrite (drop_S _ _ _ Hsame).
  unfold mbind at 1, M_bind at 1, liftR. cbn [head assert_defined]. rewrite Z.eqb_refl. cbn [negb tail].
  rewrite <- (drop_S _ _ _ Hsame). fold (cutAt i s).
  rewrite (M_bind_run _ _ _ _ _ (addAll_rejects _ _ (λ t Ht, unpaid_rejects _ _ _ _ _ _ t Hu Ht))). done.
Qed.

Lemma storageHas_discarded p l rows t : po_storage p = discardAll l rows → t ∈ l → storageHas p (tx_hash t) = false.
Proof.
  intros Hst Ht. unfold storageHas. rewrite Hst, discardAll_without. apply not_true_iff_false. rewrite existsb_exists.
  intros (r & (_ & Hr)%list_elem_of_In%elem_of_without & Heq%String.eqb_eq). apply Hr. rewrite Heq. by apply list_elem_of_fmap_2.
Qed.

Lemma disposed_getAll k p s :
  mapGet (po_mempools p) k = Some s → getAllBySender k (removeDisposableMempool k p) = sq_transactions s.
Proof.
  intros Hk. unfold removeDisposableMempool, getAllBySender. rewrite Hk. destruct (isDisposable s) eqn:Hd; [| by rewrite Hk].
  cbn. rewrite mapGet_delete, decide_True by done. unfold isDisposable in Hd. simpl_bool. done.
Qed.

Lemma unpaid_mempoolAdd p s i same tx n0 b0 :
  mapGet (po_mempools p) (tx_from tx) = Some s → unpaid n0 b0 s i same tx →
  ∃ p', mempoolAdd config view tx p = (Ok tt, p') ∧ getAllBySender (tx_from tx) p' = take i (sq_transactions s) ∧
    po_storage p' = discardAll (same :: tx :: drop (S i) (sq_transactions s)) (po_storage p).
Proof.
  intros Hk Hu. unfold mempoolAdd. erewrite M_bind_run by reflexivity. unfold hasSenderMempool, mapHas. rewrite Hk. cbn [isSome negb when].
  erewrite M_bind_run by reflexivity. unfold tryFinally. erewrite M_bind_run by reflexivity.
  unfold mbind at 1, M_bind at 1, liftR, getSenderMempool. rewrite Hk.
  assert (tx_nonce tx <=? sqGetNonce s = true) as ->.
  { destruct Hu as [[Hns Hn _ _ _ _] Hsame Hnonce _ _]. apply Z.leb_le. unfold sqGetNonce. rewrite Hn, Hnonce, (Hns _ _ Hsame).
    apply lookup_lt_Some in Hsame. lia. }
  unfold tryReplaceTransaction, mbind, M_bind. rewrite (onSender_run _ _ _ _ Hk), (unpaid_replace _ _ _ _ _ _ Hu). cbn [fst snd].
  rewrite discardAll_run. eexists. split; [reflexivity |]. split.
  - rewrite (disposed_getAll _ _ (cutAt i s)); [done | apply mapGet_set_eq].
  - unfold removeDisposableMempool. cbn. rewrite mapGet_set_eq. by destruct (isDisposable _).
Qed.

(** What the service does with a replacement whose cost exceeds what the
    account has left before that nonce: it reports success, and the replacement,
    the transaction it was to replace and all later ones of the sender are in
    neither the pool nor the database afterwards. *)
Theorem unpaid_replacement_lost p s i same tx n0 b0 :
  po_disposed p = false → storageHas p (tx_hash tx) = false → getSize p < pl_maxTransactionsInPool config →
  mapGet (po_mempools p) (tx_from tx) = Some s → unpaid n0 b0 s i same tx →
  ∃ p', addTransaction addressFromPublicKey config view tx p = (Ok tt, p') ∧
    getAllBySender (tx_from tx) p' = take i (sq_transactions s) ∧
    ∀ t, t ∈ tx :: drop i (sq_transactions s) → storageHas p' (tx_hash t) = false.
Proof.
  intros Hopen Hfresh Hsize Hk Hu. unfold addTransaction, whenOpen. erewrite M_bind_run by reflexivity. rewrite Hopen.
  erewrite M_bind_run by reflexivity. rewrite Hfresh. set (p1 := p <| po_storage ::= λ l, l ++ [rowOf view tx] |>).
  assert (storageAdd (rowOf view tx) p = (Ok tt, p1)) as Hrun
    by (unfold storageAdd; erewrite M_bind_run by reflexivity; cbn; by rewrite Hfresh).
  rewrite (M_bind_run _ _ _ _ _ Hrun). destruct (unpaid_mempoolAdd p1 s i same tx n0 b0 Hk Hu) as (p2 & Hadd & Hall & Hst).
  assert (addTransactionToMempool addressFromPublicKey config view tx p1 = (Ok tt, p2)) as Hmem.
  { unfold addTransactionToMempool. erewrite M_bind_run by reflexivity. change (getPoolSize p1) with (getSize p).
    rewrite (proj2 (Z.leb_gt _ _)) by done. erewrite M_bind_run by reflexivity. erewrite M_bind_run by reflexivity.
    change (getPoolSize p1) with (getSize p). rewrite (proj2 (Z.leb_gt _ _)) by done. by erewrite M_bind_run by reflexivity. }
  unfold tryCatch. rewrite (M_bind_run _ _ _ _ _ Hmem). eexists. split; [reflexivity |]. split; [exact Hall |].
  intros t Ht. eapply (storageHas_discarded _ (same :: tx :: drop (S i) (sq_transactions s))); [exact Hst |].
  rewrite (drop_S _ _ _ (up_same _ _ _ _ _ _ Hu)) in Ht. set_solver.
Qed.
End unpaid.
