(* ===== verification/PoolFront.v ===== *)
(** * packages/transaction-pool-service/source/processor.ts and the handlers of
    packages/transaction-pool-worker/source/handlers

    What arrives at the pool from outside: a list of serialized transactions is
    decoded, added and announced; and the calls with which the main process tells
    the pool's worker about the chain (start, commit, remove-transaction,
    get-transactions).  The handlers that only pass a peer's address or reload the
    webhooks are left out. *)
From S2P Require Import Prelude Bytes ByteBuffer Serializer Messages Blocks JsMap BlockchainUtils BlockProcessor Rlp Transactions.
From S2P Require Import SenderState Mempool PoolService PoolFacts PoolInvariant PoolTheorems.

(** ** processor.ts *)
Record ProcessorResult := mkProcessorResult {
  px_accept : list nat;
  px_broadcast : list nat;
  px_errors : option (list (nat * string));
  px_excess : list nat;
  px_invalid : list nat;
}.

(** The arrays of a call of [process], with the pool and what was handed to the
    broadcaster. *)
Record Front := mkFront {
  fr_pool : Pool;
  fr_accept : list nat;
  fr_broadcast : list nat;
  fr_invalid : list nat;
  fr_excess : list nat;
  fr_errors : option (list (nat * string));
  fr_broadcastTransactions : list Transaction;
  fr_announced : list (list Transaction);
}.
#[export] Instance eta_Front : Eta Front := λ s,
  mkFront (fr_pool s) (fr_accept s) (fr_broadcast s) (fr_invalid s) (fr_excess s) (fr_errors s)
    (fr_broadcastTransactions s) (fr_announced s).

Section processor.
Context `{LegacySignature} `{TransactionCodec} (addressFromPublicKey : string → string).
Context (config : PoolConfig) (view : ChainView).

Definition onPool {A} (m : M Pool A) : M Front A := λ s,
  let '(r, p) := m (fr_pool s) in (r, s <| fr_pool := p |>).

(** Any error of the factory becomes an [InvalidTransactionDataError]. *)
Definition getTransactionFromBuffer (transactionData : list byte) : result Transaction :=
  match txFromBytes transactionData with
  | Ok tx => Ok tx
  | Throw OutOfFuel => Throw OutOfFuel
  | Throw _ => Throw (PoolError "ERR_BAD_DATA")
  end.

Definition recordError (index : nat) (type : string) : M Front unit :=
  modify (λ s, s <| fr_errors := Some (default [] (fr_errors s) ++ [(index, type)]) |>).

Definition processOne (entry : nat * list byte) : M Front unit :=
  let '(index, transactionData) := entry in
  tryCatch
    (transaction ← liftR (getTransactionFromBuffer transactionData);
     onPool (addTransaction addressFromPublicKey config view transaction);;
     modify (λ s, s <| fr_accept ::= λ l, l ++ [index] |>
                    <| fr_broadcastTransactions ::= λ l, l ++ [transaction] |>
                    <| fr_broadcast ::= λ l, l ++ [index] |>))
    (λ error,
       modify (λ s, s <| fr_invalid ::= λ l, l ++ [index] |>);;
       match error with
       | PoolError type =>
           when (String.eqb type "ERR_EXCEEDS_MAX_COUNT") (modify (λ s, s <| fr_excess ::= λ l, l ++ [index] |>));;
           recordError index type
       | _ => throw error
       end).

(** The [finally]. *)
Definition announce (s : Front) : Front :=
  match fr_broadcastTransactions s with [] => s | txs => s <| fr_announced ::= λ l, l ++ [txs] |> end.

Definition entries (data : list (list byte)) : list (nat * list byte) := imap pair data.

Definition process (data : list (list byte)) : M Front ProcessorResult :=
  modify (λ s, mkFront (fr_pool s) [] [] [] [] None [] (fr_announced s));;
  tryFinally (forEach (entries data) processOne) announce;;
  s ← get;
  mret (mkProcessorResult (fr_accept s) (fr_broadcast s) (fr_errors s) (fr_excess s) (fr_invalid s)).
End processor.

(** ** The handlers of the worker

    [pw_background] counts the re-addings that a commit has started and not awaited
    and that have not run yet.  They hold or wait for the pool's lock: what is run
    under the lock later waits for them, what does not take the lock (reading a batch,
    removing a transaction) may come before them. *)
Record PoolWorker := mkPoolWorker {
  pw_blockNumber : Z;
  pw_selector : Selector;
  pw_pool : Pool;
  pw_background : nat;
}.
#[export] Instance eta_PoolWorker : Eta PoolWorker := λ s, mkPoolWorker (pw_blockNumber s) (pw_selector s) (pw_pool s) (pw_background s).

Section worker.
Context `{LegacySignature} `{TransactionCodec} (addressFromPublicKey : string → string).
Context (config : PoolConfig).

(** What the worker sees of the chain at a block number. *)
Context (viewAt : Z → ChainView).

Definition onWorkerPool {A} (m : ChainView → M Pool A) : M PoolWorker A := λ s,
  let '(r, p) := m (viewAt (pw_blockNumber s)) (pw_pool s) in (r, s <| pw_pool := p |>).








End worker.

(** ** Submissions *)
Section submissions.
Context `{LegacySignature} `{TransactionCodec} (addressFromPublicKey : string → string).
Context (config : PoolConfig) (view : ChainView).
Context (Hview : viewOk view) (Hmax : 0 ≤ pl_maxTransactionsInPool config) (Hage : 0 < pl_maxTransactionAge config).

(** What the pool needs of the factory: a transaction it makes is well-formed, and
    it ends. *)
Context (Hwf : ∀ bytes tx, txFromBytes bytes = Ok tx → wfTx addressFromPublicKey tx).
Context (Hends : ∀ bytes, txFromBytes bytes ≠ Throw OutOfFuel).

(** What one submission does to the pool: the bytes decode and the pool takes the
    transaction, or there is an error. *)
Definition decoded (bytes : list byte) : result Transaction :=
  match txFromBytes bytes with Ok tx => Ok tx | Throw _ => Throw (PoolError "ERR_BAD_DATA") end.
Definition submit (bytes : list byte) : M Pool Transaction :=
  tx ← liftR (decoded bytes);
  addTransaction addressFromPublicKey config view tx;;
  mret tx.

(** One after the other, whatever became of those before. *)
Fixpoint submitAll (data : list (list byte)) (p : Pool) : list (result Transaction) * Pool :=
  match data with
  | [] => ([], p)
  | bytes :: rest =>
      let '(o, p1) := submit bytes p in
      let '(os, p2) := submitAll rest p1 in (o :: os, p2)
  end.

Definition acceptedAt (e : nat * result Transaction) : option nat :=
  match e.2 with Ok _ => Some e.1 | Throw _ => None end.
Definition refusedAt (e : nat * result Transaction) : option (nat * string) :=
  match e.2 with Throw (PoolError type) => Some (e.1, type) | _ => None end.
Definition takenOf (o : result Transaction) : option Transaction := match o with Ok tx => Some tx | Throw _ => None end.
Definition settledOutcome (o : result Transaction) : Prop := match o with Ok _ => True | Throw e => ∃ type, e = PoolError type end.

(** After as many entries as there are [outcomes]. *)
Record processed (announced : list (list Transaction)) (outcomes : list (result Transaction)) (s : Front) : Prop := {
  pd_pool : consistent addressFromPublicKey config (fr_pool s);
  pd_settled : Forall settledOutcome outcomes;
  pd_accept : fr_accept s = omap acceptedAt (imap pair outcomes);
  pd_errors : default [] (fr_errors s) = omap refusedAt (imap pair outcomes);
  pd_invalid : fr_invalid s = (default [] (fr_errors s)).*1;
  pd_broadcast : fr_broadcast s = fr_accept s;
  pd_transactions : fr_broadcastTransactions s = omap takenOf outcomes;
  pd_noErrors : fr_errors s = None ↔ fr_invalid s = [];
  pd_excess : fr_excess s = (filter (λ e, e.2 = "ERR_EXCEEDS_MAX_COUNT"%string) (default [] (fr_errors s))).*1;
  pd_announced : fr_announced s = announced;
}.

Lemma getTransactionFromBuffer_decoded bytes : getTransactionFromBuffer bytes = decoded bytes.
Proof. unfold getTransactionFromBuffer, decoded. pose proof (Hends bytes). by destruct (txFromBytes bytes) as [|[]]. Qed.

Lemma submit_spec bytes p : consistent addressFromPublicKey config p →
  consistent addressFromPublicKey config (submit bytes p).2 ∧ settledOutcome (submit bytes p).1.
Proof.
  intros Hc. unfold submit, mbind, M_bind, liftR, mret, M_ret. unfold decoded. destruct (txFromBytes bytes) as [tx|e] eqn:Htx.
  2:{ split; [done | by eexists]. }
  pose proof (addTransaction_spec addressFromPublicKey config view Hview Hmax Hage tx p Hc (Hwf _ _ Htx)) as Hadd.
  destruct (addTransaction _ _ _ tx p) as [[[]|e] p1]; [done |]. destruct Hadd as (? & type & ->). split; [done | by eexists].
Qed.

Lemma filter_snoc {A} (P : A → Prop) `{!∀ x, Decision (P x)} (l : list A) x :
  filter P (l ++ [x]) = filter P l ++ if decide (P x) then [x] else [].
Proof. rewrite filter_app, filter_cons, filter_nil. by case_decide. Qed.

Lemma omap_snoc {A B} (f : A → option B) l x :
  omap f (l ++ [x]) = omap f l ++ match f x with Some y => [y] | None => [] end.
Proof. rewrite omap_app. cbn. by destruct (f x). Qed.

Lemma imap_pair_snoc {A} (l : list A) x : imap pair (l ++ [x]) = imap pair l ++ [(length l, x)].
Proof. rewrite imap_app. cbn. by rewrite Nat.add_0_r. Qed.

(** Every index is accepted or refused. *)
Lemma outcomes_partition outcomes : Forall settledOutcome outcomes →
  omap acceptedAt (imap pair outcomes) ++ (omap refusedAt (imap pair outcomes)).*1 ≡ₚ seq 0 (length outcomes).
Proof.
  induction outcomes as [|o outcomes IH] using rev_ind; [done |]. intros [Hall Ho]%Forall_app.
  rewrite imap_pair_snoc, !omap_snoc, fmap_app, length_app, Nat.add_1_r, seq_S, <- (IH Hall). rewrite Forall_singleton in Ho.
  destruct o as [tx|e]; cbn in Ho |- *; [| destruct Ho as [type ->]; cbn].
  - rewrite app_nil_r, <- !app_assoc. apply Permutation_app_head, Permutation_app_comm.
  - by rewrite app_nil_r, app_assoc.
Qed.

(** An entry is processed as it is submitted; a pool error is recorded at its index. *)
Lemma processOne_spec announced outcomes s bytes :
  processed announced outcomes s →
  ∃ s', processOne addressFromPublicKey config view (length outcomes, bytes) s = (Ok tt, s') ∧
    fr_pool s' = (submit bytes (fr_pool s)).2 ∧ processed announced (outcomes ++ [(submit bytes (fr_pool s)).1]) s'.
Proof.
  intros Hs. destruct (submit_spec bytes (fr_pool s) (pd_pool _ _ _ Hs)) as [Hpool Hset].
  assert (Hreject : ∀ type, (submit bytes (fr_pool s)).1 = Throw (PoolError type) →
    ∃ s', (modify (λ s, s <| fr_invalid ::= λ l, l ++ [length outcomes] |>);;
           when (String.eqb type "ERR_EXCEEDS_MAX_COUNT") (modify (λ s, s <| fr_excess ::= λ l, l ++ [length outcomes] |>));;
           recordError (length outcomes) type) (s <| fr_pool := (submit bytes (fr_pool s)).2 |>) = (Ok tt, s') ∧
      fr_pool s' = (submit bytes (fr_pool s)).2 ∧ processed announced (outcomes ++ [(submit bytes (fr_pool s)).1]) s').
  { intros type Ho. rewrite Ho in *. destruct Hs as [_ Hall Hacc Herr Hinv Hb Htx Hno Hex Han].
    unfold recordError, modify, when, mbind, M_bind, mret, M_ret. destruct (String.eqb_spec type "ERR_EXCEEDS_MAX_COUNT") as [->|Hne]; cbn.
    all: (eexists; split; [reflexivity |]; split; [done |]).
    all: split; cbn; rewrite ?imap_pair_snoc, ?omap_snoc; cbn; rewrite ?app_nil_r, ?fmap_app, ?Herr, ?Hinv, ?Herr; try done.
    all: try (apply Forall_app; split; [done | apply Forall_singleton; by eexists]).
    all: try (split; [done | by intros [_ ?]%app_nil]).
    all: rewrite filter_snoc, fmap_app, Hex, Herr; cbn.
    - by rewrite decide_True.
    - by rewrite decide_False, app_nil_r. }
  revert Hset Hpool Hreject. unfold processOne, tryCatch, submit, mbind, M_bind, liftR, onPool, mret, M_ret.
  rewrite getTransactionFromBuffer_decoded. destruct (decoded bytes) as [tx|e] eqn:Ht; cbn [fst snd].
  2:{ intros [type ->] _ Hreject. destruct (Hreject type eq_refl) as (s' & Hrun & Hs'). exists s'. split; [| exact Hs'].
      rewrite <- Hrun. by destruct s. }
  destruct (addTransaction _ _ _ tx (fr_pool s)) as [[[]|e] p]; cbn [fst snd].
  - intros _ Hpool _. eexists. split; [reflexivity |]. split; [done |]. destruct Hs as [_ Hall Hacc Herr Hinv Hb Htx Hno Hex Han].
    split; cbn; rewrite ?imap_pair_snoc, ?omap_snoc; cbn; rewrite ?app_nil_r, ?Hb, ?Hacc, ?Htx; try done.
    apply Forall_app. split; [done | by apply Forall_singleton].
  - intros [type ->] _ Hreject. destruct (Hreject type eq_refl) as (s' & Hrun & Hs'). by exists s'.
Qed.

Lemma processAll_spec announced data : ∀ outcomes s,
  processed announced outcomes s →
  ∃ s', forEach (imap (λ i bytes, (length outcomes + i, bytes)%nat) data) (processOne addressFromPublicKey config view) s = (Ok tt, s') ∧
    fr_pool s' = (submitAll data (fr_pool s)).2 ∧ processed announced (outcomes ++ (submitAll data (fr_pool s)).1) s'.
Proof.
  induction data as [|bytes data IH]; intros outcomes s Hs; [exists s; by rewrite app_nil_r |].
  destruct (processOne_spec announced outcomes s bytes Hs) as (s1 & Hrun & Hp1 & Hs1).
  destruct (IH _ _ Hs1) as (s2 & Hrun2 & Hp2 & Hs2). exists s2. cbn [submitAll]. rewrite Hp1 in Hp2, Hs2.
  destruct (submit bytes (fr_pool s)) as [o p1]. cbn [fst snd] in *. destruct (submitAll data p1) as [os p2]. cbn [fst snd] in *.
  rewrite <- app_assoc in Hs2. split; [| by split]. rewrite imap_cons, Nat.add_0_r. cbn [forEach]. rewrite (M_bind_run _ _ _ _ _ Hrun), <- Hrun2.
  f_equal. apply imap_ext. intros i x _. cbn. f_equal. rewrite length_app. cbn. lia.
Qed.

Lemma submitAll_length data p : length (submitAll data p).1 = length data.
Proof. revert p. induction data as [|bytes data IH]; intros p; [done |]. cbn. destruct (submit _ _) as [o p1]. specialize (IH p1). destruct (submitAll data p1). cbn in *. by rewrite IH. Qed.

(** C33. Whatever bytes are submitted, [process] returns, and does to the pool what
    the submissions do one after the other: an index is accepted exactly if its bytes
    decode and the pool takes the transaction; any other is invalid with the error of
    the factory or of the pool, so each index is one or the other; those over the
    sender's limit are the excess; the transactions taken, and no others, are announced
    together, in order; and the pool stays consistent with its database. *)
Theorem submissions_processed data s :
  consistent addressFromPublicKey config (fr_pool s) →
  let outcomes := (submitAll data (fr_pool s)).1 in
  ∃ result s', process addressFromPublicKey config view data s = (Ok result, s') ∧
    fr_pool s' = (submitAll data (fr_pool s)).2 ∧ consistent addressFromPublicKey config (fr_pool s') ∧
    length outcomes = length data ∧ Forall settledOutcome outcomes ∧
    px_accept result = omap acceptedAt (imap pair outcomes) ∧ px_broadcast result = px_accept result ∧
    default [] (px_errors result) = omap refusedAt (imap pair outcomes) ∧
    px_invalid result = (default [] (px_errors result)).*1 ∧ (px_errors result = None ↔ px_invalid result = []) ∧
    px_accept result ++ px_invalid result ≡ₚ seq 0 (length data) ∧
    px_excess result = (filter (λ e, e.2 = "ERR_EXCEEDS_MAX_COUNT"%string) (default [] (px_errors result))).*1 ∧
    fr_announced s' = fr_announced s ++ match omap takenOf outcomes with [] => [] | txs => [txs] end.
Proof.
  intros Hc outcomes. unfold process. erewrite M_bind_run by reflexivity.
  set (s0 := mkFront (fr_pool s) [] [] [] [] None [] (fr_announced s)).
  destruct (processAll_spec (fr_announced s) data [] s0) as (s1 & Hrun & Hp1 & Hs1); [by split |].
  change (fr_pool s0) with (fr_pool s) in *. rewrite app_nil_l in Hs1. fold outcomes in Hs1.
  assert (Hpart := outcomes_partition outcomes (pd_settled _ _ _ Hs1)). assert (Hlen : length outcomes = length data) by apply submitAll_length.
  change (imap (λ i bytes, (length [] + i, bytes)%nat) data) with (entries data) in Hrun.
  unfold tryFinally, mbind, M_bind. rewrite Hrun. destruct Hs1 as [Hpool Hall Hacc Herr Hinv Hb Htx Hno Hex Han].
  do 2 eexists. split; [reflexivity |].
  assert (Hann : ∃ l, announce s1 = s1 <| fr_announced := l |> ∧
    l = fr_announced s1 ++ match fr_broadcastTransactions s1 with [] => [] | _ => [fr_broadcastTransactions s1] end).
  { unfold announce. destruct (fr_broadcastTransactions s1); eexists; (split; [| done]); [| done]. rewrite app_nil_r. by destruct s1. }
  destruct Hann as (l & -> & ->). cbn. rewrite Han, Htx. split_and!; try done.
  - by rewrite Hacc, Hinv, Herr, <- Hlen.
  - f_equal. by destruct (omap takenOf outcomes).
Qed.
End submissions.

(** ** The factory keeps its promise *)
Section factory.
Context `{LegacySignature} `{Viem} `{ViemRlp} `{HashFactory} `{WalletCrypto}.
Context (isAddress isPublicKey isAlphanumeric : string → bool) (rules : TransactionRules).
Context (Hprice : 0 ≤ tr_minimumGasPrice rules) (Hlimit : 0 ≤ tr_minimumGasLimit rules).
#[local] Instance factoryCodec : TransactionCodec := transactionCodec isAddress isPublicKey isAlphanumeric rules.

Definition addressOf (key : string) : string := match Transactions.addressFromPublicKey key with Ok a => a | Throw _ => "" end.

Lemma orInvalidBytes_ends {A} (r : result A) : orInvalidBytes r ≠ Throw OutOfFuel.
Proof. by destruct r. Qed.

Lemma factory_ends bytes : txFromBytes bytes ≠ Throw OutOfFuel.
Proof.
  cbn. unfold transactionFromBytes. destruct (orInvalidBytes (deserializeTransaction bytes)) as [t|e] eqn:Ht; cbn.
  2:{ intros [= ->]. by apply orInvalidBytes_ends in Ht. }
  destruct (orInvalidBytes (computeCryptoData t)) as [[[[from hash] legacy] key]|e] eqn:Hc; cbn.
  2:{ intros [= ->]. by apply orInvalidBytes_ends in Hc. }
  by destruct (transactionStrictValid _ _ _ _ _).
Qed.

Lemma factory_wf bytes tx : txFromBytes bytes = Ok tx → wfTx addressOf tx.
Proof.
  intros Htx. assert (Hrun := Htx). cbn in Hrun. unfold transactionFromBytes in Hrun.
  apply bind_Ok in Hrun as (t & _ & Hrun). apply bind_Ok in Hrun as ([[[from hash] legacy] key] & Hc & Hrun). cbv zeta in Hrun.
  destruct (transactionStrictValid _ _ _ _ _) eqn:Hv; [| done]. injection Hrun as <-. split_and!; [| | done].
  - unfold transactionStrictValid in Hv. simpl_bool. unfold cost, calculateFee, transactionGasPrice, transactionGasLimit in *. cbn in *.
    assert (0 ≤ ts_gasLimit t) by (destruct (Z.ltb_spec (ts_gasLimit t) (tr_minimumGasLimit rules)); [done | lia]).
    assert (0 ≤ ts_gasPrice t).
    { destruct (Z.ltb_spec (ts_gasPrice t) (tr_minimumGasPrice rules)); [| lia]. destruct (Z.eqb_spec (ts_gasPrice t) 0); [lia | done]. }
    nia.
  - cbn. unfold orInvalidBytes in Hc. destruct (computeCryptoData t) as [x|] eqn:Hcd; [| done]. injection Hc as ->.
    unfold computeCryptoData in Hcd. repeat (apply bind_Ok in Hcd as (? & ? & Hcd)).
    injection Hcd as -> _ _ ->. unfold addressOf. by match goal with Ha : Transactions.addressFromPublicKey key = Ok _ |- _ => rewrite Ha end.
Qed.
End factory.

(** ** The life of the worker *)
Section workerLife.
Context `{LegacySignature} `{TransactionCodec} (addressFromPublicKey : string → string) (config : PoolConfig) (viewAt : Z → ChainView).
Context (Hview : ∀ n, viewOk (viewAt n)) (Hmax : 0 ≤ pl_maxTransactionsInPool config) (Hage : 0 < pl_maxTransactionAge config).





Lemma onWorkerPool_run op s :
  run_in (onWorkerPool viewAt (λ view, runPoolOp addressFromPublicKey config view op)) s =
  s <| pw_pool := run_in (runPoolOp addressFromPublicKey config (viewAt (pw_blockNumber s)) op) (pw_pool s) |>.
Proof. unfold run_in, onWorkerPool. by destruct (runPoolOp _ _ _ op (pw_pool s)) as [r p]. Qed.

Lemma onWorkerPool_ok op s :
  opOk addressFromPublicKey op → consistent addressFromPublicKey config (pw_pool s) →
  consistent addressFromPublicKey config (pw_pool (run_in (onWorkerPool viewAt (λ view, runPoolOp addressFromPublicKey config view op)) s)).
Proof. intros Hop Hc. rewrite onWorkerPool_run. by apply runPoolOp_spec. Qed.














End workerLife.
