(* ===== verification/ApiSync.v ===== *)
(** * packages/api-sync/source/service.ts: the database behind the API

    For each committed block the service computes what it means for the tables of the
    API's database ([onCommit]) and pushes a job to its queue; the job writes it in
    one database transaction ([syncToDatabase]) and tries again when that fails.
    PostgreSQL is modelled by its tables and the statements the code sends; a
    transaction takes effect as a whole or not at all; addresses come in one spelling,
    so that their columns may ignore case.  The tables of tokens and of
    multi-payments with the parsers of receipts, the decoding of errors and logs, and
    the ranks of validators, which a function of the database computes, are left out. *)
From S2P Require Import Prelude Bytes Serializer Messages Blocks Commits JsMap Configuration RoundCalculator BlockchainUtils ValidatorSet Queue.
#[local] Open Scope Z_scope.

(** ** What the EVM reports of a block *)
Record AccountMergeInfo := mkAccountMergeInfo { am_address : string; am_txHash : string }.
Record AccountUpdate := mkAccountUpdate {
  au_address : string;
  au_balance : Z;
  au_nonce : Z;
  au_vote : option string;
  au_unvote : option string;
  au_username : option string;
  au_usernameResigned : bool;
  au_legacyMergeInfo : option AccountMergeInfo;
}.
Record ApiReceipt := mkApiReceipt {
  ar_status : Z;
  ar_gasUsed : Z;
  ar_gasRefunded : Z;
  ar_cumulativeGasUsed : Z;
  ar_contractAddress : option string;
  ar_output : option (list byte);
}.

(** A committed unit, with what the services it is asked of know of it. *)
Record CommitUnit := mkCommitUnit {
  un_blockNumber : Z;
  un_commit : Commit;
  un_receipts : option (JsMap string ApiReceipt);
  un_accountUpdates : list AccountUpdate;
  un_validatorSet : ValidatorSet;
  un_roundValidators : Z;
  un_totalRound : Z;
}.

(** ** Rows *)
Record ApiBlock := mkApiBlock {
  ab_hash : string;
  ab_number : Z;
  ab_parentHash : string;
  ab_timestamp : Z;
  ab_proposer : string;
  ab_round : Z;
  ab_commitRound : Z;
  ab_validatorRound : Z;
  ab_validatorSet : Z;
  ab_signature : string;
  ab_fee : Z;
  ab_reward : Z;
  ab_gasUsed : Z;
  ab_payloadSize : Z;
  ab_stateRoot : string;
  ab_transactionsCount : Z;
  ab_transactionsRoot : string;
  ab_version : Z;
}.

Record ApiTransaction := mkApiTransaction {
  at_hash : string;
  at_blockHash : string;
  at_blockNumber : Z;
  at_transactionIndex : Z;
  at_timestamp : Z;
  at_from : string;
  at_to : option string;
  at_senderPublicKey : string;
  at_nonce : Z;
  at_value : Z;
  at_gas : Z;
  at_gasPrice : Z;
  at_data : string;
  at_legacySecondSignature : option string;
  at_signature : string;
  at_receipt : ApiReceipt;
}.

Record ApiValidatorRound := mkApiValidatorRound { vr_info : RoundInfo; vr_validators : list string; vr_votes : list Z }.

(** A value of a [jsonb] column that is kept: an object or number by its text, or a string. *)
Inductive Json := JsonNative (text : string) | JsonString (text : string).
(** [->>] gives the text, from which [jsonb_build_object] makes a string. *)
Definition asText (j : Json) : Json := match j with JsonNative text | JsonString text => JsonString text end.

Record LastBlock := mkLastBlock { lb_hash : string; lb_number : Z; lb_timestamp : Z }.

(** The attributes of a wallet; a missing one is null. *)
Record Attributes := mkAttributes {
  wa_isLegacy : option bool;
  wa_secondPublicKey : option string;
  wa_multiSignature : option Json;
  wa_legacyMerge : option Json;
  wa_legacyNonce : option Json;
  wa_vote : option string;
  wa_unvote : option string;
  wa_username : option string;
  wa_usernameResigned : option bool;
  wa_validatorPublicKey : option string;
  wa_validatorResigned : option bool;
  wa_validatorVoteBalance : option Z;
  wa_validatorVotersCount : option Z;
  wa_validatorFee : option Z;
  wa_validatorLastBlock : option LastBlock;
  wa_validatorForgedFees : option Z;
  wa_validatorForgedRewards : option Z;
  wa_validatorForgedTotal : option Z;
  wa_validatorProducedBlocks : option Z;
}.
Definition noAttributes : Attributes :=
  mkAttributes None None None None None None None None None None None None None None None None None None None.

Record Wallet := mkWallet {
  wl_publicKey : option string;
  wl_balance : Z;
  wl_nonce : Z;
  wl_attributes : Attributes;
  wl_updatedAt : Z;
}.
Definition WalletEntry : Type := string * Wallet.

Record MergedWallet := mkMergedWallet { mw_address : string; mw_legacyAddress : string; mw_txHash : string }.

Record DeferredSync := mkDeferredSync {
  ds_block : ApiBlock;
  ds_transactions : list ApiTransaction;
  ds_validatorRound : option ApiValidatorRound;
  ds_wallets : list WalletEntry;
  ds_mergedLegacyColdWallets : list MergedWallet;
  ds_newMilestones : option Milestone;
}.

(** The tables; the state and the configuration have one row. *)
Record Database := mkDatabase {
  db_blocks : list ApiBlock;
  db_state : option (Z * Z);
  db_transactions : list ApiTransaction;
  db_validatorRounds : list ApiValidatorRound;
  db_configuration : option (string * option Milestone);
  db_legacyColdWallets : gmap string (option (string * string));
  db_wallets : gmap string Wallet;
}.
#[export] Instance eta_Database : Eta Database := λ s,
  mkDatabase (db_blocks s) (db_state s) (db_transactions s) (db_validatorRounds s) (db_configuration s) (db_legacyColdWallets s) (db_wallets s).

(** ** onCommit *)

(** An empty string is falsy. *)
Definition truthyText (s : option string) : option string := match s with Some "" => None | _ => s end.

(** [v] is a byte. *)
Definition formatEcdsaSignature (r s : string) (v : Z) : string := r +:+ s +:+ hexEncode (be_encode 1 v).

(** An array as an object by address: a later element takes the place of an earlier one. *)
Definition byAddress {A} (address : A → string) (l : list A) : JsMap string A := foldl (λ m x, mapSet m (address x) x) [] l.

(** [[...new Set(l)]] *)
Definition distinct (l : list string) : list string := mapKeys (foldl (λ m x, mapSet m x tt) [] l).

Section onCommit.
(** The address of a public key, the EVM's account of an address, and the genesis block. *)
Context (addressFromPublicKey : string → result string) (getAccountInfo : string → result (Z * Z)).
Context (genesisNumber : Z) (genesisProposer : string).
(** PostgreSQL's text of the object that describes a merge. *)
Context (mergeText : AccountMergeInfo → string).

(** The address of each sender, computed once per key; only addresses to keys is read later. *)
Fixpoint senderKeys (l : list BlockTransaction) (publicKeyToAddress addressToPublicKey : JsMap string string) : result (JsMap string string) :=
  match l with
  | [] => Ok addressToPublicKey
  | t :: l' =>
      let key := tx_senderPublicKey (bt_transaction t) in
      match truthyText (mapGet publicKeyToAddress key) with
      | Some _ => senderKeys l' publicKeyToAddress addressToPublicKey
      | None =>
          address ← addressFromPublicKey key;
          senderKeys l' (mapSet publicKeyToAddress key address) (mapSet addressToPublicKey address key)
      end
  end.

Definition transactionRow (header : BlockHeader) (receipts : option (JsMap string ApiReceipt)) (t : BlockTransaction) : result ApiTransaction :=
  let tx := bt_transaction t in
  receipt ← assert_defined (match receipts with Some m => mapGet m (tx_hash tx) | None => None end);
  Ok {|
    at_hash := tx_hash tx;
    at_blockHash := bh_hash header;
    at_blockNumber := bh_number (bh_raw header);
    at_transactionIndex := bt_transactionIndex t;
    at_timestamp := bh_timestamp (bh_raw header);
    at_from := tx_from tx;
    at_to := tx_to tx;
    at_senderPublicKey := tx_senderPublicKey tx;
    at_nonce := tx_nonce tx;
    at_value := tx_value tx;
    at_gas := tx_gasLimit tx;
    at_gasPrice := tx_gasPrice tx;
    at_data := tx_data tx;
    at_legacySecondSignature := tx_legacySecondSignature tx;
    at_signature := formatEcdsaSignature (tx_r tx) (tx_s tx) (tx_v tx);
    at_receipt := receipt;
  |}.

(** The proposer of the genesis block gets its wallet with the first block after it. *)
Definition withGenesisAccount (blockNumber : Z) (updates : JsMap string AccountUpdate) : result (JsMap string AccountUpdate) :=
  if (blockNumber - 1 =? genesisNumber) && negb (mapHas updates genesisProposer) then
    account ← getAccountInfo genesisProposer;
    Ok (mapSet updates genesisProposer (mkAccountUpdate genesisProposer account.1 account.2 None None None false None))
  else Ok updates.

Definition validatorAttributes (header : BlockHeader) (dirtyValidators : JsMap string ValidatorWallet) (address : string) : Attributes :=
  let raw := bh_raw header in
  let dirty := mapGet dirtyValidators address in
  let forged {A} (x : A) := if String.eqb (bh_proposer raw) address then Some x else None in
  {| wa_isLegacy := None; wa_secondPublicKey := None; wa_multiSignature := None; wa_legacyMerge := None; wa_legacyNonce := None;
     wa_vote := None; wa_unvote := None; wa_username := None; wa_usernameResigned := None;
     wa_validatorPublicKey := vw_blsPublicKey <$> dirty;
     wa_validatorResigned := vw_isResigned <$> dirty;
     wa_validatorVoteBalance := vw_voteBalance <$> dirty;
     wa_validatorVotersCount := vw_votersCount <$> dirty;
     wa_validatorFee := vw_fee <$> dirty;
     wa_validatorLastBlock := forged (mkLastBlock (bh_hash header) (bh_number raw) (bh_timestamp raw));
     wa_validatorForgedFees := forged (bh_fee raw);
     wa_validatorForgedRewards := forged (bh_reward raw);
     wa_validatorForgedTotal := forged (bh_fee raw + bh_reward raw);
     wa_validatorProducedBlocks := forged 1 |}.

(** The attributes of an account, over those of a validator. *)
Definition accountAttributes (account : AccountUpdate) (v : Attributes) : Attributes :=
  let unvote := truthyText (au_unvote account) in
  {| wa_isLegacy := wa_isLegacy v; wa_secondPublicKey := wa_secondPublicKey v; wa_multiSignature := wa_multiSignature v;
     wa_legacyMerge := match au_legacyMergeInfo account with Some info => Some (JsonNative (mergeText info)) | None => wa_legacyMerge v end;
     wa_legacyNonce := wa_legacyNonce v;
     wa_vote := match unvote with Some _ => wa_vote v | None => truthyText (au_vote account) end;
     wa_unvote := unvote;
     wa_username := if au_usernameResigned account then wa_username v else truthyText (au_username account);
     wa_usernameResigned := if au_usernameResigned account then Some true else wa_usernameResigned v;
     wa_validatorPublicKey := wa_validatorPublicKey v; wa_validatorResigned := wa_validatorResigned v;
     wa_validatorVoteBalance := wa_validatorVoteBalance v; wa_validatorVotersCount := wa_validatorVotersCount v;
     wa_validatorFee := wa_validatorFee v; wa_validatorLastBlock := wa_validatorLastBlock v;
     wa_validatorForgedFees := wa_validatorForgedFees v; wa_validatorForgedRewards := wa_validatorForgedRewards v;
     wa_validatorForgedTotal := wa_validatorForgedTotal v; wa_validatorProducedBlocks := wa_validatorProducedBlocks v |}.

Definition accountEntry (header : BlockHeader) (dirtyValidators : JsMap string ValidatorWallet) (keys : JsMap string string)
    (account : AccountUpdate) : WalletEntry :=
  (au_address account,
   mkWallet (mapGet keys (au_address account)) (au_balance account) (au_nonce account)
     (accountAttributes account (validatorAttributes header dirtyValidators (au_address account))) (bh_number (bh_raw header))).

(** A validator without an account update: [-1] leaves balance and nonce as they are. *)
Definition validatorEntry (header : BlockHeader) (dirtyValidators : JsMap string ValidatorWallet) (keys : JsMap string string)
    (address : string) : WalletEntry :=
  (address, mkWallet (mapGet keys address) (-1) (-1) (validatorAttributes header dirtyValidators address) (bh_number (bh_raw header))).

Definition walletEntries (header : BlockHeader) (dirtyValidators : JsMap string ValidatorWallet) (keys : JsMap string string)
    (updates : JsMap string AccountUpdate) : list WalletEntry :=
  (accountEntry header dirtyValidators keys <$> mapValues updates) ++
  (validatorEntry header dirtyValidators keys <$>
    filter (λ a, mapGet updates a = None) (distinct (bh_proposer (bh_raw header) :: (vw_address <$> mapValues dirtyValidators)))).

Definition mergedWallets (updates : JsMap string AccountUpdate) : list MergedWallet :=
  omap (λ u, (λ info, mkMergedWallet (au_address u) (am_address info) (am_txHash info)) <$> au_legacyMergeInfo u) (mapValues updates).

(** In the order of their proposals. *)
Definition createValidatorRound (u : CommitUnit) (number : Z) : M Configuration ApiValidatorRound :=
  roundValidators ← liftR (getRoundValidators (un_roundValidators u) (un_validatorSet u));
  validatorWallets ← liftR (mapM (λ index,
    assert_defined (roundValidators !! Z.to_nat (getValidatorIndexFrom (un_roundValidators u) (un_totalRound u) (Z.of_nat index))))
    (seq 0 (length roundValidators)));
  info ← calculateRound number;
  mret (mkApiValidatorRound info (vw_address <$> validatorWallets) (vw_voteBalance <$> validatorWallets)).

Definition blockRow (header : BlockHeader) (proof : CommitProof) (validatorRound : Z) : ApiBlock :=
  let raw := bh_raw header in {|
    ab_hash := bh_hash header;
    ab_number := bh_number raw;
    ab_parentHash := bh_parentHash raw;
    ab_timestamp := bh_timestamp raw;
    ab_proposer := bh_proposer raw;
    ab_round := bh_round raw;
    ab_commitRound := cp_round proof;
    ab_validatorRound := validatorRound;
    ab_validatorSet := validatorSetPack (cp_validators proof);
    ab_signature := cp_signature proof;
    ab_fee := bh_fee raw;
    ab_reward := bh_reward raw;
    ab_gasUsed := bh_gasUsed raw;
    ab_payloadSize := bh_payloadSize raw;
    ab_stateRoot := bh_stateRoot raw;
    ab_transactionsCount := bh_transactionsCount raw;
    ab_transactionsRoot := bh_transactionsRoot raw;
    ab_version := bh_version raw;
  |}.

Definition onCommit (u : CommitUnit) : M Configuration DeferredSync :=
  let block := c_block (un_commit u) in
  let header := b_header block in
  let number := bh_number (bh_raw header) in
  keys ← liftR (senderKeys (b_transactions block) [] []);
  transactions ← liftR (mapM (transactionRow header (un_receipts u)) (b_transactions block));
  let dirtyValidators := byAddress vw_address (getDirtyValidators (un_validatorSet u)) in
  updates ← liftR (withGenesisAccount (un_blockNumber u) (byAddress au_address (un_accountUpdates u)));
  info ← calculateRound number;
  newRound ← isNewRound (number + 1);
  validatorRound ← (if (newRound : bool) then r ← createValidatorRound u (number + 1); mret (Some r) else mret None);
  newMilestone ← isNewMilestone (Some (number + 1));
  newMilestones ← (if (newMilestone : bool) then m ← getMilestone (Some (number + 1)); mret (Some m) else mret None);
  mret {|
    ds_block := blockRow header (c_proof (un_commit u)) (ri_round info);
    ds_transactions := transactions;
    ds_validatorRound := validatorRound;
    ds_wallets := walletEntries header dirtyValidators keys updates;
    ds_mergedLegacyColdWallets := mergedWallets updates;
    ds_newMilestones := newMilestones;
  |}.
End onCommit.

(** ** syncToDatabase *)

(** [insert().orIgnore()]: a row that conflicts with a unique column is left out. *)
Definition blocksConflict (a b : ApiBlock) : bool :=
  String.eqb (ab_hash a) (ab_hash b) || (ab_number a =? ab_number b) || (ab_timestamp a =? ab_timestamp b) ||
  String.eqb (ab_parentHash a) (ab_parentHash b).
Definition transactionsConflict (a b : ApiTransaction) : bool := String.eqb (at_hash a) (at_hash b).
Definition roundsConflict (a b : ApiValidatorRound) : bool :=
  (ri_round (vr_info a) =? ri_round (vr_info b)) || (ri_roundHeight (vr_info a) =? ri_roundHeight (vr_info b)).
Definition insertOrIgnore {A} (conflict : A → A → bool) (row : A) (table : list A) : list A :=
  if existsb (conflict row) table then table else table ++ [row].

Definition insertRows {A} (conflict : A → A → bool) (rows table : list A) : list A := foldl (λ t row, insertOrIgnore conflict row t) table rows.

(** The supply is written only on top of the block before. *)
Definition updateState (block : ApiBlock) (state : option (Z * Z)) : option (Z * Z) :=
  match state with
  | Some (blockNumber, supply) => Some (if blockNumber =? ab_number block - 1 then (ab_number block, supply + ab_reward block) else (blockNumber, supply))
  | None => None
  end.

(** [COALESCE] *)
Definition coalesce {A} (a b : option A) : option A := match a with Some _ => a | None => b end.
(** [NULLIF(COALESCE(old, 0) + COALESCE(new, 0), 0)] *)
Definition addUp (old new : option Z) : option Z :=
  let total := default 0 old + default 0 new in if total =? 0 then None else Some total.

Definition upsertAttributes (old new : Attributes) : Attributes :=
  {| wa_isLegacy := wa_isLegacy old;
     wa_secondPublicKey := wa_secondPublicKey old;
     wa_multiSignature := asText <$> wa_multiSignature old;
     wa_legacyMerge := asText <$> wa_legacyMerge old;
     wa_legacyNonce := asText <$> wa_legacyNonce old;
     wa_vote := match wa_unvote new with Some _ => None | None => coalesce (wa_vote new) (wa_vote old) end;
     wa_unvote := None;
     wa_username := if bool_decide (wa_usernameResigned new = Some true) then None else coalesce (wa_username new) (wa_username old);
     wa_usernameResigned := None;
     wa_validatorPublicKey := coalesce (wa_validatorPublicKey new) (wa_validatorPublicKey old);
     wa_validatorResigned := coalesce (wa_validatorResigned new) (wa_validatorResigned old);
     wa_validatorVoteBalance := coalesce (wa_validatorVoteBalance new) (wa_validatorVoteBalance old);
     wa_validatorVotersCount := coalesce (wa_validatorVotersCount new) (wa_validatorVotersCount old);
     wa_validatorFee := coalesce (wa_validatorFee new) (wa_validatorFee old);
     wa_validatorLastBlock := coalesce (wa_validatorLastBlock new) (wa_validatorLastBlock old);
     wa_validatorForgedFees := addUp (wa_validatorForgedFees old) (wa_validatorForgedFees new);
     wa_validatorForgedRewards := addUp (wa_validatorForgedRewards old) (wa_validatorForgedRewards new);
     wa_validatorForgedTotal := addUp (wa_validatorForgedTotal old) (wa_validatorForgedTotal new);
     wa_validatorProducedBlocks := addUp (wa_validatorProducedBlocks old) (wa_validatorProducedBlocks new) |}.

Definition unlessMinusOne (new old : Z) : Z := if new =? -1 then old else new.
Definition upsertWallet (old : option Wallet) (new : Wallet) : Wallet :=
  match old with
  | None => new
  | Some old =>
      mkWallet (coalesce (truthyText (wl_publicKey new)) (wl_publicKey old))
        (unlessMinusOne (wl_balance new) (wl_balance old)) (unlessMinusOne (wl_nonce new) (wl_nonce old))
        (upsertAttributes (wl_attributes old) (wl_attributes new)) (wl_updatedAt new)
  end.

(** One statement for a batch; a statement that would write a row twice fails. *)
Definition upsertBatch (batch : list WalletEntry) (wallets : gmap string Wallet) : result (gmap string Wallet) :=
  if bool_decide (NoDup batch.*1) then
    Ok (foldl (λ w e, <[e.1 := upsertWallet (w !! e.1) e.2]> w) wallets batch)
  else Throw (JSError "ON CONFLICT DO UPDATE command cannot affect row a second time").

(** [chunk(l, 256)] *)
Fixpoint chunkLoop {A} (fuel : nat) (n : nat) (l : list A) : list (list A) :=
  match fuel, l with
  | S fuel', _ :: _ => take n l :: chunkLoop fuel' n (drop n l)
  | _, _ => []
  end.
Definition chunk {A} (l : list A) (n : nat) : list (list A) := chunkLoop (length l) n l.
Definition batchSize : nat := 256.

Fixpoint upsertBatches (batches : list (list WalletEntry)) (wallets : gmap string Wallet) : result (gmap string Wallet) :=
  match batches with
  | [] => Ok wallets
  | batch :: rest => w ← upsertBatch batch wallets; upsertBatches rest w
  end.

Definition mergeLegacy (table : gmap string (option (string * string))) (m : MergedWallet) : gmap string (option (string * string)) :=
  match table !! mw_legacyAddress m with
  | Some _ => <[mw_legacyAddress m := Some (mw_txHash m, mw_address m)]> table
  | None => table
  end.

(** The transaction, for the node's [version]. *)
Definition syncToDatabase (version : string) (d : DeferredSync) (db : Database) : result Database :=
  wallets ← upsertBatches (chunk (ds_wallets d) batchSize) (db_wallets db);
  Ok {|
    db_blocks := insertOrIgnore blocksConflict (ds_block d) (db_blocks db);
    db_state := updateState (ds_block d) (db_state db);
    db_transactions := foldl (λ table batch, insertRows transactionsConflict batch table) (db_transactions db) (chunk (ds_transactions d) batchSize);
    db_validatorRounds := match ds_validatorRound d with
      | Some r => insertOrIgnore roundsConflict r (db_validatorRounds db)
      | None => db_validatorRounds db end;
    db_configuration := (λ '(_, milestones), (version, coalesce (ds_newMilestones d) milestones)) <$> db_configuration db;
    db_legacyColdWallets := foldl mergeLegacy (db_legacyColdWallets db) (ds_mergedLegacyColdWallets d);
    db_wallets := wallets;
  |}.

(** ** The queued job

    What became of an attempt: the transaction was committed; it was, but the
    connection was lost before the node heard of it; or it was rolled back. *)
Inductive Outcome := Acknowledged | AcknowledgementLost | Failed.

(** One pass of the [do]: the database, and whether [success] is set. *)
Definition attemptSync (version : string) (d : DeferredSync) (outcome : Outcome) (db : Database) : Database * bool :=
  match outcome, syncToDatabase version d db with
  | Acknowledged, Ok db' => (db', true)
  | AcknowledgementLost, Ok db' => (db', false)
  | _, _ => (db, false)
  end.

(** [sy_attempts] is the variable of the one job that is handled. *)
Record Sync := mkSync { sy_queue : Queue (Job := DeferredSync); sy_attempts : Z; sy_database : Database }.

Section system.
Context (version : string) (maxAttempts : Z).
(** What [onCommit] makes of a unit, with the configuration as it is then. *)
Context (deferred : Configuration → CommitUnit → option DeferredSync).

Definition inQueue (m : M Queue unit) (s : Sync) : Sync := mkSync (run_in m (sy_queue s)) (sy_attempts s) (sy_database s).

Definition queueDeferredSync (d : DeferredSync) (s : Sync) : Sync := inQueue (push d) s.

(** The job goes round or returns. *)
Definition attemptEnds (i : nat) (outcome : Outcome) (s : Sync) : Sync :=
  match qu_loops (sy_queue s) !! i with
  | Some (Handling d) =>
      let '(db, success) := attemptSync version d outcome (sy_database s) in
      let attempts := if success then sy_attempts s else sy_attempts s + 1 in
      if negb success && (attempts <? maxAttempts) then mkSync (sy_queue s) attempts db
      else mkSync (run_in (jobSettled i true) (sy_queue s)) 0 db
  | _ => s
  end.

Inductive SyncStep :=
| CommitBlock (configuration : Configuration) (u : CommitUnit)
| StartSync | Flush (promise : nat) | ContinueFlush (i : nat)
| AttemptEnds (i : nat) (outcome : Outcome) | EventDispatched (i : nat) (ok : bool).

Definition syncStep (s : Sync) (a : SyncStep) : Sync :=
  match a with
  | CommitBlock configuration u => match deferred configuration u with Some d => queueDeferredSync d s | None => s end
  | StartSync => inQueue start s
  | Flush p => inQueue (drain p) s
  | ContinueFlush i => inQueue (continueDrain i) s
  | AttemptEnds i outcome => attemptEnds i outcome s
  | EventDispatched i ok => inQueue (dispatchSettled i ok) s
  end.
Definition runSync (steps : list SyncStep) (s : Sync) : Sync := foldl syncStep s steps.
End system.

(** [#resetDatabaseIfNecessary]: whether the database is cleared for a full restore. *)
Definition maxHeight (genesisHeight : Z) (blocks : list ApiBlock) : Z :=
  match blocks with [] => genesisHeight | b :: l => foldl (λ m b, Z.max m (ab_number b)) (ab_number b) l end.
Definition needsReset (genesisHeight lastHeight : Z) (forced inMaintenance : bool) (db : Database) : bool :=
  let blocksOk := negb (Nat.eqb (length (db_blocks db)) 0) && (maxHeight genesisHeight (db_blocks db) =? lastHeight) in
  negb (blocksOk && negb forced && negb inMaintenance).
