(* ===== verification/ApiSyncTheorems.v ===== *)
(** * The API's database mirrors the chain

    What a run of the service's queue leaves in the tables ([api_mirrors_chain]), and
    what a lost acknowledgement does to them ([resync_credits_twice]). *)
From S2P Require Import Prelude Bytes Serializer Messages Blocks Commits JsMap Configuration RoundCalculator BlockchainUtils ValidatorSet Queue ApiSync.
#[local] Open Scope Z_scope.

(** ** What the API shows of an address *)
Record WalletView := mkWalletView {
  wv_balance : Z;
  wv_nonce : Z;
  wv_vote : option string;
  wv_username : option string;
  wv_producedBlocks : Z;
  wv_forgedFees : Z;
  wv_forgedRewards : Z;
  wv_forgedTotal : Z;
}.
Definition unknownWallet : WalletView := mkWalletView (-1) (-1) None None 0 0 0 0.
Definition viewOf (row : option Wallet) : WalletView :=
  match row with
  | None => unknownWallet
  | Some w =>
      let a := wl_attributes w in
      mkWalletView (wl_balance w) (wl_nonce w) (wa_vote a) (wa_username a) (default 0 (wa_validatorProducedBlocks a))
        (default 0 (wa_validatorForgedFees a)) (default 0 (wa_validatorForgedRewards a)) (default 0 (wa_validatorForgedTotal a))
  end.

(** The proposer of a block is credited with it. *)
Definition credit (header : BlockHeader) (a : string) (v : WalletView) : WalletView :=
  let raw := bh_raw header in
  if String.eqb (bh_proposer raw) a then
    mkWalletView (wv_balance v) (wv_nonce v) (wv_vote v) (wv_username v) (wv_producedBlocks v + 1)
      (wv_forgedFees v + bh_fee raw) (wv_forgedRewards v + bh_reward raw) (wv_forgedTotal v + (bh_fee raw + bh_reward raw))
  else v.

(** An account takes the values the EVM reports of it. *)
Definition report (u : AccountUpdate) (v : WalletView) : WalletView :=
  mkWalletView (au_balance u) (au_nonce u)
    (match truthyText (au_unvote u) with Some _ => None | None => coalesce (truthyText (au_vote u)) (wv_vote v) end)
    (if au_usernameResigned u then None else coalesce (truthyText (au_username u)) (wv_username v))
    (wv_producedBlocks v) (wv_forgedFees v) (wv_forgedRewards v) (wv_forgedTotal v).

(** ** Maps of accounts *)
Section byAddress.
Context {A} (address : A → string).

Lemma byAddress_snoc l x : byAddress address (l ++ [x]) = mapSet (byAddress address l) (address x) x.
Proof. unfold byAddress. by rewrite foldl_app. Qed.

Lemma byAddress_get l a : mapGet (byAddress address l) a = last (filter (λ x, address x = a) l).
Proof.
  induction l as [|x l IH] using rev_ind; [done |]. rewrite byAddress_snoc, mapGet_set, filter_app, filter_cons, filter_nil.
  destruct (decide (address x = a)); [by rewrite last_snoc | by rewrite app_nil_r].
Qed.

(** Keys are the addresses of their values. *)
Definition keyed (m : JsMap string A) : Prop := wfMap m ∧ mapKeys m = address <$> mapValues m.

Lemma keyed_set m x : keyed m → keyed (mapSet m (address x) x).
Proof.
  intros [Hwf Hk]. split; [by apply wfMap_set |]. unfold mapKeys, mapValues in *. clear Hwf.
  induction m as [|[k v] m IH]; [done |]. cbn in Hk. injection Hk as Hkv Hk. cbn. destruct (decide (k = address x)); cbn; [by rewrite Hk |].
  rewrite IH by done. by rewrite Hkv.
Qed.

Lemma byAddress_keyed l : keyed (byAddress address l).
Proof. induction l as [|x l IH] using rev_ind; [split; [apply NoDup_nil_2 | done] | rewrite byAddress_snoc; by apply keyed_set]. Qed.

Lemma keyed_get m a x : keyed m → mapGet m a = Some x → address x = a ∧ x ∈ mapValues m.
Proof.
  intros [_ Hk] Hx. unfold mapKeys, mapValues in *. induction m as [|[k v] m IH]; [done |]. cbn in Hk, Hx. injection Hk as Hkv Hk.
  destruct (decide (k = a)) as [->|]; [injection Hx as <-; split; [done | by left] |]. destruct (IH Hk Hx). split; [done | by right].
Qed.
End byAddress.

Lemma distinct_NoDup l : NoDup (distinct l).
Proof.
  unfold distinct. assert (H : wfMap (@nil (string * unit))) by apply NoDup_nil_2. revert H. generalize (@nil (string * unit)).
  induction l as [|x l IH]; intros m H; [exact H |]. cbn. apply IH. by apply wfMap_set.
Qed.
Lemma distinct_elem l x : x ∈ distinct l ↔ x ∈ l.
Proof.
  unfold distinct. assert (H : ∀ m : JsMap string unit, x ∈ mapKeys (foldl (λ m x, mapSet m x tt) m l) ↔ x ∈ mapKeys m ∨ x ∈ l).
  { induction l as [|y l IH]; intros m; cbn.
    - rewrite elem_of_nil. tauto.
    - etrans; [apply (IH (mapSet m y tt)) |]. rewrite <- !mapHas_true, elem_of_cons. unfold mapHas. rewrite mapGet_set. destruct (decide (y = x)) as [->|]; cbn; [tauto |].
      naive_solver. }
  rewrite H. cbn. rewrite elem_of_nil. tauto.
Qed.

(** ** Statements *)
Lemma chunkLoop_concat {A} fuel n (l : list A) : (length l ≤ fuel)%nat → (0 < n)%nat → mjoin (chunkLoop fuel n l) = l.
Proof.
  revert l. induction fuel as [|fuel IH]; intros [|x l] Hl Hn; cbn [length] in *; try done; [lia |]. cbn [chunkLoop mjoin list_join].
  change (take n (x :: l) ++ mjoin (chunkLoop fuel n (drop n (x :: l))) = x :: l). rewrite IH; [apply take_drop | | done].
  rewrite length_drop. cbn [length]. lia.
Qed.
Lemma chunk_concat {A} (l : list A) : mjoin (chunk l batchSize) = l.
Proof. apply chunkLoop_concat; unfold batchSize; lia. Qed.

Lemma foldl_mjoin {A B} (f : B → A → B) (ls : list (list A)) b : foldl (λ b l, foldl f b l) b ls = foldl f b (mjoin ls).
Proof. revert b. induction ls as [|l ls IH]; intros b; [done |]. cbn. rewrite IH. symmetry. apply foldl_app. Qed.

Definition upsertAll (l : list WalletEntry) (w : gmap string Wallet) : gmap string Wallet :=
  foldl (λ w e, <[e.1 := upsertWallet (w !! e.1) e.2]> w) w l.

Lemma upsertBatches_all ls w : NoDup (mjoin ls).*1 → upsertBatches ls w = Ok (upsertAll (mjoin ls) w).
Proof.
  revert w. induction ls as [|l ls IH]; intros w Hnd; [done |]. cbn in Hnd |- *. unfold upsertBatch. rewrite fmap_app in Hnd.
  apply NoDup_app in Hnd as (Hl & _ & Hls). rewrite bool_decide_true by done. cbn. rewrite IH by done. unfold upsertAll. by rewrite foldl_app.
Qed.

Lemma upsertAll_lookup l w a : NoDup l.*1 →
  upsertAll l w !! a = match (list_to_map l : gmap string Wallet) !! a with Some new => Some (upsertWallet (w !! a) new) | None => w !! a end.
Proof.
  revert w. unfold upsertAll. induction l as [|[k new] l IH]; intros w Hnd; cbn; [by rewrite lookup_empty |].
  cbn in Hnd |- *. apply NoDup_cons in Hnd as [Hk Hnd]. rewrite IH by done. destruct (decide (k = a)) as [->|Hne].
  - rewrite lookup_insert_eq, (not_elem_of_list_to_map_1 _ _ Hk). by rewrite lookup_insert_eq.
  - rewrite !lookup_insert_ne by done. done.
Qed.

Lemma insertOrIgnore_kept {A} conflict (row : A) table x : existsb (conflict x) table = true → existsb (conflict x) (insertOrIgnore conflict row table) = true.
Proof. intros H. unfold insertOrIgnore. destruct (existsb (conflict row) table); [done |]. by rewrite existsb_app, H. Qed.

Lemma insertChunks {A} conflict (rows table : list A) :
  foldl (λ table batch, insertRows conflict batch table) table (chunk rows batchSize) = insertRows conflict rows table.
Proof. unfold insertRows. by rewrite foldl_mjoin, chunk_concat. Qed.

Lemma insertRows_again {A} conflict (rows table : list A) : (∀ x, conflict x x = true) →
  insertRows conflict rows (insertRows conflict rows table) = insertRows conflict rows table.
Proof.
  intros Hrefl. assert (Hkept : ∀ rows table x, existsb (conflict x) table = true → existsb (conflict x) (insertRows conflict rows table) = true).
  { clear rows table. induction rows as [|r rows IH]; intros table x Hx; [done |]. cbn. apply IH. by apply insertOrIgnore_kept. }
  assert (Hin : ∀ x, x ∈ rows → existsb (conflict x) (insertRows conflict rows table) = true).
  { revert table. induction rows as [|r rows IH]; intros table x; [by intros ?%elem_of_nil |]. intros [->|Hx]%elem_of_cons; cbn; [| by apply IH].
    apply Hkept. unfold insertOrIgnore. destruct (existsb _ table) eqn:He; [done |]. rewrite existsb_app. cbn. by rewrite Hrefl, orb_true_r. }
  revert Hin. generalize (insertRows conflict rows table). intros t Hin. induction rows as [|r rows IH]; [done |].
  change (insertRows conflict rows (insertOrIgnore conflict r t) = t).
  replace (insertOrIgnore conflict r t) with t by (unfold insertOrIgnore; by rewrite (Hin r (list_elem_of_here _ _))). apply IH. intros x Hx. apply Hin. by right.
Qed.

Lemma mergeLegacy_lookup ms table k :
  foldl mergeLegacy table ms !! k =
    match table !! k with
    | Some old => Some (match last (filter (λ m, mw_legacyAddress m = k) ms) with Some m => Some (mw_txHash m, mw_address m) | None => old end)
    | None => None
    end.
Proof.
  induction ms as [|m ms IH] using rev_ind; [cbn; by destruct (table !! k) |]. rewrite foldl_app, filter_app, filter_cons, filter_nil. cbn.
  revert IH. generalize (foldl mergeLegacy table ms). intros t IH. unfold mergeLegacy. destruct (decide (mw_legacyAddress m = k)) as [->|Hne].
  - rewrite last_snoc. destruct (t !! k) eqn:He; rewrite ?lookup_insert_eq, ?He; destruct (table !! k); naive_solver.
  - rewrite app_nil_r, <- IH. destruct (t !! mw_legacyAddress m); [by rewrite lookup_insert_ne | done].
Qed.
Lemma mergeLegacy_again ms table : foldl mergeLegacy (foldl mergeLegacy table ms) ms = foldl mergeLegacy table ms.
Proof. apply map_eq. intros k. rewrite !mergeLegacy_lookup. destruct (table !! k); [| done]. by destruct (last _). Qed.

Lemma addUp_default o n : default 0 (addUp o n) = default 0 o + default 0 n.
Proof. unfold addUp. destruct (Z.eqb_spec (default 0 o + default 0 n) 0); [done | done]. Qed.

(** ** One unit *)
Section units.
Context (addressFromPublicKey : string → result string) (getAccountInfo : string → result (Z * Z)).
Context (genesisNumber : Z) (genesisProposer : string) (mergeText : AccountMergeInfo → string).
Notation onCommit := (ApiSync.onCommit addressFromPublicKey getAccountInfo genesisNumber genesisProposer mergeText).

Definition headerOf (u : CommitUnit) : BlockHeader := b_header (c_block (un_commit u)).

(** What the EVM reports of an address: its last update, and the account of the genesis
    block's proposer with the first block after it. *)
Definition reported (u : CommitUnit) (a : string) : option AccountUpdate :=
  match last (filter (λ x, au_address x = a) (un_accountUpdates u)) with
  | Some x => Some x
  | None =>
      if (un_blockNumber u - 1 =? genesisNumber) && String.eqb genesisProposer a then
        match getAccountInfo a with Ok info => Some (mkAccountUpdate a info.1 info.2 None None None false None) | Throw _ => None end
      else None
  end.
(** Balances and nonces are unsigned. *)
Definition wellReported (u : CommitUnit) : Prop := ∀ a x, reported u a = Some x → 0 ≤ au_balance x ∧ 0 ≤ au_nonce x.

Definition follow (a : string) (v : WalletView) (u : CommitUnit) : WalletView :=
  credit (headerOf u) a (match reported u a with Some x => report x v | None => v end).

Lemma withGenesisAccount_reported u updates :
  withGenesisAccount getAccountInfo genesisNumber genesisProposer (un_blockNumber u) (byAddress au_address (un_accountUpdates u)) = Ok updates →
  keyed au_address updates ∧ ∀ a, mapGet updates a = reported u a.
Proof.
  unfold withGenesisAccount, reported, mapHas. assert (Hkeyed := byAddress_keyed au_address (un_accountUpdates u)).
  destruct (_ =? genesisNumber); cbn [andb].
  - destruct (mapGet _ genesisProposer) as [x0|] eqn:Hg; cbn [isSome negb].
    + intros [= <-]. split; [done |]. intros a. rewrite byAddress_get in Hg. rewrite byAddress_get. destruct (last (filter (λ x, au_address x = a) _)) as [x1|] eqn:Hl; [done |].
      destruct (String.eqb_spec genesisProposer a) as [->|]; congruence.
    + destruct (getAccountInfo genesisProposer) as [info|] eqn:Hinfo; [| done]. intros [= <-]. split.
      * by apply (keyed_set au_address _ (mkAccountUpdate genesisProposer info.1 info.2 None None None false None)).
      * intros a. rewrite mapGet_set. destruct (decide (genesisProposer = a)) as [<-|Hne].
        -- rewrite byAddress_get in Hg. by rewrite Hg, String.eqb_refl, Hinfo.
        -- rewrite byAddress_get, (proj2 (String.eqb_neq _ _) Hne). by destruct (last _).
  - intros [= <-]. split; [done |]. intros a. rewrite byAddress_get. by destruct (last _).
Qed.

Lemma onCommit_rows u c d : (onCommit u c).1 = Ok d →
  ∃ dirty keys updates round,
    ds_wallets d = walletEntries mergeText (headerOf u) dirty keys updates ∧
    keyed au_address updates ∧ (∀ a, mapGet updates a = reported u a) ∧
    ds_block d = blockRow (headerOf u) (c_proof (un_commit u)) round.
Proof.
  unfold ApiSync.onCommit. intros H.
  apply M_bind_Ok in H as (keys & c1 & _ & H). apply M_bind_Ok in H as (txs & c2 & _ & H).
  apply M_bind_Ok in H as (updates & c3 & Hu & H). apply M_bind_Ok in H as (info & c4 & _ & H).
  apply M_bind_Ok in H as (newRound & c5 & _ & H). apply M_bind_Ok in H as (vr & c6 & _ & H).
  apply M_bind_Ok in H as (newMilestone & c7 & _ & H). apply M_bind_Ok in H as (ms & c8 & _ & H).
  injection H as <-. apply liftR_inv in Hu as [Hu _]. apply withGenesisAccount_reported in Hu as [Hkeyed Hget].
  by eexists _, keys, updates, _.
Qed.

Lemma walletEntries_NoDup header dirty keys updates :
  keyed au_address updates → NoDup (walletEntries mergeText header dirty keys updates).*1.
Proof.
  intros Hkeyed. unfold walletEntries. rewrite fmap_app, <- !list_fmap_compose. destruct Hkeyed as [Hwf Hk].
  change (NoDup ((au_address <$> mapValues updates) ++ (id <$> filter (λ a, mapGet updates a = None) (distinct (bh_proposer (bh_raw header) :: (vw_address <$> mapValues dirty)))))).
  rewrite list_fmap_id, <- Hk. apply NoDup_app. split_and!; [exact Hwf | | apply NoDup_filter, distinct_NoDup].
  intros a Ha [Hnone _]%list_elem_of_filter. by apply mapGet_None in Hnone.
Qed.

(** The entry of an address. *)
Lemma walletEntries_lookup header dirty keys updates a : keyed au_address updates →
  (list_to_map (walletEntries mergeText header dirty keys updates) : gmap string Wallet) !! a =
    match mapGet updates a with
    | Some x => Some (accountEntry mergeText header dirty keys x).2
    | None =>
        if decide (a ∈ bh_proposer (bh_raw header) :: (vw_address <$> mapValues dirty)) then Some (validatorEntry header dirty keys a).2 else None
    end.
Proof.
  intros Hkeyed. assert (Hnd := walletEntries_NoDup header dirty keys updates Hkeyed). destruct (mapGet updates a) as [x|] eqn:Hx.
  - destruct (keyed_get au_address updates a x Hkeyed Hx) as [Ha Hin]. apply elem_of_list_to_map_1; [done |]. unfold walletEntries.
    apply elem_of_app. left. apply list_elem_of_fmap. exists x. split; [| done]. unfold accountEntry. by rewrite Ha.
  - destruct (decide _) as [Hin|Hout].
    + apply elem_of_list_to_map_1; [done |]. apply elem_of_app. right. apply list_elem_of_fmap. exists a. split; [done |].
      apply list_elem_of_filter. split; [done | by apply distinct_elem].
    + apply not_elem_of_list_to_map_1. unfold walletEntries. rewrite fmap_app, <- !list_fmap_compose, not_elem_of_app. split.
      * intros (x & -> & Hin)%list_elem_of_fmap. destruct Hkeyed as [_ Hk]. apply mapGet_None in Hx. apply Hx. rewrite Hk.
        apply list_elem_of_fmap. by exists x.
      * intros (b & -> & Hin)%list_elem_of_fmap. apply list_elem_of_filter in Hin as [_ Hin]. by apply Hout, distinct_elem.
Qed.

Lemma credit_not header a v : bh_proposer (bh_raw header) ≠ a → credit header a v = v.
Proof. intros Hne. unfold credit. by rewrite (proj2 (String.eqb_neq _ _) Hne). Qed.

Lemma view_account header dirty keys x old : 0 ≤ au_balance x → 0 ≤ au_nonce x →
  viewOf (Some (upsertWallet old (accountEntry mergeText header dirty keys x).2)) = credit header (au_address x) (report x (viewOf old)).
Proof.
  intros Hb Hn. unfold credit, report, accountEntry, accountAttributes, validatorAttributes.
  destruct old as [[pk b n at0 up]|]; cbn -[String.eqb truthyText bool_decide addUp Z.add default];
    rewrite ?addUp_default; destruct (String.eqb _ _); cbn -[truthyText bool_decide Z.add]; unfold unlessMinusOne;
    rewrite ?(proj2 (Z.eqb_neq (au_balance x) (-1)) ltac:(lia)), ?(proj2 (Z.eqb_neq (au_nonce x) (-1)) ltac:(lia)), ?Z.add_0_r;
    destruct (truthyText (au_unvote x)), (truthyText (au_vote x)), (au_usernameResigned x), (truthyText (au_username x)); done.
Qed.

Lemma view_validator header dirty keys a old : viewOf (Some (upsertWallet old (validatorEntry header dirty keys a).2)) = credit header a (viewOf old).
Proof.
  unfold credit, validatorEntry, validatorAttributes.
  destruct old as [[pk b n at0 up]|]; cbn -[String.eqb truthyText bool_decide addUp Z.add default];
    rewrite ?addUp_default; destruct (String.eqb _ _); cbn -[truthyText bool_decide Z.add]; rewrite ?Z.add_0_r; done.
Qed.

(** A unit's transaction succeeds, and the addresses and the supply follow the unit. *)
Definition followState (u : CommitUnit) (state : option (Z * Z)) : option (Z * Z) :=
  let raw := bh_raw (headerOf u) in
  (λ '(number, supply), if number =? bh_number raw - 1 then (bh_number raw, supply + bh_reward raw) else (number, supply)) <$> state.

Lemma sync_unit version u c d db : (onCommit u c).1 = Ok d →
  ∃ db', syncToDatabase version d db = Ok db' ∧ db_state db' = followState u (db_state db) ∧
    (wellReported u → ∀ a, viewOf (db_wallets db' !! a) = follow a (viewOf (db_wallets db !! a)) u).
Proof.
  intros (dirty & keys & updates & round & Hw & Hkeyed & Hget & Hblock)%onCommit_rows.
  assert (Hnd := walletEntries_NoDup (headerOf u) dirty keys updates Hkeyed). rewrite <- Hw in Hnd.
  unfold syncToDatabase. rewrite upsertBatches_all, chunk_concat by (by rewrite chunk_concat). eexists. split; [reflexivity |].
  split; [cbn; rewrite Hblock; by destruct (db_state db) as [[]|] |]. intros Hwell a. cbn. rewrite upsertAll_lookup, Hw, walletEntries_lookup by (try rewrite <- Hw; done). unfold follow. rewrite Hget.
  destruct (reported u a) as [x|] eqn:Hx.
  - destruct (Hwell a x Hx) as [Hb Hn]. rewrite <- Hget in Hx. apply (keyed_get au_address) in Hx as [Ha _]; [| done].
    rewrite view_account by done. by rewrite Ha.
  - destruct (decide _) as [Hin|Hout]; [apply view_validator |]. symmetry. apply credit_not. intros Heq. apply Hout. rewrite Heq. by left.
Qed.

(** ** A chain of units *)
Fixpoint syncAll (version : string) (ds : list DeferredSync) (db : Database) : result Database :=
  match ds with [] => Ok db | d :: ds' => db' ← syncToDatabase version d db; syncAll version ds' db' end.

Lemma syncAll_snoc version ds d db : syncAll version (ds ++ [d]) db = (db' ← syncAll version ds db; syncToDatabase version d db').
Proof.
  revert db. induction ds as [|d' ds IH]; intros db; cbn; [by destruct (syncToDatabase version d db) |].
  destruct (syncToDatabase version d' db); [apply IH | done].
Qed.

(** Consecutive numbers after [number]. *)
Fixpoint linked (number : Z) (us : list CommitUnit) : Prop :=
  match us with [] => True | u :: us' => bh_number (bh_raw (headerOf u)) = number + 1 ∧ linked (number + 1) us' end.
Definition rewards (us : list CommitUnit) : Z := foldr (λ u total, bh_reward (bh_raw (headerOf u)) + total) 0 us.

Lemma followState_linked us number supply : linked number us →
  foldl (λ state u, followState u state) (Some (number, supply)) us = Some (number + Z.of_nat (length us), supply + rewards us).
Proof.
  revert number supply. induction us as [|u us IH]; intros number supply; cbn [linked foldl length rewards foldr].
  - intros _. by rewrite !Z.add_0_r.
  - intros [Hu Hus]. unfold followState at 2. cbn [fmap option_fmap option_map]. rewrite Hu, Z.add_simpl_r, Z.eqb_refl, IH by done.
    f_equal. f_equal; [lia |]. unfold rewards. lia.
Qed.

Definition comesFrom (p : CommitUnit * DeferredSync) : Prop := (∃ c, (onCommit p.1 c).1 = Ok p.2) ∧ wellReported p.1.

Lemma syncAll_follows version ps db : Forall comesFrom ps →
  ∃ db', syncAll version ps.*2 db = Ok db' ∧
    db_state db' = foldl (λ state u, followState u state) (db_state db) ps.*1 ∧
    (∀ a, viewOf (db_wallets db' !! a) = foldl (follow a) (viewOf (db_wallets db !! a)) ps.*1).
Proof.
  revert db. induction ps as [|[u d] ps IH]; intros db; [by eexists |]. intros [[[c Hc] Hwell] Hps]%Forall_cons.
  destruct (sync_unit version u c d db Hc) as (db1 & Hrun & Hst & Hview). destruct (IH db1 Hps) as (db2 & Hrun2 & Hst2 & Hview2).
  exists db2. cbn. rewrite Hrun. split_and!; [exact Hrun2 | by rewrite Hst2, Hst |]. intros a. by rewrite Hview2, Hview.
Qed.

(** ** The queue *)
Section system.
Context (version : string) (maxAttempts : Z).

Definition deferred (c : Configuration) (u : CommitUnit) : option DeferredSync :=
  match (onCommit u c).1 with Ok d => Some d | Throw _ => None end.
Notation run := (runSync version maxAttempts deferred).
Definition deferredBy (steps : list SyncStep) : list (CommitUnit * DeferredSync) :=
  omap (λ a, match a with CommitBlock c u => (u,.) <$> deferred c u | _ => None end) steps.
Definition committedBy (steps : list SyncStep) : list CommitUnit := (deferredBy steps).*1.

(** No acknowledgement is lost: an attempt is committed and heard of, or rolled back. *)
Definition heard (steps : list SyncStep) : Prop := Forall (λ a, match a with AttemptEnds _ AcknowledgementLost => False | _ => True end) steps.

Record syncOk (db0 : Database) (steps : list SyncStep) (s : Sync) : Prop := {
  so_queue : queueOk (sy_queue s);
  so_kept : Cleared ∉ qu_trace (sy_queue s);
  so_pushed : pushedOf (qu_trace (sy_queue s)) = (deferredBy steps).*2;
  so_done : ∃ done, takenOf (qu_trace (sy_queue s)) = done ++ handlings (qu_loops (sy_queue s)) ∧ syncAll version done db0 = Ok (sy_database s);
  so_attempts : sy_attempts s ≤ Z.of_nat (length steps);
}.

(** A call that neither pushes nor drops. *)
Lemma inQueue_ok db0 steps a (q : QueueStep) s : deferredBy [a] = [] → growing (queueStep q) → syncOk db0 steps s →
  syncOk db0 (steps ++ [a]) (inQueue (queueStep q) s).
Proof.
  intros Ha Hg [Hq Hk Hp (done & Ht & Hdb) Hat]. destruct (Hg (sy_queue s)) as ([] & q' & Hrun & ev & Htr & Hl & Hpe & Hce).
  destruct (queueStep_ok q _ Hq) as (q'' & Hrun' & Hq'). rewrite Hrun in Hrun'. injection Hrun' as <-.
  unfold inQueue, run_in. rewrite Hrun. split; cbn; [done | rewrite Htr, not_elem_of_app; done | | | rewrite length_app; cbn; lia].
  - unfold deferredBy in *. by rewrite Htr, pushedOf_app, Hpe, app_nil_r, omap_app, Ha, app_nil_r.
  - exists done. by rewrite Htr, takenOf_app, Hl, Ht, <- app_assoc.
Qed.

Lemma syncOk_idle db0 steps a s : deferredBy [a] = [] → syncOk db0 steps s → syncOk db0 (steps ++ [a]) s.
Proof.
  intros Ha []. split; try done; [| rewrite length_app; cbn; lia]. unfold deferredBy in *. by rewrite omap_app, Ha, app_nil_r.
Qed.

Lemma commitBlock_ok db0 steps c u d s : deferred c u = Some d → syncOk db0 steps s →
  syncOk db0 (steps ++ [CommitBlock c u]) (queueDeferredSync d s).
Proof.
  intros Hd [Hq Hk Hp (done & Ht & Hdb) Hat]. destruct (push_grows d (sy_queue s)) as (q' & Hrun & ev & Htr & Hl & Hpe & Hce).
  destruct (queuePush_ok d _ Hq) as (q'' & Hrun' & Hq'). rewrite Hrun in Hrun'. injection Hrun' as <-.
  unfold queueDeferredSync, inQueue, run_in. rewrite Hrun. split; cbn;
    [done | rewrite Htr, not_elem_of_app; done | | | rewrite length_app; cbn; lia].
  - unfold deferredBy in *. rewrite Htr, pushedOf_app, Hpe, omap_app, fmap_app, Hp. cbn. by rewrite Hd.
  - exists done. by rewrite Htr, takenOf_app, Hl, Ht, <- app_assoc.
Qed.

Lemma attemptEnds_ok db0 steps i outcome s : outcome ≠ AcknowledgementLost → Z.of_nat (S (length steps)) < maxAttempts →
  syncOk db0 steps s → syncOk db0 (steps ++ [AttemptEnds i outcome]) (attemptEnds version maxAttempts i outcome s).
Proof.
  intros Hout Hmax Hok. assert (Hidle := syncOk_idle db0 steps (AttemptEnds i outcome) s eq_refl Hok). unfold attemptEnds.
  destruct (qu_loops (sy_queue s) !! i) as [[d| |]|] eqn:Hi; try done.
  assert (Hagain : (if negb false && (sy_attempts s + 1 <? maxAttempts) then mkSync (sy_queue s) (sy_attempts s + 1) (sy_database s)
    else mkSync (run_in (jobSettled i true) (sy_queue s)) 0 (sy_database s)) = mkSync (sy_queue s) (sy_attempts s + 1) (sy_database s) ∧
    syncOk db0 (steps ++ [AttemptEnds i outcome]) (mkSync (sy_queue s) (sy_attempts s + 1) (sy_database s))).
  { destruct Hok as [_ _ _ _ Hat]. split; [rewrite (proj2 (Z.ltb_lt _ _)) by lia; done |]. destruct Hidle as [Hq Hk Hp Hdone _].
    split; try done. cbn. rewrite length_app. cbn. lia. }
  destruct Hagain as [Heq Hagain]. destruct outcome; [| done | cbn [attemptSync]; by rewrite Heq].
  unfold attemptSync. destruct (syncToDatabase version d (sy_database s)) as [db'|] eqn:Hrun; [| by rewrite Heq]. cbn.
  destruct Hidle as [Hq Hk Hp (done & Ht & Hdb) _]. destruct (jobSettled_ok i true _ Hq) as (q' & Hsettled & Hq').
  assert (Hone : qu_loops (sy_queue s) = [Handling d] ∧ i = 0%nat).
  { destruct Hq as [H1 _ _ _]. destruct (qu_running (sy_queue s)); [destruct H1 as [stage H1] |]; rewrite H1 in *; [| done].
    destruct i; [by injection Hi as -> | by destruct i]. }
  destruct Hone as [Hl ->]. revert Hsettled. unfold jobSettled. erewrite M_bind_run by reflexivity. rewrite Hl. cbn. intros [= <-].
  unfold run_in, jobSettled. erewrite M_bind_run by reflexivity. rewrite Hl. cbn.
  split; cbn; try done; [| rewrite length_app; cbn; lia].
  exists (done ++ [d]). rewrite syncAll_snoc, Hdb, Ht, Hl. cbn. by rewrite app_nil_r.
Qed.

Lemma run_ok db0 steps : heard steps → Z.of_nat (length steps) < maxAttempts → syncOk db0 steps (run steps (mkSync newQueue 0 db0)).
Proof.
  induction steps as [|a steps IH] using rev_ind.
  - intros _ _. split; cbn; [apply newQueue_ok | apply not_elem_of_nil | done | by exists [] | lia].
  - intros Hheard Hmax. apply Forall_app in Hheard as [Hheard Ha]. rewrite length_app in Hmax. cbn in Hmax.
    specialize (IH Hheard ltac:(lia)). unfold runSync in *. rewrite foldl_app. cbn [foldl]. revert IH.
    generalize (foldl (syncStep version maxAttempts deferred) (mkSync newQueue 0 db0) steps). intros s Hs.
    destruct a as [c u| |p|i|i o|i ok]; cbn [syncStep].
    + destruct (deferred c u) as [d|] eqn:Hd; [by apply commitBlock_ok |]. apply syncOk_idle; [| done]. cbn. by rewrite Hd.
    + apply (inQueue_ok _ _ StartSync Start s eq_refl); [apply growing_start | done].
    + apply (inQueue_ok _ _ (Flush p) (StartDrain p) s eq_refl); [apply growing_drain | done].
    + apply (inQueue_ok _ _ (ContinueFlush i) (ContinueDrain i) s eq_refl); [apply growing_continueDrain | done].
    + apply Forall_inv in Ha. apply attemptEnds_ok; [intros ->; exact Ha | lia | done].
    + apply (inQueue_ok _ _ (EventDispatched i ok) (DispatchSettled i ok) s eq_refl); [apply growing_dispatchSettled | done].
Qed.

(** C38. As long as no acknowledgement of the database is lost and no job runs out of
    attempts, the queue of the API's service works off the committed units in their
    order, whichever attempts are rolled back and whichever listeners fail: when
    [synced] of them are in the database, the others are the job that is handled and
    those behind it, none once a flush has just returned; the block number of the state
    is that of the last one and its supply has grown by the rewards of the synced
    blocks; and every address has the balance, the nonce, the vote and the user name the
    EVM last reported of it, and is credited with the blocks, fees and rewards of those
    it proposed. *)
Theorem api_mirrors_chain db0 steps :
  heard steps → Z.of_nat (length steps) < maxAttempts →
  (∀ c u, CommitBlock c u ∈ steps → wellReported u) →
  let s := run steps (mkSync newQueue 0 db0) in
  let queue := sy_queue s in
  ∃ synced waiting,
    committedBy steps = synced ++ waiting ∧
    length waiting = (length (handlings (qu_loops queue)) + size queue)%nat ∧
    (∀ trace p, qu_trace queue = trace ++ [Drained p] → waiting = []) ∧
    (∀ number supply, db_state db0 = Some (number, supply) → linked number synced →
       db_state (sy_database s) = Some (number + Z.of_nat (length synced), supply + rewards synced)) ∧
    (∀ a, viewOf (db_wallets (sy_database s) !! a) = foldl (follow a) (viewOf (db_wallets db0 !! a)) synced).
Proof.
  intros Hheard Hmax Hwell s queue. destruct (run_ok db0 steps Hheard Hmax) as [Hq Hk Hp (done & Ht & Hdb) _].
  fold s in Hq, Hk, Hp, Ht, Hdb. fold queue in Hq, Hk, Hp, Ht.
  assert (Horder := fifoRun_order _ _ (qo_fifo _ Hq) Hk). cbn in Horder. rewrite Hp, Ht, <- app_assoc in Horder.
  assert (Hall : Forall comesFrom (deferredBy steps)).
  { apply Forall_forall. intros [u d] Hin. apply list_elem_of_omap in Hin as (a & Ha & Hud). destruct a as [c v| | | | |]; try done.
    apply fmap_Some in Hud as (d' & Hd & [= -> ->]). unfold deferred in Hd. destruct ((onCommit v c).1) as [d1|] eqn:Hrun; [| done].
    injection Hd as ->. split; [by exists c | by apply (Hwell c)]. }
  set (n := length done). exists (take n (committedBy steps)), (drop n (committedBy steps)).
  assert (Hsynced : (take n (deferredBy steps)).*2 = done) by (rewrite fmap_take, Horder; apply take_app_length).
  destruct (syncAll_follows version (take n (deferredBy steps)) db0 (Forall_take _ _ _ Hall)) as (db' & Hrun & Hst & Hview).
  rewrite Hsynced, Hdb in Hrun. injection Hrun as Hrun. rewrite fmap_take in Hst, Hview. fold (committedBy steps) in Hst, Hview.
  assert (Hlen : length (drop n (committedBy steps)) = (length (handlings (qu_loops queue)) + size queue)%nat).
  { rewrite length_drop. unfold committedBy, size. rewrite length_fmap, <- (length_fmap snd), Horder, !length_app. subst n. lia. }
  split_and!; [symmetry; apply take_drop | done | | |].
  - intros trace p Htrace. apply nil_length_inv. rewrite Hlen. destruct Hq as [H1 Hf _ _]. rewrite Htrace in Hf. unfold size.
    inversion Hf as [Hnil|t q e q' _ Hstep He Hq']; [by destruct trace |]. apply app_inj_tail in He as [_ ->]. inversion Hstep as [| | | | | | | |p' Hq Hp' Hst'].
    destruct (qu_running queue); [destruct H1 as [stage H1]; rewrite H1 in *; done |]. by rewrite H1.
  - intros number supply Hs Hl. by rewrite Hrun, Hst, Hs, followState_linked.
  - intros a. by rewrite Hrun, Hview.
Qed.
End system.

(** ** A lost acknowledgement *)
Lemma follow_again a v u : follow a (follow a v u) u = credit (headerOf u) a (follow a v u).
Proof.
  unfold follow. destruct (reported u a) as [x|]; [| done]. unfold credit, report. destruct (String.eqb _ _); cbn;
    destruct (truthyText (au_unvote x)), (truthyText (au_vote x)), (au_usernameResigned x), (truthyText (au_username x)); done.
Qed.

Lemma followState_again u state : followState u (followState u state) = followState u state.
Proof.
  destruct state as [[n supply]|]; [| done]. unfold followState. cbn. destruct (n =? _) eqn:Hn; [| by rewrite Hn].
  by destruct (Z.eqb_spec (bh_number (bh_raw (headerOf u))) (bh_number (bh_raw (headerOf u)) - 1)); [lia |].
Qed.

Lemma sync_again version u c d db db1 db2 : (onCommit u c).1 = Ok d →
  syncToDatabase version d db = Ok db1 → syncToDatabase version d db1 = Ok db2 → db2 <| db_wallets := db_wallets db1 |> = db1.
Proof.
  intros Hc H1 H2. destruct (sync_unit version u c d db Hc) as (db1' & H1' & Hst1 & _). rewrite H1 in H1'. injection H1' as <-.
  destruct (sync_unit version u c d db1 Hc) as (db2' & H2' & Hst2 & _). rewrite H2 in H2'. injection H2' as <-.
  rewrite Hst1, followState_again in Hst2. unfold syncToDatabase in H1, H2.
  destruct (upsertBatches _ (db_wallets db)) as [w1|]; [| done]. injection H1 as H1.
  destruct (upsertBatches _ (db_wallets db1)) as [w2|]; [| done]. injection H2 as H2.
  unfold set_field. subst db2. cbn in Hst2 |- *. rewrite Hst2, <- Hst1. subst db1. cbn. rewrite !insertChunks, mergeLegacy_again.
  f_equal.
  - apply (insertRows_again blocksConflict [ds_block d]). intros b. unfold blocksConflict. by rewrite String.eqb_refl.
  - apply insertRows_again. intros t. apply String.eqb_refl.
  - destruct (ds_validatorRound d) as [r|]; [| done]. apply (insertRows_again roundsConflict [r]). intros r'. unfold roundsConflict. by rewrite Z.eqb_refl.
  - destruct (db_configuration db) as [[? ms]|]; [| done]. cbn. by destruct (ds_newMilestones d).
Qed.

(** What the second write makes of a row of the first: the proposer's totals grow again,
    the attributes that only say what a unit changed are dropped, and the description of
    a merge becomes a string. *)
Definition writtenTwice (header : BlockHeader) (a : string) (w : Wallet) : Wallet :=
  let at1 := wl_attributes w in
  let again (total : option Z) (n : Z) := if String.eqb (bh_proposer (bh_raw header)) a then addUp total (Some n) else total in
  mkWallet (wl_publicKey w) (wl_balance w) (wl_nonce w)
    {| wa_isLegacy := wa_isLegacy at1;
       wa_secondPublicKey := wa_secondPublicKey at1;
       wa_multiSignature := wa_multiSignature at1;
       wa_legacyMerge := asText <$> wa_legacyMerge at1;
       wa_legacyNonce := wa_legacyNonce at1;
       wa_vote := wa_vote at1;
       wa_unvote := None;
       wa_username := wa_username at1;
       wa_usernameResigned := None;
       wa_validatorPublicKey := wa_validatorPublicKey at1;
       wa_validatorResigned := wa_validatorResigned at1;
       wa_validatorVoteBalance := wa_validatorVoteBalance at1;
       wa_validatorVotersCount := wa_validatorVotersCount at1;
       wa_validatorFee := wa_validatorFee at1;
       wa_validatorLastBlock := wa_validatorLastBlock at1;
       wa_validatorForgedFees := again (wa_validatorForgedFees at1) (bh_fee (bh_raw header));
       wa_validatorForgedRewards := again (wa_validatorForgedRewards at1) (bh_reward (bh_raw header));
       wa_validatorForgedTotal := again (wa_validatorForgedTotal at1) (bh_fee (bh_raw header) + bh_reward (bh_raw header));
       wa_validatorProducedBlocks := again (wa_validatorProducedBlocks at1) 1 |}
    (wl_updatedAt w).

Lemma asText_again (o : option Json) : asText <$> (asText <$> o) = asText <$> o.
Proof. by destruct o as [[]|]. Qed.
Lemma coalesce_again {A} (n o : option A) : coalesce n (coalesce n o) = coalesce n o.
Proof. by destruct n. Qed.
Lemma coalesce_self {A} (n : option A) : coalesce n n = n.
Proof. by destruct n. Qed.
Lemma coalesce_text n : coalesce (truthyText n) n = n.
Proof. by destruct n as [[]|]. Qed.
Lemma unlessMinusOne_again n o : unlessMinusOne n (unlessMinusOne n o) = unlessMinusOne n o.
Proof. unfold unlessMinusOne. by destruct (n =? -1). Qed.
Lemma unlessMinusOne_self n : unlessMinusOne n n = n.
Proof. unfold unlessMinusOne. by destruct (n =? -1). Qed.
Lemma addUp_None n : addUp (Some n) None = if n =? 0 then None else Some n.
Proof. change (addUp (Some n) None) with (if n + 0 =? 0 then None else Some (n + 0)). by rewrite Z.add_0_r. Qed.
Lemma addUp_again o : addUp (addUp o None) None = addUp o None.
Proof.
  destruct o as [n|]; [| done]. rewrite addUp_None. destruct (Z.eqb_spec n 0) as [|Hne]; [done |].
  rewrite addUp_None. by apply Z.eqb_neq in Hne as ->.
Qed.

Ltac same_row := rewrite ?asText_again, ?coalesce_again, ?coalesce_self, ?coalesce_text, ?unlessMinusOne_again, ?unlessMinusOne_self, ?addUp_again.

Lemma twice_account header dirty keys x old :
  let new := (accountEntry mergeText header dirty keys x).2 in
  upsertWallet (Some (upsertWallet old new)) new = writtenTwice header (au_address x) (upsertWallet old new).
Proof.
  destruct old as [[pk b n at0 up]|]; unfold writtenTwice, accountEntry, accountAttributes, validatorAttributes;
    cbn -[String.eqb truthyText bool_decide addUp]; destruct (String.eqb _ _); cbn -[truthyText bool_decide addUp]; same_row;
    destruct (truthyText (au_unvote x)), (au_usernameResigned x), (au_legacyMergeInfo x); cbn -[truthyText addUp]; unfold upsertAttributes; cbn -[truthyText addUp];
    rewrite ?(bool_decide_eq_false_2 (None = Some true)) by done; by same_row.
Qed.

Lemma twice_validator header dirty keys a old :
  let new := (validatorEntry header dirty keys a).2 in
  upsertWallet (Some (upsertWallet old new)) new = writtenTwice header a (upsertWallet old new).
Proof.
  destruct old as [[pk b n at0 up]|]; unfold writtenTwice, validatorEntry, validatorAttributes;
    cbn -[String.eqb truthyText bool_decide addUp]; destruct (String.eqb _ _); unfold upsertAttributes; cbn -[truthyText bool_decide addUp]; by same_row.
Qed.

(** Only the proposer's row changes if it was there before. *)
Lemma writtenTwice_other header a old new : bh_proposer (bh_raw header) ≠ a →
  writtenTwice header a (upsertWallet (Some old) new) = upsertWallet (Some old) new.
Proof.
  intros Hne. unfold writtenTwice. rewrite (proj2 (String.eqb_neq _ _) Hne). destruct old, new. cbn. by rewrite asText_again.
Qed.

Lemma sync_row_again version u c d db db1 db2 a : (onCommit u c).1 = Ok d →
  syncToDatabase version d db = Ok db1 → syncToDatabase version d db1 = Ok db2 →
  db_wallets db2 !! a = (if decide (a ∈ (ds_wallets d).*1) then writtenTwice (headerOf u) a <$> db_wallets db1 !! a else db_wallets db1 !! a) ∧
  (bh_proposer (bh_raw (headerOf u)) ≠ a → is_Some (db_wallets db !! a) → db_wallets db2 !! a = db_wallets db1 !! a).
Proof.
  intros (dirty & keys & updates & round & Hw & Hkeyed & Hget & _)%onCommit_rows.
  assert (Hnd := walletEntries_NoDup (headerOf u) dirty keys updates Hkeyed). rewrite <- Hw in Hnd.
  unfold syncToDatabase. rewrite !upsertBatches_all, chunk_concat by (by rewrite chunk_concat). intros [= <-] [= <-]. cbn.
  rewrite !upsertAll_lookup by done. pose proof (walletEntries_lookup (headerOf u) dirty keys updates a Hkeyed) as Hnew. rewrite <- Hw in Hnew.
  destruct (list_to_map (ds_wallets d) !! a) as [new|] eqn:Ha.
  - rewrite decide_True by (by apply elem_of_list_to_map_2 in Ha; apply (list_elem_of_fmap_2 fst) in Ha).
    assert (Htwice : ∀ old, upsertWallet (Some (upsertWallet old new)) new = writtenTwice (headerOf u) a (upsertWallet old new)).
    { intros old. destruct (mapGet updates a) as [x|] eqn:Hx.
      - apply (keyed_get au_address) in Hx as [<- _]; [| done]. injection Hnew as ->. apply twice_account.
      - destruct (decide _); [| done]. injection Hnew as ->. apply twice_validator. }
    split; [by rewrite Htwice |]. intros Hne [old Hold]. by rewrite Htwice, Hold, writtenTwice_other.
  - rewrite decide_False by (by apply not_elem_of_list_to_map_2). done.
Qed.

(** C39. When the database commits a unit but the connection is lost before the node hears
    of it, the node writes the unit again.  The other tables, the supply among them, stay
    as the first write left them, and so does the row of every address the unit does not
    write and of every other one but the proposer's that was there before.  The
    proposer's row is credited with the block a second time.  A row the first write
    inserted loses the marks of an unvote and of a resigned user name, and its
    description of a merge becomes a string; the balance, the nonce, the vote and the
    user name of every address stay. *)
Theorem resync_credits_twice version u c d db : (onCommit u c).1 = Ok d → wellReported u →
  let db1 := (attemptSync version d AcknowledgementLost db).1 in
  let db2 := (attemptSync version d Acknowledged db1).1 in
  db2 <| db_wallets := db_wallets db1 |> = db1 ∧
  ∀ a, viewOf (db_wallets db1 !! a) = follow a (viewOf (db_wallets db !! a)) u ∧
    viewOf (db_wallets db2 !! a) = credit (headerOf u) a (viewOf (db_wallets db1 !! a)) ∧
    db_wallets db2 !! a = (if decide (a ∈ (ds_wallets d).*1) then writtenTwice (headerOf u) a <$> db_wallets db1 !! a else db_wallets db1 !! a) ∧
    (bh_proposer (bh_raw (headerOf u)) ≠ a → is_Some (db_wallets db !! a) → db_wallets db2 !! a = db_wallets db1 !! a).
Proof.
  intros Hc Hwell. destruct (sync_unit version u c d db Hc) as (db1 & H1 & _ & Hv1). destruct (sync_unit version u c d db1 Hc) as (db2 & H2 & _ & Hv2).
  unfold attemptSync. rewrite H1. cbn [fst]. rewrite H2. cbn [fst]. split; [by eapply sync_again |]. intros a. split; [by apply Hv1 |].
  split; [by rewrite Hv2, Hv1, follow_again | by eapply sync_row_again].
Qed.
End units.

(** ** A run

    Two blocks after the genesis block, an attempt that fails, a listener that fails,
    and a flush before each block and after the last. *)
Definition exampleAddressOf (publicKey : string) : result string := Ok publicKey.
Definition exampleAccount (address : string) : result (Z * Z) := Ok (7, 1).
Definition exampleMergeText (info : AccountMergeInfo) : string := am_address info.
Definition exampleConfiguration : Configuration :=
  mkConfiguration (Some (mkNetworkConfig 0 [mkMilestone 0 {["roundValidators" := 0]}; mkMilestone 1 {["roundValidators" := 53]}])) 0 0 true.
Definition exampleUnit (number : Z) (parentHash hash proposer : string) (updates : list AccountUpdate) : CommitUnit := {|
  un_blockNumber := number;
  un_commit := mkCommit
    (mkBlock (mkBlockHeader (mkBlockHeaderRaw 1 (1000 * number) number 0 parentHash "" "" 0 21000 3 5 0 "" proposer "") hash) "" [])
    (mkCommitProof 0 "" []) "";
  un_receipts := None;
  un_accountUpdates := updates;
  un_validatorSet := newValidatorSet;
  un_roundValidators := 53;
  un_totalRound := number;
|}.
Definition exampleVote (balance : Z) (vote unvote : option string) : AccountUpdate := mkAccountUpdate "a" balance 1 vote unvote None false None.
Definition exampleUnits : list CommitUnit :=
  [exampleUnit 1 "h0" "h1" "a" [exampleVote 90 (Some "b") None]; exampleUnit 2 "h1" "h2" "b" [exampleVote 80 None (Some "b")]].
Definition exampleSteps : list SyncStep :=
  match exampleUnits with
  | [u1; u2] =>
      [StartSync; Flush 0; CommitBlock exampleConfiguration u1; Flush 1; AttemptEnds 0 Failed; AttemptEnds 0 Acknowledged; EventDispatched 0 true;
       ContinueFlush 0; CommitBlock exampleConfiguration u2; Flush 2; AttemptEnds 0 Acknowledged; EventDispatched 0 false; EventDispatched 0 true;
       ContinueFlush 0]
  | _ => []
  end.
Definition exampleDatabase : Database := mkDatabase [] (Some (0, 100)) [] [] (Some ("1.0.0", None)) ∅ ∅.
Notation exampleDeferred := (deferred exampleAddressOf exampleAccount 0 "g" exampleMergeText).
Definition exampleRun (steps : list SyncStep) : Sync := runSync "1.0.0" 20 exampleDeferred steps (mkSync newQueue 0 exampleDatabase).

Example exampleRun_views :
  db_state (sy_database (exampleRun exampleSteps)) = Some (2, 110) ∧
  (viewOf ∘ (db_wallets (sy_database (exampleRun exampleSteps)) !!.)) <$> ["a"; "b"; "g"; "x"] =
    [mkWalletView 80 1 None None 1 3 5 8; mkWalletView (-1) (-1) None None 1 3 5 8; mkWalletView 7 1 None None 0 0 0 0; unknownWallet].
Proof. split; by vm_compute. Qed.

Lemma wellReported_nonneg getAccountInfo genesisNumber genesisProposer u :
  Forall (λ x, 0 ≤ au_balance x ∧ 0 ≤ au_nonce x) (un_accountUpdates u) →
  (∀ a info, getAccountInfo a = Ok info → 0 ≤ info.1 ∧ 0 ≤ info.2) → wellReported getAccountInfo genesisNumber genesisProposer u.
Proof.
  intros Hu Hinfo a x. unfold reported. destruct (last _) as [y|] eqn:Hl.
  - intros [= <-]. apply last_Some_elem_of, list_elem_of_filter in Hl as [_ Hl]. rewrite Forall_forall in Hu. by apply Hu.
  - destruct (_ && _); [| done]. destruct (getAccountInfo a) as [info|] eqn:Hi; [| done]. intros [= <-]. by apply (Hinfo a).
Qed.
Lemma exampleUnits_wellReported u : u ∈ exampleUnits → wellReported exampleAccount 0 "g" u.
Proof.
  intros Hu. apply wellReported_nonneg; [| by intros a info [= <-]].
  repeat (apply elem_of_cons in Hu as [->|Hu]; [repeat constructor; vm_compute; congruence |]). by apply elem_of_nil in Hu.
Qed.

Lemma api_mirrors_chain_witness :
  heard exampleSteps ∧
  viewOf (db_wallets (sy_database (exampleRun exampleSteps)) !! "a") = foldl (follow exampleAccount 0 "g" "a") unknownWallet exampleUnits.
Proof.
  assert (Hheard : heard exampleSteps) by repeat constructor. split; [exact Hheard |].
  destruct (api_mirrors_chain exampleAddressOf exampleAccount 0 "g" exampleMergeText "1.0.0" 20 exampleDatabase exampleSteps Hheard)
    as (synced & waiting & Hall & _ & Hdrained & _ & Hview); [reflexivity | |].
  - intros c u Hin. apply exampleUnits_wellReported.
    repeat (apply elem_of_cons in Hin as [Heq|Hin]; [try discriminate; injection Heq as -> ->; repeat constructor |]). by apply elem_of_nil in Hin.
  - rewrite (Hdrained (removelast (qu_trace (sy_queue (exampleRun exampleSteps)))) 2%nat) in Hall by (vm_compute; reflexivity).
    rewrite app_nil_r in Hall. unfold exampleRun. rewrite Hview, <- Hall. vm_compute. reflexivity.
Defined.

Definition exampleDeferredSync (u : CommitUnit) : DeferredSync :=
  match (onCommit exampleAddressOf exampleAccount 0 "g" exampleMergeText u exampleConfiguration).1 with
  | Ok d => d
  | Throw _ => mkDeferredSync (blockRow (headerOf u) (c_proof (un_commit u)) 0) [] None [] [] None
  end.
Definition exampleResync : Database :=
  let d := exampleDeferredSync (exampleUnit 1 "h0" "h1" "a" [exampleVote 90 (Some "b") None]) in
  (attemptSync "1.0.0" d Acknowledged (attemptSync "1.0.0" d AcknowledgementLost exampleDatabase).1).1.

Lemma resync_credits_twice_witness :
  viewOf (db_wallets exampleResync !! "a") = mkWalletView 90 1 (Some "b") None 2 6 10 16.
Proof.
  destruct (resync_credits_twice exampleAddressOf exampleAccount 0 "g" exampleMergeText "1.0.0" (exampleUnit 1 "h0" "h1" "a" [exampleVote 90 (Some "b") None])
    exampleConfiguration (exampleDeferredSync (exampleUnit 1 "h0" "h1" "a" [exampleVote 90 (Some "b") None])) exampleDatabase) as [_ Hview].
  - vm_compute. reflexivity.
  - apply exampleUnits_wellReported. by left.
  - destruct (Hview "a") as (Hone & Htwo & _). unfold exampleResync. rewrite Htwo, Hone. vm_compute. reflexivity.
Defined.
