(* ===== verification/PoolScenario.v ===== *)
(** * A concrete pool

    One sender with a balance of 100, and transactions of hers: the instances of
    the theorems about the pool. *)
From S2P Require Import Prelude Bytes Serializer Messages Blocks JsMap BlockchainUtils BlockProcessor SenderState Mempool.
From S2P Require Import PoolService PoolFacts PoolInvariant PoolTheorems PoolFront.

Definition alice : string := "alice".
Definition payment (hash : string) (nonce value gasPrice : Z) (bytes : list byte) : Transaction :=
  mkTransaction hash 1 alice alice "" (Some "bob") value gasPrice 5 nonce "0x" 0 "" "" None bytes.

Definition first : Transaction := payment "first" 0 10 1 [Byte.x01].
Definition second : Transaction := payment "second" 1 10 3 [Byte.x02].
(** The nonce of [first] with a higher gas price, for more than the balance. *)
Definition overdrawn : Transaction := payment "overdrawn" 0 500 2 [Byte.x03].

Definition paymentCodec : TransactionCodec := {|
  txFromBytes bs :=
    if bool_decide (bs = [Byte.x01]) then Ok first
    else if bool_decide (bs = [Byte.x02]) then Ok second
    else if bool_decide (bs = [Byte.x03]) then Ok overdrawn
    else Throw (JSError "unknown");
|}.
Definition noSecondSignature : LegacySignature := {| toHashUnsigned _ := []; verifyRecoverable _ _ _ _ _ := false |}.
#[local] Existing Instances paymentCodec noSecondSignature.

Definition poolConfig : PoolConfig := mkPoolConfig 1 [] 10 1000 15000 40 150 5 90.
Definition chainView : ChainView := mkChainView (λ _ _, mkAccount 100 0 None) (λ _, true) 5 30000000 "Shanghai".
Definition keyAddress (key : string) : string := key.

Definition add (tx : Transaction) (p : Pool) : Pool := run_in (addTransaction keyAddress poolConfig chainView tx) p.
Definition onePayment : Pool := add first (newPool []).
Definition twoPayments : Pool := add second onePayment.

(** Replacing the first of two payments by one that costs more than the balance. *)
Lemma unpaid_replacement_lost_witness :
  ∃ p', addTransaction keyAddress poolConfig chainView overdrawn twoPayments = (Ok tt, p') ∧
    getAllBySender alice p' = [] ∧ ∀ t, t ∈ [overdrawn; first; second] → storageHas p' (tx_hash t) = false.
Proof.
  apply (unpaid_replacement_lost keyAddress poolConfig chainView twoPayments
           (mkSenderMempool (mkWallet alice "" 60 2 None) 0 [first; second]) 0 first overdrawn 0 100);
    [reflexivity | reflexivity | vm_compute; reflexivity | reflexivity |].
  split; [| reflexivity | reflexivity | vm_compute; reflexivity | vm_compute; reflexivity].
  split; try (vm_compute; (reflexivity || discriminate)); [| repeat constructor; vm_compute; discriminate].
  intros [|[|i]] t; [by intros [= <-] | by intros [= <-] | by destruct i].
Defined.

Lemma chainView_ok : viewOk chainView.
Proof. done. Qed.
Lemma payments_wf tx : tx ∈ [first; second; overdrawn] → wfTx keyAddress tx.
Proof. rewrite !elem_of_cons, elem_of_nil. intros [->|[->|[->|[]]]]; split; (split || done); done. Qed.

Lemma sender_queue_ok_witness :
  queueOk 0 100 (@runSenderOp noSecondSignature poolConfig chainView (OpAdd first) (newSenderMempool chainView alice "")).
Proof.
  apply (@sender_queue_ok noSecondSignature poolConfig chainView 0 100 (OpAdd first) (newSenderMempool chainView alice ""));
    [vm_compute; discriminate |].
  split; vm_compute; try done; try discriminate.
Defined.

(** The pool above as the service reaches it, from a database with one row. *)
Definition storedRows : list StoredTransaction := [rowOf chainView first].
Definition restarted : Pool := run_in (reAddTransactions keyAddress poolConfig chainView) (newPool storedRows).

Lemma storedRows_ok : stocked keyAddress storedRows.
Proof.
  split; [apply NoDup_singleton |]. intros r ->%list_elem_of_singleton. exists first. split; [| done]. apply payments_wf. left.
Qed.

Lemma restarted_reachable : poolReachable keyAddress poolConfig storedRows restarted.
Proof. eapply (pool_start _ _ _ chainView (Ok tt)); [exact chainView_ok | reflexivity]. Qed.
Lemma grown_reachable : poolReachable keyAddress poolConfig storedRows (add second restarted).
Proof.
  eapply (pool_step _ _ _ chainView (AddTransaction second) (Ok tt) restarted); [exact restarted_reachable | exact chainView_ok | | reflexivity].
  apply payments_wf. right. left.
Qed.

Lemma pool_consistent_witness :
  rowId <$> po_storage (add second restarted) ≡ₚ txId <$> pooled (add second restarted) ∧ getSize (add second restarted) ≤ 15000 ∧
  pooled (add second restarted) = [first; second].
Proof.
  destruct (pool_consistent keyAddress poolConfig ltac:(vm_compute; discriminate) eq_refl storedRows (add second restarted)
    storedRows_ok grown_reachable) as (Hrows & _ & _ & Hsize & _).
  split; [exact Hrows |]. split; [exact Hsize |]. vm_compute. reflexivity.
Defined.

Lemma grown_ok : poolOk (add second restarted).
Proof.
  eapply sy_ok, cs_synced. eapply (reachable_consistent keyAddress poolConfig); [| done | exact storedRows_ok | exact grown_reachable].
  vm_compute. discriminate.
Qed.

Lemma priority_order_witness :
  ∃ out, getFromHighestPriority (add second restarted) = Ok out ∧ out ≡ₚ pooled (add second restarted) ∧
    ofSender alice out = [first; second].
Proof.
  destruct (priority_order (add second restarted) grown_ok) as (out & Hout & Hperm & Hsender & _). exists out.
  split; [exact Hout |]. split; [exact Hperm |]. rewrite Hsender. vm_compute. reflexivity.
Defined.

Lemma selector_batches_witness :
  ∃ out rs s', getFromHighestPriority (add second restarted) = Ok out ∧
    getBatches "1-0" [(add second restarted, 100, 1); (newPool [], 100, 7)] newSelector = (Ok rs, s') ∧
    batchesOk [] out [(add second restarted, 100, 1); (newPool [], 100, 7)] rs.
Proof.
  apply (selector_batches "1-0" (add second restarted) 100 1 [(newPool [], 100, 7)] newSelector grown_ok); [done |].
  repeat constructor; vm_compute; discriminate.
Defined.

(** Four submissions: a payment, bytes that do not decode, the next payment, and the
    first one again, which the pool refuses. *)
Lemma paymentCodec_wf bytes tx : txFromBytes bytes = Ok tx → wfTx keyAddress tx.
Proof.
  cbn. repeat case_bool_decide; try done; intros [= <-]; apply payments_wf; rewrite !elem_of_cons; auto.
Qed.
Lemma paymentCodec_ends bytes : txFromBytes bytes ≠ Throw OutOfFuel.
Proof. cbn. by repeat case_bool_decide. Qed.

Definition emptyPool : Pool := run_in (reAddTransactions keyAddress poolConfig chainView) (newPool []).
Lemma emptyPool_consistent : consistent keyAddress poolConfig emptyPool.
Proof.
  assert (Hstock : stocked keyAddress []) by (split; [apply NoDup_nil_2 | by intros ? ?%elem_of_nil]).
  apply (reachable_consistent keyAddress poolConfig ltac:(by vm_compute) ltac:(by vm_compute) [] emptyPool Hstock).
  by apply (pool_start _ _ _ chainView (Ok tt)); [exact chainView_ok | reflexivity].
Qed.

Definition submissions : list (list byte) := [[Byte.x01]; [Byte.xff]; [Byte.x02]; [Byte.x01]].
Definition emptyFront : Front := mkFront emptyPool [] [] [] [] None [] [].

Definition submissionErrors : list (nat * string) := [(1%nat, "ERR_BAD_DATA"%string); (3%nat, "ERR_DUPLICATE"%string)].
Example submissions_result :
  process keyAddress poolConfig chainView submissions emptyFront =
  (Ok (mkProcessorResult [0%nat; 2%nat] [0%nat; 2%nat] (Some submissionErrors) [] [1%nat; 3%nat]),
   mkFront twoPayments [0%nat; 2%nat] [0%nat; 2%nat] [1%nat; 3%nat] [] (Some submissionErrors) [first; second] [[first; second]]).
Proof. vm_compute. reflexivity. Qed.

Lemma submissions_processed_witness :
  ∃ result s', process keyAddress poolConfig chainView submissions emptyFront = (Ok result, s') ∧
    fr_pool s' = twoPayments ∧ px_accept result = [0%nat; 2%nat] ∧ default [] (px_errors result) = submissionErrors ∧
    fr_announced s' = [[first; second]].
Proof.
  destruct (submissions_processed keyAddress poolConfig chainView chainView_ok ltac:(by vm_compute) ltac:(by vm_compute)
    paymentCodec_wf paymentCodec_ends submissions emptyFront emptyPool_consistent)
    as (result & s' & Hrun & Hp & _ & _ & _ & Hacc & _ & Herr & _ & _ & _ & _ & Han).
  exists result, s'. split; [exact Hrun |]. split_and!; [rewrite Hp | rewrite Hacc | rewrite Herr | rewrite Han]; vm_compute; reflexivity.
Defined.


