(* ===== verification/Witnesses.v ===== *)
(** * Instances

    For each theorem with hypotheses, an input on which they hold: the concrete
    network of [Scenario] for the consensus, literal values for the formats and
    the calculators. *)
From S2P Require Import Prelude Bytes ByteBuffer Serializer Messages Blocks Proposals Commits Configuration.
From S2P Require Import RoundCalculator JsMap Quorum ValidatorSet BlockchainUtils RoundState RoundStateFacts.
From S2P Require Import ConsensusStorage Node BlockProcessor Forger Processors CommitBatch Consensus ConsensusHeap.
From S2P Require Import ConsensusInvariant ConsensusSafety ConsensusTheorems ConsensusProgress Bootstrapper Agreement Scenario.

Definition okOr {A} (d : A) (r : result A) : A := match r with Ok a => a | Throw _ => d end.
Lemma okOr_ok {A} (d : A) (r : result A) : is_ok r = true → r = Ok (okOr d r).
Proof. by destruct r. Qed.

(** ** The consensus *)
#[local] Abbreviation scenarioOk := (scenario_reachable VerifiedVote VerifiedProof VerifiedCommit).

Lemma never_equivocates_witness : sm_blockHash (prevoteAt 0) = sm_blockHash (prevoteAt 0).
Proof.
  apply (never_equivocates VerifiedVote VerifiedProof VerifiedCommit wellHashed (firstRound 1) scenario 0 0
           (prevoteAt 0) (prevoteAt 0)); [exact scenarioOk | by apply (scenario_event 0) | by apply (scenario_event 0) | done | done | done].
Defined.

Lemma precommit_has_quorum_witness : quorumOf VerifiedVote MessageType_Prevote 1 0 proposedHash.
Proof.
  apply (precommit_has_quorum VerifiedVote VerifiedProof VerifiedCommit wellHashed (firstRound 1) scenario 0
           (precommitAt 0)); [exact scenarioOk | by apply (scenario_event 1) | done | done].
Defined.

Lemma prevote_respects_lock_witness :
  proposedHash = proposedHash ∨ ∃ v, 0 ≤ v < 1 ∧
    (VerifiedProof 1 v proposedHash ∨ quorumOf VerifiedVote MessageType_Prevote 1 v proposedHash).
Proof.
  apply (prevote_respects_lock VerifiedVote VerifiedProof VerifiedCommit wellHashed (firstRound 1) scenario 0 0
           (precommitAt 0) (prevoteAt 1) proposedHash proposedHash);
    [exact scenarioOk | by apply (scenario_event 1) | by apply (scenario_event 2) | done | done | done | done | done | done].
Defined.

Lemma commit_has_quorum_witness :
  VerifiedCommit 1 1 proposedHash ∨ quorumOf VerifiedVote MessageType_Precommit 1 1 proposedHash.
Proof.
  apply (commit_has_quorum VerifiedVote VerifiedProof VerifiedCommit wellHashed (firstRound 1) scenario);
    [exact scenarioOk | by apply (scenario_event 4)].
Defined.

Lemma votes_in_window_witness :
  ¬ posLe (votePos (prevoteAt 0)) (1, 0, 0) ∧ posLe (votePos (prevoteAt 0)) (pos scenario) ∧ posLe (1, 0, 0) (pos scenario).
Proof.
  apply (votes_in_window VerifiedVote VerifiedProof VerifiedCommit wellHashed (firstRound 1) scenario 0);
    [exact scenarioOk | by apply (scenario_event 0)].
Defined.

(** The trace of the scenario is split at the node's first vote. *)
Definition isSign (e : Event) : bool := match e with EvSign _ _ => true | _ => false end.
Fixpoint splitSign (t : list Event) : list Event * list Event :=
  match t with
  | [] => ([], [])
  | e :: t' => if isSign e then ([], t) else let '(a, b) := splitSign t' in (e :: a, b)
  end.
Lemma splitSign_app t : t = (splitSign t).1 ++ (splitSign t).2.
Proof. induction t as [|e t IH]; [done |]. simpl. destruct (isSign e); [done |]. destruct (splitSign t). simpl in *. by f_equal. Qed.

Lemma head_split {A} (l1 l2 l : list A) x : l = l1 ++ l2 → head l2 = Some x → l = l1 ++ x :: tail l2.
Proof. destruct l2; [done |]. by intros -> [= ->]. Qed.

Lemma scenario_first : head (splitSign (w_trace scenario)).2 = Some (EvSign 0 (prevoteAt 0)).
Proof. vm_compute. reflexivity. Qed.

Lemma vote_after_record_witness :
  ∃ r, lastPersist (splitSign (w_trace scenario)).1 = Some r ∧ recordPos r = votePos (prevoteAt 0).
Proof.
  apply (vote_after_record VerifiedVote VerifiedProof VerifiedCommit wellHashed (firstRound 1) scenario
           (splitSign (w_trace scenario)).1 0 (prevoteAt 0) (tail (splitSign (w_trace scenario)).2)); [exact scenarioOk |].
  exact (head_split _ _ _ _ (splitSign_app _) scenario_first).
Defined.

(** A second life of the process, at the block after the commit, in which the
    proposal times out. *)
Definition secondLife : World := playFrom 2 (w_chain scenario) 1030000 [MEnv AFireBlockPrepare; MEnv AFirePropose; MJob].
Definition secondVote : SignatureMessageData := mkSignatureMessageData MessageType_Prevote 2 0 None.

Lemma secondLife_events : eventsOf secondLife !! 0%nat = Some (EvSign 0 secondVote).
Proof. vm_compute. reflexivity. Qed.

Lemma secondChain_wellHashed : wellHashed (w_chain scenario).
Proof.
  apply (wellHashed_last _ (default toyGenesis (ch_lastBlock (w_chain scenario)))); vm_compute; reflexivity.
Qed.

Lemma scenario_record : recordPos <$> lastPersist (w_trace scenario) = Some (1, 1, 2).
Proof. vm_compute. reflexivity. Qed.

Lemma second_event : EvSign 0 secondVote ∈ w_trace secondLife.
Proof. exact (eventsOf_trace _ _ _ secondLife_events). Qed.

Lemma fmap_Some_pos (o : option StateData) p : recordPos <$> o = Some p → ∃ r, o = Some r ∧ recordPos r = p.
Proof. destruct o as [r|]; [intros [= <-]; eauto | done]. Qed.

Lemma restart_never_equivocates_witness : votePos (prevoteAt 0) ≠ votePos secondVote.
Proof.
  destruct (fmap_Some_pos _ _ scenario_record) as (r & Hr & Hp).
  apply (restart_never_equivocates VerifiedVote VerifiedProof VerifiedCommit wellHashed (firstRound 1) scenario
           (firstRound 2) secondLife 0 0 (prevoteAt 0) secondVote r).
  - exact scenarioOk.
  - exact (play_reachable _ _ _ wellHashed 2 (w_chain scenario) 1030000 _ secondChain_wellHashed).
  - exact Hr.
  - rewrite Hp. by left.
  - by apply (scenario_event 0).
  - exact second_event.
Defined.

(** A restart after the node locked in round 0: the store holds the lock and the
    prevotes that prove it. *)
Definition crashed : World := playFrom 1 toyChain 1004000 round0.
Definition restarted : World := (newNode toyChain 1020000) <| w_storage := initialize (w_storage crashed) |>.
Definition restoredState : State := okOr (firstRound 0) (bootstrap restarted).1.

Lemma restarted_state :
  is_ok (bootstrap restarted).1 = true ∧ statePos restoredState = (1, 1, 0) ∧ isSome (s_lockedValue restoredState) = true.
Proof. vm_compute. done. Qed.

Lemma restarted_ok : bootstrap restarted = (Ok restoredState, (bootstrap restarted).2).
Proof.
  unfold restoredState. pose proof (proj1 restarted_state) as Hok. revert Hok. generalize (bootstrap restarted).
  intros [[s|] w]; done.
Qed.

Lemma restarted_votes :
  match getMessages (roundValidatorsOr (w_chain restarted)) (w_storage restarted) with
  | Ok ms => forallb (λ m, match (hasValidMessageSignature m restarted).1 with Ok b => b | Throw _ => false end) ms
  | Throw _ => false
  end = true.
Proof. vm_compute. reflexivity. Qed.

Lemma restarted_lock :
  (λ d, (sd_blockNumber d, sd_lockedRound d, recordPos d)) <$> st_state (w_storage restarted) = Some (1, Some 0, (1, 1, 0)).
Proof. vm_compute. reflexivity. Qed.

Definition restartedVotes : list Message := okOr [] (getMessages (roundValidatorsOr (w_chain restarted)) (w_storage restarted)).
Definition restartedProposals : list Proposal :=
  okOr [] (getProposals (roundValidatorsOr (w_chain restarted)) isAddress (w_storage restarted)).

Lemma restarted_readable : readable restarted restartedVotes restartedProposals.
Proof. split; vm_compute; reflexivity. Qed.

Lemma lock_of_record w n rd p :
  (λ d, (sd_blockNumber d, sd_lockedRound d, recordPos d)) <$> st_state (w_storage w) = Some (n, Some rd, p) →
  posLe (n, rd, stepZ Precommit) p → storedLock w.
Proof.
  unfold storedLock. destruct (st_state (w_storage w)) as [d|]; [| done]. intros [= <- Hr <-] Hp d' r [= <-] Hr'.
  rewrite Hr in Hr'. by injection Hr' as <-.
Qed.

Lemma genuine_of_check w :
  match getMessages (roundValidatorsOr (w_chain w)) (w_storage w) with
  | Ok ms => forallb (λ m, match (hasValidMessageSignature m w).1 with Ok b => b | Throw _ => false end) ms
  | Throw _ => false
  end = true → storedGenuine VerifiedVote w.
Proof.
  unfold storedGenuine. destruct (getMessages _ _) as [ms0|]; [| done]. intros Hall ms [= <-] m Hm.
  rewrite forallb_forall in Hall. apply list_elem_of_In, Hall in Hm. exists w.
  destruct (hasValidMessageSignature m w).1 as [[]|]; done.
Qed.

Lemma heap_withStorage G P C R w st : HeapOk G P C R w → HeapOk G P C R (w <| w_storage := st |>).
Proof. intros []. by split. Qed.

Lemma bootstrap_restores_witness :
  restoredFrom 1 (w_storage restarted) restoredState (bootstrap restarted).2 ∧
  restored VerifiedVote VerifiedProof VerifiedCommit wellHashed restoredState (bootstrap restarted).2.
Proof.
  destruct (bootstrap_restores VerifiedVote VerifiedProof VerifiedCommit wellHashed restarted toyGenesis
              restartedVotes restartedProposals restoredState (bootstrap restarted).2) as (Hs & _ & _ & _ & Hr).
  - exact (heap_withStorage _ _ _ _ _ _ (rt_heap _ _ _ _ _ _
      (new_restored VerifiedVote VerifiedProof VerifiedCommit wellHashed toyChain 1020000 1 toyChain_wellHashed))).
  - reflexivity.
  - reflexivity.
  - exact restarted_readable.
  - exact (genuine_of_check restarted restarted_votes).
  - apply (lock_of_record restarted 1 0 (1, 1, 0) restarted_lock). right. split; [done |]. by left.
  - exact restarted_ok.
  - exact (conj Hs Hr).
Defined.

(** The scenario's steps are those of a node whose handlers may nest three levels. *)
Lemma play_deep script w : rtc deepStep w (play script w).
Proof.
  revert w; induction script as [|m script IH]; intros w; [done |]. cbn [play foldl].
  etransitivity; [| apply IH]. destruct m as [a|]; cbn [move]; [apply rtc_once, deep_env |].
  destruct (w_jobs w) as [|j js] eqn:Hj; [done |]. apply rtc_once. by apply (deep_job rulesDepth j [] js).
Qed.

Lemma handlers_complete_witness : (EvStuck ∉ w_trace scenario) ∧ w_commitLock scenario = false.
Proof.
  apply (handlers_complete VerifiedVote VerifiedProof VerifiedCommit wellHashed (firstRound 1) (newNode toyChain 1004000) scenario rulesDepth).
  - done.
  - exact (new_restored _ _ _ wellHashed toyChain 1004000 1 toyChain_wellHashed).
  - reflexivity.
  - done.
  - exact (play_deep (round0 ++ round1) _).
Defined.

(** ** Round states *)
(** The re-proposal of the scenario, as bytes, carries a lock proof. *)
Definition someProposal : Proposal :=
  mkProposal (mkProposalData 0 None "" 0 "") (mkBlockHeader (toyHeader 0 0 0 "" "" "") "") None [] None.
Definition received : Proposal :=
  okOr someProposal (makeProposalFromBytes (λ _, 4) (λ _, true) reproposalBytes).
Definition toyVote (i : Z) : Message :=
  okOr (mkMessage (mkMessageData 0 0 0 None 0 "") []) (makeMessageFromBytes (λ _, 4) (voteBytes MessageType_Prevote 0 (Some proposedHash) i)).
Definition toyInputs : list RoundInput := InProposal received :: (InMessage ∘ toyVote <$> [0; 1; 1; 2]).
Definition toyRound : RoundState := foldl feed (configure 1 0 toyWallets 0 newRoundState) toyInputs.

Lemma toyInputs_range : forallb (λ i, match i with InProposal _ => true
  | InMessage m => (0 <=? msg_validatorIndex m) && (msg_validatorIndex m <? 4) end) toyInputs = true.
Proof. vm_compute. reflexivity. Qed.

Lemma inputs_of_check n l :
  forallb (λ i, match i with InProposal _ => true
    | InMessage m => (0 <=? msg_validatorIndex m) && (msg_validatorIndex m <? n) end) l = true →
  Forall (inputInRange n) l.
Proof.
  intros Hall. apply Forall_forall. intros i Hi. rewrite forallb_forall in Hall.
  apply list_elem_of_In, Hall in Hi. destruct i; [done |]. simpl_bool. simpl. lia.
Qed.

Lemma toyRound_wf : wfRoundState 4 toyRound.
Proof. apply feed_wf; [by apply configure_wf | exact (inputs_of_check 4 toyInputs toyInputs_range)]. Qed.

Lemma toyRound_count : getPrevoteCount toyRound (Some proposedHash) = 3.
Proof. vm_compute. reflexivity. Qed.

Lemma roundState_counts_exact_witness :
  votersOf MessageType_Prevote toyInputs 4 (Some proposedHash) = [0; 1; 2]%nat ∧
  getPrevoteCount toyRound (Some proposedHash) = 3 ∧ getPrecommitCount toyRound (Some proposedHash) = 0.
Proof.
  destruct (roundState_counts_exact 1 0 toyWallets 0 toyInputs (Some proposedHash)) as (_ & _ & _ & Hv & Hc & _);
    [exact (inputs_of_check 4 toyInputs toyInputs_range) |].
  split; [vm_compute; reflexivity |]. split; [etrans; [exact Hv |] | etrans; [exact Hc |]]; vm_compute; reflexivity.
Defined.

Lemma majority_unique_witness : rsIsMajority (λ _, 4) toyRound (getPrevoteCount toyRound None) = false.
Proof.
  destruct (majority_unique (λ _, 4) toyRound (Some proposedHash) None) as [Hu _]; [done | exact toyRound_wf |].
  apply not_true_is_false. intros Hn. discriminate Hu; [| exact Hn].
  unfold rsIsMajority. rewrite toyRound_count. reflexivity.
Defined.

#[export] Instance toyBls_laws : BlsLaws.
Proof.
  split. intros data [|[s k] pairs] keys Hne Hv _; [done |]. cbn.
  rewrite hexDecode_Encode. apply (Hv s k). left.
Qed.

Definition toyPrevoteData : list byte :=
  okOr [] (serializeMessageForSignature (mkSignatureMessageData MessageType_Prevote 1 0 (Some proposedHash)) toyContext).

Lemma toyRound_signed :
  forallb (λ kv, blsVerify (hexDecode (msg_signature kv.2)) toyPrevoteData (keyAt toyValidatorSet kv.1))
    (rs_prevotes toyRound) = true.
Proof. vm_compute. reflexivity. Qed.

Lemma toyRound_proposal : p_hash <$> rs_proposal toyRound = Some proposedHash.
Proof. vm_compute. reflexivity. Qed.

Lemma aggregate_verifies_witness :
  ∃ proof, aggregatePrevotes (λ _, 4) toyRound = Ok proof ∧ verifyAggregate toyValidatorSet proof toyPrevoteData 4 = Ok true.
Proof.
  pose proof toyRound_proposal as Hp. destruct (rs_proposal toyRound) as [p|] eqn:Hpr; [| done].
  simpl in Hp. assert (p_hash p = proposedHash) as Hh by congruence.
  apply (aggregate_verifies 4 (λ _, 4) toyRound p toyValidatorSet toyPrevoteData);
    [done | by vm_compute | exact toyRound_wf | exact Hpr | |].
  - rewrite Hh. unfold rsIsMajority. rewrite toyRound_count. reflexivity.
  - intros i m [_ Hin]%votesFor_sub. pose proof toyRound_signed as Hall. rewrite forallb_forall in Hall.
    exact (Hall (i, m) (proj1 (list_elem_of_In _ _) Hin)).
Defined.

(** ** Validators and calculators *)
Lemma validator_index_roundtrip_witness :
  ∃ v', buildRoundValidators 4 newValidatorSet = (Ok tt, v') ∧
    ∀ i, 0 ≤ i < 4 → ∃ w, getValidator v' i = Ok w ∧ getValidatorIndexByWalletAddress v' (vw_address w) = Ok i.
Proof.
  apply (validator_index_roundtrip 4 newValidatorSet toyWallets); [done | | by vm_compute].
  apply (bool_decide_eq_true_1 _). vm_compute. reflexivity.
Defined.

Lemma proposer_rotation_witness :
  ∃ k, 0 ≤ k < 4 ∧ getValidatorIndexFrom 4 7 (2 + k) = 3 ∧
       ∀ k', 0 ≤ k' < 4 → getValidatorIndexFrom 4 7 (2 + k') = 3 → k' = k.
Proof. apply (proposer_rotation 4 7 2 3); done. Defined.

Lemma restart_loses_records_witness :
  let d := mkStateData 1 0 Prevote None None in
  let before := run_in (saveMessage true (toyVote 1)) emptyStorage in
  let after := run_in (saveState true d) (initialize before) in
  st_messages before !! (0, 1, 1) = Some (msg_serialized (toyVote 1)) ∧ st_messages after = ∅ ∧ st_state after = Some d.
Proof. apply (restart_loses_records (toyVote 1) (mkStateData 1 0 Prevote None None)); done. Defined.

Lemma validatorSet_roundtrip_witness : validatorSetPack [true; false; true] = 5 ∧ Z.of_nat (length [true; false; true]) = 3.
Proof. apply (validatorSet_roundtrip [true; false; true] 5 3). reflexivity. Defined.

(** ** The wire formats *)
Definition toySignature : string := hexEncode (replicate 96 Byte.x05).
Definition toyMessage : MessageData := mkMessageData MessageType_Prevote 1 0 (Some (toyHashOf Byte.x03)) 2 toySignature.

Ltac compute_wf := apply (bool_decide_eq_true_1 _); vm_compute; reflexivity.

Definition signedHere : list byte :=
  signatureBytes (toSignatureData toyMessage) (mkSignatureMessageContext (toyHashOf Byte.x01) (toyHashOf Byte.x02)).

Lemma signing_bytes_injective_witness :
  toSignatureData toyMessage = toSignatureData toyMessage ∧
  mkSignatureMessageContext (toyHashOf Byte.x01) (toyHashOf Byte.x02) =
  mkSignatureMessageContext (toyHashOf Byte.x01) (toyHashOf Byte.x02).
Proof.
  apply (signing_bytes_injective _ _ _ _ signedHere); try (repeat split; try compute_wf; done);
    vm_compute; reflexivity.
Defined.

Lemma proposal_roundtrip_witness :
  let d := mkProposalData 1 (Some 0) "00aa" 2 toySignature in
  ∃ unsigned, serializeProposalUnsigned d = Ok unsigned ∧
    serializeProposal d = Ok (unsigned ++ hexDecode toySignature) ∧
    Proposals.deserializeProposal (unsigned ++ hexDecode toySignature) = Ok d.
Proof. apply proposal_roundtrip. repeat split; try compute_wf; done. Defined.

Definition opened : Proposal :=
  okOr someProposal (deserializePayload (λ _, 4) (λ _, true) (λ _, true) received).

Lemma received_ok : makeProposalFromBytes (λ _, 4) (λ _, true) reproposalBytes = Ok received.
Proof. apply okOr_ok. vm_compute. reflexivity. Qed.
Lemma opened_ok : deserializePayload (λ _, 4) (λ _, true) (λ _, true) received = Ok opened.
Proof. apply okOr_ok. vm_compute. reflexivity. Qed.

Lemma proposal_payload_agrees_witness :
  ∃ payload, p_payload opened = Some payload ∧ b_header (pp_block payload) = p_blockHeader received ∧
    pp_lockProof payload = p_lockProof received ∧ b_hash (pp_block payload) = p_hash opened.
Proof.
  exact (proposal_payload_agrees (λ _, 4) (λ _, true) (λ _, true) (λ _, 4) reproposalBytes received opened received_ok opened_ok).
Defined.

Definition payloadBytesOf : list byte := hexDecode (pd_payloadSerialized (p_data received)).
Definition parsedPayload : BlockHeader * option AggregatedSignature :=
  okOr (p_blockHeader someProposal, None) (getLockProofAndBlockHeader (λ _, 4) (λ _, true) payloadBytesOf).
Lemma parsedPayload_ok :
  getLockProofAndBlockHeader (λ _, 4) (λ _, true) payloadBytesOf = Ok (parsedPayload.1, parsedPayload.2).
Proof. rewrite <- surjective_pairing. apply okOr_ok. vm_compute. reflexivity. Qed.

Lemma parseSerializedPayload_agrees_witness :
  parseSerializedPayload (hexEncode payloadBytesOf) = Some (bh_number (bh_raw parsedPayload.1)).
Proof.
  exact (parseSerializedPayload_agrees (λ _, 4) (λ _, true) payloadBytesOf _ _ parsedPayload_ok).
Defined.

Definition toyProof : CommitProof := mkCommitProof 1 toySignature [true; true; true; false].

Definition readBlock : Block :=
  okOr proposedBlock (blockFromBytes (λ _, true) (λ _, true) (hexDecode (b_serialized proposedBlock))).
Lemma readBlock_ok : blockFromBytes (λ _, true) (λ _, true) (hexDecode (b_serialized proposedBlock)) = Ok readBlock.
Proof. apply okOr_ok. vm_compute. reflexivity. Qed.
Lemma readBlock_serialized : b_serialized readBlock = b_serialized proposedBlock.
Proof. vm_compute. reflexivity. Qed.

Lemma commit_roundtrip_witness :
  ∃ bs, serializeCommit readBlock toyProof = Ok bs ∧
    commitFromBytes (λ _, 4) (λ _, true) (λ _, true) bs = Ok (mkCommit readBlock toyProof (hexEncode bs)).
Proof.
  apply commit_roundtrip.
  - repeat split; try compute_wf; vm_compute; lia.
  - rewrite readBlock_serialized. exact readBlock_ok.
  - vm_compute. reflexivity.
Defined.

(** A block with one transaction, read by a codec that knows it. *)
Definition toyTransaction : Transaction :=
  mkTransaction (toyHashOf Byte.x07) 1 (toyAddress 1) (toyPublicKey 1) "" (Some (toyAddress 2)) 10 5 21000 0
    "0x" 0 "" "" None [Byte.x01; Byte.x02].
Definition knownCodec : TransactionCodec := {|
  txFromBytes bs := if bool_decide (bs = [Byte.x01; Byte.x02]) then Ok toyTransaction else Throw (JSError "unknown");
|}.
Definition headerWithPayload : BlockHeaderRaw :=
  mkBlockHeaderRaw 1 1008000 1 0 (b_hash toyGenesis) (toyHashOf Byte.x01) (hexEncode (replicate 256 Byte.x00))
    1 21000 105000 0 6 (toyHashOf Byte.x02) (toyAddress 0) toySignature.

Lemma block_roundtrip_witness :
  ∃ bs, serializeWithTransactions headerWithPayload [toyTransaction] = Ok bs ∧
    @deserializeWithTransactions _ knownCodec _ bs =
    Ok (mkBlockHeader headerWithPayload (hexEncode (sha256 (headerBytes headerWithPayload))), [toyTransaction]).
Proof.
  apply (@block_roundtrip _ knownCodec _ headerWithPayload [toyTransaction]).
  - unfold wfHeader, isHash, isConsensusSignature. split_and!; compute_wf.
  - split; [done |]. split; [done |]. apply Forall_singleton. split; [compute_wf | done].
Defined.

(** ** Milestones and rounds *)
#[export] Instance rightUnion_laws : DeepmergeLaws.
Proof.
  split. intros a b k. change (deepmerge a b) with (b ∪ a). destruct (b !! k) as [v|] eqn:Hb.
  - by apply lookup_union_Some_l.
  - by rewrite lookup_union_r.
Qed.

(** Blocks 1 to 106 in rounds of 53, later ones in rounds of 57; the reward of
    the first milestone stays. *)
Definition toyConfig : NetworkConfig :=
  mkNetworkConfig 0 [mkMilestone 0 {["roundValidators" := 0; "reward" := 2]}; validatorsFrom 107 57; validatorsFrom 1 53].
Definition configured : Configuration := run_in (setConfig (λ _, true) toyConfig true) newConfiguration.
Definition builtConfig : NetworkConfig := mkNetworkConfig 0 (buildMilestones (nc_milestones toyConfig)).

Lemma configured_ok : setConfig (λ _, true) toyConfig true newConfiguration = (Ok tt, configured).
Proof. vm_compute. reflexivity. Qed.
Lemma configured_wf : wfConfiguration configured builtConfig.
Proof. apply (setConfig_ok (λ _, true) toyConfig true newConfiguration configured configured_ok). Qed.

Definition inheritedReward : Milestone := okOr (validatorsFrom 0 0) (getMilestone (Some 200) configured).1.

Lemma getMilestone_cached_witness :
  ∃ c', getMilestone (Some 200) (configured <| cf_index := 1%nat |>) = (Ok inheritedReward, c') ∧ wfConfiguration c' builtConfig.
Proof.
  apply getMilestone_cached; [| vm_compute; reflexivity].
  destruct configured_wf as [Hc Hs _]. split; [done | done |]. vm_compute. lia.
Defined.

Lemma milestone_inheritance_witness : ml_props inheritedReward !! "reward" = valueAt (nc_milestones toyConfig) "reward" 200.
Proof.
  apply (milestone_inheritance (λ _, true) toyConfig true newConfiguration configured 0%nat 200 "reward" inheritedReward
           (run_in (getMilestone (Some 200)) (configured <| cf_index := 0%nat |>)) configured_ok);
    [vm_compute; lia | vm_compute; reflexivity].
Defined.

Lemma spans_terminate_witness : (getValidatorSpans configured).1 ≠ Throw OutOfFuel.
Proof. exact (spans_terminate configured builtConfig configured_wf). Defined.

Lemma toyConfig_validators h : 1 ≤ h → ∃ v, rvAt (nc_milestones builtConfig) h = Some v ∧ 0 < v.
Proof.
  intros Hh. unfold rvAt, milestoneAt.
  assert (nc_milestones builtConfig = buildMilestones (nc_milestones toyConfig)) as -> by done.
  assert (ml_height <$> buildMilestones (nc_milestones toyConfig) = [0; 1; 107]) as Hb by (vm_compute; reflexivity).
  destruct (buildMilestones (nc_milestones toyConfig)) as [|m0 [|m1 [|m2 [|]]]] eqn:Hm; try done.
  assert (roundValidatorsOf m1 = Some 53 ∧ roundValidatorsOf m2 = Some 57) as [H1 H2].
  { vm_compute in Hm. injection Hm as <- <- <-. vm_compute. done. }
  cbn in Hb. injection Hb as Hb0 Hb1 Hb2. cbn [List.filter]. rewrite Hb0, Hb1, Hb2.
  rewrite (proj2 (Z.leb_le 0 h)), (proj2 (Z.leb_le 1 h)) by lia. destruct (107 <=? h); cbn; eauto with lia.
Qed.

Definition toySpans : list ValidatorSpan := okOr [] (getValidatorSpans configured).1.

Lemma rounds_partition_witness :
  ∃ i j, (calculateRound 106 configured).1 = Ok i ∧ (calculateRound (106 + 1) configured).1 = Ok j ∧
    ri_roundHeight i ≤ 106 < ri_roundHeight i + ri_maxValidators i ∧
    rvAt (nc_milestones builtConfig) 106 = Some (ri_maxValidators i) ∧ ri_nextRound i = ri_round j.
Proof.
  apply (rounds_partition configured builtConfig 53 toySpans 106 configured_wf).
  - compute_wf.
  - exact toyConfig_validators.
  - vm_compute. reflexivity.
  - vm_compute. reflexivity.
  - vm_compute. discriminate.
Defined.

(** ** A block with one transaction, processed

    The EVM counts the calls and charges 21000 gas for each. *)
Definition countingEvm : Evm Z := {|
  evm_prepareNextCommit _ := mret tt;
  evm_process _ := modify (λ n, n + 1);; mret (mkTransactionReceipt 1 21000);
  evm_updateRewardsAndVotes _ := mret tt;
  evm_updateValidatorRegistrationFee _ := mret tt;
  evm_calculateRoundValidators _ := mret tt;
  evm_stateRoot _ _ := mret (toyHashOf Byte.x01);
  evm_logsBloom _ := mret (hexEncode (replicate 256 Byte.x00));
  evm_legacySecondPublicKey _ _ := mret None;
|}.
Definition noLegacy : LegacySignature := {| toHashUnsigned _ := []; verifyRecoverable _ _ _ _ _ := false |}.
Definition toyMilestone : BlockMilestone := mkBlockMilestone 30000000 2000000 1 0 0 4 "Shanghai" None.
Definition executedBlock : Block :=
  let h := mkBlockHeaderRaw 1 1008000 1 0 (b_hash toyGenesis) (toyHashOf Byte.x01) (hexEncode (replicate 256 Byte.x00))
    1 21000 105000 0 6 (hexEncode (sha256 (hexDecode (toyHashOf Byte.x07)))) (toyAddress 0) toyReveal in
  okOr proposedBlock (makeBlock (λ _, true) (λ _, true) h [toyTransaction]).
Definition executedUnit : Unit := mkUnit executedBlock 0.
#[local] Abbreviation processHere :=
  (@process Z countingEvm noLegacy toyHash toyBls (λ _, toyMilestone) (λ _, toyTimeouts) (λ _, 4) 0 (λ _, false) toyChain executedUnit 0).

Lemma executed_success : bpr_success processHere.1 = true.
Proof. vm_compute. reflexivity. Qed.

Definition executedReceipts : list TransactionReceipt :=
  okOr [] (@blockRules Z countingEvm noLegacy toyHash toyBls (λ _, toyMilestone) (λ _, toyTimeouts) (λ _, 4) 0 (λ _, false) toyChain executedUnit 0).1.

Lemma executed_rules :
  @blockRules Z countingEvm noLegacy toyHash toyBls (λ _, toyMilestone) (λ _, toyTimeouts) (λ _, 4) 0 (λ _, false)
    toyChain executedUnit 0 = (Ok executedReceipts, 1).
Proof. vm_compute. reflexivity. Qed.

Lemma executed_prices : Forall (λ tx, 0 ≤ tx_gasPrice tx) (transactionsOf (un_block executedUnit)).
Proof. compute_wf. Qed.

Lemma countingEvm_unsigned : @gasUnsigned Z countingEvm.
Proof. by intros c e receipt e' [= <- <-]. Qed.

Lemma process_refines_witness : processHere = (blockResult (un_block executedUnit) executedReceipts, 1).
Proof.
  apply (@process_refines Z countingEvm noLegacy toyHash toyBls (λ _, toyMilestone) (λ _, toyTimeouts) (λ _, 4) 0
           (λ _, false) toyChain executedUnit 0 countingEvm_unsigned executed_prices).
  exact executed_rules.
Defined.

Lemma process_bounds_witness :
  bpr_gasUsed processHere.1 ≤ bh_gasUsed (b_raw (un_block executedUnit)) ∧
  bpr_feeUsed processHere.1 ≤ bh_fee (b_raw (un_block executedUnit)).
Proof. apply process_bounds; vm_compute; discriminate. Defined.

Lemma accepted_block_valid_witness :
  ValidNext (λ _, toyMilestone) (λ _, toyTimeouts) (λ _, 4) toyChain executedUnit toyGenesis ∧
  ∃ receipts, processHere.1 = blockResult (un_block executedUnit) receipts ∧
    length receipts = length (transactionsOf (un_block executedUnit)) ∧
    totalGas receipts = bh_gasUsed (b_raw (un_block executedUnit)) ∧
    totalFee (transactionsOf (un_block executedUnit)) receipts = bh_fee (b_raw (un_block executedUnit)).
Proof.
  apply accepted_block_valid; [vm_compute; reflexivity | reflexivity | exact executed_success].
Defined.

(** ** A forged block

    An EVM that counts transactions, charges each its gas limit and refuses
    those with less than 21000; [None] or the counter at the last snapshot. *)
Definition pendingEvm : Evm (Z * option Z) := {|
  evm_prepareNextCommit _ := mret tt;
  evm_process c := if tc_gasLimit c <? 21000 then throw (JSError "intrinsic gas too low")
                   else modify (λ e, (e.1 + 1, e.2));; mret (mkTransactionReceipt 1 (tc_gasLimit c));
  evm_updateRewardsAndVotes _ := mret tt;
  evm_updateValidatorRegistrationFee _ := mret tt;
  evm_calculateRoundValidators _ := mret tt;
  evm_stateRoot _ _ := mret (toyHashOf Byte.x01);
  evm_logsBloom _ := mret (hexEncode (replicate 256 Byte.x00));
  evm_legacySecondPublicKey _ _ := mret None;
|}.
Definition snapshotEvm : ForgerEvm (Z * option Z) := {|
  evm_initializeGenesis := mret tt;
  evm_snapshot _ := modify (λ e, (e.1, Some e.1));
  evm_rollback _ := e ← get;
    match e.2 with Some n => modify (λ _, (n, None)) | None => throw (JSError "rollback to non-existent commit") end;
  evm_dispose := mret tt;
|}.
Definition sameCount (e1 e2 : Z * option Z) : Prop := e1.1 = e2.1.

#[local] Instance pending_agreement : @EvmAgreement _ pendingEvm snapshotEvm sameCount (λ _, None).
Proof.
  split; unfold sameCount, follows, run_in; cbn; try done;
    try (intros ? ? ? e1 e2 a e1' Hag [= <- <-]; by exists e2); try (intros ? ? ? ? e1 e2 a e1' Hag [= <- <-]; by exists e2).
  - intros k c _ e1 e2 a e1' Hag. destruct (_ <? _); [done |]. cbn. intros [= <- <-]. eexists. split; [reflexivity |]. cbn. lia.
  - intros _ _ e1 e2 Hag. by exists e2.
  - intros c e1 e1' e2 err Hag. destruct (_ <? _); [| done]. by intros [= _ <-].
  - intros k c e1 e1' e2 Hag [= <-]. destruct (_ <? _); cbn; (eexists; split; [reflexivity | done]).
  - intros c e receipt e' Hp. destruct (Z.ltb_spec (tc_gasLimit c) 21000); [done |]. injection Hp as <- _. cbn. lia.
Qed.

(** The first fits, the second is refused, the third exceeds what is left. *)
Definition toyPayment (index gasLimit : Z) (b : byte) : Transaction :=
  mkTransaction (toyHashOf b) 1 (toyAddress index) (toyPublicKey index) "" (Some (toyAddress 2)) 10 5 gasLimit 0 "0x" 0 "" "" None [b].
Definition toyBatch : list Transaction := [toyPayment 1 21000 Byte.x07; toyPayment 2 100 Byte.x08; toyPayment 3 40000 Byte.x09].
Definition batchCodec : TransactionCodec := {|
  txFromBytes bs := match List.find (λ tx, bool_decide (tx_serialized tx = bs)) toyBatch with
                    | Some tx => Ok tx
                    | None => Throw (JSError "unknown")
                    end;
|}.
Definition smallMilestone : BlockMilestone := mkBlockMilestone 50000 2000000 1 0 0 4 "Shanghai" None.
#[local] Abbreviation forgedBlock :=
  (@forgeNext _ pendingEvm snapshotEvm _ toyHash (λ _, true) (λ _, true) (λ _, smallMilestone) (λ _, false) toyChain Ok (λ _, false)
    (toyAddress 0) 0 1008000 toyReveal [toyBatch] (0, None)).

Lemma forgedBlock_ok : is_ok forgedBlock = true.
Proof. vm_compute. reflexivity. Qed.
Lemma forgedBlock_one : transactionsOf (okOr proposedBlock forgedBlock) = [toyPayment 1 21000 Byte.x07].
Proof. vm_compute. reflexivity. Qed.

Lemma toyBatch_offerable : Forall (@offerable noLegacy batchCodec (λ _, None)) toyBatch.
Proof. repeat constructor; try (split; [compute_wf | vm_compute; reflexivity]); vm_compute; discriminate. Qed.

Definition toyProposer : ValidatorWallet := okOr (mkValidatorWallet "" "" 0 0 0 false) (getValidator (ch_validatorSet toyChain) 0).
Definition toyRandao : list byte := okOr [] (randaoMessage (b_hash toyGenesis) (bh_randaoReveal (b_raw toyGenesis)) 1).

Lemma toyEligible :
  @eligible toyBls (λ _, smallMilestone) (λ _, toyTimeouts) (λ _, 4) 0 toyChain toyGenesis (toyAddress 0) 0 1008000 toyReveal.
Proof.
  split; [reflexivity | vm_compute; reflexivity | vm_compute; discriminate | reflexivity | vm_compute; discriminate | | |].
  - eexists. split; [reflexivity |]. vm_compute. discriminate.
  - exists toyProposer. split; [reflexivity | vm_compute; reflexivity].
  - exists 0, toyProposer, toyGenesisCommit, toyRandao. split_and!; vm_compute; reflexivity.
Qed.

Lemma forged_block_accepted_witness :
  bpr_success (@process _ pendingEvm noLegacy toyHash toyBls (λ _, smallMilestone) (λ _, toyTimeouts) (λ _, 4) 0 (λ _, false)
    toyChain (mkUnit (okOr proposedBlock forgedBlock) 0) (0, None)).1 =
  (headerSize + bh_payloadSize (b_raw (okOr proposedBlock forgedBlock)) <=? 2000000).
Proof.
  apply (@forged_block_accepted _ pendingEvm snapshotEvm noLegacy _ toyHash toyBls batchCodec sameCount (λ _, None) pending_agreement
           (λ _, true) (λ _, true) (λ _, smallMilestone) (λ _, toyTimeouts) (λ _, 4) 0 (λ _, false) toyChain Ok (λ _, false)
           toyGenesis (toyAddress 0) 0 1008000 toyReveal toyEligible [toyBatch] (0, None) (0, None)).
  - reflexivity.
  - exact toyBatch_offerable.
  - vm_compute. repeat constructor; rewrite ?elem_of_cons, ?elem_of_nil; intuition discriminate.
  - exact (okOr_ok proposedBlock forgedBlock forgedBlock_ok).
  - unfold wfHeader, isHash, isConsensusSignature. split_and!; compute_wf.
Defined.
