(* ===== verification/P2PScenario.v ===== *)
(** * Instances for the downloaders

    For each theorem on the downloaders with hypotheses, an input on which they
    hold: the network of [Scenario], a peer of it, and runs of a few steps. *)
From S2P Require Import Prelude Bytes ByteBuffer Serializer Messages Blocks Proposals Commits Configuration.
From S2P Require Import RoundCalculator JsMap Quorum ValidatorSet BlockchainUtils RoundState RoundStateFacts.
From S2P Require Import ConsensusStorage Node Processors CommitBatch MessageDownloader MessageExchange.
From S2P Require Import Consensus BlockDownloader BlockSync BlockExchange ConsensusTheorems BlockRefinement Scenario Witnesses.

(** ** Messages *)
Definition fourAt (n : Z) : Z := 4.
Lemma fourAt_pos n : 0 ≤ fourAt n.
Proof. done. Qed.

(** The node has seen no vote of block 1; the peer has three prevotes of round 0. *)
Definition emptyHeader (round : Z) : HeaderData := mkHeaderData 1 round (replicate 4 false) (replicate 4 false) None.
Definition voter : Peer := mkPeer "10.0.0.1" (headerOf toyRound).
Definition asking3 : MessageDownloader := (download fourAt false (emptyHeader 0) voter newMessageDownloader).2.

Lemma message_requests_exclusive_witness :
  asking Prevotes 1 0 2 (md_jobs asking3) = Nat.b2n (marked fourAt Prevotes asking3 1 0 2) ∧ asking Prevotes 1 0 2 (md_jobs asking3) = 1%nat.
Proof.
  split; [| vm_compute; reflexivity].
  apply (message_requests_exclusive fourAt asking3 []); [exact fourAt_pos | | apply not_elem_of_nil].
  apply rtc_once. apply mdDownload. intros _. vm_compute. reflexivity.
Defined.

(** A peer in round 1 with a single prevote, of validator 2. *)
Definition aheadPeer : Peer := mkPeer "10.0.0.2" (mkHeaderData 1 1 [false; false; true; false] (replicate 4 false) None).

Lemma stale_marks_witness :
  let d1 := (download fourAt false (emptyHeader 0) aheadPeer newMessageDownloader).2 in
  let d2 := (finish fourAt 0 (Ok ([], [])) (0, 0) false (λ _, 0%nat) (emptyHeader 0) [] d1).2 in
  md_jobs d2 = [] ∧ marked fourAt Prevotes d2 1 1 2 = true.
Proof.
  split; [vm_compute; reflexivity |].
  apply (stale_marks fourAt (emptyHeader 0) aheadPeer newMessageDownloader Prevotes 2 (Ok ([], [])) (0, 0) false (λ _, 0%nat) (emptyHeader 0) []);
    [reflexivity | reflexivity | reflexivity | vm_compute; reflexivity | | reflexivity].
  apply list_elem_of_In. vm_compute. left. reflexivity.
Defined.

Definition ownVotesb (st : RoundState) : bool :=
  forallb (λ kv : Z * Message, (msg_blockNumber kv.2 =? rs_blockNumber st) && (msg_round kv.2 =? rs_round st)) (rs_prevotes st ++ rs_precommits st).
Lemma ownVotes_of_check st : ownVotesb st = true → ownVotes st.
Proof.
  unfold ownVotesb. rewrite forallb_forall. intros Hall k i m Hm. specialize (Hall (i, m)). rewrite <- list_elem_of_In, elem_of_app in Hall.
  assert ((msg_blockNumber m =? rs_blockNumber st) && (msg_round m =? rs_round st) = true) as Hb by (apply Hall; destruct k; [by left | by right]).
  simpl_bool. done.
Qed.
Lemma later_refl st : later st st.
Proof. by split. Qed.
Lemma toyRound_own : ownVotes toyRound.
Proof. apply ownVotes_of_check. vm_compute. reflexivity. Qed.
Definition accept (m : Message) : ProcessorResult := Accepted.

Lemma honest_partial_answer_witness :
  checkAnswer fourAt (partialJob fourAt (emptyHeader 0) voter newMessageDownloader)
    (honest accept (getMessagesFor fourAt 1 0 (λ _, toyRound) (emptyHeader 0))) (0, 0) = Ok tt.
Proof.
  apply (honest_partial_answer fourAt toyRound toyRound (λ _, toyRound) (emptyHeader 0) (emptyHeader 0) voter newMessageDownloader accept (0, 0)).
  - exact toyRound_wf.
  - exact toyRound_wf.
  - apply later_refl.
  - exact toyRound_own.
  - reflexivity.
  - reflexivity.
  - vm_compute. reflexivity.
  - vm_compute. reflexivity.
  - vm_compute. reflexivity.
  - vm_compute. reflexivity.
  - intros []; vm_compute; reflexivity.
  - done.
  - right. intros k i _. unfold emptyHeader. destruct k; apply isSet_replicate.
Defined.

(** The peer is in round 1 and has two of four prevotes there: more than a third. *)
Definition laterVote (i : Z) : Message :=
  okOr (mkMessage (mkMessageData 0 0 0 None 0 "") []) (makeMessageFromBytes (λ _, 4) (voteBytes MessageType_Prevote 1 (Some proposedHash) i)).
Definition laterInputs : list RoundInput := InMessage ∘ laterVote <$> [1; 2].
Definition laterRound : RoundState := foldl feed (configure 1 1 toyWallets 1 newRoundState) laterInputs.
Lemma laterRound_wf : wfRoundState 4 laterRound.
Proof. apply feed_wf; [by apply configure_wf | apply inputs_of_check; vm_compute; reflexivity]. Qed.
Definition laterVoter : Peer := mkPeer "10.0.0.3" (headerOf laterRound).

Lemma honest_full_answer_witness :
  checkAnswer fourAt (fullJob fourAt (emptyHeader 0) laterVoter)
    (honest accept (getMessagesFor fourAt 1 1 (λ _, laterRound) (emptyHeader 0))) (0, 0) ≠ Ok tt.
Proof.
  intros Hok. apply (honest_full_answer fourAt laterRound laterRound (λ _, laterRound) (emptyHeader 0) (emptyHeader 0) laterVoter accept (0, 0)) in Hok.
  - destruct Hok as [Hmaj _]. vm_compute in Hmaj. discriminate Hmaj.
  - exact laterRound_wf.
  - exact laterRound_wf.
  - apply later_refl.
  - apply ownVotes_of_check. vm_compute. reflexivity.
  - reflexivity.
  - reflexivity.
  - vm_compute. reflexivity.
  - vm_compute. reflexivity.
  - vm_compute. reflexivity.
  - vm_compute. split; [discriminate | reflexivity].
  - done.
  - vm_compute. reflexivity.
  - done.
Defined.

(** ** Blocks

    A peer that has block 1 answers the request of a node that has the genesis block
    only; the commit of block 1 is parsed, verified and handed over. *)
Definition commitProof1 : CommitProof :=
  match serializeMessageForSignature (mkSignatureMessageData MessageType_Precommit 1 1 (Some proposedHash)) toyContext with
  | Ok data => mkCommitProof 1 (blsSign data []) [true; true; true; false]
  | Throw _ => mkCommitProof 0 "" []
  end.
Definition commitBytes1 : list byte := okOr [] (serializeCommit proposedBlock commitProof1).

Definition blockPeer (blockNumber : Z) : Peer := mkPeer "10.0.0.4" (mkHeaderData blockNumber 0 [] [] None).
Definition atGenesis : Surroundings := mkSurroundings (newNode toyChain 1004000) [blockPeer 2] 0.
Definition twoMegabytes (n : Z) : Z := 2097152.

Definition sync1 : BlockDownloader := (downloadBlocks atGenesis (blockPeer 2) newBlockDownloader).2.
Definition sync2 : BlockDownloader := (onBlocks configured twoMegabytes atGenesis 0 (Ok [commitBytes1]) sync1).2.
Definition sync3 : BlockDownloader := (onParsed atGenesis 0 sync2).2.
Definition sync4 : BlockDownloader := (onVerified configured twoMegabytes atGenesis 0 sync3).2.
Definition syncWorlds : list World := replicate 4 (su_world atGenesis).

Lemma sync1_reachable : bdReachable configured twoMegabytes (replicate 1 (su_world atGenesis)) sync1.
Proof. eapply reach_step; [apply reach_new | apply bd_header]. Qed.
Lemma sync3_reachable : bdReachable configured twoMegabytes (replicate 3 (su_world atGenesis)) sync3.
Proof. eapply reach_step; [eapply reach_step; [apply sync1_reachable | apply bd_blocks] | apply bd_parsed]. Qed.
Lemma sync4_reachable : bdReachable configured twoMegabytes syncWorlds sync4.
Proof. eapply reach_step; [apply sync3_reachable | apply bd_verified]. Qed.

Definition handed1 : Handed := default (mkHanded toyGenesisCommit "") (head (bd_handed sync4)).
Lemma sync4_handed : bd_handed sync4 = [handed1] ∧ b_hash (c_block (hc_commit handed1)) = proposedHash.
Proof. vm_compute. done. Qed.

Lemma block_jobs_ordered_witness : bj_status <$> bd_jobs sync4 = [Processing] ∧ (length (bd_runs sync4) ≤ 1)%nat.
Proof.
  split; [vm_compute; reflexivity |].
  apply (block_jobs_ordered configured twoMegabytes syncWorlds sync4 sync4_reachable).
Defined.

Lemma block_handlers_end_witness : (onProcessed configured twoMegabytes atGenesis 0 (Ok Accepted) sync4).1 = Ok tt.
Proof. apply (block_handlers_end configured twoMegabytes syncWorlds atGenesis sync4 sync4_reachable). Defined.

(** The node keeps its chain all the while. *)
Lemma genesis_keeps n : keepsChain (replicate n (su_world atGenesis)) atGenesis.
Proof.
  split.
  - intros b Hb. change (match Ok b with Ok b => b_number b | Throw _ => 0 end = storeBlockNumber atGenesis).
    rewrite <- Hb. vm_compute. reflexivity.
  - intros w. destruct n; [by intros ? |]. cbn [replicate head]. intros Hw%(inj Some). rewrite <- Hw. apply Z.le_refl.
Qed.
Lemma calls_run n c d : bdRun configured twoMegabytes (replicate n (su_world atGenesis)) d →
  match c with CallProcessed _ _ => False | _ => True end →
  bdRun configured twoMegabytes (replicate (S n) (su_world atGenesis)) (bdCall configured twoMegabytes atGenesis c d).2.
Proof. intros Hd Hc. apply run_call; [exact Hd | apply genesis_keeps | by destruct c]. Qed.
Lemma sync4_run : bdRun configured twoMegabytes syncWorlds sync4.
Proof.
  exact (calls_run 3 (CallVerified 0) _ (calls_run 2 (CallParsed 0) _ (calls_run 1 (CallBlocks 0 (Ok [commitBytes1])) _
    (calls_run 0 (CallHeader (blockPeer 2)) _ (run_new configured twoMegabytes) I) I) I) I).
Qed.

Lemma handed_commits_verified_witness :
  (∃ w, w ∈ syncWorlds ∧ (hasValidCommitSignature (hc_commit handed1) (hc_previous handed1) w).1 = Ok true) ∧
  ((∃ w b, w ∈ syncWorlds ∧ getLastBlock (w_chain w) = Ok b ∧ hc_previous handed1 = b_hash b ∧
           b_number b = b_number (c_block (hc_commit handed1)) - 1) ∨
   ∃ h', h' ∈ bd_handed sync4 ∧ b_number (c_block (hc_commit h')) = b_number (c_block (hc_commit handed1)) - 1 ∧
         hc_previous handed1 = b_hash (c_block (hc_commit h'))).
Proof.
  destruct (handed_commits_verified configured twoMegabytes syncWorlds sync4 handed1 sync4_reachable) as [Hver Hprevious].
  - rewrite (proj1 sync4_handed). left.
  - split; [exact Hver | apply Hprevious, sync4_run].
Defined.

Lemma genesis_wellHashed n w : w ∈ replicate n (su_world atGenesis) → wellHashed (w_chain w).
Proof. intros [-> _]%elem_of_replicate. exact toyChain_wellHashed. Qed.

Lemma downloader_refines_witness :
  ∃ actions, w_pendingCommits (envBatch actions (su_world atGenesis)) = bd_pending sync4 ∧
    takenBy actions (su_world atGenesis) = [hc_commit handed1].
Proof.
  destruct (downloader_refines configured twoMegabytes (replicate 3 (su_world atGenesis)) atGenesis sync3 sync4 sync3_reachable)
    as (actions & begun & _ & Hp & Hh & Ht).
  - apply bd_verified.
  - apply genesis_wellHashed.
  - vm_compute. reflexivity.
  - exists actions. split; [exact Hp |]. rewrite Ht. rewrite (proj1 sync4_handed) in Hh.
    assert (bd_handed sync3 = []) as Hnone by (vm_compute; reflexivity). rewrite Hnone in Hh. cbn in Hh. by rewrite <- Hh.
Defined.

(** Two jobs of one block each; the first one's bytes are garbage and the node has
    committed block 1 itself. *)
Definition jobAt (id : nat) (number : Z) (status : JobStatus) : BlockJob :=
  mkBlockJob id (blockPeer 4) number number [[]] status.
Definition garbled : BlockDownloader :=
  mkBlockDownloader [jobAt 0 1 Processing; jobAt 1 2 ReadyToProcess] 2 []
    [mkRun (jobAt 0 1 ReadyToProcess) [] 1 (b_hash toyGenesis) (Parsing [[]])] [] [] [].
Definition atBlock1 : Surroundings :=
  mkSurroundings (newNode (storeOnCommit proposedBlock 1 toyChain).2 1010000) [blockPeer 4] 0.

Lemma replay_stalls_witness :
  bd_jobs (onParsed atBlock1 0 garbled).2 = [jobAt 1 2 ReadyToProcess] ∧ bd_runs (onParsed atBlock1 0 garbled).2 = [].
Proof.
  split; [| vm_compute; reflexivity].
  destruct (traverse (parseCommit (w_chain (su_world atBlock1))) [[]]) as [l|e] eqn:He; [vm_compute in He; discriminate He |].
  apply (replay_stalls configured twoMegabytes atBlock1 garbled (mkRun (jobAt 0 1 ReadyToProcess) [] 1 (b_hash toyGenesis) (Parsing [[]]))
           [[]] (jobAt 0 1 Processing) (jobAt 1 2 ReadyToProcess) [] e (blockPeer 4));
    [reflexivity | reflexivity | reflexivity | vm_compute; discriminate | reflexivity | exact He | reflexivity | left | vm_compute; reflexivity].
Defined.

Lemma get_blocks_fits_witness :
  ∃ blocks, getBlocksFor fullBlocks 3 1 3 = Ok blocks ∧
    sizeOfBlocks blocks + Z.of_nat (length blocks) * PROTO_BLOCK_OVERHEAD + RESPONSE_ENVELOPE_RESERVE ≤ MAX_PAYLOAD_CLIENT.
Proof.
  apply (get_blocks_fits fullBlocks 3 1 3).
  - lia.
  - unfold MAX_DOWNLOAD_BLOCKS. lia.
  - apply Forall_forall. intros b Hb. by apply fullBlocks_ok.
  - change (1 + 3 - 1) with 3. rewrite fullBlocks_range. unfold fullBlocks. cbn [length]. lia.
Defined.

Definition fullJobOf : BlockJob :=
  mkBlockJob 0 (blockPeer 4) 1 3 (sk_serialized <$> take 2 fullBlocks) ReadyToProcess.

Lemma honest_truncation_banned_witness :
  bd_banned (handleMissingBlocks twoMegabytes atGenesis fullJobOf newBlockDownloader).2 = [pe_ip (blockPeer 4)].
Proof.
  apply (honest_truncation_banned twoMegabytes atGenesis fullJobOf newBlockDownloader); [done |].
  rewrite (getBlocks_read fullBlocks 3 1 3 fullBlocks), fullBlocks_sent; [done | lia | unfold MAX_DOWNLOAD_BLOCKS; lia | apply fullBlocks_range].
Defined.
