(* ===== verification/LedgerScenario.v ===== *)
(** * Instances for the peers, the transactions and the ledger

    For each theorem of those files with hypotheses, an input on which they hold: a
    peer that is accepted by the node of [Scenario], and a chain of two blocks with a
    transaction each, one of them in bytes that are not canonical. *)
From S2P Require Import Prelude Bytes ByteBuffer Serializer Messages Blocks Proposals Commits Canonical Rlp Transactions.
From S2P Require Import JsMap Quorum BlockchainUtils ValidatorSet RoundState ConsensusStorage Node BlockProcessor Ledger.
From S2P Require Import Processors CommitBatch Peers PeersTheorems Scenario Witnesses P2PScenario.

(** ** Peers *)
#[export] Instance toyNetworking : Networking := {|
  isMatch ip pattern := Some (String.eqb ip pattern);
  ipaddr_process ip := Some ip;
  ipaddr_kind _ := Some "ipv4"%string;
  networkAddress ip := ip;
  interfaceAddresses := [];
  semver_valid _ := true;
  semver_satisfies _ version minimum := String.eqb version minimum;
|}.
Definition peersConfig (skip : bool) : PeersConfig :=
  mkPeersConfig false [] [] 5 20 skip ["0.0.1"%string] true 0 "nethash" "devnet".
Definition newcomer : string := "10.0.0.9".
Definition newcomerPeer : PeerObject := mkPeerObject 0 newcomer.

(** The peer is banned while its transaction pool is being asked. *)
Definition bannedMeanwhile : Peers :=
  onTxPoolVerified 0 true (banPeer (peersConfig true) newcomer OtherError (validateAndAcceptPeer (peersConfig true) newcomer false (newPeers 0))).

Lemma banned_peer_absent_witness : (isBanned newcomer bannedMeanwhile).1 = true ∧ hasPeer newcomer bannedMeanwhile = false.
Proof.
  split; [vm_compute; reflexivity |]. apply (banned_peer_absent (peersConfig true) 0).
  - eapply rtc_l; [apply peer_accept |]. eapply rtc_l; [apply peer_ban |]. apply rtc_once. apply peer_txpool.
  - vm_compute. reflexivity.
Defined.

(** The peer has the node's block 1. *)
Definition viewAt1 : NodeView := mkNodeView (storeOnCommit proposedBlock 1 toyChain).2 (λ _, None) None.
Definition goodStatus : Status := mkStatus "0.0.1" "nethash" 1.
Definition accepting1 : Peers := validateAndAcceptPeer (peersConfig false) newcomer false (newPeers 0).
Definition accepting2 : Peers := onStatus (peersConfig false) 0 (inr goodStatus) viewAt1 accepting1.
Definition accepting3 : Peers := onBlock (peersConfig false) 0 (inr [commitBytes1]) viewAt1 accepting2.
Definition accepting4 : Peers := onTxPoolVerified 0 true accepting3.

Lemma accepting4_reached : rtc (peerStep (peersConfig false)) (newPeers 0) accepting4.
Proof. eapply rtc_l; [apply peer_accept |]. eapply rtc_l; [apply peer_status |]. eapply rtc_l; [apply peer_block |]. apply rtc_once. apply peer_txpool. Qed.

Lemma peers_verified_witness :
  mapGet (pp_peers accepting4) newcomer = Some newcomerPeer ∧
  ∃ v, v ∈ pp_verified accepting4 ∧ ve_peer v = newcomerPeer ∧ sound (peersConfig false) v.
Proof.
  assert (mapGet (pp_peers accepting4) newcomer = Some newcomerPeer) as Hp by (vm_compute; reflexivity). split; [exact Hp |].
  destruct (peers_verified (peersConfig false) 0 accepting4 accepting4_reached) as (Hall & _). destruct (Hall newcomer newcomerPeer Hp) as [_ Hv]. by apply Hv.
Defined.

(** The pool worker fails; the peer is then disposed of. *)
Definition orphan1 : Peers := onWorker 0 (Throw (JSError "worker")) accepting4.
Definition orphan2 : Peers := disposePeer newcomer orphan1.
Definition orphan3 : Peers := validateAndAcceptPeer (peersConfig false) newcomer false orphan2.

Lemma failed_acceptance_sticks_witness : hasPendingPeer newcomer orphan3 = true ∧ hasPeer newcomer orphan3 = false.
Proof.
  destruct (failed_acceptance_sticks (peersConfig false) 0 accepting4 0%nat (mkCall newcomerPeer false AwaitWorker) (JSError "worker") orphan2 orphan3) as [Hpending Habsent].
  - exact accepting4_reached.
  - vm_compute. reflexivity.
  - reflexivity.
  - apply rtc_once, peer_dispose.
  - apply rtc_once, peer_accept.
  - split; [exact Hpending |]. apply Habsent. vm_compute. reflexivity.
Defined.

(** ** Transactions *)
#[export] Instance toyRlp : ViemRlp := {| toRlp := rlpList; numberToBytes z := Ok (beMin z) |}.
Lemma substring_whole s : String.substring 0 (String.length s) s = s.
Proof. induction s as [|a s IH]; [done |]. cbn. by rewrite IH. Qed.
Lemma after0x_text s : after0x ("0x" +:+ s) = s.
Proof. transitivity (String.substring 0 (String.length s - 0) s); [reflexivity |]. rewrite Nat.sub_0_r. apply substring_whole. Qed.
Lemma toBytes_hex b : viem_toBytes ("0x" +:+ hexEncode b) = Ok b.
Proof. cbn [viem_toBytes toyViem]. by rewrite after0x_text, hexDecode_Encode. Qed.
#[export] Instance toyLaws : ViemLaws.
Proof. split; [done | done | apply toBytes_hex |]. intros b a [= <-]. split; [done | apply toBytes_hex]. Qed.

#[export] Instance toyWalletCrypto : WalletCrypto := {|
  isLowS _ _ _ := true;
  recoverPublicKey _ _ _ _ := Ok "02"%string;
  addressFromPublicKey _ := Ok (toyAddress 1);
  legacyAddressFromPublicKey _ := Ok "D1"%string;
|}.
Definition toyRules : TransactionRules := mkTransactionRules 10 5 100 21000 2000000 1 0 [].
Definition anyText (s : string) : bool := true.

Definition signaturePart (n : Z) : string := hexEncode (be_encode 32 n).
Definition transfer : TransactionSerializable :=
  mkTransactionSerializable 10 (Some (toyAddress 2)) 1000 7 21000 3 "0x" 0 (signaturePart 77) (signaturePart 99) None.

Lemma signaturePart_ok n : 0 < n < SECP256K1_ORDER → isSignaturePart (signaturePart n).
Proof.
  intros Hn. exists (be_encode 32 n). rewrite length_be_encode. split_and!; [done | done | |];
    rewrite be_decode_encode by (change (256 ^ Z.of_nat 32) with (2 ^ 256); unfold SECP256K1_ORDER in *; lia); lia.
Qed.

Lemma transfer_ok : wfTransaction transfer.
Proof.
  split; cbn; try (unfold MAX_SAFE; lia); try (by left).
  - intros a [= <-]. by exists (replicate 20 (byte_of_Z 18)).
  - by exists [].
  - by apply signaturePart_ok.
  - by apply signaturePart_ok.
  - done.
Qed.

Definition transferBytes : list byte := okOr [] (serializeTransaction transfer).
Definition transferFields : list (list byte) := okOr [] (fieldsOf transfer).
(** The same transaction with two fields of junk. *)
Definition junkBytes : list byte := rlpList (transferFields ++ [[x01]; [x02]]).

Lemma transaction_roundtrip_witness : serializeTransaction transfer = Ok transferBytes ∧ deserializeTransaction transferBytes = Ok transfer.
Proof.
  destruct (transaction_roundtrip transfer transfer_ok) as (c & Hc & Hread). assert (serializeTransaction transfer = Ok transferBytes) as Hs by (vm_compute; reflexivity).
  split; [exact Hs |]. rewrite Hs in Hc. injection Hc as <-. apply Hread. vm_compute. reflexivity.
Defined.

Lemma transaction_shortest_witness :
  deserializeTransaction junkBytes = Ok transfer ∧ (length transferBytes < length junkBytes)%nat ∧ deserializeTransaction transferBytes = Ok transfer.
Proof.
  assert (deserializeTransaction junkBytes = Ok transfer) as Hj by (vm_compute; reflexivity).
  destruct (transaction_shortest junkBytes transfer Hj) as (c & Hc & _ & _ & Hread); [vm_compute; reflexivity |].
  assert (serializeTransaction transfer = Ok transferBytes) as Hs by (vm_compute; reflexivity). rewrite Hs in Hc. injection Hc as <-.
  split; [exact Hj |]. split; [vm_compute; lia | exact Hread].
Defined.

Definition readTransfer (bytes : list byte) : result Transaction := transactionFromBytes anyText anyText anyText toyRules bytes.
Definition transferTx : Transaction := okOr (newTransaction transfer "" "" "" "" []) (readTransfer transferBytes).

Lemma transaction_malleable_witness : readTransfer junkBytes = Ok (withSerialized junkBytes transferTx) ∧ (length (rlpList transferFields) < length junkBytes)%nat.
Proof.
  apply (transaction_malleable anyText anyText anyText toyRules transferBytes transferTx transferFields [x01] [x02] junkBytes).
  - vm_compute. reflexivity.
  - vm_compute. reflexivity.
  - vm_compute. reflexivity.
  - vm_compute. reflexivity.
  - by left.
Defined.

(** ** Commits *)
Definition fourFor (o : option Z) : Z := 4.
Definition anyTx (tx : Transaction) : bool := true.
Definition readToy (bytes : list byte) : result Commit :=
  commitFromBytes (H0 := transactionCodec anyText anyText anyText toyRules) fourFor anyText anyTx bytes.

Definition headerWith (number : Z) (txs : list Transaction) : BlockHeaderRaw :=
  let h := toyHeader number 0 (1000000 + 8000 * number) (b_hash toyGenesis) (toyAddress 0) toyReveal in
  mkBlockHeaderRaw (bh_version h) (bh_timestamp h) (bh_number h) (bh_round h) (bh_parentHash h) (bh_stateRoot h) (bh_logsBloom h)
    (Z.of_nat (length txs)) 21000 0 0 (Z.of_nat (length (payloadBytes txs))) (bh_transactionsRoot h) (bh_proposer h) (bh_randaoReveal h).
Definition commitBytesOf (number : Z) (txs : list Transaction) : list byte :=
  okOr [] (
    blockBytes ← serializeWithTransactions (headerWith number txs) txs;
    serializeCommit (newBlock (mkBlockHeader (headerWith number txs) "") (hexEncode blockBytes) txs) commitProof1).

Definition bytesAt1 : list byte := commitBytesOf 1 [transferTx].
Definition commitAt1 : Commit := okOr toyGenesisCommit (readToy bytesAt1).
Definition bytesAt2 : list byte := commitBytesOf 2 [].
Definition commitAt2 : Commit := okOr toyGenesisCommit (readToy bytesAt2).
Lemma commitAt1_read : readToy bytesAt1 = Ok commitAt1.
Proof. vm_compute. reflexivity. Qed.
Lemma commitAt2_read : readToy bytesAt2 = Ok commitAt2.
Proof. vm_compute. reflexivity. Qed.

Definition canonicalb (t : BlockTransaction) : bool :=
  match serializeTransaction (serializable (bt_transaction t)) with
  | Ok bytes => bool_decide (bytes = tx_serialized (bt_transaction t))
  | Throw _ => false
  end.
Lemma canonicalb_spec t : canonicalb t = true ↔ serializeTransaction (serializable (bt_transaction t)) = Ok (tx_serialized (bt_transaction t)).
Proof. unfold canonicalb. destruct (serializeTransaction _) as [bytes|]; [| done]. rewrite bool_decide_eq_true. split; [by intros -> | by intros [= ->]]. Qed.
Lemma canonical_check c : forallb canonicalb (b_transactions (c_block c)) = true ↔ canonicalTransactions c.
Proof.
  unfold canonicalTransactions. rewrite forallb_forall, Forall_forall. split; intros Hall t Ht; apply canonicalb_spec, Hall; by apply list_elem_of_In.
Qed.
Lemma commitAt1_canonical : canonicalTransactions commitAt1.
Proof. apply canonical_check. vm_compute. reflexivity. Qed.
Lemma commitAt2_canonical : canonicalTransactions commitAt2.
Proof. apply canonical_check. vm_compute. reflexivity. Qed.

Lemma commit_bytes_canonical_witness : serializeCommit (c_block commitAt1) (c_proof commitAt1) = Ok bytesAt1.
Proof.
  apply (commit_bytes_canonical (H0 := transactionCodec anyText anyText anyText toyRules) getAddress_toBytes (codec_keeps anyText anyText anyText toyRules) fourFor anyText anyTx).
  exact commitAt1_read.
Defined.

Lemma stored_commit_roundtrip_witness :
  commitFromStorage 10 (λ _, 4) (prepareCommitData commitAt1) = Ok commitAt1 ∧ readToy (hexDecode (c_serialized commitAt1)) = Ok commitAt1.
Proof. apply (stored_commit_roundtrip anyText anyText anyText toyRules fourFor anyTx bytesAt1); [exact commitAt1_read | exact commitAt1_canonical]. Defined.

(** The same block with the junk in its transaction. *)
Definition junkTx : Transaction := withSerialized junkBytes transferTx.
Definition junkCommitBytes : list byte := commitBytesOf 1 [junkTx].
Definition junkCommit : Commit := okOr toyGenesisCommit (readToy junkCommitBytes).
Lemma junkCommit_read : readToy junkCommitBytes = Ok junkCommit.
Proof. vm_compute. reflexivity. Qed.
Lemma junkCommit_not_canonical : ¬ canonicalTransactions junkCommit.
Proof. intros Hall%canonical_check. vm_compute in Hall. discriminate Hall. Qed.

Lemma malleated_commit_unreadable_witness :
  ∃ c', commitFromStorage 10 (λ _, 4) (prepareCommitData junkCommit) = Ok c' ∧ readToy (hexDecode (c_serialized c')) = Throw (NamedError "InvalidBlockBytesError").
Proof. apply (malleated_commit_unreadable anyText anyText anyText toyRules fourFor anyTx junkCommitBytes); [exact junkCommit_read | exact junkCommit_not_canonical]. Defined.

Definition toyLedger : list Commit := [commitAt1; commitAt2].
Lemma toyLedger_ascending : ascending toyLedger.
Proof. constructor; [constructor; constructor |]. constructor; [| constructor]. vm_compute. reflexivity. Qed.
Lemma toyLedger_read c : c ∈ toyLedger → ∃ bs, readToy bs = Ok c ∧ canonicalTransactions c.
Proof.
  intros [->|Hc]%elem_of_cons; [exists bytesAt1; split; [exact commitAt1_read | exact commitAt1_canonical] |].
  apply list_elem_of_singleton in Hc as ->. exists bytesAt2. split; [exact commitAt2_read | exact commitAt2_canonical].
Qed.

Lemma restart_restores_chain_witness :
  ∃ s, commitAll toyLedger (mkStore toyChain (openDatabase newTables)) = (Ok tt, s) ∧
    ch_totalRound (so_chain s) = 4 ∧
    ∃ s', initPostGenesisState 10 (λ _, 4) (mkStore toyChain (openDatabase (db_tables (so_database s)))) = (Ok tt, s') ∧
      ch_lastBlock (so_chain s') = ch_lastBlock (so_chain s).
Proof.
  destruct (restart_restores_chain anyText anyText anyText toyRules fourFor anyTx toyLedger toyChain) as (s & Hs & _ & Hrestart).
  - done.
  - exact toyLedger_ascending.
  - reflexivity.
  - exact toyLedger_read.
  - exists s. destruct (Hrestart toyChain) as (s' & Hs' & _ & Hlast & _). split; [exact Hs |]. split; [| exists s'; split; [exact Hs' | exact Hlast]].
    assert (s = (commitAll toyLedger (mkStore toyChain (openDatabase newTables))).2) as -> by exact (eq_sym (f_equal snd Hs)). vm_compute. reflexivity.
Defined.

Lemma database_lookups_witness :
  ∃ s, commitAll toyLedger (mkStore toyChain (openDatabase newTables)) = (Ok tt, s) ∧
    getBlockByHash 10 (λ _, 4) (b_hash (c_block commitAt2)) (so_database s) = Ok (Some (c_block commitAt2)) ∧
    getBlockByHash 10 (λ _, 4) "none" (so_database s) = Ok None ∧ getTransactionByHash 10 "none" (so_database s) = Ok None.
Proof.
  destruct (database_lookups anyText anyText anyText toyRules fourFor anyTx toyLedger toyChain) as (s & Hs & Hfound & Hnone & _ & Htx).
  - exact toyLedger_ascending.
  - reflexivity.
  - exact toyLedger_read.
  - apply (bool_decide_eq_true_1 (NoDup _)). vm_compute. reflexivity.
  - apply (bool_decide_eq_true_1 (NoDup _)). vm_compute. reflexivity.
  - exists s. split; [exact Hs |]. split; [apply Hfound; right; left |].
    split; [apply Hnone | apply Htx]; apply (bool_decide_eq_true_1 (_ ∉ _)); vm_compute; reflexivity.
Defined.
